(* ===== verification/_CoqProject ===== *)
-Q . S2P
Prelude.v
RustStr.v
Trie.v
IpMatch.v
Extern.v
Format.v
Compiler.v
Loader.v
Matcher.v
MatchSafe.v
SingBox.v
CacheFile.v
Inbound.v
QuicCrypto.v
Sniff.v
Router.v
RouterSpec.v
DnsWire.v
DnsTopo.v
FakeIp.v
DnsCache.v
DnsResolver.v
TunNat.v
TunPacket.v
TunSpec.v
TunUid.v
Config.v
ConfigSpec.v
Provider.v
Group.v
OutboundMgr.v
Stats.v
Dispatcher.v
Http.v
ClashApi.v
Wire.v
Socks.v
Tunnels.v
Vmess.v
VmessStream.v
Shadowsocks.v
Hy2Codec.v
Hy2.v
Tuic.v
DnsTransport.v
Reality.v
Xhttp.v
Transparent.v
TunRoute.v
OutboundCfg.v
Subscription.v
Dial.v
App.v
Cli.v
