(* ===== verification/Prelude.v ===== *)
(** * Reflex: a verification library of the proxy

    Reflex ([src/src]) is a rule-based proxy.  Inbounds accept connections and
    datagrams with their target; the dispatcher sniffs them, asks the router which
    outbound they take, and hands them over; the router matches rule sets; the DNS
    module resolves names, for a part of them with fake addresses that the
    dispatcher maps back; groups of outbounds select one of their nodes, some of
    which come from subscriptions (providers); a cache file keeps what must
    survive a restart; an HTTP interface shows and changes the state.  This library
    models these parts as executable functions and step relations and proves what
    makes them correct.

    ** Conventions

    A byte or machine integer is a [Z], with [wrap] where the release profile
    (overflow checks off) wraps; a [str] or a slice is a list of bytes.  A function that can panic returns a
    [run]: [Ret], [Panic] or [Stuck] (a loop without fuel); fallible functions
    return a [result].  Maps are stdpp's [gmap]; where the source iterates over a
    [HashMap] the order is an argument about which only that it lists the map is
    assumed.  Times are integers.  Third-party crates are classes of operations
    and, apart from them, classes of laws, with a concrete instance the witnesses
    run on.  Tasks that run concurrently are cut at their awaits and lock
    acquisitions into the steps of a relation.

    ** Parts

    - [Prelude], [RustStr]: integers, bytes, results, and Rust's [str] and
      [std::net] text functions.
    - Rule sets ([src/src/ruleset]): [Trie] (trie.rs), [IpMatch] and [Matcher]
      (matcher.rs), [Format] (format.rs, error.rs), [Compiler] (compiler.rs),
      [Loader] (loader.rs), with [Extern] for the crates fst and regex.
      [Trie.trie_matches_spec]: the trie answers whether a stored suffix covers a
      domain.  [Loader.serialize_load_roundtrip]: a compiled file loads as what was
      compiled.  [Matcher.ruleset_from_text_spec]: from the text of the rules to the
      answer of a query.  [Matcher.legacy_fst_equiv]: both file versions answer alike.
      [MatchSafe.ruleset_never_panics]: no file and no query panics.
    - [Inbound] (inbound/mod.rs), [QuicCrypto] and [Sniff] (app/sniff.rs): targets,
      the stream a sniffer may peek, and the detectors.  The server name of every
      well-formed TLS greeting is found; packets with a standard QUIC tag are not.
    - [Router] (router/mod.rs, config/route.rs, app/ruleset_registry.rs) with
      [RouterSpec]: first match in the order of the configuration, and the second
      passes after sniffing and resolving end.
    - DNS ([src/src/dns]): [DnsWire] (message helpers), [DnsTopo] (start-up order),
      [FakeIp] (the pool of upstream.rs), [DnsCache] (cache.rs), [DnsResolver]
      (rules and query handling of mod.rs as a step relation over all tasks): waiters
      on one in-flight query are answered, answers never cross queries, fake pools stay
      one-to-one, cached answers are the last ones set and fresh.
    - [CacheFile] (experimental/cache_file.rs): the write queue and tables.
    - TUN (inbound/tun.rs): [TunNat] (port translation), [TunPacket] with [TunSpec]
      (packets), [TunUid] (excluded users).
    - [Config] with [ConfigSpec] (config/*.rs): [validate] accepts exactly the
      well-formed configurations.
    - [Provider] (provider/mod.rs), [Group] (outbound/group.rs), [OutboundMgr]
      (app/outbound_mgr.rs): names of nodes stay unique, selection and measuring,
      and following groups ends for every accepted configuration.
    - [Stats] (app/stats.rs): the counters refine a ledger of what happened.
    - [Dispatcher] (app/dispatcher.rs): how every connection and datagram is routed,
      sniffed and handed over; UDP sessions are isolated and idle ones collected.
    - [Http] and [ClashApi] (app/clash_api.rs): requests from any chunking, when one
      panics, the secret, selection over the interface, the connection tracker.
    - Protocols at both ends.  [Wire] is the calculus of handshakes over a byte
      stream; [Socks] (outbound/socks.rs, inbound/mixed.rs), [Tunnels] (VLESS and
      Trojan: vless.rs, proto.rs, trojan.rs and their servers, and the relay of
      outbound/mod.rs), [Vmess] and [VmessStream] (outbound/vmess, vmess_server.rs),
      [Shadowsocks] (shadowsocks.rs, shadowsocks_server.rs), [Hy2Codec] and [Hy2]
      (hy2.rs, hysteria2_server.rs), [Tuic] (tuic.rs, tuic_server.rs).  Their theorems
      play an outbound against the repository's own inbound, or against a server that
      keeps to the format of the comments where the two differ: [Socks.socks_ends_meet],
      [Tunnels.tunnel_headers], [Vmess.vmess_handshake], [Shadowsocks.ss_session];
      streams deliver what was sent whatever pieces arrive
      ([VmessStream.vmess_stream_roundtrip], [Hy2.hy2_udp_reassembles]); where two ends
      of the repository cannot understand each other, that is proved
      ([Tuic.quic_ends_never_meet]).
    - Transports of outbounds: [Reality] (reality.rs), [Xhttp] (xhttp.rs) and [Dial]
      (tls.rs and the dials of vless.rs, trojan.rs, vmess/mod.rs, shadowsocks.rs,
      server_tls.rs): what the first record says, how uploads are cut into requests,
      and that TLS is never skipped when it is enabled.  [OutboundCfg] has the full
      settings of the outbounds (config/outbound.rs).
    - [DnsTransport] (dns/upstream.rs): queries over UDP, TCP, TLS, QUIC and HTTPS, with
      detours and the resolution of server names; every query ends.
    - [Transparent] (tproxy.rs, redir.rs, inbound/dns.rs, direct.rs) and [TunRoute] (the
      commands of auto_route in tun.rs): datagrams are handed on once and in order;
      setup adds exactly the rules of its plan and teardown takes them away.
    - [Subscription] (provider/remote.rs, health.rs and parser/): formats and
      conversions of subscriptions, cache and updates of a provider.
    - [SingBox] (the JSON import of ruleset/compiler.rs).
    - [App] (app/mod.rs) and [Cli] (main.rs, [resolve_paths] of config/mod.rs): the tasks
      that keep groups in step with their providers, the end of the tasks, and the
      command line; [Cli.ruleset_commands] runs the rule-set commands end to end.
    The composition is visible in statements that span files: [Dispatcher] uses
    [Router], [Sniff], [FakeIp] and [DnsResolver]; [OutboundMgr] uses [ConfigSpec]
    and [Group]; [ClashApi] uses [OutboundMgr] and [Stats].

    ** Fuel

    Loops over untrusted bytes get one unit of fuel per byte (each turn consumes one
    at least), the walk over groups one per outbound and one more, the topological
    sort and the cycle search one per node and edge; the theorems prove that [Stuck]
    is not reached or is unreachable from the stated inputs.

    ** Not modelled

    The commands of the operating system are the list of what is run; what they do
    is an interface.  serde's derived parsers are not modelled, but for the two
    structures of [SingBox]: the model starts at the parsed value.  Of the protocols, what is not here is inside
    libraries: TLS and QUIC, the WebSocket client, the HTTP client, the
    ciphers and hashes (classes of operations), and the sockets, whose results are
    arguments.  Of the start-up, building the components one after the other,
    spawning the inbounds, the signals and the log subscriber.  Of the QUIC and
    plain stream adapters, flush and shutdown that only delegate.

    ** Plan

    The order followed was: rule sets, routing, DNS, configuration and groups,
    dispatching, the control API, the protocols, transports and TUN routes,
    subscriptions, start-up and command line.  What could still be added without the
    libraries: the structures of the inbound configuration that no check reads, the
    construction of the DNS resolver from its configuration, the listing of the
    outbounds' status, and the periodic messages of the control API. *)

From Stdlib Require Export ZArith Lia Bool.
From stdpp Require Export gmap strings list sorting.

Declare Scope reflex_scope.
Delimit Scope reflex_scope with rx.
#[global] Open Scope Z_scope.

(** ** Bytes and Rust strings *)

(** A [u8] is a [Z] in [0, 256); a byte slice, a [Vec<u8>] and the UTF-8
    bytes of a [str] are lists of them. *)
Abbreviation bytes := (list Z) (only parsing).
Abbreviation str := (list Z) (only parsing).

Definition is_byte (b : Z) : Prop := 0 <= b < 256.

#[export] Instance is_byte_dec b : Decision (is_byte b).
Proof. unfold is_byte. apply _. Defined.

Definition bytes_ok (l : bytes) : Prop := Forall is_byte l.

#[export] Instance bytes_ok_dec l : Decision (bytes_ok l).
Proof. unfold bytes_ok. apply _. Defined.

(** The bytes of a string literal. *)
Fixpoint lit (s : string) : str :=
  match s with
  | EmptyString => []
  | String c s => Z.of_N (Ascii.N_of_ascii c) :: lit s
  end.

(** [slice.len()] as an integer. *)
Definition len {A} (l : list A) : Z := Z.of_nat (length l).

(** ** Machine-width integers *)

Definition wrap (w z : Z) : Z := z mod 2 ^ w.

Definition in_width (w z : Z) : Prop := 0 <= z < 2 ^ w.

#[export] Instance in_width_dec w z : Decision (in_width w z).
Proof. unfold in_width. apply _. Defined.

(** [x as u8], [x as u16], [x as u32]. *)
Definition as_u8 := wrap 8.
Definition as_u16 := wrap 16.
Definition as_u32 := wrap 32.
Definition as_u64 := wrap 64.

(** [!x], [x << n] and [x >> n] at width [w] (the shift amount is in range). *)
Definition wnot (w x : Z) : Z := 2 ^ w - 1 - x.
Definition wshl (w x n : Z) : Z := wrap w (Z.shiftl x n).
Definition wshr (x n : Z) : Z := Z.shiftr x n.

(** [to_le_bytes], [to_be_bytes], [from_le_bytes], [from_be_bytes]. *)
Fixpoint to_le_bytes (n : nat) (z : Z) : bytes :=
  match n with
  | O => []
  | S n => (z mod 256) :: to_le_bytes n (z / 256)
  end.

Fixpoint from_le_bytes (l : bytes) : Z :=
  match l with
  | [] => 0
  | b :: l => b + 256 * from_le_bytes l
  end.

Definition to_be_bytes (n : nat) (z : Z) : bytes := rev (to_le_bytes n z).
Definition from_be_bytes (l : bytes) : Z := from_le_bytes (rev l).

(** ** Computations that may panic

    [Ret] is a normal return, [Panic] a Rust panic (slice index out of range,
    subtraction below zero in a checked position), [Stuck] an exhausted
    fuel of a loop.  The release profile aborts the process on a panic, so
    "never [Panic]" is a statement about the liveness of the whole proxy. *)
Inductive run (A : Type) : Type :=
  | Ret (a : A)
  | Panic
  | Stuck.
Arguments Ret {A} a.
Arguments Panic {A}.
Arguments Stuck {A}.

#[export] Instance run_ret : MRet run := fun A a => Ret a.
#[export] Instance run_bind : MBind run := fun A B f m =>
  match m with
  | Ret a => f a
  | Panic => Panic
  | Stuck => Stuck
  end.

(** [x ←? m; k] is [let x = m?;] in a function returning [Option]. *)
Notation "x ←? m ; k" :=
  (mbind (fun o => match o with Some x => k | None => Ret None end) m)
  (at level 20, m at level 100, k at level 200, right associativity) : reflex_scope.

(** [l[i]] *)
Definition idx {A} (l : list A) (i : Z) : run A :=
  if (0 <=? i) && (i <? len l)
  then match l !! Z.to_nat i with Some a => Ret a | None => Panic end
  else Panic.

(** [&l[i..j]] *)
Definition slice {A} (l : list A) (i j : Z) : run (list A) :=
  if (0 <=? i) && (i <=? j) && (j <=? len l)
  then Ret (take (Z.to_nat (j - i)) (drop (Z.to_nat i) l))
  else Panic.

(** [l[i] = x] *)
Definition store {A} (l : list A) (i : Z) (x : A) : run (list A) :=
  if (0 <=? i) && (i <? len l) then Ret (<[Z.to_nat i := x]> l) else Panic.

(** [l[i..i + s.len()].copy_from_slice(s)] *)
Definition copy_at {A} (l : list A) (i : Z) (s : list A) : run (list A) :=
  if (0 <=? i) && (i + len s <=? len l)
  then Ret (take (Z.to_nat i) l ++ s ++ drop (Z.to_nat (i + len s)) l)
  else Panic.

(** The value returned; [returns m] says that [m] neither panics nor runs out of fuel. *)
Definition returns {A} (m : run A) : Prop := exists a, m = Ret a.

(** ** Results *)

Inductive result (A E : Type) : Type :=
  | Ok (a : A)
  | Err (e : E).
Arguments Ok {A E} a.
Arguments Err {A E} e.

Definition result_bind {A B E} (m : result A E) (f : A -> result B E) : result B E :=
  match m with
  | Ok a => f a
  | Err e => Err e
  end.

(** [let x = m?;] in a function returning [Result]. *)
Notation "x ←! m ; k" := (result_bind m (fun x => k))
  (at level 20, m at level 100, k at level 200, right associativity) : reflex_scope.

Definition map_err {A E F} (f : E -> F) (m : result A E) : result A F :=
  match m with
  | Ok a => Ok a
  | Err e => Err (f e)
  end.

Definition ok_or {A E} (o : option A) (e : E) : result A E :=
  match o with
  | Some a => Ok a
  | None => Err e
  end.

(** [for x in l { acc = f(acc, x)?; }] *)
Fixpoint fold_result {A B E} (f : B -> A -> result B E) (l : list A) (b : B) : result B E :=
  match l with
  | [] => Ok b
  | a :: l => result_bind (f b a) (fun b => fold_result f l b)
  end.

(** [l.iter().map(f).collect::<Result<Vec<_>>>()] *)
Fixpoint map_result {A B E} (f : A -> result B E) (l : list A) : result (list B) E :=
  match l with
  | [] => Ok []
  | a :: l => result_bind (f a) (fun b => result_bind (map_result f l) (fun bs => Ok (b :: bs)))
  end.

Definition is_ok {A E} (m : result A E) : bool :=
  match m with Ok _ => true | Err _ => false end.

(** [let x = m?;] in a function returning [Result] that may panic. *)
Definition try_bind {A B E} (m : run (result A E)) (f : A -> run (result B E)) : run (result B E) :=
  mbind (fun r => match r with Ok a => f a | Err e => Ret (Err e) end) m.

Notation "x ←!! m ; k" := (try_bind m (fun x => k))
  (at level 20, m at level 100, k at level 200, right associativity) : reflex_scope.

(** ** Shared automation *)

Create HintDb reflex.
Create Rewrite HintDb reflex_len.

(** Case analysis on every boolean test and [match] scrutinee of the goal. *)
Ltac case_if :=
  match goal with
  | |- context [if ?b then _ else _] =>
      lazymatch b with
      | context [if _ then _ else _] => fail
      | _ => destruct b eqn:?
      end
  end.

(** Boolean comparisons in hypotheses become propositions. *)
Ltac reflect_bools :=
  repeat match goal with
  | H : _ && _ = true |- _ => apply andb_true_iff in H; destruct H
  | H : _ || _ = false |- _ => apply orb_false_iff in H; destruct H
  | H : _ && _ = false |- _ => apply andb_false_iff in H
  | H : _ || _ = true |- _ => apply orb_true_iff in H
  | H : negb _ = true |- _ => apply negb_true_iff in H
  | H : negb _ = false |- _ => apply negb_false_iff in H
  | H : (_ <=? _) = true |- _ => apply Z.leb_le in H
  | H : (_ <=? _) = false |- _ => apply Z.leb_gt in H
  | H : (_ <? _) = true |- _ => apply Z.ltb_lt in H
  | H : (_ <? _) = false |- _ => apply Z.ltb_ge in H
  | H : (_ =? _) = true |- _ => apply Z.eqb_eq in H
  | H : (_ =? _) = false |- _ => apply Z.eqb_neq in H
  | H : (_ >? _) = true |- _ => rewrite Z.gtb_ltb in H
  | H : (_ >? _) = false |- _ => rewrite Z.gtb_ltb in H
  | H : (_ >=? _) = true |- _ => rewrite Z.geb_leb in H
  | H : (_ >=? _) = false |- _ => rewrite Z.geb_leb in H
  end.

(** Equations between boolean combinations of integer comparisons. *)
Ltac bool_lia :=
  repeat match goal with
  | |- context [?a <=? ?b] => destruct (Z.leb_spec a b)
  | |- context [?a <? ?b] => destruct (Z.ltb_spec a b)
  | |- context [?a =? ?b] => destruct (Z.eqb_spec a b)
  end; first [reflexivity | exfalso; lia].

(** Equations between appends of lists. *)
Ltac app_eq := repeat first [progress cbn [app] | rewrite <-!app_assoc]; reflexivity.

(** ** Lengths, indexing and slicing *)

Lemma len_nonneg {A} (l : list A) : 0 <= len l.
Proof. unfold len. lia. Qed.

Lemma len_app {A} (l1 l2 : list A) : len (l1 ++ l2) = len l1 + len l2.
Proof. unfold len. rewrite length_app. lia. Qed.

Lemma len_cons {A} (a : A) l : len (a :: l) = 1 + len l.
Proof. unfold len. simpl. lia. Qed.

Lemma len_nil {A} : len (@nil A) = 0.
Proof. done. Qed.

#[export] Hint Rewrite @len_app @len_cons @len_nil : reflex_len.

Ltac len_solve :=
  autorewrite with reflex_len in *;
  repeat match goal with
  | l : list _ |- _ =>
      lazymatch goal with
      | H : 0 <= len l |- _ => fail
      | _ => pose proof (len_nonneg l)
      end
  end; try lia.

Lemma idx_inrange {A} (l : list A) i :
  0 <= i < len l -> exists a, l !! Z.to_nat i = Some a /\ idx l i = Ret a.
Proof.
  intros Hi. unfold idx, len in *.
  destruct (lookup_lt_is_Some_2 l (Z.to_nat i)) as [a Ha]; [lia|].
  exists a. split; [done|].
  replace ((0 <=? i) && (i <? Z.of_nat (length l))) with true by lia.
  by rewrite Ha.
Qed.

Lemma idx_returns {A} (l : list A) i : 0 <= i < len l -> returns (idx l i).
Proof. intros Hi. destruct (idx_inrange l i Hi) as (a & _ & ->). by exists a. Qed.

Lemma idx_Ret_inv {A} (l : list A) i a :
  idx l i = Ret a -> 0 <= i < len l /\ l !! Z.to_nat i = Some a.
Proof.
  unfold idx. case_if; [|done].
  destruct (l !! Z.to_nat i) eqn:E; [|done]. intros [= ->]. reflect_bools. split; [lia|done].
Qed.

Lemma idx_byte (l : bytes) i b : bytes_ok l -> idx l i = Ret b -> is_byte b.
Proof.
  intros Hl [_ Hb]%idx_Ret_inv. unfold bytes_ok in Hl. rewrite Forall_lookup in Hl. eauto.
Qed.

(** Reading at an offset inside [l1 ++ l2]. *)
Lemma idx_app_r {A} (l1 l2 : list A) i :
  len l1 <= i -> idx (l1 ++ l2) i = idx l2 (i - len l1).
Proof.
  intros Hi. unfold idx. rewrite len_app. pose proof (len_nonneg l1).
  replace ((0 <=? i) && (i <? len l1 + len l2))
    with ((0 <=? i - len l1) && (i - len l1 <? len l2)) by lia.
  case_if; [|done]. unfold len in *.
  rewrite lookup_app_r by lia.
  by replace (Z.to_nat (i - Z.of_nat (length l1))) with (Z.to_nat i - length l1)%nat by lia.
Qed.

Lemma lookup_repeat {A} (x : A) n k : (k < n)%nat -> repeat x n !! k = Some x.
Proof. revert k. induction n as [|n IH]; intros [|k] Hk; simpl; [lia|lia|done|]. apply IH. lia. Qed.

Lemma store_inrange {A} (l : list A) i x : 0 <= i < len l -> store l i x = Ret (<[Z.to_nat i := x]> l).
Proof. intros Hi. unfold store. by replace ((0 <=? i) && (i <? len l)) with true by lia. Qed.

Lemma idx_mid {A} (l1 : list A) x l2 i : i = len l1 -> idx (l1 ++ x :: l2) i = Ret x.
Proof.
  intros ->. unfold idx. rewrite len_app, len_cons. pose proof (len_nonneg l1). pose proof (len_nonneg l2).
  replace ((0 <=? len l1) && (len l1 <? len l1 + (1 + len l2))) with true by lia.
  unfold len. by rewrite Nat2Z.id, list_lookup_middle.
Qed.

Lemma idx_app_l {A} (l1 l2 : list A) i : i < len l1 -> idx (l1 ++ l2) i = idx l1 i.
Proof.
  intros Hi. unfold idx. rewrite len_app. pose proof (len_nonneg l2).
  replace ((0 <=? i) && (i <? len l1 + len l2)) with ((0 <=? i) && (i <? len l1)) by lia.
  case_if; [|done]. unfold len in *. rewrite lookup_app_l by lia. done.
Qed.

Lemma slice_returns {A} (l : list A) i j : 0 <= i <= j -> j <= len l -> returns (slice l i j).
Proof.
  intros Hi Hj. unfold slice.
  replace ((0 <=? i) && (i <=? j) && (j <=? len l)) with true by lia. eexists; done.
Qed.

Lemma slice_Ret_inv {A} (l : list A) i j s :
  slice l i j = Ret s ->
  0 <= i <= j /\ j <= len l /\ s = take (Z.to_nat (j - i)) (drop (Z.to_nat i) l).
Proof. unfold slice. case_if; [|done]. intros [= <-]. reflect_bools. split_and!; done || lia. Qed.

Lemma len_take_drop {A} (l : list A) i j :
  0 <= i <= j -> j <= len l -> len (take (Z.to_nat (j - i)) (drop (Z.to_nat i) l)) = j - i.
Proof. intros. unfold len in *. rewrite length_take, length_drop. lia. Qed.

(** A slice that is exactly the middle part of a concatenation. *)
Lemma slice_app_mid {A} (l1 l2 l3 : list A) i j :
  i = len l1 -> j = i + len l2 -> slice (l1 ++ l2 ++ l3) i j = Ret l2.
Proof.
  intros -> ->. unfold slice. rewrite !len_app.
  pose proof (len_nonneg l1); pose proof (len_nonneg l2); pose proof (len_nonneg l3).
  replace (_ && _ && _) with true by lia. f_equal.
  replace (Z.to_nat (len l1)) with (length l1) by (unfold len; lia).
  replace (Z.to_nat (len l1 + len l2 - len l1)) with (length l2) by (unfold len; lia).
  by rewrite drop_app_length, take_app_length.
Qed.

Lemma slice_app_l {A} (l1 l2 : list A) i j : j <= len l1 -> slice (l1 ++ l2) i j = slice l1 i j.
Proof.
  intros Hj. unfold slice. rewrite len_app. pose proof (len_nonneg l2).
  replace ((0 <=? i) && (i <=? j) && (j <=? len l1 + len l2)) with ((0 <=? i) && (i <=? j) && (j <=? len l1)) by lia.
  case_if; [|done]. reflect_bools. unfold len in *. f_equal.
  rewrite drop_app_le by lia. rewrite take_app_le; [done|]. rewrite length_drop. lia.
Qed.

(** A copy over the middle part of a concatenation. *)
Lemma copy_app_mid {A} (l1 l2 l3 s : list A) i : i = len l1 -> len s = len l2 ->
  copy_at (l1 ++ l2 ++ l3) i s = Ret (l1 ++ s ++ l3).
Proof.
  intros -> Hs. unfold copy_at. rewrite !len_app.
  pose proof (len_nonneg l1); pose proof (len_nonneg l2); pose proof (len_nonneg l3).
  replace (_ && _) with true by lia. f_equal. f_equal.
  - unfold len. by rewrite Nat2Z.id, take_app_length.
  - f_equal. rewrite Hs. unfold len.
    replace (Z.to_nat (Z.of_nat (length l1) + Z.of_nat (length l2))) with (length l1 + length l2)%nat by lia.
    rewrite <-drop_drop, drop_app_length. apply drop_app_length.
Qed.

Lemma copy_returns {A} (l s : list A) i : 0 <= i -> i + len s <= len l -> exists l', copy_at l i s = Ret l' /\ len l' = len l.
Proof.
  intros Hi Hs. unfold copy_at. replace (_ && _) with true by lia. eexists. split; [done|].
  unfold len in *. rewrite !length_app, length_take, length_drop. lia.
Qed.

(** ** Panic freedom is compositional *)

Lemma returns_ret {A} (a : A) : returns (Ret a).
Proof. by exists a. Qed.

Lemma returns_bind {A B} (m : run A) (f : A -> run B) :
  returns m -> (forall a, m = Ret a -> returns (f a)) -> returns (m ≫= f).
Proof. intros [a ->] Hf. by apply Hf. Qed.

Lemma bind_Ret {A B} (a : A) (f : A -> run B) : (Ret a ≫= f) = f a.
Proof. done. Qed.

Lemma bind_Ret_inv {A B} (m : run A) (f : A -> run B) b :
  (m ≫= f) = Ret b -> exists a, m = Ret a /\ f a = Ret b.
Proof. destruct m as [a| |]; simpl; [eauto|done|done]. Qed.

#[export] Hint Resolve returns_ret : reflex.

(** ** Byte encodings *)

Lemma length_to_le_bytes n z : length (to_le_bytes n z) = n.
Proof. revert z. induction n; intros; simpl; auto. Qed.

Lemma length_to_be_bytes n z : length (to_be_bytes n z) = n.
Proof. unfold to_be_bytes. by rewrite length_rev, length_to_le_bytes. Qed.

Lemma len_to_le_bytes n z : len (to_le_bytes n z) = Z.of_nat n.
Proof. unfold len. by rewrite length_to_le_bytes. Qed.

Lemma len_to_be_bytes n z : len (to_be_bytes n z) = Z.of_nat n.
Proof. unfold len. by rewrite length_to_be_bytes. Qed.

#[export] Hint Rewrite len_to_le_bytes len_to_be_bytes : reflex_len.

Lemma to_le_bytes_ok n z : bytes_ok (to_le_bytes n z).
Proof.
  revert z. induction n; intros z; simpl; constructor; [|apply IHn].
  unfold is_byte. pose proof (Z.mod_pos_bound z 256). lia.
Qed.

Lemma to_be_bytes_ok n z : bytes_ok (to_be_bytes n z).
Proof. unfold bytes_ok, to_be_bytes. apply Forall_rev, to_le_bytes_ok. Qed.

Lemma from_to_le_bytes n z : from_le_bytes (to_le_bytes n z) = z mod 256 ^ Z.of_nat n.
Proof.
  revert z. induction n as [|n IH]; intros z.
  - simpl. by rewrite Z.mod_1_r.
  - cbn [to_le_bytes from_le_bytes]. rewrite IH, Nat2Z.inj_succ, Z.pow_succ_r by lia.
    rewrite Z.rem_mul_r by lia. lia.
Qed.

Lemma from_to_le_bytes_id n z : 0 <= z < 256 ^ Z.of_nat n -> from_le_bytes (to_le_bytes n z) = z.
Proof. intros. by rewrite from_to_le_bytes, Z.mod_small. Qed.

Lemma from_to_be_bytes_id n z : 0 <= z < 256 ^ Z.of_nat n -> from_be_bytes (to_be_bytes n z) = z.
Proof. intros. unfold from_be_bytes, to_be_bytes. rewrite rev_involutive. by apply from_to_le_bytes_id. Qed.

Lemma to_from_le_bytes l : bytes_ok l -> to_le_bytes (length l) (from_le_bytes l) = l.
Proof.
  induction 1 as [|b l Hb _ IH]; [done|]. cbn [length from_le_bytes to_le_bytes].
  unfold is_byte in Hb.
  replace ((b + 256 * from_le_bytes l) mod 256) with b.
  2: { rewrite (Z.mul_comm 256), Z.mod_add, Z.mod_small; lia. }
  replace ((b + 256 * from_le_bytes l) / 256) with (from_le_bytes l).
  2: { rewrite (Z.mul_comm 256), Z.div_add, Z.div_small; lia. }
  by rewrite IH.
Qed.

Lemma from_le_bytes_bound l : bytes_ok l -> 0 <= from_le_bytes l < 256 ^ len l.
Proof.
  induction 1 as [|b l Hb _ IH]; [done|].
  rewrite len_cons, Z.add_1_l, Z.pow_succ_r by apply len_nonneg.
  cbn [from_le_bytes]. unfold is_byte in Hb. lia.
Qed.

Lemma from_be_bytes_bound l : bytes_ok l -> 0 <= from_be_bytes l < 256 ^ len l.
Proof.
  intros Hl. unfold from_be_bytes. replace (len l) with (len (rev l)).
  - by apply from_le_bytes_bound, Forall_rev.
  - unfold len. by rewrite length_rev.
Qed.

(** ** Results of loops *)

Lemma result_bind_Ok {A B E} (m : result A E) (f : A -> result B E) b :
  result_bind m f = Ok b <-> exists a, m = Ok a /\ f a = Ok b.
Proof.
  destruct m as [a|e]; simpl.
  - split; [eauto | intros (a' & [= ->] & ?); done].
  - split; [done | intros (a' & ? & _); done].
Qed.

Lemma map_result_Forall2 {A B E} (f : A -> result B E) l bs :
  map_result f l = Ok bs <-> Forall2 (fun a b => f a = Ok b) l bs.
Proof.
  revert bs. induction l as [|a l IH]; intros bs; simpl.
  - split; [intros [= <-]; constructor | by inversion 1].
  - rewrite result_bind_Ok. setoid_rewrite result_bind_Ok. setoid_rewrite IH. split.
    + intros (b & Hb & bs' & Hbs & [= <-]). by constructor.
    + inversion 1; subst. eauto 6.
Qed.

(** ** Least elements *)

(** [iter.min_by_key(key)]: the first of the least elements. *)
Definition min_by_key {A} (key : A -> Z) (l : list A) : option A :=
  match l with
  | [] => None
  | a :: l => Some (fold_left (fun m x => if key x <? key m then x else m) l a)
  end.

(** [min_by_key] returns an element of the list with the least key. *)
Lemma min_fold {A} (key : A -> Z) l a :
  let m := fold_left (fun m x => if key x <? key m then x else m) l a in
  m ∈ a :: l /\ forall x, x ∈ a :: l -> key m <= key x.
Proof.
  revert a. induction l as [|b l IH]; intros a; cbn [fold_left].
  - split; [by left|]. intros x Hx. apply list_elem_of_singleton in Hx as ->. lia.
  - destruct (IH (if key b <? key a then b else a)) as [Hin Hle]. split.
    + rewrite !elem_of_cons in *. case_if; tauto.
    + intros x Hx. pose proof (Hle (if key b <? key a then b else a) ltac:(by left)).
      rewrite !elem_of_cons in Hx. destruct Hx as [->|[->|Hx]]; [..|apply Hle; by right]; case_if; reflect_bools; lia.
Qed.

Lemma min_by_key_spec {A} (key : A -> Z) l : l <> [] -> exists m, min_by_key key l = Some m /\ m ∈ l /\ forall x, x ∈ l -> key m <= key x.
Proof. intros Hl. destruct l as [|a l]; [done|]. eexists. split; [done|]. apply min_fold. Qed.

(** ** More on lists and words *)

Lemma bytes_ok_app l1 l2 : bytes_ok (l1 ++ l2) <-> bytes_ok l1 /\ bytes_ok l2.
Proof. apply Forall_app. Qed.

Lemma Forall_filter_keep {A} (P : A -> Prop) (f : A -> bool) l : Forall P l -> Forall P (List.filter f l).
Proof. rewrite !Forall_forall. intros H x Hx. apply list_elem_of_In, filter_In in Hx as [Hx _]. by apply H, list_elem_of_In. Qed.

Lemma filter_all {A} (f : A -> bool) l : (forall x, x ∈ l -> f x = true) -> List.filter f l = l.
Proof.
  induction l as [|a l IH]; intros H; [done|]. cbn [List.filter]. rewrite H by by left. f_equal. apply IH. intros x Hx. apply H. by right.
Qed.

Lemma wrap_succ w a : 0 <= a -> a + 1 < 2 ^ w -> wrap w (a + 1) = a + 1.
Proof. intros. unfold wrap. apply Z.mod_small. lia. Qed.
