(* ===== verification/RustStr.v ===== *)
(** * RustStr: the parts of Rust's [str], integer and [std::net] parsing the
    program uses, on the UTF-8 bytes of a string.

    [split], [rsplit], [join], the [trim] family (Unicode White_Space), [lines],
    [split_once], [contains], ASCII case mapping, [str::parse::<uN>], [{}] of an
    unsigned integer, [str::from_utf8] and [from_utf8_lossy], and
    [Ipv4Addr]/[Ipv6Addr]/[IpAddr]::from_str.  Nothing here maps to a file of the
    repository: it is the language's standard library. *)

From S2P Require Import Prelude.

(** ** Splitting and joining *)

(** [s.split(c)]: always at least one piece. *)
Fixpoint split_on (c : Z) (s : str) : list str :=
  match s with
  | [] => [[]]
  | b :: s =>
      if b =? c then [] :: split_on c s
      else match split_on c s with
           | [] => [[b]]
           | w :: ws => (b :: w) :: ws
           end
  end.

(** [s.rsplit(c)] *)
Definition rsplit_on (c : Z) (s : str) : list str := rev (split_on c s).

(** [ws.join(sep)] *)
Fixpoint join (sep : str) (ws : list str) : str :=
  match ws with
  | [] => []
  | [w] => w
  | w :: ws => w ++ sep ++ join sep ws
  end.

(** [s.split_once(c)] *)
Fixpoint split_once (c : Z) (s : str) : option (str * str) :=
  match s with
  | [] => None
  | b :: s =>
      if b =? c then Some ([], s)
      else match split_once c s with
           | Some (x, y) => Some (b :: x, y)
           | None => None
           end
  end.

(** [s.trim_start_matches(c)] and [s.trim_end_matches(c)] *)
Fixpoint trim_start_matches (c : Z) (s : str) : str :=
  match s with
  | b :: s' => if b =? c then trim_start_matches c s' else s
  | [] => []
  end.

Definition trim_end_matches (c : Z) (s : str) : str := rev (trim_start_matches c (rev s)).

(** [s.starts_with(p)] and [s.strip_prefix(p)] *)
Fixpoint starts_with (p s : str) : bool :=
  match p, s with
  | [], _ => true
  | a :: p, b :: s => (a =? b) && starts_with p s
  | _ :: _, [] => false
  end.

Definition strip_prefix (p s : str) : option str :=
  if starts_with p s then Some (drop (length p) s) else None.

(** [s.ends_with(p)] *)
Definition ends_with (suffix s : str) : bool := starts_with (rev suffix) (rev s).

(** [s.rsplit_once(c)] *)
Definition rsplit_once (c : Z) (s : str) : option (str * str) :=
  match split_once c (rev s) with Some (b, a) => Some (rev a, rev b) | None => None end.

(** [s.contains(p)] for a string pattern *)
Fixpoint contains (p s : str) : bool :=
  starts_with p s || match s with [] => false | _ :: s => contains p s end.

(** [s.find(p)]: the byte offset of the first occurrence *)
Fixpoint find_str (p s : str) : option nat :=
  if starts_with p s then Some O
  else match s with [] => None | _ :: s => S <$> find_str p s end.

(** [s.split(p)] for a non-empty string pattern; each piece but the last consumes it. *)
Fixpoint split_str_fuel (fuel : nat) (p s : str) : list str :=
  match fuel with
  | O => [s]
  | S fuel =>
      match find_str p s with
      | Some i => take i s :: split_str_fuel fuel p (drop (i + length p) s)
      | None => [s]
      end
  end.

Definition split_str (p s : str) : list str := split_str_fuel (length s) p s.

(** [s.contains(c)] for a character pattern *)
Definition contains_char (c : Z) (s : str) : bool := existsb (Z.eqb c) s.

(** ** ASCII case *)

Definition is_ascii_uppercase (b : Z) : bool := (65 <=? b) && (b <=? 90).
Definition ascii_lower (b : Z) : Z := if is_ascii_uppercase b then b + 32 else b.
Definition to_ascii_lowercase (s : str) : str := map ascii_lower s.

(** [a.eq_ignore_ascii_case(b)] *)
Definition eq_ignore_ascii_case (a b : str) : bool := bool_decide (to_ascii_lowercase a = to_ascii_lowercase b).

(** ** White space: [char::is_whitespace] on the UTF-8 bytes *)

Definition ws1 (a : Z) : bool := ((9 <=? a) && (a <=? 13)) || (a =? 32).
Definition ws2 (a b : Z) : bool := (a =? 0xC2) && ((b =? 0x85) || (b =? 0xA0)).
Definition ws3 (a b c : Z) : bool :=
  ((a =? 0xE1) && (b =? 0x9A) && (c =? 0x80))
  || ((a =? 0xE2) && (b =? 0x80)
      && (((0x80 <=? c) && (c <=? 0x8A)) || (c =? 0xA8) || (c =? 0xA9) || (c =? 0xAF)))
  || ((a =? 0xE2) && (b =? 0x81) && (c =? 0x9F))
  || ((a =? 0xE3) && (b =? 0x80) && (c =? 0x80)).

Fixpoint trim_start (s : str) : str :=
  match s with
  | [] => []
  | a :: s1 =>
      if ws1 a then trim_start s1
      else match s1 with
           | [] => s
           | b :: s2 =>
               if ws2 a b then trim_start s2
               else match s2 with
                    | [] => s
                    | c :: s3 => if ws3 a b c then trim_start s3 else s
                    end
           end
  end.

(** The same on a reversed string, for [trim_end]. *)
Fixpoint trim_start_rev (s : str) : str :=
  match s with
  | [] => []
  | a :: s1 =>
      if ws1 a then trim_start_rev s1
      else match s1 with
           | [] => s
           | b :: s2 =>
               if ws2 b a then trim_start_rev s2
               else match s2 with
                    | [] => s
                    | c :: s3 => if ws3 c b a then trim_start_rev s3 else s
                    end
           end
  end.

Definition trim_end (s : str) : str := rev (trim_start_rev (rev s)).
Definition trim (s : str) : str := trim_end (trim_start s).

(** [s.split_whitespace()] *)
Fixpoint split_whitespace_acc (cur s : str) : list str :=
  let flush rest := match cur with [] => rest | _ => cur :: rest end in
  match s with
  | [] => flush []
  | a :: s1 =>
      if ws1 a then flush (split_whitespace_acc [] s1)
      else match s1 with
           | b :: s2 =>
               if ws2 a b then flush (split_whitespace_acc [] s2)
               else match s2 with
                    | c :: s3 => if ws3 a b c then flush (split_whitespace_acc [] s3) else split_whitespace_acc (cur ++ [a]) s1
                    | [] => split_whitespace_acc (cur ++ [a]) s1
                    end
           | [] => split_whitespace_acc (cur ++ [a]) s1
           end
  end.

Definition split_whitespace (s : str) : list str := split_whitespace_acc [] s.

(** ** [s.lines()]: pieces ended by LF lose it and one CR before it; a last
    piece without LF is kept as it is, unless it is empty. *)
Definition strip_cr (s : str) : str :=
  match rev s with
  | 13 :: r => rev r
  | _ => s
  end.

Fixpoint lines_pieces (ps : list str) : list str :=
  match ps with
  | [] => []
  | [p] => match p with [] => [] | _ => [p] end
  | p :: ps => strip_cr p :: lines_pieces ps
  end.

Definition lines (s : str) : list str := lines_pieces (split_on 10 s).

(** ** Integers *)

Definition is_digit (b : Z) : bool := (48 <=? b) && (b <=? 57).

(** [PathBuf::push] of a relative part *)
Definition path_push (p part : str) : str :=
  match last p with
  | None | Some 47 => p ++ part
  | Some _ => p ++ [47] ++ part
  end.

(** [char::is_ascii_hexdigit] *)
Definition is_hexdigit (b : Z) : bool := is_digit b || (65 <=? b) && (b <=? 70) || (97 <=? b) && (b <=? 102).

Fixpoint dec_value (acc : Z) (s : str) : Z :=
  match s with
  | [] => acc
  | b :: s => dec_value (acc * 10 + (b - 48)) s
  end.

(** [s.parse::<uN>()] with [max = uN::MAX]: an optional [+], then digits. *)
Definition parse_uint (max : Z) (s : str) : option Z :=
  let ds := match s with 43 :: r => r | _ => s end in
  match ds with
  | [] => None
  | _ => if forallb is_digit ds && (dec_value 0 ds <=? max) then Some (dec_value 0 ds) else None
  end.

Definition u8_max : Z := 255.
Definition u16_max : Z := 65535.

(** [format!("{}", n)]: [fuel] bounds the number of digits. *)
Fixpoint show_digits (fuel : nat) (n : Z) (acc : str) : str :=
  match fuel with
  | O => acc
  | S fuel =>
      let acc := (48 + n mod 10) :: acc in
      if n <? 10 then acc else show_digits fuel (n / 10) acc
  end.

Definition show_uint (n : Z) : str := show_digits 20 n [].

(** ** UTF-8

    The automaton of [str::from_utf8]: the state is the list of ranges the
    coming continuation bytes must lie in. *)
Definition utf8_start (b : Z) : option (list (Z * Z)) :=
  let cont := (0x80, 0xBF) in
  if (0 <=? b) && (b <=? 0x7F) then Some []
  else if (0xC2 <=? b) && (b <=? 0xDF) then Some [cont]
  else if b =? 0xE0 then Some [(0xA0, 0xBF); cont]
  else if ((0xE1 <=? b) && (b <=? 0xEC)) || (b =? 0xEE) || (b =? 0xEF) then Some [cont; cont]
  else if b =? 0xED then Some [(0x80, 0x9F); cont]
  else if b =? 0xF0 then Some [(0x90, 0xBF); cont; cont]
  else if (0xF1 <=? b) && (b <=? 0xF3) then Some [cont; cont; cont]
  else if b =? 0xF4 then Some [(0x80, 0x8F); cont; cont]
  else None.

Definition utf8_step (st : list (Z * Z)) (b : Z) : option (list (Z * Z)) :=
  match st with
  | [] => utf8_start b
  | (lo, hi) :: st => if (lo <=? b) && (b <=? hi) then Some st else None
  end.

Fixpoint utf8_run (st : list (Z * Z)) (s : bytes) : option (list (Z * Z)) :=
  match s with
  | [] => Some st
  | b :: s => match utf8_step st b with Some st => utf8_run st s | None => None end
  end.

(** [std::str::from_utf8(s).is_ok()] *)
Definition utf8_valid (s : bytes) : bool :=
  match utf8_run [] s with Some [] => true | _ => false end.

Definition replacement_char : bytes := [0xEF; 0xBF; 0xBD].

(** [String::from_utf8_lossy]: every maximal invalid prefix becomes U+FFFD. *)
Fixpoint utf8_lossy (st : list (Z * Z)) (pend : bytes) (s : bytes) : bytes :=
  match s with
  | [] => match pend with [] => [] | _ => replacement_char end
  | b :: s =>
      let fresh :=
        match utf8_start b with
        | Some [] => b :: utf8_lossy [] [] s
        | Some st => utf8_lossy st [b] s
        | None => replacement_char ++ utf8_lossy [] [] s
        end in
      match st with
      | [] => fresh
      | (lo, hi) :: st =>
          if (lo <=? b) && (b <=? hi)
          then match st with
               | [] => pend ++ [b] ++ utf8_lossy [] [] s
               | _ => utf8_lossy st (pend ++ [b]) s
               end
          else replacement_char ++ fresh
      end
  end.

Definition from_utf8_lossy (s : bytes) : str := utf8_lossy [] [] s.

(** ** IP addresses: an [Ipv4Addr] is its [u32], an [Ipv6Addr] its [u128] *)

Inductive IpAddr : Type :=
  | V4 (a : Z)
  | V6 (a : Z).

#[export] Instance IpAddr_eq_dec : EqDecision IpAddr.
Proof. solve_decision. Defined.

#[export] Instance IpAddr_countable : Countable IpAddr.
Proof.
  apply (inj_countable' (fun a => match a with V4 v => inl v | V6 v => inr v end)
           (fun s => match s with inl v => V4 v | inr v => V6 v end)).
  by intros [].
Defined.

Record SocketAddr : Type := { ip : IpAddr; sock_port : Z }.

#[export] Instance SocketAddr_eq_dec : EqDecision SocketAddr.
Proof. solve_decision. Defined.
#[export] Instance SocketAddr_countable : Countable SocketAddr.
Proof.
  apply (inj_countable' (fun a => (ip a, sock_port a)) (fun x => {| ip := x.1; sock_port := x.2 |})).
  by intros [].
Defined.

Definition digit_val (radix b : Z) : option Z :=
  let v := if is_digit b then Some (b - 48)
           else if (97 <=? b) && (b <=? 102) then Some (b - 87)
           else if (65 <=? b) && (b <=? 70) then Some (b - 55)
           else None in
  match v with
  | Some d => if d <? radix then Some d else None
  | None => None
  end.

(** All leading digits of [s]: how many, their value, and the rest. *)
Fixpoint span_digits (radix acc : Z) (n : nat) (s : str) : nat * Z * str :=
  match s with
  | [] => (n, acc, [])
  | b :: s' =>
      match digit_val radix b with
      | Some d => span_digits radix (acc * radix + d) (S n) s'
      | None => (n, acc, s)
      end
  end.

(** [Parser::read_number(radix, Some(max_digits), allow_zero_prefix)] *)
Definition read_number (radix : Z) (max_digits : nat) (allow_zero_prefix : bool) (max : Z)
    (s : str) : option (Z * str) :=
  let has_leading_zero := match s with 48 :: _ => true | _ => false end in
  let '(n, v, rest) := span_digits radix 0 0 s in
  if (max_digits <? n)%nat then None
  else if (n =? 0)%nat then None
  else if negb allow_zero_prefix && has_leading_zero && (1 <? n)%nat then None
  else if v <=? max then Some (v, rest) else None.

Definition read_char (c : Z) (s : str) : option str :=
  match s with
  | b :: s => if b =? c then Some s else None
  | [] => None
  end.

(** [Parser::read_separator] *)
Definition read_separator {A} (sep : Z) (index : nat) (inner : str -> option (A * str))
    (s : str) : option (A * str) :=
  match index with
  | O => inner s
  | S _ => match read_char sep s with Some s => inner s | None => None end
  end.

Fixpoint read_octets (todo index : nat) (acc : Z) (s : str) : option (Z * str) :=
  match todo with
  | O => Some (acc, s)
  | S todo =>
      match read_separator 46 index (read_number 10 3 false 255) s with
      | Some (g, s) => read_octets todo (S index) (acc * 256 + g) s
      | None => None
      end
  end.

Definition read_ipv4_addr (s : str) : option (Z * str) := read_octets 4 0 0 s.

(** [read_groups]: the 16-bit groups read, whether an embedded IPv4 address
    ended them, and the rest of the input. [todo] slots are left of the array. *)
Fixpoint read_groups (todo index : nat) (s : str) : list Z * bool * str :=
  match todo with
  | O => ([], false, s)
  | S todo' =>
      let group :=
        match read_separator 58 index (read_number 16 4 true 65535) s with
        | Some (g, s) =>
            let '(gs, v4, s) := read_groups todo' (S index) s in (g :: gs, v4, s)
        | None => ([], false, s)
        end in
      match todo' with
      | O => group
      | S _ =>
          match read_separator 58 index read_ipv4_addr s with
          | Some (v4, s) => ([v4 / 65536; v4 mod 65536], true, s)
          | None => group
          end
      end
  end.

Definition groups_value (gs : list Z) : Z := fold_left (fun acc g => acc * 65536 + g) gs 0.

Definition read_ipv6_addr (s : str) : option (Z * str) :=
  let '(head, head_ipv4, s) := read_groups 8 0 s in
  if (length head =? 8)%nat then Some (groups_value head, s)
  else if head_ipv4 then None
  else match read_char 58 s with
       | None => None
       | Some s =>
           match read_char 58 s with
           | None => None
           | Some s =>
               let '(tail, _, s) := read_groups (8 - (length head + 1)) 0 s in
               let zeros := repeat 0 (8 - length head - length tail) in
               Some (groups_value (head ++ zeros ++ tail), s)
           end
       end.

(** [parse_with]: the whole input must be read. *)
Definition parse_all {A} (p : option (A * str)) : option A :=
  match p with
  | Some (a, []) => Some a
  | _ => None
  end.

Definition Ipv4Addr_from_str (s : str) : option Z :=
  if 15 <? len s then None else parse_all (read_ipv4_addr s).

Definition Ipv6Addr_from_str (s : str) : option Z := parse_all (read_ipv6_addr s).

Definition IpAddr_from_str (s : str) : option IpAddr :=
  match read_ipv4_addr s with
  | Some (a, rest) => parse_all (Some (V4 a, rest))
  | None => V6 <$> parse_all (read_ipv6_addr s)
  end.

(** [Ipv6Addr::to_ipv4_mapped] *)
Definition to_ipv4_mapped (a : Z) : option Z :=
  if Z.shiftr a 32 =? 0xFFFF then Some (a mod 2 ^ 32) else None.

(** ** [Display] of addresses *)

Definition show_ipv4 (a : Z) : str :=
  show_uint (a / 2 ^ 24) ++ [46] ++ show_uint (a / 2 ^ 16 mod 256) ++ [46]
  ++ show_uint (a / 2 ^ 8 mod 256) ++ [46] ++ show_uint (a mod 256).

(** [{:x}] of a 16-bit group. *)
Definition hex_digit (d : Z) : Z := if d <? 10 then 48 + d else 87 + d.

Fixpoint show_hex_digits (fuel : nat) (n : Z) (acc : str) : str :=
  match fuel with
  | O => acc
  | S fuel =>
      let acc := hex_digit (n mod 16) :: acc in
      if n <? 16 then acc else show_hex_digits fuel (n / 16) acc
  end.

Definition show_hex (n : Z) : str := show_hex_digits 4 n [].

Definition ipv6_segments (a : Z) : list Z :=
  map (fun i => a / 2 ^ (16 * i) mod 2 ^ 16) [7; 6; 5; 4; 3; 2; 1; 0].

(** The first longest run of zero groups, as [(start, len)]. *)
Fixpoint longest_zeroes (segs : list Z) (i : Z) (cur longest : Z * Z) : Z * Z :=
  match segs with
  | [] => longest
  | s :: segs =>
      if s =? 0 then
        let cur := (if cur.2 =? 0 then i else cur.1, cur.2 + 1) in
        longest_zeroes segs (i + 1) cur (if longest.2 <? cur.2 then cur else longest)
      else longest_zeroes segs (i + 1) (0, 0) longest
  end.

Definition show_ipv6 (a : Z) : str :=
  match to_ipv4_mapped a with
  | Some v4 => lit "::ffff:" ++ show_ipv4 v4
  | None =>
      let segs := ipv6_segments a in
      let '(start, n) := longest_zeroes segs 0 (0, 0) (0, 0) in
      if 1 <? n then
        join [58] (map show_hex (take (Z.to_nat start) segs)) ++ lit "::"
        ++ join [58] (map show_hex (drop (Z.to_nat (start + n)) segs))
      else join [58] (map show_hex segs)
  end.

Definition show_ip (a : IpAddr) : str :=
  match a with
  | V4 a => show_ipv4 a
  | V6 a => show_ipv6 a
  end.

Example show_v4 : show_ip (V4 0xC0A80001) = lit "192.168.0.1".
Proof. reflexivity. Qed.

Example show_v6 : show_ip (V6 0x20010DB8000000000000000000000001) = lit "2001:db8::1".
Proof. reflexivity. Qed.

Example show_v6_any : show_ip (V6 0) = lit "::".
Proof. reflexivity. Qed.

Example parse_v4 : Ipv4Addr_from_str (lit "192.168.0.1") = Some 0xC0A80001.
Proof. reflexivity. Qed.

Example parse_v4_leading_zero : Ipv4Addr_from_str (lit "192.168.00.1") = None.
Proof. reflexivity. Qed.

Example parse_v6 : Ipv6Addr_from_str (lit "2001:db8::1") = Some 0x20010DB8000000000000000000000001.
Proof. reflexivity. Qed.

Example parse_v6_mapped : Ipv6Addr_from_str (lit "::ffff:1.2.3.4") = Some 0xFFFF01020304.
Proof. reflexivity. Qed.

Example parse_v6_bad : Ipv6Addr_from_str (lit "1:2:3:4:5:6:7:8:9") = None.
Proof. reflexivity. Qed.

Example trim_unicode : trim ([32; 32] ++ lit "a b" ++ [0xE3; 0x80; 0x80; 32]) = lit "a b".
Proof. reflexivity. Qed.

(** ** Lemmas on splitting *)

Lemma split_on_nonempty c s : split_on c s <> [].
Proof. destruct s as [|b s]; simpl; [done|]. case_if; [done|]. by destruct (split_on c s). Qed.

Lemma split_on_sep c s1 s2 : split_on c (s1 ++ c :: s2) = split_on c s1 ++ split_on c s2.
Proof.
  induction s1 as [|b s1 IH]; simpl; [by rewrite Z.eqb_refl|].
  case_if; [by rewrite IH|]. rewrite IH.
  pose proof (split_on_nonempty c s1). by destruct (split_on c s1).
Qed.

Lemma split_on_none c s : c ∉ s -> split_on c s = [s].
Proof.
  induction s as [|b s IH]; intros Hc; [done|]. simpl.
  apply not_elem_of_cons in Hc as [Hbc Hc]. rewrite IH by done.
  by replace (b =? c) with false by lia.
Qed.

Lemma split_on_pieces c s : Forall (fun w => c ∉ w) (split_on c s).
Proof.
  induction s as [|b s IH]; simpl; [constructor; [set_solver|constructor]|].
  case_if; [constructor; [set_solver|done]|].
  pose proof (split_on_nonempty c s). destruct (split_on c s) as [|w ws]; [done|].
  inversion IH; subst. constructor; [|done].
  apply not_elem_of_cons. split; [lia|done].
Qed.

Lemma join_cons sep w ws : ws <> [] -> join sep (w :: ws) = w ++ sep ++ join sep ws.
Proof. by destruct ws. Qed.

Lemma join_app sep ws1 ws2 : ws1 <> [] -> ws2 <> [] ->
  join sep (ws1 ++ ws2) = join sep ws1 ++ sep ++ join sep ws2.
Proof.
  induction ws1 as [|w ws1 IH]; intros H1 H2; [done|].
  destruct ws1 as [|w' ws1]; [change ([w] ++ ws2) with (w :: ws2); by rewrite join_cons|].
  rewrite <-app_comm_cons, !join_cons by done. rewrite IH by done. by rewrite <-!app_assoc.
Qed.

Lemma join_split_on c s : join [c] (split_on c s) = s.
Proof.
  induction s as [|b s IH]; simpl; [done|].
  pose proof (split_on_nonempty c s).
  case_if.
  - rewrite join_cons, IH by done. simpl. f_equal. by apply Z.eqb_eq in Heqb0.
  - destruct (split_on c s) as [|w [|w' ws]]; [done|simpl in *; by subst|].
    rewrite join_cons in IH |- * by done. simpl. f_equal. by rewrite <-IH.
Qed.

Lemma split_on_join c ws :
  ws <> [] -> Forall (fun w => c ∉ w) ws -> split_on c (join [c] ws) = ws.
Proof.
  induction ws as [|w ws IH]; intros Hne Hws; [done|]. inversion Hws; subst.
  destruct ws as [|w' ws]; [by apply split_on_none|].
  rewrite join_cons by done. change ([c] ++ join [c] (w' :: ws)) with (c :: join [c] (w' :: ws)).
  by rewrite split_on_sep, split_on_none, IH by done.
Qed.

Lemma split_on_inj c s1 s2 : split_on c s1 = split_on c s2 -> s1 = s2.
Proof. intros E. rewrite <-(join_split_on c s1), <-(join_split_on c s2). by rewrite E. Qed.

Lemma rsplit_on_nonempty c s : rsplit_on c s <> [].
Proof.
  unfold rsplit_on. intros E. apply (split_on_nonempty c s).
  by rewrite <-(rev_involutive (split_on c s)), E.
Qed.

(** ** Lemmas on case and trimming *)

Lemma ascii_lower_idemp b : ascii_lower (ascii_lower b) = ascii_lower b.
Proof. unfold ascii_lower, is_ascii_uppercase. repeat case_if; reflect_bools; lia. Qed.

Lemma to_ascii_lowercase_idemp s : to_ascii_lowercase (to_ascii_lowercase s) = to_ascii_lowercase s.
Proof. unfold to_ascii_lowercase. rewrite map_map. apply map_ext, ascii_lower_idemp. Qed.

Lemma to_ascii_lowercase_id s :
  existsb is_ascii_uppercase s = false -> to_ascii_lowercase s = s.
Proof.
  induction s as [|b s IH]; intros Hs; [done|]. simpl in Hs. reflect_bools.
  simpl. unfold ascii_lower at 1. rewrite H. f_equal. by apply IH.
Qed.

(** A character that is not an ASCII letter is kept in place by lowercasing. *)
Lemma ascii_lower_eq c b : ascii_lower c = c -> c < 97 \/ 122 < c -> ascii_lower b = c <-> b = c.
Proof.
  unfold ascii_lower, is_ascii_uppercase. intros Hc Hr. split; [|by intros ->].
  case_if; reflect_bools; lia.
Qed.

Lemma split_on_lower c s : ascii_lower c = c -> c < 97 \/ 122 < c ->
  split_on c (to_ascii_lowercase s) = map to_ascii_lowercase (split_on c s).
Proof.
  intros Hc Hr. induction s as [|b s IH]; [done|]. simpl.
  pose proof (ascii_lower_eq c b Hc Hr).
  replace (ascii_lower b =? c) with (b =? c) by lia.
  case_if; [by rewrite IH|]. unfold to_ascii_lowercase in *. rewrite IH. by destruct (split_on c s).
Qed.

Lemma trim_start_matches_lower c s : ascii_lower c = c -> c < 97 \/ 122 < c ->
  trim_start_matches c (to_ascii_lowercase s) = to_ascii_lowercase (trim_start_matches c s).
Proof.
  intros Hc Hr. induction s as [|b s IH]; [done|]. simpl.
  pose proof (ascii_lower_eq c b Hc Hr).
  replace (ascii_lower b =? c) with (b =? c) by lia. by case_if.
Qed.

Lemma trim_end_matches_lower c s : ascii_lower c = c -> c < 97 \/ 122 < c ->
  trim_end_matches c (to_ascii_lowercase s) = to_ascii_lowercase (trim_end_matches c s).
Proof.
  intros Hc Hr. unfold trim_end_matches.
  replace (rev (to_ascii_lowercase s)) with (to_ascii_lowercase (rev s)) by apply map_rev.
  rewrite trim_start_matches_lower by done. symmetry. apply map_rev.
Qed.

Lemma trim_start_matches_idemp c s :
  trim_start_matches c (trim_start_matches c s) = trim_start_matches c s.
Proof. induction s as [|b s IH]; simpl; [done|]. case_if; [done|]. simpl. by rewrite Heqb0. Qed.

Lemma trim_end_matches_idemp c s : trim_end_matches c (trim_end_matches c s) = trim_end_matches c s.
Proof. unfold trim_end_matches. by rewrite rev_involutive, trim_start_matches_idemp. Qed.

(** ** Lemmas on UTF-8 *)

Lemma utf8_run_app st s1 s2 :
  utf8_run st (s1 ++ s2) = match utf8_run st s1 with Some st => utf8_run st s2 | None => None end.
Proof. revert st. induction s1 as [|b s1 IH]; intros st; simpl; [done|]. by destruct (utf8_step st b). Qed.

Lemma utf8_valid_app s1 s2 : utf8_valid s1 = true -> utf8_valid s2 = true -> utf8_valid (s1 ++ s2) = true.
Proof.
  unfold utf8_valid. rewrite utf8_run_app. destruct (utf8_run [] s1) as [[|]|]; done.
Qed.

Lemma utf8_run_lossy s st pend :
  (st = [] -> pend = []) -> utf8_run st s = Some [] -> utf8_lossy st pend s = pend ++ s.
Proof.
  revert st pend. induction s as [|b s IH]; intros st pend Hp; simpl.
  - intros [= ->]. by rewrite Hp.
  - destruct st as [|[lo hi] st]; simpl.
    + rewrite Hp by done. destruct (utf8_start b) as [[|r st]|]; [..|done]; intros Hr; by rewrite IH.
    + case_if; [|done]. intros Hr. destruct st as [|r st].
      * rewrite IH by done. done.
      * rewrite IH by done. by rewrite <-app_assoc.
Qed.

Lemma from_utf8_lossy_valid s : utf8_valid s = true -> from_utf8_lossy s = s.
Proof.
  unfold utf8_valid, from_utf8_lossy. intros Hv. apply utf8_run_lossy; [done|].
  by destruct (utf8_run [] s) as [[|]|].
Qed.

(** ** Printing and parsing integers *)

Lemma dec_value_show fuel n acc v :
  0 <= n < 10 ^ Z.of_nat fuel ->
  dec_value v (show_digits fuel n acc) =
  dec_value (dec_value v (show_digits fuel n [])) acc.
Proof.
  revert n acc v. induction fuel as [|fuel IH]; intros n acc v Hn; [done|]. cbn [show_digits].
  case_if; [done|]. reflect_bools.
  rewrite Nat2Z.inj_succ, Z.pow_succ_r in Hn by lia.
  assert (0 <= n / 10 < 10 ^ Z.of_nat fuel) by (split; [apply Z.div_pos|apply Z.div_lt_upper_bound]; lia).
  rewrite IH by done. rewrite (IH _ [_]) by done. done.
Qed.

Lemma dec_value_show_digits fuel n :
  0 <= n < 10 ^ Z.of_nat fuel -> (0 < fuel)%nat -> dec_value 0 (show_digits fuel n []) = n.
Proof.
  revert n. induction fuel as [|fuel IH]; intros n Hn Hf; [lia|]. cbn [show_digits].
  rewrite Nat2Z.inj_succ, Z.pow_succ_r in Hn by lia.
  case_if; reflect_bools; cbn [dec_value].
  - rewrite Z.mod_small by lia. lia.
  - assert (0 < fuel)%nat by (destruct fuel; [simpl in Hn|]; lia).
    assert (0 <= n / 10 < 10 ^ Z.of_nat fuel) by (split; [apply Z.div_pos|apply Z.div_lt_upper_bound]; lia).
    rewrite dec_value_show by done. rewrite IH by done. cbn [dec_value].
    pose proof (Z.div_mod n 10). lia.
Qed.

Lemma show_digits_digits fuel n acc :
  forallb is_digit acc = true -> 0 <= n -> forallb is_digit (show_digits fuel n acc) = true.
Proof.
  revert n acc. induction fuel as [|fuel IH]; intros n acc Ha Hn; [done|]. cbn [show_digits].
  assert (is_digit (48 + n mod 10) = true).
  { unfold is_digit. pose proof (Z.mod_pos_bound n 10). lia. }
  case_if; [simpl; by rewrite H, Ha|]. apply IH; [simpl; by rewrite H, Ha|apply Z.div_pos; lia].
Qed.

Lemma show_digits_nonempty fuel n acc : (0 < fuel)%nat \/ acc <> [] -> show_digits fuel n acc <> [].
Proof.
  revert n acc. induction fuel as [|fuel IH]; intros n acc [H|H]; [lia|done|..];
    cbn [show_digits]; case_if; try done; apply IH; by right.
Qed.

(** [n.to_string().parse()] gives [n] back. *)
Lemma parse_show_uint max n : 0 <= n <= max -> n < 10 ^ 20 -> parse_uint max (show_uint n) = Some n.
Proof.
  intros Hn Hb. unfold parse_uint, show_uint.
  pose proof (show_digits_digits 20 n [] eq_refl (proj1 Hn)) as Hd.
  assert (show_digits 20 n [] <> []) as Hne by (apply show_digits_nonempty; left; lia).
  pose proof (dec_value_show_digits 20 n ltac:(lia) ltac:(lia)) as Hv.
  destruct (show_digits 20 n []) as [|d ds]; [done|].
  assert (d <> 43) by (simpl in Hd; unfold is_digit in Hd; lia).
  replace (match d :: ds with 43 :: r => r | _ => d :: ds end) with (d :: ds).
  - rewrite Hd, Hv. by replace (n <=? max) with true by lia.
  - destruct d as [|d|d]; try done. repeat (destruct d as [d|d|]; try done).
Qed.

Lemma parse_uint_bound max s n : parse_uint max s = Some n -> n <= max /\ 0 <= n.
Proof.
  unfold parse_uint. set (ds := match s with 43 :: r => r | _ => s end).
  destruct ds as [|d ds']; [done|]. destruct (forallb is_digit (d :: ds')) eqn:Hd; [|done].
  simpl (true && _). case_if; [|done]. intros [= <-]. reflect_bools. split; [done|].
  assert (Hp : forall l acc, forallb is_digit l = true -> 0 <= acc -> 0 <= dec_value acc l).
  { induction l as [|x xs IH]; intros acc Hx Ha; simpl in *; [done|].
    apply andb_true_iff in Hx as [Hx Hxs]. unfold is_digit in Hx. apply IH; [done|lia]. }
  apply (Hp (d :: ds')); [exact Hd|lia].
Qed.

(** ** A domain and its parent domains *)

(** [d] is [s] or a subdomain of it: [d = s] or [d] ends with ["." ++ s]. *)
Definition domain_under (s d : str) : Prop := d = s \/ exists x, d = x ++ 46 :: s.

Lemma domain_under_labels s d :
  domain_under s d <-> rsplit_on 46 s `prefix_of` rsplit_on 46 d.
Proof.
  unfold domain_under, rsplit_on. split.
  - intros [->|[x ->]]; [reflexivity|]. rewrite split_on_sep, rev_app_distr. by eexists.
  - intros [k Hk]. apply (f_equal (@rev _)) in Hk.
    rewrite rev_app_distr, !rev_involutive in Hk.
    assert (Hd : d = join [46] (rev k ++ split_on 46 s)) by (by rewrite <-Hk, join_split_on).
    destruct (rev k) as [|w ws] eqn:E.
    + left. by rewrite Hd, app_nil_l, join_split_on.
    + right. exists (join [46] (w :: ws)).
      rewrite Hd, join_app by first [done | apply split_on_nonempty].
      by rewrite join_split_on.
Qed.

(** ** IPv4 addresses round-trip through their text *)

Definition octets : list Z := map Z.of_nat (seq 0 256).

(** Two functions that agree on the table of octets agree on every octet. *)
Lemma octet_table {A} (f g : Z -> A) n : map f octets = map g octets -> 0 <= n < 256 -> f n = g n.
Proof.
  intros E Hn. assert (Hl : octets !! Z.to_nat n = Some n).
  { unfold octets. change (map Z.of_nat (seq 0 256)) with (Z.of_nat <$> seq 0 256).
    rewrite list_lookup_fmap, lookup_seq_lt by lia. simpl. f_equal. lia. }
  apply (f_equal (lookup (Z.to_nat n))) in E. change (map f octets) with (f <$> octets) in E.
  change (map g octets) with (g <$> octets) in E. rewrite !list_lookup_fmap, Hl in E. by injection E.
Qed.

Lemma read_octet_dot n rest : 0 <= n < 256 ->
  read_number 10 3 false 255 (show_uint n ++ 46 :: rest) = Some (n, 46 :: rest).
Proof.
  apply (octet_table (fun n => read_number 10 3 false 255 (show_uint n ++ 46 :: rest)) (fun n => Some (n, 46 :: rest))).
  vm_compute. reflexivity.
Qed.

Lemma read_octet_end n : 0 <= n < 256 -> read_number 10 3 false 255 (show_uint n) = Some (n, []).
Proof.
  apply (octet_table (fun n => read_number 10 3 false 255 (show_uint n)) (fun n => Some (n, []))).
  vm_compute. reflexivity.
Qed.

Lemma len_show_octet n : 0 <= n < 256 -> len (show_uint n) <= 3.
Proof.
  intros Hn. apply Z.leb_le. revert Hn. apply (octet_table (fun n => len (show_uint n) <=? 3) (fun _ => true)).
  vm_compute. reflexivity.
Qed.

Lemma ipv4_octets a : in_width 32 a ->
  0 <= a / 2 ^ 24 < 256 /\
  a = ((a / 2 ^ 24 * 256 + a / 2 ^ 16 mod 256) * 256 + a / 2 ^ 8 mod 256) * 256 + a mod 256.
Proof.
  unfold in_width. intros Ha. split; [split; [apply Z.div_pos; lia|apply Z.div_lt_upper_bound; lia]|].
  replace (a / 2 ^ 24) with (a / 2 ^ 8 / 2 ^ 8 / 2 ^ 8) by (rewrite !Z.div_div by lia; done).
  replace (a / 2 ^ 16) with (a / 2 ^ 8 / 2 ^ 8) by (rewrite !Z.div_div by lia; done).
  change (2 ^ 8) with 256. pose proof (Z.div_mod a 256 ltac:(lia)) as E1.
  pose proof (Z.div_mod (a / 256) 256 ltac:(lia)) as E2. pose proof (Z.div_mod (a / 256 / 256) 256 ltac:(lia)) as E3.
  generalize dependent (a mod 256). generalize dependent (a / 256 mod 256). generalize dependent (a / 256 / 256 mod 256).
  generalize dependent (a / 256 / 256 / 256). intros q3 r3. generalize dependent (a / 256 / 256). intros q2 ? r2.
  generalize dependent (a / 256). intros. lia.
Qed.

Lemma read_show_ipv4 a : in_width 32 a -> read_ipv4_addr (show_ipv4 a) = Some (a, []).
Proof.
  intros Ha. destruct (ipv4_octets a Ha) as [H0 E].
  assert (Hm : forall x, 0 <= x mod 256 < 256) by (intros; by apply Z.mod_pos_bound).
  unfold read_ipv4_addr, show_ipv4. simpl app. cbn [read_octets read_separator].
  rewrite read_octet_dot by done. cbn [read_octets read_separator read_char]. rewrite Z.eqb_refl.
  rewrite read_octet_dot by done. cbn [read_octets read_separator read_char]. rewrite Z.eqb_refl.
  rewrite read_octet_dot by done. cbn [read_octets read_separator read_char]. rewrite Z.eqb_refl.
  rewrite read_octet_end by done. do 2 f_equal. lia.
Qed.

Lemma Ipv4Addr_roundtrip a : in_width 32 a -> Ipv4Addr_from_str (show_ipv4 a) = Some a.
Proof.
  intros Ha. unfold Ipv4Addr_from_str. rewrite read_show_ipv4 by done.
  replace (15 <? len (show_ipv4 a)) with false; [done|]. symmetry. apply Z.ltb_ge.
  destruct (ipv4_octets a Ha) as [H0 _]. unfold show_ipv4.
  pose proof (len_show_octet _ H0). pose proof (len_show_octet (a / 2 ^ 16 mod 256) ltac:(by apply Z.mod_pos_bound)).
  pose proof (len_show_octet (a / 2 ^ 8 mod 256) ltac:(by apply Z.mod_pos_bound)).
  pose proof (len_show_octet (a mod 256) ltac:(by apply Z.mod_pos_bound)).
  rewrite !len_app. change (len [46]) with 1. lia.
Qed.

Lemma IpAddr_v4_roundtrip a : in_width 32 a -> IpAddr_from_str (show_ip (V4 a)) = Some (V4 a).
Proof. intros Ha. unfold IpAddr_from_str. simpl. by rewrite read_show_ipv4. Qed.

(** ** Text built from printable pieces *)

(** Printable ASCII other than the space. *)
Definition graphic (b : Z) : Prop := 33 <= b <= 126.

(** Begins and ends with a printable byte. *)
Definition framed (s : str) : Prop :=
  (exists a r, s = a :: r /\ graphic a) /\ (exists r b, s = r ++ [b] /\ graphic b).

Ltac ws_false := unfold ws1, ws2, ws3, graphic in *; bool_lia.

Lemma trim_start_graphic a s : graphic a -> trim_start (a :: s) = a :: s.
Proof.
  intros Ha. cbn [trim_start]. replace (ws1 a) with false by ws_false. destruct s as [|b s]; [done|].
  replace (ws2 a b) with false by ws_false. destruct s as [|c s]; [done|]. by replace (ws3 a b c) with false by ws_false.
Qed.

Lemma trim_start_rev_graphic a s : graphic a -> trim_start_rev (a :: s) = a :: s.
Proof.
  intros Ha. cbn [trim_start_rev]. replace (ws1 a) with false by ws_false. destruct s as [|b s]; [done|].
  replace (ws2 b a) with false by ws_false. destruct s as [|c s]; [done|]. by replace (ws3 c b a) with false by ws_false.
Qed.

Lemma trim_framed s : framed s -> trim s = s.
Proof.
  intros [(a & r & E & Ha) (r' & b & E' & Hb)]. unfold trim, trim_end.
  assert (trim_start s = s) as -> by (rewrite E; by apply trim_start_graphic).
  rewrite E', rev_app_distr. change (rev [b] ++ rev r') with (b :: rev r'). rewrite trim_start_rev_graphic by done.
  simpl. by rewrite rev_involutive.
Qed.

Lemma trim_space_framed s : framed s -> trim (32 :: s) = s.
Proof. intros Hs. change (trim (32 :: s)) with (trim s). by apply trim_framed. Qed.

Lemma framed_app s1 s2 : framed s1 -> framed s2 -> forall m, framed (s1 ++ m ++ s2).
Proof.
  intros [(a & r & -> & Ha) _] [_ (r' & b & -> & Hb)] m. split.
  - exists a, (r ++ m ++ r' ++ [b]). done.
  - exists ((a :: r) ++ m ++ r'), b. split; [by rewrite <-!app_assoc|done].
Qed.

Lemma digits_graphic ds : forallb is_digit ds = true -> Forall graphic ds.
Proof.
  intros H. apply Forall_forall. intros b Hb. rewrite forallb_forall in H.
  apply list_elem_of_In, H in Hb. unfold is_digit in Hb. unfold graphic. lia.
Qed.

Lemma graphic_framed ds : ds <> [] -> Forall graphic ds -> framed ds.
Proof.
  intros Hne Hg. destruct ds as [|a r]; [done|]. split.
  - exists a, r. by inversion Hg.
  - destruct (exists_last Hne) as (r' & b & E). exists r', b. split; [done|].
    rewrite E in Hg. apply Forall_app in Hg as [_ Hg]. by inversion Hg.
Qed.

Lemma lines_join ls : ls <> [] -> Forall (fun l => l <> [] /\ (10 ∉ l) /\ last l <> Some 13) ls ->
  lines (join [10] ls) = ls.
Proof.
  intros Hne Hl. unfold lines. rewrite split_on_join; [|done|eapply Forall_impl; [exact Hl|]; by intros l (_ & ? & _)].
  clear Hne. induction Hl as [|l ls (Hl & _ & H13) Hls IH]; [done|]. cbn [lines_pieces].
  destruct ls as [|l' ls]; [by destruct l|]. rewrite IH. f_equal.
  unfold strip_cr. destruct (rev l) as [|c r] eqn:E; [done|]. apply (f_equal (@rev _)) in E. rewrite rev_involutive in E. simpl in E.
  rewrite E, last_snoc in H13. destruct c as [|c|c]; try done. by repeat (destruct c as [c|c|]; try done).
Qed.

(** A word of printable bytes, then a space or the end. *)
Lemma split_ws_char cur a s : graphic a -> split_whitespace_acc cur (a :: s) = split_whitespace_acc (cur ++ [a]) s.
Proof.
  intros Ha. cbn [split_whitespace_acc]. replace (ws1 a) with false by ws_false. destruct s as [|b s]; [done|].
  replace (ws2 a b) with false by ws_false. destruct s as [|c s]; [done|]. by replace (ws3 a b c) with false by ws_false.
Qed.

Lemma split_ws_word w cur s : Forall graphic w -> cur ++ w <> [] ->
  split_whitespace_acc cur (w ++ 32 :: s) = (cur ++ w) :: split_whitespace_acc [] s.
Proof.
  intros Hw. revert cur. induction Hw as [|a w Ha Hw IH]; intros cur Hne.
  - rewrite app_nil_r in *. cbn. by destruct cur.
  - cbn [app]. rewrite split_ws_char, IH by (done || by destruct cur). by rewrite <-app_assoc.
Qed.

Lemma split_ws_last w cur : Forall graphic w -> cur ++ w <> [] -> split_whitespace_acc cur w = [cur ++ w].
Proof.
  intros Hw. revert cur. induction Hw as [|a w Ha Hw IH]; intros cur Hne.
  - rewrite app_nil_r in *. cbn. by destruct cur.
  - rewrite split_ws_char, IH by (done || by destruct cur). by rewrite <-app_assoc.
Qed.

Lemma show_uint_graphic n : 0 <= n -> Forall graphic (show_uint n).
Proof. intros Hn. apply digits_graphic, show_digits_digits; done. Qed.

Lemma show_uint_nonempty n : show_uint n <> [].
Proof. apply show_digits_nonempty. left. lia. Qed.
