(* ===== verification/Trie.v ===== *)
(** * Trie: the domain-suffix trie of [src/ruleset/trie.rs].

    The arena is the code's: a vector of nodes whose children map a label to a
    [u32] index into the same vector, index 0 being the root.  Labels are walked
    from the right ([rsplit('.')]).  The section [Correctness] relates the arena
    to the set of label paths it stores. *)

From S2P Require Import Prelude RustStr.

Record TrieNode : Type := mkTrieNode {
  children : gmap (list Z) Z;
  is_terminal : bool
}.

Record SuffixTrie : Type := mkSuffixTrie { nodes : list TrieNode }.

Definition TrieNode_new : TrieNode := mkTrieNode ∅ false.

Definition SuffixTrie_new : SuffixTrie := mkSuffixTrie [TrieNode_new].

(** One iteration of the loop of [insert]: the arena and [cur]. *)
Definition insert_step (st : list TrieNode * Z) (label : str) : run (list TrieNode * Z) :=
  let '(ns, cur) := st in
  n ← idx ns cur;
  match children n !! label with
  | Some i => Ret (ns, i)
  | None =>
      let new_idx := as_u32 (len ns) in
      let ns := ns ++ [TrieNode_new] in
      n ← idx ns cur;
      ns ← store ns cur (mkTrieNode (<[label := new_idx]> (children n)) (is_terminal n));
      Ret (ns, new_idx)
  end.

Fixpoint insert_labels (st : list TrieNode * Z) (labels : list str) : run (list TrieNode * Z) :=
  match labels with
  | [] => Ret st
  | label :: labels => st ← insert_step st label; insert_labels st labels
  end.

Definition SuffixTrie_insert (t : SuffixTrie) (domain : str) : run SuffixTrie :=
  let domain := trim_start_matches 46 domain in
  '(ns, cur) ← insert_labels (nodes t, 0) (rsplit_on 46 domain);
  n ← idx ns cur;
  ns ← store ns cur (mkTrieNode (children n) true);
  Ret (mkSuffixTrie ns).

Fixpoint matches_labels (ns : list TrieNode) (cur : Z) (labels : list str) : run bool :=
  match labels with
  | [] => n ← idx ns cur; Ret (is_terminal n)
  | label :: labels =>
      n ← idx ns cur;
      match children n !! label with
      | Some i =>
          n ← idx ns i;
          if is_terminal n then Ret true else matches_labels ns i labels
      | None => Ret false
      end
  end.

Definition SuffixTrie_matches (t : SuffixTrie) (domain : str) : run bool :=
  let domain := trim_end_matches 46 domain in
  matches_labels (nodes t) 0 (rsplit_on 46 domain).

Definition SuffixTrie_len (t : SuffixTrie) : Z := len (filter (fun n => is_terminal n = true) (nodes t)).

Definition SuffixTrie_is_empty (t : SuffixTrie) : bool := SuffixTrie_len t =? 0.

Definition SuffixTrie_node_count (t : SuffixTrie) : Z := len (nodes t).

(** [for s in suffixes { trie.insert(s); }] *)
Fixpoint insert_all (t : SuffixTrie) (ds : list str) : run SuffixTrie :=
  match ds with
  | [] => Ret t
  | d :: ds => t ← SuffixTrie_insert t d; insert_all t ds
  end.

(** ** The label paths an arena stores *)

Definition tstep (ns : list TrieNode) (i : Z) (l : str) : option Z :=
  ns !! Z.to_nat i ≫= fun n => children n !! l.

Fixpoint walk (ns : list TrieNode) (i : Z) (ls : list str) : option Z :=
  match ls with
  | [] => Some i
  | l :: ls => tstep ns i l ≫= fun j => walk ns j ls
  end.

Definition terminal_at (ns : list TrieNode) (i : Z) : bool :=
  match ns !! Z.to_nat i with Some n => is_terminal n | None => false end.

(** [p] is a stored path: the walk from the root along [p] ends at a terminal node. *)
Definition stored (ns : list TrieNode) (p : list str) : Prop :=
  exists i, walk ns 0 p = Some i /\ terminal_at ns i = true.

(** Well-formed arena: some labelling of the nodes by paths makes every edge
    extend its source's path by the edge's label.  So the arena is a tree, and
    every index in it is in range. *)
Definition arena_ok (ns : list TrieNode) (P : list (list str)) : Prop :=
  length P = length ns /\ P !! 0%nat = Some [] /\
  forall i l j, 0 <= i -> tstep ns i l = Some j ->
    0 <= j < len ns /\ exists p, P !! Z.to_nat i = Some p /\ P !! Z.to_nat j = Some (p ++ [l]).

Definition trie_ok (ns : list TrieNode) : Prop := exists P, arena_ok ns P.

Lemma walk_app ns i p q : walk ns i (p ++ q) = walk ns i p ≫= fun j => walk ns j q.
Proof. revert i. induction p as [|l p IH]; intros i; simpl; [done|]. destruct (tstep ns i l); simpl; auto. Qed.

Lemma walk_path ns P i p ls j :
  arena_ok ns P -> 0 <= i < len ns -> P !! Z.to_nat i = Some p -> walk ns i ls = Some j ->
  0 <= j < len ns /\ P !! Z.to_nat j = Some (p ++ ls).
Proof.
  intros Hok. revert i p. induction ls as [|l ls IH]; intros i p Hi Hp; simpl.
  - intros [= <-]. by rewrite app_nil_r.
  - destruct (tstep ns i l) as [k|] eqn:E; simpl; [|done]. intros Hw.
    destruct Hok as (HL & H0 & Hstep). destruct (Hstep i l k) as (Hk & p' & Hp' & Hpk); [lia|done|].
    simplify_eq. destruct (IH k (p ++ [l])) as [Hj HPj]; [done..|].
    split; [done|]. by rewrite <-app_assoc in HPj.
Qed.

Lemma arena_root ns P : arena_ok ns P -> 0 <= 0 < len ns.
Proof. intros (HL & H0 & _). apply lookup_lt_Some in H0. unfold len. lia. Qed.

Lemma walk_root ns P p i :
  arena_ok ns P -> walk ns 0 p = Some i -> 0 <= i < len ns /\ P !! Z.to_nat i = Some p.
Proof.
  intros Hok Hw. destruct (walk_path ns P 0 [] p i Hok) as [Hi HP]; try done.
  - by eapply arena_root.
  - by destruct Hok as (_ & H0 & _).
Qed.

(** Two paths never meet in one node. *)
Lemma walk_inj ns p q i : trie_ok ns -> walk ns 0 p = Some i -> walk ns 0 q = Some i -> p = q.
Proof.
  intros [P Hok] Hp Hq. apply (walk_root _ P) in Hp as [_ Hp]; [|done].
  apply (walk_root _ P) in Hq as [_ Hq]; [|done]. congruence.
Qed.

(** ** Adding a fresh child *)

Section AddChild.
Context (ns : list TrieNode) (cur : Z) (l : str) (n : TrieNode).
Context (Hcur : 0 <= cur < len ns) (Hn : ns !! Z.to_nat cur = Some n) (Hl : children n !! l = None).

Definition add_child : list TrieNode :=
  <[Z.to_nat cur := mkTrieNode (<[l := len ns]> (children n)) (is_terminal n)]> (ns ++ [TrieNode_new]).

Lemma add_child_len : len add_child = len ns + 1.
Proof. unfold add_child, len. rewrite length_insert, length_app. simpl. lia. Qed.

Lemma add_child_lookup i :
  add_child !! i =
  if decide (i = Z.to_nat cur) then Some (mkTrieNode (<[l := len ns]> (children n)) (is_terminal n))
  else if decide (i = length ns) then Some TrieNode_new else ns !! i.
Proof.
  unfold add_child. pose proof (lookup_lt_Some _ _ _ Hn). case_decide as E1.
  - subst. apply list_lookup_insert_eq. rewrite length_app. simpl. lia.
  - rewrite list_lookup_insert_ne by done. case_decide as E2.
    + subst. by rewrite lookup_app_r, Nat.sub_diag.
    + destruct (decide (i < length ns)%nat).
      * by rewrite lookup_app_l.
      * rewrite lookup_app_r, (lookup_ge_None_2 ns) by lia.
        rewrite lookup_ge_None_2; [done|simpl; lia].
Qed.

Lemma add_child_tstep i k : 0 <= i ->
  tstep add_child i k = if decide (i = cur /\ k = l) then Some (len ns) else tstep ns i k.
Proof.
  intros Hi. unfold tstep. rewrite add_child_lookup.
  assert (ns !! length ns = None) by (by apply lookup_ge_None_2).
  case_decide as E1; simpl.
  - assert (i = cur) as -> by lia. rewrite Hn. simpl. case_decide as E2.
    + destruct E2 as [_ ->]. by rewrite lookup_insert_eq.
    + rewrite lookup_insert_ne; [done|]. intros <-. by apply E2.
  - case_decide as E2; simpl.
    + rewrite E2, H, lookup_empty. by rewrite decide_False by (intros [-> _]; done).
    + by rewrite decide_False by (intros [-> _]; done).
Qed.

Lemma add_child_terminal i : terminal_at add_child i = terminal_at ns i.
Proof.
  unfold terminal_at. rewrite add_child_lookup. case_decide as E1; [by rewrite E1, Hn|].
  case_decide as E2; [|done]. by rewrite E2, lookup_ge_None_2 by done.
Qed.

Lemma add_child_ok P pre :
  arena_ok ns P -> P !! Z.to_nat cur = Some pre -> arena_ok add_child (P ++ [pre ++ [l]]).
Proof.
  intros (HL & H0 & Hstep) Hpre. split_and!.
  - rewrite length_app, HL. pose proof add_child_len. unfold len in *. simpl. lia.
  - rewrite lookup_app_l; [done|]. by apply lookup_lt_Some in H0.
  - intros i k j Hi. rewrite add_child_tstep by done. rewrite add_child_len. case_decide as E.
    + destruct E as [-> ->]. intros [= <-]. split; [pose proof (len_nonneg ns); lia|].
      exists pre. split; [rewrite lookup_app_l; [done|by apply lookup_lt_Some in Hpre]|].
      unfold len. rewrite Nat2Z.id, <-HL, lookup_app_r, Nat.sub_diag by done. done.
    + intros Hs. destruct (Hstep i k j Hi Hs) as (Hj & p & Hp & Hpj). split; [lia|].
      exists p. split; (rewrite lookup_app_l; [done|]); by eapply lookup_lt_Some.
Qed.

Lemma add_child_walk_old i p j : 0 <= i -> trie_ok ns -> walk ns i p = Some j -> walk add_child i p = Some j.
Proof.
  intros Hi [P Hok]. revert i Hi. induction p as [|k p IH]; intros i Hi; simpl; [done|].
  destruct (tstep ns i k) as [m|] eqn:E; simpl; [|done]. intros Hw.
  rewrite add_child_tstep by done. rewrite decide_False.
  - rewrite E. simpl. apply IH; [|done]. destruct Hok as (_ & _ & Hs). by destruct (Hs i k m Hi E) as [? _]; lia.
  - intros [-> ->]. unfold tstep in E. rewrite Hn in E. simpl in E. congruence.
Qed.

(** No edge leaves the new node, so only the new path reaches it. *)
Lemma add_child_walk_new i p j : trie_ok ns -> 0 <= i < len ns -> walk add_child i p = Some j ->
  walk ns i p = Some j \/ j = len ns.
Proof.
  intros [P Hok]. revert i. induction p as [|k p IH]; intros i Hi; simpl; [by left|].
  rewrite add_child_tstep by lia. case_decide as E; simpl.
  - destruct p as [|k' p]; simpl; [intros [= <-]; by right|].
    rewrite add_child_tstep by apply len_nonneg. rewrite decide_False by (intros [? _]; lia).
    unfold tstep at 1, len. by rewrite Nat2Z.id, lookup_ge_None_2 by done.
  - destruct (tstep ns i k) as [m|] eqn:Em; simpl; [|done]. apply IH.
    destruct Hok as (_ & _ & Hs). by destruct (Hs i k m ltac:(lia) Em) as [? _].
Qed.

Lemma add_child_stored p : trie_ok ns -> stored add_child p <-> stored ns p.
Proof.
  intros Hok. split.
  - intros (i & Hw & Ht). rewrite add_child_terminal in Ht.
    destruct Hok as [P HP]. apply add_child_walk_new in Hw as [Hw| ->];
      [by exists i| |by exists P|by eapply arena_root].
    unfold terminal_at, len in Ht. by rewrite Nat2Z.id, lookup_ge_None_2 in Ht by done.
  - intros (i & Hw & Ht). exists i. split; [by apply add_child_walk_old|]. by rewrite add_child_terminal.
Qed.
End AddChild.

(** ** The insertion loop *)

Lemma insert_step_spec ns pre cur l :
  trie_ok ns -> walk ns 0 pre = Some cur -> len ns < 2 ^ 32 ->
  exists ns' cur', insert_step (ns, cur) l = Ret (ns', cur') /\ trie_ok ns' /\
    walk ns' 0 (pre ++ [l]) = Some cur' /\ len ns <= len ns' <= len ns + 1 /\
    (forall p, stored ns' p <-> stored ns p).
Proof.
  intros [P Hok] Hw Hlen. destruct (walk_root ns P pre cur Hok Hw) as [Hcur HP].
  destruct (idx_inrange ns cur Hcur) as (n & Hn & Hidx). unfold insert_step. rewrite Hidx, bind_Ret.
  destruct (children n !! l) as [i|] eqn:Hl.
  - exists ns, i. split_and!; try done; try lia; [by exists P|].
    rewrite walk_app, Hw. simpl. unfold tstep. rewrite Hn. simpl. by rewrite Hl.
  - rewrite idx_app_l by lia. rewrite Hidx, bind_Ret. unfold store.
    replace ((0 <=? cur) && (cur <? len (ns ++ [TrieNode_new]))) with true by len_solve.
    rewrite bind_Ret.
    assert (as_u32 (len ns) = len ns) as ->.
    { apply Z.mod_small. pose proof (len_nonneg ns). lia. }
    exists (add_child ns cur l n), (len ns). split_and!; try done.
    + exists (P ++ [pre ++ [l]]). by apply add_child_ok.
    + rewrite walk_app, (add_child_walk_old ns cur l n Hcur Hn Hl 0 pre cur) by (done || by exists P).
      simpl. rewrite add_child_tstep by (done || lia). by rewrite decide_True.
    + rewrite add_child_len. lia.
    + rewrite add_child_len. lia.
    + intros p. apply add_child_stored; (done || by exists P).
Qed.

Lemma insert_labels_spec ls ns pre cur :
  trie_ok ns -> walk ns 0 pre = Some cur -> len ns + len ls <= 2 ^ 32 ->
  exists ns' cur', insert_labels (ns, cur) ls = Ret (ns', cur') /\ trie_ok ns' /\
    walk ns' 0 (pre ++ ls) = Some cur' /\ len ns' <= len ns + len ls /\
    (forall p, stored ns' p <-> stored ns p).
Proof.
  revert ns pre cur. induction ls as [|l ls IH]; intros ns pre cur Hok Hw Hlen.
  - exists ns, cur. rewrite app_nil_r. split_and!; (done || len_solve).
  - rewrite len_cons in Hlen. pose proof (len_nonneg ls).
    destruct (insert_step_spec ns pre cur l) as (ns1 & cur1 & E1 & Hok1 & Hw1 & Hl1 & Hs1); [done..|lia|].
    destruct (IH ns1 (pre ++ [l]) cur1) as (ns2 & cur2 & E2 & Hok2 & Hw2 & Hl2 & Hs2); [done..|lia|].
    exists ns2, cur2. cbn [insert_labels]. rewrite E1, bind_Ret, E2. rewrite <-app_assoc in Hw2.
    rewrite len_cons. split_and!; try done; [lia|]. intros p. by rewrite Hs2, Hs1.
Qed.

(** Marking the node a path ends at. *)
Lemma mark_spec ns p i n :
  trie_ok ns -> walk ns 0 p = Some i -> ns !! Z.to_nat i = Some n ->
  let ns' := <[Z.to_nat i := mkTrieNode (children n) true]> ns in
  trie_ok ns' /\ (forall q, stored ns' q <-> stored ns q \/ q = p).
Proof.
  intros [P Hok] Hw Hn ns'.
  assert (Hts : forall k l, tstep ns' k l = tstep ns k l).
  { intros k l. unfold tstep, ns'. destruct (decide (Z.to_nat i = Z.to_nat k)) as [<-|Hne].
    - rewrite list_lookup_insert_eq by (by eapply lookup_lt_Some). by rewrite Hn.
    - by rewrite list_lookup_insert_ne. }
  assert (Hwk : forall q k, walk ns' k q = walk ns k q).
  { induction q as [|l q IH]; intros k; simpl; [done|]. rewrite Hts. by destruct (tstep ns k l); simpl. }
  destruct (walk_root ns P p i Hok Hw) as [Hi _].
  split.
  - exists P. destruct Hok as (HL & H0 & Hs). split_and!; [|done|].
    + unfold ns'. by rewrite length_insert.
    + intros k l j Hk. rewrite Hts. unfold ns', len. rewrite length_insert. by apply Hs.
  - intros q. unfold stored. setoid_rewrite Hwk. split.
    + intros (j & Hj & Ht). unfold terminal_at, ns' in Ht.
      destruct (decide (j = i)) as [->|Hne].
      * right. eapply walk_inj; [by exists P|done..].
      * left. exists j. split; [done|]. destruct (walk_root ns P q j Hok Hj) as [? _].
        rewrite list_lookup_insert_ne in Ht by lia. done.
    + intros [(j & Hj & Ht)| ->]; [exists j|exists i]; split; try done; unfold terminal_at, ns'.
      * destruct (decide (Z.to_nat i = Z.to_nat j)) as [<-|Hne].
        -- by rewrite list_lookup_insert_eq by (by eapply lookup_lt_Some).
        -- by rewrite list_lookup_insert_ne.
      * by rewrite list_lookup_insert_eq by (by eapply lookup_lt_Some).
Qed.

(** The path a rule is stored under. *)
Definition rule_path (d : str) : list str := rsplit_on 46 (trim_start_matches 46 d).

Lemma SuffixTrie_insert_spec t d :
  trie_ok (nodes t) -> len (nodes t) + len (rule_path d) <= 2 ^ 32 ->
  exists t', SuffixTrie_insert t d = Ret t' /\ trie_ok (nodes t') /\
    len (nodes t') <= len (nodes t) + len (rule_path d) /\
    (forall p, stored (nodes t') p <-> stored (nodes t) p \/ p = rule_path d).
Proof.
  intros Hok Hlen. unfold SuffixTrie_insert.
  destruct (insert_labels_spec (rule_path d) (nodes t) [] 0)
    as (ns & cur & E & Hok1 & Hw & Hl & Hs); [done..|].
  fold (rule_path d). rewrite E, bind_Ret. destruct Hok1 as [P HP].
  destruct (walk_root ns P _ cur HP Hw) as [Hcur _].
  destruct (idx_inrange ns cur Hcur) as (n & Hn & Hidx). rewrite Hidx, bind_Ret.
  unfold store. replace ((0 <=? cur) && (cur <? len ns)) with true by lia. rewrite bind_Ret.
  destruct (mark_spec ns (rule_path d) cur n) as [Hok2 Hs2]; [by exists P|done..|].
  eexists. split; [done|]. cbn [nodes]. split_and!; [done| |].
  - unfold len in *. rewrite length_insert. lia.
  - intros p. by rewrite Hs2, Hs.
Qed.

Fixpoint total_labels (ds : list str) : Z :=
  match ds with
  | [] => 0
  | d :: ds => len (rule_path d) + total_labels ds
  end.

Lemma total_labels_nonneg ds : 0 <= total_labels ds.
Proof. induction ds as [|d ds IH]; simpl; [done|]. pose proof (len_nonneg (rule_path d)). lia. Qed.

Lemma insert_all_spec ds t :
  trie_ok (nodes t) -> len (nodes t) + total_labels ds <= 2 ^ 32 ->
  exists t', insert_all t ds = Ret t' /\ trie_ok (nodes t') /\
    (forall p, stored (nodes t') p <-> stored (nodes t) p \/ exists d, d ∈ ds /\ p = rule_path d).
Proof.
  revert t. induction ds as [|d ds IH]; intros t Hok Hlen; simpl in *.
  - exists t. split_and!; [done..|]. intros p. split; [by left|].
    intros [?|(d & Hd & _)]; [done|]. by apply elem_of_nil in Hd.
  - pose proof (total_labels_nonneg ds).
    destruct (SuffixTrie_insert_spec t d) as (t1 & E1 & Hok1 & Hl1 & Hs1); [done|lia|].
    destruct (IH t1 Hok1) as (t2 & E2 & Hok2 & Hs2); [lia|].
    exists t2. rewrite E1, bind_Ret, E2. split_and!; [done..|]. intros p. rewrite Hs2, Hs1.
    setoid_rewrite elem_of_cons. split; [|naive_solver].
    intros [[?|?]|(d' & ? & ?)]; eauto 6.
Qed.

(** ** The matching loop *)

Lemma matches_labels_spec ns ls pre cur :
  trie_ok ns -> walk ns 0 pre = Some cur -> terminal_at ns cur = false ->
  exists b, matches_labels ns cur ls = Ret b /\
    (b = true <-> exists k, k <> [] /\ k `prefix_of` ls /\ stored ns (pre ++ k)).
Proof.
  intros Hok. revert pre cur. induction ls as [|l ls IH]; intros pre cur Hw Ht;
    pose proof Hok as [P HP]; destruct (walk_root ns P pre cur HP Hw) as [Hcur _];
    destruct (idx_inrange ns cur Hcur) as (n & Hn & Hidx); cbn [matches_labels]; rewrite Hidx, bind_Ret.
  - exists (is_terminal n). split; [done|]. unfold terminal_at in Ht. rewrite Hn in Ht. rewrite Ht.
    split; [done|]. intros (k & Hk & Hp & _). by apply prefix_nil_inv in Hp.
  - destruct (children n !! l) as [i|] eqn:El.
    2: { exists false. split; [done|]. split; [done|]. intros (k & Hk & Hp & j & Hj & _).
         destruct k as [|l' k]; [done|]. apply prefix_cons_inv_1 in Hp as ->.
         rewrite walk_app, Hw in Hj. simpl in Hj. unfold tstep in Hj. rewrite Hn in Hj. simpl in Hj.
         by rewrite El in Hj. }
    assert (Hw' : walk ns 0 (pre ++ [l]) = Some i).
    { rewrite walk_app, Hw. simpl. unfold tstep. rewrite Hn. simpl. by rewrite El. }
    destruct (walk_root ns P _ i HP Hw') as [Hi _].
    destruct (idx_inrange ns i Hi) as (m & Hm & Hidm). rewrite Hidm, bind_Ret.
    destruct (is_terminal m) eqn:Hterm.
    + exists true. split; [done|]. split; [|done]. intros _. exists [l]. split_and!; [done| |].
      * apply prefix_cons, prefix_nil.
      * exists i. split; [done|]. unfold terminal_at. by rewrite Hm.
    + destruct (IH (pre ++ [l]) i Hw') as (b & Eb & Hb). { unfold terminal_at. by rewrite Hm. }
      exists b. split; [done|]. rewrite Hb. split.
      * intros (k & Hk & Hp & Hs). exists (l :: k). split_and!; [done|by apply prefix_cons|].
        by rewrite <-app_assoc in Hs.
      * intros (k & Hk & Hp & Hs). destruct k as [|l' k]; [done|].
        pose proof (prefix_cons_inv_1 _ _ _ _ Hp) as ->. apply prefix_cons_inv_2 in Hp.
        assert (k <> []).
        { intros ->. destruct Hs as (j & Hj & Htj). rewrite Hw' in Hj. simplify_eq.
          unfold terminal_at in Htj. rewrite Hm in Htj. congruence. }
        exists k. split_and!; [done..|]. by rewrite <-app_assoc.
Qed.

Lemma trie_ok_new : trie_ok (nodes SuffixTrie_new) /\ forall p, ~ stored (nodes SuffixTrie_new) p.
Proof.
  assert (Hs : forall i l, tstep [TrieNode_new] i l = None).
  { intros i l. unfold tstep. destruct (Z.to_nat i) as [|k]; simpl; [by rewrite lookup_empty|done]. }
  split.
  - exists [[]]. split_and!; [done..|]. intros i l j _. simpl. by rewrite Hs.
  - intros p (i & Hw & Ht). destruct p as [|l p]; simpl in Hw.
    + by simplify_eq.
    + by rewrite Hs in Hw.
Qed.

Lemma rule_path_nonempty d : rule_path d <> [].
Proof. apply rsplit_on_nonempty. Qed.

(** A freshly built trie never panics, and matches exactly the rules' subdomains. *)
Lemma trie_build_matches ds :
  1 + total_labels ds <= 2 ^ 32 ->
  exists t, insert_all SuffixTrie_new ds = Ret t /\
    forall d, exists b, SuffixTrie_matches t d = Ret b /\
      (b = true <-> exists s, s ∈ ds /\
         domain_under (trim_start_matches 46 s) (trim_end_matches 46 d)).
Proof.
  intros Hlen. destruct trie_ok_new as [Hok0 Hs0].
  destruct (insert_all_spec ds SuffixTrie_new Hok0) as (t & E & Hok & Hs); [done|].
  exists t. split; [done|]. intros d. unfold SuffixTrie_matches.
  assert (Hroot : terminal_at (nodes t) 0 = false).
  { destruct (terminal_at (nodes t) 0) eqn:Ht; [|done]. exfalso.
    assert (stored (nodes t) []) as [H|(s & _ & H)]%Hs by (by exists 0);
      [by eapply Hs0|by eapply rule_path_nonempty]. }
  destruct (matches_labels_spec (nodes t) (rsplit_on 46 (trim_end_matches 46 d)) [] 0)
    as (b & Eb & Hb); [done..|].
  exists b. split; [done|]. rewrite Hb. setoid_rewrite domain_under_labels. split.
  - intros (k & Hk & Hp & Hst). apply Hs in Hst as [H|(s & Hin & Hk')]; [by apply Hs0 in H|].
    exists s. split; [done|]. rewrite app_nil_l in Hk'. by subst.
  - intros (s & Hin & Hp). exists (rule_path s). split_and!; [apply rule_path_nonempty|done|].
    apply Hs. right. by exists s.
Qed.

(** Domain-suffix trie: for any list of rules whose labels fit the u32 node
    indices, building the trie and querying it never panics, and a query matches
    iff the queried domain (trailing dots removed) is one of the rules (leading
    dots removed) or a subdomain of it, label by label. *)
Theorem trie_matches_spec (ds : list str) (d : str) :
  1 + total_labels ds <= 2 ^ 32 ->
  exists t b, insert_all SuffixTrie_new ds = Ret t /\ SuffixTrie_matches t d = Ret b /\
    (b = true <-> exists s, s ∈ ds /\
       domain_under (trim_start_matches 46 s) (trim_end_matches 46 d)).
Proof.
  intros Hlen. destruct (trie_build_matches ds Hlen) as (t & E & Hm).
  destruct (Hm d) as (b & Eb & Hb). by exists t, b.
Qed.

Lemma trie_matches_spec_witness :
  exists t b, insert_all SuffixTrie_new [lit "google.com"; lit ".cn"] = Ret t /\
    SuffixTrie_matches t (lit "www.google.com.") = Ret b /\
    (b = true <-> exists s, s ∈ [lit "google.com"; lit ".cn"] /\
       domain_under (trim_start_matches 46 s) (trim_end_matches 46 (lit "www.google.com."))).
Proof. apply (trie_matches_spec [lit "google.com"; lit ".cn"] (lit "www.google.com.")). vm_compute. done. Defined.

Example trie_no_partial_label :
  (t ← insert_all SuffixTrie_new [lit "google.com"]; SuffixTrie_matches t (lit "notgoogle.com")) = Ret false.
Proof. vm_compute. reflexivity. Qed.
