(* ===== verification/IpMatch.v ===== *)
(** * IpMatch: the address and port indexes of [src/ruleset/matcher.rs].

    [PortBitSet] is the 1024-word bit set, [IpRanges] the sorted and merged
    interval list searched with [partition_point], and [ipv4_cidr_to_range] and
    [ipv6_cidr_to_range] turn a CIDR block into an interval.  Integer arithmetic
    is that of the release profile (overflow checks off): [32 - prefix] wraps at
    [u8] and a shift amount is taken modulo the width. *)

From S2P Require Import Prelude RustStr.

(** ** Ports *)

Record PortBitSet : Type := mkPortBitSet { words : list Z }.

Definition PortBitSet_new : PortBitSet := mkPortBitSet (repeat 0 1024).

Definition PortBitSet_set (bs : PortBitSet) (port : Z) : run PortBitSet :=
  let i := wshr port 6 in
  let bit := wshl 64 1 (Z.land port 63) in
  w ← idx (words bs) i;
  ws ← store (words bs) i (Z.lor w bit);
  Ret (mkPortBitSet ws).

(** [n] iterations of [for p in start..=end] *)
Fixpoint set_ports (bs : PortBitSet) (p : Z) (n : nat) : run PortBitSet :=
  match n with
  | O => Ret bs
  | S n => bs ← PortBitSet_set bs p; set_ports bs (p + 1) n
  end.

Definition PortBitSet_set_range (bs : PortBitSet) (start last : Z) : run PortBitSet :=
  set_ports bs start (Z.to_nat (last - start + 1)).

Definition PortBitSet_contains (bs : PortBitSet) (port : Z) : run bool :=
  let i := wshr port 6 in
  let bit := wshl 64 1 (Z.land port 63) in
  w ← idx (words bs) i;
  Ret (negb (Z.land w bit =? 0)).

(** [for (start, end) in ports { bs.set_range(start, end); }] *)
Fixpoint set_ranges (bs : PortBitSet) (ports : list (Z * Z)) : run PortBitSet :=
  match ports with
  | [] => Ret bs
  | (s, e) :: ports => bs ← PortBitSet_set_range bs s e; set_ranges bs ports
  end.

(** ** Intervals *)

Record IpRanges : Type := mkIpRanges { ranges : list (Z * Z) }.

Definition IpRanges_len (r : IpRanges) : Z := len (ranges r).
Definition IpRanges_is_empty (r : IpRanges) : bool := len (ranges r) =? 0.

Fixpoint merge_loop (out : list (Z * Z)) (last : Z * Z) (rs : list (Z * Z)) : list (Z * Z) :=
  match rs with
  | [] => out ++ [last]
  | (lo, hi) :: rs =>
      if lo <=? last.2
      then merge_loop out (last.1, if hi >? last.2 then hi else last.2) rs
      else merge_loop (out ++ [last]) (lo, hi) rs
  end.

Definition merge_ranges (rs : list (Z * Z)) : list (Z * Z) :=
  match rs with
  | [] => []
  | [r] => [r]
  | r :: rs => merge_loop [] r rs
  end.

(** The order of [sort_unstable_by_key(|&(lo, _)| lo)]. *)
Definition key_le (x y : Z * Z) : Prop := x.1 <= y.1.

#[export] Instance key_le_dec : RelDecision key_le.
Proof. intros x y. unfold key_le. apply _. Defined.

#[export] Instance key_le_total : Total key_le.
Proof. intros x y. unfold key_le. lia. Qed.

#[export] Instance key_le_trans : Transitive key_le.
Proof. intros x y z. unfold key_le. lia. Qed.

Definition IpRanges_build (cidrs : list (Z * Z)) : IpRanges :=
  mkIpRanges (merge_ranges (merge_sort key_le cidrs)).

(** [slice::partition_point], the halving loop of the standard library. *)
Fixpoint bsearch_loop {A} (fuel : nat) (pred : A -> bool) (l : list A) (base size : Z) : run Z :=
  if size <=? 1 then
    x ← idx l base;
    Ret (if pred x then base + 1 else base)
  else
    match fuel with
    | O => Stuck
    | S fuel =>
        let half := size / 2 in
        x ← idx l (base + half);
        bsearch_loop fuel pred l (if pred x then base + half else base) (size - half)
    end.

Definition partition_point {A} (pred : A -> bool) (l : list A) : run Z :=
  match l with
  | [] => Ret 0
  | _ => bsearch_loop (length l) pred l 0 (len l)
  end.

Definition IpRanges_contains (r : IpRanges) (addr : Z) : run bool :=
  if IpRanges_is_empty r then Ret false
  else
    i ← partition_point (fun x : Z * Z => x.1 <=? addr) (ranges r);
    if i =? 0 then Ret false
    else x ← idx (ranges r) (i - 1); Ret (addr <=? x.2).

(** ** CIDR blocks *)

Definition ipv4_cidr_to_range (addr prefix : Z) : Z * Z :=
  if prefix =? 0 then (0, 2 ^ 32 - 1)
  else
    let mask := wshl 32 (wnot 32 0) (Z.land (as_u8 (32 - prefix)) 31) in
    let lo := Z.land addr mask in
    let hi := Z.lor lo (wnot 32 mask) in
    (lo, hi).

Definition ipv6_cidr_to_range (addr prefix : Z) : Z * Z :=
  if prefix =? 0 then (0, 2 ^ 128 - 1)
  else
    let mask := wshl 128 (wnot 128 0) (Z.land (as_u8 (128 - prefix)) 127) in
    let lo := Z.land addr mask in
    let hi := Z.lor lo (wnot 128 mask) in
    (lo, hi).

(** ** Ports: lemmas *)

Definition bitset_ok (bs : PortBitSet) : Prop := length (words bs) = 1024%nat.

(** The bit of [port]; [false] outside the array. *)
Definition port_bit (bs : PortBitSet) (port : Z) : bool :=
  match words bs !! Z.to_nat (port / 64) with
  | Some w => Z.testbit w (port mod 64)
  | None => false
  end.

Lemma port_index p : in_width 16 p -> wshr p 6 = p / 64 /\ 0 <= p / 64 < 1024 /\
  Z.land p 63 = p mod 64 /\ wshl 64 1 (Z.land p 63) = 2 ^ (p mod 64).
Proof.
  unfold in_width, wshr, wshl, wrap. intros Hp.
  assert (Hm : Z.land p 63 = p mod 64) by (change 63 with (Z.ones 6); by rewrite Z.land_ones).
  pose proof (Z.mod_pos_bound p 64 ltac:(lia)).
  split_and!; [by rewrite Z.shiftr_div_pow2|apply Z.div_pos; lia|apply Z.div_lt_upper_bound; lia|done|].
  rewrite Hm, Z.shiftl_1_l, Z.mod_small; [done|]. split; [lia|]. apply Z.pow_lt_mono_r; lia.
Qed.

Lemma land_pow2_testbit w i : 0 <= i -> negb (Z.land w (2 ^ i) =? 0) = Z.testbit w i.
Proof.
  intros Hi. destruct (Z.testbit w i) eqn:E.
  - apply negb_true_iff, Z.eqb_neq. intros H. apply (f_equal (fun z => Z.testbit z i)) in H.
    rewrite Z.land_spec, E, Z.pow2_bits_true, Z.bits_0 in H by done. done.
  - apply negb_false_iff, Z.eqb_eq. apply Z.bits_inj'. intros j Hj.
    rewrite Z.land_spec, Z.bits_0, Z.pow2_bits_eqb by done.
    destruct (Z.eqb_spec i j) as [<-|]; [by rewrite E|by rewrite andb_false_r].
Qed.

Lemma bitset_idx bs p : bitset_ok bs -> in_width 16 p ->
  exists w, words bs !! Z.to_nat (p / 64) = Some w /\ idx (words bs) (wshr p 6) = Ret w.
Proof.
  intros Hok Hp. destruct (port_index p Hp) as (-> & Hr & _).
  apply idx_inrange. unfold len. by rewrite Hok.
Qed.

Lemma PortBitSet_contains_bit bs p : bitset_ok bs -> in_width 16 p ->
  PortBitSet_contains bs p = Ret (port_bit bs p).
Proof.
  intros Hok Hp. unfold PortBitSet_contains, port_bit.
  destruct (bitset_idx bs p Hok Hp) as (w & Hw & ->). rewrite bind_Ret, Hw.
  destruct (port_index p Hp) as (_ & _ & _ & ->). f_equal. apply land_pow2_testbit.
  by apply Z.mod_pos_bound.
Qed.

Lemma PortBitSet_set_spec bs p : bitset_ok bs -> in_width 16 p ->
  exists bs', PortBitSet_set bs p = Ret bs' /\ bitset_ok bs' /\
    forall q, in_width 16 q -> port_bit bs' q = port_bit bs q || (q =? p).
Proof.
  intros Hok Hp. unfold PortBitSet_set. destruct (bitset_idx bs p Hok Hp) as (w & Hw & ->).
  destruct (port_index p Hp) as (Hi & Hr & _ & Hb). rewrite bind_Ret, Hi, Hb. unfold store.
  assert (len (words bs) = 1024) as -> by (unfold len; by rewrite Hok).
  replace ((0 <=? p / 64) && (p / 64 <? 1024)) with true by lia. rewrite bind_Ret.
  eexists. split; [done|]. split; [unfold bitset_ok; simpl; by rewrite length_insert|].
  intros q Hq. unfold port_bit. cbn [words]. destruct (port_index q Hq) as (_ & Hrq & _).
  pose proof (Z.div_mod p 64 ltac:(lia)). pose proof (Z.div_mod q 64 ltac:(lia)).
  pose proof (Z.mod_pos_bound p 64 ltac:(lia)). pose proof (Z.mod_pos_bound q 64 ltac:(lia)).
  destruct (decide (Z.to_nat (p / 64) = Z.to_nat (q / 64))) as [E|E].
  - rewrite <-E, Hw, list_lookup_insert_eq by (by eapply lookup_lt_Some).
    rewrite Z.lor_spec, Z.pow2_bits_eqb by (apply Z.mod_pos_bound; lia). f_equal. lia.
  - rewrite list_lookup_insert_ne by done. replace (q =? p) with false by (symmetry; apply Z.eqb_neq; intros ->; lia).
    by rewrite orb_false_r.
Qed.

Lemma set_ports_spec n bs p : bitset_ok bs -> 0 <= p -> p + Z.of_nat n <= 2 ^ 16 ->
  exists bs', set_ports bs p n = Ret bs' /\ bitset_ok bs' /\
    forall q, in_width 16 q -> port_bit bs' q = port_bit bs q || ((p <=? q) && (q <? p + Z.of_nat n)).
Proof.
  revert bs p. induction n as [|n IH]; intros bs p Hok Hp Hn; cbn [set_ports].
  - exists bs. split_and!; [done..|]. intros q _.
    replace ((p <=? q) && (q <? p + Z.of_nat 0)) with false by bool_lia. by rewrite orb_false_r.
  - destruct (PortBitSet_set_spec bs p Hok) as (bs1 & -> & Hok1 & H1); [unfold in_width; lia|].
    destruct (IH bs1 (p + 1) Hok1) as (bs2 & E2 & Hok2 & H2); [lia..|].
    exists bs2. rewrite bind_Ret. split_and!; [done..|]. intros q Hq.
    rewrite H2, H1 by done. rewrite <-orb_assoc, Nat2Z.inj_succ. f_equal. bool_lia.
Qed.

Lemma set_range_spec bs s e : bitset_ok bs -> in_width 16 s -> in_width 16 e ->
  exists bs', PortBitSet_set_range bs s e = Ret bs' /\ bitset_ok bs' /\
    forall q, in_width 16 q -> port_bit bs' q = port_bit bs q || ((s <=? q) && (q <=? e)).
Proof.
  unfold in_width. intros Hok Hs He. unfold PortBitSet_set_range.
  destruct (set_ports_spec (Z.to_nat (e - s + 1)) bs s) as (bs' & E & Hok' & H); [done|lia|lia|].
  exists bs'. split_and!; [done..|]. intros q Hq. rewrite H by done. f_equal.
  bool_lia.
Qed.

Definition port_ranges_ok (ports : list (Z * Z)) : Prop :=
  Forall (fun r => in_width 16 r.1 /\ in_width 16 r.2) ports.

Lemma set_ranges_spec ports bs : bitset_ok bs -> port_ranges_ok ports ->
  exists bs', set_ranges bs ports = Ret bs' /\ bitset_ok bs' /\
    forall q, in_width 16 q ->
      port_bit bs' q = port_bit bs q || existsb (fun r => (r.1 <=? q) && (q <=? r.2)) ports.
Proof.
  intros Hok Hp. revert bs Hok. induction Hp as [|[s e] ports [Hs He] _ IH]; intros bs Hok; cbn [set_ranges].
  - exists bs. split_and!; [done..|]. intros q _. by rewrite orb_false_r.
  - destruct (set_range_spec bs s e Hok Hs He) as (bs1 & -> & Hok1 & H1).
    destruct (IH bs1 Hok1) as (bs2 & E2 & Hok2 & H2). exists bs2. rewrite bind_Ret.
    split_and!; [done..|]. intros q Hq. rewrite H2, H1 by done. by rewrite <-orb_assoc.
Qed.

Lemma port_bit_new q : port_bit PortBitSet_new q = false.
Proof.
  unfold port_bit, PortBitSet_new. cbn [words].
  destruct (repeat 0 1024 !! Z.to_nat (q / 64)) as [w|] eqn:E; [|done].
  change (repeat 0 1024) with (replicate 1024 0) in E. apply lookup_replicate in E as [-> _].
  apply Z.bits_0.
Qed.

(** Building the bit set of a list of ranges and querying it. *)
Lemma port_bitset_build ports : port_ranges_ok ports ->
  exists bs, set_ranges PortBitSet_new ports = Ret bs /\
    forall q, in_width 16 q ->
      PortBitSet_contains bs q = Ret (existsb (fun r => (r.1 <=? q) && (q <=? r.2)) ports).
Proof.
  intros Hp. destruct (set_ranges_spec ports PortBitSet_new) as (bs & E & Hok & H); [|done|].
  - unfold bitset_ok, PortBitSet_new. cbn [words]. apply repeat_length.
  - exists bs. split; [done|]. intros q Hq. rewrite PortBitSet_contains_bit, H by done.
    by rewrite port_bit_new.
Qed.

(** Port bit set: setting any list of 16-bit port ranges never panics, and a
    16-bit port is then contained exactly when one of the ranges holds it. *)
Theorem port_bitset_spec (ports : list (Z * Z)) (q : Z) :
  port_ranges_ok ports -> in_width 16 q ->
  exists bs, set_ranges PortBitSet_new ports = Ret bs /\
    exists b, PortBitSet_contains bs q = Ret b /\
      (b = true <-> exists s e, (s, e) ∈ ports /\ s <= q <= e).
Proof.
  intros Hp Hq. destruct (port_bitset_build ports Hp) as (bs & E & H).
  exists bs. split; [done|]. eexists. split; [by apply H|].
  rewrite existsb_exists. setoid_rewrite <-list_elem_of_In. split.
  - intros ([s e] & Hin & Hb). exists s, e. simpl in Hb. reflect_bools. done.
  - intros (s & e & Hin & Hb). exists (s, e). split; [done|]. simpl. lia.
Qed.

Lemma port_bitset_spec_witness :
  port_ranges_ok [(80, 80); (8000, 8003)] /\
  exists bs, set_ranges PortBitSet_new [(80, 80); (8000, 8003)] = Ret bs /\
    exists b, PortBitSet_contains bs 8002 = Ret b /\
      (b = true <-> exists s e, (s, e) ∈ [(80, 80); (8000, 8003)] /\ s <= 8002 <= e).
Proof.
  assert (H : port_ranges_ok [(80, 80); (8000, 8003)]) by (repeat constructor; vm_compute; done).
  split; [done|]. apply (port_bitset_spec [(80, 80); (8000, 8003)] 8002 H). vm_compute. done.
Defined.

(** ** Binary search: lemmas *)

(** [l] satisfies [pred] exactly before index [k]. *)
Definition partitioned {A} (pred : A -> bool) (l : list A) (k : Z) : Prop :=
  0 <= k <= len l /\ forall i x, l !! i = Some x -> (pred x = true <-> Z.of_nat i < k).

Lemma partitioned_idx {A} (pred : A -> bool) l k i : partitioned pred l k -> 0 <= i < len l ->
  exists x, idx l i = Ret x /\ (pred x = true <-> i < k).
Proof.
  intros [_ Hp] Hi. destruct (idx_inrange l i Hi) as (x & Hx & E). exists x. split; [done|].
  rewrite (Hp _ _ Hx). lia.
Qed.

Lemma bsearch_loop_spec {A} (pred : A -> bool) (l : list A) k fuel base size :
  partitioned pred l k -> 1 <= size -> size <= Z.of_nat fuel ->
  0 <= base -> base + size <= len l -> k <= base + size -> (base = 0 \/ base < k) ->
  bsearch_loop fuel pred l base size = Ret k.
Proof.
  intros Hp. revert base size. induction fuel as [|fuel IH]; intros base size H1 Hf Hb Hl Hk Hbk; [lia|].
  cbn [bsearch_loop]. case_if; reflect_bools.
  - destruct (partitioned_idx pred l k base Hp ltac:(lia)) as (x & -> & Hx). rewrite bind_Ret.
    destruct Hp as [Hk0 _]. destruct (pred x); f_equal; [|].
    + assert (base < k) by (by apply Hx). lia.
    + assert (~ base < k) by (rewrite <-Hx; done). lia.
  - pose proof (Z.div_mod size 2 ltac:(lia)). pose proof (Z.mod_pos_bound size 2 ltac:(lia)).
    destruct (partitioned_idx pred l k (base + size / 2) Hp ltac:(lia)) as (x & -> & Hx). rewrite bind_Ret.
    destruct (pred x).
    + assert (base + size / 2 < k) by (by apply Hx). apply IH; lia.
    + assert (~ base + size / 2 < k) by (rewrite <-Hx; done). apply IH; lia.
Qed.

Lemma partition_point_spec {A} (pred : A -> bool) (l : list A) k :
  partitioned pred l k -> partition_point pred l = Ret k.
Proof.
  intros Hp. destruct l as [|a l]; [destruct Hp as [Hk _]; simpl in *; f_equal; unfold len in *; simpl in *; lia|].
  unfold partition_point. pose proof (len_nonneg l). destruct Hp as [Hk Hp'] eqn:E.
  apply bsearch_loop_spec; try done; rewrite ?len_cons in *; unfold len in *; simpl in *; lia.
Qed.

(** ** Intervals: lemmas *)

Definition covers (rs : list (Z * Z)) (a : Z) : Prop := exists lo hi, (lo, hi) ∈ rs /\ lo <= a <= hi.

Lemma covers_app rs1 rs2 a : covers (rs1 ++ rs2) a <-> covers rs1 a \/ covers rs2 a.
Proof. unfold covers. setoid_rewrite elem_of_app. naive_solver. Qed.

Lemma covers_cons r rs a : covers (r :: rs) a <-> r.1 <= a <= r.2 \/ covers rs a.
Proof.
  unfold covers. destruct r as [l h]. setoid_rewrite elem_of_cons. split.
  - intros (lo & hi & [[= -> ->]|Hin] & Ha); [by left|right; eauto].
  - intros [Ha|(lo & hi & Hin & Ha)]; simpl in *; [exists l, h|exists lo, hi]; auto.
Qed.

Lemma covers_nil a : ~ covers [] a.
Proof. intros (lo & hi & Hin & _). by apply elem_of_nil in Hin. Qed.

Lemma covers_single r a : covers [r] a <-> r.1 <= a <= r.2.
Proof. rewrite covers_cons. split; [intros [?|H]; [done|by apply covers_nil in H]|by left]. Qed.

Lemma covers_perm rs1 rs2 a : rs1 ≡ₚ rs2 -> covers rs1 a <-> covers rs2 a.
Proof. intros Hp. unfold covers. by setoid_rewrite Hp. Qed.

(** Disjoint and ordered: each interval ends before the next begins. *)
Definition separated (x y : Z * Z) : Prop := x.1 <= y.1 /\ x.2 < y.1.

Lemma merge_loop_spec rs out last :
  StronglySorted key_le (last :: rs) -> StronglySorted separated (out ++ [last]) ->
  StronglySorted separated (merge_loop out last rs) /\
  forall a, covers (merge_loop out last rs) a <-> covers out a \/ last.1 <= a <= last.2 \/ covers rs a.
Proof.
  revert out last. induction rs as [|[lo hi] rs IH]; intros out last Hs Ho; cbn [merge_loop].
  - split; [done|]. intros a. rewrite covers_app, covers_single.
    split; [naive_solver|]. intros [?|[?|H]]; [by left|by right|by apply covers_nil in H].
  - apply StronglySorted_inv in Hs as [Hs Hlast]. apply Forall_cons in Hlast as [Hlo Hlast].
    pose proof Hs as Hs'. apply StronglySorted_inv in Hs' as [Hrs Hhd].
    unfold key_le in Hlo. cbn [fst snd] in Hlo.
    apply StronglySorted_app in Ho as (Hcross & Hout & _).
    assert (Hpre : forall x, x ∈ out -> separated x last) by (intros x Hx; apply Hcross; [done|by left]).
    case_if; reflect_bools.
    + destruct (IH out (last.1, if hi >? last.2 then hi else last.2)) as [H1 H2].
      * constructor; [done|]. eapply Forall_impl; [exact Hlast|]. done.
      * apply StronglySorted_app_2; [|done|repeat constructor].
        intros x y Hx ->%list_elem_of_singleton. destruct (Hpre x Hx). split; done.
      * split; [done|]. intros a. rewrite H2, covers_cons. cbn [fst snd].
        rewrite Z.gtb_ltb. destruct (Z.ltb_spec last.2 hi); split; naive_solver lia.
    + destruct (IH (out ++ [last]) (lo, hi)) as [H1 H2].
      * done.
      * apply StronglySorted_app_2; [| |repeat constructor].
        -- intros x y Hx ->%list_elem_of_singleton. unfold separated. cbn [fst snd].
           apply elem_of_app in Hx as [Hx| ->%list_elem_of_singleton]; [|lia].
           destruct (Hpre x Hx). lia.
        -- apply StronglySorted_app_2; [|done|repeat constructor].
           intros x y Hx ->%list_elem_of_singleton. by apply Hpre.
      * split; [done|]. intros a. rewrite H2, covers_app, covers_single, covers_cons. naive_solver.
Qed.

Lemma merge_ranges_spec rs : StronglySorted key_le rs ->
  StronglySorted separated (merge_ranges rs) /\ forall a, covers (merge_ranges rs) a <-> covers rs a.
Proof.
  intros Hs. destruct rs as [|r [|r' rs]]; cbn [merge_ranges].
  - split; [constructor|done].
  - split; [repeat constructor|done].
  - destruct (merge_loop_spec (r' :: rs) [] r) as [H1 H2]; [done|repeat constructor|].
    split; [done|]. intros a. rewrite H2, (covers_cons r). split; [|naive_solver].
    intros [H|H]; [by apply covers_nil in H|done].
Qed.

Lemma separated_partition rs a : StronglySorted separated rs ->
  exists k, partitioned (fun x : Z * Z => x.1 <=? a) rs k /\
    (k = 0 -> ~ covers rs a) /\
    (0 < k -> forall x, rs !! Z.to_nat (k - 1) = Some x -> (covers rs a <-> a <= x.2)).
Proof.
  induction rs as [|r rs IH]; intros Hs.
  - exists 0. split_and!; [split; [done|intros i x; by rewrite lookup_nil]|intros _; apply covers_nil|lia].
  - apply StronglySorted_inv in Hs as [Hs Hr]. rewrite Forall_forall in Hr.
    assert (Hge : r.1 <= a \/ (a < r.1 /\ forall x, x ∈ rs -> a < x.1)).
    { destruct (Z.le_gt_cases r.1 a); [by left|right]. split; [lia|].
      intros x Hx. destruct (Hr x Hx). lia. }
    destruct Hge as [Hge|[Hlt Hall]].
    + destruct (IH Hs) as (k & [Hk Hp] & H0 & Hpos). exists (1 + k). split_and!.
      * split; [rewrite len_cons; lia|]. intros [|i] x Hx; simpl in Hx.
        -- simplify_eq. split; [lia|]. intros _. apply Z.leb_le. done.
        -- rewrite (Hp i x Hx). lia.
      * lia.
      * intros _ x Hx. replace (1 + k - 1) with k in Hx by lia. rewrite covers_cons.
        destruct (Z.eq_dec k 0) as [->|Hk0].
        -- simpl in Hx. simplify_eq. split; [intros [?|H]; [lia|by apply H0 in H]|left; lia].
        -- assert (rs !! Z.to_nat (k - 1) = Some x) as Hx'.
           { replace (Z.to_nat k) with (S (Z.to_nat (k - 1))) in Hx by lia. done. }
           rewrite (Hpos ltac:(lia) x Hx'). split; [|by right]. intros [Ha|?]; [|done].
           assert (x ∈ rs) as Hin by (apply list_elem_of_lookup; eauto).
           destruct (Hr x Hin) as [_ Hsep].
           assert ((x.1 <=? a) = true) as Hxa by (apply (Hp _ _ Hx'); lia). reflect_bools. lia.
    + exists 0. split_and!; [|intros _|lia].
      * split; [rewrite len_cons; pose proof (len_nonneg rs); lia|]. intros i x Hx.
        split; [|lia]. intros Ha. reflect_bools. destruct i as [|i]; simpl in Hx; [simplify_eq; lia|].
        assert (x ∈ rs) as Hin by (apply list_elem_of_lookup; eauto). specialize (Hall x Hin). lia.
      * rewrite covers_cons. intros [?|(lo & hi & Hin & ?)]; [lia|]. specialize (Hall _ Hin). simpl in Hall. lia.
Qed.

Lemma contains_separated rs a : StronglySorted separated rs ->
  exists b, IpRanges_contains (mkIpRanges rs) a = Ret b /\ (b = true <-> covers rs a).
Proof.
  intros Hs. unfold IpRanges_contains, IpRanges_is_empty. cbn [ranges].
  destruct (Z.eqb_spec (len rs) 0) as [E|E].
  { exists false. split; [done|]. split; [done|]. assert (rs = []) as -> by (apply length_zero_iff_nil; unfold len in E; lia).
    intros H. by apply covers_nil in H. }
  destruct (separated_partition rs a Hs) as (k & Hp & H0 & Hpos).
  rewrite (partition_point_spec _ _ k Hp), bind_Ret. destruct (Z.eqb_spec k 0) as [->|Hk].
  - exists false. split; [done|]. split; [done|]. intros H. by apply H0 in H.
  - destruct Hp as [Hk' _]. destruct (idx_inrange rs (k - 1)) as (x & Hx & ->); [lia|]. rewrite bind_Ret.
    eexists. split; [done|]. rewrite (Hpos ltac:(lia) x Hx). apply Z.leb_le.
Qed.

Lemma ip_ranges_any_sort cidrs sorted a :
  cidrs ≡ₚ sorted -> StronglySorted key_le sorted ->
  exists b, IpRanges_contains (mkIpRanges (merge_ranges sorted)) a = Ret b /\ (b = true <-> covers cidrs a).
Proof.
  intros Hp Hs. destruct (merge_ranges_spec sorted Hs) as [Hsep Hcov].
  destruct (contains_separated (merge_ranges sorted) a Hsep) as (b & E & Hb). exists b. split; [done|].
  rewrite Hb, Hcov. symmetry. by apply covers_perm.
Qed.

Lemma merge_sort_key_le cidrs : StronglySorted key_le (merge_sort key_le cidrs).
Proof. apply StronglySorted_merge_sort; apply _. Qed.

Lemma ip_ranges_build_contains cidrs a :
  exists b, IpRanges_contains (IpRanges_build cidrs) a = Ret b /\ (b = true <-> covers cidrs a).
Proof.
  apply ip_ranges_any_sort; [|apply merge_sort_key_le]. symmetry. apply merge_sort_Permutation.
Qed.

(** ** CIDR blocks: lemmas *)

(** The mask of a [k]-bit host part at width [w]. *)
Lemma cidr_mask w k : 0 <= k <= w -> wshl w (wnot w 0) k = Z.shiftl (Z.ones (w - k)) k.
Proof.
  intros Hk. unfold wshl, wnot, wrap. rewrite Z.sub_0_r.
  replace (2 ^ w - 1) with (Z.ones w) by (rewrite Z.ones_equiv; lia).
  rewrite <-Z.land_ones by lia. apply Z.bits_inj'. intros i Hi.
  rewrite Z.land_spec, !Z.shiftl_spec by lia.
  destruct (Z.ltb_spec i k); [by rewrite !(Z.testbit_neg_r _ (i - k)) by lia|].
  rewrite !Z.testbit_ones by lia. bool_lia.
Qed.

Lemma land_cidr_mask w k x : 0 <= k <= w -> in_width w x ->
  Z.land x (wshl w (wnot w 0) k) = x / 2 ^ k * 2 ^ k.
Proof.
  unfold in_width. intros Hk Hx. rewrite cidr_mask by done.
  rewrite <-Z.shiftr_div_pow2, <-Z.shiftl_mul_pow2 by lia. apply Z.bits_inj'. intros i Hi.
  rewrite Z.land_spec, !Z.shiftl_spec by lia.
  destruct (Z.ltb_spec i k); [by rewrite !(Z.testbit_neg_r _ (i - k)), andb_false_r by lia|].
  rewrite Z.shiftr_spec, Z.testbit_ones by lia. replace (i - k + k) with i by lia.
  destruct (Z.ltb_spec i w).
  { assert ((0 <=? i - k) && (i - k <? w - k) = true) as -> by bool_lia. by rewrite andb_true_r. }
  assert (Z.testbit x i = false) as ->; [|by rewrite andb_false_l].
  rewrite <-(Z.mod_small x (2 ^ w)) by lia. apply Z.mod_pow2_bits_high. lia.
Qed.

Lemma wnot_cidr_mask w k : 0 <= k <= w -> wnot w (wshl w (wnot w 0) k) = Z.ones k.
Proof.
  intros Hk. rewrite cidr_mask, Z.shiftl_mul_pow2, !Z.ones_equiv by lia. unfold wnot.
  replace (2 ^ w) with (2 ^ (w - k) * 2 ^ k); [lia|]. rewrite <-Z.pow_add_r by lia. f_equal. lia.
Qed.

Lemma lor_low_ones x k : 0 <= k -> Z.lor (x * 2 ^ k) (Z.ones k) = x * 2 ^ k + 2 ^ k - 1.
Proof.
  intros Hk. assert (Hl : Z.land (x * 2 ^ k) (Z.ones k) = 0) by (rewrite Z.land_ones, Z.mod_mul; lia).
  rewrite <-Z.lxor_lor, <-Z.add_nocarry_lxor by done. rewrite Z.ones_equiv. lia.
Qed.

(** The interval a CIDR block with [k] host bits denotes. *)
Lemma cidr_interval w k x : 0 <= k <= w -> in_width w x ->
  let mask := wshl w (wnot w 0) k in
  Z.lor (Z.land x mask) (wnot w mask) = Z.land x mask + 2 ^ k - 1 /\
  forall a, Z.land x mask <= a <= Z.land x mask + 2 ^ k - 1 <-> a / 2 ^ k = x / 2 ^ k.
Proof.
  intros Hk Hx mask. unfold mask. rewrite wnot_cidr_mask, land_cidr_mask by done. split; [by apply lor_low_ones; lia|].
  intros a. assert (0 < 2 ^ k) by (apply Z.pow_pos_nonneg; lia).
  pose proof (Z.div_mod a (2 ^ k) ltac:(lia)). pose proof (Z.mod_pos_bound a (2 ^ k) ltac:(lia)).
  split; [|intros <-; lia]. intros Ha. symmetry. apply (Z.div_unique_pos _ _ _ (a - x / 2 ^ k * 2 ^ k)); lia.
Qed.

Lemma ipv4_range_spec x p a : in_width 32 x -> 0 <= p <= 32 -> in_width 32 a ->
  let r := ipv4_cidr_to_range x p in r.1 <= a <= r.2 <-> a / 2 ^ (32 - p) = x / 2 ^ (32 - p).
Proof.
  unfold ipv4_cidr_to_range. intros Hx Hp Ha. destruct (Z.eqb_spec p 0) as [->|Hp0]; cbn -[Z.pow].
  - unfold in_width in *. rewrite !Z.div_small by lia. lia.
  - assert (Z.land (as_u8 (32 - p)) 31 = 32 - p) as ->.
    { unfold as_u8, wrap. rewrite Z.mod_small by lia. change 31 with (Z.ones 5).
      rewrite Z.land_ones, Z.mod_small by lia. done. }
    destruct (cidr_interval 32 (32 - p) x ltac:(lia) Hx) as [-> H]. apply H.
Qed.

Lemma ipv6_range_spec x p a : in_width 128 x -> 0 <= p <= 128 -> in_width 128 a ->
  let r := ipv6_cidr_to_range x p in r.1 <= a <= r.2 <-> a / 2 ^ (128 - p) = x / 2 ^ (128 - p).
Proof.
  unfold ipv6_cidr_to_range. intros Hx Hp Ha. destruct (Z.eqb_spec p 0) as [->|Hp0]; cbn -[Z.pow].
  - unfold in_width in *. rewrite !Z.div_small by lia. lia.
  - assert (Z.land (as_u8 (128 - p)) 127 = 128 - p) as ->.
    { unfold as_u8, wrap. rewrite Z.mod_small by lia. change 127 with (Z.ones 7).
      rewrite Z.land_ones, Z.mod_small by lia. done. }
    destruct (cidr_interval 128 (128 - p) x ltac:(lia) Hx) as [-> H]. apply H.
Qed.

Definition cidrs_ok (w : Z) (cidrs : list (Z * Z)) : Prop :=
  Forall (fun c => in_width w c.1 /\ 0 <= c.2 <= w) cidrs.

(** [a] and the block's base agree on the [p] leading bits. *)
Definition in_cidr (w a : Z) (c : Z * Z) : Prop := a / 2 ^ (w - c.2) = c.1 / 2 ^ (w - c.2).

Lemma covers_map (f : Z * Z -> Z * Z) cidrs a : covers (map f cidrs) a <-> exists c, c ∈ cidrs /\ (f c).1 <= a <= (f c).2.
Proof.
  unfold covers. split.
  - intros (lo & hi & Hin & Ha). apply list_elem_of_fmap in Hin as (c & E & Hc).
    exists c. split; [done|]. by rewrite <-E.
  - intros (c & Hc & Ha). exists (f c).1, (f c).2. split; [|done].
    rewrite <-surjective_pairing. by apply list_elem_of_fmap_2.
Qed.

Lemma ipv4_index cidrs a : cidrs_ok 32 cidrs -> in_width 32 a ->
  exists b, IpRanges_contains (IpRanges_build (map (fun c => ipv4_cidr_to_range c.1 c.2) cidrs)) a = Ret b /\
    (b = true <-> exists c, c ∈ cidrs /\ in_cidr 32 a c).
Proof.
  intros Hok Ha. destruct (ip_ranges_build_contains (map (fun c => ipv4_cidr_to_range c.1 c.2) cidrs) a) as (b & E & Hb).
  exists b. split; [done|]. rewrite Hb, covers_map. unfold cidrs_ok in Hok. rewrite Forall_forall in Hok.
  split; intros (c & Hc & H); exists c; (split; [done|]); destruct (Hok c Hc); by apply ipv4_range_spec.
Qed.

Lemma ipv6_index cidrs a : cidrs_ok 128 cidrs -> in_width 128 a ->
  exists b, IpRanges_contains (IpRanges_build (map (fun c => ipv6_cidr_to_range c.1 c.2) cidrs)) a = Ret b /\
    (b = true <-> exists c, c ∈ cidrs /\ in_cidr 128 a c).
Proof.
  intros Hok Ha. destruct (ip_ranges_build_contains (map (fun c => ipv6_cidr_to_range c.1 c.2) cidrs) a) as (b & E & Hb).
  exists b. split; [done|]. rewrite Hb, covers_map. unfold cidrs_ok in Hok. rewrite Forall_forall in Hok.
  split; intros (c & Hc & H); exists c; (split; [done|]); destruct (Hok c Hc); by apply ipv6_range_spec.
Qed.

(** Interval index: whichever sort the library uses, the merged ranges searched
    by bisection contain an address exactly when one of the original intervals
    does; the search never indexes out of range and ends. *)
Theorem ip_ranges_contains_spec (cidrs sorted : list (Z * Z)) (a : Z) :
  cidrs ≡ₚ sorted -> StronglySorted key_le sorted ->
  exists b, IpRanges_contains (mkIpRanges (merge_ranges sorted)) a = Ret b /\
    (b = true <-> exists lo hi, (lo, hi) ∈ cidrs /\ lo <= a <= hi).
Proof. apply ip_ranges_any_sort. Qed.

Lemma ip_ranges_contains_spec_witness :
  exists b, IpRanges_contains (mkIpRanges (merge_ranges [(1, 5); (3, 9); (20, 30)])) 7 = Ret b /\
    (b = true <-> exists lo hi, (lo, hi) ∈ [(20, 30); (1, 5); (3, 9)] /\ lo <= 7 <= hi).
Proof.
  apply (ip_ranges_contains_spec [(20, 30); (1, 5); (3, 9)] [(1, 5); (3, 9); (20, 30)] 7).
  - change [(1, 5); (3, 9); (20, 30)] with ([(1, 5); (3, 9)] ++ [(20, 30)]). apply Permutation_cons_append.
  - repeat constructor; unfold key_le; simpl; lia.
Defined.

(** CIDR blocks: for valid prefixes, the index built from the blocks contains an
    IPv4 or IPv6 address exactly when the address agrees with one of the blocks
    on the bits of its prefix. *)
Theorem cidr_ranges_spec (cidrs4 cidrs6 : list (Z * Z)) (a4 a6 : Z) :
  cidrs_ok 32 cidrs4 -> cidrs_ok 128 cidrs6 -> in_width 32 a4 -> in_width 128 a6 ->
  exists b4 b6,
    IpRanges_contains (IpRanges_build (map (fun c => ipv4_cidr_to_range c.1 c.2) cidrs4)) a4 = Ret b4 /\
    IpRanges_contains (IpRanges_build (map (fun c => ipv6_cidr_to_range c.1 c.2) cidrs6)) a6 = Ret b6 /\
    (b4 = true <-> exists c, c ∈ cidrs4 /\ in_cidr 32 a4 c) /\
    (b6 = true <-> exists c, c ∈ cidrs6 /\ in_cidr 128 a6 c).
Proof.
  intros H4 H6 Ha4 Ha6. destruct (ipv4_index cidrs4 a4 H4 Ha4) as (b4 & E4 & Hb4).
  destruct (ipv6_index cidrs6 a6 H6 Ha6) as (b6 & E6 & Hb6). by exists b4, b6.
Qed.

Lemma cidr_ranges_spec_witness :
  exists b4 b6,
    IpRanges_contains (IpRanges_build (map (fun c => ipv4_cidr_to_range c.1 c.2) [(0xC0A80000, 16)])) 0xC0A80101 = Ret b4 /\
    IpRanges_contains (IpRanges_build (map (fun c => ipv6_cidr_to_range c.1 c.2) [(1, 128)])) 2 = Ret b6 /\
    (b4 = true <-> exists c, c ∈ [(0xC0A80000, 16)] /\ in_cidr 32 0xC0A80101 c) /\
    (b6 = true <-> exists c, c ∈ [(1, 128)] /\ in_cidr 128 2 c).
Proof. apply (cidr_ranges_spec [(0xC0A80000, 16)] [(1, 128)]); repeat constructor; vm_compute; done. Defined.

(** Unvalidated prefix: an IPv4 prefix of 33 to 63, which the loader accepts
    from a file, is treated as the prefix less 32 (so /40 matches like /8),
    because the shift count wraps. *)
Theorem ipv4_prefix_over_32 (addr prefix : Z) :
  in_width 32 addr -> 33 <= prefix <= 63 ->
  ipv4_cidr_to_range addr prefix = ipv4_cidr_to_range addr (prefix - 32).
Proof.
  intros Ha Hp. unfold ipv4_cidr_to_range.
  replace (prefix =? 0) with false by lia. replace (prefix - 32 =? 0) with false by lia.
  assert (Z.land (as_u8 (32 - prefix)) 31 = Z.land (as_u8 (32 - (prefix - 32))) 31) as ->; [|done].
  change 31 with (Z.ones 5). rewrite !Z.land_ones by lia. unfold as_u8, wrap.
  rewrite <-!Z.land_ones by lia. change (Z.ones 5) with 31. change (Z.ones 8) with 255.
  rewrite <-!Z.land_assoc. change (Z.land 255 31) with (Z.ones 5). rewrite !Z.land_ones by lia.
  replace (32 - (prefix - 32)) with (32 - prefix + 1 * 2 ^ 5) by lia. by rewrite Z.mod_add.
Qed.

Lemma ipv4_prefix_over_32_witness :
  ipv4_cidr_to_range 0x08080808 33 = ipv4_cidr_to_range 0x08080808 1.
Proof. apply (ipv4_prefix_over_32 0x08080808 33); [vm_compute; done | lia]. Defined.
