(* ===== verification/Extern.v ===== *)
(** * Extern: what the rule-set code relies on of the third-party crates [fst]
    and [regex], as classes of operations and classes of laws.

    The operations are parameters of every definition that calls them; a law
    class states documented behaviour of the crate.  [ToyFst] and [ToyRegex] are
    concrete implementations that satisfy the laws: the witnesses run on them. *)

From S2P Require Import Prelude RustStr.

(** ** Byte-wise order of strings ([Ord] of [[u8]] and [str]) *)

Fixpoint lex_le (x y : bytes) : bool :=
  match x, y with
  | [], _ => true
  | _ :: _, [] => false
  | a :: x, b :: y => (a <? b) || ((a =? b) && lex_le x y)
  end.

Definition bytes_le (x y : bytes) : Prop := lex_le x y = true.
Definition bytes_lt (x y : bytes) : Prop := bytes_le x y /\ x <> y.

#[export] Instance bytes_le_dec : RelDecision bytes_le.
Proof. intros x y. unfold bytes_le. apply _. Defined.

Lemma lex_le_total x y : lex_le x y = true \/ lex_le y x = true.
Proof.
  revert y. induction x as [|a x IH]; intros [|b y]; simpl; auto.
  destruct (Z.ltb_spec a b); [by left|]. destruct (Z.ltb_spec b a); [by right|].
  assert (a = b) as -> by lia. rewrite Z.eqb_refl. simpl. apply IH.
Qed.

Lemma lex_le_trans x y z : lex_le x y = true -> lex_le y z = true -> lex_le x z = true.
Proof.
  revert y z. induction x as [|a x IH]; intros [|b y] [|c z]; simpl; try done.
  intros [?|[? ?]%andb_true_iff]%orb_true_iff [?|[? ?]%andb_true_iff]%orb_true_iff; reflect_bools;
    apply orb_true_iff; try (left; apply Z.ltb_lt; lia).
  right. apply andb_true_iff. split; [apply Z.eqb_eq; lia|by eapply IH].
Qed.

Lemma lex_le_antisym x y : lex_le x y = true -> lex_le y x = true -> x = y.
Proof.
  revert y. induction x as [|a x IH]; intros [|b y]; simpl; try done.
  intros [?|[? ?]%andb_true_iff]%orb_true_iff [?|[? ?]%andb_true_iff]%orb_true_iff; reflect_bools; try lia.
  f_equal; [done|by apply IH].
Qed.

#[export] Instance bytes_le_total : Total bytes_le.
Proof. intros x y. apply lex_le_total. Qed.
#[export] Instance bytes_le_trans : Transitive bytes_le.
Proof. intros x y z. apply lex_le_trans. Qed.
#[export] Instance bytes_le_antisym : AntiSymm (=) bytes_le.
Proof. intros x y. apply lex_le_antisym. Qed.

(** [Vec::dedup] *)
Fixpoint dedup (l : list bytes) : list bytes :=
  match l with
  | [] => []
  | x :: l' =>
      match l' with
      | [] => [x]
      | y :: _ => if decide (x = y) then dedup l' else x :: dedup l'
      end
  end.

Lemma elem_of_dedup k l : k ∈ dedup l <-> k ∈ l.
Proof.
  induction l as [|x l IH]; [done|]. cbn [dedup]. destruct l as [|y l]; [done|].
  case_decide as E; rewrite (elem_of_cons (y :: l)), ?elem_of_cons in *; subst; naive_solver.
Qed.

Lemma dedup_sorted l : StronglySorted bytes_le l -> StronglySorted bytes_lt (dedup l).
Proof.
  induction 1 as [|x l Hl IH Hx]; [constructor|]. cbn [dedup]. destruct l as [|y l]; [repeat constructor|].
  case_decide as E; [done|]. constructor; [done|]. apply Forall_forall. intros z Hz.
  apply (proj1 (elem_of_dedup _ _)) in Hz. rewrite Forall_forall in Hx.
  split; [by apply Hx|]. intros ->. apply E. apply lex_le_antisym; [by apply Hx; left|].
  apply elem_of_cons in Hz as [->|Hz]; [unfold bytes_le; destruct (lex_le_total y y); done|].
  apply StronglySorted_inv in Hl as [_ Hy]. rewrite Forall_forall in Hy. by apply Hy.
Qed.

(** The keys of a set: sorted, without repetitions. *)
Definition sort_dedup (keys : list bytes) : list bytes := dedup (merge_sort bytes_le keys).

Lemma sort_dedup_sorted keys : StronglySorted bytes_lt (sort_dedup keys).
Proof. apply dedup_sorted, StronglySorted_merge_sort; apply _. Qed.

Lemma elem_of_sort_dedup k keys : k ∈ sort_dedup keys <-> k ∈ keys.
Proof. unfold sort_dedup. by rewrite elem_of_dedup, merge_sort_Permutation. Qed.

Lemma sort_dedup_nonempty keys : keys <> [] -> sort_dedup keys <> [].
Proof.
  intros Hk E. destruct keys as [|k keys]; [done|].
  assert (k ∈ sort_dedup (k :: keys)) as H by (apply elem_of_sort_dedup; by left).
  rewrite E in H. by apply elem_of_nil in H.
Qed.

(** ** Crate [fst]: [SetBuilder] and [Set] *)

Class FstLib : Type := {
  fst_builder : Type;
  fst_set : Type;
  SetBuilder_new : result fst_builder str;
  SetBuilder_insert : fst_builder -> bytes -> result fst_builder str;
  SetBuilder_finish : fst_builder -> result bytes str;
  Set_new : bytes -> result fst_set str;
  Set_contains : fst_set -> bytes -> bool;
  Set_len : fst_set -> Z
}.

(** The builder run over a list of keys. *)
Definition fst_build `{FstLib} (keys : list bytes) : result bytes str :=
  result_bind SetBuilder_new (fun b =>
    result_bind (fold_result SetBuilder_insert keys b) SetBuilder_finish).

(** Keys inserted in strictly increasing order build a set with exactly these keys. *)
Class FstLaws `{FstLib} : Prop := {
  fst_build_ok : forall keys, Forall bytes_ok keys -> StronglySorted bytes_lt keys ->
    exists buf s, fst_build keys = Ok buf /\ buf <> [] /\ bytes_ok buf /\ Set_new buf = Ok s /\
      forall k, Set_contains s k = true <-> k ∈ keys
}.

(** ** Crate [regex]: [Regex::new] and [RegexSet] *)

Class RegexLib : Type := {
  regex_set : Type;
  (** [Regex::new(p)]: [None] when [p] compiles, else the error's text *)
  Regex_new : str -> option str;
  (** [Regex::new(p)?.is_match(s)] *)
  Regex_is_match : str -> str -> bool;
  RegexSet_new : list str -> result regex_set str;
  RegexSet_is_match : regex_set -> str -> bool;
  RegexSet_len : regex_set -> Z
}.

(** A set of patterns matches what any of them matches. *)
Class RegexLaws `{RegexLib} : Prop := {
  regex_set_is_match : forall ps s d, RegexSet_new ps = Ok s ->
    (RegexSet_is_match s d = true <-> exists p, p ∈ ps /\ Regex_is_match p d = true)
}.

(** ** Instances that satisfy the laws *)

(** A set serialised as its keys: 2, then each byte as [1; b] and each end of key as 0. *)
Definition toy_key (k : bytes) : bytes := flat_map (fun b => [1; b]) k ++ [0].

Definition toy_encode (keys : list bytes) : bytes := 2 :: flat_map toy_key keys.

Fixpoint toy_decode (cur : bytes) (l : bytes) : option (list bytes) :=
  match l with
  | [] => match cur with [] => Some [] | _ => None end
  | 0 :: l => match toy_decode [] l with Some ks => Some (cur :: ks) | None => None end
  | 1 :: b :: l => toy_decode (cur ++ [b]) l
  | _ => None
  end.

Definition toy_load (l : bytes) : option (list bytes) :=
  match l with 2 :: l => toy_decode [] l | _ => None end.

Lemma toy_decode_key k cur l :
  toy_decode cur (toy_key k ++ l) =
  match toy_decode [] l with Some ks => Some ((cur ++ k) :: ks) | None => None end.
Proof.
  revert cur. induction k as [|b k IH]; intros cur; simpl; [by rewrite app_nil_r|].
  unfold toy_key in IH. by rewrite IH, <-app_assoc.
Qed.

Lemma toy_load_encode keys : toy_load (toy_encode keys) = Some keys.
Proof.
  simpl. induction keys as [|k keys IH]; [done|]. simpl. by rewrite toy_decode_key, IH.
Qed.

Lemma toy_encode_ok keys : Forall bytes_ok keys -> bytes_ok (toy_encode keys).
Proof.
  intros Hk. constructor; [done|]. induction Hk as [|k keys Hk _ IH]; [constructor|]. simpl.
  apply Forall_app. split; [|done]. unfold toy_key. apply Forall_app. split; [|repeat constructor; done].
  induction Hk; simpl; [constructor|]. constructor; [done|]. by constructor.
Qed.

Definition ToyFst : FstLib := {|
  fst_builder := list bytes;
  fst_set := list bytes;
  SetBuilder_new := Ok [];
  SetBuilder_insert b k := Ok (b ++ [k]);
  SetBuilder_finish b := Ok (toy_encode b);
  Set_new l := ok_or (toy_load l) (lit "bad set");
  Set_contains s k := bool_decide (k ∈ s);
  Set_len s := len s
|}.

Lemma toy_insert_all keys (b : list bytes) :
  fold_result (E := str) (fun b k => Ok (b ++ [k])) keys b = Ok (b ++ keys).
Proof.
  revert b. induction keys as [|k keys IH]; intros b; simpl; [by rewrite app_nil_r|].
  by rewrite IH, <-app_assoc.
Qed.

Lemma ToyFst_laws : @FstLaws ToyFst.
Proof.
  constructor. intros keys Hk _. exists (toy_encode keys), keys. split_and!; try done.
  - unfold fst_build. simpl. by rewrite toy_insert_all.
  - by apply toy_encode_ok.
  - unfold Set_new, ToyFst. by rewrite toy_load_encode.
  - intros k. simpl. apply bool_decide_eq_true.
Qed.

(** Patterns as plain substrings. *)
Definition ToyRegex : RegexLib := {|
  regex_set := list str;
  Regex_new _ := None;
  Regex_is_match p s := contains p s;
  RegexSet_new ps := Ok ps;
  RegexSet_is_match ps s := existsb (fun p => contains p s) ps;
  RegexSet_len ps := len ps
|}.

Lemma ToyRegex_laws : @RegexLaws ToyRegex.
Proof.
  constructor. simpl. intros ps s d [= <-]. rewrite existsb_exists. by setoid_rewrite <-list_elem_of_In.
Qed.
