(* ===== verification/Format.v ===== *)
(** * Format: the constants, section types and errors of a rule-set file
    ([src/ruleset/format.rs], [src/ruleset/error.rs]). *)

From S2P Require Import Prelude RustStr.

Definition MAGIC : bytes := lit "RRST".
Definition VERSION : Z := 0x02.
Definition VERSION_V1 : Z := 0x01.
Definition HEADER_LEN : Z := 14.
Definition SECTION_HEADER_LEN : Z := 9.
Definition IPV4_ENTRY_LEN : Z := 5.
Definition IPV6_ENTRY_LEN : Z := 17.
Definition PORT_ENTRY_LEN : Z := 4.

Inductive SectionType : Type :=
  | Domain | DomainSuffix | DomainKeyword | DomainRegex | DomainFst | DomainSuffixFst
  | IpCidrV4 | IpCidrV6 | Port.

#[export] Instance SectionType_eq_dec : EqDecision SectionType.
Proof. solve_decision. Defined.

(** [sec_type as u8] *)
Definition SectionType_as_u8 (t : SectionType) : Z :=
  match t with
  | Domain => 0x01
  | DomainSuffix => 0x02
  | DomainKeyword => 0x03
  | DomainRegex => 0x04
  | DomainFst => 0x05
  | DomainSuffixFst => 0x06
  | IpCidrV4 => 0x10
  | IpCidrV6 => 0x11
  | Port => 0x20
  end.

Definition SectionType_try_from (v : Z) : result SectionType Z :=
  if v =? 0x01 then Ok Domain
  else if v =? 0x02 then Ok DomainSuffix
  else if v =? 0x03 then Ok DomainKeyword
  else if v =? 0x04 then Ok DomainRegex
  else if v =? 0x05 then Ok DomainFst
  else if v =? 0x06 then Ok DomainSuffixFst
  else if v =? 0x10 then Ok IpCidrV4
  else if v =? 0x11 then Ok IpCidrV6
  else if v =? 0x20 then Ok Port
  else Err v.

Lemma SectionType_try_from_as_u8 t : SectionType_try_from (SectionType_as_u8 t) = Ok t.
Proof. by destruct t. Qed.

Lemma SectionType_as_u8_byte t : is_byte (SectionType_as_u8 t).
Proof. by destruct t. Qed.

Inductive RuleSetError : Type :=
  | ParseError (line : Z) (msg : str)
  | InvalidCidr (cidr why : str)
  | InvalidPort (s : str)
  | InvalidRegex (re why : str)
  | DomainTooLong (d : str)
  | BadMagic
  | UnsupportedVersion (v : Z)
  | UnknownSection (v : Z)
  | Truncated (expected got : Z)
  | InvalidUtf8
  | LoadedInvalidRegex (why : str)
  | Io.
