(* ===== verification/Compiler.v ===== *)
(** * Compiler: text rule sets and their binary form ([src/ruleset/compiler.rs]).

    [CompiledRuleSet_from_text] parses the [key: value] lines,
    [CompiledRuleSet_serialize] writes the v2 file.  A writer is the bytes written
    (the code writes into a [Vec<u8>]). *)

From S2P Require Import Prelude RustStr Extern Format.

Local Open Scope reflex_scope.

Record CompiledRuleSet : Type := mkCompiled {
  domains : list str;
  domain_suffixes : list str;
  domain_keywords : list str;
  domain_regexes : list str;
  ipv4_cidrs : list (Z * Z);
  ipv6_cidrs : list (Z * Z);
  ports : list (Z * Z)
}.

Definition CompiledRuleSet_default : CompiledRuleSet := mkCompiled [] [] [] [] [] [] [].

Definition push_domain (c : CompiledRuleSet) (d : str) :=
  mkCompiled (domains c ++ [d]) (domain_suffixes c) (domain_keywords c) (domain_regexes c)
    (ipv4_cidrs c) (ipv6_cidrs c) (ports c).
Definition push_domain_suffix (c : CompiledRuleSet) (d : str) :=
  mkCompiled (domains c) (domain_suffixes c ++ [d]) (domain_keywords c) (domain_regexes c)
    (ipv4_cidrs c) (ipv6_cidrs c) (ports c).
Definition push_domain_keyword (c : CompiledRuleSet) (k : str) :=
  mkCompiled (domains c) (domain_suffixes c) (domain_keywords c ++ [k]) (domain_regexes c)
    (ipv4_cidrs c) (ipv6_cidrs c) (ports c).
Definition push_domain_regex (c : CompiledRuleSet) (r : str) :=
  mkCompiled (domains c) (domain_suffixes c) (domain_keywords c) (domain_regexes c ++ [r])
    (ipv4_cidrs c) (ipv6_cidrs c) (ports c).
Definition push_ipv4_cidr (c : CompiledRuleSet) (x : Z * Z) :=
  mkCompiled (domains c) (domain_suffixes c) (domain_keywords c) (domain_regexes c)
    (ipv4_cidrs c ++ [x]) (ipv6_cidrs c) (ports c).
Definition push_ipv6_cidr (c : CompiledRuleSet) (x : Z * Z) :=
  mkCompiled (domains c) (domain_suffixes c) (domain_keywords c) (domain_regexes c)
    (ipv4_cidrs c) (ipv6_cidrs c ++ [x]) (ports c).
Definition push_port (c : CompiledRuleSet) (x : Z * Z) :=
  mkCompiled (domains c) (domain_suffixes c) (domain_keywords c) (domain_regexes c)
    (ipv4_cidrs c) (ipv6_cidrs c) (ports c ++ [x]).

Definition CompiledRuleSet_total_entries (c : CompiledRuleSet) : Z :=
  len (domains c) + len (domain_suffixes c) + len (domain_keywords c) + len (domain_regexes c)
  + len (ipv4_cidrs c) + len (ipv6_cidrs c) + len (ports c).

(** ** Parsing helpers *)

Definition validate_domain_len (domain : str) (line : Z) : result unit RuleSetError :=
  if len domain >? 255
  then Err (ParseError line (lit "domain too long (" ++ show_uint (len domain) ++ lit "): '" ++ domain ++ lit "'"))
  else Ok tt.

Definition mask_ipv4 (addr prefix : Z) : Z :=
  if prefix =? 0 then 0
  else Z.land addr (wshl 32 (wnot 32 0) (Z.land (as_u8 (32 - prefix)) 31)).

Definition mask_ipv6 (addr prefix : Z) : Z :=
  if prefix =? 0 then 0
  else Z.land addr (wshl 128 (wnot 128 0) (Z.land (as_u8 (128 - prefix)) 127)).

Definition parse_ipv4_cidr (s : str) : result (Z * Z) RuleSetError :=
  p ←! ok_or (split_once 47 s) (InvalidCidr s (lit "missing '/'"));
  let '(addr_str, prefix_str) := p in
  addr ←! ok_or (Ipv4Addr_from_str addr_str) (InvalidCidr s (lit "invalid IPv4 address syntax"));
  prefix ←! ok_or (parse_uint u8_max prefix_str) (InvalidCidr s (lit "invalid prefix length"));
  if prefix >? 32 then Err (InvalidCidr s (lit "IPv4 prefix must be 0–32"))
  else Ok (mask_ipv4 addr prefix, prefix).

Definition parse_ipv6_cidr (s : str) : result (Z * Z) RuleSetError :=
  p ←! ok_or (split_once 47 s) (InvalidCidr s (lit "missing '/'"));
  let '(addr_str, prefix_str) := p in
  addr ←! ok_or (Ipv6Addr_from_str addr_str) (InvalidCidr s (lit "invalid IPv6 address syntax"));
  prefix ←! ok_or (parse_uint u8_max prefix_str) (InvalidCidr s (lit "invalid prefix length"));
  if prefix >? 128 then Err (InvalidCidr s (lit "IPv6 prefix must be 0–128"))
  else Ok (mask_ipv6 addr prefix, prefix).

Definition parse_port_range (s : str) : result (Z * Z) RuleSetError :=
  match split_once 45 s with
  | Some (start_s, end_s) =>
      start ←! ok_or (parse_uint u16_max (trim start_s)) (InvalidPort s);
      last ←! ok_or (parse_uint u16_max (trim end_s)) (InvalidPort s);
      if start >? last then Err (InvalidPort s) else Ok (start, last)
  | None =>
      port ←! ok_or (parse_uint u16_max (trim s)) (InvalidPort s);
      Ok (port, port)
  end.

(** ** Encoding helpers *)

Definition encode_strings (l : list str) : bytes :=
  flat_map (fun s => as_u8 (len s) :: s) l.

Definition encode_ipv4_cidrs (l : list (Z * Z)) : bytes :=
  flat_map (fun c => to_be_bytes 4 c.1 ++ [c.2]) l.

Definition encode_ipv6_cidrs (l : list (Z * Z)) : bytes :=
  flat_map (fun c => to_be_bytes 16 c.1 ++ [c.2]) l.

Definition encode_ports (l : list (Z * Z)) : bytes :=
  flat_map (fun p => to_le_bytes 2 p.1 ++ to_le_bytes 2 p.2) l.

(** The scan of [entry_count_for] over length-prefixed strings; each step
    consumes at least one byte, so [length data] fuel is enough. *)
Fixpoint count_strings (fuel : nat) (data : bytes) (i count : Z) : run Z :=
  if i <? len data then
    match fuel with
    | O => Stuck
    | S fuel => n ← idx data i; count_strings fuel data (i + (1 + n)) (count + 1)
    end
  else Ret count.

Definition entry_count_for (sec_type : SectionType) (data : bytes) : run Z :=
  match sec_type with
  | IpCidrV4 => Ret (len data / IPV4_ENTRY_LEN)
  | IpCidrV6 => Ret (len data / IPV6_ENTRY_LEN)
  | Port => Ret (len data / PORT_ENTRY_LEN)
  | _ => count_strings (length data) data 0 0
  end.

(** ** FST keys *)

Definition domain_to_fst_key (domain : str) : str := join [46] (rev (split_on 46 domain)).

Definition suffix_to_fst_key (domain : str) : str := join [46] (rev (split_on 46 domain)) ++ [46].

Section WithLibs.
Context {FST : FstLib} {RX : RegexLib}.

Definition build_domain_fst (ds : list str) : result bytes RuleSetError :=
  match ds with
  | [] => Ok []
  | _ =>
      let keys := sort_dedup (map domain_to_fst_key ds) in
      map_err (ParseError 0) (fst_build keys)
  end.

Definition build_suffix_fst (ds : list str) : result bytes RuleSetError :=
  match ds with
  | [] => Ok []
  | _ =>
      let keys := sort_dedup (map suffix_to_fst_key ds) in
      map_err (ParseError 0) (fst_build keys)
  end.

(** ** [from_text] *)

Definition compile_rule (out : CompiledRuleSet) (line : Z) (key value : str)
    : result CompiledRuleSet RuleSetError :=
  if decide (key = lit "domain") then
    _ ←! validate_domain_len value line;
    Ok (push_domain out (to_ascii_lowercase value))
  else if decide (key = lit "domain-suffix") then
    let v := trim_start_matches 46 value in
    _ ←! validate_domain_len v line;
    Ok (push_domain_suffix out (to_ascii_lowercase v))
  else if decide (key = lit "domain-keyword") then
    Ok (push_domain_keyword out (to_ascii_lowercase value))
  else if decide (key = lit "domain-regex") then
    match Regex_new value with
    | Some e => Err (InvalidRegex value e)
    | None => Ok (push_domain_regex out value)
    end
  else if decide (key = lit "ip-cidr") then
    c ←! parse_ipv4_cidr value; Ok (push_ipv4_cidr out c)
  else if decide (key = lit "ip-cidr6") then
    c ←! parse_ipv6_cidr value; Ok (push_ipv6_cidr out c)
  else if decide (key = lit "port") then
    r ←! parse_port_range value; Ok (push_port out r)
  else Err (ParseError line (lit "unknown rule type '" ++ key ++ lit "'")).

Definition compile_line (out : CompiledRuleSet) (l : nat * str) : result CompiledRuleSet RuleSetError :=
  let line := Z.of_nat l.1 + 1 in
  let trimmed := trim l.2 in
  if (len trimmed =? 0) || starts_with [35] trimmed then Ok out
  else
    kv ←! ok_or (split_once 58 trimmed)
           (ParseError line (lit "expected 'key: value', got '" ++ trimmed ++ lit "'"));
    compile_rule out line (trim kv.1) (trim kv.2).

Definition CompiledRuleSet_from_text (src : str) : result CompiledRuleSet RuleSetError :=
  let ls := lines src in
  fold_result compile_line (combine (seq 0 (length ls)) ls) CompiledRuleSet_default.

(** ** [serialize] *)

Definition section_bytes (sec_type : SectionType) (entry_count : Z) (data : bytes) : bytes :=
  [SectionType_as_u8 sec_type] ++ to_le_bytes 4 (as_u32 entry_count)
  ++ to_le_bytes 4 (as_u32 (len data)) ++ data.

Definition write_section (s : SectionType * bytes) : run bytes :=
  let '(sec_type, data) := s in
  entry_count ← entry_count_for sec_type data;
  Ret (section_bytes sec_type entry_count data).

Fixpoint write_sections (l : list (SectionType * bytes)) : run bytes :=
  match l with
  | [] => Ret []
  | s :: l => w ← write_section s; rest ← write_sections l; Ret (w ++ rest)
  end.

(** The non-empty sections in file order. *)
Definition sections_of (c : CompiledRuleSet) (domain_fst suffix_fst : bytes)
    : list (SectionType * bytes) :=
  List.filter (fun s => negb (len s.2 =? 0))
    [ (DomainFst, domain_fst);
      (DomainSuffixFst, suffix_fst);
      (DomainKeyword, encode_strings (domain_keywords c));
      (DomainRegex, encode_strings (domain_regexes c));
      (IpCidrV4, encode_ipv4_cidrs (ipv4_cidrs c));
      (IpCidrV6, encode_ipv6_cidrs (ipv6_cidrs c));
      (Port, encode_ports (ports c)) ].

Definition file_header (section_count : Z) : bytes :=
  MAGIC ++ [VERSION] ++ [0x00] ++ to_le_bytes 4 (as_u32 section_count) ++ [0; 0; 0; 0].

Definition CompiledRuleSet_serialize (c : CompiledRuleSet) : run (result bytes RuleSetError) :=
  match build_domain_fst (domains c) with
  | Err e => Ret (Err e)
  | Ok domain_fst =>
      match build_suffix_fst (domain_suffixes c) with
      | Err e => Ret (Err e)
      | Ok suffix_fst =>
          let sections := sections_of c domain_fst suffix_fst in
          body ← write_sections sections;
          Ret (Ok (file_header (len sections) ++ body))
      end
  end.
End WithLibs.

Example from_text_example :
  CompiledRuleSet_from_text (RX := ToyRegex)
    (lit "# c
domain: Example.COM
domain-suffix: .github.com
ip-cidr: 192.168.1.5/16
port: 8000-9000
") =
  Ok (mkCompiled [lit "example.com"] [lit "github.com"] [] [] [(0xC0A80000, 16)] [] [(8000, 9000)]).
Proof. vm_compute. reflexivity. Qed.

(** ** What [from_text] accepts *)

Lemma land_in_width w x m : in_width w m -> in_width w (Z.land x m).
Proof.
  unfold in_width. intros Hm. assert (Hw : 0 <= w) by (destruct (Z.lt_ge_cases w 0); [rewrite Z.pow_neg_r in Hm by done; lia|done]).
  rewrite <-(Z.mod_small m (2 ^ w)), <-Z.land_ones, Z.land_assoc, Z.land_ones by lia.
  apply Z.mod_pos_bound. lia.
Qed.

Lemma wshl_in_width w x k : 0 <= w -> in_width w (wshl w x k).
Proof. intros Hw. unfold in_width, wshl, wrap. apply Z.mod_pos_bound. lia. Qed.

Lemma mask_ipv4_bits addr p : in_width 32 (mask_ipv4 addr p).
Proof.
  unfold mask_ipv4. case_if; [unfold in_width; lia|]. by apply land_in_width, wshl_in_width.
Qed.

Lemma mask_ipv6_bits addr p : in_width 128 (mask_ipv6 addr p).
Proof.
  unfold mask_ipv6. case_if; [unfold in_width; lia|]. by apply land_in_width, wshl_in_width.
Qed.

Ltac ok_step :=
  match goal with
  | H : context [ok_or ?o _] |- _ => let E := fresh "E" in destruct o eqn:E; simpl in H; [|discriminate H]
  | H : Ok _ = Ok _ |- _ => injection H as H; subst
  | H : Err _ = Ok _ |- _ => discriminate H
  | x : (_ * _)%type |- _ => destruct x
  end.

Lemma parse_ipv4_cidr_ok s c : parse_ipv4_cidr s = Ok c -> in_width 32 c.1 /\ 0 <= c.2 <= 32.
Proof.
  unfold parse_ipv4_cidr. intros H. do 2 ok_step. do 2 ok_step. destruct (_ >? 32) eqn:G in H; ok_step.
  rewrite Z.gtb_ltb in G. apply Z.ltb_ge in G. cbn [fst snd].
  split; [apply mask_ipv4_bits|]. split; [|done]. by eapply parse_uint_bound.
Qed.

Lemma parse_ipv6_cidr_ok s c : parse_ipv6_cidr s = Ok c -> in_width 128 c.1 /\ 0 <= c.2 <= 128.
Proof.
  unfold parse_ipv6_cidr. intros H. do 2 ok_step. do 2 ok_step. destruct (_ >? 128) eqn:G in H; ok_step.
  rewrite Z.gtb_ltb in G. apply Z.ltb_ge in G. cbn [fst snd].
  split; [apply mask_ipv6_bits|]. split; [|done]. by eapply parse_uint_bound.
Qed.

Lemma parse_port_range_ok s r : parse_port_range s = Ok r -> 0 <= r.1 <= r.2 /\ r.2 < 2 ^ 16.
Proof.
  unfold parse_port_range. intros H. destruct (split_once 45 s) as [[a b]|].
  - do 2 ok_step. destruct (_ >? _) eqn:G in H; ok_step. rewrite Z.gtb_ltb in G. apply Z.ltb_ge in G.
    apply parse_uint_bound in E, E0. unfold u16_max in *. cbn [fst snd]. lia.
  - do 2 ok_step. apply parse_uint_bound in E. unfold u16_max in *. cbn [fst snd]. lia.
Qed.

(** Every entry of a compiled rule set is one the file format and the matcher can hold:
    domains and suffixes of at most 255 bytes in lower case, CIDRs masked and in
    range, ports in range and ordered. *)
Record compiled_ok (c : CompiledRuleSet) : Prop := {
  ok_domains : Forall (fun d => len d <= 255 /\ to_ascii_lowercase d = d) (domains c);
  ok_suffixes : Forall (fun d => len d <= 255 /\ to_ascii_lowercase d = d /\ trim_start_matches 46 d = d)
                  (domain_suffixes c);
  ok_keywords : Forall (fun k => to_ascii_lowercase k = k) (domain_keywords c);
  ok_v4 : Forall (fun x => in_width 32 x.1 /\ 0 <= x.2 <= 32) (ipv4_cidrs c);
  ok_v6 : Forall (fun x => in_width 128 x.1 /\ 0 <= x.2 <= 128) (ipv6_cidrs c);
  ok_ports : Forall (fun r => 0 <= r.1 <= r.2 /\ r.2 < 2 ^ 16) (ports c)
}.

Lemma len_to_ascii_lowercase s : len (to_ascii_lowercase s) = len s.
Proof. unfold len, to_ascii_lowercase. by rewrite length_map. Qed.

Lemma validate_domain_len_ok d line u : validate_domain_len d line = Ok u -> len d <= 255.
Proof. unfold validate_domain_len. rewrite Z.gtb_ltb. case_if; [done|]. intros _. by reflect_bools. Qed.

Section TextOk.
Context {RX : RegexLib}.

Lemma compile_rule_ok c line key v c' : compiled_ok c -> compile_rule c line key v = Ok c' -> compiled_ok c'.
Proof.
  intros [Hd Hs Hk H4 H6 Hp] E. unfold compile_rule in E.
  repeat (case_decide; [clear -Hd Hs Hk H4 H6 Hp E|]); [..|done].
  - destruct (validate_domain_len v line) eqn:V; [|done]. injection E as <-. apply validate_domain_len_ok in V.
    constructor; simpl; auto. apply Forall_app. split; [done|]. constructor; [|constructor].
    rewrite len_to_ascii_lowercase. split; [done|apply to_ascii_lowercase_idemp].
  - destruct (validate_domain_len _ line) eqn:V; [|done]. injection E as <-. apply validate_domain_len_ok in V.
    constructor; simpl; auto. apply Forall_app. split; [done|]. constructor; [|constructor].
    rewrite len_to_ascii_lowercase, to_ascii_lowercase_idemp, trim_start_matches_lower by (done || lia).
    by rewrite trim_start_matches_idemp.
  - injection E as <-. constructor; simpl; auto. apply Forall_app. split; [done|].
    constructor; [apply to_ascii_lowercase_idemp|constructor].
  - destruct (Regex_new v); [done|]. injection E as <-. by constructor.
  - destruct (parse_ipv4_cidr v) eqn:V; [|done]. injection E as <-. apply parse_ipv4_cidr_ok in V.
    constructor; simpl; auto. apply Forall_app. split; [done|]. by constructor.
  - destruct (parse_ipv6_cidr v) eqn:V; [|done]. injection E as <-. apply parse_ipv6_cidr_ok in V.
    constructor; simpl; auto. apply Forall_app. split; [done|]. by constructor.
  - destruct (parse_port_range v) eqn:V; [|done]. injection E as <-. apply parse_port_range_ok in V.
    constructor; simpl; auto. apply Forall_app. split; [done|]. by constructor.
Qed.

Lemma compile_lines_ok ls c c' : compiled_ok c -> fold_result compile_line ls c = Ok c' -> compiled_ok c'.
Proof.
  revert c. induction ls as [|l ls IH]; intros c Hc E; simpl in E; [by simplify_eq|].
  destruct (compile_line c l) as [c1|] eqn:E1; [|done]. simpl in E. eapply IH; [|exact E].
  unfold compile_line in E1. destruct (_ || _); [by simplify_eq|].
  destruct (split_once _ _); [|done]. eapply compile_rule_ok; [exact Hc|exact E1].
Qed.

Lemma from_text_compiled_ok src c : CompiledRuleSet_from_text src = Ok c -> compiled_ok c.
Proof. apply compile_lines_ok. by constructor. Qed.

(** C21. Text rule sets: whatever [from_text] accepts is normalised: domains and
    suffixes in lower case, without leading dots in suffixes, at most 255 bytes;
    CIDR addresses and prefixes and ordered port ranges within their widths. *)
Theorem from_text_ok (src : str) (c : CompiledRuleSet) :
  CompiledRuleSet_from_text src = Ok c -> compiled_ok c.
Proof. apply from_text_compiled_ok. Qed.
End TextOk.

Lemma from_text_ok_witness :
  compiled_ok (mkCompiled [lit "example.com"] [lit "github.com"] [] [] [(0xC0A80000, 16)] [] [(8000, 9000)]).
Proof. apply (from_text_ok (RX := ToyRegex) _ _ from_text_example). Defined.
