(* ===== verification/Loader.v ===== *)
(** * Loader: reading a rule-set file ([src/ruleset/loader.rs]).

    The reader is the rest of the input; [read_exact] takes a fixed number of
    bytes or fails.  Versions 1 (string lists) and 2 (FST sections) are read. *)

From S2P Require Import Prelude RustStr Extern Format Compiler.

Local Open Scope reflex_scope.

Record LoadedRuleSet : Type := mkLoaded {
  l_domains : list str;
  l_domain_suffixes : list str;
  l_domain_fst : bytes;
  l_domain_suffix_fst : bytes;
  l_domain_keywords : list str;
  l_domain_regexes : list str;
  l_ipv4_cidrs : list (Z * Z);
  l_ipv6_cidrs : list (Z * Z);
  l_ports : list (Z * Z)
}.

Definition LoadedRuleSet_default : LoadedRuleSet := mkLoaded [] [] [] [] [] [] [] [] [].

(** [r.read_exact(&mut [0; n])] *)
Definition read_exact (r : bytes) (n : Z) : option (bytes * bytes) :=
  if n <=? len r then Some (take (Z.to_nat n) r, drop (Z.to_nat n) r) else None.

(** ** Decoding helpers *)

(** The loop of [decode_strings]; every iteration consumes a byte, so
    [length data] fuel is enough. *)
Fixpoint decode_strings_loop (fuel : nat) (data : bytes) (i : Z) (acc : list str)
    : run (result (list str) RuleSetError) :=
  if i <? len data then
    match fuel with
    | O => Stuck
    | S fuel =>
        if i + 1 >? len data then Ret (Err (Truncated (i + 1) (len data)))
        else
          n ← idx data i;
          let i := i + 1 in
          if i + n >? len data then Ret (Err (Truncated (i + n) (len data)))
          else
            s ← slice data i (i + n);
            if utf8_valid s then decode_strings_loop fuel data (i + n) (acc ++ [s])
            else Ret (Err InvalidUtf8)
    end
  else Ret (Ok acc).

Definition decode_strings (data : bytes) (expected : Z) : run (result (list str) RuleSetError) :=
  decode_strings_loop (length data) data 0 [].

(** [data.chunks_exact(n)] *)
Fixpoint chunks_exact (fuel : nat) (n : nat) (data : bytes) : list bytes :=
  match fuel with
  | O => []
  | S fuel =>
      if (length data <? n)%nat then []
      else take n data :: chunks_exact fuel n (drop n data)
  end.

Definition chunks (n : Z) (data : bytes) : list bytes := chunks_exact (length data) (Z.to_nat n) data.

Definition decode_ipv4_cidr (c : bytes) : Z * Z := (from_be_bytes (take 4 c), nth 4 c 0).
Definition decode_ipv6_cidr (c : bytes) : Z * Z := (from_be_bytes (take 16 c), nth 16 c 0).
Definition decode_port (c : bytes) : Z * Z :=
  (from_le_bytes (take 2 c), from_le_bytes (take 2 (drop 2 c))).

Definition decode_ipv4_cidrs (data : bytes) (expected : Z) : result (list (Z * Z)) RuleSetError :=
  if negb (len data =? expected * IPV4_ENTRY_LEN)
  then Err (Truncated (expected * IPV4_ENTRY_LEN) (len data))
  else Ok (map decode_ipv4_cidr (chunks IPV4_ENTRY_LEN data)).

Definition decode_ipv6_cidrs (data : bytes) (expected : Z) : result (list (Z * Z)) RuleSetError :=
  if negb (len data =? expected * IPV6_ENTRY_LEN)
  then Err (Truncated (expected * IPV6_ENTRY_LEN) (len data))
  else Ok (map decode_ipv6_cidr (chunks IPV6_ENTRY_LEN data)).

Definition decode_ports (data : bytes) (expected : Z) : result (list (Z * Z)) RuleSetError :=
  if negb (len data =? expected * PORT_ENTRY_LEN)
  then Err (Truncated (expected * PORT_ENTRY_LEN) (len data))
  else Ok (map decode_port (chunks PORT_ENTRY_LEN data)).

(** ** [from_reader] *)

Definition set_section (out : LoadedRuleSet) (t : SectionType) (data : bytes) (entry_count : Z)
    : run (result LoadedRuleSet RuleSetError) :=
  let '(mkLoaded d ds f sf k r c4 c6 p) := out in
  match t with
  | Domain =>
      x ← decode_strings data entry_count;
      Ret (x ←! x; Ok (mkLoaded x ds f sf k r c4 c6 p))
  | DomainSuffix =>
      x ← decode_strings data entry_count;
      Ret (x ←! x; Ok (mkLoaded d x f sf k r c4 c6 p))
  | DomainFst => Ret (Ok (mkLoaded d ds data sf k r c4 c6 p))
  | DomainSuffixFst => Ret (Ok (mkLoaded d ds f data k r c4 c6 p))
  | DomainKeyword =>
      x ← decode_strings data entry_count;
      Ret (x ←! x; Ok (mkLoaded d ds f sf x r c4 c6 p))
  | DomainRegex =>
      x ← decode_strings data entry_count;
      Ret (x ←! x; Ok (mkLoaded d ds f sf k x c4 c6 p))
  | IpCidrV4 => Ret (x ←! decode_ipv4_cidrs data entry_count; Ok (mkLoaded d ds f sf k r x c6 p))
  | IpCidrV6 => Ret (x ←! decode_ipv6_cidrs data entry_count; Ok (mkLoaded d ds f sf k r c4 x p))
  | Port => Ret (x ←! decode_ports data entry_count; Ok (mkLoaded d ds f sf k r c4 c6 x))
  end.

(** [for _ in 0..section_count]; a section takes at least nine bytes, so with
    [length r + 1] fuel a longer count has already met the end of the input. *)
Fixpoint read_sections (fuel : nat) (section_count : Z) (r : bytes) (out : LoadedRuleSet)
    : run (result LoadedRuleSet RuleSetError) :=
  if section_count <=? 0 then Ret (Ok out)
  else
    match fuel with
    | O => Stuck
    | S fuel =>
        match read_exact r SECTION_HEADER_LEN with
        | None => Ret (Err Io)
        | Some (h, r) =>
            sec_type_byte ← idx h 0;
            ec ← slice h 1 5;
            bl ← slice h 5 9;
            let entry_count := from_le_bytes ec in
            let byte_len := from_le_bytes bl in
            match SectionType_try_from sec_type_byte with
            | Err v => Ret (Err (UnknownSection v))
            | Ok sec_type =>
                match read_exact r byte_len with
                | None => Ret (Err (Truncated byte_len 0))
                | Some (data, r) =>
                    res ← set_section out sec_type data entry_count;
                    match res with
                    | Err e => Ret (Err e)
                    | Ok out => read_sections fuel (section_count - 1) r out
                    end
                end
            end
        end
    end.

Definition LoadedRuleSet_from_reader (r : bytes) : run (result LoadedRuleSet RuleSetError) :=
  match read_exact r HEADER_LEN with
  | None => Ret (Err BadMagic)
  | Some (header, r) =>
      m ← slice header 0 4;
      if decide (m <> MAGIC) then Ret (Err BadMagic)
      else
        ver ← idx header 4;
        if negb (ver =? VERSION) && negb (ver =? VERSION_V1) then Ret (Err (UnsupportedVersion ver))
        else
          sc ← slice header 6 10;
          read_sections (S (length r)) (from_le_bytes sc) r LoadedRuleSet_default
  end.

Definition LoadedRuleSet_from_bytes (data : bytes) : run (result LoadedRuleSet RuleSetError) :=
  LoadedRuleSet_from_reader data.

(** ** Termination and panic freedom *)

Lemma decode_strings_loop_returns fuel data i acc :
  bytes_ok data -> 0 <= i -> len data - i <= Z.of_nat fuel -> returns (decode_strings_loop fuel data i acc).
Proof.
  intros Hd. revert i acc. induction fuel as [|fuel IH]; intros i acc Hi Hf; cbn [decode_strings_loop];
    (case_if; [|apply returns_ret]); reflect_bools; [lia|].
  case_if; [apply returns_ret|]. apply returns_bind; [apply idx_returns; lia|]. intros n Hn.
  pose proof (idx_byte _ _ _ Hd Hn) as Hb. unfold is_byte in Hb. cbv zeta.
  case_if; [apply returns_ret|]. reflect_bools. apply returns_bind; [apply slice_returns; lia|].
  intros s _. case_if; [|apply returns_ret]. apply IH; lia.
Qed.

Lemma decode_strings_returns data n : bytes_ok data -> returns (decode_strings data n).
Proof. intros Hd. apply decode_strings_loop_returns; [done|done|unfold len; lia]. Qed.

Lemma set_section_returns out t data n : bytes_ok data -> returns (set_section out t data n).
Proof.
  intros Hd. destruct out, t; cbn [set_section]; try apply returns_ret;
    (apply returns_bind; [by apply decode_strings_returns | intros; apply returns_ret]).
Qed.

Lemma read_exact_Some r n h r' : read_exact r n = Some (h, r') ->
  0 <= n -> r = h ++ r' /\ len h = n.
Proof.
  unfold read_exact. case_if; [|done]. intros [= <- <-] Hn. reflect_bools. rewrite take_drop.
  split; [done|]. unfold len in *. rewrite length_take. lia.
Qed.

Lemma slice_bytes_ok l i j s : bytes_ok l -> slice l i j = Ret s -> bytes_ok s.
Proof. intros Hl (_ & _ & ->)%slice_Ret_inv. by apply Forall_take, Forall_drop. Qed.

Lemma read_sections_returns fuel n r out :
  bytes_ok r -> (length r < fuel)%nat -> returns (read_sections fuel n r out).
Proof.
  revert n r out. induction fuel as [|fuel IH]; intros n r out Hr Hf; [lia|]. cbn [read_sections].
  case_if; [apply returns_ret|].
  destruct (read_exact r SECTION_HEADER_LEN) as [[h r1]|] eqn:E; [|apply returns_ret].
  apply read_exact_Some in E as [-> Hh]; [|done]. unfold SECTION_HEADER_LEN in Hh.
  apply bytes_ok_app in Hr as [Hhok Hr1].
  apply returns_bind; [apply idx_returns; lia|]. intros t _.
  apply returns_bind; [apply slice_returns; lia|]. intros ec _.
  apply returns_bind; [apply slice_returns; lia|]. intros bl Hbl. cbv zeta.
  destruct (SectionType_try_from t) as [ty|]; [|apply returns_ret].
  destruct (read_exact r1 (from_le_bytes bl)) as [[data r2]|] eqn:E2; [|apply returns_ret].
  apply read_exact_Some in E2 as [-> _]; [|apply from_le_bytes_bound; by apply (slice_bytes_ok h 5 9)].
  apply bytes_ok_app in Hr1 as [Hd Hr2].
  apply returns_bind; [by apply set_section_returns|]. intros [out'|e] _; [|apply returns_ret].
  apply IH; [done|]. rewrite !length_app in Hf. unfold len in Hh. lia.
Qed.

Lemma from_bytes_returns data : bytes_ok data -> returns (LoadedRuleSet_from_bytes data).
Proof.
  intros Hd. unfold LoadedRuleSet_from_bytes, LoadedRuleSet_from_reader.
  destruct (read_exact data HEADER_LEN) as [[h r]|] eqn:E; [|apply returns_ret].
  apply read_exact_Some in E as [-> Hh]; [|done]. unfold HEADER_LEN in Hh.
  apply bytes_ok_app in Hd as [_ Hr].
  apply returns_bind; [apply slice_returns; lia|]. intros m _.
  case_if; [apply returns_ret|]. apply returns_bind; [apply idx_returns; lia|]. intros v _.
  case_if; [apply returns_ret|]. apply returns_bind; [apply slice_returns; lia|]. intros sc _.
  apply read_sections_returns; [done|lia].
Qed.

(** Loading is total: reading any sequence of bytes as a rule-set file ends with a
    rule set or an error; it neither panics nor loops. *)
Theorem load_total (data : bytes) :
  bytes_ok data -> exists res, LoadedRuleSet_from_bytes data = Ret res.
Proof. apply from_bytes_returns. Qed.

Lemma load_total_witness :
  bytes_ok (lit "RRST" ++ [2; 0; 1; 0; 0; 0; 0; 0; 0; 0; 99]) /\
  exists res, LoadedRuleSet_from_bytes (lit "RRST" ++ [2; 0; 1; 0; 0; 0; 0; 0; 0; 0; 99]) = Ret res.
Proof.
  assert (H : bytes_ok (lit "RRST" ++ [2; 0; 1; 0; 0; 0; 0; 0; 0; 0; 99])) by (apply (bool_decide_eq_true_1 (bytes_ok _)); vm_compute; reflexivity).
  split; [done|]. exact (load_total _ H).
Defined.

(** ** Round trip with [CompiledRuleSet::serialize] *)

Definition strings_ok (l : list str) : Prop :=
  Forall (fun s => len s <= 255 /\ bytes_ok s /\ utf8_valid s = true) l.

Lemma encode_strings_ok l : strings_ok l -> bytes_ok (encode_strings l).
Proof.
  induction 1 as [|s l (Hl & Hs & _) _ IH]; [constructor|]. simpl. constructor.
  - unfold is_byte, as_u8, wrap. apply Z.mod_pos_bound. lia.
  - by apply bytes_ok_app.
Qed.

Lemma decode_encode_strings_loop post pre fuel :
  strings_ok post -> (length (encode_strings post) <= fuel)%nat ->
  decode_strings_loop fuel (encode_strings pre ++ encode_strings post) (len (encode_strings pre)) pre
  = Ret (Ok (pre ++ post)).
Proof.
  intros Hp. revert pre fuel. induction Hp as [|s post (Hl & Hs & Hu) Hp IH]; intros pre fuel Hf.
  - rewrite !app_nil_r. destruct fuel; cbn [decode_strings_loop]; by rewrite Z.ltb_irrefl.
  - cbn [encode_strings flat_map app length] in *. fold (encode_strings post) in *.
    set (p := encode_strings pre). pose proof (len_nonneg s). pose proof (len_nonneg p).
    pose proof (len_nonneg (encode_strings post)).
    rewrite length_app in Hf. destruct fuel as [|fuel]; [simpl in Hf; lia|]. cbn [decode_strings_loop].
    assert (as_u8 (len s) = len s) as Hn by (unfold as_u8, wrap; apply Z.mod_small; lia).
    assert (HL : len (p ++ (as_u8 (len s) :: s ++ encode_strings post)) = len p + 1 + len s + len (encode_strings post)) by len_solve.
    rewrite HL. replace (len p <? _) with true by bool_lia. replace (len p + 1 >? _) with false by (rewrite Z.gtb_ltb; bool_lia).
    rewrite idx_app_r, Z.sub_diag by lia. unfold idx. rewrite len_cons.
    replace ((0 <=? 0) && _) with true by (pose proof (len_nonneg (s ++ encode_strings post)); bool_lia).
    simpl (_ !! _). cbv iota. rewrite bind_Ret, Hn. cbv zeta.
    replace (len p + 1 + len s >? _) with false by (rewrite Z.gtb_ltb; bool_lia).
    assert (slice (p ++ len s :: s ++ encode_strings post) (len p + 1) (len p + 1 + len s) = Ret s) as ->.
    { change (len s :: s ++ encode_strings post) with ([len s] ++ s ++ encode_strings post).
      rewrite app_assoc. apply slice_app_mid; len_solve. }
    rewrite bind_Ret, Hu. specialize (IH (pre ++ [s]) fuel).
    replace (p ++ len s :: s ++ encode_strings post) with (encode_strings (pre ++ [s]) ++ encode_strings post).
    2: { unfold encode_strings at 1. rewrite flat_map_app. cbn [flat_map]. fold (encode_strings pre). fold p.
         rewrite Hn, app_nil_r, <-app_assoc. done. }
    replace (len p + 1 + len s) with (len (encode_strings (pre ++ [s]))).
    2: { unfold encode_strings at 1. rewrite flat_map_app. cbn [flat_map]. fold (encode_strings pre). fold p. len_solve. }
    rewrite IH by (simpl in Hf; lia). by rewrite <-app_assoc.
Qed.

Lemma decode_encode_strings l n : strings_ok l -> decode_strings (encode_strings l) n = Ret (Ok l).
Proof. intros Hl. apply (decode_encode_strings_loop l []); done. Qed.

Lemma chunks_flat_map {A} (g : A -> bytes) (n : nat) l fuel :
  (0 < n)%nat -> (forall a, length (g a) = n) -> (length l <= fuel)%nat ->
  chunks_exact fuel n (flat_map g l) = map g l.
Proof.
  intros Hn Hg. revert fuel. induction l as [|a l IH]; intros fuel Hf.
  - destruct fuel; [done|]. simpl. destruct n; [lia|done].
  - destruct fuel as [|fuel]; simpl in Hf; [lia|]. simpl. rewrite length_app, Hg.
    replace (n + length (flat_map g l) <? n)%nat with false by (symmetry; apply Nat.ltb_ge; lia).
    f_equal; [by rewrite take_app_le, <-(Hg a), firstn_all by (rewrite Hg; lia)|].
    rewrite drop_app_ge, Hg, Nat.sub_diag by (rewrite Hg; lia). apply IH. lia.
Qed.

Lemma length_flat_map {A} (g : A -> bytes) (n : nat) l :
  (forall a, length (g a) = n) -> length (flat_map g l) = (length l * n)%nat.
Proof. intros Hg. induction l as [|a l IH]; simpl; [done|]. by rewrite length_app, Hg, IH. Qed.

Lemma chunks_encode {A} (g : A -> bytes) (n : Z) l :
  0 < n -> (forall a, length (g a) = Z.to_nat n) -> chunks n (flat_map g l) = map g l.
Proof.
  intros Hn Hg. unfold chunks. apply chunks_flat_map; [lia|done|].
  rewrite (length_flat_map g (Z.to_nat n)) by done. nia.
Qed.

Lemma len_encode {A} (g : A -> bytes) (n : Z) l :
  0 < n -> (forall a, length (g a) = Z.to_nat n) -> len (flat_map g l) = len l * n.
Proof. intros Hn Hg. unfold len. rewrite (length_flat_map g (Z.to_nat n)) by done. lia. Qed.

(** Decoding what was encoded, for each fixed-size entry. *)
Lemma decode_encode_fixed {A} (g : A -> bytes) (h : bytes -> A) (n : Z) l :
  0 < n -> (forall a, length (g a) = Z.to_nat n) -> (forall a, a ∈ l -> h (g a) = a) ->
  map h (chunks n (flat_map g l)) = l.
Proof.
  intros Hn Hg Hh. rewrite chunks_encode, map_map by done.
  induction l as [|a l IH]; simpl; [done|]. rewrite Hh by (by left). f_equal. apply IH. intros b Hb. apply Hh. by right.
Qed.

Definition cidr_bytes_ok (w : Z) (l : list (Z * Z)) : Prop :=
  Forall (fun c => in_width w c.1 /\ is_byte c.2) l.

Definition ports_ok (l : list (Z * Z)) : Prop := Forall (fun p => in_width 16 p.1 /\ in_width 16 p.2) l.

Lemma decode_encode_ipv4 l : cidr_bytes_ok 32 l ->
  decode_ipv4_cidrs (encode_ipv4_cidrs l) (len l) = Ok l.
Proof.
  intros Hl. unfold decode_ipv4_cidrs, encode_ipv4_cidrs, IPV4_ENTRY_LEN.
  assert (Hg : forall c : Z * Z, length (to_be_bytes 4 c.1 ++ [c.2]) = Z.to_nat 5)
    by (intros; rewrite length_app, length_to_be_bytes; done).
  rewrite (len_encode _ 5), Z.eqb_refl by done. cbn [negb]. f_equal.
  apply decode_encode_fixed; [done|done|]. intros [a p] Hc. unfold cidr_bytes_ok in Hl. rewrite Forall_forall in Hl.
  destruct (Hl _ Hc) as [Ha _]. unfold decode_ipv4_cidr, in_width in *. cbn [fst snd] in *.
  rewrite take_app_le, take_ge by (by rewrite length_to_be_bytes).
  by rewrite from_to_be_bytes_id by done.
Qed.

Lemma decode_encode_ipv6 l : cidr_bytes_ok 128 l ->
  decode_ipv6_cidrs (encode_ipv6_cidrs l) (len l) = Ok l.
Proof.
  intros Hl. unfold decode_ipv6_cidrs, encode_ipv6_cidrs, IPV6_ENTRY_LEN.
  assert (Hg : forall c : Z * Z, length (to_be_bytes 16 c.1 ++ [c.2]) = Z.to_nat 17)
    by (intros; rewrite length_app, length_to_be_bytes; done).
  rewrite (len_encode _ 17), Z.eqb_refl by done. cbn [negb]. f_equal.
  apply decode_encode_fixed; [done|done|]. intros [a p] Hc. unfold cidr_bytes_ok in Hl. rewrite Forall_forall in Hl.
  destruct (Hl _ Hc) as [Ha _]. unfold decode_ipv6_cidr, in_width in *. cbn [fst snd] in *.
  rewrite take_app_le, take_ge by (by rewrite length_to_be_bytes).
  by rewrite from_to_be_bytes_id by done.
Qed.

Lemma decode_encode_ports l : ports_ok l -> decode_ports (encode_ports l) (len l) = Ok l.
Proof.
  intros Hl. unfold decode_ports, encode_ports, PORT_ENTRY_LEN.
  assert (Hg : forall c : Z * Z, length (to_le_bytes 2 c.1 ++ to_le_bytes 2 c.2) = Z.to_nat 4)
    by (intros; rewrite length_app, !length_to_le_bytes; done).
  rewrite (len_encode _ 4), Z.eqb_refl by done. cbn [negb]. f_equal.
  apply decode_encode_fixed; [done|done|]. intros [a b] Hc. unfold ports_ok in Hl. rewrite Forall_forall in Hl.
  destruct (Hl _ Hc) as [Ha Hb]. unfold decode_port, in_width in *. cbn [fst snd] in *.
  rewrite take_app_le, take_ge, from_to_le_bytes_id by (done || by rewrite length_to_le_bytes).
  rewrite drop_app_ge, length_to_le_bytes by (by rewrite length_to_le_bytes). rewrite Nat.sub_diag, drop_0.
  by rewrite take_ge, from_to_le_bytes_id by (done || by rewrite length_to_le_bytes).
Qed.

(** Writing a section and reading it back. *)

Lemma count_strings_returns fuel data i c :
  bytes_ok data -> 0 <= i -> len data - i <= Z.of_nat fuel -> returns (count_strings fuel data i c).
Proof.
  intros Hd. revert i c. induction fuel as [|fuel IH]; intros i c Hi Hf; cbn [count_strings];
    (case_if; [|apply returns_ret]); reflect_bools; [lia|].
  apply returns_bind; [apply idx_returns; lia|]. intros n Hn.
  pose proof (idx_byte _ _ _ Hd Hn) as Hb. unfold is_byte in Hb. apply IH; lia.
Qed.

Lemma entry_count_returns t data : bytes_ok data -> returns (entry_count_for t data).
Proof.
  intros Hd. destruct t; cbn [entry_count_for]; try apply returns_ret;
    (apply count_strings_returns; [done|done|unfold len; lia]).
Qed.

(** What reading back a written section does. *)
Definition load_section (out : LoadedRuleSet) (s : SectionType * bytes)
    : run (result LoadedRuleSet RuleSetError) :=
  n ← entry_count_for s.1 s.2; set_section out s.1 s.2 (as_u32 n).

Fixpoint load_list (out : LoadedRuleSet) (l : list (SectionType * bytes))
    : run (result LoadedRuleSet RuleSetError) :=
  match l with
  | [] => Ret (Ok out)
  | s :: l =>
      res ← load_section out s;
      match res with Ok out => load_list out l | Err e => Ret (Err e) end
  end.

Definition section_ok (s : SectionType * bytes) : Prop := bytes_ok s.2 /\ len s.2 < 2 ^ 32.

Lemma read_exact_app h r n : n = len h -> read_exact (h ++ r) n = Some (h, r).
Proof.
  intros ->. unfold read_exact. rewrite len_app. pose proof (len_nonneg r).
  replace (len h <=? len h + len r) with true by bool_lia.
  replace (Z.to_nat (len h)) with (length h) by (unfold len; lia).
  by rewrite take_app_length, drop_app_length.
Qed.

Lemma as_u32_wrap z : as_u32 (as_u32 z) = as_u32 z.
Proof. unfold as_u32, wrap. by rewrite Z.mod_mod. Qed.

Lemma as_u32_bound z : 0 <= as_u32 z < 256 ^ Z.of_nat 4.
Proof. unfold as_u32, wrap. change (256 ^ Z.of_nat 4) with (2 ^ 32). apply Z.mod_pos_bound. lia. Qed.

Lemma read_written_section t data n rest fuel count out :
  section_ok (t, data) -> 0 < count -> entry_count_for t data = Ret n ->
  read_sections (S fuel) count
    (section_bytes t n data ++ rest) out
  = (res ← set_section out t data (as_u32 n);
     match res with
     | Err e => Ret (Err e)
     | Ok out => read_sections fuel (count - 1) rest out
     end).
Proof.
  intros [Hd Hlen] Hc _. cbn [snd] in *. cbn [read_sections]. replace (count <=? 0) with false by bool_lia.
  set (h := [SectionType_as_u8 t] ++ to_le_bytes 4 (as_u32 n) ++ to_le_bytes 4 (as_u32 (len data))).
  replace (section_bytes t n data ++ rest) with (h ++ data ++ rest)
    by (unfold h, section_bytes; by rewrite <-!app_assoc).
  assert (Hh : len h = 9) by (unfold h; len_solve).
  rewrite read_exact_app by (by rewrite Hh). cbv zeta.
  assert (idx h 0 = Ret (SectionType_as_u8 t)) as -> by done. rewrite bind_Ret.
  assert (slice h 1 5 = Ret (to_le_bytes 4 (as_u32 n))) as ->
    by (unfold h; apply slice_app_mid; len_solve). rewrite bind_Ret.
  assert (slice h 5 9 = Ret (to_le_bytes 4 (as_u32 (len data)))) as ->.
  { unfold h. rewrite app_assoc, <-(app_nil_r (to_le_bytes 4 (as_u32 (len data)))).
    apply slice_app_mid; len_solve. }
  rewrite bind_Ret, SectionType_try_from_as_u8.
  rewrite !from_to_le_bytes_id by apply as_u32_bound.
  assert (as_u32 (len data) = len data) as ->.
  { unfold as_u32, wrap. apply Z.mod_small. pose proof (len_nonneg data). lia. }
  by rewrite read_exact_app.
Qed.

Lemma read_write_sections l body fuel out :
  Forall section_ok l -> write_sections l = Ret body -> (length l < fuel)%nat ->
  read_sections fuel (len l) body out = load_list out l.
Proof.
  intros Hl. revert body fuel out. induction Hl as [|[t data] l Hs Hl IH]; intros body fuel out Hw Hf;
    (destruct fuel as [|fuel]; [simpl in Hf; lia|]).
  - simpl in Hw. simplify_eq. done.
  - cbn [write_sections] in Hw. apply bind_Ret_inv in Hw as (w & Hw1 & Hw).
    apply bind_Ret_inv in Hw as (rest & Hw2 & [= <-]).
    unfold write_section in Hw1. apply bind_Ret_inv in Hw1 as (n & Hn & [= <-]).
    rewrite (read_written_section _ _ n) by (done || (pose proof (len_nonneg l); len_solve)).
    cbn [load_list]. unfold load_section. cbn [fst snd]. rewrite Hn, bind_Ret.
    destruct (set_section out t data (as_u32 n)) as [[out'|e]| |]; simpl; try done.
    rewrite len_cons. replace (1 + len l - 1) with (len l) by lia. apply IH; [done|simpl in Hf; lia].
Qed.

Lemma write_sections_returns l : Forall section_ok l -> returns (write_sections l).
Proof.
  induction 1 as [|[t data] l [Hd _] _ IH]; [apply returns_ret|]. cbn [write_sections].
  apply returns_bind; [apply returns_bind; [by apply entry_count_returns|intros; apply returns_ret]|].
  intros w _. apply returns_bind; [done|]. intros; apply returns_ret.
Qed.

(** The sections of a compiled rule set, one after the other. *)

Definition nonempty_section (s : SectionType * bytes) : bool := negb (len s.2 =? 0).

Lemma load_list_skip out s l :
  load_list out (List.filter nonempty_section (s :: l)) =
  if len s.2 =? 0 then load_list out (List.filter nonempty_section l)
  else res ← load_section out s;
       match res with Ok out => load_list out (List.filter nonempty_section l) | Err e => Ret (Err e) end.
Proof. cbn [List.filter]. unfold nonempty_section at 1. by destruct (len s.2 =? 0). Qed.

Lemma len_zero {A} (l : list A) : len l = 0 -> l = [].
Proof. destruct l; [done|]. rewrite len_cons. pose proof (len_nonneg l). lia. Qed.

Lemma encode_strings_empty l : len (encode_strings l) = 0 -> l = [].
Proof. intros E%len_zero. by destruct l. Qed.

Lemma encode_fixed_empty {A} (g : A -> bytes) n l :
  0 < n -> (forall a, length (g a) = Z.to_nat n) -> len (flat_map g l) = 0 -> l = [].
Proof. intros Hn Hg. rewrite (len_encode g n) by done. intros E. apply len_zero. pose proof (len_nonneg l). nia. Qed.

(** One section of the list: an absent section leaves its field alone. *)
Lemma load_step out out' t data l :
  (len data = 0 -> out = out') ->
  (len data <> 0 -> load_section out (t, data) = Ret (Ok out')) ->
  load_list out (List.filter nonempty_section ((t, data) :: l)) =
  load_list out' (List.filter nonempty_section l).
Proof.
  intros H0 H1. rewrite load_list_skip. cbn [fst snd].
  destruct (Z.eqb_spec (len data) 0) as [E|E]; [by rewrite H0|]. by rewrite H1.
Qed.

Lemma load_strings_section out t ks ks' :
  strings_ok ks ->
  (forall n, set_section out t (encode_strings ks) n =
             (x ← decode_strings (encode_strings ks) n; Ret (x ←! x; Ok (ks' x)))) ->
  load_section out (t, encode_strings ks) = Ret (Ok (ks' ks)).
Proof.
  intros Hk Hs. unfold load_section. cbn [fst snd].
  destruct (entry_count_returns t (encode_strings ks) (encode_strings_ok ks Hk)) as [n ->].
  by rewrite bind_Ret, Hs, decode_encode_strings.
Qed.

Lemma entry_count_fixed {A} (g : A -> bytes) n l :
  0 < n -> (forall a, length (g a) = Z.to_nat n) -> len (flat_map g l) < 2 ^ 32 ->
  as_u32 (len (flat_map g l) / n) = len l.
Proof.
  intros Hn Hg. rewrite (len_encode g n) by done. intros Hl. rewrite Z.div_mul by lia.
  unfold as_u32, wrap. apply Z.mod_small. pose proof (len_nonneg l). nia.
Qed.

Section RoundTrip.
Context {FST : FstLib}.

(** What a file can hold: strings of at most 255 bytes of valid UTF-8, addresses
    and ports at their widths, and section lengths that fit a [u32]. *)
Definition serializable (c : CompiledRuleSet) (f sf : bytes) : Prop :=
  build_domain_fst (domains c) = Ok f /\ build_suffix_fst (domain_suffixes c) = Ok sf /\
  strings_ok (domain_keywords c) /\ strings_ok (domain_regexes c) /\
  cidr_bytes_ok 32 (ipv4_cidrs c) /\ cidr_bytes_ok 128 (ipv6_cidrs c) /\ ports_ok (ports c) /\
  Forall section_ok (sections_of c f sf).

Lemma sections_ok c f sf : Forall section_ok (sections_of c f sf) ->
  forall t data, (t, data) ∈ [ (DomainFst, f); (DomainSuffixFst, sf);
      (DomainKeyword, encode_strings (domain_keywords c)); (DomainRegex, encode_strings (domain_regexes c));
      (IpCidrV4, encode_ipv4_cidrs (ipv4_cidrs c)); (IpCidrV6, encode_ipv6_cidrs (ipv6_cidrs c));
      (Port, encode_ports (ports c)) ] -> len data < 2 ^ 32.
Proof.
  intros Hs t data Hin. destruct (Z.eq_dec (len data) 0) as [->|Hne]; [done|].
  rewrite Forall_forall in Hs. destruct (Hs (t, data)) as [_ H]; [|done].
  apply list_elem_of_In, filter_In. split; [by apply list_elem_of_In|].
  cbn [snd]. by apply negb_true_iff, Z.eqb_neq.
Qed.

Lemma load_sections_of c f sf : serializable c f sf ->
  load_list LoadedRuleSet_default (sections_of c f sf) =
  Ret (Ok (mkLoaded [] [] f sf (domain_keywords c) (domain_regexes c) (ipv4_cidrs c) (ipv6_cidrs c) (ports c))).
Proof.
  intros (_ & _ & Hk & Hr & H4 & H6 & Hp & Hs). pose proof (sections_ok c f sf Hs) as Hlen.
  assert (Hfst : forall out t data, section_ok (t, data) -> forall r,
    (forall n, set_section out t data n = Ret (Ok r)) -> load_section out (t, data) = Ret (Ok r)).
  { intros out t data [Hd _] r Hr'. unfold load_section. cbn [fst snd] in *.
    destruct (entry_count_returns t data Hd) as [n ->]. by rewrite bind_Ret, Hr'. }
  assert (Hsec : forall t data, len data <> 0 -> (t, data) ∈ [(DomainFst, f); (DomainSuffixFst, sf)] -> section_ok (t, data)).
  { intros t data Hne Hin. rewrite Forall_forall in Hs. apply Hs, list_elem_of_In, filter_In. split.
    - apply list_elem_of_In. rewrite !elem_of_cons in *. naive_solver.
    - cbn [snd]. by apply negb_true_iff, Z.eqb_neq. }
  unfold sections_of, LoadedRuleSet_default. change (fun s => negb (len s.2 =? 0)) with nonempty_section.
  rewrite (load_step _ (mkLoaded [] [] f [] [] [] [] [] []));
    [|intros ->%len_zero; done|intros Hne; apply Hfst; [apply Hsec; [done|by left]|done]].
  rewrite (load_step _ (mkLoaded [] [] f sf [] [] [] [] []));
    [|intros ->%len_zero; done|intros Hne; apply Hfst; [apply Hsec; [done|right; by left]|done]].
  rewrite (load_step _ (mkLoaded [] [] f sf (domain_keywords c) [] [] [] []));
    [|intros ->%encode_strings_empty; done
     |intros _; by apply (load_strings_section _ _ _ (fun x => mkLoaded [] [] f sf x [] [] [] []))].
  rewrite (load_step _ (mkLoaded [] [] f sf (domain_keywords c) (domain_regexes c) [] [] []));
    [|intros ->%encode_strings_empty; done
     |intros _; by apply (load_strings_section _ _ _ (fun x => mkLoaded [] [] f sf (domain_keywords c) x [] [] []))].
  assert (L4 : len (encode_ipv4_cidrs (ipv4_cidrs c)) < 2 ^ 32) by (apply (Hlen IpCidrV4); do 4 right; by left).
  assert (L6 : len (encode_ipv6_cidrs (ipv6_cidrs c)) < 2 ^ 32) by (apply (Hlen IpCidrV6); do 5 right; by left).
  assert (Lp : len (encode_ports (ports c)) < 2 ^ 32) by (apply (Hlen Port); do 6 right; by left).
  assert (G4 : forall x : Z * Z, length (to_be_bytes 4 x.1 ++ [x.2]) = Z.to_nat 5)
    by (intros; by rewrite length_app, length_to_be_bytes).
  assert (G6 : forall x : Z * Z, length (to_be_bytes 16 x.1 ++ [x.2]) = Z.to_nat 17)
    by (intros; by rewrite length_app, length_to_be_bytes).
  assert (Gp : forall x : Z * Z, length (to_le_bytes 2 x.1 ++ to_le_bytes 2 x.2) = Z.to_nat 4)
    by (intros; by rewrite length_app, !length_to_le_bytes).
  rewrite (load_step _ (mkLoaded [] [] f sf (domain_keywords c) (domain_regexes c) (ipv4_cidrs c) [] []));
    [|intros ->%(encode_fixed_empty _ 5); done|].
  2: { intros _. unfold load_section. cbn [fst snd entry_count_for]. rewrite bind_Ret. unfold IPV4_ENTRY_LEN, encode_ipv4_cidrs.
       rewrite (entry_count_fixed _ 5) by done.
       cbn [set_section]. fold (encode_ipv4_cidrs (ipv4_cidrs c)). by rewrite decode_encode_ipv4. }
  rewrite (load_step _ (mkLoaded [] [] f sf (domain_keywords c) (domain_regexes c) (ipv4_cidrs c) (ipv6_cidrs c) []));
    [|intros ->%(encode_fixed_empty _ 17); done|].
  2: { intros _. unfold load_section. cbn [fst snd entry_count_for]. rewrite bind_Ret. unfold IPV6_ENTRY_LEN, encode_ipv6_cidrs.
       rewrite (entry_count_fixed _ 17) by done.
       cbn [set_section]. fold (encode_ipv6_cidrs (ipv6_cidrs c)). by rewrite decode_encode_ipv6. }
  rewrite (load_step _ (mkLoaded [] [] f sf (domain_keywords c) (domain_regexes c) (ipv4_cidrs c) (ipv6_cidrs c) (ports c)));
    [done|intros ->%(encode_fixed_empty _ 4); done|].
  intros _. unfold load_section. cbn [fst snd entry_count_for]. rewrite bind_Ret. unfold PORT_ENTRY_LEN, encode_ports.
  rewrite (entry_count_fixed _ 4) by done.
  cbn [set_section]. fold (encode_ports (ports c)). by rewrite decode_encode_ports.
Qed.

Lemma load_file l body : Forall section_ok l -> len l < 2 ^ 32 -> write_sections l = Ret body ->
  LoadedRuleSet_from_bytes (file_header (len l) ++ body) = load_list LoadedRuleSet_default l.
Proof.
  intros Hl Hn Hw. unfold LoadedRuleSet_from_bytes, LoadedRuleSet_from_reader.
  assert (Hh : len (file_header (len l)) = 14) by reflexivity.
  rewrite read_exact_app by (by rewrite Hh).
  assert (slice (file_header (len l)) 0 4 = Ret MAGIC) as -> by (apply (slice_app_mid [] MAGIC); done).
  rewrite bind_Ret. rewrite decide_False by (intros H; by apply H).
  assert (idx (file_header (len l)) 4 = Ret VERSION) as -> by done. rewrite bind_Ret.
  cbn [negb andb VERSION VERSION_V1 Z.eqb Pos.eqb]. cbv iota.
  assert (slice (file_header (len l)) 6 10 = Ret (to_le_bytes 4 (as_u32 (len l)))) as ->.
  { unfold file_header. rewrite !app_assoc. rewrite <-app_assoc. apply slice_app_mid; done. }
  rewrite bind_Ret, from_to_le_bytes_id by apply as_u32_bound.
  assert (as_u32 (len l) = len l) as ->
    by (unfold as_u32, wrap; apply Z.mod_small; pose proof (len_nonneg l); lia).
  apply read_write_sections; [done|done|].
  clear -Hw. revert body Hw. induction l as [|[t d] l IH]; intros body Hw; [simpl; lia|].
  cbn [write_sections] in Hw. apply bind_Ret_inv in Hw as (w & Hw1 & Hw).
  apply bind_Ret_inv in Hw as (rest & Hw2 & [= <-]).
  apply bind_Ret_inv in Hw1 as (n & _ & [= <-]). specialize (IH rest Hw2). simpl. rewrite length_app. simpl. lia.
Qed.

Lemma serialize_load_ok c f sf : serializable c f sf ->
  exists buf, CompiledRuleSet_serialize c = Ret (Ok buf) /\
    LoadedRuleSet_from_bytes buf =
    Ret (Ok (mkLoaded [] [] f sf (domain_keywords c) (domain_regexes c) (ipv4_cidrs c) (ipv6_cidrs c) (ports c))).
Proof.
  intros Hc. pose proof Hc as (Hf & Hsf & _ & _ & _ & _ & _ & Hs).
  destruct (write_sections_returns _ Hs) as [body Hw].
  exists (file_header (len (sections_of c f sf)) ++ body). split.
  - unfold CompiledRuleSet_serialize. by rewrite Hf, Hsf, Hw.
  - rewrite <-(load_sections_of c f sf Hc). apply load_file; [done| |done].
    assert (length (sections_of c f sf) <= 7)%nat; [|unfold len; lia].
    unfold sections_of. etransitivity; [apply filter_length_le|done].
Qed.

(** Round trip of rule-set files: a compiled rule set whose entries fit the
    format's length fields is serialized without panic, and loading the bytes
    gives back its automata, keywords, patterns, CIDR blocks and ports. *)
Theorem serialize_load_roundtrip (c : CompiledRuleSet) (f sf : bytes) :
  serializable c f sf ->
  exists buf, CompiledRuleSet_serialize c = Ret (Ok buf) /\
    LoadedRuleSet_from_bytes buf =
    Ret (Ok (mkLoaded [] [] f sf (domain_keywords c) (domain_regexes c) (ipv4_cidrs c) (ipv6_cidrs c) (ports c))).
Proof. apply serialize_load_ok. Qed.
End RoundTrip.

#[export] Instance section_ok_dec s : Decision (section_ok s).
Proof. unfold section_ok. apply _. Defined.

Definition sample_rules : CompiledRuleSet :=
  mkCompiled [lit "example.com"] [lit "google.com"] [lit "ads"] [] [(0x0A000000, 8)] [] [(80, 80); (8000, 9000)].

Lemma sample_serializable : exists f sf, serializable (FST := ToyFst) sample_rules f sf.
Proof.
  exists (toy_encode [lit "com.example"]), (toy_encode [lit "com.google."]).
  split_and!; [vm_compute; reflexivity | vm_compute; reflexivity |..].
  1-5: repeat constructor; vm_compute; done.
  apply (bool_decide_eq_true_1 (Forall section_ok _)). vm_compute. reflexivity.
Qed.

Lemma serialize_load_roundtrip_witness :
  exists f sf, serializable (FST := ToyFst) sample_rules f sf /\
    exists buf, CompiledRuleSet_serialize (FST := ToyFst) sample_rules = Ret (Ok buf) /\
      LoadedRuleSet_from_bytes buf =
      Ret (Ok (mkLoaded [] [] f sf [lit "ads"] [] [(0x0A000000, 8)] [] [(80, 80); (8000, 9000)])).
Proof.
  destruct sample_serializable as (f & sf & H). exists f, sf.
  split; [exact H|]. exact (serialize_load_roundtrip (FST := ToyFst) sample_rules _ _ H).
Defined.
