(* ===== verification/Matcher.v ===== *)
(** * Matcher: the matching engine of [src/ruleset/matcher.rs].

    [DomainMatcher] has the code's two backends: FST sets (files of version 2)
    and a hash set with a suffix trie (version 1).  [matches_suffix] is the
    stack-buffer loop: label ends in an array of 128, keys in a buffer of 260.
    [RuleSet_from_loaded] builds the indexes, [RuleSet_matches] queries them, and
    [RuleSet_from_text] is the whole pipeline text, binary, loaded, indexed. *)

From S2P Require Import Prelude RustStr Extern Trie IpMatch Format Compiler Loader.

Local Open Scope reflex_scope.

Inductive MatchTarget : Type :=
  | MDomain (d : str)
  | MIp (a : IpAddr)
  | MPort (p : Z).

Section Matcher.
Context {FST : FstLib} {RX : RegexLib}.

Inductive DomainMatcher : Type :=
  | Fst (exact suffix : option fst_set)
  | Legacy (dset : gset (list Z)) (suffix_trie : SuffixTrie).

Definition matches_exact (m : DomainMatcher) (fst_key domain : str) : bool :=
  match m with
  | Fst exact _ => match exact with Some s => Set_contains s fst_key | None => false end
  | Legacy dset _ => bool_decide (domain ∈ dset)
  end.

(** [while i > 0 && nlabels < 128]: the label ends found so far, [i] counting down. *)
Fixpoint collect_ends (i : nat) (dom : bytes) (ends : list Z) : run (list Z) :=
  match i with
  | O => Ret ends
  | S i =>
      if len ends <? 128 then
        b ← idx dom (Z.of_nat i);
        collect_ends i dom (if b =? 46 then ends ++ [Z.of_nat i] else ends)
      else Ret ends
  end.

Definition BUF_LEN : Z := 260.

(** [for k in 0..nlabels]: [ends] is [label_ends[k..nlabels]], [buf] is [buf[..buf_len]]. *)
Fixpoint suffix_loop (set : fst_set) (dom : bytes) (ends : list Z) (buf : bytes) : run bool :=
  match ends with
  | [] => Ret false
  | label_end :: rest =>
      let label_start := match rest with e :: _ => e + 1 | [] => 0 end in
      label ← slice dom label_start label_end;
      let avail := Z.max 0 (BUF_LEN - (len buf + 1)) in
      let copy_len := Z.min (len label) avail in
      if len buf + copy_len >? BUF_LEN then Panic
      else
        let buf := buf ++ take (Z.to_nat copy_len) label in
        let buf := if len buf <? BUF_LEN then buf ++ [46] else buf in
        if Set_contains set buf then Ret true else suffix_loop set dom rest buf
  end.

Definition matches_suffix (m : DomainMatcher) (domain : str) : run bool :=
  match m with
  | Fst _ None => Ret false
  | Fst _ (Some set) =>
      ends ← collect_ends (length domain) domain [len domain];
      suffix_loop set domain ends []
  | Legacy _ suffix_trie => SuffixTrie_matches suffix_trie domain
  end.

Record RuleSet : Type := mkRuleSet {
  domain_matcher : DomainMatcher;
  keywords : list str;
  regexes : option regex_set;
  ipv4_ranges : IpRanges;
  ipv6_ranges : IpRanges;
  port_bitset : option PortBitSet
}.

Definition load_fst (data : bytes) : result (option fst_set) RuleSetError :=
  if len data =? 0 then Ok None
  else s ←! map_err LoadedInvalidRegex (Set_new data); Ok (Some s).

Definition build_domain_matcher (l : LoadedRuleSet) : run (result DomainMatcher RuleSetError) :=
  if negb (len (l_domain_fst l) =? 0) || negb (len (l_domain_suffix_fst l) =? 0) then
    Ret (exact ←! load_fst (l_domain_fst l);
         suffix ←! load_fst (l_domain_suffix_fst l);
         Ok (Fst exact suffix))
  else
    trie ← insert_all SuffixTrie_new (l_domain_suffixes l);
    Ret (Ok (Legacy (list_to_set (l_domains l)) trie)).

Definition RuleSet_from_loaded (l : LoadedRuleSet) : run (result RuleSet RuleSetError) :=
  dm ← build_domain_matcher l;
  match dm with
  | Err e => Ret (Err e)
  | Ok dm =>
      let rx := match l_domain_regexes l with
                | [] => Ok None
                | ps => r ←! map_err LoadedInvalidRegex (RegexSet_new ps); Ok (Some r)
                end in
      match rx with
      | Err e => Ret (Err e)
      | Ok rx =>
          let r4 := IpRanges_build (map (fun c => ipv4_cidr_to_range c.1 c.2) (l_ipv4_cidrs l)) in
          let r6 := IpRanges_build (map (fun c => ipv6_cidr_to_range c.1 c.2) (l_ipv6_cidrs l)) in
          bs ← match l_ports l with
               | [] => Ret None
               | ps => b ← set_ranges PortBitSet_new ps; Ret (Some b)
               end;
          Ret (Ok (mkRuleSet dm (l_domain_keywords l) rx r4 r6 bs))
      end
  end.

Definition RuleSet_rule_count (rs : RuleSet) : Z :=
  let domain_count :=
    match domain_matcher rs with
    | Fst exact suffix => from_option Set_len 0 exact + from_option Set_len 0 suffix
    | Legacy dset trie => Z.of_nat (size dset) + SuffixTrie_len trie
    end in
  let port_count := match port_bitset rs with Some _ => 1 | None => 0 end in
  domain_count + len (keywords rs) + from_option RegexSet_len 0 (regexes rs)
  + IpRanges_len (ipv4_ranges rs) + IpRanges_len (ipv6_ranges rs) + port_count.

Definition match_domain (rs : RuleSet) (domain : str) : run bool :=
  let domain := trim_end_matches 46 domain in
  let d := if existsb is_ascii_uppercase domain then to_ascii_lowercase domain else domain in
  let fst_key := domain_to_fst_key d in
  if matches_exact (domain_matcher rs) fst_key d then Ret true
  else
    hit ← matches_suffix (domain_matcher rs) d;
    if hit : bool then Ret true
    else if existsb (fun kw => contains kw d) (keywords rs) then Ret true
    else match regexes rs with
         | Some r => Ret (RegexSet_is_match r d)
         | None => Ret false
         end.

Definition match_ipv4 (rs : RuleSet) (a : Z) : run bool :=
  if IpRanges_is_empty (ipv4_ranges rs) then Ret false else IpRanges_contains (ipv4_ranges rs) a.

Definition match_ipv6 (rs : RuleSet) (a : Z) : run bool :=
  if IpRanges_is_empty (ipv6_ranges rs) then Ret false else IpRanges_contains (ipv6_ranges rs) a.

Definition match_ip (rs : RuleSet) (a : IpAddr) : run bool :=
  match a with
  | V4 v4 => match_ipv4 rs v4
  | V6 v6 =>
      hit ← match to_ipv4_mapped v6 with
            | Some v4 => match_ipv4 rs v4
            | None => Ret false
            end;
      if hit : bool then Ret true else match_ipv6 rs v6
  end.

Definition match_port (rs : RuleSet) (port : Z) : run bool :=
  match port_bitset rs with
  | Some bs => PortBitSet_contains bs port
  | None => Ret false
  end.

Definition RuleSet_matches (rs : RuleSet) (target : MatchTarget) : run bool :=
  match target with
  | MDomain d => match_domain rs d
  | MIp a => match_ip rs a
  | MPort p => match_port rs p
  end.

Definition RuleSet_from_text (src : str) : run (result RuleSet RuleSetError) :=
  match CompiledRuleSet_from_text src with
  | Err e => Ret (Err e)
  | Ok compiled =>
      buf ← CompiledRuleSet_serialize compiled;
      match buf with
      | Err e => Ret (Err e)
      | Ok buf =>
          loaded ← LoadedRuleSet_from_bytes buf;
          match loaded with
          | Err e => Ret (Err e)
          | Ok loaded => RuleSet_from_loaded loaded
          end
      end
  end.
End Matcher.

Example pipeline_example :
  (rs ← RuleSet_from_text (FST := ToyFst) (RX := ToyRegex) (lit "domain-suffix: google.com
ip-cidr: 10.0.0.0/8
port: 443");
   match rs with
   | Ok rs =>
       a ← RuleSet_matches (FST := ToyFst) (RX := ToyRegex) rs (MDomain (lit "Maps.Google.com."));
       b ← RuleSet_matches (FST := ToyFst) (RX := ToyRegex) rs (MDomain (lit "notgoogle.com"));
       c ← RuleSet_matches (FST := ToyFst) (RX := ToyRegex) rs (MIp (V4 0x0A050505));
       d ← RuleSet_matches (FST := ToyFst) (RX := ToyRegex) rs (MPort 443);
       Ret [a; b; c; d]
   | Err _ => Ret []
   end) = Ret [true; false; true; true].
Proof. vm_compute. reflexivity. Qed.

(** ** FST keys and labels *)

(** Labels, each followed by a dot. *)
Definition dotted (ls : list str) : str := flat_map (fun l => l ++ [46]) ls.

Lemma dotted_app ls1 ls2 : dotted (ls1 ++ ls2) = dotted ls1 ++ dotted ls2.
Proof. apply flat_map_app. Qed.

Lemma join_dotted ls : ls <> [] -> join [46] ls ++ [46] = dotted ls.
Proof.
  induction ls as [|l ls IH]; intros Hne; [done|]. destruct ls as [|l' ls]; [simpl; by rewrite app_nil_r|].
  rewrite join_cons by done. change (dotted (l :: l' :: ls)) with ((l ++ [46]) ++ dotted (l' :: ls)).
  rewrite <-IH by done. by rewrite <-!app_assoc.
Qed.

Lemma suffix_key_dotted s : suffix_to_fst_key s = dotted (rsplit_on 46 s).
Proof. apply join_dotted, rsplit_on_nonempty. Qed.

Definition dotless (ls : list str) : Prop := Forall (fun l => 46 ∉ l) ls.

Lemma rsplit_dotless s : dotless (rsplit_on 46 s).
Proof. apply Forall_rev, split_on_pieces. Qed.

Lemma dotted_inj ls1 ls2 : dotless ls1 -> dotless ls2 -> dotted ls1 = dotted ls2 -> ls1 = ls2.
Proof.
  intros H1 H2 E. assert (H : forall ls, dotless ls -> split_on 46 (dotted ls) = ls ++ [[]]).
  { induction 1 as [|l ls Hl _ IH]; [done|].
    change (dotted (l :: ls)) with ((l ++ [46]) ++ dotted ls). rewrite <-app_assoc. simpl.
    by rewrite split_on_sep, split_on_none, IH. }
  apply (app_inj_2 ls1 ls2 [[]] [[]]); [done|]. by rewrite <-!H, E.
Qed.

Lemma domain_key_inj d1 d2 : domain_to_fst_key d1 = domain_to_fst_key d2 -> d1 = d2.
Proof.
  unfold domain_to_fst_key. intros E. apply (f_equal (split_on 46)) in E.
  assert (Hne : forall d, rev (split_on 46 d) <> []) by apply rsplit_on_nonempty.
  rewrite !split_on_join in E by (done || apply rsplit_dotless).
  apply (f_equal (@rev _)) in E. rewrite !rev_involutive in E. by apply split_on_inj in E.
Qed.

(** ** The suffix loop *)

(** The label ends of a domain given its labels from the right. *)
Fixpoint ends_of (ls : list str) : list Z :=
  match ls with
  | [] => []
  | l :: ls' => len (join [46] (rev ls)) :: ends_of ls'
  end.

Lemma join_rev_cons l l' ls :
  join [46] (rev (l :: l' :: ls)) = join [46] (rev (l' :: ls)) ++ 46 :: l.
Proof.
  change (rev (l :: l' :: ls)) with (rev (l' :: ls) ++ [l]). rewrite join_app; [done| |done].
  simpl. by destruct (rev ls).
Qed.

(** Positions of the dots, from the right, of the reversed string [r]. *)
Fixpoint rdots (r : str) : list Z :=
  match r with
  | [] => []
  | b :: r => if b =? 46 then len r :: rdots r else rdots r
  end.

Lemma rdots_app l r : 46 ∉ l -> rdots (l ++ r) = rdots r.
Proof.
  induction l as [|b l IH]; intros Hl; simpl; [done|]. apply not_elem_of_cons in Hl as [Hb Hl].
  replace (b =? 46) with false by lia. by apply IH.
Qed.

Lemma rdots_labels ls : ls <> [] -> dotless ls ->
  len (join [46] (rev ls)) :: rdots (rev (join [46] (rev ls))) = ends_of ls.
Proof.
  induction ls as [|l ls IH]; intros Hne Hd; [done|]. inversion Hd; subst. cbn [ends_of]. f_equal.
  assert (Hrl : 46 ∉ rev l) by (intros H; apply list_elem_of_In in H; apply in_rev in H; by apply list_elem_of_In in H).
  destruct ls as [|l' ls].
  - simpl. rewrite <-(app_nil_r (rev l)). by rewrite rdots_app.
  - rewrite join_rev_cons, rev_app_distr. simpl (rev (46 :: l)). rewrite <-app_assoc, rdots_app by done.
    rewrite <-IH by done. simpl. f_equal. unfold len. by rewrite length_rev.
Qed.

Lemma collect_ends_spec r dom ends :
  take (length r) dom = rev r -> (length r <= length dom)%nat -> len ends + len (rdots r) <= 128 ->
  collect_ends (length r) dom ends = Ret (ends ++ rdots r).
Proof.
  revert ends. induction r as [|b r IH]; intros ends Ht Hl Hc; cbn [length collect_ends rdots].
  - by rewrite app_nil_r.
  - assert (Hb : idx dom (Z.of_nat (length r)) = Ret b).
    { destruct (idx_inrange dom (Z.of_nat (length r))) as (x & Hx & ->); [unfold len; simpl in Hl; lia|].
      f_equal. rewrite Nat2Z.id in Hx. assert (take (S (length r)) dom !! length r = Some x) as Hx'
        by (rewrite lookup_take_lt by lia; done).
      simpl (length (b :: r)) in Ht. rewrite Ht in Hx'. simpl in Hx'.
      rewrite lookup_app_r in Hx' by (by rewrite length_rev). rewrite length_rev, Nat.sub_diag in Hx'. by injection Hx'. }
    assert (Ht' : take (length r) dom = rev r).
    { simpl (length (b :: r)) in Ht. apply (f_equal (take (length r))) in Ht.
      rewrite take_take, Nat.min_l in Ht by lia. rewrite Ht. simpl.
      by rewrite take_app_le, take_ge by (by rewrite length_rev). }
    simpl in Hl. pose proof (len_nonneg (rdots r)). destruct (len ends <? 128) eqn:E.
    + rewrite Hb, bind_Ret. case_if.
      * rewrite IH; [by rewrite <-app_assoc|done|lia|]. cbn [rdots] in Hc. rewrite Heqb0 in Hc. len_solve.
      * apply IH; [done|lia|]. cbn [rdots] in Hc. by rewrite Heqb0 in Hc.
    + reflect_bools. cbn [rdots] in Hc. destruct (b =? 46); len_solve.
      assert (rdots r = []) as -> by (apply len_zero; lia). by rewrite app_nil_r.
Qed.

Section Suffix.
Context {FST : FstLib}.

Lemma suffix_loop_spec (set : fst_set) ls pre tail :
  dotless ls -> len (dotted pre) + len (dotted ls) <= 260 ->
  exists b, suffix_loop set (join [46] (rev ls) ++ tail) (ends_of ls) (dotted pre) = Ret b /\
    (b = true <-> exists k, k <> [] /\ k `prefix_of` ls /\ Set_contains set (dotted (pre ++ k)) = true).
Proof.
  revert pre tail. induction ls as [|l ls IH]; intros pre tail Hd Hlen.
  - exists false. split; [done|]. split; [done|]. intros (k & Hk & Hp & _). by apply prefix_nil_inv in Hp.
  - inversion Hd; subst. change (dotted (l :: ls)) with ((l ++ [46]) ++ dotted ls) in Hlen.
    rewrite !len_app in Hlen. change (len [46]) with 1 in Hlen.
    pose proof (len_nonneg l). pose proof (len_nonneg (dotted ls)). pose proof (len_nonneg (dotted pre)).
    cbn [ends_of suffix_loop].
    assert (Hsl : exists pfx, join [46] (rev (l :: ls)) = pfx ++ l /\
      match ends_of ls with e :: _ => e + 1 | [] => 0 end = len pfx /\
      exists tail', join [46] (rev (l :: ls)) ++ tail = join [46] (rev ls) ++ tail').
    { destruct ls as [|l' ls].
      - exists []. split_and!; [done|done|]. by eexists.
      - exists (join [46] (rev (l' :: ls)) ++ [46]). rewrite join_rev_cons. split_and!.
        + by rewrite <-app_assoc.
        + cbn [ends_of]. len_solve.
        + rewrite <-app_assoc. by eexists. }
    destruct Hsl as (pfx & Hj & -> & tail' & Htl).
    assert (slice (join [46] (rev (l :: ls)) ++ tail) (len pfx) (len (join [46] (rev (l :: ls)))) = Ret l) as ->.
    { rewrite Hj, <-app_assoc. apply slice_app_mid; len_solve. }
    rewrite bind_Ret. unfold BUF_LEN.
    replace (Z.min (len l) (Z.max 0 (260 - (len (dotted pre) + 1)))) with (len l) by lia.
    replace (len (dotted pre) + len l >? 260) with false by (rewrite Z.gtb_ltb; bool_lia).
    rewrite take_ge by (unfold len; lia).
    replace (len (dotted pre ++ l) <? 260) with true by (rewrite len_app; bool_lia).
    replace ((dotted pre ++ l) ++ [46]) with (dotted (pre ++ [l])) by (rewrite dotted_app; simpl; by rewrite app_nil_r, app_assoc).
    destruct (Set_contains set (dotted (pre ++ [l]))) eqn:Hin.
    + exists true. split; [done|]. split; [|done]. intros _. exists [l]. split_and!; [done| |done].
      apply prefix_cons, prefix_nil.
    + rewrite Htl. destruct (IH (pre ++ [l]) tail') as (b & -> & Hb); [done|rewrite dotted_app; simpl; len_solve|].
      exists b. split; [done|]. rewrite Hb. split.
      * intros (k & Hk & Hp & Hs). exists (l :: k). split_and!; [done|by apply prefix_cons|]. by rewrite <-app_assoc in Hs.
      * intros (k & Hk & Hp & Hs). destruct k as [|l0 k]; [done|].
        pose proof (prefix_cons_inv_1 _ _ _ _ Hp) as ->. apply prefix_cons_inv_2 in Hp.
        exists k. split_and!; [|done|by rewrite <-app_assoc]. intros ->. congruence.
Qed.

(** Limits of the stack buffers: 259 bytes and 128 labels. *)
Definition suffix_query_ok (d : str) : Prop := len d <= 259 /\ len (split_on 46 d) <= 128.

Lemma len_ends_of ls : len (ends_of ls) = len ls.
Proof. induction ls as [|l ls IH]; [done|]. cbn [ends_of]. by rewrite !len_cons, IH. Qed.

Lemma matches_suffix_labels (exact : option fst_set) (set : fst_set) d : suffix_query_ok d ->
  exists b, matches_suffix (Fst exact (Some set)) d = Ret b /\
    (b = true <-> exists k, k <> [] /\ k `prefix_of` rsplit_on 46 d /\ Set_contains set (dotted k) = true).
Proof.
  intros [Hl Hn]. unfold matches_suffix. set (ls := rsplit_on 46 d).
  assert (Hd : d = join [46] (rev ls)) by (unfold ls, rsplit_on; by rewrite rev_involutive, join_split_on).
  assert (Hls : ls <> []) by apply rsplit_on_nonempty.
  assert (Hdl : dotless ls) by apply rsplit_dotless.
  assert (Hends : len d :: rdots (rev d) = ends_of ls) by (rewrite Hd; by apply rdots_labels).
  replace (length d) with (length (rev d)) by apply length_rev. rewrite collect_ends_spec.
  - rewrite bind_Ret. change ([len d] ++ rdots (rev d)) with (len d :: rdots (rev d)). rewrite Hends.
    destruct (suffix_loop_spec set ls [] []) as (b & E & Hb); [done| |].
    + rewrite <-(join_dotted ls Hls). change (len (dotted [])) with 0.
      assert (len (join [46] ls) = len d).
      { rewrite Hd. clear -Hls. induction ls as [|l ls IH]; [done|]. destruct ls as [|l' ls]; [done|].
        rewrite join_cons, join_rev_cons by done. specialize (IH ltac:(done)). len_solve. }
      len_solve.
    + rewrite app_nil_r, <-Hd in E. exists b. split; [done|]. rewrite Hb. by setoid_rewrite app_nil_l.
  - rewrite length_rev, take_ge by done. by rewrite rev_involutive.
  - by rewrite length_rev.
  - assert (len (len d :: rdots (rev d)) = len ls) as Hle by (rewrite Hends; apply len_ends_of).
    assert (len ls = len (split_on 46 d)) by (unfold len, ls, rsplit_on; by rewrite length_rev).
    rewrite len_cons in Hle. change (len [len d]) with 1. lia.
Qed.
End Suffix.

(** ** What a built rule set matches *)

Section Spec.
Context {FST : FstLib} {RX : RegexLib} {FL : FstLaws} {RL : RegexLaws}.

(** A domain matcher that stands for exact domains [ds] and suffixes [ss]. *)
Definition matcher_for (m : DomainMatcher) (ds ss : list str) : Prop :=
  forall d, suffix_query_ok d -> trim_end_matches 46 d = d ->
    (matches_exact m (domain_to_fst_key d) d = true <-> d ∈ ds) /\
    exists b, matches_suffix m d = Ret b /\ (b = true <-> exists s, s ∈ ss /\ domain_under s d).

(** The set a sequence of rules compiles to, absent when there is none. *)
Definition set_for (key : str -> str) (ds : list str) (f : bytes) (s : option fst_set) : Prop :=
  load_fst f = Ok s /\ (ds = [] <-> f = []) /\
  forall k, from_option (fun s => Set_contains s k) false s = true <-> exists d, d ∈ ds /\ k = key d.

Lemma set_for_nil key : set_for key [] [] None.
Proof. split_and!; [done|done|]. intros k. split; [done|]. intros (d & H & _). by apply elem_of_nil in H. Qed.

Lemma set_for_build key ds f : ds <> [] -> Forall (fun d => bytes_ok (key d)) ds ->
  map_err (ParseError 0) (fst_build (sort_dedup (map key ds))) = Ok f -> exists s, set_for key ds f s.
Proof.
  intros Hne Hb E.
  destruct (fst_build_ok (sort_dedup (map key ds))) as (buf & s & Eb & Hbuf & _ & Es & Hs).
  - apply Forall_forall. intros k Hk. apply elem_of_sort_dedup, list_elem_of_fmap in Hk as (d & -> & Hd).
    rewrite Forall_forall in Hb. by apply Hb.
  - apply sort_dedup_sorted.
  - rewrite Eb in E. injection E as <-. exists (Some s). split_and!.
    + unfold load_fst. destruct (Z.eqb_spec (len buf) 0) as [H%len_zero|_]; [done|]. by rewrite Es.
    + by split.
    + intros k. simpl. rewrite Hs, elem_of_sort_dedup. rewrite list_elem_of_fmap. naive_solver.
Qed.

Lemma join_bytes ws : Forall bytes_ok ws -> bytes_ok (join [46] ws).
Proof.
  induction 1 as [|w ws Hw Hws IH]; [constructor|]. destruct ws as [|w' ws]; [done|].
  rewrite join_cons by done. apply bytes_ok_app. split; [done|]. by constructor.
Qed.

Lemma split_on_bytes c s : bytes_ok s -> Forall bytes_ok (split_on c s).
Proof.
  induction 1 as [|b s Hb Hs IH]; simpl; [repeat constructor|].
  destruct (b =? c); [constructor; [constructor|done]|].
  pose proof (split_on_nonempty c s). destruct (split_on c s); [done|].
  inversion IH; subst. constructor; [by constructor|done].
Qed.

Lemma domain_key_bytes d : bytes_ok d -> bytes_ok (domain_to_fst_key d).
Proof. intros Hd. by apply join_bytes, Forall_rev, split_on_bytes. Qed.

Lemma suffix_key_bytes d : bytes_ok d -> bytes_ok (suffix_to_fst_key d).
Proof. intros Hd. apply bytes_ok_app. split; [by apply domain_key_bytes|]. by repeat constructor. Qed.

Lemma build_domain_fst_set ds f : Forall bytes_ok ds -> build_domain_fst ds = Ok f ->
  exists s, set_for domain_to_fst_key ds f s.
Proof.
  intros Hb E. destruct ds as [|d ds]; [injection E as <-; eexists; apply set_for_nil|].
  eapply set_for_build; [done| |exact E]. eapply Forall_impl; [exact Hb|]. apply domain_key_bytes.
Qed.

Lemma build_suffix_fst_set ds f : Forall bytes_ok ds -> build_suffix_fst ds = Ok f ->
  exists s, set_for suffix_to_fst_key ds f s.
Proof.
  intros Hb E. destruct ds as [|d ds]; [injection E as <-; eexists; apply set_for_nil|].
  eapply set_for_build; [done| |exact E]. eapply Forall_impl; [exact Hb|]. apply suffix_key_bytes.
Qed.

Lemma fst_matcher_for ds ss f sf es ssf :
  set_for domain_to_fst_key ds f es -> set_for suffix_to_fst_key ss sf ssf -> matcher_for (Fst es ssf) ds ss.
Proof.
  intros (_ & _ & He) (_ & _ & Hs) d Hq _. split.
  - cbn [matches_exact]. specialize (He (domain_to_fst_key d)). destruct es as [es|]; simpl in He; rewrite He;
      (split; [intros (d' & Hin & E%domain_key_inj); by subst|intros Hin; by exists d]).
  - destruct ssf as [set|].
    + destruct (matches_suffix_labels es set d Hq) as (b & -> & Hb). exists b. split; [done|]. rewrite Hb.
      setoid_rewrite domain_under_labels. split.
      * intros (k & Hk & Hp & Hc). apply Hs in Hc as (s & Hin & E). exists s. split; [done|].
        rewrite suffix_key_dotted in E. apply dotted_inj in E; [by subst| |apply rsplit_dotless].
        destruct Hp as [k' Hk']. pose proof (rsplit_dotless d) as Hd. rewrite Hk' in Hd. by apply Forall_app in Hd as [? _].
      * intros (s & Hin & Hp). exists (rsplit_on 46 s). split_and!; [apply rsplit_on_nonempty|done|].
        apply (Hs (dotted (rsplit_on 46 s))). exists s. split; [done|]. by rewrite suffix_key_dotted.
    + exists false. split; [done|]. split; [done|]. intros (s & Hin & _).
      assert (false = true) as ?; [|done]. apply (Hs (suffix_to_fst_key s)). by exists s.
Qed.

Lemma legacy_matcher_for ds ss : 1 + total_labels ss <= 2 ^ 32 ->
  Forall (fun s => trim_start_matches 46 s = s) ss ->
  exists t, insert_all SuffixTrie_new ss = Ret t /\ matcher_for (Legacy (list_to_set ds) t) ds ss.
Proof.
  intros Hl Hdot. destruct (trie_build_matches ss Hl) as (t & E & Hm). exists t. split; [done|].
  intros d _ Ht. split.
  - cbn [matches_exact]. rewrite bool_decide_eq_true. apply elem_of_list_to_set.
  - cbn [matches_suffix]. destruct (Hm d) as (b & -> & Hb). exists b. split; [done|]. rewrite Hb, Ht.
    rewrite Forall_forall in Hdot. split; intros (s & Hin & H); exists s; rewrite Hdot in *; done.
Qed.

(** The declarative meaning of a rule set: what its entries say of a target. *)
Definition domain_listed (c : CompiledRuleSet) (d : str) : Prop :=
  d ∈ domains c \/
  (exists s, s ∈ domain_suffixes c /\ domain_under s d) \/
  (exists kw, kw ∈ domain_keywords c /\ contains kw d = true) \/
  (exists p, p ∈ domain_regexes c /\ Regex_is_match p d = true).

Definition ipv4_listed (c : CompiledRuleSet) (a : Z) : Prop := exists x, x ∈ ipv4_cidrs c /\ in_cidr 32 a x.
Definition ipv6_listed (c : CompiledRuleSet) (a : Z) : Prop := exists x, x ∈ ipv6_cidrs c /\ in_cidr 128 a x.

Definition listed (c : CompiledRuleSet) (target : MatchTarget) : Prop :=
  match target with
  | MDomain d => domain_listed c (to_ascii_lowercase (trim_end_matches 46 d))
  | MIp (V4 a) => ipv4_listed c a
  | MIp (V6 a) => (exists v4, to_ipv4_mapped a = Some v4 /\ ipv4_listed c v4) \/ ipv6_listed c a
  | MPort p => exists s e, (s, e) ∈ ports c /\ s <= p <= e
  end.

(** Addresses and ports in their machine width, domains within the stack buffers. *)
Definition target_ok (target : MatchTarget) : Prop :=
  match target with
  | MDomain d => suffix_query_ok (to_ascii_lowercase (trim_end_matches 46 d))
  | MIp (V4 a) => in_width 32 a
  | MIp (V6 a) => in_width 128 a
  | MPort p => in_width 16 p
  end.

(** A rule set whose indexes were built from the entries of [c]. *)
Definition indexes (c : CompiledRuleSet) (rs : RuleSet) : Prop :=
  matcher_for (domain_matcher rs) (domains c) (domain_suffixes c) /\
  keywords rs = domain_keywords c /\
  (forall d, from_option (fun r => RegexSet_is_match r d) false (regexes rs) = true <->
     exists p, p ∈ domain_regexes c /\ Regex_is_match p d = true) /\
  ipv4_ranges rs = IpRanges_build (map (fun x => ipv4_cidr_to_range x.1 x.2) (ipv4_cidrs c)) /\
  ipv6_ranges rs = IpRanges_build (map (fun x => ipv6_cidr_to_range x.1 x.2) (ipv6_cidrs c)) /\
  match port_bitset rs with
  | None => ports c = []
  | Some bs => set_ranges PortBitSet_new (ports c) = Ret bs
  end.

Lemma lower_if_needed d :
  (if existsb is_ascii_uppercase d then to_ascii_lowercase d else d) = to_ascii_lowercase d.
Proof.
  destruct (existsb is_ascii_uppercase d) eqn:E; [done|]. symmetry. by apply to_ascii_lowercase_id.
Qed.

Lemma match_domain_spec c rs d : indexes c rs -> target_ok (MDomain d) ->
  exists b, match_domain rs d = Ret b /\ (b = true <-> listed c (MDomain d)).
Proof.
  intros (Hm & Hk & Hr & _) Hq. unfold match_domain. rewrite lower_if_needed.
  set (d' := to_ascii_lowercase (trim_end_matches 46 d)).
  assert (Ht : trim_end_matches 46 d' = d')
    by (unfold d'; rewrite trim_end_matches_lower by (done || lia); by rewrite trim_end_matches_idemp).
  cbn [target_ok] in Hq. cbn [listed]. fold d' in Hq |- *. unfold domain_listed.
  destruct (Hm d' Hq Ht) as [He (bs & Es & Hs)]. specialize (Hr d').
  setoid_rewrite <-He. setoid_rewrite <-Hs. setoid_rewrite <-Hr.
  destruct (matches_exact _ _ _); [exists true; naive_solver|].
  rewrite Es, bind_Ret. destruct bs; [exists true; naive_solver|].
  assert (Hkw : existsb (fun kw => contains kw d') (keywords rs) = true <->
    exists kw, kw ∈ domain_keywords c /\ contains kw d' = true).
  { rewrite Hk, existsb_exists. by setoid_rewrite <-list_elem_of_In. }
  setoid_rewrite <-Hkw. destruct (existsb _ _); [exists true; naive_solver|].
  destruct (regexes rs) as [r|]; simpl; eexists; (split; [done|]); naive_solver.
Qed.

Lemma match_ipv4_spec c rs a : compiled_ok c -> indexes c rs -> in_width 32 a ->
  exists b, match_ipv4 rs a = Ret b /\ (b = true <-> ipv4_listed c a).
Proof.
  intros Hc (_ & _ & _ & H4 & _) Ha. destruct (ipv4_index (ipv4_cidrs c) a (ok_v4 _ Hc) Ha) as (b & E & Hb).
  exists b. split; [|done]. unfold match_ipv4. rewrite H4.
  unfold IpRanges_contains in *. case_if; [|done]. by injection E as <-.
Qed.

Lemma match_ipv6_spec c rs a : compiled_ok c -> indexes c rs -> in_width 128 a ->
  exists b, match_ipv6 rs a = Ret b /\ (b = true <-> ipv6_listed c a).
Proof.
  intros Hc (_ & _ & _ & _ & H6 & _) Ha. destruct (ipv6_index (ipv6_cidrs c) a (ok_v6 _ Hc) Ha) as (b & E & Hb).
  exists b. split; [|done]. unfold match_ipv6. rewrite H6.
  unfold IpRanges_contains in *. case_if; [|done]. by injection E as <-.
Qed.

Lemma match_ip_spec c rs a : compiled_ok c -> indexes c rs -> target_ok (MIp a) ->
  exists b, match_ip rs a = Ret b /\ (b = true <-> listed c (MIp a)).
Proof.
  intros Hc Hi Ha. destruct a as [a|a]; cbn [match_ip listed target_ok] in *; [by apply match_ipv4_spec|].
  destruct (match_ipv6_spec c rs a Hc Hi Ha) as (b6 & E6 & Hb6).
  destruct (to_ipv4_mapped a) as [v4|] eqn:Em.
  - assert (in_width 32 v4) as H4.
    { unfold to_ipv4_mapped in Em. destruct (_ =? _); [|done]. simplify_eq. unfold in_width. apply Z.mod_pos_bound. lia. }
    destruct (match_ipv4_spec c rs v4 Hc Hi H4) as (b4 & -> & Hb4). rewrite bind_Ret.
    destruct b4; [exists true; naive_solver|]. exists b6. rewrite Hb6. naive_solver.
  - rewrite bind_Ret. exists b6. rewrite Hb6. naive_solver.
Qed.

Lemma match_port_spec c rs p : compiled_ok c -> indexes c rs -> in_width 16 p ->
  exists b, match_port rs p = Ret b /\ (b = true <-> listed c (MPort p)).
Proof.
  intros Hc (_ & _ & _ & _ & _ & Hp) Hw. unfold match_port. cbn [listed].
  destruct (port_bitset rs) as [bs|].
  - destruct (port_bitset_build (ports c)) as (bs' & E & Hq).
    { eapply Forall_impl; [apply (ok_ports _ Hc)|]. cbn beta. intros r Hr. unfold in_width. lia. }
    rewrite Hp in E. injection E as <-. rewrite Hq by done. eexists. split; [done|].
    rewrite existsb_exists. setoid_rewrite <-list_elem_of_In. split.
    + intros ([s e] & Hin & H). exists s, e. split; [done|]. simpl in H. lia.
    + intros (s & e & Hin & H). exists (s, e). split; [done|]. simpl. lia.
  - exists false. split; [done|]. rewrite Hp. split; [done|]. intros (s & e & H & _). by apply elem_of_nil in H.
Qed.

Lemma ruleset_matches c rs target : compiled_ok c -> indexes c rs -> target_ok target ->
  exists b, RuleSet_matches rs target = Ret b /\ (b = true <-> listed c target).
Proof.
  destruct target; cbn [RuleSet_matches]; eauto using match_domain_spec, match_ip_spec, match_port_spec.
Qed.

(** The regular expressions, if any, compile as a set. *)
Definition regexes_ok (ps : list str) : Prop := ps = [] \/ exists r, RegexSet_new ps = Ok r.

Lemma from_loaded_indexes c l dm :
  compiled_ok c -> build_domain_matcher l = Ret (Ok dm) ->
  matcher_for dm (domains c) (domain_suffixes c) -> regexes_ok (domain_regexes c) ->
  l_domain_keywords l = domain_keywords c -> l_domain_regexes l = domain_regexes c ->
  l_ipv4_cidrs l = ipv4_cidrs c -> l_ipv6_cidrs l = ipv6_cidrs c -> l_ports l = ports c ->
  exists rs, RuleSet_from_loaded l = Ret (Ok rs) /\ indexes c rs.
Proof.
  intros Hc Hdm Hm Hr Ek Er E4 E6 Ep. unfold RuleSet_from_loaded. rewrite Hdm, bind_Ret, Ek, Er, E4, E6, Ep.
  assert (Hrx : exists rx, match domain_regexes c with
      | [] => Ok None
      | ps => r ←! map_err LoadedInvalidRegex (RegexSet_new ps); Ok (Some r) end = Ok rx /\
      forall d, from_option (fun r => RegexSet_is_match r d) false rx = true <->
        exists p, p ∈ domain_regexes c /\ Regex_is_match p d = true).
  { destruct (domain_regexes c) as [|p ps].
    - exists None. split; [done|]. intros d. split; [done|]. intros (p & H & _). by apply elem_of_nil in H.
    - destruct Hr as [?|[r Hr]]; [done|]. rewrite Hr. exists (Some r). split; [done|]. intros d. by apply regex_set_is_match. }
  destruct Hrx as (rx & -> & Hrx).
  assert (Hbs : exists bs, match ports c with [] => Ret None | ps => b ← set_ranges PortBitSet_new ps; Ret (Some b) end
      = Ret bs /\ match bs with None => ports c = [] | Some b => set_ranges PortBitSet_new (ports c) = Ret b end).
  { destruct (ports c) as [|p ps] eqn:E; [by exists None|].
    destruct (port_bitset_build (ports c)) as (b & Hb & _).
    { eapply Forall_impl; [apply (ok_ports _ Hc)|]. cbn beta. intros x Hx. unfold in_width. lia. }
    rewrite E in Hb. exists (Some b). by rewrite Hb. }
  destruct Hbs as (bs & -> & Hbs). rewrite bind_Ret. eexists. split; [done|]. by split_and!.
Qed.

Lemma fst_loaded_indexes c f sf : compiled_ok c -> regexes_ok (domain_regexes c) ->
  Forall bytes_ok (domains c) -> Forall bytes_ok (domain_suffixes c) ->
  build_domain_fst (domains c) = Ok f -> build_suffix_fst (domain_suffixes c) = Ok sf ->
  exists rs, RuleSet_from_loaded (mkLoaded [] [] f sf (domain_keywords c) (domain_regexes c)
    (ipv4_cidrs c) (ipv6_cidrs c) (ports c)) = Ret (Ok rs) /\ indexes c rs.
Proof.
  intros Hc Hr Hbd Hbs Hf Hsf.
  destruct (build_domain_fst_set _ _ Hbd Hf) as [es Hes]. destruct (build_suffix_fst_set _ _ Hbs Hsf) as [ss Hss].
  pose proof (fst_matcher_for _ _ _ _ _ _ Hes Hss) as Hm. destruct Hes as (Le & He & _). destruct Hss as (Ls & Hs & _).
  destruct (decide (f = [] /\ sf = [])) as [[-> ->]|Hne].
  - destruct (legacy_matcher_for (domains c) (domain_suffixes c)) as (t & Ht & Hlm);
      rewrite (proj2 He), (proj2 Hs) in * by done; [done|constructor|].
    eapply from_loaded_indexes; [done| |rewrite (proj2 He), (proj2 Hs) by done; exact Hlm|done..].
    unfold build_domain_matcher. simpl in *. by injection Ht as <-.
  - eapply from_loaded_indexes; [done| |exact Hm|done..]. unfold build_domain_matcher. cbn.
    replace (negb (len f =? 0) || negb (len sf =? 0)) with true.
    + by rewrite Le, Ls.
    + symmetry. destruct (Z.eqb_spec (len f) 0) as [->%len_zero|]; [|done].
      destruct (Z.eqb_spec (len sf) 0) as [->%len_zero|]; [|done]. by destruct Hne.
Qed.

(** Rule-set pipeline: compiling a text, serializing, loading and indexing it,
    and asking for a domain, address or port never panics and answers yes exactly
    when an entry of the text covers the query. *)
Theorem ruleset_from_text_spec (src : str) (c : CompiledRuleSet) (f sf : bytes) (target : MatchTarget) :
  CompiledRuleSet_from_text src = Ok c -> serializable c f sf ->
  Forall bytes_ok (domains c) -> Forall bytes_ok (domain_suffixes c) -> regexes_ok (domain_regexes c) ->
  target_ok target ->
  exists rs b, RuleSet_from_text src = Ret (Ok rs) /\ RuleSet_matches rs target = Ret b /\
    (b = true <-> listed c target).
Proof.
  intros Hsrc Hser Hd Hs Hr Ht. pose proof (from_text_compiled_ok _ _ Hsrc) as Hc.
  destruct (serialize_load_ok _ _ _ Hser) as (buf & Eb & El). destruct Hser as (Hf & Hsf & _).
  destruct (fst_loaded_indexes c f sf Hc Hr Hd Hs Hf Hsf) as (rs & Ers & Hi).
  destruct (ruleset_matches c rs target Hc Hi Ht) as (b & Em & Hb). exists rs, b. split; [|done].
  unfold RuleSet_from_text. by rewrite Hsrc, Eb, bind_Ret, El, bind_Ret.
Qed.

End Spec.

(** ** Witnesses *)

Definition sample_text : str := lit "domain: example.com
domain-suffix: google.com
domain-keyword: ads
ip-cidr: 10.0.0.0/8
port: 80
port: 8000-9000".

Lemma sample_bytes : Forall bytes_ok [lit "example.com"] /\ Forall bytes_ok [lit "google.com"].
Proof. split; apply (bool_decide_eq_true_1 (Forall bytes_ok _)); vm_compute; reflexivity. Qed.

Lemma ruleset_from_text_spec_witness :
  exists rs b, RuleSet_from_text (FST := ToyFst) (RX := ToyRegex) sample_text = Ret (Ok rs) /\
    RuleSet_matches (FST := ToyFst) (RX := ToyRegex) rs (MDomain (lit "Mail.Google.com.")) = Ret b /\
    (b = true <-> listed (RX := ToyRegex) sample_rules (MDomain (lit "Mail.Google.com."))).
Proof.
  destruct sample_serializable as (f & sf & Hs).
  apply (ruleset_from_text_spec (FST := ToyFst) (RX := ToyRegex) (FL := ToyFst_laws) (RL := ToyRegex_laws)
           sample_text sample_rules f sf (MDomain (lit "Mail.Google.com."))).
  - vm_compute. reflexivity.
  - exact Hs.
  - apply sample_bytes.
  - apply sample_bytes.
  - by left.
  - split; vm_compute; done.
Defined.

Lemma sample_compiled_ok : compiled_ok sample_rules.
Proof. apply (from_text_compiled_ok (RX := ToyRegex) sample_text). vm_compute. reflexivity. Qed.


(** ** Keywords longer than a length byte *)

(** A keyword of 256 ASCII bytes: its length byte is written as 0. *)
Definition long_keyword : str := 97 :: repeat 97 97 ++ 97 :: repeat 97 97 ++ 59 :: repeat 59 59.

Lemma contains_nil d : contains [] d = true.
Proof. by destruct d. Qed.

(** Length byte of keywords: a keyword of 256 bytes is accepted, its length byte
    wraps to zero, and the rule set read back matches every domain. *)
Theorem long_keyword_matches_everything (FST : FstLib) (RX : RegexLib) :
  len long_keyword = 256 /\
  exists rs, RuleSet_from_text (lit "domain-keyword: " ++ long_keyword) = Ret (Ok rs) /\
    forall d, RuleSet_matches rs (MDomain d) = Ret true.
Proof.
  split; [reflexivity|]. eexists. split; [vm_compute; reflexivity|]. intros d.
  cbn [RuleSet_matches]. unfold match_domain. rewrite lower_if_needed.
  set (d' := to_ascii_lowercase (trim_end_matches 46 d)). cbn [domain_matcher keywords matches_suffix].
  destruct (matches_exact _ _ _); [done|].
  destruct (trie_build_matches []) as (t & [= <-] & Hm); [done|]. destruct (Hm d') as (b & Eb & _).
  etransitivity; [apply (f_equal (fun r => mbind _ r)); exact Eb|]. rewrite bind_Ret. destruct b; [done|].
  cbn [existsb]. by rewrite contains_nil.
Qed.
