(* ===== verification/MatchSafe.v ===== *)
(** * MatchSafe: no rule-set file and no query can make the matcher panic.

    [loaded_ok] is what loading guarantees of a file of less than 4 GiB,
    [ruleset_wf] what building the indexes guarantees of a [RuleSet]; every query
    on a well-formed rule set returns, whatever the domain. *)

From S2P Require Import Prelude RustStr Extern Trie IpMatch Format Compiler Loader Matcher.

Local Open Scope reflex_scope.

(** ** What loading guarantees *)

Definition loaded_ok (l : LoadedRuleSet) : Prop :=
  port_ranges_ok (l_ports l) /\ 1 + total_labels (l_domain_suffixes l) <= 2 ^ 32.

Lemma len_split_on c s : len (split_on c s) <= 1 + len s.
Proof.
  induction s as [|b s IH]; [done|]. simpl. case_if; [rewrite !len_cons; lia|].
  destruct (split_on c s) as [|w ws]; rewrite !len_cons in *; [change (len (@nil (list Z))) with 0|]; len_solve.
Qed.

Lemma len_trim_start c s : len (trim_start_matches c s) <= len s.
Proof. induction s as [|b s IH]; [done|]. simpl. case_if; rewrite ?len_cons in *; lia. Qed.

Lemma len_rule_path d : len (rule_path d) <= 1 + len d.
Proof.
  unfold rule_path, rsplit_on. pose proof (len_split_on 46 (trim_start_matches 46 d)).
  pose proof (len_trim_start 46 d). unfold len in *. rewrite length_rev. lia.
Qed.

Lemma total_labels_app ds1 ds2 : total_labels (ds1 ++ ds2) = total_labels ds1 + total_labels ds2.
Proof. induction ds1 as [|d ds1 IH]; simpl; [done|]. lia. Qed.

Lemma decode_strings_labels fuel data i acc ss : bytes_ok data -> 0 <= i -> total_labels acc <= i ->
  decode_strings_loop fuel data i acc = Ret (Ok ss) -> total_labels ss <= Z.max i (len data).
Proof.
  intros Hd. revert i acc. induction fuel as [|fuel IH]; intros i acc Hi Ha; cbn [decode_strings_loop];
    (case_if; [|intros [= <-]; lia]); [done|].
  case_if; [done|]. intros H. apply bind_Ret_inv in H as (n & Hn & H). cbv zeta in H.
  pose proof (idx_byte _ _ _ Hd Hn) as Hb. unfold is_byte in Hb.
  destruct (_ >? _) eqn:G in H; [done|]. reflect_bools.
  apply bind_Ret_inv in H as (s & Hs & H). apply slice_Ret_inv in Hs as (_ & _ & Hs).
  destruct (utf8_valid s); [|done].
  apply IH in H; [lia|lia|]. rewrite total_labels_app. simpl. pose proof (len_rule_path s).
  assert (len s <= n) by (subst s; unfold len; rewrite length_take; lia). lia.
Qed.

Lemma from_le_bytes_width n l : bytes_ok l -> (length l <= n)%nat -> 0 <= from_le_bytes l < 256 ^ Z.of_nat n.
Proof.
  intros Hl. revert n. induction Hl as [|b l Hb _ IH]; intros n Hn; simpl in *; [lia|].
  destruct n as [|n]; [lia|]. specialize (IH n ltac:(lia)). unfold is_byte in Hb.
  replace (256 ^ Z.of_nat (S n)) with (256 * 256 ^ Z.of_nat n) by (rewrite <-Z.pow_succ_r; [f_equal; lia|lia]). lia.
Qed.

Lemma chunks_exact_bytes fuel n data c : bytes_ok data -> c ∈ chunks_exact fuel n data -> bytes_ok c.
Proof.
  revert data. induction fuel as [|fuel IH]; intros data Hd; simpl; [by intros ?%elem_of_nil|].
  case_if; [by intros ?%elem_of_nil|]. intros [->|Hc]%elem_of_cons; [by apply Forall_take|].
  eapply IH; [|done]. by apply Forall_drop.
Qed.

Lemma decode_ports_ok data n ps : bytes_ok data -> decode_ports data n = Ok ps -> port_ranges_ok ps.
Proof.
  intros Hd. unfold decode_ports. case_if; [done|]. intros [= <-]. apply Forall_forall. intros p Hp.
  apply list_elem_of_fmap in Hp as (c & -> & Hc). apply chunks_exact_bytes in Hc; [|done].
  unfold decode_port, in_width. change (2 ^ 16) with (256 ^ Z.of_nat 2). cbn [fst snd].
  split; apply from_le_bytes_width; try (rewrite length_take; lia); by repeat first [apply Forall_take | apply Forall_drop].
Qed.

Lemma set_section_ok out t data n out' : bytes_ok data -> len data < 2 ^ 32 -> loaded_ok out ->
  set_section out t data n = Ret (Ok out') -> loaded_ok out'.
Proof.
  intros Hd Hlen [Hp Hl] E. destruct out as [d ds f sf k r c4 c6 p]. unfold loaded_ok in *. simpl in Hp, Hl.
  destruct t; cbn [set_section] in E;
    try (apply bind_Ret_inv in E as ([x|] & Ex & E); simpl in E; [|done]); simplify_eq; simpl; auto.
  - split; [done|]. apply decode_strings_labels in Ex; [|done|done|done]. pose proof (len_nonneg data). lia.
  - destruct (decode_ipv4_cidrs data n); simpl in *; simplify_eq; auto.
  - destruct (decode_ipv6_cidrs data n); simpl in *; simplify_eq; auto.
  - destruct (decode_ports data n) eqn:Ex; simpl in *; simplify_eq. split; [|done]. by eapply decode_ports_ok.
Qed.

Lemma read_sections_ok fuel n r out out' : bytes_ok r -> len r < 2 ^ 32 -> loaded_ok out ->
  read_sections fuel n r out = Ret (Ok out') -> loaded_ok out'.
Proof.
  revert n r out. induction fuel as [|fuel IH]; intros n r out Hr Hlen Ho; cbn [read_sections];
    (case_if; [by intros [= <-]|]); [done|].
  destruct (read_exact r SECTION_HEADER_LEN) as [[h r1]|] eqn:E; [|done].
  apply read_exact_Some in E as [-> Hh]; [|done]. apply bytes_ok_app in Hr as [Hhok Hr1]. rewrite len_app in Hlen.
  intros H. apply bind_Ret_inv in H as (t & _ & H). apply bind_Ret_inv in H as (ec & _ & H).
  apply bind_Ret_inv in H as (bl & Hbl & H). cbv zeta in H.
  destruct (SectionType_try_from t) as [ty|]; [|done].
  destruct (read_exact r1 (from_le_bytes bl)) as [[data r2]|] eqn:E2; [|done].
  apply read_exact_Some in E2 as [-> _]; [|apply from_le_bytes_bound; by apply (slice_bytes_ok h 5 9)].
  apply bytes_ok_app in Hr1 as [Hd Hr2]. rewrite len_app in Hlen.
  pose proof (len_nonneg h). pose proof (len_nonneg data). pose proof (len_nonneg r2).
  apply bind_Ret_inv in H as ([out1|] & E1 & H); [|done].
  eapply IH; [exact Hr2|lia| |exact H]. eapply set_section_ok; [exact Hd|lia|exact Ho|exact E1].
Qed.

Lemma from_bytes_ok data l : bytes_ok data -> len data < 2 ^ 32 ->
  LoadedRuleSet_from_bytes data = Ret (Ok l) -> loaded_ok l.
Proof.
  intros Hd Hlen. unfold LoadedRuleSet_from_bytes, LoadedRuleSet_from_reader.
  destruct (read_exact data HEADER_LEN) as [[h r]|] eqn:E; [|done].
  apply read_exact_Some in E as [-> Hh]; [|done]. apply bytes_ok_app in Hd as [_ Hr]. rewrite len_app in Hlen.
  pose proof (len_nonneg h) as Hn. intros H. apply bind_Ret_inv in H as (m & _ & H). case_decide as Hm; [done|].
  apply bind_Ret_inv in H as (v & _ & H). destruct (_ && _) in H; [done|].
  apply bind_Ret_inv in H as (sc & _ & H). eapply read_sections_ok; [exact Hr|lia| |exact H]. by split; [constructor|].
Qed.

(** ** The suffix loop returns on any domain *)

Definition descending (n : Z) (ends : list Z) : Prop :=
  StronglySorted (fun x y => y < x) ends /\ Forall (fun e => 0 <= e <= n) ends.

Lemma descending_snoc n ends i : descending n ends -> Forall (fun e => i < e) ends -> 0 <= i <= n ->
  descending n (ends ++ [i]).
Proof.
  intros [Hs Hf] Hlt Hi. split; [|apply Forall_app; split; [done|by constructor]].
  apply StronglySorted_app. split_and!; [|done|repeat constructor].
  intros x y Hx Hy. apply list_elem_of_singleton in Hy as ->. rewrite Forall_forall in Hlt. by apply Hlt.
Qed.

Lemma collect_ends_returns i dom ends : (i <= length dom)%nat ->
  descending (len dom) ends -> Forall (fun e => Z.of_nat i <= e) ends ->
  exists ends', collect_ends i dom ends = Ret ends' /\ descending (len dom) ends'.
Proof.
  revert ends. induction i as [|i IH]; intros ends Hi Hd Hf; cbn [collect_ends]; [by exists ends|].
  case_if; [|by exists ends]. destruct (idx_inrange dom (Z.of_nat i)) as (b & _ & ->); [unfold len; lia|].
  rewrite bind_Ret. assert (Hlt : Forall (fun e => Z.of_nat i < e) ends)
    by (eapply Forall_impl; [exact Hf|]; cbn beta; lia).
  case_if; apply IH; try lia; try done.
  - apply descending_snoc; [done..|unfold len; lia].
  - apply Forall_app. split; [eapply Forall_impl; [exact Hlt|]; cbn beta; lia|by constructor].
  - eapply Forall_impl; [exact Hlt|]. cbn beta. lia.
Qed.

Section Safe.
Context {FST : FstLib} {RX : RegexLib}.

Lemma suffix_loop_returns (set : fst_set) dom ends buf : descending (len dom) ends -> len buf <= BUF_LEN ->
  returns (suffix_loop set dom ends buf).
Proof.
  intros [Hs Hf]. revert buf. induction Hs as [|e ends Hs IH He]; intros buf Hb; [apply returns_ret|].
  inversion Hf as [|? ? [He0 Hen] Hf']; subst. cbn [suffix_loop]. apply returns_bind.
  - apply slice_returns; [|done]. destruct ends as [|e' ends]; [lia|]. inversion Hf'; inversion He; subst. lia.
  - intros label Hl. cbv zeta. unfold BUF_LEN in *. pose proof (len_nonneg label). pose proof (len_nonneg buf).
    case_if; [rewrite Z.gtb_ltb in Heqb; apply Z.ltb_lt in Heqb; lia|].
    rewrite Z.gtb_ltb in Heqb. apply Z.ltb_ge in Heqb.
    assert (len (take (Z.to_nat (Z.min (len label) (Z.max 0 (260 - (len buf + 1))))) label)
      <= Z.min (len label) (Z.max 0 (260 - (len buf + 1)))) by (unfold len at 1; rewrite length_take; lia).
    case_if; (case_if; [apply returns_ret|]); apply IH; try done; reflect_bools;
      rewrite ?len_app in *; change (len [46]) with 1; lia.
Qed.

(** ** Well-formed rule sets *)

Definition ruleset_wf (rs : RuleSet) : Prop :=
  match domain_matcher rs with
  | Fst _ _ => True
  | Legacy _ t => exists ss, insert_all SuffixTrie_new ss = Ret t /\ 1 + total_labels ss <= 2 ^ 32
  end /\
  StronglySorted separated (ranges (ipv4_ranges rs)) /\
  StronglySorted separated (ranges (ipv6_ranges rs)) /\
  match port_bitset rs with Some bs => bitset_ok bs | None => True end.

Lemma build_separated cidrs : StronglySorted separated (ranges (IpRanges_build cidrs)).
Proof. apply merge_ranges_spec, merge_sort_key_le. Qed.

Lemma from_loaded_wf l : loaded_ok l ->
  exists res, RuleSet_from_loaded l = Ret res /\ forall rs, res = Ok rs -> ruleset_wf rs.
Proof.
  intros [Hp Hl]. unfold RuleSet_from_loaded.
  assert (Hdm : exists dm, build_domain_matcher l = Ret dm /\ forall m, dm = Ok m ->
    match m with Fst _ _ => True
    | Legacy _ t => exists ss, insert_all SuffixTrie_new ss = Ret t /\ 1 + total_labels ss <= 2 ^ 32 end).
  { unfold build_domain_matcher. case_if.
    - eexists. split; [done|]. destruct (load_fst (l_domain_fst l)); [|done]. simpl.
      destruct (load_fst (l_domain_suffix_fst l)); [|done]. by intros m [= <-].
    - destruct (trie_build_matches _ Hl) as (t & Et & _). rewrite Et, bind_Ret. eexists. split; [done|].
      intros m [= <-]. by exists (l_domain_suffixes l). }
  destruct Hdm as (dm & -> & Hdm). rewrite bind_Ret. destruct dm as [dm|e]; [|by exists (Err e)].
  destruct (match l_domain_regexes l with [] => _ | _ => _ end) as [rx|e]; [|by exists (Err e)].
  assert (Hbs : exists bs, match l_ports l with [] => Ret None
    | ps => b ← set_ranges PortBitSet_new ps; Ret (Some b) end = Ret bs /\
    match bs with Some bs => bitset_ok bs | None => True end).
  { destruct (l_ports l) as [|p ps]; [by exists None|].
    destruct (set_ranges_spec (p :: ps) PortBitSet_new) as (bs & Hb & Hok & _); [done|done|].
    rewrite Hb, bind_Ret. by exists (Some bs). }
  destruct Hbs as (bs & -> & Hbs). rewrite bind_Ret. eexists. split; [done|]. intros rs [= <-].
  split_and!; [by apply Hdm|apply build_separated..|done].
Qed.

Lemma ranges_contains_returns r a : StronglySorted separated (ranges r) -> returns (IpRanges_contains r a).
Proof. destruct r as [rs]. intros H. destruct (contains_separated rs a H) as (b & -> & _). apply returns_ret. Qed.

Lemma match_ipv4_returns rs a : ruleset_wf rs -> returns (match_ipv4 rs a).
Proof. intros (_ & H4 & _). unfold match_ipv4. case_if; [apply returns_ret|by apply ranges_contains_returns]. Qed.

Lemma match_ipv6_returns rs a : ruleset_wf rs -> returns (match_ipv6 rs a).
Proof. intros (_ & _ & H6 & _). unfold match_ipv6. case_if; [apply returns_ret|by apply ranges_contains_returns]. Qed.

Lemma matches_suffix_returns rs d : ruleset_wf rs -> returns (matches_suffix (domain_matcher rs) d).
Proof.
  intros (Hm & _). destruct (domain_matcher rs) as [ex [s|]|ds t]; cbn [matches_suffix]; [|apply returns_ret|].
  - destruct (collect_ends_returns (length d) d [len d]) as (ends & -> & He); [done| |by repeat constructor|].
    + split; [by repeat constructor|]. constructor; [|constructor]. pose proof (len_nonneg d). lia.
    + rewrite bind_Ret. by apply suffix_loop_returns.
  - destruct Hm as (ss & Et & Hl). destruct (trie_build_matches ss Hl) as (t' & Et' & Hq).
    rewrite Et in Et'. injection Et' as <-. destruct (Hq d) as (b & -> & _). apply returns_ret.
Qed.

Definition query_ok (target : MatchTarget) : Prop :=
  match target with MPort p => in_width 16 p | _ => True end.

Lemma ruleset_matches_returns rs target : ruleset_wf rs -> query_ok target -> returns (RuleSet_matches rs target).
Proof.
  intros Hwf Hq. destruct target as [d|[a|a]|p]; cbn [RuleSet_matches match_ip].
  - unfold match_domain. rewrite lower_if_needed. case_if; [apply returns_ret|].
    apply returns_bind; [by apply matches_suffix_returns|]. intros hit _. destruct hit; [apply returns_ret|].
    case_if; [apply returns_ret|]. destruct (regexes rs); apply returns_ret.
  - by apply match_ipv4_returns.
  - apply returns_bind; [destruct (to_ipv4_mapped a); [by apply match_ipv4_returns|apply returns_ret]|].
    intros hit _. destruct hit; [apply returns_ret|by apply match_ipv6_returns].
  - destruct Hwf as (_ & _ & _ & Hp). unfold match_port. destruct (port_bitset rs) as [bs|]; [|apply returns_ret].
    rewrite (PortBitSet_contains_bit bs p Hp Hq). apply returns_ret.
Qed.

End Safe.

(** A version-2 file whose only section is a port range. *)
Definition port_file : bytes := lit "RRST" ++ [2; 0; 1; 0; 0; 0; 0; 0; 0; 0; 32; 1; 0; 0; 0; 4; 0; 0; 0; 80; 0; 90; 0].

