(* ===== verification/SingBox.v ===== *)
(** * SingBox: compiling sing-box rule sets, [CompiledRuleSet::from_singbox_json] of
    [src/ruleset/compiler.rs].

    The text of a JSON document is parsed by an interface; from the value on, the
    derived readers of the two structures are modelled by their documented behaviour:
    a structure is an object or an array of its fields in order, unknown fields are
    ignored, a missing field with a default takes it. *)

From S2P Require Import Prelude RustStr Extern Format Trie IpMatch Compiler Loader Matcher.

Local Open Scope reflex_scope.
#[local] Set Warnings "-register-all".

(** ** JSON values *)

(** [serde_json::Value]; the fields of an object in the order of the text. *)
Inductive Value : Type :=
  | VNull
  | VBool (b : bool)
  | VInt (z : Z)
  | VFloat (text : str)
  | VStr (s : str)
  | VArr (l : list Value)
  | VObj (fields : list (str * Value)).

(** [serde_json::from_str] as far as the value. *)
Class JsonText : Type := { json_from_str : str -> option Value }.

Fixpoint height (v : Value) : nat :=
  match v with
  | VArr l => S ((fix go l := match l with [] => 0 | x :: l => Nat.max (height x) (go l) end) l)%nat
  | VObj fs => S ((fix go fs := match fs with [] => 0 | (_, x) :: fs => Nat.max (height x) (go fs) end) fs)%nat
  | _ => 1
  end%nat.

Definition heights (l : list Value) : nat := fold_right (fun v n => Nat.max (height v) n) 0%nat l.

Definition field_values (key : str) (fs : list (str * Value)) : list Value :=
  map snd (List.filter (fun kv => bool_decide (kv.1 = key)) fs).

(** A [Value] keeps the last of several fields with one name. *)
Definition last_field (key : str) (fs : list (str * Value)) : option Value := last (field_values key fs).

(** A structure read from the text refuses a field that occurs twice. *)
Definition unique_field (key : str) (fs : list (str * Value)) : option (option Value) :=
  match field_values key fs with
  | [] => Some None
  | [v] => Some (Some v)
  | _ => None
  end.

(** ** The readers *)

Definition u32_value (v : Value) : option Z :=
  match v with VInt z => if (0 <=? z) && (z <? 2 ^ 32) then Some z else None | _ => None end.

Definition u16_value (v : Value) : option Z :=
  match v with VInt z => if (0 <=? z) && (z <=? u16_max) then Some z else None | _ => None end.

Definition str_value (v : Value) : option str := match v with VStr s => Some s | _ => None end.

Definition seq_value (v : Value) : option (list Value) := match v with VArr l => Some l | _ => None end.

(** [Option<u32>] *)
Definition version_value (v : Value) : option (option Z) :=
  match v with VNull => Some None | _ => Some <$> u32_value v end.

(** [string_or_vec] *)
Definition string_or_vec (v : Value) : option (list str) :=
  match v with
  | VStr s => Some [s]
  | VArr l => mapM str_value l
  | _ => None
  end.

(** [#[serde(default)]] *)
Definition or_default {A} (read : Value -> option (list A)) (v : option Value) : option (list A) :=
  match v with None => Some [] | Some v => read v end.

Record SingBoxEnvelope : Type := mkEnvelope { version : option Z; rules : list Value }.

(** The envelope read from the text; in the array form the version must be there. *)
Definition envelope_from (v : Value) : option SingBoxEnvelope :=
  match v with
  | VObj fs =>
      ver ← unique_field (lit "version") fs; rs ← unique_field (lit "rules") fs;
      ver ← match ver with None => Some None | Some v => version_value v end;
      rs ← or_default seq_value rs; Some (mkEnvelope ver rs)
  | VArr (ver :: rest) =>
      ver ← version_value ver;
      match rest with
      | [] => Some (mkEnvelope ver [])
      | [rs] => rs ← seq_value rs; Some (mkEnvelope ver rs)
      | _ => None
      end
  | _ => None
  end.

Record SingBoxRule : Type := mkSingBoxRule {
  domain : list str;
  domain_suffix : list str;
  domain_keyword : list str;
  domain_regex : list str;
  ip_cidr : list str;
  port : list Z;
  port_range : list str;
  sub_rules : list Value
}.

(** A field by its name in an object, by its place in an array. *)
Definition rule_field (v : Value) (key : str) (place : nat) : option Value :=
  match v with VObj fs => last_field key fs | VArr l => l !! place | _ => None end.

Definition rule_shape (v : Value) : bool :=
  match v with VObj _ => true | VArr l => (length l <=? 8)%nat | _ => false end.

(** [serde_json::from_value] *)
Definition rule_from_value (v : Value) : option SingBoxRule :=
  if negb (rule_shape v) then None
  else
    d ← or_default string_or_vec (rule_field v (lit "domain") 0);
    ds ← or_default string_or_vec (rule_field v (lit "domain_suffix") 1);
    dk ← or_default string_or_vec (rule_field v (lit "domain_keyword") 2);
    dr ← or_default string_or_vec (rule_field v (lit "domain_regex") 3);
    ic ← or_default string_or_vec (rule_field v (lit "ip_cidr") 4);
    p ← or_default (fun v => l ← seq_value v; mapM u16_value l) (rule_field v (lit "port") 5);
    pr ← or_default string_or_vec (rule_field v (lit "port_range") 6);
    sub ← or_default seq_value (rule_field v (lit "rules") 7);
    Some (mkSingBoxRule d ds dk dr ic p pr sub).

(** [start:end], or else the form of the text files. *)
Definition parse_singbox_port_range (s : str) : result (Z * Z) RuleSetError :=
  match split_once 58 s with
  | Some (start_s, end_s) =>
      start ←! ok_or (parse_uint u16_max (trim start_s)) (InvalidPort s);
      last ←! ok_or (parse_uint u16_max (trim end_s)) (InvalidPort s);
      if start >? last then Err (InvalidPort s) else Ok (start, last)
  | None => parse_port_range s
  end.

Section SingBox.
Context {RX : RegexLib} {JT : JsonText}.

Definition add_domain (out : CompiledRuleSet) (d : str) : result CompiledRuleSet RuleSetError :=
  let lower := to_ascii_lowercase (trim d) in
  _ ←! validate_domain_len lower 0; Ok (push_domain out lower).

Definition add_domain_suffix (out : CompiledRuleSet) (d : str) : result CompiledRuleSet RuleSetError :=
  let v := to_ascii_lowercase (trim_start_matches 46 (trim d)) in
  _ ←! validate_domain_len v 0; Ok (push_domain_suffix out v).

Definition add_domain_keyword (out : CompiledRuleSet) (k : str) : result CompiledRuleSet RuleSetError :=
  Ok (push_domain_keyword out (to_ascii_lowercase (trim k))).

Definition add_domain_regex (out : CompiledRuleSet) (r : str) : result CompiledRuleSet RuleSetError :=
  match Regex_new r with Some e => Err (InvalidRegex r e) | None => Ok (push_domain_regex out r) end.

Definition add_ip_cidr (out : CompiledRuleSet) (s : str) : result CompiledRuleSet RuleSetError :=
  let cidr := trim s in
  if contains_char 58 cidr then c ←! parse_ipv6_cidr cidr; Ok (push_ipv6_cidr out c)
  else c ←! parse_ipv4_cidr cidr; Ok (push_ipv4_cidr out c).

Definition add_port (out : CompiledRuleSet) (p : Z) : result CompiledRuleSet RuleSetError := Ok (push_port out (p, p)).

Definition add_port_range (out : CompiledRuleSet) (s : str) : result CompiledRuleSet RuleSetError :=
  r ←! parse_singbox_port_range s; Ok (push_port out r).

(** The fields of one rule, without those of the rules inside it. *)
Definition add_own (out : CompiledRuleSet) (rule : SingBoxRule) : result CompiledRuleSet RuleSetError :=
  out ←! fold_result add_domain (domain rule) out;
  out ←! fold_result add_domain_suffix (domain_suffix rule) out;
  out ←! fold_result add_domain_keyword (domain_keyword rule) out;
  out ←! fold_result add_domain_regex (domain_regex rule) out;
  out ←! fold_result add_ip_cidr (ip_cidr rule) out;
  out ←! fold_result add_port (port rule) out;
  fold_result add_port_range (port_range rule) out.

Definition singbox_error (what : str) : RuleSetError := ParseError 0 (lit "sing-box " ++ what ++ lit " 解析失败").

(** Each value read as a rule and handed on. *)
Fixpoint each_rule (what : str) (f : CompiledRuleSet -> SingBoxRule -> run (result CompiledRuleSet RuleSetError))
    (l : list Value) (out : CompiledRuleSet) : run (result CompiledRuleSet RuleSetError) :=
  match l with
  | [] => Ret (Ok out)
  | raw :: l =>
      match rule_from_value raw with
      | None => Ret (Err (singbox_error what))
      | Some rule => out ←!! f out rule; each_rule what f l out
      end
  end.

(** The rules inside come first; the fuel is the height of the values. *)
Fixpoint ingest_singbox_rule (fuel : nat) (out : CompiledRuleSet) (rule : SingBoxRule)
    : run (result CompiledRuleSet RuleSetError) :=
  match fuel with
  | O => Stuck
  | S fuel =>
      out ←!! each_rule (lit "sub-rule") (ingest_singbox_rule fuel) (sub_rules rule) out;
      Ret (add_own out rule)
  end.

Definition from_singbox_json (src : str) : run (result CompiledRuleSet RuleSetError) :=
  match json_from_str src ≫= envelope_from with
  | None => Ret (Err (singbox_error (lit "JSON")))
  | Some env => each_rule (lit "rule") (ingest_singbox_rule (heights (rules env))) (rules env) CompiledRuleSet_default
  end.
End SingBox.

#[local] Instance sample_json : JsonText := {| json_from_str _ := Some (VObj [
  (lit "version", VInt 2);
  (lit "rules", VArr [VObj [
    (lit "domain", VArr [VStr (lit "Example.com")]); (lit "domain_suffix", VStr (lit ".zotero.org"));
    (lit "ip_cidr", VArr [VStr (lit "192.168.0.0/16"); VStr (lit "2001:db8::/32")]);
    (lit "port", VArr [VInt 80]); (lit "port_range", VArr [VStr (lit "8000:9000")]);
    (lit "rules", VArr [VObj [(lit "domain", VStr (lit "in.side")); (lit "invert", VBool true)]])]])]) |}.

Example singbox_example :
  from_singbox_json (RX := ToyRegex) [] =
  Ret (Ok (mkCompiled [lit "in.side"; lit "example.com"] [lit "zotero.org"] [] [] [(0xC0A80000, 16)]
    [(0x20010db8000000000000000000000000, 32)] [(80, 80); (8000, 9000)])).
Proof. vm_compute. reflexivity. Qed.

(** ** Termination: the fuel is enough *)

Lemma height_arr l : height (VArr l) = S (heights l).
Proof. cbn [height]. f_equal. Qed.

Lemma heights_elem l v : v ∈ l -> (height v <= heights l)%nat.
Proof. induction l as [|x l IH]; intros H; [by apply elem_of_nil in H|]. cbn [heights fold_right]. apply elem_of_cons in H as [->|H]; [lia|]. specialize (IH H). unfold heights in IH. lia. Qed.

Lemma height_field key fs v : v ∈ field_values key fs -> (height v < height (VObj fs))%nat.
Proof.
  unfold field_values. cbn [height]. induction fs as [|[k x] fs IH]; intros H; [by apply elem_of_nil in H|].
  cbn [List.filter fst] in H. case_bool_decide; cbn [map snd] in H; [apply elem_of_cons in H as [->|H]; [lia|]|]; specialize (IH H); lia.
Qed.

Lemma height_rule_field v key place x : rule_field v key place = Some x -> (height x < height v)%nat.
Proof.
  destruct v as [| | | | |l|fs]; cbn [rule_field]; try done.
  - intros H%list_elem_of_lookup_2. rewrite height_arr. apply heights_elem in H. lia.
  - intros H. apply (height_field key). unfold last_field in H. by apply last_Some_elem_of.
Qed.

Lemma rule_sub_height v rule : rule_from_value v = Some rule -> (heights (sub_rules rule) < height v)%nat.
Proof.
  unfold rule_from_value. destruct (negb (rule_shape v)); [done|]. intros H.
  repeat (apply bind_Some in H as (? & ? & H)). injection H as <-. cbn [sub_rules].
  match goal with Hs : or_default seq_value ?f = Some _ |- _ => destruct f as [w|] eqn:E; cbn in Hs end;
    [|simplify_eq; destruct v; cbn; lia].
  destruct w as [| | | | |l|fs]; try done. simplify_eq/=. apply height_rule_field in E. rewrite height_arr in E. lia.
Qed.

Section Spec.
Context {RX : RegexLib}.

Lemma each_rule_returns what f l out :
  (forall v rule c, v ∈ l -> rule_from_value v = Some rule -> returns (f c rule)) -> returns (each_rule what f l out).
Proof.
  revert out. induction l as [|v l IH]; intros out H; cbn [each_rule]; [apply returns_ret|].
  destruct (rule_from_value v) as [rule|] eqn:E; [|apply returns_ret].
  destruct (H v rule out) as [r Hr]; [by left|done|]. rewrite Hr. unfold try_bind. rewrite bind_Ret.
  destruct r as [c|e]; [|apply returns_ret]. apply IH. intros w x c' Hw. apply H. by right.
Qed.

Lemma ingest_returns fuel out rule : (heights (sub_rules rule) < fuel)%nat -> returns (ingest_singbox_rule fuel out rule).
Proof.
  revert out rule. induction fuel as [|fuel IH]; intros out rule H; [lia|]. cbn [ingest_singbox_rule].
  destruct (each_rule_returns (lit "sub-rule") (ingest_singbox_rule fuel) (sub_rules rule) out) as [r Hr].
  { intros v sub c Hv Hs. apply IH. pose proof (rule_sub_height _ _ Hs). pose proof (heights_elem _ _ Hv). lia. }
  rewrite Hr. unfold try_bind. rewrite bind_Ret. destruct r; apply returns_ret.
Qed.

Lemma from_singbox_returns {JT : JsonText} src : returns (from_singbox_json src).
Proof.
  unfold from_singbox_json. destruct (_ ≫= _) as [env|]; [|apply returns_ret].
  apply each_rule_returns. intros v rule c Hv Hr. apply ingest_returns.
  pose proof (rule_sub_height _ _ Hr). pose proof (heights_elem _ _ Hv). lia.
Qed.

(** ** What is compiled: the entries of all rules, one after the other *)

Definition capp (a b : CompiledRuleSet) : CompiledRuleSet :=
  mkCompiled (domains a ++ domains b) (domain_suffixes a ++ domain_suffixes b) (domain_keywords a ++ domain_keywords b)
    (domain_regexes a ++ domain_regexes b) (ipv4_cidrs a ++ ipv4_cidrs b) (ipv6_cidrs a ++ ipv6_cidrs b) (ports a ++ ports b).

Lemma capp_nil_r a : capp a CompiledRuleSet_default = a.
Proof. destruct a. unfold capp. cbn. by rewrite !app_nil_r. Qed.

Lemma capp_nil_l a : capp CompiledRuleSet_default a = a.
Proof. by destruct a. Qed.

Lemma capp_assoc a b c : capp a (capp b c) = capp (capp a b) c.
Proof. unfold capp. cbn. by rewrite !app_assoc. Qed.

(** An operation that only appends does the same behind any other entries. *)
Definition appends {A} (f : CompiledRuleSet -> A -> result CompiledRuleSet RuleSetError) : Prop :=
  forall a b x, f (capp a b) x = (r ←! f b x; Ok (capp a r)).

Lemma appends_fold {A} (f : CompiledRuleSet -> A -> result CompiledRuleSet RuleSetError) : appends f -> appends (fun c l => fold_result f l c).
Proof.
  intros Hf a b l. revert b. induction l as [|x l IH]; intros b; [done|]. cbn [fold_result]. rewrite Hf.
  destruct (f b x) as [c|e]; cbn [result_bind]; [apply IH|done].
Qed.

Lemma appends_then {A B} (f : CompiledRuleSet -> A -> result CompiledRuleSet RuleSetError) g (p : B -> A) :
  appends f -> appends g -> appends (fun c x => c ←! f c (p x); g c x).
Proof. intros Hf Hg a b x. rewrite Hf. destruct (f b (p x)); cbn [result_bind]; [apply Hg|done]. Qed.

Ltac appends_tac :=
  intros a b x; unfold capp; cbn;
  repeat first [progress cbn [result_bind] | case_match
    | match goal with |- context [result_bind ?m _] => lazymatch m with result_bind _ _ => fail | _ => destruct m end end];
  cbn; rewrite ?app_assoc; reflexivity.

Lemma appends_domain : appends add_domain.
Proof. unfold add_domain, push_domain. appends_tac. Qed.
Lemma appends_domain_suffix : appends add_domain_suffix.
Proof. unfold add_domain_suffix, push_domain_suffix. appends_tac. Qed.
Lemma appends_domain_keyword : appends add_domain_keyword.
Proof. unfold add_domain_keyword, push_domain_keyword. appends_tac. Qed.
Lemma appends_domain_regex : appends add_domain_regex.
Proof. unfold add_domain_regex, push_domain_regex. appends_tac. Qed.
Lemma appends_ip_cidr : appends add_ip_cidr.
Proof. unfold add_ip_cidr, push_ipv4_cidr, push_ipv6_cidr. appends_tac. Qed.
Lemma appends_port : appends add_port.
Proof. unfold add_port, push_port. appends_tac. Qed.
Lemma appends_port_range : appends add_port_range.
Proof. unfold add_port_range, push_port. appends_tac. Qed.

Lemma appends_own : appends add_own.
Proof.
  unfold add_own. apply (appends_then _ _ domain (appends_fold _ appends_domain)).
  apply (appends_then _ _ domain_suffix (appends_fold _ appends_domain_suffix)).
  apply (appends_then _ _ domain_keyword (appends_fold _ appends_domain_keyword)).
  apply (appends_then _ _ domain_regex (appends_fold _ appends_domain_regex)).
  apply (appends_then _ _ ip_cidr (appends_fold _ appends_ip_cidr)).
  apply (appends_then _ _ port (appends_fold _ appends_port)).
  intros a b x. apply (appends_fold _ appends_port_range).
Qed.

(** The rules of a document, the ones inside other rules among them. *)
Inductive rule_of (l : list Value) : SingBoxRule -> Prop :=
  | rule_here v r : v ∈ l -> rule_from_value v = Some r -> rule_of l r
  | rule_inside v r s : v ∈ l -> rule_from_value v = Some r -> rule_of (sub_rules r) s -> rule_of l s.

(** A rule lists a target when one of its own fields does. *)
Definition rule_lists (r : SingBoxRule) (target : MatchTarget) : Prop :=
  exists e, add_own CompiledRuleSet_default r = Ok e /\ listed e target.

Lemma listed_capp a b target : listed (capp a b) target <-> listed a target \/ listed b target.
Proof.
  destruct target as [d|[x|x]|p]; cbn [listed]; unfold domain_listed, ipv4_listed, ipv6_listed, capp; cbn;
    setoid_rewrite elem_of_app; naive_solver.
Qed.

Lemma listed_default target : ~ listed CompiledRuleSet_default target.
Proof.
  destruct target as [d|[x|x]|p]; cbn [listed]; unfold domain_listed, ipv4_listed, ipv6_listed; cbn;
    setoid_rewrite elem_of_nil; naive_solver.
Qed.

Lemma compiled_ok_capp a b : compiled_ok a -> compiled_ok b -> compiled_ok (capp a b).
Proof. intros [] []. constructor; cbn; by apply Forall_app. Qed.

Lemma compiled_ok_default : compiled_ok CompiledRuleSet_default.
Proof. by constructor. Qed.

(** An operation that keeps the entries normalised, and so does its loop. *)
Definition normalises {A} (f : CompiledRuleSet -> A -> result CompiledRuleSet RuleSetError) : Prop :=
  forall c x c', compiled_ok c -> f c x = Ok c' -> compiled_ok c'.

Lemma normalises_fold {A} (f : CompiledRuleSet -> A -> result CompiledRuleSet RuleSetError) : normalises f -> normalises (fun c l => fold_result f l c).
Proof.
  intros Hf c l. revert c. induction l as [|x l IH]; intros c c' Hc; cbn [fold_result]; [by intros [= <-]|].
  destruct (f c x) as [c1|] eqn:E; cbn [result_bind]; [|done]. apply IH. by eapply Hf.
Qed.

(** The same step as a line of a text file. *)
Lemma normalises_line {A} (f : CompiledRuleSet -> A -> result CompiledRuleSet RuleSetError) (key : A -> str) (value : A -> str) :
  (forall c x c', f c x = Ok c' -> compile_rule c 0 (key x) (value x) = Ok c') -> normalises f.
Proof. intros H c x c' Hc E. eapply compile_rule_ok; [exact Hc|by apply H]. Qed.

Lemma normalises_port c r : 0 <= r.1 <= r.2 /\ r.2 < 2 ^ 16 -> compiled_ok c -> compiled_ok (push_port c r).
Proof. intros Hr []. constructor; cbn; auto. apply Forall_app. by split; [|constructor]. Qed.

Lemma normalises_domain : normalises add_domain.
Proof.
  apply (normalises_line _ (fun _ => lit "domain") trim). intros c d c'. unfold add_domain, validate_domain_len.
  rewrite len_to_ascii_lowercase. unfold compile_rule, validate_domain_len. cbn. by case_if.
Qed.

Lemma normalises_domain_suffix : normalises add_domain_suffix.
Proof.
  apply (normalises_line _ (fun _ => lit "domain-suffix") trim). intros c d c'. unfold add_domain_suffix, validate_domain_len.
  rewrite len_to_ascii_lowercase. unfold compile_rule, validate_domain_len. cbn. by case_if.
Qed.

Lemma normalises_domain_keyword : normalises add_domain_keyword.
Proof. by apply (normalises_line _ (fun _ => lit "domain-keyword") trim). Qed.

Lemma normalises_domain_regex : normalises add_domain_regex.
Proof. by apply (normalises_line _ (fun _ => lit "domain-regex") id). Qed.

Lemma normalises_ip_cidr : normalises add_ip_cidr.
Proof.
  apply (normalises_line _ (fun s => if contains_char 58 (trim s) then lit "ip-cidr6" else lit "ip-cidr") trim).
  intros c d c'. unfold add_ip_cidr. by destruct (contains_char 58 (trim d)).
Qed.

Lemma normalises_port_range : normalises add_port_range.
Proof.
  intros c s c' Hc. unfold add_port_range, parse_singbox_port_range. intros H.
  destruct (split_once 58 s) as [[a b]|].
  - destruct (parse_uint u16_max (trim a)) as [x|] eqn:Ea; [|done]. destruct (parse_uint u16_max (trim b)) as [y|] eqn:Eb; [|done].
    cbn in H. destruct (x >? y) eqn:G; [done|]. injection H as <-. rewrite Z.gtb_ltb in G. apply Z.ltb_ge in G.
    apply normalises_port; [|done]. apply parse_uint_bound in Ea, Eb. unfold u16_max in *. cbn. lia.
  - destruct (parse_port_range s) as [r|] eqn:E; [|done]. injection H as <-. apply normalises_port; [|done]. by apply (parse_port_range_ok s).
Qed.

Lemma mapM_u16 l ps : mapM u16_value l = Some ps -> Forall (fun p => 0 <= p < 2 ^ 16) ps.
Proof.
  intros H%mapM_Some. induction H as [|v p l ps Hv _ IH]; constructor; [|done].
  destruct v; try done. cbn in Hv. destruct ((0 <=? z) && (z <=? u16_max)) eqn:E; [|done]. simplify_eq. unfold u16_max in E. lia.
Qed.

Lemma rule_ports v r : rule_from_value v = Some r -> Forall (fun p => 0 <= p < 2 ^ 16) (port r).
Proof.
  unfold rule_from_value. destruct (negb (rule_shape v)); [done|]. intros H.
  repeat (apply bind_Some in H as (? & ? & H)). injection H as <-. cbn [port].
  match goal with Hs : or_default _ (rule_field v (lit "port") 5) = Some _ |- _ => destruct (rule_field v (lit "port") 5); cbn in Hs end;
    [|by simplify_eq]. match goal with Hs : _ ≫= _ = Some _ |- _ => apply bind_Some in Hs as (l & _ & Hs) end. by eapply mapM_u16.
Qed.

Lemma ports_normalised ps c c' : Forall (fun p => 0 <= p < 2 ^ 16) ps -> compiled_ok c -> fold_result add_port ps c = Ok c' -> compiled_ok c'.
Proof.
  intros H. revert c. induction H as [|p ps Hp _ IH]; intros c Hc; cbn [fold_result]; [by intros [= <-]|].
  cbn [add_port result_bind]. apply IH. apply normalises_port; [cbn; lia|done].
Qed.

Lemma own_normalised v r e : rule_from_value v = Some r -> add_own CompiledRuleSet_default r = Ok e -> compiled_ok e.
Proof.
  intros Hv H. pose proof (rule_ports _ _ Hv) as Hp. unfold add_own in H.
  repeat match type of H with result_bind ?m _ = _ => let c := fresh "c" in let E := fresh "E" in destruct m as [c|] eqn:E; cbn [result_bind] in H; [|done] end.
  apply (normalises_fold _ normalises_port_range) in H; [done|]. eapply ports_normalised; [exact Hp| |eassumption].
  apply (normalises_fold _ normalises_ip_cidr) in E3; [done|]. apply (normalises_fold _ normalises_domain_regex) in E2; [done|].
  apply (normalises_fold _ normalises_domain_keyword) in E1; [done|]. apply (normalises_fold _ normalises_domain_suffix) in E0; [done|].
  apply (normalises_fold _ normalises_domain) in E; [done|]. apply compiled_ok_default.
Qed.

(** What an operation adds: normalised entries that list what the rules [P] list. *)
Definition adds (out out' : CompiledRuleSet) (P : SingBoxRule -> Prop) : Prop :=
  exists e, out' = capp out e /\ compiled_ok e /\ forall target, listed e target <-> exists r, P r /\ rule_lists r target.

Lemma own_adds v rule out out' : rule_from_value v = Some rule -> add_own out rule = Ok out' -> adds out out' (fun r => r = rule).
Proof.
  intros Hv H. rewrite <-(capp_nil_r out), appends_own in H.
  destruct (add_own CompiledRuleSet_default rule) as [e|] eqn:E; cbn in H; [|done]. injection H as <-.
  exists e. split; [done|]. split; [by eapply own_normalised|]. intros target. unfold rule_lists. split.
  - intros Hl. by exists rule; split; [|exists e].
  - intros (r & -> & e' & E' & Hl). congruence.
Qed.

Lemma adds_trans a b c P Q R : (forall r, R r <-> P r \/ Q r) -> adds a b P -> adds b c Q -> adds a c R.
Proof.
  intros HR (e1 & -> & H1 & L1) (e2 & -> & H2 & L2). exists (capp e1 e2). split_and!.
  - by rewrite capp_assoc.
  - by apply compiled_ok_capp.
  - intros target. rewrite listed_capp, L1, L2. setoid_rewrite HR. naive_solver.
Qed.

Lemma adds_nothing c : adds c c (fun _ => False).
Proof.
  exists CompiledRuleSet_default. split_and!; [by rewrite capp_nil_r|apply compiled_ok_default|].
  intros target. split; [by intros ?%listed_default|naive_solver].
Qed.

Lemma rule_of_nil r : ~ rule_of [] r.
Proof. inversion 1; by match goal with He : _ ∈ [] |- _ => apply elem_of_nil in He end. Qed.

Lemma rule_of_cons v l rule r : rule_from_value v = Some rule ->
  rule_of (v :: l) r <-> (r = rule \/ rule_of (sub_rules rule) r) \/ rule_of l r.
Proof.
  intros Hv. split.
  - inversion 1 as [w x Hw Hx|w x s Hw Hx Hs]; subst; apply elem_of_cons in Hw as [->|Hw].
    + left; left. congruence.
    + right. by eapply rule_here.
    + left; right. congruence.
    + right. by eapply rule_inside.
  - intros [[->|H]|H]; [by eapply rule_here; [left|]|by eapply rule_inside; [left|..]|].
    inversion H; subst; [eapply rule_here|eapply rule_inside]; try done; by right.
Qed.

Lemma each_adds what f l out out' :
  (forall v rule c c', v ∈ l -> rule_from_value v = Some rule -> f c rule = Ret (Ok c') ->
     adds c c' (fun r => r = rule \/ rule_of (sub_rules rule) r)) ->
  each_rule what f l out = Ret (Ok out') -> adds out out' (rule_of l).
Proof.
  revert out. induction l as [|v l IH]; intros out Hf H; cbn [each_rule] in H.
  - injection H as <-. destruct (adds_nothing out) as (e & He & Hok & Hl). exists e. split_and!; [done..|].
    intros target. rewrite Hl. split; [naive_solver|]. intros (r & Hr & _). by apply rule_of_nil in Hr.
  - destruct (rule_from_value v) as [rule|] eqn:Ev; [|done]. unfold try_bind in H.
    apply bind_Ret_inv in H as ([c|] & E & H); [|done].
    eapply adds_trans; [intros r; by apply rule_of_cons|eapply Hf; [left| |]; done|].
    apply IH; [|done]. intros w x a b Hw. apply Hf. by right.
Qed.

Lemma ingest_adds fuel out v rule out' : rule_from_value v = Some rule -> ingest_singbox_rule fuel out rule = Ret (Ok out') ->
  adds out out' (fun r => r = rule \/ rule_of (sub_rules rule) r).
Proof.
  revert out v rule out'. induction fuel as [|fuel IH]; intros out v rule out' Hv H; cbn [ingest_singbox_rule] in H; [done|].
  unfold try_bind in H. apply bind_Ret_inv in H as ([c|] & E & H); [|done]. injection H as H.
  eapply adds_trans; [|eapply each_adds; [|exact E]|by eapply own_adds].
  - intros r. naive_solver.
  - intros w sub a b _ Hs. by eapply IH.
Qed.

Lemma from_singbox_adds {JT : JsonText} src c : from_singbox_json src = Ret (Ok c) ->
  exists env, json_from_str src ≫= envelope_from = Some env /\ compiled_ok c /\
    forall target, listed c target <-> exists r, rule_of (rules env) r /\ rule_lists r target.
Proof.
  unfold from_singbox_json. destruct (_ ≫= _) as [env|]; [|done]. intros H. exists env. split; [done|].
  eapply each_adds in H as (e & -> & He & Hl); [|intros; by eapply ingest_adds]. by rewrite capp_nil_l.
Qed.

(** A compiled rule set, serialized, loaded and indexed, answers with what its
    entries list. *)
Lemma compiled_answers {FST : FstLib} {FL : FstLaws} {RL : RegexLaws} c f sf target :
  compiled_ok c -> serializable c f sf -> Forall bytes_ok (domains c) -> Forall bytes_ok (domain_suffixes c) ->
  regexes_ok (domain_regexes c) -> target_ok target ->
  exists buf l rs b, CompiledRuleSet_serialize c = Ret (Ok buf) /\ LoadedRuleSet_from_bytes buf = Ret (Ok l) /\
    RuleSet_from_loaded l = Ret (Ok rs) /\ RuleSet_matches rs target = Ret b /\ (b = true <-> listed c target).
Proof.
  intros Hc Hser Hd Hs Hr Ht. destruct (serialize_load_ok _ _ _ Hser) as (buf & Eb & El).
  destruct Hser as (Hf & Hsf & _). destruct (fst_loaded_indexes c f sf Hc Hr Hd Hs Hf Hsf) as (rs & Ers & Hi).
  destruct (ruleset_matches c rs target Hc Hi Ht) as (b & Em & Hb).
  exists buf. eexists. exists rs, b. by split_and!.
Qed.

End Spec.

(** ** Witness *)

Definition sample_singbox : CompiledRuleSet :=
  mkCompiled [lit "in.side"; lit "example.com"] [lit "zotero.org"] [] [] [(0xC0A80000, 16)]
    [(0x20010db8000000000000000000000000, 32)] [(80, 80); (8000, 9000)].

Lemma sample_singbox_serializable : serializable (FST := ToyFst) sample_singbox
  (toy_encode [lit "com.example"; lit "side.in"]) (toy_encode [lit "org.zotero."]).
Proof.
  split_and!; [vm_compute; reflexivity | vm_compute; reflexivity |..].
  1-5: repeat constructor; vm_compute; done.
  apply (bool_decide_eq_true_1 (Forall section_ok _)). vm_compute. reflexivity.
Qed.

Lemma sample_singbox_bytes : Forall bytes_ok (domains sample_singbox) /\ Forall bytes_ok (domain_suffixes sample_singbox).
Proof. split; apply (bool_decide_eq_true_1 (Forall bytes_ok _)); vm_compute; reflexivity. Qed.


(** A rule with a condition the structure has no field for is compiled without it,
    and a port that is not in an array refuses the document. *)
Example singbox_invert_ignored :
  rule_from_value (VObj [(lit "domain", VStr (lit "a")); (lit "invert", VBool true); (lit "network", VStr (lit "udp"))])
  = Some (mkSingBoxRule [lit "a"] [] [] [] [] [] [] []).
Proof. reflexivity. Qed.

Example singbox_bare_port_refused : rule_from_value (VObj [(lit "port", VInt 443)]) = None.
Proof. reflexivity. Qed.
