(* ===== verification/CacheFile.v ===== *)
(** * CacheFile: the persistent cache of [src/experimental/cache_file.rs].

    The redb database is four tables (finite maps); writers send [WriteOp]s
    into an unbounded channel, and one task applies them in order and purges
    old entries on a timer.  A redb transaction either commits or fails as a
    whole: every database operation takes the verdict as its argument [fault]. *)

From S2P Require Import Prelude RustStr Extern.

Local Open Scope reflex_scope.

Record Database : Type := mkDb {
  fakeip_table : gmap (list Z) (Z * list Z);
  dns_table : gmap (list Z) (Z * list Z);
  selected_table : gmap (list Z) (list Z);
  ruleset_table : gmap (list Z) (list Z)
}.

Definition empty_db : Database := mkDb ∅ ∅ ∅ ∅.

Inductive WriteOp : Type :=
  | StoreFakeip (ip domain : str) (last_seen : Z)
  | TouchFakeip (ip : str) (last_seen : Z)
  | SaveDns (key : bytes) (expire_at : Z) (raw : bytes)
  | StoreSelected (group selected : str)
  | StoreRuleset (tag : str) (data : bytes)
  | Cleanup
  | Shutdown.

(** The write handle: the channel's contents and whether its receiver lives. *)
Record CacheFile : Type := mkCacheFile {
  write_tx : list WriteOp;
  rx_alive : bool;
  store_fakeip : bool;
  store_dns : bool
}.

(** [let _ = self.write_tx.send(op);] *)
Definition send (cf : CacheFile) (op : WriteOp) : CacheFile :=
  if rx_alive cf
  then mkCacheFile (write_tx cf ++ [op]) (rx_alive cf) (store_fakeip cf) (store_dns cf)
  else cf.

(** Key of the DNS table: [transport_len (2 BE) | transport | qname_lower | 0 | qtype (2 BE)]. *)
Definition encode_dns_key (transport qname : str) (qtype : Z) : bytes :=
  to_be_bytes 2 (as_u16 (len transport)) ++ transport ++ to_ascii_lowercase qname ++ [0] ++ to_be_bytes 2 qtype.

Definition store_fakeip_entry (cf : CacheFile) (now : Z) (ip : IpAddr) (domain : str) : CacheFile :=
  if negb (store_fakeip cf) then cf else send cf (StoreFakeip (show_ip ip) domain now).

Definition touch_fakeip_entry (cf : CacheFile) (now : Z) (ip : IpAddr) : CacheFile :=
  if negb (store_fakeip cf) then cf else send cf (TouchFakeip (show_ip ip) now).

Definition store_selected (cf : CacheFile) (group selected : str) : CacheFile :=
  send cf (StoreSelected group selected).

Definition store_ruleset_entry (cf : CacheFile) (tag : str) (data : bytes) : CacheFile :=
  send cf (StoreRuleset tag data).

Definition save_dns_cache_async (cf : CacheFile) (transport qname : str) (qtype : Z) (raw : bytes)
    (expire_at_secs : Z) : CacheFile :=
  if negb (store_dns cf) then cf
  else send cf (SaveDns (encode_dns_key transport qname qtype) expire_at_secs raw).

(** ** The read handle *)

Record CacheFileReader : Type := mkReader { db : Database; r_store_dns : bool }.

Definition load_selected (fault : bool) (r : CacheFileReader) (group : str) : option str :=
  if fault then None else selected_table (db r) !! group.

Definition load_ruleset_cache (fault : bool) (r : CacheFileReader) (tag : str) : option bytes :=
  if fault then None else ruleset_table (db r) !! tag.

(** [(raw, expire_at)], expired or not. *)
Definition load_dns_cache (fault : bool) (r : CacheFileReader) (transport qname : str) (qtype : Z)
    : option (bytes * Z) :=
  if negb (r_store_dns r) then None
  else if fault then None
  else match dns_table (db r) !! encode_dns_key transport qname qtype with
       | Some (expire_at, raw) => Some (raw, expire_at)
       | None => None
       end.

(** redb iterates a table in the order of its keys. *)
Definition key_order (x y : list Z * (Z * list Z)) : Prop := bytes_le x.1 y.1.

#[export] Instance key_order_dec : RelDecision key_order.
Proof. intros x y. unfold key_order. apply _. Defined.

Definition table_iter (t : gmap (list Z) (Z * list Z)) : list (list Z * (Z * list Z)) :=
  merge_sort key_order (map_to_list t).

Definition load_all_fakeip (fault : bool) (r : CacheFileReader) : option (list (IpAddr * str)) :=
  if fault then None
  else Some (omap (fun kv => match IpAddr_from_str kv.1 with
                             | Some ip => Some (ip, kv.2.2)
                             | None => None
                             end) (table_iter (fakeip_table (db r)))).

(** ** The background task *)

Definition with_fakeip (d : Database) t := mkDb t (dns_table d) (selected_table d) (ruleset_table d).
Definition with_dns (d : Database) t := mkDb (fakeip_table d) t (selected_table d) (ruleset_table d).
Definition with_selected (d : Database) t := mkDb (fakeip_table d) (dns_table d) t (ruleset_table d).
Definition with_ruleset (d : Database) t := mkDb (fakeip_table d) (dns_table d) (selected_table d) t.

Definition apply_op (fault : bool) (d : Database) (op : WriteOp) : result Database unit :=
  if fault then match op with Cleanup | Shutdown => Ok d | _ => Err tt end
  else
    match op with
    | StoreFakeip ip domain last_seen => Ok (with_fakeip d (<[ip := (last_seen, domain)]> (fakeip_table d)))
    | TouchFakeip ip last_seen =>
        match fakeip_table d !! ip with
        | Some (_, domain) => Ok (with_fakeip d (<[ip := (last_seen, domain)]> (fakeip_table d)))
        | None => Ok d
        end
    | SaveDns key expire_at raw => Ok (with_dns d (<[key := (expire_at, raw)]> (dns_table d)))
    | StoreSelected group selected => Ok (with_selected d (<[group := selected]> (selected_table d)))
    | StoreRuleset tag data => Ok (with_ruleset d (<[tag := data]> (ruleset_table d)))
    | Cleanup | Shutdown => Ok d
    end.

(** Keys to remove are collected in a read transaction, then removed one by one. *)
Definition purge (sel : Z -> bool) (t : gmap (list Z) (Z * list Z)) : gmap (list Z) (Z * list Z) :=
  foldr delete t (omap (fun kv => if sel kv.2.1 then Some kv.1 else None) (table_iter t)).

Definition purge_expired_dns (fault : bool) (d : Database) (now_secs : Z) : Database :=
  if fault then d else with_dns d (purge (fun expire_at => expire_at <=? now_secs) (dns_table d)).

Definition purge_stale_fakeip (fault : bool) (d : Database) (cutoff_secs : Z) : Database :=
  if fault then d else with_fakeip d (purge (fun last_seen => last_seen <? cutoff_secs) (fakeip_table d)).

Definition do_cleanup (fault1 fault2 : bool) (d : Database) (now fakeip_ttl_days : Z) : Database :=
  let d := purge_expired_dns fault1 d now in
  if fakeip_ttl_days >? 0
  then purge_stale_fakeip fault2 d (Z.max 0 (now - fakeip_ttl_days * 86400))
  else d.

(** [write_loop]: the database, the channel, and whether the task has ended. *)
Record WriteLoop : Type := mkLoop { wl_db : Database; wl_rx : list WriteOp; wl_done : bool }.

(** One turn of [tokio::select!]: a message or a tick of the timer; the label
    tells whether the transaction of a received operation failed. *)
Inductive write_loop_step (ttl : Z) : bool -> WriteLoop -> WriteLoop -> Prop :=
  | recv_shutdown d q :
      write_loop_step ttl false (mkLoop d (Shutdown :: q) false) (mkLoop d q true)
  | recv_cleanup d q now f1 f2 :
      write_loop_step ttl false (mkLoop d (Cleanup :: q) false) (mkLoop (do_cleanup f1 f2 d now ttl) q false)
  | recv_op d q op fault :
      op <> Shutdown -> op <> Cleanup ->
      write_loop_step ttl fault (mkLoop d (op :: q) false)
        (mkLoop (match apply_op fault d op with Ok d' => d' | Err _ => d end) q false)
  | tick d q now f1 f2 :
      write_loop_step ttl false (mkLoop d q false) (mkLoop (do_cleanup f1 f2 d now ttl) q false).

(** ** Purging *)

Lemma elem_of_table_iter t k v : (k, v) ∈ table_iter t <-> t !! k = Some v.
Proof. unfold table_iter. by rewrite merge_sort_Permutation, elem_of_map_to_list. Qed.

Lemma foldr_delete_lookup (ks : list (list Z)) (t : gmap (list Z) (Z * list Z)) k :
  foldr delete t ks !! k = if decide (k ∈ ks) then None else t !! k.
Proof.
  induction ks as [|k' ks IH]; [by destruct (decide (k ∈ [])) as [H%elem_of_nil|]|]. simpl.
  destruct (decide (k ∈ k' :: ks)) as [Hin|Hin]; rewrite elem_of_cons in Hin.
  - destruct (decide (k' = k)) as [->|Hne]; [by rewrite lookup_delete_eq|].
    rewrite lookup_delete_ne, IH by done. by rewrite decide_True by naive_solver.
  - rewrite lookup_delete_ne, IH by naive_solver. by rewrite decide_False by naive_solver.
Qed.

(** Exactly the selected entries go. *)
Lemma purge_lookup sel t k :
  purge sel t !! k = (v ← t !! k; if sel v.1 then None else Some v).
Proof.
  unfold purge. rewrite foldr_delete_lookup.
  assert (Hk : k ∈ omap (fun kv : list Z * (Z * list Z) => if sel kv.2.1 then Some kv.1 else None) (table_iter t) <->
    exists v, t !! k = Some v /\ sel v.1 = true).
  { rewrite list_elem_of_omap. split.
    - intros ([k' v] & Hin & E). apply elem_of_table_iter in Hin. simpl in E. destruct (sel v.1) eqn:Es; [|done].
      simplify_eq. eauto.
    - intros (v & Hv & Es). exists (k, v). rewrite elem_of_table_iter. simpl. by rewrite Es. }
  destruct (decide (k ∈ _)) as [Hin|Hin]; rewrite Hk in Hin.
  - destruct Hin as (v & -> & Hv). simpl. by rewrite Hv.
  - destruct (t !! k) as [v|]; [|done]. simpl. destruct (sel v.1) eqn:Es; [|done]. destruct Hin. eauto.
Qed.

(** Cleanup of the cache file: a clean-up at time [now] removes exactly the DNS
    entries whose expiry is at or before [now] and the fake-IP entries last seen
    before [now] less the time to live, and leaves the other two tables alone. *)
Theorem cleanup_exact (d : Database) (now ttl : Z) (k : list Z) :
  let d' := do_cleanup false false d now ttl in
  dns_table d' !! k = (v ← dns_table d !! k; if v.1 <=? now then None else Some v) /\
  fakeip_table d' !! k =
    (v ← fakeip_table d !! k; if (0 <? ttl) && (v.1 <? Z.max 0 (now - ttl * 86400)) then None else Some v) /\
  selected_table d' = selected_table d /\ ruleset_table d' = ruleset_table d.
Proof.
  cbv zeta. unfold do_cleanup, purge_stale_fakeip, purge_expired_dns. rewrite Z.gtb_ltb.
  destruct (0 <? ttl); simpl; rewrite ?purge_lookup; split_and!; try done. by destruct (fakeip_table d !! k).
Qed.

(** ** Keys of the DNS table *)

Lemma to_be_bytes_inj n x y :
  0 <= x < 256 ^ Z.of_nat n -> 0 <= y < 256 ^ Z.of_nat n -> to_be_bytes n x = to_be_bytes n y -> x = y.
Proof. intros Hx Hy E. by rewrite <-(from_to_be_bytes_id n x), E, from_to_be_bytes_id. Qed.

Lemma encode_dns_key_inj t1 q1 y1 t2 q2 y2 :
  len t1 < 2 ^ 16 -> len t2 < 2 ^ 16 -> in_width 16 y1 -> in_width 16 y2 ->
  encode_dns_key t1 q1 y1 = encode_dns_key t2 q2 y2 ->
  t1 = t2 /\ to_ascii_lowercase q1 = to_ascii_lowercase q2 /\ y1 = y2.
Proof.
  intros H1 H2 Hy1 Hy2 E. unfold encode_dns_key in E.
  apply app_inj_1 in E as [El E]; [|by rewrite !length_to_be_bytes].
  apply to_be_bytes_inj in El; [|by apply Z.mod_pos_bound|by apply Z.mod_pos_bound].
  unfold as_u16, wrap in El. pose proof (len_nonneg t1). pose proof (len_nonneg t2).
  rewrite !Z.mod_small in El by lia.
  apply app_inj_1 in E as [-> E]; [|unfold len in El; lia]. split; [done|].
  apply app_inj_2 in E as [-> E]; [|by rewrite !length_app, !length_to_be_bytes].
  split; [done|]. apply app_inj_1 in E as [_ E]; [|done]. by apply to_be_bytes_inj in E.
Qed.

(** ** What is stored is found again *)

(** The last value a queue stores under a key, or else the database's. *)
Definition last_ruleset (q : list WriteOp) (tag : str) (cur : option (list Z)) : option (list Z) :=
  fold_left (fun cur op => match op with
    | StoreRuleset t data => if decide (t = tag) then Some data else cur
    | _ => cur end) q cur.

Definition last_selected (q : list WriteOp) (group : str) (cur : option (list Z)) : option (list Z) :=
  fold_left (fun cur op => match op with
    | StoreSelected g sel => if decide (g = group) then Some sel else cur
    | _ => cur end) q cur.

Definition views (s : WriteLoop) (k : str) : option (list Z) * option (list Z) :=
  (last_ruleset (wl_rx s) k (ruleset_table (wl_db s) !! k),
   last_selected (wl_rx s) k (selected_table (wl_db s) !! k)).

Lemma cleanup_tables f1 f2 d now ttl :
  selected_table (do_cleanup f1 f2 d now ttl) = selected_table d /\
  ruleset_table (do_cleanup f1 f2 d now ttl) = ruleset_table d.
Proof. unfold do_cleanup, purge_stale_fakeip, purge_expired_dns. by destruct f1, f2, (ttl >? 0). Qed.

(** Every turn of the loop without a failed transaction keeps the views. *)
Lemma write_loop_views ttl s s' k : Shutdown ∉ wl_rx s ->
  write_loop_step ttl false s s' -> views s' k = views s k /\ Shutdown ∉ wl_rx s'.
Proof.
  intros Hs Hst. remember false as lbl eqn:Hl. destruct Hst as [d q|d q now f1 f2|d q op fault Ho1 Ho2|d q now f1 f2];
    unfold views; cbn [wl_rx wl_db] in *.
  - by destruct Hs; left.
  - destruct (cleanup_tables f1 f2 d now ttl) as [-> ->]. apply not_elem_of_cons in Hs as [_ Hs]. done.
  - subst. apply not_elem_of_cons in Hs as [_ Hs]. split; [|done].
    destruct op as [? ? ?|i ls|? ? ?|g sl|t dt| |]; try done; simpl.
    + by destruct (fakeip_table d !! i) as [[? ?]|].
    + f_equal. unfold last_selected. simpl. f_equal. case_decide as E; [subst; by rewrite lookup_insert_eq|by rewrite lookup_insert_ne].
    + f_equal. unfold last_ruleset. simpl. f_equal. case_decide as E; [subst; by rewrite lookup_insert_eq|by rewrite lookup_insert_ne].
  - by destruct (cleanup_tables f1 f2 d now ttl) as [-> ->].
Qed.

(** C20. Persistence through the write queue: whatever timer ticks are interleaved,
    once the background task has drained the queue without a failed transaction,
    a reader finds for each rule-set tag and each selector group the last value
    queued for it, or else what the database held before. *)
Theorem write_loop_persists (ttl : Z) (d d' : Database) (q : list WriteOp) (k : str) (sd : bool) :
  Shutdown ∉ q ->
  rtc (write_loop_step ttl false) (mkLoop d q false) (mkLoop d' [] false) ->
  load_ruleset_cache false (mkReader d' sd) k = last_ruleset q k (ruleset_table d !! k) /\
  load_selected false (mkReader d' sd) k = last_selected q k (selected_table d !! k).
Proof.
  intros Hs Hrun. assert (Hv : forall s s', rtc (write_loop_step ttl false) s s' -> Shutdown ∉ wl_rx s ->
    views s' k = views s k).
  { induction 1 as [|s s1 s2 H1 _ IH]; intros Hq; [done|].
    destruct (write_loop_views ttl s s1 k Hq H1) as [<- Hq1]. by apply IH. }
  specialize (Hv _ _ Hrun Hs). unfold views in Hv. by injection Hv.
Qed.

Lemma write_loop_persists_witness :
  let q := [StoreRuleset [1] [10]; TouchFakeip [9] 5; StoreRuleset [1] [20]; StoreSelected [1] [7]] in
  exists d', rtc (write_loop_step 7 false) (mkLoop empty_db q false) (mkLoop d' [] false) /\
    load_ruleset_cache false (mkReader d' true) [1] = Some [20] /\
    load_selected false (mkReader d' true) [1] = Some [7].
Proof.
  cbv zeta. eexists. split.
  - eapply rtc_l; [by apply recv_op|]. eapply rtc_l; [by apply recv_op|]. eapply rtc_l; [by apply recv_op|].
    eapply rtc_l; [apply (tick 7 _ _ 100 false false)|]. eapply rtc_l; [by apply recv_op|]. apply rtc_refl.
  - apply (write_loop_persists 7 empty_db _ [StoreRuleset [1] [10]; TouchFakeip [9] 5; StoreRuleset [1] [20]; StoreSelected [1] [7]] [1] true).
    + set_solver.
    + eapply rtc_l; [by apply recv_op|]. eapply rtc_l; [by apply recv_op|]. eapply rtc_l; [by apply recv_op|].
      eapply rtc_l; [apply (tick 7 _ _ 100 false false)|]. eapply rtc_l; [by apply recv_op|]. apply rtc_refl.
Defined.

(** DNS entries of the cache file: a response saved for a transport, name and
    type and then written is read back for exactly that transport and type and
    that name in any letter case; any other key reads what it did before. *)
Theorem dns_cache_isolation (cf : CacheFile) (d : Database) (t1 q1 t2 q2 : str) (y1 y2 expire : Z) (raw : bytes) :
  store_dns cf = true -> rx_alive cf = true -> write_tx cf = [] ->
  len t1 < 2 ^ 16 -> len t2 < 2 ^ 16 -> in_width 16 y1 -> in_width 16 y2 ->
  exists op d', write_tx (save_dns_cache_async cf t1 q1 y1 raw expire) = [op] /\ apply_op false d op = Ok d' /\
    load_dns_cache false (mkReader d' true) t2 q2 y2 =
      if decide (t1 = t2 /\ to_ascii_lowercase q1 = to_ascii_lowercase q2 /\ y1 = y2)
      then Some (raw, expire) else load_dns_cache false (mkReader d true) t2 q2 y2.
Proof.
  intros Hsd Hrx Hq Ht1 Ht2 Hy1 Hy2. unfold save_dns_cache_async, send. rewrite Hsd, Hrx. simpl. rewrite Hq.
  eexists _, _. split; [done|]. split; [done|]. unfold load_dns_cache. simpl.
  case_decide as E.
  - destruct E as (-> & Eq & ->).
    assert (encode_dns_key t2 q2 y2 = encode_dns_key t2 q1 y2) as -> by (unfold encode_dns_key; by rewrite Eq).
    by rewrite lookup_insert_eq.
  - rewrite lookup_insert_ne; [done|]. intros H. by apply encode_dns_key_inj in H.
Qed.

Lemma dns_cache_isolation_witness :
  exists op d', write_tx (save_dns_cache_async (mkCacheFile [] true true true) (lit "up1") (lit "A.com") 1 [1; 2] 99)
    = [op] /\ apply_op false empty_db op = Ok d' /\
    load_dns_cache false (mkReader d' true) (lit "up1") (lit "a.COM") 1 =
      if decide (lit "up1" = lit "up1" /\ to_ascii_lowercase (lit "A.com") = to_ascii_lowercase (lit "a.COM") /\ 1 = 1)
      then Some ([1; 2], 99) else load_dns_cache false (mkReader empty_db true) (lit "up1") (lit "a.COM") 1.
Proof.
  apply (dns_cache_isolation (mkCacheFile [] true true true) empty_db (lit "up1") (lit "A.com") (lit "up1") (lit "a.COM") 1 1 99 [1; 2]);
    first [reflexivity | vm_compute; done].
Defined.

Lemma elem_of_fakeip d ip domain l : load_all_fakeip false (mkReader d true) = Some l ->
  (ip, domain) ∈ l <-> exists k t, fakeip_table d !! k = Some (t, domain) /\ IpAddr_from_str k = Some ip.
Proof.
  intros [= <-]. rewrite list_elem_of_omap. split.
  - intros ([k [t dom]] & Hin & E). apply elem_of_table_iter in Hin. simpl in E.
    destruct (IpAddr_from_str k) as [ip'|] eqn:Ek; [|done]. simplify_eq. eauto.
  - intros (k & t & Hk & E). exists (k, (t, domain)). rewrite elem_of_table_iter. simpl. by rewrite E.
Qed.

(** Fake-IP entries of the cache file: an IPv4 mapping stored while persistence
    is on and then written is among the mappings restored at start-up, and
    touching it later changes neither its domain nor any other mapping. *)
Theorem fakeip_restored (cf : CacheFile) (d : Database) (a t1 t2 : Z) (domain : str) :
  store_fakeip cf = true -> rx_alive cf = true -> write_tx cf = [] -> in_width 32 a ->
  exists op1 op2 d1 d2 l1 l2,
    write_tx (touch_fakeip_entry (store_fakeip_entry cf t1 (V4 a) domain) t2 (V4 a)) = [op1; op2] /\
    apply_op false d op1 = Ok d1 /\ apply_op false d1 op2 = Ok d2 /\
    load_all_fakeip false (mkReader d1 true) = Some l1 /\ load_all_fakeip false (mkReader d2 true) = Some l2 /\
    (V4 a, domain) ∈ l2 /\ forall ip dom, (ip, dom) ∈ l1 <-> (ip, dom) ∈ l2.
Proof.
  intros Hsf Hrx Hq Ha. destruct cf as [tx rx sf sd]. cbn [store_fakeip rx_alive write_tx] in *. subst.
  set (d1 := with_fakeip d (<[show_ipv4 a := (t1, domain)]> (fakeip_table d))).
  set (d2 := with_fakeip d (<[show_ipv4 a := (t2, domain)]> (fakeip_table d))).
  pose proof (fun i dom => elem_of_fakeip d1 i dom _ eq_refl) as H1.
  pose proof (fun i dom => elem_of_fakeip d2 i dom _ eq_refl) as H2.
  eexists _, _, d1, d2, _, _. do 2 (split; [done|]). split.
  { simpl. rewrite lookup_insert_eq. unfold d2, d1, with_fakeip. simpl. by rewrite insert_insert_eq. }
  do 2 (split; [done|]). split.
  - apply H2. exists (show_ipv4 a), t2. simpl. rewrite lookup_insert_eq.
    split; [done|]. by apply IpAddr_v4_roundtrip.
  - intros i dom. rewrite H1, H2. simpl.
    split; intros (k & t & Hk & E); exists k; (destruct (decide (show_ipv4 a = k)) as [<-|Hne];
      [rewrite lookup_insert_eq in *; simplify_eq; eauto|rewrite lookup_insert_ne in * by done; eauto]).
Qed.

Lemma fakeip_restored_witness :
  exists op1 op2 d1 d2 l1 l2,
    write_tx (touch_fakeip_entry (store_fakeip_entry (mkCacheFile [] true true true) 5 (V4 0xC6120001) (lit "a.com")) 9 (V4 0xC6120001))
      = [op1; op2] /\
    apply_op false empty_db op1 = Ok d1 /\ apply_op false d1 op2 = Ok d2 /\
    load_all_fakeip false (mkReader d1 true) = Some l1 /\ load_all_fakeip false (mkReader d2 true) = Some l2 /\
    (V4 0xC6120001, lit "a.com") ∈ l2 /\ forall ip dom, (ip, dom) ∈ l1 <-> (ip, dom) ∈ l2.
Proof.
  apply (fakeip_restored (mkCacheFile [] true true true) empty_db 0xC6120001 5 9 (lit "a.com"));
    first [reflexivity | vm_compute; done].
Defined.
