(* ===== verification/Inbound.v ===== *)
(** * Inbound: targets, connections and the sniffable stream of [src/inbound/mod.rs].

    The network under a [SniffedStream] is the list of bytes still to arrive
    ([inner]) together with an event per poll ([io_event]) that says how many
    of them are ready. *)

From S2P Require Import Prelude RustStr.

Inductive Target : Type :=
  | TDomain (d : str) (p : Z)
  | TSocket (a : SocketAddr).

Definition Target_port (t : Target) : Z :=
  match t with
  | TDomain _ p => p
  | TSocket a => sock_port a
  end.

Definition Target_host (t : Target) : str :=
  match t with
  | TDomain d _ => d
  | TSocket a => show_ip (ip a)
  end.

Definition to_socket_addr_lossy (t : Target) : SocketAddr :=
  match t with
  | TSocket a => a
  | TDomain _ p => {| ip := V4 0; sock_port := p |}
  end.

Definition show_socket_addr (a : SocketAddr) : str :=
  match ip a with
  | V4 v => show_ipv4 v ++ [58] ++ show_uint (sock_port a)
  | V6 v => [91] ++ show_ipv6 v ++ [93; 58] ++ show_uint (sock_port a)
  end.

Definition show_target (t : Target) : str :=
  match t with
  | TDomain d p => d ++ [58] ++ show_uint p
  | TSocket a => show_socket_addr a
  end.

(** ** The stream *)

(** [AtomicI64::fetch_add] wraps. *)
Definition wrap_i64 (z : Z) : Z := (z + 2 ^ 63) mod 2 ^ 64 - 2 ^ 63.

Inductive InnerKind : Type := Tcp | Generic.

Record SniffedStream : Type := mkStream {
  prefix : bytes;
  kind : InnerKind;
  inner : bytes;
  live_down : option Z;
  live_up : option Z
}.

Definition SniffedStream_new (incoming : bytes) : SniffedStream := mkStream [] Tcp incoming None None.
Definition from_generic (incoming : bytes) : SniffedStream := mkStream [] Generic incoming None None.

Definition set_live_counters (s : SniffedStream) (up down : Z) : SniffedStream :=
  mkStream (prefix s) (kind s) (inner s) (Some down) (Some up).

Definition prepend (s : SniffedStream) (data : bytes) : SniffedStream :=
  if len data =? 0 then s
  else if len (prefix s) =? 0 then mkStream data (kind s) (inner s) (live_down s) (live_up s)
  else mkStream (prefix s ++ data) (kind s) (inner s) (live_down s) (live_up s).

(** What the inner stream answers to a poll. *)
Inductive io_event : Type :=
  | IoPending
  | IoReady (n : nat)
  | IoError.

(** [Poll<io::Result<()>>] with the bytes put into the buffer. *)
Inductive poll_result : Type :=
  | Pending
  | ReadyOk (data : bytes)
  | ReadyErr.

Definition bump (c : option Z) (n : Z) : option Z :=
  match c with
  | Some z => Some (wrap_i64 (z + n))
  | None => None
  end.

Definition poll_read (s : SniffedStream) (remaining : nat) (ev : io_event) : poll_result * SniffedStream :=
  if negb (len (prefix s) =? 0) then
    let amt := Nat.min (length (prefix s)) remaining in
    (ReadyOk (take amt (prefix s)),
     mkStream (drop amt (prefix s)) (kind s) (inner s) (bump (live_down s) (Z.of_nat amt)) (live_up s))
  else
    match ev with
    | IoPending => (Pending, s)
    | IoError => (ReadyErr, s)
    | IoReady n =>
        let data := take (Nat.min n remaining) (inner s) in
        let down := if 0 <? len data then bump (live_down s) (len data) else live_down s in
        (ReadyOk data, mkStream (prefix s) (kind s) (drop (Nat.min n remaining) (inner s)) down (live_up s))
    end.

(** [poll_write]: the event is what the inner stream's write returned. *)
Definition poll_write (s : SniffedStream) (ev : io_event) : option (result Z unit) * SniffedStream :=
  match ev with
  | IoPending => (None, s)
  | IoError => (Some (Err tt), s)
  | IoReady n => (Some (Ok (Z.of_nat n)),
                  mkStream (prefix s) (kind s) (inner s) (live_down s) (bump (live_up s) (Z.of_nat n)))
  end.

(** A reader's calls: the room of its buffer and the event of each poll. *)
Fixpoint read_many (s : SniffedStream) (calls : list (nat * io_event)) : bytes * SniffedStream :=
  match calls with
  | [] => ([], s)
  | (room, ev) :: calls =>
      let '(r, s) := poll_read s room ev in
      let '(out, s) := read_many s calls in
      ((match r with ReadyOk d => d | _ => [] end) ++ out, s)
  end.

(** ** Connections and packets, as far as routing reads them *)

Record InboundTcpStream : Type := mkTcp {
  t_stream : SniffedStream;
  t_target : Target;
  t_inbound_tag : str;
  t_sniffed_protocol : option str;
  t_sniffed_domain : option str
}.

Record InboundUdpPacket : Type := mkUdp {
  u_data : bytes;
  u_src : SocketAddr;
  u_target : Target;
  u_inbound_tag : str;
  u_sniffed_protocol : option str;
  u_sniffed_domain : option str
}.

(** ** Reading keeps the byte order *)

(** What the reader has still to see. *)
Definition pending (s : SniffedStream) : bytes := prefix s ++ inner s.

Lemma poll_read_data s room ev r s' : poll_read s room ev = (r, s') ->
  (match r with ReadyOk d => d | _ => [] end) ++ pending s' = pending s.
Proof.
  unfold poll_read, pending. case_if.
  - intros [= <- <-]. simpl. by rewrite app_assoc, take_drop.
  - apply negb_false_iff, Z.eqb_eq in Heqb. assert (prefix s = []) as Hp by (destruct (prefix s); [done|unfold len in Heqb; simpl in Heqb; lia]).
    destruct ev; intros [= <- <-]; simpl; rewrite ?Hp; try done. simpl. by rewrite take_drop.
Qed.

Lemma poll_read_live s room ev r s' c : poll_read s room ev = (r, s') -> live_down s = Some c ->
  exists c', live_down s' = Some c' /\
    wrap_i64 c' = wrap_i64 (c + len (match r with ReadyOk d => d | _ => [] end)).
Proof.
  intros E Hc. unfold poll_read in E.
  assert (Hw : forall z, wrap_i64 (wrap_i64 z) = wrap_i64 z).
  { intros z. unfold wrap_i64. f_equal. replace ((z + 2 ^ 63) mod 2 ^ 64 - 2 ^ 63 + 2 ^ 63) with ((z + 2 ^ 63) mod 2 ^ 64) by lia.
    by rewrite Z.mod_mod. }
  destruct (negb _).
  - injection E as <- <-. simpl. rewrite Hc. simpl. eexists. split; [done|]. rewrite Hw. do 2 f_equal.
    unfold len. rewrite length_take. lia.
  - destruct ev as [|n|]; injection E as <- <-; simpl.
    + exists c. by rewrite Z.add_0_r.
    + rewrite Hc. case_if; simpl; eexists; (split; [done|]); [by rewrite Hw|].
      apply Z.ltb_ge in Heqb. pose proof (len_nonneg (take (Nat.min n room) (inner s))).
      f_equal. lia.
    + exists c. by rewrite Z.add_0_r.
Qed.

(** Sniffed streams: over any sequence of reads, with any buffer sizes, any
    readiness of the network and any failures, the bytes delivered are the peeked
    prefix followed by the network's bytes, in order and without loss, and the
    live download counter grows by exactly their number (modulo 64 bits). *)
Theorem read_many_order (calls : list (nat * io_event)) (s : SniffedStream) (up down : Z) :
  let s0 := set_live_counters s up down in
  let '(out, s') := read_many s0 calls in
  out ++ pending s' = prefix s ++ inner s /\
  exists c, live_down s' = Some c /\ wrap_i64 c = wrap_i64 (down + len out).
Proof.
  cbv zeta. change (prefix s ++ inner s) with (pending (set_live_counters s up down)).
  assert (Hc : live_down (set_live_counters s up down) = Some down) by done.
  generalize dependent (set_live_counters s up down). clear s. revert down.
  induction calls as [|[room ev] calls IH]; intros down s Hc; simpl; [split; [done|]|].
  { exists down. by rewrite Hc, Z.add_0_r. }
  destruct (poll_read s room ev) as [r s1] eqn:E.
  destruct (poll_read_live _ _ _ _ _ _ E Hc) as (c1 & Hc1 & Hw1). apply poll_read_data in E as Hd.
  specialize (IH c1 s1 Hc1). destruct (read_many s1 calls) as [out s2]. destruct IH as (Ho & c2 & Hc2 & Hw2).
  split; [by rewrite <-app_assoc, Ho|]. exists c2. split; [done|]. rewrite Hw2, len_app.
  assert (Hadd : forall a b k, wrap_i64 a = wrap_i64 b -> wrap_i64 (a + k) = wrap_i64 (b + k)).
  { unfold wrap_i64. intros a b k H. assert ((a + 2 ^ 63) mod 2 ^ 64 = (b + 2 ^ 63) mod 2 ^ 64) as H' by lia.
    f_equal. replace (a + k + 2 ^ 63) with ((a + 2 ^ 63) + k) by lia. replace (b + k + 2 ^ 63) with ((b + 2 ^ 63) + k) by lia.
    by rewrite Z.add_mod, H', <-Z.add_mod. }
  rewrite (Hadd _ _ _ Hw1). f_equal. lia.
Qed.
