(* ===== verification/QuicCrypto.v ===== *)
(** * QuicCrypto: the hand-written SHA-256, HMAC, HKDF, AES-128 and GCM of
    [src/app/sniff.rs], which decrypt QUIC Initial packets.

    Fixed-size arrays are lists of that length; every index into one is a
    constant of the source or the loop variable, so [nth] never meets its default.
    The functions are executable and are run on published test vectors. *)

From S2P Require Import Prelude RustStr.

Definition nthz (l : list Z) (i : nat) : Z := nth i l 0.

(** ** SHA-256 *)

Definition add32 (x y : Z) : Z := wrap 32 (x + y).

(** [u32::rotate_right] *)
Definition rotr (x n : Z) : Z := Z.lor (Z.shiftr x n) (wrap 32 (Z.shiftl x (32 - n))).

Definition SHA_K : list Z := [
    0x428A2F98; 0x71374491; 0xB5C0FBCF; 0xE9B5DBA5; 0x3956C25B; 0x59F111F1; 0x923F82A4; 0xAB1C5ED5;
    0xD807AA98; 0x12835B01; 0x243185BE; 0x550C7DC3; 0x72BE5D74; 0x80DEB1FE; 0x9BDC06A7; 0xC19BF174;
    0xE49B69C1; 0xEFBE4786; 0x0FC19DC6; 0x240CA1CC; 0x2DE92C6F; 0x4A7484AA; 0x5CB0A9DC; 0x76F988DA;
    0x983E5152; 0xA831C66D; 0xB00327C8; 0xBF597FC7; 0xC6E00BF3; 0xD5A79147; 0x06CA6351; 0x14292967;
    0x27B70A85; 0x2E1B2138; 0x4D2C6DFC; 0x53380D13; 0x650A7354; 0x766A0ABB; 0x81C2C92E; 0x92722C85;
    0xA2BFE8A1; 0xA81A664B; 0xC24B8B70; 0xC76C51A3; 0xD192E819; 0xD6990624; 0xF40E3585; 0x106AA070;
    0x19A4C116; 0x1E376C08; 0x2748774C; 0x34B0BCB5; 0x391C0CB3; 0x4ED8AA4A; 0x5B9CCA4F; 0x682E6FF3;
    0x748F82EE; 0x78A5636F; 0x84C87814; 0x8CC70208; 0x90BEFFFA; 0xA4506CEB; 0xBEF9A3F7; 0xC67178F2
  ].

Definition SHA_H0 : list Z :=
  [0x6A09E667; 0xBB67AE85; 0x3C6EF372; 0xA54FF53A; 0x510E527F; 0x9B05688C; 0x1F83D9AB; 0x5BE0CD19].

(** [while msg.len() % 64 != 56 { msg.push(0) }]: at most 63 turns. *)
Fixpoint pad_zeros (fuel : nat) (msg : bytes) : bytes :=
  match fuel with
  | O => msg
  | S fuel => if len msg mod 64 =? 56 then msg else pad_zeros fuel (msg ++ [0])
  end.

Definition sha_pad (data : bytes) : bytes :=
  pad_zeros 64 (data ++ [0x80]) ++ to_be_bytes 8 (as_u64 (len data * 8)).

Fixpoint chunks_of (fuel n : nat) (l : bytes) : list bytes :=
  match fuel with
  | O => []
  | S fuel =>
      match l with
      | [] => []
      | _ => take n l :: chunks_of fuel n (drop n l)
      end
  end.

(** [data.chunks(n)] *)
Definition chunks_by (n : nat) (l : bytes) : list bytes := chunks_of (length l) n l.

(** The message schedule; [w] is the list of words computed so far. *)
Definition schedule_word (w : list Z) (i : nat) : Z :=
  let w15 := nthz w (i - 15) in
  let w2 := nthz w (i - 2) in
  let s0 := Z.lxor (Z.lxor (rotr w15 7) (rotr w15 18)) (Z.shiftr w15 3) in
  let s1 := Z.lxor (Z.lxor (rotr w2 17) (rotr w2 19)) (Z.shiftr w2 10) in
  add32 (add32 (add32 (nthz w (i - 16)) s0) (nthz w (i - 7))) s1.

Definition schedule (chunk : bytes) : list Z :=
  let w16 := map (fun i => from_be_bytes (take 4 (drop (i * 4) chunk))) (seq 0 16) in
  fold_left (fun w i => w ++ [schedule_word w i]) (seq 16 48) w16.

Definition sha_round (st : list Z) (kw : Z * Z) : list Z :=
  match st with
  | [a; b; c; d; e; f; g; hh] =>
      let s1 := Z.lxor (Z.lxor (rotr e 6) (rotr e 11)) (rotr e 25) in
      let ch := Z.lxor (Z.land e f) (Z.land (wnot 32 e) g) in
      let temp1 := add32 (add32 (add32 (add32 hh s1) ch) kw.1) kw.2 in
      let s0 := Z.lxor (Z.lxor (rotr a 2) (rotr a 13)) (rotr a 22) in
      let maj := Z.lxor (Z.lxor (Z.land a b) (Z.land a c)) (Z.land b c) in
      let temp2 := add32 s0 maj in
      [add32 temp1 temp2; a; b; c; add32 d temp1; e; f; g]
  | _ => st
  end.

Definition sha_block (h : list Z) (chunk : bytes) : list Z :=
  zip_with add32 h (fold_left sha_round (combine SHA_K (schedule chunk)) h).

Definition sha256 (data : bytes) : bytes :=
  flat_map (to_be_bytes 4) (fold_left sha_block (chunks_by 64 (sha_pad data)) SHA_H0).

Example sha256_abc : sha256 (lit "abc") =
  to_be_bytes 32 0xba7816bf8f01cfea414140de5dae2223b00361a396177a9cb410ff61f20015ad.
Proof. vm_compute. reflexivity. Qed.

Example sha256_two_blocks : sha256 (lit "abcdbcdecdefdefgefghfghighijhijkijkljklmklmnlmnomnopnopq") =
  to_be_bytes 32 0x248d6a61d20638b8e5c026930c3e6039a33ce45964ff2167f6ecedd419db06c1.
Proof. vm_compute. reflexivity. Qed.

(** ** HMAC and HKDF *)

(** [k.resize(n, 0)] *)
Definition resize_zeros (n : nat) (l : bytes) : bytes := take n l ++ repeat 0 (n - length l).

Definition xor_bytes (l1 l2 : bytes) : bytes := zip_with Z.lxor l1 l2.

Definition hmac_sha256 (key data : bytes) : bytes :=
  let k := resize_zeros 64 (if len key >? 64 then sha256 key else key) in
  let ipad := xor_bytes (repeat 0x36 64) k in
  let opad := xor_bytes (repeat 0x5c 64) k in
  sha256 (opad ++ sha256 (ipad ++ data)).

Definition hkdf_extract_sha256 (salt ikm : bytes) : bytes := hmac_sha256 salt ikm.

Definition hkdf_expand_label_sha256 (secret label context : bytes) (n : Z) : option bytes :=
  let prefix := lit "tls13 " in
  let hkdf_label := [as_u8 (Z.shiftr n 8); as_u8 n; as_u8 (len prefix + len label)] ++ prefix ++ label
                    ++ [as_u8 (len context)] ++ context in
  if n >? 32 then None
  else Some (take (Z.to_nat n) (hmac_sha256 secret (hkdf_label ++ [0x01]))).

Example hmac_rfc4231_2 : hmac_sha256 (lit "Jefe") (lit "what do ya want for nothing?") =
  to_be_bytes 32 0x5bdcc146bf60754e6a042426089575c75a003f089d2739839dec58b964ec3843.
Proof. vm_compute. reflexivity. Qed.

(** ** AES-128 *)

Definition SBOX : list Z := [
    0x63; 0x7c; 0x77; 0x7b; 0xf2; 0x6b; 0x6f; 0xc5; 0x30; 0x01; 0x67; 0x2b; 0xfe; 0xd7; 0xab;
    0x76; 0xca; 0x82; 0xc9; 0x7d; 0xfa; 0x59; 0x47; 0xf0; 0xad; 0xd4; 0xa2; 0xaf; 0x9c; 0xa4;
    0x72; 0xc0; 0xb7; 0xfd; 0x93; 0x26; 0x36; 0x3f; 0xf7; 0xcc; 0x34; 0xa5; 0xe5; 0xf1; 0x71;
    0xd8; 0x31; 0x15; 0x04; 0xc7; 0x23; 0xc3; 0x18; 0x96; 0x05; 0x9a; 0x07; 0x12; 0x80; 0xe2;
    0xeb; 0x27; 0xb2; 0x75; 0x09; 0x83; 0x2c; 0x1a; 0x1b; 0x6e; 0x5a; 0xa0; 0x52; 0x3b; 0xd6;
    0xb3; 0x29; 0xe3; 0x2f; 0x84; 0x53; 0xd1; 0x00; 0xed; 0x20; 0xfc; 0xb1; 0x5b; 0x6a; 0xcb;
    0xbe; 0x39; 0x4a; 0x4c; 0x58; 0xcf; 0xd0; 0xef; 0xaa; 0xfb; 0x43; 0x4d; 0x33; 0x85; 0x45;
    0xf9; 0x02; 0x7f; 0x50; 0x3c; 0x9f; 0xa8; 0x51; 0xa3; 0x40; 0x8f; 0x92; 0x9d; 0x38; 0xf5;
    0xbc; 0xb6; 0xda; 0x21; 0x10; 0xff; 0xf3; 0xd2; 0xcd; 0x0c; 0x13; 0xec; 0x5f; 0x97; 0x44;
    0x17; 0xc4; 0xa7; 0x7e; 0x3d; 0x64; 0x5d; 0x19; 0x73; 0x60; 0x81; 0x4f; 0xdc; 0x22; 0x2a;
    0x90; 0x88; 0x46; 0xee; 0xb8; 0x14; 0xde; 0x5e; 0x0b; 0xdb; 0xe0; 0x32; 0x3a; 0x0a; 0x49;
    0x06; 0x24; 0x5c; 0xc2; 0xd3; 0xac; 0x62; 0x91; 0x95; 0xe4; 0x79; 0xe7; 0xc8; 0x37; 0x6d;
    0x8d; 0xd5; 0x4e; 0xa9; 0x6c; 0x56; 0xf4; 0xea; 0x65; 0x7a; 0xae; 0x08; 0xba; 0x78; 0x25;
    0x2e; 0x1c; 0xa6; 0xb4; 0xc6; 0xe8; 0xdd; 0x74; 0x1f; 0x4b; 0xbd; 0x8b; 0x8a; 0x70; 0x3e;
    0xb5; 0x66; 0x48; 0x03; 0xf6; 0x0e; 0x61; 0x35; 0x57; 0xb9; 0x86; 0xc1; 0x1d; 0x9e; 0xe1;
    0xf8; 0x98; 0x11; 0x69; 0xd9; 0x8e; 0x94; 0x9b; 0x1e; 0x87; 0xe9; 0xce; 0x55; 0x28; 0xdf;
    0x8c; 0xa1; 0x89; 0x0d; 0xbf; 0xe6; 0x42; 0x68; 0x41; 0x99; 0x2d; 0x0f; 0xb0; 0x54; 0xbb;
    0x16
  ].

Definition sub (b : Z) : Z := nthz SBOX (Z.to_nat b).

Definition xtime (x : Z) : Z :=
  Z.lxor (wshl 8 x 1) (if negb (Z.land x 0x80 =? 0) then 0x1b else 0).

Definition RCON : list Z := [0x01; 0x02; 0x04; 0x08; 0x10; 0x20; 0x40; 0x80; 0x1b; 0x36].

(** One word of the key schedule; [w] holds the words [0..i]. *)
Definition key_word (w : list bytes) (i : nat) : bytes :=
  let temp := nth (i - 1) w [] in
  let temp :=
    if (i mod 4 =? 0)%nat then
      match map sub (drop 1 temp ++ take 1 temp) with
      | t :: ts => Z.lxor t (nthz RCON (i / 4 - 1)) :: ts
      | [] => []
      end
    else temp in
  xor_bytes (nth (i - 4) w []) temp.

Definition aes128_key_schedule (key : bytes) : list bytes :=
  let w := map (fun i => take 4 (drop (i * 4) key)) (seq 0 4) in
  let w := fold_left (fun w i => w ++ [key_word w i]) (seq 4 40) w in
  map (fun i => nth (i * 4) w [] ++ nth (i * 4 + 1) w [] ++ nth (i * 4 + 2) w [] ++ nth (i * 4 + 3) w []) (seq 0 11).

Definition shift_rows (s : bytes) : bytes :=
  let g := nthz s in
  [g 0; g 5; g 10; g 15; g 4; g 9; g 14; g 3; g 8; g 13; g 2; g 7; g 12; g 1; g 6; g 11]%nat.

Definition mix_column (s0 s1 s2 s3 : Z) : bytes :=
  let x := Z.lxor in
  [x (x (x (x (xtime s0) (xtime s1)) s1) s2) s3;
   x (x (x (x s0 (xtime s1)) (xtime s2)) s2) s3;
   x (x (x (x s0 s1) (xtime s2)) (xtime s3)) s3;
   x (x (x (x (xtime s0) s0) s1) s2) (xtime s3)].

Definition mix_columns (s : bytes) : bytes :=
  flat_map (fun c => mix_column (nthz s (4 * c)) (nthz s (4 * c + 1)) (nthz s (4 * c + 2)) (nthz s (4 * c + 3)))
    (seq 0 4).

Definition aes_round (state : bytes) (r : nat * bytes) : bytes :=
  let state := shift_rows (map sub state) in
  let state := if (r.1 <? 10)%nat then mix_columns state else state in
  xor_bytes state r.2.

Definition aes128_encrypt_block (state : bytes) (round_keys : list bytes) : bytes :=
  fold_left aes_round (combine (seq 1 10) (drop 1 round_keys)) (xor_bytes state (nth 0 round_keys [])).

Definition aes128_ecb_block (key block : bytes) : option bytes :=
  if negb (len key =? 16) || (len block <? 16) then None
  else Some (aes128_encrypt_block (take 16 block) (aes128_key_schedule key)).

Example aes128_fips197 :
  aes128_ecb_block (to_be_bytes 16 0x000102030405060708090a0b0c0d0e0f)
                   (to_be_bytes 16 0x00112233445566778899aabbccddeeff) =
  Some (to_be_bytes 16 0x69c4e0d86a7b0430d8cdb78070b4c55a).
Proof. vm_compute. reflexivity. Qed.

(** ** GCM *)

Definition gcm_inc32 (block : bytes) : bytes :=
  take 12 block ++ to_be_bytes 4 (add32 (from_be_bytes (drop 12 block)) 1).

(** Whole blocks of 16 bytes, the last one filled with zeros. *)
Definition padded_chunks (data : bytes) : list bytes := map (resize_zeros 16) (chunks_by 16 data).

Definition xor16 (a b : bytes) : bytes := xor_bytes a b.

(** [v >> 1] over the sixteen bytes, [carry] the low bit of the byte before. *)
Fixpoint shift_right1 (carry : Z) (v : bytes) : bytes :=
  match v with
  | [] => []
  | b :: v => Z.lor (Z.shiftr b 1) (Z.shiftl carry 7) :: shift_right1 (Z.land b 1) v
  end.

Definition gf_step (x : bytes) (st : bytes * bytes) (i : nat) : bytes * bytes :=
  let '(z, v) := st in
  let z := if Z.land (Z.shiftr (nthz x (i / 8)) (Z.of_nat (7 - i mod 8))) 1 =? 1 then xor16 z v else z in
  let lsb := Z.land (nthz v 15) 1 in
  let v := shift_right1 0 v in
  let v := if lsb =? 1 then match v with b :: v => Z.lxor b 0xE1 :: v | [] => [] end else v in
  (z, v).

Definition gf128_mul (x y : bytes) : bytes := (fold_left (gf_step x) (seq 0 128) (repeat 0 16, y)).1.

(** What the code calls the tag: GHASH of the data and lengths. *)
Definition gcm_tag (h aad ciphertext : bytes) : bytes :=
  let step y chunk := gf128_mul (xor16 y chunk) h in
  let y := fold_left step (padded_chunks aad) (repeat 0 16) in
  let y := fold_left step (padded_chunks ciphertext) y in
  let len_block := to_be_bytes 8 (as_u64 (len aad * 8)) ++ to_be_bytes 8 (as_u64 (len ciphertext * 8)) in
  step y len_block.

(** The counter-mode loop over the blocks of the ciphertext. *)
Fixpoint ctr_blocks (round_keys : list bytes) (counter : bytes) (blocks : list bytes) : bytes :=
  match blocks with
  | [] => []
  | chunk :: blocks =>
      xor_bytes chunk (aes128_encrypt_block counter round_keys)
      ++ ctr_blocks round_keys (gcm_inc32 counter) blocks
  end.

Definition gcm_j0 (nonce : bytes) : bytes := nonce ++ [0; 0; 0; 1].

Definition aes128_gcm_decrypt (key nonce aad ciphertext tag : bytes) : option bytes :=
  if negb (len key =? 16) || negb (len nonce =? 12) || negb (len tag =? 16) then None
  else
    let round_keys := aes128_key_schedule key in
    let h_block := aes128_encrypt_block (repeat 0 16) round_keys in
    let computed_tag := gcm_tag h_block aad ciphertext in
    if decide (computed_tag <> tag) then None
    else Some (ctr_blocks round_keys (gcm_inc32 (gcm_j0 nonce)) (chunks_by 16 ciphertext)).

(** ** QUIC Initial packets *)

Definition QUIC_V1_INITIAL_SALT : bytes := [
    0x38; 0x76; 0x2c; 0xf7; 0xf5; 0x59; 0x34; 0xb3; 0x4d; 0x17; 0x9a; 0xe6; 0xa4; 0xc8; 0x0c;
    0xad; 0xcc; 0xbb; 0x7f; 0x0a
  ].

Definition QUIC_V2_INITIAL_SALT : bytes := [
    0x0d; 0xed; 0xe3; 0xde; 0xf7; 0x00; 0xa6; 0xdb; 0x81; 0x93; 0x81; 0xbe; 0x6e; 0x26; 0x9d;
    0xcb; 0xf9; 0xbd; 0x2e; 0xd9
  ].

Definition QUIC_DRAFT29_INITIAL_SALT : bytes := [
    0xaf; 0xbf; 0xec; 0x28; 0x99; 0x93; 0xd2; 0x4c; 0x9e; 0x97; 0x86; 0xf1; 0x9c; 0x61; 0x11;
    0xe0; 0x43; 0x90; 0xa8; 0x99
  ].

Local Open Scope reflex_scope.

(** [for i in 0..pn_len { pn_bytes[i] = payload[i] ^ mask[1 + i]; }] *)
Fixpoint unmask_pn (n : nat) (i : Z) (payload mask : bytes) : run bytes :=
  match n with
  | O => Ret []
  | S n =>
      p ← idx payload i;
      m ← idx mask (1 + i);
      rest ← unmask_pn n (i + 1) payload mask;
      Ret (Z.lxor p m :: rest)
  end.

Definition decrypt_quic_initial (dcid initial_salt payload : bytes) : run (option bytes) :=
  let initial_secret := hkdf_extract_sha256 initial_salt dcid in
  client_secret ←? Ret (hkdf_expand_label_sha256 initial_secret (lit "client in") [] 32);
  key ←? Ret (hkdf_expand_label_sha256 client_secret (lit "quic key") [] 16);
  iv ←? Ret (hkdf_expand_label_sha256 client_secret (lit "quic iv") [] 12);
  hp ←? Ret (hkdf_expand_label_sha256 client_secret (lit "quic hp") [] 16);
  if len payload <? 20 then Ret None
  else
    sample ← slice payload 4 20;
    mask ←? Ret (aes128_ecb_block hp sample);
    p0 ← idx payload 0;
    m0 ← idx mask 0;
    let first_byte := Z.lxor p0 (Z.land m0 0x0F) in
    let pn_len := Z.land first_byte 0x03 + 1 in
    if len payload <? pn_len then Ret None
    else
      pn_bytes ← unmask_pn (Z.to_nat pn_len) 0 payload mask;
      let pn := from_be_bytes (resize_zeros 4 pn_bytes) in
      let nonce := take 8 iv ++ xor_bytes (drop 8 iv) (to_be_bytes 4 pn) in
      if len payload <? pn_len + 16 then Ret None
      else
        ciphertext ← slice payload pn_len (len payload - 16);
        tag ← slice payload (len payload - 16) (len payload);
        let aad := first_byte :: pn_bytes in
        Ret (aes128_gcm_decrypt key nonce aad ciphertext tag).

(** ** Facts about the primitives *)

Example ghash_test_case_2 :
  gcm_tag (to_be_bytes 16 0x66e94bd4ef8a2c3b884cfa59ca342b2e) [] (to_be_bytes 16 0x0388dace60b6a392f328c2b971b2fe78)
  = to_be_bytes 16 0xf38cbb1ad69223dcc3457ae5b6b0f885.
Proof. vm_compute. reflexivity. Qed.

Example ctr_test_case_2 :
  ctr_blocks (aes128_key_schedule (repeat 0 16)) (gcm_inc32 (gcm_j0 (repeat 0 12)))
    [to_be_bytes 16 0x0388dace60b6a392f328c2b971b2fe78] = repeat 0 16.
Proof. vm_compute. reflexivity. Qed.

Lemma length_xor_bytes l1 l2 : length (xor_bytes l1 l2) = Nat.min (length l1) (length l2).
Proof. apply length_zip_with. Qed.

Lemma length_fold_add32 h chunk : length h = 8%nat -> length (sha_block h chunk) = 8%nat.
Proof.
  intros Hh. unfold sha_block. rewrite length_zip_with, Hh.
  assert (Hr : forall l st, length st = 8%nat -> length (fold_left sha_round l st) = 8%nat).
  { induction l as [|kw l IH]; intros st Hst; simpl; [done|]. apply IH. unfold sha_round.
    do 9 (destruct st as [|? st]; try done). }
  by rewrite Hr.
Qed.

(** SHA-256 digests have 32 bytes. *)
Lemma length_sha256 data : length (sha256 data) = 32%nat.
Proof.
  unfold sha256. assert (H : forall l h, length h = 8%nat -> length (fold_left sha_block l h) = 8%nat).
  { induction l as [|c l IH]; intros h Hh; simpl; [done|]. by apply IH, length_fold_add32. }
  specialize (H (chunks_by 64 (sha_pad data)) SHA_H0 eq_refl).
  generalize dependent (fold_left sha_block (chunks_by 64 (sha_pad data)) SHA_H0). intros h Hh.
  do 9 (destruct h as [|? h]; try done).
Qed.

Lemma length_hkdf secret label context n b : 0 <= n ->
  hkdf_expand_label_sha256 secret label context n = Some b -> len b = n.
Proof.
  intros Hn. unfold hkdf_expand_label_sha256. rewrite Z.gtb_ltb. case_if; [done|]. intros [= <-].
  unfold len. rewrite length_take. unfold hmac_sha256. rewrite length_sha256. reflect_bools. lia.
Qed.

Lemma length_key_schedule key : len key = 16 -> Forall (fun rk => length rk = 16%nat) (aes128_key_schedule key)
  /\ length (aes128_key_schedule key) = 11%nat.
Proof.
  intros Hk. unfold len in Hk. do 17 (destruct key as [|? key]; try (simpl in Hk; lia)).
  split; [repeat constructor|done].
Qed.

Lemma length_aes_block st rks : length st = 16%nat -> Forall (fun rk => length rk = 16%nat) rks ->
  length rks = 11%nat -> length (aes128_encrypt_block st rks) = 16%nat.
Proof.
  intros Hs Hr Hn. unfold aes128_encrypt_block.
  assert (H : forall l s, Forall (fun r : nat * bytes => length r.2 = 16%nat) l -> length s = 16%nat ->
    length (fold_left aes_round l s) = 16%nat).
  { induction l as [|r l IH]; intros s Hl Hls; simpl; [done|]. inversion Hl; subst. apply IH; [done|].
    unfold aes_round. rewrite length_xor_bytes. by case_if; rewrite H1. }
  apply H.
  - apply Forall_forall. intros [n rk] Hin. apply list_elem_of_In, in_combine_r, list_elem_of_In in Hin.
    rewrite Forall_forall in Hr. apply Hr. simpl. destruct rks; [done|]. by right.
  - destruct rks as [|rk rks]; [done|]. inversion Hr; subst. rewrite length_xor_bytes. simpl. by rewrite Hs, H2.
Qed.

Lemma unmask_pn_returns n i payload mask : 0 <= i -> i + Z.of_nat n <= len payload -> 1 + i + Z.of_nat n <= len mask ->
  returns (unmask_pn n i payload mask).
Proof.
  revert i. induction n as [|n IH]; intros i Hi Hp Hm; cbn [unmask_pn]; [apply returns_ret|].
  apply returns_bind; [apply idx_returns; lia|]. intros p _. apply returns_bind; [apply idx_returns; lia|].
  intros m _. apply returns_bind; [apply IH; lia|]. intros; apply returns_ret.
Qed.

Lemma land_3_bound z : 0 <= Z.land z 3 < 4.
Proof. change 3 with (Z.ones 2). rewrite Z.land_ones by lia. apply Z.mod_pos_bound. lia. Qed.

(** Decryption never panics, whatever the packet. *)
Lemma decrypt_quic_initial_returns dcid salt payload : returns (decrypt_quic_initial dcid salt payload).
Proof.
  unfold decrypt_quic_initial. set (secret := hkdf_extract_sha256 salt dcid).
  destruct (hkdf_expand_label_sha256 secret (lit "client in") [] 32) as [cs|]; rewrite bind_Ret; [|apply returns_ret].
  destruct (hkdf_expand_label_sha256 cs (lit "quic key") [] 16) as [key|]; rewrite bind_Ret; [|apply returns_ret].
  destruct (hkdf_expand_label_sha256 cs (lit "quic iv") [] 12) as [iv|]; rewrite bind_Ret; [|apply returns_ret].
  destruct (hkdf_expand_label_sha256 cs (lit "quic hp") [] 16) as [hp|] eqn:Ehp; rewrite bind_Ret; [|apply returns_ret].
  apply length_hkdf in Ehp; [|done].
  case_if; [apply returns_ret|]. reflect_bools. apply returns_bind; [apply slice_returns; lia|]. intros sample Hs.
  destruct (aes128_ecb_block hp sample) as [mask|] eqn:Em; rewrite bind_Ret; [|apply returns_ret].
  assert (Hm : len mask = 16).
  { unfold aes128_ecb_block in Em. destruct (_ || _) eqn:Ho in Em; [done|]. injection Em as <-. reflect_bools.
    destruct (length_key_schedule hp Ehp) as [Hk Hl]. unfold len. rewrite length_aes_block; [done| |done|done].
    rewrite length_take. unfold len in *. lia. }
  apply returns_bind; [apply idx_returns; lia|]. intros p0 _.
  apply returns_bind; [apply idx_returns; lia|]. intros m0 _. cbv zeta.
  set (fb := Z.lxor p0 (Z.land m0 15)). pose proof (land_3_bound fb).
  case_if; [apply returns_ret|]. reflect_bools.
  apply returns_bind; [apply unmask_pn_returns; lia|]. intros pn _.
  case_if; [apply returns_ret|]. reflect_bools.
  apply returns_bind; [apply slice_returns; lia|]. intros ct _.
  apply returns_bind; [apply slice_returns; lia|]. intros tag _. apply returns_ret.
Qed.

(** ** The authentication tag *)

(** The tag of NIST SP 800-38D: GHASH xored with the encrypted initial counter. *)
Definition gcm_standard_tag (key nonce aad ciphertext : bytes) : bytes :=
  let rks := aes128_key_schedule key in
  xor16 (gcm_tag (aes128_encrypt_block (repeat 0 16) rks) aad ciphertext)
        (aes128_encrypt_block (gcm_j0 nonce) rks).

Lemma length_gf128_mul x y : length y = 16%nat -> length (gf128_mul x y) = 16%nat.
Proof.
  intros Hy. unfold gf128_mul.
  assert (Hsr : forall v c, length (shift_right1 c v) = length v) by (induction v; intros; simpl; auto).
  assert (H : forall l st, length st.1 = 16%nat -> length st.2 = 16%nat ->
    length (fold_left (gf_step x) l st).1 = 16%nat).
  { induction l as [|i l IH]; intros [z v] Hz Hv; simpl in *; [done|]. apply IH; simpl.
    - case_if; [unfold xor16; rewrite length_xor_bytes|]; lia.
    - pose proof (Hsr v 0) as Hl. destruct (shift_right1 0 v); [by rewrite Hv in Hl|].
      case_if; simpl in *; lia. }
  apply H; [done|done].
Qed.

Lemma length_gcm_tag h aad ct : length h = 16%nat -> length (gcm_tag h aad ct) = 16%nat.
Proof. intros Hh. unfold gcm_tag. by apply length_gf128_mul. Qed.

Lemma xor_bytes_same g e : length e = length g -> xor_bytes g e = g -> e = repeat 0 (length g).
Proof.
  revert e. induction g as [|x g IH]; intros [|y e] Hl E; simpl in *; try done.
  injection E as E1 E2. f_equal; [|apply IH; [lia|done]].
  apply (f_equal (Z.lxor x)) in E1. by rewrite <-Z.lxor_assoc, !Z.lxor_nilpotent, Z.lxor_0_l in E1.
Qed.

Lemma xor_bytes_differs g e : length e = length g -> e <> repeat 0 (length g) -> g <> xor_bytes g e.
Proof. intros Hl Hne E. apply Hne, xor_bytes_same; [done|]. by symmetry. Qed.

Lemma gcm_tag_mismatch key nonce aad ciphertext tag :
  gcm_tag (aes128_encrypt_block (repeat 0 16) (aes128_key_schedule key)) aad ciphertext <> tag ->
  aes128_gcm_decrypt key nonce aad ciphertext tag = None.
Proof.
  intros Hne. unfold aes128_gcm_decrypt. destruct (_ || _); [reflexivity|]. cbv zeta.
  destruct (decide _) as [H|H]; [reflexivity|]. exfalso. exact (H Hne).
Qed.

(** ** Every primitive produces bytes *)

Lemma xor_byte a b : is_byte a -> is_byte b -> is_byte (Z.lxor a b).
Proof.
  unfold is_byte. intros Ha Hb. replace (Z.lxor a b) with (Z.lxor a b mod 2 ^ 8); [apply Z.mod_pos_bound; lia|].
  apply Z.bits_inj'. intros n Hn. destruct (Z.lt_ge_cases n 8).
  - by rewrite Z.mod_pow2_bits_low.
  - rewrite Z.mod_pow2_bits_high, Z.lxor_spec by lia. rewrite <-(Z.mod_small a (2 ^ 8)), <-(Z.mod_small b (2 ^ 8)) by lia.
    by rewrite !Z.mod_pow2_bits_high by lia.
Qed.

Lemma xor_bytes_ok l1 l2 : bytes_ok l1 -> bytes_ok l2 -> bytes_ok (xor_bytes l1 l2).
Proof.
  intros H1. revert l2. induction H1 as [|a l1 Ha _ IH]; intros [|b l2] H2; try constructor.
  - inversion H2; subst. by apply xor_byte.
  - inversion H2; subst. by apply IH.
Qed.

Lemma nthz_byte l i : bytes_ok l -> is_byte (nthz l i).
Proof.
  intros Hl. unfold nthz. rewrite <-nth_default_eq. unfold nth_default.
  destruct (nth_error l i) eqn:E; [|done]. apply nth_error_In in E. apply list_elem_of_In in E.
  unfold bytes_ok in Hl. rewrite Forall_forall in Hl. by apply Hl.
Qed.

Lemma sub_byte b : is_byte (sub b).
Proof. apply nthz_byte. apply (bool_decide_eq_true_1 (bytes_ok SBOX)). vm_compute. reflexivity. Qed.

Lemma map_sub_ok l : bytes_ok (map sub l).
Proof. apply Forall_forall. intros x (b & -> & _)%list_elem_of_fmap. apply sub_byte. Qed.

Lemma xtime_byte x : is_byte (xtime x).
Proof.
  unfold xtime. apply xor_byte; [apply Z.mod_pos_bound; lia|]. by case_if.
Qed.

Lemma sha256_ok data : bytes_ok (sha256 data).
Proof.
  unfold sha256. apply Forall_forall. intros x Hx. apply list_elem_of_In, in_flat_map in Hx as (w & _ & Hx).
  apply list_elem_of_In in Hx. pose proof (to_be_bytes_ok 4 w) as Hok. unfold bytes_ok in Hok.
  rewrite Forall_forall in Hok. by apply Hok.
Qed.

Lemma hkdf_ok secret label context n b : hkdf_expand_label_sha256 secret label context n = Some b -> bytes_ok b.
Proof. unfold hkdf_expand_label_sha256. case_if; [done|]. intros [= <-]. apply Forall_take, sha256_ok. Qed.

Lemma nth_ok (w : list bytes) i : Forall bytes_ok w -> bytes_ok (nth i w []).
Proof.
  intros Hw. destruct (nth_in_or_default i w []) as [H| ->]; [|constructor].
  rewrite Forall_forall in Hw. by apply Hw, list_elem_of_In.
Qed.

Lemma key_word_ok w i : Forall bytes_ok w -> bytes_ok (key_word w i).
Proof.
  intros Hw. unfold key_word. apply xor_bytes_ok; [by apply nth_ok|]. case_if; [|by apply nth_ok].
  pose proof (map_sub_ok (drop 1 (nth (i - 1) w []) ++ take 1 (nth (i - 1) w []))) as Hm.
  destruct (map sub _) as [|t ts]; [constructor|]. inversion Hm; subst. constructor; [|done]. apply xor_byte; [done|].
  apply nthz_byte. apply (bool_decide_eq_true_1 (bytes_ok RCON)). vm_compute. reflexivity.
Qed.

Lemma key_schedule_ok key : bytes_ok key -> Forall bytes_ok (aes128_key_schedule key).
Proof.
  intros Hk. unfold aes128_key_schedule.
  assert (Hw : forall l w, Forall bytes_ok w -> Forall bytes_ok (fold_left (fun w i => w ++ [key_word w i]) l w)).
  { induction l as [|i l IH]; intros w Hw; simpl; [done|]. apply IH, Forall_app. split; [done|].
    constructor; [by apply key_word_ok|constructor]. }
  assert (H0 : Forall bytes_ok (map (fun i => take 4 (drop (i * 4) key)) (seq 0 4))).
  { apply Forall_forall. intros x (i & -> & _)%list_elem_of_fmap. by apply Forall_take, Forall_drop. }
  specialize (Hw (seq 4 40) _ H0). apply Forall_forall. intros x (i & -> & _)%list_elem_of_fmap.
  repeat (apply Forall_app; split); by apply nth_ok.
Qed.

Lemma aes_round_ok st r : bytes_ok st -> bytes_ok r.2 -> bytes_ok (aes_round st r).
Proof.
  intros Hs Hr. unfold aes_round. apply xor_bytes_ok; [|done].
  assert (Hsh : bytes_ok (shift_rows (map sub st))) by (repeat constructor; apply nthz_byte, map_sub_ok).
  case_if; [|done]. unfold mix_columns.
  apply Forall_forall. intros x Hx. apply list_elem_of_In, in_flat_map in Hx as (c & _ & Hx).
  assert (Hm : forall a b e f, is_byte a -> is_byte b -> is_byte e -> is_byte f -> bytes_ok (mix_column a b e f)).
  { intros. unfold mix_column. do 4 (apply Forall_cons; split; [repeat match goal with |- is_byte (Z.lxor _ _) => apply xor_byte end; first [done | apply xtime_byte]|]).
    by apply Forall_nil. }
  apply list_elem_of_In in Hx. revert Hx. generalize x. apply Forall_forall. by apply Hm; apply nthz_byte.
Qed.

Lemma aes_block_ok st rks : bytes_ok st -> Forall bytes_ok rks -> bytes_ok (aes128_encrypt_block st rks).
Proof.
  intros Hs Hr. unfold aes128_encrypt_block.
  assert (H : forall l s, Forall (fun r : nat * bytes => bytes_ok r.2) l -> bytes_ok s -> bytes_ok (fold_left aes_round l s)).
  { induction l as [|r l IH]; intros s Hl Hs'; simpl; [done|]. inversion Hl; subst. apply IH; [done|]. by apply aes_round_ok. }
  apply H; [|by apply xor_bytes_ok; [|apply nth_ok]].
  apply Forall_forall. intros [n rk] Hin. apply list_elem_of_In, in_combine_r, list_elem_of_In in Hin.
  apply (Forall_drop _ 1) in Hr. rewrite Forall_forall in Hr. by apply Hr.
Qed.

Lemma ctr_blocks_ok rks blocks ctr : Forall bytes_ok rks -> Forall bytes_ok blocks -> bytes_ok ctr ->
  bytes_ok (ctr_blocks rks ctr blocks).
Proof.
  intros Hr Hb. revert ctr. induction Hb as [|c blocks Hc _ IH]; intros ctr Hctr; simpl; [constructor|].
  apply Forall_app. split; [apply xor_bytes_ok; [done|by apply aes_block_ok]|].
  apply IH. unfold gcm_inc32. apply Forall_app. split; [by apply Forall_take|apply to_be_bytes_ok].
Qed.

Lemma chunks_of_ok fuel n l : bytes_ok l -> Forall bytes_ok (chunks_of fuel n l).
Proof.
  revert l. induction fuel as [|fuel IH]; intros l Hl; simpl; [constructor|]. destruct l as [|b l]; [constructor|].
  constructor; [by apply Forall_take|]. by apply IH, Forall_drop.
Qed.

Lemma gcm_decrypt_ok key nonce aad ct tag pt : bytes_ok key -> bytes_ok nonce -> bytes_ok ct ->
  aes128_gcm_decrypt key nonce aad ct tag = Some pt -> bytes_ok pt.
Proof.
  intros Hk Hn Hc. unfold aes128_gcm_decrypt. destruct (_ || _); [done|]. cbv zeta.
  destruct (decide _) as [H|H]; [done|]. intros E. injection E as <-.
  apply ctr_blocks_ok; [by apply key_schedule_ok|by apply chunks_of_ok|].
  unfold gcm_inc32. apply Forall_app. split; [apply Forall_take|apply to_be_bytes_ok].
  unfold gcm_j0. apply Forall_app. split; [done|by repeat constructor].
Qed.

Lemma decrypt_quic_initial_ok dcid salt payload x : bytes_ok payload ->
  decrypt_quic_initial dcid salt payload = Ret (Some x) -> bytes_ok x.
Proof.
  intros Hp. unfold decrypt_quic_initial. set (secret := hkdf_extract_sha256 salt dcid).
  destruct (hkdf_expand_label_sha256 secret (lit "client in") [] 32) as [cs|]; rewrite bind_Ret; [|done].
  destruct (hkdf_expand_label_sha256 cs (lit "quic key") [] 16) as [key|] eqn:Ek; rewrite bind_Ret; [|done].
  destruct (hkdf_expand_label_sha256 cs (lit "quic iv") [] 12) as [iv|] eqn:Ei; rewrite bind_Ret; [|done].
  destruct (hkdf_expand_label_sha256 cs (lit "quic hp") [] 16) as [hp|]; rewrite bind_Ret; [|done].
  apply hkdf_ok in Ek, Ei. destruct (_ <? 20); [done|]. intros H.
  apply bind_Ret_inv in H as (sample & _ & H). destruct (aes128_ecb_block hp sample) as [mask|]; rewrite bind_Ret in H; [|done].
  apply bind_Ret_inv in H as (p0 & _ & H). apply bind_Ret_inv in H as (m0 & _ & H). cbv zeta in H.
  destruct (_ <? _) in H; [done|]. apply bind_Ret_inv in H as (pn & _ & H).
  destruct (_ <? _) in H; [done|]. apply bind_Ret_inv in H as (ct & Hct & H). apply bind_Ret_inv in H as (tag & _ & H).
  injection H as H. apply slice_Ret_inv in Hct as (_ & _ & ->). eapply gcm_decrypt_ok; [exact Ek| | |exact H].
  - apply Forall_app. split; [by apply Forall_take|]. apply xor_bytes_ok; [by apply Forall_drop|apply to_be_bytes_ok].
  - by apply Forall_take, Forall_drop.
Qed.

#[local] Opaque aes128_encrypt_block aes128_key_schedule gcm_tag.

(** C22. GCM tag check: the decryption compares the packet's tag with bare GHASH, so
    a packet authenticated as the GCM standard prescribes is rejected unless the
    encryption of the initial counter block happens to be all zeros. *)
Theorem gcm_rejects_standard_tag (key nonce aad ciphertext : bytes) :
  len key = 16 -> len nonce = 12 ->
  aes128_encrypt_block (gcm_j0 nonce) (aes128_key_schedule key) <> repeat 0 16 ->
  aes128_gcm_decrypt key nonce aad ciphertext (gcm_standard_tag key nonce aad ciphertext) = None.
Proof.
  intros Hk Hn Hne. destruct (length_key_schedule key Hk) as [Hr Hl]. apply gcm_tag_mismatch.
  pose proof (length_aes_block (repeat 0 16) _ eq_refl Hr Hl) as Hh.
  pose proof (length_gcm_tag _ aad ciphertext Hh) as Hg. apply xor_bytes_differs; rewrite Hg; [|exact Hne].
  apply length_aes_block; [|exact Hr|exact Hl]. unfold gcm_j0. rewrite length_app. unfold len in Hn. simpl. lia.
Qed.

(** The NIST test case 2: key and nonce zero, one block of zeros. *)
Lemma gcm_rejects_standard_tag_witness :
  gcm_standard_tag (repeat 0 16) (repeat 0 12) [] (to_be_bytes 16 0x0388dace60b6a392f328c2b971b2fe78)
    = to_be_bytes 16 0xab6e47d42cec13bdf53a67b21257bddf /\
  aes128_gcm_decrypt (repeat 0 16) (repeat 0 12) [] (to_be_bytes 16 0x0388dace60b6a392f328c2b971b2fe78)
    (gcm_standard_tag (repeat 0 16) (repeat 0 12) [] (to_be_bytes 16 0x0388dace60b6a392f328c2b971b2fe78)) = None.
Proof.
  split; [vm_compute; reflexivity|].
  apply (gcm_rejects_standard_tag (repeat 0 16) (repeat 0 12) [] (to_be_bytes 16 0x0388dace60b6a392f328c2b971b2fe78));
    [reflexivity|reflexivity|vm_compute; discriminate].
Defined.
