(* ===== verification/Sniff.v ===== *)
(** * Sniff: protocol detection of [src/app/sniff.rs].

    The parsers index untrusted bytes: they run in [run], where an index out of
    range is [Panic] and an exhausted loop is [Stuck]. *)

From S2P Require Import Prelude RustStr Inbound QuicCrypto.

Local Open Scope reflex_scope.

Record SniffResult : Type := mkSniff { sn_domain : option str; sn_protocol : str }.

Inductive SniffType : Type := STls | SHttp | SQuic | SSsh | SBitTorrent.

#[export] Instance SniffType_eq_dec : EqDecision SniffType.
Proof. solve_decision. Defined.

Definition SniffType_parse (s : str) : option SniffType :=
  let s := to_ascii_lowercase s in
  if decide (s = lit "tls") then Some STls
  else if decide (s = lit "http") then Some SHttp
  else if decide (s = lit "quic") then Some SQuic
  else if decide (s = lit "ssh") then Some SSsh
  else if decide (s = lit "bittorrent" \/ s = lit "bt") then Some SBitTorrent
  else None.

Definition SniffType_defaults : list SniffType := [STls; SHttp; SQuic; SSsh; SBitTorrent].

Definition DEFAULT_TIMEOUT_MS : Z := 300.
Definition PEEK_BUF_SIZE : nat := 2048.

(** [u16::from_be_bytes([buf[p], buf[p + 1]])] *)
Definition be16 (buf : bytes) (p : Z) : run Z :=
  h ← idx buf p; l ← idx buf (p + 1); Ret (h * 256 + l).

(** ** TLS ClientHello *)

(** The protocol list of the ALPN extension; each turn consumes a byte. *)
Fixpoint alpn_loop (fuel : nat) (buf : bytes) (p list_end : Z) (is_h2 : bool) : run bool :=
  if p <? list_end then
    match fuel with
    | O => Stuck
    | S fuel =>
        proto_len ← idx buf p;
        let p := p + 1 in
        if p + proto_len <=? list_end then
          proto ← slice buf p (p + proto_len);
          alpn_loop fuel buf (p + proto_len) list_end (if decide (proto = lit "h2") then true else is_h2)
        else Ret is_h2
    end
  else Ret is_h2.

(** The server-name extension: its first entry, when it is a host name. *)
Definition sni_entry (buf : bytes) (pos ext_data_end : Z) (sni : option str) : run (option str) :=
  let p := pos + 2 in
  if p <? ext_data_end then
    t ← idx buf p;
    if t =? 0x00 then
      let p := p + 1 in
      if p + 2 <=? ext_data_end then
        name_len ← be16 buf p;
        let p := p + 2 in
        if p + name_len <=? ext_data_end then
          name ← slice buf p (p + name_len);
          Ret (if utf8_valid name then Some name else sni)
        else Ret sni
      else Ret sni
    else Ret sni
  else Ret sni.

Definition tls_extension (buf : bytes) (ext_type pos ext_data_end : Z) (st : option str * bool)
    : run (option str * bool) :=
  let '(sni, is_h2) := st in
  if (ext_type =? 0x0000) && (pos + 2 <=? ext_data_end) then
    sni ← sni_entry buf pos ext_data_end sni; Ret (sni, is_h2)
  else if (ext_type =? 0x0010) && (pos + 2 <=? ext_data_end) then
    list_len ← be16 buf pos;
    let p := pos + 2 in
    let list_end := Z.min (p + list_len) ext_data_end in
    is_h2 ← alpn_loop (length buf) buf p list_end is_h2; Ret (sni, is_h2)
  else Ret st.

(** [while pos + 4 <= ext_end]; each turn consumes four bytes. *)
Fixpoint tls_extensions (fuel : nat) (buf : bytes) (pos ext_end : Z) (st : option str * bool)
    : run (option str * bool) :=
  if pos + 4 <=? ext_end then
    match fuel with
    | O => Stuck
    | S fuel =>
        ext_type ← be16 buf pos;
        ext_len ← be16 buf (pos + 2);
        let pos := pos + 4 in
        let ext_data_end := Z.min (pos + ext_len) ext_end in
        st ← tls_extension buf ext_type pos ext_data_end st;
        if bool_decide (is_Some st.1) && st.2 then Ret st
        else tls_extensions fuel buf ext_data_end ext_end st
    end
  else Ret st.

Definition try_tls (buf : bytes) : run (option SniffResult) :=
  if len buf <? 43 then Ret None
  else
    b0 ← idx buf 0; b1 ← idx buf 1; b5 ← idx buf 5;
    if negb (b0 =? 0x16) || negb (b1 =? 0x03) then Ret None
    else if negb (b5 =? 0x01) then Ret None
    else
      let pos := 5 + 4 + 2 + 32 in
      if len buf <=? pos then Ret None
      else
        sid_len ← idx buf pos;
        let pos := pos + (1 + sid_len) in
        if pos + 2 >? len buf then Ret None
        else
          cs_len ← be16 buf pos;
          let pos := pos + (2 + cs_len) in
          if pos + 1 >? len buf then Ret None
          else
            cm_len ← idx buf pos;
            let pos := pos + (1 + cm_len) in
            if pos + 2 >? len buf then Ret None
            else
              ext_total ← be16 buf pos;
              let pos := pos + 2 in
              let ext_end := Z.min (pos + ext_total) (len buf) in
              st ← tls_extensions (length buf) buf pos ext_end (None, false);
              Ret (match st.1 with
                   | Some domain => Some (mkSniff (Some domain) (if st.2 : bool then lit "h2" else lit "tls"))
                   | None => None
                   end).

(** ** HTTP Host header *)

Fixpoint http_lines (ls : list str) : option SniffResult :=
  match ls with
  | [] => None
  | line :: ls =>
      if len line =? 0 then None
      else
        match strip_prefix (lit "host:") (to_ascii_lowercase line) with
        | Some rest =>
            let host := trim rest in
            let domain := match split_on 58 host with d :: _ => d | [] => host end in
            if negb (len domain =? 0) then Some (mkSniff (Some domain) (lit "http")) else http_lines ls
        | None => http_lines ls
        end
  end.

Definition try_http_host (buf : bytes) : option SniffResult :=
  if utf8_valid buf then
    match find_str [13; 10] buf with
    | None => None
    | Some first_line_end =>
        let first_line := take first_line_end buf in
        if contains (lit " HTTP/") first_line then http_lines (drop 1 (split_str [13; 10] buf)) else None
    end
  else None.

(** ** QUIC *)

(** A QUIC variable-length integer: its value and its length. *)
Definition read_varint (buf : bytes) (pos : Z) : run (option (Z * Z)) :=
  if len buf <=? pos then Ret None
  else
    first ← idx buf pos;
    let prefix := wshr (Z.land first 0xC0) 6 in
    if prefix =? 0 then Ret (Some (Z.land first 0x3F, 1))
    else if prefix =? 1 then
      if pos + 2 >? len buf then Ret None
      else rest ← slice buf (pos + 1) (pos + 2); Ret (Some (from_be_bytes (Z.land first 0x3F :: rest), 2))
    else if prefix =? 2 then
      if pos + 4 >? len buf then Ret None
      else rest ← slice buf (pos + 1) (pos + 4); Ret (Some (from_be_bytes (Z.land first 0x3F :: rest), 4))
    else if prefix =? 3 then
      if pos + 8 >? len buf then Ret None
      else rest ← slice buf (pos + 1) (pos + 8); Ret (Some (from_be_bytes (Z.land first 0x3F :: rest), 8))
    else Ret None.

(** The frame loop: each turn consumes at least the frame type. *)
Fixpoint quic_frames (fuel : nat) (data : bytes) (pos : Z) : run (option SniffResult) :=
  if pos <? len data then
    match fuel with
    | O => Stuck
    | S fuel =>
        frame_type ← idx data pos;
        let pos := pos + 1 in
        if frame_type =? 0x00 then quic_frames fuel data pos
        else if frame_type =? 0x06 then
          offset ←? read_varint data pos;
          let pos := pos + offset.2 in
          fl ←? read_varint data pos;
          let pos := pos + fl.2 in
          let end_ := Z.min (pos + fl.1) (len data) in
          crypto_data ← slice data pos end_;
          hs ← (if 4 <=? len crypto_data then t ← idx crypto_data 0; Ret (t =? 0x01) else Ret false);
          if hs : bool then try_tls ([0x16; 0x03; 0x03; 0x00; 0x00] ++ crypto_data)
          else quic_frames fuel data end_
        else Ret None
    end
  else Ret None.

Definition extract_sni_from_quic_crypto (data : bytes) : run (option SniffResult) :=
  quic_frames (length data) data 0.

Definition quic_version (version : Z) : option (bool * bytes) :=
  if version =? 0x00000001 then Some (false, QUIC_V1_INITIAL_SALT)
  else if version =? 0x6b3343cf then Some (true, QUIC_V2_INITIAL_SALT)
  else if version =? 0xff00001d then Some (false, QUIC_DRAFT29_INITIAL_SALT)
  else None.

Definition try_quic (buf : bytes) : run (option SniffResult) :=
  if len buf <? 6 then Ret None
  else
    b0 ← idx buf 0;
    if negb (Z.land b0 0xC0 =? 0xC0) then Ret None
    else
      v ← slice buf 1 5;
      match quic_version (from_be_bytes v) with
      | None => Ret None
      | Some (is_v2, initial_salt) =>
          let ptype := wshr (Z.land b0 0x30) 4 in
          let expected_ptype := if is_v2 : bool then 0x01 else 0x00 in
          if negb (ptype =? expected_ptype) then Ret None
          else
            let pos := 5 in
            dcid_len ← idx buf pos;
            let pos := pos + 1 in
            if (dcid_len =? 0) || (dcid_len >? 20) then Ret None
            else if pos + dcid_len >? len buf then Ret None
            else
              dcid ← slice buf pos (pos + dcid_len);
              let pos := pos + dcid_len in
              if len buf <=? pos then Ret None
              else
                scid_len ← idx buf pos;
                let pos := pos + 1 in
                if pos + scid_len >? len buf then Ret None
                else
                  let pos := pos + scid_len in
                  token ←? read_varint buf pos;
                  let pos := pos + (token.2 + token.1) in
                  pkt ←? read_varint buf pos;
                  let pos := pos + pkt.2 in
                  if len buf <=? pos then Ret None
                  else
                    encrypted_payload ← slice buf pos (Z.min (pos + pkt.1) (len buf));
                    if len encrypted_payload =? 0 then Ret None
                    else
                      plaintext ←? decrypt_quic_initial dcid initial_salt encrypted_payload;
                      extract_sni_from_quic_crypto plaintext
      end.

(** ** SSH, BitTorrent, DNS *)

Definition try_ssh (buf : bytes) : option SniffResult :=
  if starts_with (lit "SSH-") buf then Some (mkSniff None (lit "ssh")) else None.

Definition BT_HEADER : bytes := 19 :: lit "BitTorrent protocol".

Definition try_bittorrent (buf : bytes) : option SniffResult :=
  if (len BT_HEADER <=? len buf) && starts_with BT_HEADER buf
  then Some (mkSniff None (lit "bittorrent")) else None.

Definition is_dns_wire (buf : bytes) : run bool :=
  if len buf <? 12 then Ret false
  else
    flags ← idx buf 2;
    let opcode := Z.land (wshr flags 3) 0x0f in
    if opcode >? 5 then Ret false
    else qdcount ← be16 buf 4; Ret (qdcount >? 0).

(** ** The sniffers *)

Definition try_type (t : SniffType) (data : bytes) : run (option SniffResult) :=
  match t with
  | STls => try_tls data
  | SHttp => Ret (try_http_host data)
  | SQuic => try_quic data
  | SSsh => Ret (try_ssh data)
  | SBitTorrent => Ret (try_bittorrent data)
  end.

Fixpoint try_types (types : list SniffType) (data : bytes) : run (option SniffResult) :=
  match types with
  | [] => Ret None
  | t :: types =>
      r ← try_type t data;
      match r with Some r => Ret (Some r) | None => try_types types data end
  end.

Definition effective_types (sniff_types : list SniffType) : list SniffType :=
  match sniff_types with [] => SniffType_defaults | _ => sniff_types end.

(** What [tokio::time::timeout(timeout, stream.read(&mut buf))] came to: the
    polls that were pending are over, and either the deadline passed or the
    stream answered. *)
Inductive sniff_read : Type :=
  | TimedOut
  | Answered (ev : io_event).

Definition sniff (stream : SniffedStream) (read : sniff_read) (sniff_types : list SniffType)
    : run (option SniffResult) * SniffedStream :=
  match read with
  | TimedOut => (Ret None, stream)
  | Answered ev =>
      match poll_read stream PEEK_BUF_SIZE ev with
      | (ReadyOk data, stream) =>
          if len data >? 0
          then (try_types (effective_types sniff_types) data, prepend stream data)
          else (Ret None, stream)
      | (_, stream) => (Ret None, stream)
      end
  end.

(** The packet sniffer knows QUIC only. *)
Fixpoint sniff_packet_types (types : list SniffType) (data : bytes) : run (option SniffResult) :=
  match types with
  | [] => Ret None
  | SQuic :: types =>
      r ← try_quic data;
      match r with Some r => Ret (Some r) | None => sniff_packet_types types data end
  | _ :: types => sniff_packet_types types data
  end.

Definition sniff_packet (data : bytes) (sniff_types : list SniffType) : run (option SniffResult) :=
  sniff_packet_types (effective_types sniff_types) data.

Example http_host_example :
  try_http_host (lit "GET / HTTP/1.1" ++ [13; 10] ++ lit "HOST: Example.COM:8080" ++ [13; 10; 13; 10])
  = Some (mkSniff (Some (lit "example.com")) (lit "http")).
Proof. vm_compute. reflexivity. Qed.

(** ** No input makes a sniffer panic or loop *)

Lemma be16_spec buf p : bytes_ok buf -> 0 <= p -> p + 2 <= len buf ->
  exists v, be16 buf p = Ret v /\ 0 <= v < 65536.
Proof.
  intros Hb Hp Hl. unfold be16. destruct (idx_inrange buf p) as (h & _ & Eh); [lia|].
  destruct (idx_inrange buf (p + 1)) as (l & _ & El); [lia|].
  pose proof (idx_byte _ _ _ Hb Eh) as H1. pose proof (idx_byte _ _ _ Hb El) as H2. unfold is_byte in *.
  rewrite Eh, bind_Ret, El, bind_Ret. eexists. split; [done|]. lia.
Qed.

Lemma idx_spec buf p : bytes_ok buf -> 0 <= p < len buf -> exists v, idx buf p = Ret v /\ 0 <= v < 256.
Proof.
  intros Hb Hp. destruct (idx_inrange buf p Hp) as (v & _ & E). exists v. split; [done|]. exact (idx_byte _ _ _ Hb E).
Qed.

(** One step of a parser: a read in range, a test, or the end. *)
Ltac safe_read :=
  match goal with
  | Hb : bytes_ok ?buf |- returns (mbind _ (idx ?buf ?p)) =>
      let v := fresh "v" in let E := fresh "E" in let H := fresh "H" in
      destruct (idx_spec buf p Hb) as (v & E & H); [lia|rewrite E, bind_Ret; clear E]
  | Hb : bytes_ok ?buf |- returns (mbind _ (be16 ?buf ?p)) =>
      let v := fresh "v" in let E := fresh "E" in let H := fresh "H" in
      destruct (be16_spec buf p Hb) as (v & E & H); [lia|lia|rewrite E, bind_Ret; clear E]
  | |- returns (mbind _ (slice ?buf ?i ?j)) =>
      let x := fresh "x" in let H := fresh "H" in
      apply returns_bind; [apply slice_returns; lia|intros x H]
  end.

Ltac safe_step := cbv zeta; first [apply returns_ret | safe_read | case_if; reflect_bools].

Lemma alpn_loop_returns fuel buf p list_end is_h2 : bytes_ok buf -> 0 <= p -> list_end <= len buf ->
  list_end - p <= Z.of_nat fuel -> returns (alpn_loop fuel buf p list_end is_h2).
Proof.
  intros Hb. revert p is_h2. induction fuel as [|fuel IH]; intros p h2 Hp Hl Hf; cbn [alpn_loop]; repeat safe_step; try lia.
  all: apply IH; lia.
Qed.

Lemma sni_entry_returns buf pos e sni : bytes_ok buf -> 0 <= pos -> e <= len buf -> returns (sni_entry buf pos e sni).
Proof. intros Hb Hp He. unfold sni_entry. repeat safe_step. Qed.

Lemma tls_extension_returns buf t pos e st : bytes_ok buf -> 0 <= pos -> e <= len buf ->
  returns (tls_extension buf t pos e st).
Proof.
  intros Hb Hp He. destruct st as [sni h2]. unfold tls_extension. case_if; [|case_if].
  - apply returns_bind; [by apply sni_entry_returns|]. intros; apply returns_ret.
  - reflect_bools. safe_step. apply returns_bind; [apply alpn_loop_returns; try done; unfold len in *; lia|].
    intros; apply returns_ret.
  - apply returns_ret.
Qed.

Lemma tls_extensions_returns fuel buf pos e st : bytes_ok buf -> 0 <= pos -> e <= len buf ->
  e - pos <= Z.of_nat fuel -> returns (tls_extensions fuel buf pos e st).
Proof.
  intros Hb. revert pos st. induction fuel as [|fuel IH]; intros pos st Hp He Hf; cbn [tls_extensions];
    (case_if; [|apply returns_ret]); reflect_bools; [lia|].
  do 2 safe_read. cbv zeta. apply returns_bind; [apply tls_extension_returns; [done|lia|lia]|].
  intros st' _. case_if; [apply returns_ret|]. apply IH; lia.
Qed.

Lemma try_tls_returns buf : bytes_ok buf -> returns (try_tls buf).
Proof.
  intros Hb. unfold try_tls. repeat safe_step.
  apply returns_bind; [apply tls_extensions_returns; try done; unfold len in *; lia|]. intros; apply returns_ret.
Qed.

Lemma from_be_bytes_nonneg l : bytes_ok l -> 0 <= from_be_bytes l.
Proof. intros Hl. unfold from_be_bytes. apply from_le_bytes_bound. by apply Forall_rev. Qed.

Lemma land_63_byte b : 0 <= b < 256 -> is_byte (Z.land b 0x3F).
Proof. intros Hb. unfold is_byte. change 0x3F with (Z.ones 6). rewrite Z.land_ones by lia. pose proof (Z.mod_pos_bound b (2 ^ 6) ltac:(lia)). lia. Qed.

Lemma slice_bytes l i j s : bytes_ok l -> slice l i j = Ret s -> bytes_ok s.
Proof. intros Hl (_ & _ & ->)%slice_Ret_inv. by apply Forall_take, Forall_drop. Qed.

(** A successful varint is non-negative and lies within the buffer. *)
Lemma read_varint_spec buf pos : bytes_ok buf -> 0 <= pos ->
  exists r, read_varint buf pos = Ret r /\
    forall v n, r = Some (v, n) -> 0 <= v /\ 1 <= n /\ pos + n <= len buf.
Proof.
  intros Hb Hp. unfold read_varint. case_if; [by exists None|]. reflect_bools.
  destruct (idx_spec buf pos Hb) as (f & E & Hf); [lia|]. rewrite E, bind_Ret. cbv zeta.
  pose proof (land_63_byte f Hf) as Hl. pose proof Hl as Hl'. unfold is_byte in Hl'.
  case_if; [eexists; split; [done|]; intros v n [= <- <-]; lia|].
  do 3 (case_if; [case_if; [by exists None|]; reflect_bools;
    match goal with |- context [slice buf ?i ?j] =>
      destruct (slice_returns buf i j) as [s Hs]; [lia|lia|rewrite Hs, bind_Ret] end;
    eexists; split; [done|]; intros v n [= <- <-];
    split; [apply from_be_bytes_nonneg; constructor; [done|by eapply slice_bytes]|lia]|]).
  by exists None.
Qed.

(** [let (v, n) = read_varint(buf, pos)?;] in a parser that returns. *)
Lemma varint_bind_returns {A} buf pos (k : Z * Z -> run (option A)) : bytes_ok buf -> 0 <= pos ->
  (forall v n, 0 <= v -> 1 <= n -> pos + n <= len buf -> returns (k (v, n))) ->
  returns (x ←? read_varint buf pos; k x).
Proof.
  intros Hb Hp Hk. destruct (read_varint_spec buf pos Hb Hp) as (r & -> & Hr). rewrite bind_Ret.
  destruct r as [[v n]|]; [|apply returns_ret]. destruct (Hr v n eq_refl) as (? & ? & ?). by apply Hk.
Qed.

Lemma quic_frames_returns fuel data pos : bytes_ok data -> 0 <= pos -> len data - pos <= Z.of_nat fuel ->
  returns (quic_frames fuel data pos).
Proof.
  intros Hb. revert pos. induction fuel as [|fuel IH]; intros pos Hp Hf; cbn [quic_frames];
    (case_if; [|apply returns_ret]); reflect_bools; [lia|].
  safe_read. cbv zeta. case_if; [apply IH; lia|]. case_if; [|apply returns_ret].
  apply varint_bind_returns; [done|lia|]. intros o n Ho Hn Hl. cbn [snd].
  apply varint_bind_returns; [done|lia|]. intros fl n2 Hfl Hn2 Hl2. cbn [fst snd].
  destruct (slice_returns data (pos + 1 + n + n2) (Z.min (pos + 1 + n + n2 + fl) (len data))) as [cd Hcd]; [lia|lia|].
  rewrite Hcd, bind_Ret. pose proof (slice_bytes _ _ _ _ Hb Hcd) as Hcb.
  apply returns_bind.
  - case_if; [|apply returns_ret]. reflect_bools. safe_read. apply returns_ret.
  - intros hs _. destruct hs; [|apply IH; lia]. apply try_tls_returns. by repeat (constructor; [done|]).
Qed.

Lemma try_quic_returns buf : bytes_ok buf -> returns (try_quic buf).
Proof.
  intros Hb. unfold try_quic. case_if; [apply returns_ret|]. reflect_bools. safe_read. case_if; [apply returns_ret|].
  safe_read. destruct (quic_version _) as [[is_v2 salt]|]; [|apply returns_ret]. cbv zeta.
  set (ept := if is_v2 then 1 else 0). case_if; [apply returns_ret|].
  safe_read. case_if; [apply returns_ret|]. case_if; [apply returns_ret|]. reflect_bools.
  apply returns_bind; [apply slice_returns; lia|]. intros dcid _.
  case_if; [apply returns_ret|]. reflect_bools. safe_read. case_if; [apply returns_ret|]. reflect_bools.
  apply varint_bind_returns; [done|lia|]. intros tk n1 ? ? ?. cbn [fst snd].
  apply varint_bind_returns; [done|lia|]. intros pk n2 ? ? ?. cbn [fst snd].
  case_if; [apply returns_ret|]. reflect_bools.
  match goal with |- context [slice buf ?i (Z.min ?j ?k)] =>
    destruct (slice_returns buf i (Z.min j k)) as [pl Hpl]; [lia|lia|rewrite Hpl, bind_Ret] end.
  case_if; [apply returns_ret|]. destruct (decrypt_quic_initial_returns dcid salt pl) as [pt Ept]. rewrite Ept, bind_Ret.
  destruct pt as [pt|]; [|apply returns_ret]. apply quic_frames_returns; [|done|unfold len; lia].
  eapply decrypt_quic_initial_ok; [|exact Ept]. by eapply slice_bytes.
Qed.

Lemma try_types_returns types data : bytes_ok data -> returns (try_types types data).
Proof.
  intros Hb. induction types as [|t types IH]; [apply returns_ret|]. cbn [try_types]. apply returns_bind.
  - destruct t; cbn [try_type]; first [apply returns_ret | by apply try_tls_returns | by apply try_quic_returns].
  - intros [r|] _; [apply returns_ret|done].
Qed.

Lemma sniff_packet_returns types data : bytes_ok data -> returns (sniff_packet_types types data).
Proof.
  intros Hb. induction types as [|t types IH]; [apply returns_ret|]. destruct t; cbn [sniff_packet_types]; try done.
  apply returns_bind; [by apply try_quic_returns|]. intros [r|] _; [apply returns_ret|done].
Qed.

Lemma poll_read_ok stream room ev d s : bytes_ok (prefix stream) -> bytes_ok (inner stream) ->
  poll_read stream room ev = (ReadyOk d, s) -> bytes_ok d.
Proof. intros Hp Hi. unfold poll_read. case_if; [|destruct ev]; intros [= <- <-]; by apply Forall_take. Qed.

Lemma sniff_returns stream read types : bytes_ok (prefix stream) -> bytes_ok (inner stream) -> returns (sniff stream read types).1.
Proof.
  intros Hp Hi. destruct read as [|ev]; [apply returns_ret|]. unfold sniff.
  destruct (poll_read stream PEEK_BUF_SIZE ev) as [[|d|] s] eqn:E; try apply returns_ret.
  case_if; [|apply returns_ret]. apply try_types_returns. exact (poll_read_ok _ _ _ _ _ Hp Hi E).
Qed.

Lemma is_dns_wire_returns packet : bytes_ok packet -> returns (is_dns_wire packet).
Proof. intros Hk. unfold is_dns_wire. repeat safe_step. Qed.

(** What sniffing leaves in the prefix is bytes. *)
Lemma sniff_prefix_ok stream read types : bytes_ok (prefix stream) -> bytes_ok (inner stream) -> bytes_ok (prefix (sniff stream read types).2).
Proof.
  intros Hp Hi. destruct read as [|ev]; [done|]. unfold sniff.
  assert (Hs : forall r s, poll_read stream PEEK_BUF_SIZE ev = (r, s) -> bytes_ok (prefix s)).
  { unfold poll_read. intros r s. case_if; [|destruct ev]; intros [= <- <-]; cbn; [by apply Forall_drop|done..]. }
  destruct (poll_read stream PEEK_BUF_SIZE ev) as [[|d|] s] eqn:E; try exact (Hs _ _ eq_refl).
  pose proof (Hs _ _ eq_refl) as Hs'. case_if; [|exact Hs']. cbn [snd]. unfold prepend.
  pose proof (poll_read_ok _ _ _ _ _ Hp Hi E) as Hd. case_if; [done|]. case_if; [done|]. cbn. by apply bytes_ok_app.
Qed.

(** Sniffing is total: whatever bytes a client sends and whichever detectors are
    enabled, sniffing a connection or a packet returns a verdict; no index is out
    of range and every parsing loop ends. *)
Theorem sniff_total (stream : SniffedStream) (read : sniff_read) (types : list SniffType) (packet : bytes) :
  bytes_ok (prefix stream) -> bytes_ok (inner stream) -> bytes_ok packet ->
  (exists r, (sniff stream read types).1 = Ret r) /\
  (exists r, sniff_packet packet types = Ret r) /\ (exists r, is_dns_wire packet = Ret r).
Proof.
  intros Hp Hi Hk. split; [by apply sniff_returns|]. split; [by apply sniff_packet_returns|by apply is_dns_wire_returns].
Qed.

Lemma sniff_total_witness :
  (exists r, (sniff (SniffedStream_new (lit "SSH-2.0-x")) (Answered (IoReady 9)) []).1 = Ret r) /\
  (exists r, sniff_packet [0xC0; 0; 0; 0; 1; 8] [] = Ret r) /\ (exists r, is_dns_wire [0xC0; 0; 0; 0; 1; 8] = Ret r).
Proof.
  apply (sniff_total (SniffedStream_new (lit "SSH-2.0-x")) (Answered (IoReady 9)) [] [0xC0; 0; 0; 0; 1; 8]);
    apply (bool_decide_eq_true_1 (bytes_ok _)); vm_compute; reflexivity.
Defined.

(** ** Sniffing gives back what it read *)

Lemma prepend_pending s d : len (prefix s) = 0 -> pending (prepend s d) = d ++ inner s.
Proof.
  intros Hp. unfold prepend, pending. assert (prefix s = []) as E by (destruct (prefix s); [done|unfold len in Hp; simpl in Hp; lia]).
  case_if; [reflect_bools; destruct d; [by rewrite E|unfold len in *; simpl in *; lia]|]. by rewrite Hp.
Qed.

Lemma sniff_pending (stream : SniffedStream) (read : sniff_read) (types : list SniffType) :
  len (prefix stream) <= 2048 ->
  pending (sniff stream read types).2 = pending stream.
Proof.
  intros Hl. destruct read as [|ev]; [done|]. unfold sniff.
  destruct (poll_read stream PEEK_BUF_SIZE ev) as [r s] eqn:E. pose proof (poll_read_data _ _ _ _ _ E) as Hd.
  destruct r as [|d|]; try done. cbv beta iota in Hd. case_if.
  - cbn [snd]. assert (Hs : prefix s = []).
    { unfold poll_read in E. destruct (negb (len (prefix stream) =? 0)) eqn:Hn.
      - injection E as <- <-. cbn [prefix]. apply drop_ge. unfold len, PEEK_BUF_SIZE in *. lia.
      - reflect_bools. destruct ev; [discriminate E| |discriminate E]. injection E as _ <-. cbn [prefix].
        destruct (prefix stream); [done|unfold len in *; simpl in *; lia]. }
    rewrite prepend_pending by (by rewrite Hs). unfold pending in Hd. by rewrite Hs in Hd.
  - cbn [snd]. rewrite Z.gtb_ltb in Heqb. apply Z.ltb_ge in Heqb. destruct d; [done|unfold len in Heqb; simpl in Heqb; lia].
Qed.

(** Sniffing is non-destructive: if the bytes already peeked fit the sniff buffer
    of 2048 bytes, then whatever the network does during the sniff, the relayed
    connection still delivers exactly the client's bytes in order. *)
Theorem sniff_preserves_stream (stream : SniffedStream) (read : sniff_read) (types : list SniffType) :
  len (prefix stream) <= 2048 ->
  pending (sniff stream read types).2 = pending stream.
Proof. apply sniff_pending. Qed.

Lemma sniff_preserves_stream_witness :
  pending (sniff (mkStream (lit "GET ") Tcp (lit "/ HTTP/1.1") None None) (Answered IoPending) []).2
  = pending (mkStream (lit "GET ") Tcp (lit "/ HTTP/1.1") None None).
Proof. apply sniff_preserves_stream. vm_compute. discriminate. Defined.

(** Sniffing a long prefix reorders the stream: with more than 2048 peeked bytes
    the part read is put back after the part left, so the relayed connection
    delivers the prefix rotated by 2048 bytes. *)
Theorem sniff_reorders_long_prefix (stream : SniffedStream) (ev : io_event) (types : list SniffType) :
  2048 < len (prefix stream) ->
  pending (sniff stream (Answered ev) types).2
  = drop 2048 (prefix stream) ++ take 2048 (prefix stream) ++ inner stream.
Proof.
  intros Hl. unfold sniff, poll_read. replace (negb (len (prefix stream) =? 0)) with true by bool_lia.
  replace (Nat.min (length (prefix stream)) PEEK_BUF_SIZE) with 2048%nat by (unfold len, PEEK_BUF_SIZE in *; lia).
  assert (Ht : len (take 2048 (prefix stream)) = 2048) by (unfold len in *; rewrite length_take; lia).
  assert (Hd : 0 < len (drop 2048 (prefix stream))) by (unfold len in *; rewrite length_drop; lia).
  rewrite Ht. cbn [snd]. unfold prepend. rewrite Ht. cbn [prefix inner].
  replace (len (drop 2048 (prefix stream)) =? 0) with false by bool_lia. unfold pending. cbn -[take drop].
  by rewrite <-app_assoc.
Qed.

Lemma sniff_reorders_long_prefix_witness :
  pending (sniff (mkStream (repeat 1 2048 ++ [2; 3]) Tcp [4] None None) (Answered IoPending) []).2
  = [2; 3] ++ repeat 1 2048 ++ [4].
Proof.
  etransitivity; [apply (sniff_reorders_long_prefix (mkStream (repeat 1 2048 ++ [2; 3]) Tcp [4] None None) IoPending [])|].
  - vm_compute. reflexivity.
  - vm_compute. reflexivity.
Defined.

(** ** What the TLS detector reads from a well-formed ClientHello *)

Inductive tls_ext : Type :=
  | ESni (host : str)
  | EAlpn (protos : list bytes)
  | EOther (t : Z) (d : bytes).

Definition enc_protos (protos : list bytes) : bytes := flat_map (fun p => len p :: p) protos.

Definition ext_type (e : tls_ext) : Z := match e with ESni _ => 0 | EAlpn _ => 16 | EOther t _ => t end.

Definition ext_data (e : tls_ext) : bytes :=
  match e with
  | ESni host => to_be_bytes 2 (len host + 3) ++ [0] ++ to_be_bytes 2 (len host) ++ host
  | EAlpn protos => to_be_bytes 2 (len (enc_protos protos)) ++ enc_protos protos
  | EOther _ d => d
  end.

Definition enc_ext (e : tls_ext) : bytes :=
  to_be_bytes 2 (ext_type e) ++ to_be_bytes 2 (len (ext_data e)) ++ ext_data e.

Definition enc_exts (es : list tls_ext) : bytes := flat_map enc_ext es.

Definition ext_ok (e : tls_ext) : Prop :=
  len (ext_data e) < 65536 /\
  match e with
  | ESni host => utf8_valid host = true
  | EAlpn protos => Forall (fun p => len p < 256) protos
  | EOther t _ => 0 < t < 65536 /\ t <> 16
  end.

(** A TLS record with a ClientHello: record header, handshake header, version,
    random, session id, cipher suites, compression methods, extensions. *)
Definition client_hello (ver rlen hlen cver random sid suites comps tail : bytes) (es : list tls_ext) : bytes :=
  [0x16; 0x03] ++ ver ++ rlen ++ [0x01] ++ hlen ++ cver ++ random ++ (len sid :: sid)
  ++ (to_be_bytes 2 (len suites) ++ suites) ++ (len comps :: comps)
  ++ to_be_bytes 2 (len (enc_exts es)) ++ enc_exts es ++ tail.

(** The detector's view: the last host name and whether [h2] is offered, up to the
    extension after which both are known. *)
Definition ext_effect (st : option str * bool) (e : tls_ext) : option str * bool :=
  match e with
  | ESni host => (Some host, st.2)
  | EAlpn protos => (st.1, st.2 || bool_decide (lit "h2" ∈ protos))
  | EOther _ _ => st
  end.

Fixpoint hello_view (st : option str * bool) (es : list tls_ext) : option str * bool :=
  match es with
  | [] => st
  | e :: es =>
      let st := ext_effect st e in
      if bool_decide (is_Some st.1) && st.2 then st else hello_view st es
  end.

Lemma be16_app pre n post : 0 <= n < 65536 -> be16 (pre ++ to_be_bytes 2 n ++ post) (len pre) = Ret n.
Proof.
  intros Hn. unfold be16. assert (E : to_be_bytes 2 n = [n / 256; n mod 256]).
  { unfold to_be_bytes. simpl. rewrite (Z.mod_small (n / 256)); [done|]. split; [apply Z.div_pos; lia|apply Z.div_lt_upper_bound; lia]. }
  rewrite E. simpl app. rewrite (idx_mid pre (n / 256) (n mod 256 :: post) (len pre) eq_refl), bind_Ret.
  replace (pre ++ n / 256 :: n mod 256 :: post) with ((pre ++ [n / 256]) ++ n mod 256 :: post) by (by rewrite <-app_assoc).
  rewrite idx_mid by (rewrite len_app; done). rewrite bind_Ret. f_equal. pose proof (Z.div_mod n 256). lia.
Qed.

(** The same at a position given by its value, in a buffer given by its parts. *)
Lemma be16_at buf pre n post p : buf = pre ++ to_be_bytes 2 n ++ post -> p = len pre -> 0 <= n < 65536 ->
  be16 buf p = Ret n.
Proof. intros -> ->. apply be16_app. Qed.

Lemma idx_at (buf pre : bytes) x post p : buf = pre ++ x :: post -> p = len pre -> idx buf p = Ret x.
Proof. intros -> ->. by apply idx_mid. Qed.

Lemma slice_at (buf pre x post : bytes) p q : buf = pre ++ x ++ post -> p = len pre -> q = p + len x ->
  slice buf p q = Ret x.
Proof. intros -> -> ->. by apply slice_app_mid. Qed.

Lemma alpn_loop_spec protos pre post fuel h2 p e :
  Forall (fun q => len q < 256) protos -> p = len pre -> e = p + len (enc_protos protos) ->
  len (enc_protos protos) <= Z.of_nat fuel ->
  alpn_loop fuel (pre ++ enc_protos protos ++ post) p e h2 = Ret (h2 || bool_decide (lit "h2" ∈ protos)).
Proof.
  intros Hp. revert pre fuel h2 p e. induction Hp as [|q protos Hq Hp IH]; intros pre fuel h2 p e Ep Ee Hf.
  - destruct fuel; cbn [alpn_loop]; rewrite Ee; change (len (enc_protos [])) with 0;
      rewrite (proj2 (Z.ltb_ge _ _)) by lia; by rewrite orb_false_r.
  - change (enc_protos (q :: protos)) with (len q :: q ++ enc_protos protos) in *.
    rewrite len_cons, len_app in *. pose proof (len_nonneg q). pose proof (len_nonneg (enc_protos protos)).
    destruct fuel as [|fuel]; [lia|]. cbn [alpn_loop]. rewrite (proj2 (Z.ltb_lt p e)) by lia.
    rewrite (idx_at _ pre (len q) ((q ++ enc_protos protos) ++ post)); [|done|done]. rewrite bind_Ret.
    rewrite (proj2 (Z.leb_le (p + 1 + len q) e)) by lia.
    rewrite (slice_at _ (pre ++ [len q]) q (enc_protos protos ++ post)); [|app_eq|rewrite len_app; change (len [len q]) with 1; lia|done].
    rewrite bind_Ret.
    replace (pre ++ (len q :: q ++ enc_protos protos) ++ post) with ((pre ++ len q :: q) ++ enc_protos protos ++ post)
      by app_eq.
    rewrite IH; [|rewrite len_app, len_cons; lia|lia|lia]. f_equal.
    destruct (decide (q = lit "h2")) as [->|Hne].
    + rewrite (bool_decide_eq_true_2 (lit "h2" ∈ lit "h2" :: protos)) by (by left). by destruct h2.
    + f_equal. apply bool_decide_ext. rewrite elem_of_cons. naive_solver.
Qed.

Lemma len_be2 n : len (to_be_bytes 2 n) = 2.
Proof. by rewrite len_to_be_bytes. Qed.

Lemma len_sing (b : Z) : len [b] = 1.
Proof. done. Qed.

Ltac hello_len := rewrite ?len_app, ?len_be2, ?len_sing, ?len_cons in *; try lia.

Lemma sni_entry_spec host pre post sni : len host + 5 < 65536 -> utf8_valid host = true ->
  sni_entry (pre ++ ext_data (ESni host) ++ post) (len pre) (len pre + len (ext_data (ESni host))) sni = Ret (Some host).
Proof.
  intros Hl Hu. pose proof (len_nonneg host). unfold sni_entry. cbn [ext_data].
  assert (E : len (to_be_bytes 2 (len host + 3) ++ [0] ++ to_be_bytes 2 (len host) ++ host) = 5 + len host) by hello_len.
  rewrite E. rewrite (proj2 (Z.ltb_lt _ _)) by lia.
  set (hd := pre ++ to_be_bytes 2 (len host + 3)). assert (Hhd : len hd = len pre + 2) by (unfold hd; hello_len).
  rewrite (idx_at _ hd 0 ((to_be_bytes 2 (len host) ++ host) ++ post)); [|unfold hd; app_eq|lia].
  rewrite bind_Ret. rewrite Z.eqb_refl. rewrite (proj2 (Z.leb_le _ _)) by lia.
  rewrite (be16_at _ (hd ++ [0]) (len host) (host ++ post)); [|unfold hd; app_eq|hello_len|lia].
  rewrite bind_Ret. rewrite (proj2 (Z.leb_le _ _)) by lia.
  rewrite (slice_at _ (hd ++ [0] ++ to_be_bytes 2 (len host)) host post); [|unfold hd; app_eq|hello_len|lia].
  by rewrite bind_Ret, Hu.
Qed.

Lemma tls_extension_spec e pre post st : ext_ok e ->
  tls_extension (pre ++ ext_data e ++ post) (ext_type e) (len pre) (len pre + len (ext_data e)) st = Ret (ext_effect st e).
Proof.
  intros [Hl He]. destruct st as [sni h2]. unfold tls_extension. destruct e as [host|protos|t d]; cbn [ext_type ext_effect fst snd].
  - assert (E : len (ext_data (ESni host)) = 5 + len host) by (cbn [ext_data]; hello_len). pose proof (len_nonneg host).
    rewrite Z.eqb_refl, (proj2 (Z.leb_le _ _)) by lia. cbn [andb]. by rewrite sni_entry_spec, bind_Ret by (done || lia).
  - assert (E : len (ext_data (EAlpn protos)) = 2 + len (enc_protos protos)) by (cbn [ext_data]; hello_len).
    pose proof (len_nonneg (enc_protos protos)). cbn [Z.eqb Pos.eqb andb]. rewrite (proj2 (Z.leb_le _ _)) by lia.
    rewrite (be16_at _ pre (len (enc_protos protos)) (enc_protos protos ++ post)); [|cbn [ext_data]; app_eq|done|lia].
    rewrite bind_Ret. cbv zeta. rewrite E.
    replace (pre ++ ext_data (EAlpn protos) ++ post)
      with ((pre ++ to_be_bytes 2 (len (enc_protos protos))) ++ enc_protos protos ++ post) by (cbn [ext_data]; app_eq).
    rewrite alpn_loop_spec; [by rewrite bind_Ret|done|hello_len|lia|unfold len; rewrite !length_app; lia].
  - destruct He as [Ht Hne]. by rewrite !(proj2 (Z.eqb_neq t _)) by lia.
Qed.

Lemma tls_extensions_spec es pre post fuel st p e :
  Forall ext_ok es -> p = len pre -> e = p + len (enc_exts es) -> len (enc_exts es) <= Z.of_nat fuel ->
  tls_extensions fuel (pre ++ enc_exts es ++ post) p e st = Ret (hello_view st es).
Proof.
  intros Hes. revert pre fuel st p e. induction Hes as [|x es Hx Hes IH]; intros pre fuel st p e Ep Ee Hf.
  - destruct fuel; cbn [tls_extensions]; rewrite Ee; change (len (enc_exts [])) with 0;
      by rewrite (proj2 (Z.leb_gt _ _)) by lia.
  - change (enc_exts (x :: es)) with (enc_ext x ++ enc_exts es) in *. unfold enc_ext in *.
    pose proof (len_nonneg (ext_data x)). pose proof (len_nonneg (enc_exts es)). hello_len.
    destruct fuel as [|fuel]; [lia|]. cbn [tls_extensions hello_view]. rewrite (proj2 (Z.leb_le _ _)) by lia.
    assert (Ht : 0 <= ext_type x < 65536) by (destruct Hx as [_ Hx]; destruct x; simpl; lia).
    assert (Hd : len (ext_data x) < 65536) by apply Hx.
    rewrite (be16_at _ pre (ext_type x) ((to_be_bytes 2 (len (ext_data x)) ++ ext_data x) ++ enc_exts es ++ post) p); [|app_eq|done|done].
    rewrite bind_Ret.
    rewrite (be16_at _ (pre ++ to_be_bytes 2 (ext_type x)) (len (ext_data x)) (ext_data x ++ enc_exts es ++ post)); [|app_eq|hello_len|lia].
    rewrite bind_Ret. cbv zeta. replace (Z.min (p + 4 + len (ext_data x)) e) with (p + 4 + len (ext_data x)) by lia.
    set (hd := pre ++ to_be_bytes 2 (ext_type x) ++ to_be_bytes 2 (len (ext_data x))).
    assert (Hhd : len hd = p + 4) by (unfold hd; hello_len). rewrite <-Hhd.
    replace (pre ++ ((to_be_bytes 2 (ext_type x) ++ to_be_bytes 2 (len (ext_data x)) ++ ext_data x) ++ enc_exts es) ++ post)
      with (hd ++ ext_data x ++ enc_exts es ++ post) by (unfold hd; app_eq).
    rewrite tls_extension_spec, bind_Ret by done. case_if; [done|].
    rewrite (app_assoc hd (ext_data x)). apply IH; hello_len.
Qed.

(** C19. TLS detection: on any TLS record holding a well-formed ClientHello, whatever
    its session id, cipher suites, compression methods and other extensions, the
    detector reports the server name it carries, as ["h2"] when ALPN offers HTTP/2
    and ["tls"] otherwise, and reports nothing when it carries none. *)
Theorem try_tls_client_hello (ver rlen hlen cver random sid suites comps tail : bytes) (es : list tls_ext) :
  len ver = 1 -> len rlen = 2 -> len hlen = 3 -> len cver = 2 -> len random = 32 ->
  len sid < 256 -> len suites < 65536 -> len comps < 256 -> len (enc_exts es) < 65536 -> Forall ext_ok es ->
  try_tls (client_hello ver rlen hlen cver random sid suites comps tail es) =
  Ret (let '(sni, is_h2) := hello_view (None, false) es in
       match sni with
       | Some host => Some (mkSniff (Some host) (if is_h2 : bool then lit "h2" else lit "tls"))
       | None => None
       end).
Proof.
  intros Hv Hrl Hhl Hcv Hr Hsid Hcs Hcm Hes Hok. unfold try_tls, client_hello.
  set (exts := enc_exts es) in *.
  set (p1 := [0x16; 0x03] ++ ver ++ rlen ++ [0x01] ++ hlen ++ cver ++ random).
  assert (Hp1 : len p1 = 43) by (unfold p1; change [0x16; 0x03] with ([0x16] ++ [0x03]); hello_len).
  set (buf := [0x16; 0x03] ++ _).
  assert (Hb : buf = p1 ++ (len sid :: sid) ++ (to_be_bytes 2 (len suites) ++ suites) ++ (len comps :: comps)
    ++ to_be_bytes 2 (len exts) ++ exts ++ tail) by (unfold buf, p1; app_eq).
  pose proof (len_nonneg sid). pose proof (len_nonneg suites). pose proof (len_nonneg comps).
  pose proof (len_nonneg exts). pose proof (len_nonneg tail).
  assert (Hlen : len buf = 43 + (1 + len sid) + (2 + len suites) + (1 + len comps) + 2 + len exts + len tail)
    by (rewrite Hb; hello_len).
  rewrite (proj2 (Z.ltb_ge (len buf) 43)) by lia.
  assert (B0 : buf = [] ++ 0x16 :: drop 1 buf) by done. assert (B1 : buf = [0x16] ++ 0x03 :: drop 2 buf) by done.
  assert (B5 : buf = ([0x16; 0x03] ++ ver ++ rlen) ++ 0x01 :: drop 6 buf).
  { unfold buf. unfold len in Hv, Hrl. destruct ver as [|v [|]]; simpl in Hv; try lia.
    destruct rlen as [|r0 [|r1 [|]]]; simpl in Hrl; try lia. done. }
  rewrite (idx_at _ _ _ _ 0 B0 eq_refl), bind_Ret, (idx_at _ _ _ _ 1 B1 eq_refl), bind_Ret.
  rewrite (idx_at _ _ _ _ 5 B5), bind_Ret; [|change [0x16; 0x03] with ([0x16] ++ [0x03]); hello_len].
  clear B0 B1 B5. cbn [Z.eqb Pos.eqb negb orb]. change (5 + 4 + 2 + 32) with 43. rewrite (proj2 (Z.leb_gt _ _)) by lia.
  rewrite (idx_at buf p1 (len sid) (sid ++ (to_be_bytes 2 (len suites) ++ suites) ++ (len comps :: comps)
    ++ to_be_bytes 2 (len exts) ++ exts ++ tail) 43), bind_Ret; [|rewrite Hb; app_eq|done].
  set (p2 := p1 ++ len sid :: sid). assert (Hp2 : len p2 = 43 + (1 + len sid)) by (unfold p2; hello_len).
  rewrite Z.gtb_ltb, (proj2 (Z.ltb_ge _ _)) by lia.
  rewrite (be16_at buf p2 (len suites) (suites ++ (len comps :: comps) ++ to_be_bytes 2 (len exts) ++ exts ++ tail)),
    bind_Ret; [|rewrite Hb; unfold p2; app_eq|done|lia].
  set (p3 := p2 ++ to_be_bytes 2 (len suites) ++ suites).
  assert (Hp3 : len p3 = 43 + (1 + len sid) + (2 + len suites)) by (unfold p3; hello_len).
  rewrite Z.gtb_ltb, (proj2 (Z.ltb_ge _ _)) by lia.
  rewrite (idx_at buf p3 (len comps) (comps ++ to_be_bytes 2 (len exts) ++ exts ++ tail)), bind_Ret;
    [|rewrite Hb; unfold p3, p2; app_eq|done].
  set (p4 := p3 ++ len comps :: comps).
  assert (Hp4 : len p4 = 43 + (1 + len sid) + (2 + len suites) + (1 + len comps)) by (unfold p4; hello_len).
  rewrite Z.gtb_ltb, (proj2 (Z.ltb_ge _ _)) by lia.
  rewrite (be16_at buf p4 (len exts) (exts ++ tail)), bind_Ret; [|rewrite Hb; unfold p4, p3, p2; app_eq|done|lia].
  rewrite <-Hp4, Z.min_l by lia. replace buf with ((p4 ++ to_be_bytes 2 (len exts)) ++ exts ++ tail) at 2
    by (rewrite Hb; unfold p4, p3, p2; app_eq).
  unfold exts at 2. rewrite tls_extensions_spec; [|done|hello_len|done|unfold len in *; fold exts; lia].
  rewrite bind_Ret. by destruct (hello_view (None, false) es).
Qed.

Lemma try_tls_client_hello_witness :
  try_tls (client_hello [1] [0; 0] [0; 0; 0] [3; 3] (repeat 7 32) [] [0x13; 1] [0] []
             [EOther 43 [2; 3; 4]; ESni (lit "example.com"); EAlpn [lit "h2"; lit "http/1.1"]])
  = Ret (Some (mkSniff (Some (lit "example.com")) (lit "h2"))).
Proof.
  etransitivity.
  - apply (try_tls_client_hello [1] [0; 0] [0; 0; 0] [3; 3] (repeat 7 32) [] [0x13; 1] [0] []
             [EOther 43 [2; 3; 4]; ESni (lit "example.com"); EAlpn [lit "h2"; lit "http/1.1"]]);
      try (vm_compute; reflexivity). repeat constructor; vm_compute; done.
  - reflexivity.
Defined.
