(* ===== verification/Router.v ===== *)
(** * Router: [src/router/mod.rs], [src/config/route.rs] and
    [src/app/ruleset_registry.rs].

    Routing decisions are pure; loading rule sets reads files, the cache file and
    the network, which are the operations of [HostIO] on a [world].  The
    Unicode [str::to_lowercase] is a parameter. *)

From S2P Require Import Prelude RustStr Extern Format Trie IpMatch Compiler Loader Matcher MatchSafe CacheFile Inbound QuicCrypto Sniff.

Local Open Scope reflex_scope.

(** ** Configuration *)

Inductive NetworkFilter : Type := FTcp | FUdp.
Inductive NetworkKind : Type := KTcp | KUdp.
Inductive RuleSetType : Type := Local_ | Remote.

#[export] Instance RuleSetType_eq_dec : EqDecision RuleSetType.
Proof. solve_decision. Defined.

Record PortFilter : Type := mkPort { pf_start : Z; pf_end : Z }.

Definition PortFilter_contains (pf : PortFilter) (port : Z) : bool :=
  (pf_start pf <=? port) && (port <=? pf_end pf).

(** The JSON forms of a port filter. *)
Inductive port_json : Type :=
  | JNum (v : Z)
  | JStr (s : str).

Definition PortFilter_deserialize (j : port_json) : result PortFilter str :=
  match j with
  | JNum v =>
      if v >? 65535 then Err (lit "port " ++ show_uint v ++ lit " out of range")
      else Ok (mkPort (as_u16 v) (as_u16 v))
  | JStr v =>
      match split_once 45 v with
      | Some (s, e) =>
          start ←! ok_or (parse_uint u16_max (trim s)) (lit "invalid port");
          last ←! ok_or (parse_uint u16_max (trim e)) (lit "invalid port");
          if start >? last then Err (lit "invalid range: " ++ v) else Ok (mkPort start last)
      | None => p ←! ok_or (parse_uint u16_max (trim v)) (lit "invalid port"); Ok (mkPort p p)
      end
  end.

Definition PortFilter_serialize (pf : PortFilter) : port_json :=
  if pf_start pf =? pf_end pf then JNum (pf_start pf)
  else JStr (show_uint (pf_start pf) ++ [45] ++ show_uint (pf_end pf)).

Record RouteRuleConfig : Type := mkRule {
  inbound : list str;
  network : option NetworkFilter;
  ruleset : list str;
  domain : list str;
  domain_suffix : list str;
  domain_keyword : list str;
  ip_cidr : list str;
  port : list PortFilter;
  port_range : list str;
  sniff_on : bool;
  sniff_timeout_ms : Z;
  sniff_type : list str;
  sniff_override_destination : bool;
  protocol : list str;
  resolve : bool;
  resolve_server : option str;
  hijack_dns : bool;
  outbound : str
}.

Definition nonempty {A} (l : list A) : bool := match l with [] => false | _ => true end.

Definition has_conditions (r : RouteRuleConfig) : bool :=
  nonempty (inbound r) || bool_decide (is_Some (network r)) || nonempty (protocol r) || nonempty (ruleset r)
  || nonempty (domain r) || nonempty (domain_suffix r) || nonempty (domain_keyword r) || nonempty (ip_cidr r)
  || nonempty (port r) || nonempty (port_range r).

Record RuleSetRef : Type := mkRef {
  rs_tag : str;
  rs_type : RuleSetType;
  rs_path : option str;
  rs_url : option str;
  rs_download_detour : option str
}.

Record RouteConfig : Type := mkRouteConfig {
  rules_cfg : list RouteRuleConfig;
  final : str;
  rule_set : list RuleSetRef;
  resolve_dns : bool
}.

(** ** Actions, errors, environment *)

Inductive RouteAction : Type :=
  | Outbound (tag : str)
  | DnsOut
  | Sniff (timeout_ms : Z) (override_destination : bool) (sniff_types : list SniffType)
  | Resolve (server : option str).

Definition is_sniff (a : RouteAction) : bool := match a with Sniff _ _ _ => true | _ => false end.
Definition is_resolve (a : RouteAction) : bool := match a with Resolve _ => true | _ => false end.

(** The [anyhow] errors, by their message and arguments. *)
Inductive RouterError : Type :=
  | RulesetNotFound (tag : str)
  | BareHijackDns (rule : Z)
  | PathRequired (tag : str)
  | UrlRequired (tag : str)
  | ReadFailed (tag path e : str)
  | DownloadFailed (tag url e : str)
  | BodyFailed (tag url e : str)
  | CacheDirFailed (tag path e : str)
  | CacheWriteFailed (tag path e : str)
  | NotRemote (tag : str)
  | MissingUrl (tag : str)
  | RuleSetErr (tag : option str) (e : RuleSetError).

(** The operating system and the HTTP client. *)
Class HostIO : Type := {
  world : Type;
  path_exists : world -> str -> bool;
  path_parent : str -> option str;
  fs_read : world -> str -> result bytes str;
  fs_create_dir_all : world -> str -> result unit str * world;
  fs_write : world -> str -> bytes -> result unit str * world;
  (** [ureq::get(url).call()], then [read_to_end] *)
  http_get : world -> str -> result (result bytes str) str * world;
  now_ms : world -> Z
}.

Class UnicodeLib : Type := {
  to_lowercase : str -> str;
  to_lowercase_ascii : forall s, Forall (fun b => 0 <= b < 128) s -> to_lowercase s = to_ascii_lowercase s
}.

Section Router.
Context {FST : FstLib} {RX : RegexLib} {IO : HostIO} {UL : UnicodeLib}.

Record CompiledRule : Type := mkCompiledRule {
  cr_inbound_tags : list str;
  cr_network : option NetworkFilter;
  cr_protocols : list str;
  cr_rulesets : list RuleSet;
  cr_addr_rs : option RuleSet;
  cr_port_rs : option RuleSet;
  cr_action : RouteAction;
  cr_rule_display : str * str
}.

Definition to_action (outbound : str) : RouteAction :=
  if decide (outbound = lit "dns-out") then DnsOut else Outbound outbound.

(** [for tag in &rule.ruleset { rulesets.get(tag)...? }] *)
Definition lookup_rulesets (tags : list str) (rulesets : gmap (list Z) RuleSet) : result (list RuleSet) RouterError :=
  map_result (fun tag => ok_or (rulesets !! tag) (RulesetNotFound tag)) tags.

Definition addr_lines (r : RouteRuleConfig) : list str :=
  map (fun d => lit "domain: " ++ d) (domain r)
  ++ map (fun d => lit "domain-suffix: " ++ d) (domain_suffix r)
  ++ map (fun d => lit "domain-keyword: " ++ d) (domain_keyword r)
  ++ map (fun c => if contains_char 58 c then lit "ip-cidr6: " ++ c else lit "ip-cidr: " ++ c) (ip_cidr r).

Definition port_line (p : PortFilter) : str :=
  if pf_start p =? pf_end p then lit "port: " ++ show_uint (pf_start p)
  else lit "port: " ++ show_uint (pf_start p) ++ [45] ++ show_uint (pf_end p).

Definition port_lines (r : RouteRuleConfig) : list str :=
  map port_line (port r) ++ map (fun p => lit "port: " ++ p) (port_range r).

(** [if lines.is_empty() { None } else { Some(RuleSet::from_text(&lines.join("\n"))?) }] *)
Definition inline_ruleset (lines : list str) : run (result (option RuleSet) RouterError) :=
  match lines with
  | [] => Ret (Ok None)
  | _ => res ← RuleSet_from_text (join [10] lines);
         Ret (rs ←! map_err (RuleSetErr None) res; Ok (Some rs))
  end.

Definition rule_action (r : RouteRuleConfig) : RouteAction :=
  if sniff_on r then
    Sniff (sniff_timeout_ms r) (sniff_override_destination r) (omap SniffType_parse (sniff_type r))
  else if resolve r then Resolve (resolve_server r)
  else if hijack_dns r then DnsOut
  else to_action (outbound r).

Definition show_network (n : NetworkFilter) : str :=
  to_ascii_lowercase (match n with FTcp => lit "Tcp" | FUdp => lit "Udp" end).

Definition rule_display (r : RouteRuleConfig) : str * str :=
  if nonempty (ruleset r) then (lit "rule-set", join [44] (ruleset r))
  else if nonempty (domain r) then (lit "DOMAIN", join [44] (domain r))
  else if nonempty (domain_suffix r) then (lit "DOMAIN-SUFFIX", join [44] (domain_suffix r))
  else if nonempty (domain_keyword r) then (lit "DOMAIN-KEYWORD", join [44] (domain_keyword r))
  else if nonempty (ip_cidr r) then (lit "IP-CIDR", join [44] (ip_cidr r))
  else match network r with
  | Some n => (lit "NETWORK", show_network n)
  | None =>
      if nonempty (protocol r) then (lit "PROTOCOL", join [44] (protocol r))
      else if nonempty (inbound r) then (lit "IN-NAME", join [44] (inbound r))
      else if sniff_on r then (lit "SNIFF", [])
      else if resolve r then (lit "RESOLVE", [])
      else if hijack_dns r then (lit "HIJACK-DNS", [])
      else (lit "MATCH", [])
  end.

Definition CompiledRule_compile (r : RouteRuleConfig) (rulesets : gmap (list Z) RuleSet)
    : run (result CompiledRule RouterError) :=
  crs ←!! Ret (lookup_rulesets (ruleset r) rulesets);
  addr_rs ←!! inline_ruleset (addr_lines r);
  port_rs ←!! inline_ruleset (port_lines r);
  Ret (Ok (mkCompiledRule (inbound r) (network r) (map to_lowercase (protocol r)) crs addr_rs port_rs
             (rule_action r) (rule_display r))).

Definition target_to_addr_match (t : Target) : MatchTarget :=
  match t with
  | TDomain h _ => MDomain h
  | TSocket a => MIp (ip a)
  end.

(** [for rs in &self.rulesets]: address, then port, of each. *)
Fixpoint match_rulesets (rss : list RuleSet) (addr_mt : MatchTarget) (port_val : Z) : run bool :=
  match rss with
  | [] => Ret false
  | rs :: rss =>
      a ← RuleSet_matches rs addr_mt;
      if a : bool then Ret true
      else
        p ← RuleSet_matches rs (MPort port_val);
        if p : bool then Ret true else match_rulesets rss addr_mt port_val
  end.

Definition match_opt (rs : option RuleSet) (mt : MatchTarget) : run bool :=
  match rs with
  | Some rs => RuleSet_matches rs mt
  | None => Ret false
  end.

Definition match_target (c : CompiledRule) (t : Target) : run bool :=
  let addr_mt := target_to_addr_match t in
  let port_val := Target_port t in
  a ← match_rulesets (cr_rulesets c) addr_mt port_val;
  if a : bool then Ret true
  else
    b ← match_opt (cr_addr_rs c) addr_mt;
    if b : bool then Ret true else match_opt (cr_port_rs c) (MPort port_val).

Definition network_passes (nf : option NetworkFilter) (nk : option NetworkKind) : bool :=
  match nf with
  | None => true
  | Some nf =>
      match nf, nk with
      | FTcp, Some KTcp => true
      | FUdp, Some KUdp => true
      | _, _ => false
      end
  end.

Definition protocol_passes (protocols : list str) (sniffed : option str) : bool :=
  if nonempty protocols then
    match sniffed with
    | Some proto => bool_decide (to_lowercase proto ∈ protocols)
    | None => false
    end
  else true.

Definition CompiledRule_matches (c : CompiledRule) (inbound_tag : str) (nk : option NetworkKind) (t : Target)
    (sniffed : option str) : run bool :=
  if nonempty (cr_inbound_tags c) && negb (bool_decide (inbound_tag ∈ cr_inbound_tags c)) then Ret false
  else if negb (network_passes (cr_network c) nk) then Ret false
  else if negb (protocol_passes (cr_protocols c) sniffed) then Ret false
  else
    let has_any := nonempty (cr_rulesets c) || bool_decide (is_Some (cr_addr_rs c))
                   || bool_decide (is_Some (cr_port_rs c)) in
    if has_any then match_target c t else Ret true.

(** ** The router *)

Record RuleSetMeta : Type := mkMeta { rule_count : Z; updated_at_ms : Z }.

Record Router : Type := mkRouter {
  rt_rules : list CompiledRule;
  idx_no_sniff : list Z;
  idx_no_sniff_resolve : list Z;
  default : RouteAction;
  rulesets : gmap (list Z) RuleSet;
  ruleset_meta : gmap (list Z) RuleSetMeta;
  route_config : RouteConfig
}.

(** The state of the environment: the world and the cache file's write queue. *)
Definition io : Type := world * option CacheFile.

(** [RuleSet::from_loaded(LoadedRuleSet::from_bytes(&data)?)?], with the tag each
    error message names. *)
Definition build_ruleset (parse_ctx build_ctx : option str) (data : bytes) : run (result RuleSet RouterError) :=
  loaded ← LoadedRuleSet_from_bytes data;
  match loaded with
  | Err e => Ret (Err (RuleSetErr parse_ctx e))
  | Ok l => res ← RuleSet_from_loaded l; Ret (map_err (RuleSetErr build_ctx) res)
  end.

Definition load_ruleset_from_path (w : world) (path tag : str) : run (result RuleSet RouterError) :=
  match fs_read w path with
  | Err e => Ret (Err (ReadFailed tag path e))
  | Ok data => build_ruleset None None data
  end.

Definition download_bytes (w : world) (url tag : str) : result bytes RouterError * world :=
  match http_get w url with
  | (Err e, w) => (Err (DownloadFailed tag url e), w)
  | (Ok (Err e), w) => (Err (BodyFailed tag url e), w)
  | (Ok (Ok buf), w) => (Ok buf, w)
  end.

(** Saving a download: to [path], else to the cache file, else nowhere. *)
Definition save_download (s : io) (cache_path : option str) (tag : str) (data : bytes)
    : result unit RouterError * io :=
  let '(w, cf) := s in
  match cache_path with
  | Some path =>
      let '(dir, w) := match path_parent path with
                       | Some parent =>
                           let '(r, w) := fs_create_dir_all w parent in
                           (map_err (CacheDirFailed tag parent) r, w)
                       | None => (Ok tt, w)
                       end in
      match dir with
      | Err e => (Err e, (w, cf))
      | Ok _ =>
          let '(r, w) := fs_write w path data in
          (map_err (CacheWriteFailed tag path) r, (w, cf))
      end
  | None =>
      match cf with
      | Some writer => (Ok tt, (w, Some (store_ruleset_entry writer tag data)))
      | None => (Ok tt, (w, cf))
      end
  end.

Definition load_ruleset_remote (s : io) (url : str) (cache_path : option str) (tag : str)
    (cache_reader : option CacheFileReader) (fault : str -> bool) : run (result RuleSet RouterError * io) :=
  let disk := match cache_path with
              | Some path => if path_exists s.1 path then Some path else None
              | None => None
              end in
  match disk with
  | Some path => r ← load_ruleset_from_path s.1 path tag; Ret (r, s)
  | None =>
      let cached := match cache_path, cache_reader with
                    | None, Some reader => load_ruleset_cache (fault tag) reader tag
                    | _, _ => None
                    end in
      match cached with
      | Some data => r ← build_ruleset (Some tag) None data; Ret (r, s)
      | None =>
          let '(dl, w) := download_bytes s.1 url tag in
          match dl with
          | Err e => Ret (Err e, (w, s.2))
          | Ok data =>
              let '(saved, s) := save_download (w, s.2) cache_path tag data in
              match saved with
              | Err e => Ret (Err e, s)
              | Ok _ => r ← build_ruleset (Some tag) None data; Ret (r, s)
              end
          end
      end
  end.

Definition load_ruleset_ref (s : io) (rs_ref : RuleSetRef) (cache_reader : option CacheFileReader) (fault : str -> bool)
    : run (result RuleSet RouterError * io) :=
  match rs_type rs_ref with
  | Local_ =>
      match rs_path rs_ref with
      | None => Ret (Err (PathRequired (rs_tag rs_ref)), s)
      | Some path => r ← load_ruleset_from_path s.1 path (rs_tag rs_ref); Ret (r, s)
      end
  | Remote =>
      match rs_url rs_ref with
      | None => Ret (Err (UrlRequired (rs_tag rs_ref)), s)
      | Some url => load_ruleset_remote s url (rs_path rs_ref) (rs_tag rs_ref) cache_reader fault
      end
  end.

Definition maps : Type := gmap (list Z) RuleSet * gmap (list Z) RuleSetMeta.

(** [for rs_ref in &config.rule_set] *)
Fixpoint load_all (s : io) (refs : list RuleSetRef) (cache_reader : option CacheFileReader) (fault : str -> bool) (m : maps)
    : run (result maps RouterError * io) :=
  match refs with
  | [] => Ret (Ok m, s)
  | r :: refs =>
      x ← load_ruleset_ref s r cache_reader fault;
      let '(res, s) := x in
      match res with
      | Err e => Ret (Err e, s)
      | Ok rs =>
          load_all s refs cache_reader fault
            (<[rs_tag r := rs]> m.1, <[rs_tag r := mkMeta (RuleSet_rule_count rs) (now_ms s.1)]> m.2)
      end
  end.

(** The first rule with [hijack_dns] and no condition is an error. *)
Fixpoint check_hijack (i : Z) (rs : list RouteRuleConfig) : result unit RouterError :=
  match rs with
  | [] => Ok tt
  | r :: rs => if hijack_dns r && negb (has_conditions r) then Err (BareHijackDns i) else check_hijack (i + 1) rs
  end.

Fixpoint compile_rules (rs : list RouteRuleConfig) (rulesets : gmap (list Z) RuleSet)
    : run (result (list CompiledRule) RouterError) :=
  match rs with
  | [] => Ret (Ok [])
  | r :: rs =>
      c ←!! CompiledRule_compile r rulesets;
      cs ←!! compile_rules rs rulesets;
      Ret (Ok (c :: cs))
  end.

(** [rules.iter().enumerate().filter_map(..)]: the indices of the rules kept. *)
Fixpoint indices_where (keep : CompiledRule -> bool) (i : Z) (rs : list CompiledRule) : list Z :=
  match rs with
  | [] => []
  | r :: rs => if keep r then i :: indices_where keep (i + 1) rs else indices_where keep (i + 1) rs
  end.

Definition not_sniff (r : CompiledRule) : bool := negb (is_sniff (cr_action r)).
Definition not_sniff_resolve (r : CompiledRule) : bool :=
  negb (is_sniff (cr_action r) || is_resolve (cr_action r)).

Definition Router_from_config (s : io) (config : RouteConfig) (cache_reader : option CacheFileReader) (fault : str -> bool)
    : run (result Router RouterError * io) :=
  x ← load_all s (rule_set config) cache_reader fault (∅, ∅);
  let '(loaded, s) := x in
  match loaded with
  | Err e => Ret (Err e, s)
  | Ok (rss, metas) =>
      match check_hijack 0 (rules_cfg config) with
      | Err e => Ret (Err e, s)
      | Ok _ =>
          res ← compile_rules (rules_cfg config) rss;
          match res with
          | Err e => Ret (Err e, s)
          | Ok rules =>
              Ret (Ok (mkRouter rules (indices_where not_sniff 0 rules)
                         (indices_where not_sniff_resolve 0 rules) (to_action (final config))
                         rss metas config), s)
          end
      end
  end.

Definition hit (r : CompiledRule) : RouteAction * str * str :=
  (cr_action r, (cr_rule_display r).1, (cr_rule_display r).2).

Fixpoint route_rules (rules : list CompiledRule) (default : RouteAction) (inbound_tag : str) (nk : option NetworkKind)
    (t : Target) (sniffed : option str) : run (RouteAction * str * str) :=
  match rules with
  | [] => Ret (default, lit "final", [])
  | rule :: rules =>
      m ← CompiledRule_matches rule inbound_tag nk t sniffed;
      if m : bool then Ret (hit rule) else route_rules rules default inbound_tag nk t sniffed
  end.

Definition route (r : Router) := route_rules (rt_rules r) (default r).

Fixpoint route_indexed (r : Router) (indices : list Z) (inbound_tag : str) (nk : option NetworkKind)
    (t : Target) (sniffed : option str) : run (RouteAction * str * str) :=
  match indices with
  | [] => Ret (default r, lit "final", [])
  | i :: indices =>
      rule ← idx (rt_rules r) i;
      m ← CompiledRule_matches rule inbound_tag nk t sniffed;
      if m : bool then Ret (hit rule) else route_indexed r indices inbound_tag nk t sniffed
  end.

Definition route_tcp (r : Router) (conn : InboundTcpStream) :=
  route r (t_inbound_tag conn) (Some KTcp) (t_target conn) (t_sniffed_protocol conn).
Definition route_tcp_after_sniff (r : Router) (conn : InboundTcpStream) (target : Target) :=
  route_indexed r (idx_no_sniff r) (t_inbound_tag conn) (Some KTcp) target (t_sniffed_protocol conn).
Definition route_tcp_after_resolve (r : Router) (conn : InboundTcpStream) (target : Target) :=
  route_indexed r (idx_no_sniff_resolve r) (t_inbound_tag conn) (Some KTcp) target (t_sniffed_protocol conn).
Definition route_udp (r : Router) (p : InboundUdpPacket) :=
  route r (u_inbound_tag p) (Some KUdp) (u_target p) (u_sniffed_protocol p).
Definition route_udp_after_sniff (r : Router) (p : InboundUdpPacket) :=
  route_indexed r (idx_no_sniff r) (u_inbound_tag p) (Some KUdp) (u_target p) (u_sniffed_protocol p).
Definition route_udp_after_resolve (r : Router) (p : InboundUdpPacket) (target : Target) :=
  route_indexed r (idx_no_sniff_resolve r) (u_inbound_tag p) (Some KUdp) target (u_sniffed_protocol p).

Definition default_action (r : Router) : RouteAction := default r.

(** [.ok()] on both file operations: failures are ignored. *)
Definition refresh_disk (w : world) (path : option str) (data : bytes) : world :=
  match path with
  | None => w
  | Some path =>
      let w := match path_parent path with Some parent => (fs_create_dir_all w parent).2 | None => w end in
      (fs_write w path data).2
  end.

(** The part [Router::reload_remote_ruleset] and [RuleSetRegistry::reload_remote] share. *)
Definition fetch_remote (w : world) (config : RouteConfig) (tag : str) (build_ctx : option str)
    : run (result RuleSet RouterError * world) :=
  match List.find (fun r => bool_decide (rs_tag r = tag)) (rule_set config) with
  | None => Ret (Err (RulesetNotFound tag), w)
  | Some rs_ref =>
      if decide (rs_type rs_ref <> Remote) then Ret (Err (NotRemote tag), w)
      else match rs_url rs_ref with
      | None => Ret (Err (MissingUrl tag), w)
      | Some url =>
          let '(dl, w) := download_bytes w url tag in
          match dl with
          | Err e => Ret (Err e, w)
          | Ok data =>
              let w := refresh_disk w (rs_path rs_ref) data in
              r ← build_ruleset (Some tag) build_ctx data; Ret (r, w)
          end
      end
  end.

Definition reload_remote_ruleset (w : world) (r : Router) (tag : str) : run (result unit RouterError * world * Router) :=
  x ← fetch_remote w (route_config r) tag None;
  let '(res, w) := x in
  match res with
  | Err e => Ret (Err e, w, r)
  | Ok rs =>
      Ret (Ok tt, w, mkRouter (rt_rules r) (idx_no_sniff r) (idx_no_sniff_resolve r) (default r)
                       (<[tag := rs]> (rulesets r))
                       (<[tag := mkMeta (RuleSet_rule_count rs) (now_ms w)]> (ruleset_meta r)) (route_config r))
  end.

(** The registry of the control API: metadata only. *)
Record RuleSetRegistry : Type := mkRegistry { meta : gmap (list Z) RuleSetMeta; reg_config : RouteConfig }.

Definition from_router_meta (config : RouteConfig) (m : gmap (list Z) RuleSetMeta) : RuleSetRegistry := mkRegistry m config.
Definition snapshot (g : RuleSetRegistry) : gmap (list Z) RuleSetMeta := meta g.

Definition reload_remote (w : world) (g : RuleSetRegistry) (tag : str)
    : run (result unit RouterError * world * RuleSetRegistry) :=
  x ← fetch_remote w (reg_config g) tag (Some tag);
  let '(res, w) := x in
  match res with
  | Err e => Ret (Err e, w, g)
  | Ok rs => Ret (Ok tt, w, mkRegistry (<[tag := mkMeta (RuleSet_rule_count rs) (now_ms w)]> (meta g)) (reg_config g))
  end.
End Router.
