(* ===== verification/RouterSpec.v ===== *)
(** * RouterSpec: what routing decides.

    First match in configuration order, skipping of the sniff and resolve rules
    in the second passes, the conjunction of a rule's filters, the meaning of the
    inline port lists, and the configuration errors. *)

From S2P Require Import Prelude RustStr Extern Format Trie IpMatch Compiler Loader Matcher MatchSafe CacheFile Inbound QuicCrypto Sniff Router.

Local Open Scope reflex_scope.

Section RouterSpec.
Context {FST : FstLib} {RX : RegexLib} {IO : HostIO} {UL : UnicodeLib}.

(** ** One rule *)

Definition rule_wf (c : CompiledRule) : Prop :=
  Forall ruleset_wf (cr_rulesets c) /\
  (forall rs, cr_addr_rs c = Some rs -> ruleset_wf rs) /\ (forall rs, cr_port_rs c = Some rs -> ruleset_wf rs).

Definition target_port_ok (t : Target) : Prop := in_width 16 (Target_port t).

(** A rule set says yes. *)
Definition says (rs : RuleSet) (mt : MatchTarget) : Prop := RuleSet_matches rs mt = Ret true.

(** The target conditions of a rule: any rule set on address or port, the inline
    addresses, or the inline ports. *)
Definition target_hit (c : CompiledRule) (t : Target) : Prop :=
  (exists rs, rs ∈ cr_rulesets c /\ (says rs (target_to_addr_match t) \/ says rs (MPort (Target_port t)))) \/
  (exists rs, cr_addr_rs c = Some rs /\ says rs (target_to_addr_match t)) \/
  (exists rs, cr_port_rs c = Some rs /\ says rs (MPort (Target_port t))).

Definition no_target (c : CompiledRule) : Prop :=
  cr_rulesets c = [] /\ cr_addr_rs c = None /\ cr_port_rs c = None.

Lemma says_decided rs mt : ruleset_wf rs -> query_ok mt ->
  exists b, RuleSet_matches rs mt = Ret b /\ (b = true <-> says rs mt).
Proof.
  intros Hw Hq. destruct (ruleset_matches_returns rs mt Hw Hq) as [b E]. exists b. split; [done|].
  unfold says. rewrite E. split; [by intros ->|by intros [= ->]].
Qed.

Lemma addr_query_ok t : query_ok (target_to_addr_match t).
Proof. by destruct t. Qed.

Lemma match_rulesets_spec rss t : Forall ruleset_wf rss -> target_port_ok t ->
  exists b, match_rulesets rss (target_to_addr_match t) (Target_port t) = Ret b /\
    (b = true <-> exists rs, rs ∈ rss /\ (says rs (target_to_addr_match t) \/ says rs (MPort (Target_port t)))).
Proof.
  intros Hw Hp. induction Hw as [|rs rss Hrs _ (b & Eb & Hb)]; cbn [match_rulesets].
  - exists false. split; [done|]. split; [done|]. intros (rs & H & _). by apply elem_of_nil in H.
  - destruct (says_decided rs (target_to_addr_match t) Hrs (addr_query_ok t)) as (a & -> & Ha). rewrite bind_Ret.
    setoid_rewrite elem_of_cons.
    destruct a; [exists true; split; [done|]; split; [|done]; intros _; exists rs; naive_solver|].
    destruct (says_decided rs (MPort (Target_port t)) Hrs Hp) as (p & -> & Hpp). rewrite bind_Ret.
    destruct p; [exists true; split; [done|]; split; [|done]; intros _; exists rs; naive_solver|].
    exists b. split; [done|]. rewrite Hb. naive_solver.
Qed.

Lemma match_opt_spec o mt : (forall rs, o = Some rs -> ruleset_wf rs) -> query_ok mt ->
  exists b, match_opt o mt = Ret b /\ (b = true <-> exists rs, o = Some rs /\ says rs mt).
Proof.
  intros Hw Hq. destruct o as [rs|]; cbn [match_opt].
  - destruct (says_decided rs mt (Hw rs eq_refl) Hq) as (b & -> & Hb). exists b. split; [done|]. rewrite Hb. naive_solver.
  - exists false. split; [done|]. naive_solver.
Qed.

Lemma match_target_spec c t : rule_wf c -> target_port_ok t ->
  exists b, match_target c t = Ret b /\ (b = true <-> target_hit c t).
Proof.
  intros (Hw & Ha & Hp) Ht. unfold match_target. cbv zeta.
  destruct (match_rulesets_spec _ t Hw Ht) as (b1 & -> & H1). rewrite bind_Ret.
  destruct (match_opt_spec _ (target_to_addr_match t) Ha (addr_query_ok t)) as (b2 & E2 & H2).
  destruct (match_opt_spec _ (MPort (Target_port t)) Hp Ht) as (b3 & E3 & H3). unfold target_hit.
  destruct b1; [exists true; naive_solver|]. rewrite E2, bind_Ret.
  destruct b2; [exists true; naive_solver|]. rewrite E3. exists b3. naive_solver.
Qed.

Definition passes (c : CompiledRule) (tag : str) (nk : option NetworkKind) (t : Target) (sniffed : option str) : Prop :=
  (cr_inbound_tags c = [] \/ tag ∈ cr_inbound_tags c) /\
  match cr_network c with
  | None => True
  | Some FTcp => nk = Some KTcp
  | Some FUdp => nk = Some KUdp
  end /\
  (cr_protocols c = [] \/ exists p, sniffed = Some p /\ to_lowercase p ∈ cr_protocols c) /\
  (no_target c \/ target_hit c t).

Lemma rule_matches_spec c tag nk t sniffed : rule_wf c -> target_port_ok t ->
  exists b, CompiledRule_matches c tag nk t sniffed = Ret b /\ (b = true <-> passes c tag nk t sniffed).
Proof.
  intros Hw Ht. unfold CompiledRule_matches, passes.
  assert (Hin : nonempty (cr_inbound_tags c) && negb (bool_decide (tag ∈ cr_inbound_tags c)) = false <->
    cr_inbound_tags c = [] \/ tag ∈ cr_inbound_tags c).
  { destruct (cr_inbound_tags c); [naive_solver|]. cbn [nonempty andb].
    rewrite negb_false_iff, bool_decide_eq_true. naive_solver. }
  assert (Hnet : network_passes (cr_network c) nk = true <->
    match cr_network c with None => True | Some FTcp => nk = Some KTcp | Some FUdp => nk = Some KUdp end)
    by (destruct (cr_network c) as [[]|], nk as [[]|]; naive_solver).
  assert (Hpr : protocol_passes (cr_protocols c) sniffed = true <->
    cr_protocols c = [] \/ exists p, sniffed = Some p /\ to_lowercase p ∈ cr_protocols c).
  { unfold protocol_passes. destruct (cr_protocols c) as [|x xs]; [naive_solver|]. cbn [nonempty].
    destruct sniffed; [rewrite bool_decide_eq_true|]; naive_solver. }
  setoid_rewrite <-Hin. setoid_rewrite <-Hnet. setoid_rewrite <-Hpr.
  destruct (nonempty (cr_inbound_tags c) && _); [exists false; naive_solver|].
  destruct (network_passes _ _); cbn [negb]; [|exists false; naive_solver].
  destruct (protocol_passes _ _); cbn [negb]; [|exists false; naive_solver].
  destruct (match_target_spec c t Hw Ht) as (b & Eb & Hb).
  assert (Hany : nonempty (cr_rulesets c) || bool_decide (is_Some (cr_addr_rs c)) || bool_decide (is_Some (cr_port_rs c))
    = false <-> no_target c).
  { unfold no_target. rewrite !orb_false_iff, !bool_decide_eq_false, <-!eq_None_not_Some.
    destruct (cr_rulesets c); naive_solver. }
  cbv zeta. destruct (nonempty (cr_rulesets c) || _ || _).
  - exists b. split; [done|]. rewrite Hb. split; [auto|]. intros (_ & _ & _ & [Hn|H]); [|done].
    by apply Hany in Hn.
  - exists true. split; [done|]. split; [|done]. intros _. split_and!; auto. left. by apply Hany.
Qed.

(** ** A rule list *)

(** The first rule that passes decides; with none, the default does. *)
Definition first_match (rules : list CompiledRule) (dflt : RouteAction) (tag : str) (nk : option NetworkKind)
    (t : Target) (sniffed : option str) (res : RouteAction * str * str) : Prop :=
  (exists pre rule post, rules = pre ++ rule :: post /\ passes rule tag nk t sniffed /\
     Forall (fun r => ~ passes r tag nk t sniffed) pre /\ res = hit rule) \/
  (Forall (fun r => ~ passes r tag nk t sniffed) rules /\ res = (dflt, lit "final", [])).

Lemma route_rules_spec rules dflt tag nk t sniffed : Forall rule_wf rules -> target_port_ok t ->
  exists res, route_rules rules dflt tag nk t sniffed = Ret res /\ first_match rules dflt tag nk t sniffed res.
Proof.
  intros Hw Ht. induction Hw as [|r rules Hr _ (res & E & Hf)]; cbn [route_rules].
  - eexists. split; [done|]. by right.
  - destruct (rule_matches_spec r tag nk t sniffed Hr Ht) as (b & -> & Hb). rewrite bind_Ret. destruct b.
    + exists (hit r). split; [done|]. left. exists [], r, rules. split_and!; [done|by apply Hb|constructor|done].
    + exists res. split; [done|]. assert (Hn : ~ passes r tag nk t sniffed) by (rewrite <-Hb; done).
      destruct Hf as [(pre & rule & post & -> & Hp & Hpre & ->)|[Hall ->]].
      * left. exists (r :: pre), rule, post. split_and!; [done|done|by constructor|done].
      * right. split; [by constructor|done].
Qed.

(** Walking the precomputed indices is walking the kept rules. *)
Lemma route_indexed_filter r keep pre rest tag nk t sniffed : rt_rules r = pre ++ rest ->
  route_indexed r (indices_where keep (len pre) rest) tag nk t sniffed =
  route_rules (List.filter keep rest) (default r) tag nk t sniffed.
Proof.
  revert pre. induction rest as [|c rest IH]; intros pre Hr; [done|]. cbn [indices_where List.filter].
  assert (IH' : route_indexed r (indices_where keep (len pre + 1) rest) tag nk t sniffed =
    route_rules (List.filter keep rest) (default r) tag nk t sniffed).
  { specialize (IH (pre ++ [c])). rewrite len_app in IH. change (len [c]) with 1 in IH. apply IH. by rewrite <-app_assoc. }
  destruct (keep c); [|done]. cbn [route_indexed route_rules]. rewrite Hr at 1. rewrite idx_mid by done. rewrite bind_Ret.
  by rewrite IH'.
Qed.

(** A router as [from_config] leaves it. *)
Definition built (r : Router) : Prop :=
  idx_no_sniff r = indices_where not_sniff 0 (rt_rules r) /\
  idx_no_sniff_resolve r = indices_where not_sniff_resolve 0 (rt_rules r) /\
  exists f, default r = to_action f.

Lemma from_config_built s config cr fault r s' :
  Router_from_config s config cr fault = Ret (Ok r, s') -> built r.
Proof.
  intros H. unfold Router_from_config in H. apply bind_Ret_inv in H as ([loaded s1] & _ & H).
  destruct loaded as [[rss metas]|]; [|done]. destruct (check_hijack _ _); [|done].
  apply bind_Ret_inv in H as (res & _ & H). destruct res as [rules|]; [|done]. simplify_eq.
  split_and!; [done|done|]. by eexists.
Qed.

Lemma to_action_final f : is_sniff (to_action f) = false /\ is_resolve (to_action f) = false.
Proof. unfold to_action. by case_decide. Qed.

Lemma first_match_action rules dflt tag nk t sniffed res (P : RouteAction -> Prop) :
  first_match rules dflt tag nk t sniffed res -> Forall (fun r => P (cr_action r)) rules -> P dflt -> P res.1.1.
Proof.
  intros [(pre & rule & post & -> & _ & _ & ->)|[_ ->]] Hr Hd; [|done].
  apply Forall_app in Hr as [_ Hr]. by inversion Hr.
Qed.

Lemma filter_true {A} (f : A -> bool) l : Forall (fun x => f x = true) (List.filter f l).
Proof. apply Forall_forall. intros x Hx. by apply list_elem_of_In, filter_In in Hx as [_ Hx]. Qed.

(** C2. First match: routing a connection or packet never panics and returns the
    action of the first rule, in configuration order, whose inbound, network,
    protocol and target conditions all hold, or else the default action. *)
Theorem route_first_match (r : Router) (conn : InboundTcpStream) (pkt : InboundUdpPacket) :
  Forall rule_wf (rt_rules r) -> target_port_ok (t_target conn) -> target_port_ok (u_target pkt) ->
  (exists res, route_tcp r conn = Ret res /\
     first_match (rt_rules r) (default r) (t_inbound_tag conn) (Some KTcp) (t_target conn) (t_sniffed_protocol conn) res) /\
  (exists res, route_udp r pkt = Ret res /\
     first_match (rt_rules r) (default r) (u_inbound_tag pkt) (Some KUdp) (u_target pkt) (u_sniffed_protocol pkt) res).
Proof. intros Hw Ht Hu. split; by apply route_rules_spec. Qed.

Lemma after_sniff_spec r tag nk t sniffed : built r -> Forall rule_wf (rt_rules r) -> target_port_ok t ->
  exists res, route_indexed r (idx_no_sniff r) tag nk t sniffed = Ret res /\ is_sniff res.1.1 = false /\
    first_match (List.filter not_sniff (rt_rules r)) (default r) tag nk t sniffed res.
Proof.
  intros (-> & _ & f & Hf) Hw Ht. rewrite (route_indexed_filter r not_sniff [] (rt_rules r)) by done.
  destruct (route_rules_spec (List.filter not_sniff (rt_rules r)) (default r) tag nk t sniffed) as (res & E & Hm);
    [by apply Forall_filter_keep|done|]. exists res. split_and!; [done| |done].
  apply (first_match_action _ _ _ _ _ _ _ (fun a => is_sniff a = false) Hm).
  - eapply Forall_impl; [apply filter_true|]. unfold not_sniff. intros c Hc. by apply negb_true_iff.
  - rewrite Hf. apply to_action_final.
Qed.

Lemma after_resolve_spec r tag nk t sniffed : built r -> Forall rule_wf (rt_rules r) -> target_port_ok t ->
  exists res, route_indexed r (idx_no_sniff_resolve r) tag nk t sniffed = Ret res /\
    is_sniff res.1.1 = false /\ is_resolve res.1.1 = false /\
    first_match (List.filter not_sniff_resolve (rt_rules r)) (default r) tag nk t sniffed res.
Proof.
  intros (_ & -> & f & Hf) Hw Ht. rewrite (route_indexed_filter r not_sniff_resolve [] (rt_rules r)) by done.
  destruct (route_rules_spec (List.filter not_sniff_resolve (rt_rules r)) (default r) tag nk t sniffed) as (res & E & Hm);
    [by apply Forall_filter_keep|done|]. exists res. split; [done|].
  assert (Ha : is_sniff res.1.1 = false /\ is_resolve res.1.1 = false).
  { apply (first_match_action _ _ _ _ _ _ _ (fun a => is_sniff a = false /\ is_resolve a = false) Hm).
    - eapply Forall_impl; [apply filter_true|]. unfold not_sniff_resolve. intros c Hc.
      by apply negb_true_iff, orb_false_iff in Hc.
    - rewrite Hf. apply to_action_final. }
  by destruct Ha.
Qed.

(** C18. No routing loop: for a router built from a configuration, routing again
    after a sniff never yields a sniff action, and after a resolve never a sniff
    or resolve action; each second pass is the first match among the rules that
    are left, for TCP and UDP alike. *)
Theorem second_pass_terminates (s s' : io) (config : RouteConfig) (cr : option CacheFileReader) (fault : str -> bool)
    (r : Router) (conn : InboundTcpStream) (pkt : InboundUdpPacket) (t : Target) :
  Router_from_config s config cr fault = Ret (Ok r, s') -> Forall rule_wf (rt_rules r) ->
  target_port_ok t -> target_port_ok (u_target pkt) ->
  (exists res, route_tcp_after_sniff r conn t = Ret res /\ is_sniff res.1.1 = false /\
     first_match (List.filter not_sniff (rt_rules r)) (default r) (t_inbound_tag conn) (Some KTcp) t (t_sniffed_protocol conn) res) /\
  (exists res, route_tcp_after_resolve r conn t = Ret res /\ is_sniff res.1.1 = false /\ is_resolve res.1.1 = false /\
     first_match (List.filter not_sniff_resolve (rt_rules r)) (default r) (t_inbound_tag conn) (Some KTcp) t (t_sniffed_protocol conn) res) /\
  (exists res, route_udp_after_sniff r pkt = Ret res /\ is_sniff res.1.1 = false /\
     first_match (List.filter not_sniff (rt_rules r)) (default r) (u_inbound_tag pkt) (Some KUdp) (u_target pkt) (u_sniffed_protocol pkt) res) /\
  (exists res, route_udp_after_resolve r pkt t = Ret res /\ is_sniff res.1.1 = false /\ is_resolve res.1.1 = false /\
     first_match (List.filter not_sniff_resolve (rt_rules r)) (default r) (u_inbound_tag pkt) (Some KUdp) t (u_sniffed_protocol pkt) res).
Proof.
  intros Hc Hw Ht Hu. apply from_config_built in Hc.
  split_and!; [by apply after_sniff_spec|by apply after_resolve_spec|by apply after_sniff_spec|by apply after_resolve_spec].
Qed.
End RouterSpec.

(** ** Port filters *)

(** [split_once] at the first separator. *)
Lemma split_once_app c s1 s2 : c ∉ s1 -> split_once c (s1 ++ c :: s2) = Some (s1, s2).
Proof.
  induction s1 as [|b s1 IH]; intros Hc; simpl; [by rewrite Z.eqb_refl|].
  apply not_elem_of_cons in Hc as [Hb Hc]. by rewrite (proj2 (Z.eqb_neq b c)), IH by (done || lia).
Qed.

Lemma split_once_none c s : c ∉ s -> split_once c s = None.
Proof.
  induction s as [|b s IH]; intros Hc; simpl; [done|]. apply not_elem_of_cons in Hc as [Hb Hc].
  by rewrite (proj2 (Z.eqb_neq b c)), IH by (done || lia).
Qed.

Lemma show_uint_digits n : 0 <= n -> forallb is_digit (show_uint n) = true /\ show_uint n <> [].
Proof. intros Hn. split; [by apply show_digits_digits|]. apply show_digits_nonempty. left. lia. Qed.

Lemma show_uint_no c n : 0 <= n -> is_digit c = false -> c ∉ show_uint n.
Proof.
  intros Hn Hc Hin. destruct (show_uint_digits n Hn) as [Hd _]. rewrite forallb_forall in Hd.
  apply list_elem_of_In, Hd in Hin. congruence.
Qed.

Lemma show_uint_framed n : 0 <= n -> framed (show_uint n).
Proof.
  intros Hn. destruct (show_uint_digits n Hn) as [Hd Hne]. apply graphic_framed; [done|by apply digits_graphic].
Qed.

Lemma parse_port n : in_width 16 n -> parse_uint u16_max (trim (show_uint n)) = Some n.
Proof.
  unfold in_width. intros Hn. rewrite trim_framed by (apply show_uint_framed; lia).
  apply parse_show_uint; unfold u16_max; lia.
Qed.

Definition port_filter_ok (pf : PortFilter) : Prop :=
  in_width 16 (pf_start pf) /\ in_width 16 (pf_end pf) /\ pf_start pf <= pf_end pf.

(** Port filters: a filter written to JSON is read back as the same filter, and
    whatever JSON is accepted denotes an ordered range of 16-bit ports. *)
Theorem port_filter_json (pf : PortFilter) (j : port_json) :
  (port_filter_ok pf -> PortFilter_deserialize (PortFilter_serialize pf) = Ok pf) /\
  (forall pf', PortFilter_deserialize j = Ok pf' -> (forall v, j = JNum v -> 0 <= v) -> port_filter_ok pf').
Proof.
  split.
  - intros (Hs & He & Hle). destruct pf as [s e]. cbn [pf_start pf_end] in *. unfold PortFilter_serialize. cbn [pf_start pf_end].
    destruct (Z.eqb_spec s e) as [->|Hne]; cbn [PortFilter_deserialize].
    + unfold in_width in *. rewrite Z.gtb_ltb, (proj2 (Z.ltb_ge _ _)) by lia. unfold as_u16, wrap. by rewrite Z.mod_small by lia.
    + unfold in_width in *. change ([45] ++ show_uint e) with (45 :: show_uint e). rewrite split_once_app by (apply show_uint_no; [lia|done]). rewrite !parse_port by (unfold in_width; lia). simpl.
      by rewrite Z.gtb_ltb, (proj2 (Z.ltb_ge _ _)) by lia.
  - intros pf' E Hv. unfold port_filter_ok, in_width. destruct j as [v|s]; cbn [PortFilter_deserialize] in E.
    + specialize (Hv v eq_refl). rewrite Z.gtb_ltb in E. destruct (65535 <? v) eqn:H; [done|]. injection E as <-.
      apply Z.ltb_ge in H. unfold as_u16, wrap. cbn [pf_start pf_end]. rewrite !Z.mod_small by lia. lia.
    + destruct (split_once 45 s) as [[a b]|].
      * do 2 ok_step. destruct (_ >? _) eqn:G in E; ok_step. rewrite Z.gtb_ltb in G. apply Z.ltb_ge in G.
        apply parse_uint_bound in E0, E1. unfold u16_max in *. cbn [pf_start pf_end]. lia.
      * do 2 ok_step. apply parse_uint_bound in E0. unfold u16_max in *. cbn [pf_start pf_end]. lia.
Qed.

Lemma port_filter_json_witness :
  PortFilter_deserialize (PortFilter_serialize (mkPort 8000 9000)) = Ok (mkPort 8000 9000) /\
  port_filter_ok (mkPort 8000 9000).
Proof.
  split.
  - apply (port_filter_json (mkPort 8000 9000) (JNum 0)). vm_compute. split_and!; done.
  - apply (port_filter_json (mkPort 8000 9000) (JStr (lit "8000-9000"))); [vm_compute; reflexivity|done].
Defined.

(** The text line of a filter parses to its range. *)
Lemma parse_port_text pf : port_filter_ok pf ->
  parse_port_range (trim (32 :: drop 6 (port_line pf))) = Ok (pf_start pf, pf_end pf).
Proof.
  intros (Hs & He & Hle). destruct pf as [s e]. unfold port_line. cbn [pf_start pf_end] in *. unfold in_width in *.
  assert (Fs := show_uint_framed s ltac:(lia)). assert (Fe := show_uint_framed e ltac:(lia)).
  destruct (Z.eqb_spec s e) as [->|Hne]; cbn [lit app drop]; rewrite ?drop_0.
  - rewrite trim_space_framed by done. unfold parse_port_range. rewrite split_once_none by (apply show_uint_no; [lia|done]).
    by rewrite parse_port by (unfold in_width; lia).
  - rewrite trim_space_framed by (by apply (framed_app _ _ Fs Fe [45])). unfold parse_port_range.
    rewrite split_once_app by (apply show_uint_no; [lia|done]). rewrite !parse_port by (unfold in_width; lia). simpl.
    by rewrite Z.gtb_ltb, (proj2 (Z.ltb_ge _ _)) by lia.
Qed.

Lemma port_line_shape pf : port_filter_ok pf -> exists r, framed r /\ (10 ∉ r) /\ port_line pf = lit "port: " ++ r.
Proof.
  intros (Hs & He & Hle). destruct pf as [s e]. unfold port_line, in_width in *. cbn [pf_start pf_end] in *.
  assert (Fs := show_uint_framed s ltac:(lia)). assert (Fe := show_uint_framed e ltac:(lia)).
  assert (Ns := show_uint_no 10 s ltac:(lia) eq_refl). assert (Ne := show_uint_no 10 e ltac:(lia) eq_refl).
  case_if; eexists; (split; [|split; [|reflexivity]]); [done|done|by apply (framed_app _ _ Fs Fe [45])|].
  rewrite !elem_of_app. rewrite list_elem_of_singleton. intros [?|[?|?]]; done.
Qed.

Lemma encode_ports_bytes l : bytes_ok (encode_ports l).
Proof.
  unfold encode_ports. induction l as [|p l IH]; [constructor|]. cbn [flat_map].
  apply bytes_ok_app. split; [apply bytes_ok_app; split; apply to_le_bytes_ok|done].
Qed.

Section PortRules.
Context {FST : FstLib} {RX : RegexLib} {FL : FstLaws} {RL : RegexLaws}.

Lemma compile_port_line c i pf : port_filter_ok pf ->
  compile_line c (i, port_line pf) = Ok (push_port c (pf_start pf, pf_end pf)).
Proof.
  intros Hpf. pose proof (parse_port_text pf Hpf) as Hp. destruct (port_line_shape pf Hpf) as (r & Fr & _ & E).
  rewrite E in *. unfold compile_line. cbn [snd fst].
  assert (Fl : framed (lit "port: " ++ r)).
  { split; [by eexists 112, _|]. destruct Fr as [_ (r' & b & -> & Hb)]. exists (lit "port: " ++ r'), b.
    split; [by rewrite <-app_assoc|done]. }
  rewrite trim_framed by done.
  replace (len (lit "port: " ++ r) =? 0) with false by (rewrite len_app; pose proof (len_nonneg r); change (len (lit "port: ")) with 6; bool_lia).
  cbn [orb]. change (starts_with [35] (lit "port: " ++ r)) with false. cbv iota.
  change (split_once 58 (lit "port: " ++ r)) with (Some (lit "port", 32 :: r)). cbn [ok_or result_bind fst snd].
  change (trim (lit "port")) with (lit "port"). unfold compile_rule.
  change (drop 6 (lit "port: " ++ r)) with r in Hp. rewrite Hp. reflexivity.
Qed.

Lemma compile_port_lines pfs c i : Forall port_filter_ok pfs ->
  fold_result compile_line (combine (seq i (length pfs)) (map port_line pfs)) c =
  Ok (mkCompiled (domains c) (domain_suffixes c) (domain_keywords c) (domain_regexes c) (ipv4_cidrs c) (ipv6_cidrs c)
        (ports c ++ map (fun pf => (pf_start pf, pf_end pf)) pfs)).
Proof.
  intros H. revert c i. induction H as [|pf pfs Hpf _ IH]; intros c i; cbn [length seq map combine fold_result].
  - rewrite app_nil_r. by destruct c.
  - rewrite compile_port_line by done. cbn [result_bind]. rewrite IH. cbn. by rewrite <-app_assoc.
Qed.

Lemma port_text_compiles pfs : pfs <> [] -> Forall port_filter_ok pfs ->
  CompiledRuleSet_from_text (join [10] (map port_line pfs)) =
  Ok (mkCompiled [] [] [] [] [] [] (map (fun pf => (pf_start pf, pf_end pf)) pfs)).
Proof.
  intros Hne Hok. unfold CompiledRuleSet_from_text. rewrite lines_join.
  - rewrite length_map, compile_port_lines by done. done.
  - by destruct pfs.
  - apply Forall_forall. intros l Hl. apply list_elem_of_fmap in Hl as (pf & -> & Hpf). rewrite Forall_forall in Hok.
    destruct (port_line_shape pf (Hok pf Hpf)) as (r & [_ (r' & b & -> & Hb)] & H10 & ->). split_and!; [done| |].
    + intros [Hin|Hin]%elem_of_app; [|done]. revert Hin. apply (bool_decide_eq_true_1 (_ ∉ _)). vm_compute. reflexivity.
    + rewrite app_assoc, last_snoc. unfold graphic in Hb. intros [= ->]. lia.
Qed.

(** Port lists of a rule: the inline rule set compiled from a rule's ports (through
    the text and binary formats) matches a port exactly when one of the rule's
    port filters contains it. *)
Theorem inline_ports_spec (pfs : list PortFilter) (q : Z) :
  pfs <> [] -> Forall port_filter_ok pfs -> len pfs < 2 ^ 29 -> in_width 16 q ->
  exists rs, inline_ruleset (map port_line pfs) = Ret (Ok (Some rs)) /\
    RuleSet_matches rs (MPort q) = Ret (existsb (fun pf => PortFilter_contains pf q) pfs).
Proof.
  intros Hne Hok Hlen Hq. pose proof (port_text_compiles pfs Hne Hok) as Ht.
  set (c := mkCompiled [] [] [] [] [] [] (map (fun pf => (pf_start pf, pf_end pf)) pfs)) in *.
  assert (Hports : ports_ok (ports c)).
  { apply Forall_forall. intros p Hp. apply list_elem_of_fmap in Hp as (pf & -> & Hpf). rewrite Forall_forall in Hok.
    by destruct (Hok pf Hpf) as (? & ? & _). }
  assert (Hser : serializable c [] []).
  { split_and!; try done; try by constructor. apply Forall_forall. intros sec Hsec.
    apply list_elem_of_In, filter_In in Hsec as [Hsec _].
    repeat destruct Hsec as [<-|Hsec]; try (split; [constructor|done]); [|done]. split; [apply encode_ports_bytes|].
    cbn [snd]. unfold encode_ports. rewrite (len_encode _ 4); [|done|intros; rewrite length_app, !length_to_le_bytes; done].
    cbn [ports c]. unfold len in *. rewrite length_map. lia. }
  destruct (serialize_load_ok _ _ _ Hser) as (buf & Eb & El).
  pose proof (from_text_compiled_ok _ _ Ht) as Hc.
  destruct (fst_loaded_indexes c [] [] Hc) as (rs & Ers & Hi); [by left|constructor|constructor|done|done|].
  destruct (ruleset_matches c rs (MPort q) Hc Hi Hq) as (b & Em & Hb).
  exists rs. split.
  - unfold inline_ruleset. destruct (map port_line pfs) eqn:E; [by destruct pfs|]. rewrite <-E in *.
    unfold RuleSet_from_text. by rewrite Ht, Eb, bind_Ret, El, bind_Ret, Ers, bind_Ret.
  - rewrite Em. f_equal. apply eq_true_iff_eq. rewrite Hb, existsb_exists. cbn [listed ports c]. split.
    + intros (s & e & Hin & Hr). apply list_elem_of_fmap in Hin as (pf & [= -> ->] & Hpf). exists pf.
      rewrite <-list_elem_of_In. split; [done|]. unfold PortFilter_contains. lia.
    + intros (pf & Hpf & Hr). apply list_elem_of_In in Hpf. exists (pf_start pf), (pf_end pf).
      unfold PortFilter_contains in Hr. split; [|lia]. apply list_elem_of_fmap. by exists pf.
Qed.
End PortRules.

Lemma inline_ports_spec_witness :
  exists rs, inline_ruleset (FST := ToyFst) (RX := ToyRegex) (map port_line [mkPort 443 443; mkPort 8000 9000])
    = Ret (Ok (Some rs)) /\
    RuleSet_matches (FST := ToyFst) (RX := ToyRegex) rs (MPort 8500)
    = Ret (existsb (fun pf => PortFilter_contains pf 8500) [mkPort 443 443; mkPort 8000 9000]).
Proof.
  apply (inline_ports_spec (FST := ToyFst) (RX := ToyRegex) (FL := ToyFst_laws) (RL := ToyRegex_laws)
           [mkPort 443 443; mkPort 8000 9000] 8500).
  - discriminate.
  - repeat constructor; vm_compute; done.
  - vm_compute. reflexivity.
  - vm_compute. done.
Defined.

(** ** Loading and configuration errors *)

Section Config.
Context {FST : FstLib} {RX : RegexLib} {IO : HostIO} {UL : UnicodeLib}.

Lemma check_hijack_spec rs i :
  match check_hijack i rs with
  | Ok _ => Forall (fun r => hijack_dns r = true -> has_conditions r = true) rs
  | Err e => exists pre r post, rs = pre ++ r :: post /\ e = BareHijackDns (i + len pre) /\
      hijack_dns r = true /\ has_conditions r = false /\
      Forall (fun r => hijack_dns r = true -> has_conditions r = true) pre
  end.
Proof.
  revert i. induction rs as [|r rs IH]; intros i; cbn [check_hijack]; [constructor|].
  destruct (hijack_dns r && negb (has_conditions r)) eqn:E.
  - reflect_bools. exists [], r, rs. change (len (@nil RouteRuleConfig)) with 0. split_and!; [done|f_equal; lia|done|done|constructor].
  - assert (Hr : hijack_dns r = true -> has_conditions r = true) by (destruct (hijack_dns r), (has_conditions r); done).
    specialize (IH (i + 1)). destruct (check_hijack (i + 1) rs); [by constructor|].
    destruct IH as (pre & r' & post & -> & -> & H1 & H2 & H3). exists (r :: pre), r', post.
    rewrite len_cons. split_and!; [done|f_equal; lia|done|done|by constructor].
Qed.

Lemma compile_unknown r rulesets tag : tag ∈ ruleset r -> rulesets !! tag = None ->
  exists t, t ∈ ruleset r /\ rulesets !! t = None /\ CompiledRule_compile r rulesets = Ret (Err (RulesetNotFound t)).
Proof.
  intros Hin Hn. unfold CompiledRule_compile, lookup_rulesets, try_bind. rewrite bind_Ret.
  assert (H : exists t, t ∈ ruleset r /\ rulesets !! t = None /\
    map_result (fun tag => ok_or (rulesets !! tag) (RulesetNotFound tag)) (ruleset r) = Err (RulesetNotFound t)).
  { revert Hin. generalize (ruleset r). intros ts Hin. induction ts as [|t0 ts IH]; [by apply elem_of_nil in Hin|].
    cbn [map_result]. destruct (rulesets !! t0) as [rs|] eqn:E0.
    - simpl. apply elem_of_cons in Hin as [->|Hin]; [congruence|]. destruct (IH Hin) as (t & Ht & Htn & ->).
      exists t. split_and!; [by right|done|done].
    - exists t0. simpl. split_and!; [by left|done|done]. }
  destruct H as (t & Ht & Htn & ->). by exists t.
Qed.

Lemma compile_rules_unknown pre r post rulesets tag cs :
  compile_rules (pre ++ r :: post) rulesets = Ret (Ok cs) -> tag ∈ ruleset r -> is_Some (rulesets !! tag).
Proof.
  revert cs. induction pre as [|p pre IH]; intros cs H Hin; cbn [app compile_rules] in H; unfold try_bind in H.
  - destruct (rulesets !! tag) eqn:E; [by eexists|]. destruct (compile_unknown r rulesets tag Hin E) as (t & _ & _ & Ec).
    rewrite Ec in H. done.
  - apply bind_Ret_inv in H as ([c|] & _ & H); [|done]. apply bind_Ret_inv in H as ([cs'|] & E & H); [|done]. by eapply IH.
Qed.

Lemma load_all_tags s refs cr fault m m' s' : load_all s refs cr fault m = Ret (Ok m', s') ->
  forall tag, is_Some (m'.1 !! tag) <-> is_Some (m.1 !! tag) \/ tag ∈ map rs_tag refs.
Proof.
  revert s m. induction refs as [|r refs IH]; intros s m H tag; cbn [load_all] in H.
  - simplify_eq. cbn [map]. rewrite elem_of_nil. naive_solver.
  - apply bind_Ret_inv in H as ([res s1] & _ & H). destruct res as [rs|]; [|done]. rewrite (IH _ _ H tag).
    cbn [fst map]. rewrite elem_of_cons, lookup_insert_is_Some'. naive_solver.
Qed.

(** A configuration that is accepted is consistent: every rule-set tag a rule
    uses is declared, no rule hijacks DNS without a condition, there is one
    compiled rule per configured rule, and exactly the declared rule sets are
    loaded. *)
Theorem from_config_consistent (s s' : io) (config : RouteConfig) (cr : option CacheFileReader) (fault : str -> bool)
    (r : Router) :
  Router_from_config s config cr fault = Ret (Ok r, s') ->
  (forall rule tag, rule ∈ rules_cfg config -> tag ∈ ruleset rule -> tag ∈ map rs_tag (rule_set config)) /\
  (forall rule, rule ∈ rules_cfg config -> hijack_dns rule = true -> has_conditions rule = true) /\
  len (rt_rules r) = len (rules_cfg config) /\
  (forall tag, is_Some (rulesets r !! tag) <-> tag ∈ map rs_tag (rule_set config)).
Proof.
  intros H. unfold Router_from_config in H. apply bind_Ret_inv in H as ([loaded s1] & El & H).
  destruct loaded as [[rss metas]|]; [|done]. pose proof (check_hijack_spec (rules_cfg config) 0) as Hh.
  destruct (check_hijack 0 (rules_cfg config)); [|done]. apply bind_Ret_inv in H as (res & Ec & H).
  destruct res as [rules|]; [|done]. simplify_eq. cbn [rt_rules Router.rulesets].
  pose proof (load_all_tags _ _ _ _ _ _ _ El) as Ht. cbn [fst] in Ht.
  assert (Hdecl : forall tag, is_Some (rss !! tag) <-> tag ∈ map rs_tag (rule_set config)).
  { intros tag. rewrite Ht, lookup_empty. split; [intros [[? ?]|?]; done|by right]. }
  split_and!.
  - intros rule tag Hrule Htag. apply Hdecl. apply list_elem_of_split in Hrule as (pre & post & E). rewrite E in Ec.
    by eapply compile_rules_unknown.
  - intros rule Hrule. rewrite Forall_forall in Hh. by apply Hh.
  - clear -Ec. revert rules Ec. induction (rules_cfg config) as [|c cs IH]; intros rules Ec; cbn [compile_rules] in Ec.
    + by simplify_eq.
    + unfold try_bind in Ec. apply bind_Ret_inv in Ec as ([c'|] & _ & Ec); [|done].
      apply bind_Ret_inv in Ec as ([cs'|] & E & Ec); [|done]. simplify_eq. rewrite !len_cons. f_equal. by apply IH.
  - done.
Qed.

(** Remote rule sets prefer local copies: when the configured path exists, or when
    no path is configured and the cache file holds the tag, loading neither
    downloads nor writes anything, and parses the local copy. *)
Theorem remote_uses_local_copy (s : io) (url tag data : bytes) (path : option str)
    (reader : option CacheFileReader) (fault : str -> bool) :
  (exists p, path = Some p /\ path_exists s.1 p = true /\ fs_read s.1 p = Ok data) \/
  (path = None /\ exists rd, reader = Some rd /\ load_ruleset_cache (fault tag) rd tag = Some data) ->
  bytes_ok data -> len data < 2 ^ 32 ->
  exists r ctx, load_ruleset_remote s url path tag reader fault = Ret (r, s) /\ build_ruleset ctx None data = Ret r.
Proof.
  intros Hc Hd Hl.
  assert (Hb : forall ctx, exists r, build_ruleset ctx None data = Ret r).
  { intros ctx. unfold build_ruleset. destruct (from_bytes_returns data Hd) as [res E]. rewrite E, bind_Ret.
    destruct res as [l|]; [|by eexists]. destruct (from_loaded_wf l) as (res & -> & _); [by eapply from_bytes_ok|].
    rewrite bind_Ret. by eexists. }
  unfold load_ruleset_remote. destruct Hc as [(p & -> & -> & E)|(-> & rd & -> & E)].
  - destruct (Hb None) as [r Er]. exists r, None. unfold load_ruleset_from_path. by rewrite E, Er, bind_Ret.
  - destruct (Hb (Some tag)) as [r Er]. exists r, (Some tag). by rewrite E, Er, bind_Ret.
Qed.

Lemma fetch_remote_config w config tag ctx rs w' : fetch_remote w config tag ctx = Ret (Ok rs, w') ->
  exists ref url, ref ∈ rule_set config /\ rs_tag ref = tag /\ rs_type ref = Remote /\ rs_url ref = Some url.
Proof.
  unfold fetch_remote. intros H. destruct (List.find _ _) as [ref|] eqn:E; [|done].
  apply List.find_some in E as [Hin Ht]. apply bool_decide_eq_true in Ht. destruct (decide (rs_type ref = Remote)) as [Hty|Hty]; [rewrite decide_False in H by naive_solver|by rewrite decide_True in H].
  destruct (rs_url ref) as [url|] eqn:Eu; [|done]. exists ref, url.
  rewrite list_elem_of_In. done.
Qed.

(** Refreshing a remote rule set: only a declared remote rule set with a URL can
    be refreshed; success replaces its entry in the shared maps, failure changes
    nothing, and either way the compiled rules, and so every routing decision,
    stay as they were until the next start. *)
Theorem reload_keeps_routing (w w' : world) (r r' : Router) (tag : str) (res : result unit RouterError) :
  reload_remote_ruleset w r tag = Ret (res, w', r') ->
  (forall itag nk t sniffed, route r' itag nk t sniffed = route r itag nk t sniffed) /\
  (res = Ok tt -> (exists rs, rulesets r' = <[tag := rs]> (rulesets r)) /\
     exists ref, ref ∈ rule_set (route_config r) /\ rs_tag ref = tag /\ rs_type ref = Remote) /\
  (res <> Ok tt -> r' = r).
Proof.
  unfold reload_remote_ruleset. intros H. apply bind_Ret_inv in H as ([x w1] & Ef & H). destruct x as [rs|e]; simplify_eq.
  - split_and!; [done| |done]. intros _. split; [by eexists|].
    destruct (fetch_remote_config _ _ _ _ _ _ Ef) as (ref & url & H1 & H2 & H3 & _). by exists ref.
  - split_and!; done.
Qed.
End Config.

(** ** A concrete host, and witnesses *)

(** Files in a map, no network. *)
Definition ToyHost : HostIO := {|
  world := gmap (list Z) (list Z);
  path_exists w p := bool_decide (is_Some (w !! p));
  path_parent _ := None;
  fs_read w p := ok_or (w !! p) (lit "not found");
  fs_create_dir_all w _ := (Ok tt, w);
  fs_write w p d := (Ok tt, <[p := d]> w);
  http_get w url := (match w !! url with Some d => Ok (Ok d) | None => Err (lit "offline") end, w);
  now_ms _ := 0
|}.

Definition ToyUnicode : UnicodeLib := {| to_lowercase := to_ascii_lowercase; to_lowercase_ascii s _ := eq_refl |}.

Definition plain_rule : RouteRuleConfig :=
  mkRule [] None [] [] [] [] [] [] [] false 0 [] false [] false None false (lit "direct").

(** [{ "ruleset": ["ports"], "sniff": true }, { "network": "tcp", "outbound": "cn" }] *)
Definition sample_config : RouteConfig :=
  mkRouteConfig
    [ mkRule [] None [lit "ports"] [] [] [] [] [] [] true 0 [] false [] false None false [];
      mkRule [] (Some FTcp) [] [] [] [] [] [] [] false 0 [] false [] false None false (lit "cn") ]
    (lit "proxy") [mkRef (lit "ports") Local_ (Some (lit "/p")) None None] false.

Definition sample_world : gmap (list Z) (list Z) := {[ lit "/p" := port_file ]}.

#[local] Existing Instance ToyFst.
#[local] Existing Instance ToyRegex.
#[local] Existing Instance ToyHost.
#[local] Existing Instance ToyUnicode.

Definition sample_router : result Router RouterError :=
  match Router_from_config (sample_world, None) sample_config None (fun _ => false) with
  | Ret (r, _) => r
  | _ => Err (NotRemote [])
  end.

Definition get_router : Router :=
  match sample_router with Ok r => r | Err _ => mkRouter [] [] [] DnsOut ∅ ∅ sample_config end.

Lemma sample_router_ok : Router_from_config (sample_world, None) sample_config None (fun _ => false)
  = Ret (Ok get_router, (sample_world, None)).
Proof. vm_compute. reflexivity. Qed.

Definition port_file_loaded : LoadedRuleSet := mkLoaded [] [] [] [] [] [] [] [] [(80, 90)].

Definition port_file_rs : option RuleSet :=
  match RuleSet_from_loaded port_file_loaded with Ret (Ok rs) => Some rs | _ => None end.

Lemma port_file_wf rs : port_file_rs = Some rs -> ruleset_wf rs.
Proof.
  unfold port_file_rs. destruct (from_loaded_wf port_file_loaded) as (res & -> & H).
  - split; [repeat constructor; vm_compute; done|vm_compute; done].
  - destruct res; [|done]. intros [= <-]. by apply H.
Qed.

Lemma sample_rules_shape : exists rs, port_file_rs = Some rs /\ rt_rules get_router =
  [ mkCompiledRule [] None [] [rs] None None (Sniff 0 false []) (lit "rule-set", lit "ports");
    mkCompiledRule [] (Some FTcp) [] [] None None (Outbound (lit "cn")) (lit "NETWORK", lit "tcp") ].
Proof. eexists. split; vm_compute; reflexivity. Qed.

Lemma sample_rules_wf : Forall rule_wf (rt_rules get_router).
Proof.
  destruct sample_rules_shape as (rs & Hrs & ->). apply port_file_wf in Hrs.
  constructor; [|constructor; [|constructor]].
  - split; [constructor; [exact Hrs|constructor]|]. split; intros x Hx; discriminate Hx.
  - split; [constructor|]. split; intros x Hx; discriminate Hx.
Qed.

Definition sample_conn (t : Target) : InboundTcpStream := mkTcp (SniffedStream_new []) t (lit "in") None None.
Definition sample_pkt (t : Target) : InboundUdpPacket := mkUdp [] {| ip := V4 0; sock_port := 0 |} t (lit "in") None None.

Lemma route_first_match_witness :
  let c := sample_conn (TDomain (lit "a.cn") 80) in let p := sample_pkt (TDomain (lit "b.org") 53) in
  (exists res, route_tcp get_router c = Ret res /\
     first_match (rt_rules get_router) (default get_router) (t_inbound_tag c) (Some KTcp) (t_target c) (t_sniffed_protocol c) res) /\
  (exists res, route_udp get_router p = Ret res /\
     first_match (rt_rules get_router) (default get_router) (u_inbound_tag p) (Some KUdp) (u_target p) (u_sniffed_protocol p) res).
Proof.
  cbv zeta. apply (route_first_match get_router (sample_conn (TDomain (lit "a.cn") 80)) (sample_pkt (TDomain (lit "b.org") 53)));
    [apply sample_rules_wf|vm_compute; done|vm_compute; done].
Defined.

Lemma second_pass_terminates_witness :
  let c := sample_conn (TDomain (lit "a.cn") 85) in let p := sample_pkt (TDomain (lit "b.org") 85) in
  let t := TDomain (lit "a.cn") 85 in
  (exists res, route_tcp_after_sniff get_router c t = Ret res /\ is_sniff res.1.1 = false) /\
  (exists res, route_udp_after_resolve get_router p t = Ret res /\ is_resolve res.1.1 = false).
Proof.
  cbv zeta.
  destruct (second_pass_terminates (IO := ToyHost) (sample_world, None) (sample_world, None) sample_config None (fun _ => false) get_router
    (sample_conn (TDomain (lit "a.cn") 85)) (sample_pkt (TDomain (lit "b.org") 85)) (TDomain (lit "a.cn") 85))
    as ((r1 & E1 & H1 & _) & _ & _ & (r2 & E2 & _ & H2 & _));
    [apply sample_router_ok|apply sample_rules_wf|vm_compute; done|vm_compute; done|].
  split; [by exists r1|by exists r2].
Defined.

Lemma from_config_consistent_witness :
  (forall rule tag, rule ∈ rules_cfg sample_config -> tag ∈ ruleset rule -> tag ∈ map rs_tag (rule_set sample_config)) /\
  len (rt_rules get_router) = 2.
Proof.
  destruct (from_config_consistent (IO := ToyHost) (sample_world, None) (sample_world, None) sample_config None (fun _ => false) get_router sample_router_ok)
    as (H & _ & Hl & _). split; [exact H|exact Hl].
Defined.

Lemma remote_uses_local_copy_witness :
  exists r ctx, load_ruleset_remote (IO := ToyHost) (sample_world, None) (lit "http://x") (Some (lit "/p")) (lit "t") None (fun _ => false)
    = Ret (r, (sample_world, None)) /\ build_ruleset ctx None port_file = Ret r.
Proof.
  apply (remote_uses_local_copy (IO := ToyHost) (sample_world, None) (lit "http://x") (lit "t") port_file (Some (lit "/p")) None (fun _ => false)).
  - left. exists (lit "/p"). split; [reflexivity|]. split; vm_compute; reflexivity.
  - apply (bool_decide_eq_true_1 (bytes_ok _)). vm_compute. reflexivity.
  - vm_compute. reflexivity.
Defined.

Definition remote_router : Router :=
  mkRouter [] [] [] DnsOut ∅ ∅ (mkRouteConfig [] [] [mkRef (lit "t") Remote None (Some (lit "/p")) None] false).

Lemma reload_keeps_routing_witness :
  exists w' r', reload_remote_ruleset (IO := ToyHost) sample_world remote_router (lit "t") = Ret (Ok tt, w', r') /\
    (exists rs, rulesets r' = <[lit "t" := rs]> (rulesets remote_router)).
Proof.
  destruct (reload_remote_ruleset (IO := ToyHost) sample_world remote_router (lit "t")) as [[[res w'] r']| |] eqn:E;
    [|vm_compute in E; discriminate E|vm_compute in E; discriminate E].
  assert (res = Ok tt) as -> by (vm_compute in E; congruence).
  exists w', r'. split; [reflexivity|]. destruct (reload_keeps_routing (IO := ToyHost) _ _ _ _ _ _ E) as (_ & H & _). by destruct (H eq_refl).
Defined.

(** Address and port conditions are alternatives: the rule
    [{ "domain_suffix": [".cn"], "port": [443] }] sends a connection to
    [example.org:443] to its outbound, although the target is not under [.cn]. *)
Theorem address_or_port :
  exists c, CompiledRule_compile (mkRule [] None [] [] [lit ".cn"] [] [] [mkPort 443 443] [] false 0 [] false [] false None false (lit "cn")) ∅
    = Ret (Ok c) /\
  CompiledRule_matches c (lit "in") (Some KTcp) (TDomain (lit "example.org") 443) None = Ret true /\
  CompiledRule_matches c (lit "in") (Some KTcp) (TDomain (lit "a.cn") 80) None = Ret true /\
  CompiledRule_matches c (lit "in") (Some KTcp) (TDomain (lit "example.org") 80) None = Ret false.
Proof. eexists. split; [vm_compute; reflexivity|]. split_and!; vm_compute; reflexivity. Qed.
