(* ===== verification/DnsWire.v ===== *)
(** * DnsWire: the DNS message helpers of [src/dns/mod.rs].

    All of them index bytes that come from clients and upstream servers; they
    run in [run], with one unit of fuel per byte of the message for the loops
    over names (each turn advances by at least one byte). *)

From S2P Require Import Prelude RustStr QuicCrypto Sniff.

Local Open Scope reflex_scope.

(** The pointer test [l & 0xC0 == 0xC0]. *)
Definition is_pointer (l : Z) : bool := Z.land l 0xC0 =? 0xC0.

(** ** Names *)

(** [skip_name]; the code repeats this loop inline to pass the question. *)
Fixpoint skip_name_loop (fuel : nat) (msg : bytes) (pos : Z) : run (option Z) :=
  if len msg <=? pos then Ret None
  else
    match fuel with
    | O => Stuck
    | S fuel =>
        l ← idx msg pos;
        if l =? 0 then Ret (Some (pos + 1))
        else if is_pointer l then Ret (Some (pos + 2))
        else skip_name_loop fuel msg (pos + (1 + l))
    end.

Definition skip_name (msg : bytes) (pos : Z) : run (option Z) := skip_name_loop (length msg) msg pos.

Fixpoint qname_loop (fuel : nat) (msg : bytes) (pos : Z) (labels : list str) : run (option (list str)) :=
  if len msg <=? pos then Ret None
  else
    match fuel with
    | O => Stuck
    | S fuel =>
        n ← idx msg pos;
        if n =? 0 then Ret (Some labels)
        else if is_pointer n then Ret (Some labels)
        else
          let pos := pos + 1 in
          if pos + n >? len msg then Ret None
          else
            label ← slice msg pos (pos + n);
            qname_loop fuel msg (pos + n) (labels ++ [from_utf8_lossy label])
    end.

Definition extract_qname (msg : bytes) : run (option str) :=
  if len msg <? 13 then Ret None
  else
    labels ←? qname_loop (length msg) msg 12 [];
    Ret (match labels with [] => None | _ => Some (join [46] labels) end).

Definition extract_qtype (msg : bytes) : run (option Z) :=
  if len msg <? 13 then Ret None
  else
    pos ←? skip_name msg 12;
    if pos + 2 >? len msg then Ret None else t ← be16 msg pos; Ret (Some t).

(** ** Responses *)

Definition patch_id (resp query : bytes) : run bytes :=
  if (2 <=? len resp) && (2 <=? len query) then
    q0 ← idx query 0; v ← store resp 0 q0;
    q1 ← idx query 1; store v 1 q1
  else Ret resp.

Definition be32 (buf : bytes) (p : Z) : run Z := s ← slice buf p (p + 4); Ret (from_be_bytes s).

Definition skip_rr (msg : bytes) (pos : Z) : run (option Z) :=
  pos ←? skip_name msg pos;
  if pos + 10 >? len msg then Ret None
  else rdlength ← be16 msg (pos + 8); Ret (Some (pos + 10 + rdlength)).

(** [for _ in 0..n { pos = skip_rr(resp, pos)?; }] *)
Fixpoint skip_rrs (n : nat) (msg : bytes) (pos : Z) : run (option Z) :=
  match n with
  | O => Ret (Some pos)
  | S n => pos ←? skip_rr msg pos; skip_rrs n msg pos
  end.

(** The scan of the authority section for an SOA record. *)
Fixpoint soa_loop (n : nat) (resp : bytes) (pos : Z) : run (option Z) :=
  match n with
  | O => Ret None
  | S n =>
      let rr_start := pos in
      pos ←? skip_name resp pos;
      if pos + 10 >? len resp then Ret None
      else
        rr_type ← be16 resp pos;
        rr_ttl ← be32 resp (pos + 4);
        let pos := pos + 10 in
        if rr_type =? 6 then
          p1 ←? skip_name resp pos;
          p2 ←? skip_name resp p1;
          if p2 + 20 >? len resp then Ret None
          else minimum ← be32 resp (p2 + 16); Ret (Some (Z.min rr_ttl minimum))
        else
          pos ←? skip_rr resp rr_start;
          soa_loop n resp pos
  end.

Definition extract_soa_ttl (resp : bytes) : run (option Z) :=
  if len resp <? 12 then Ret None
  else
    nscount ← be16 resp 8;
    if nscount =? 0 then Ret None
    else
      ancount ← be16 resp 6;
      pos ←? skip_name resp 12;
      let pos := pos + 4 in
      pos ←? skip_rrs (Z.to_nat ancount) resp pos;
      soa_loop (Z.to_nat nscount) resp pos.

Definition is_cacheable_or_negative (resp : bytes) : run bool :=
  if len resp <? 12 then Ret false
  else
    b3 ← idx resp 3;
    let rcode := Z.land b3 0x0F in
    ancount ← be16 resp 6;
    if (rcode =? 0) && (ancount >? 0) then Ret true
    else if (rcode =? 0) || (rcode =? 3) then
      t ← extract_soa_ttl resp; Ret (match t with Some _ => true | None => false end)
    else Ret false.

(** The name loop of the answer scans: no pointer test after the first byte. *)
Fixpoint plain_name_loop (fuel : nat) (resp : bytes) (pos : Z) : run (option Z) :=
  if len resp <=? pos then Ret None
  else
    match fuel with
    | O => Stuck
    | S fuel =>
        l ← idx resp pos;
        if l =? 0 then Ret (Some (pos + 1)) else plain_name_loop fuel resp (pos + (1 + l))
    end.

(** [if resp[pos] & 0xC0 == 0xC0 { pos += 2 } else { loop ... }] *)
Definition answer_name (resp : bytes) (pos : Z) : run (option Z) :=
  b ← idx resp pos;
  if is_pointer b then Ret (Some (pos + 2)) else plain_name_loop (length resp) resp pos.

Definition u32_max : Z := 2 ^ 32 - 1.

(** Each turn of the answer loop; [Some] is the minimum so far, [None] an early [return None]. *)
Fixpoint min_ttl_loop (n : nat) (resp : bytes) (pos min_ttl : Z) : run (option Z) :=
  match n with
  | O => Ret (Some min_ttl)
  | S n =>
      if len resp <=? pos then Ret (Some min_ttl)
      else
        pos ←? answer_name resp pos;
        if pos + 10 >? len resp then Ret (Some min_ttl)
        else
          ttl ← be32 resp (pos + 4);
          rdlength ← be16 resp (pos + 8);
          min_ttl_loop n resp (pos + (10 + rdlength)) (if ttl <? min_ttl then ttl else min_ttl)
  end.

Definition extract_min_ttl (resp : bytes) : run (option Z) :=
  if len resp <? 12 then Ret None
  else
    ancount ← be16 resp 6;
    if ancount =? 0 then Ret None
    else
      pos ←? skip_name resp 12;
      min_ttl ←? min_ttl_loop (Z.to_nat ancount) resp (pos + 4) u32_max;
      Ret (if min_ttl =? u32_max then None else Some min_ttl).

Definition extract_min_ttl_or_negative (resp : bytes) : run (option Z) :=
  if len resp <? 12 then Ret None
  else
    b3 ← idx resp 3;
    let rcode := Z.land b3 0x0F in
    ancount ← be16 resp 6;
    if ((rcode =? 0) || (rcode =? 3)) && (ancount =? 0) then
      t ← extract_soa_ttl resp;
      Ret (Some (Z.min (match t with Some t => t | None => 300 end) 300))
    else extract_min_ttl resp.

Fixpoint first_ip_loop (n : nat) (resp : bytes) (qtype pos : Z) : run (option IpAddr) :=
  match n with
  | O => Ret None
  | S n =>
      if len resp <=? pos then Ret None
      else
        pos ←? answer_name resp pos;
        if pos + 10 >? len resp then Ret None
        else
          rr_type ← be16 resp pos;
          rdlength ← be16 resp (pos + 8);
          let pos := pos + 10 in
          if pos + rdlength >? len resp then Ret None
          else if (rr_type =? qtype) && (qtype =? 1) && (rdlength =? 4) then
            a ← slice resp pos (pos + 4); Ret (Some (V4 (from_be_bytes a)))
          else if (rr_type =? qtype) && (qtype =? 28) && (rdlength =? 16) then
            a ← slice resp pos (pos + 16); Ret (Some (V6 (from_be_bytes a)))
          else first_ip_loop n resp qtype (pos + rdlength)
  end.

Definition extract_first_ip (resp : bytes) (qtype : Z) : run (option IpAddr) :=
  if len resp <? 12 then Ret None
  else
    ancount ← be16 resp 6;
    if ancount =? 0 then Ret None
    else pos ←? skip_name resp 12; first_ip_loop (Z.to_nat ancount) resp qtype (pos + 4).

(** ** Messages built here *)

Definition make_servfail (query : bytes) : run bytes :=
  let resp := repeat 0 12 in
  resp ← (if 2 <=? len query then
            q0 ← idx query 0; r ← store resp 0 q0; q1 ← idx query 1; store r 1 q1
          else Ret resp);
  resp ← store resp 2 0x80;
  store resp 3 0x02.

Definition make_refused (query : bytes) : run bytes := v ← make_servfail query; store v 3 0x05.

Definition make_noerror_empty (query : bytes) : run bytes :=
  v ← make_servfail query; b ← idx v 2; v ← store v 2 (Z.lor b 0x04); store v 3 0x00.

Definition make_nxdomain (query : bytes) : run bytes :=
  v ← make_servfail query; b ← idx v 2; v ← store v 2 (Z.lor b 0x04); store v 3 0x03.

Definition query_header : bytes := [0; 1; 1; 0; 0; 1; 0; 0; 0; 0; 0; 0].

Definition encode_labels (labels : list str) : bytes :=
  flat_map (fun label => if len label =? 0 then [] else as_u8 (len label) :: label) labels.

Definition build_query (name : str) (qtype : Z) : bytes :=
  query_header ++ encode_labels (split_on 46 name) ++ [0] ++ to_be_bytes 2 qtype ++ [0; 1].

(** ** No message makes a helper panic or loop *)

Lemma skip_name_loop_spec fuel msg pos : bytes_ok msg -> 0 <= pos -> len msg - pos <= Z.of_nat fuel ->
  exists r, skip_name_loop fuel msg pos = Ret r /\ forall p, r = Some p -> pos < p.
Proof.
  intros Hb. revert pos. induction fuel as [|fuel IH]; intros pos Hp Hf; cbn [skip_name_loop];
    (destruct (Z.leb_spec (len msg) pos) as [Hl|Hl]; [by exists None|]); [lia|].
  destruct (idx_spec msg pos Hb) as (l & E & Hl'); [lia|]. rewrite E, bind_Ret.
  case_if; [eexists; split; [done|]; intros p [= <-]; lia|]. case_if; [eexists; split; [done|]; intros p [= <-]; lia|].
  destruct (IH (pos + (1 + l))) as (r & -> & Hr); [lia|lia|]. exists r. split; [done|]. intros p Hrp. specialize (Hr p Hrp). lia.
Qed.

Lemma plain_name_loop_spec fuel msg pos : bytes_ok msg -> 0 <= pos -> len msg - pos <= Z.of_nat fuel ->
  exists r, plain_name_loop fuel msg pos = Ret r /\ forall p, r = Some p -> pos < p.
Proof.
  intros Hb. revert pos. induction fuel as [|fuel IH]; intros pos Hp Hf; cbn [plain_name_loop];
    (destruct (Z.leb_spec (len msg) pos) as [Hl|Hl]; [by exists None|]); [lia|].
  destruct (idx_spec msg pos Hb) as (l & E & Hl'); [lia|]. rewrite E, bind_Ret.
  case_if; [eexists; split; [done|]; intros p [= <-]; lia|].
  destruct (IH (pos + (1 + l))) as (r & -> & Hr); [lia|lia|]. exists r. split; [done|]. intros p Hrp. specialize (Hr p Hrp). lia.
Qed.

(** Sequencing after a position that may be missing. *)
Lemma pos_bind_returns {A} (m : run (option Z)) (k : Z -> run (option A)) lo :
  (exists r, m = Ret r /\ forall p, r = Some p -> lo < p) -> (forall p, lo < p -> returns (k p)) ->
  returns (x ←? m; k x).
Proof. intros (r & -> & Hr) Hk. rewrite bind_Ret. destruct r as [p|]; [|apply returns_ret]. by apply Hk, Hr. Qed.

Lemma skip_name_spec msg pos : bytes_ok msg -> 0 <= pos ->
  exists r, skip_name msg pos = Ret r /\ forall p, r = Some p -> pos < p.
Proof. intros Hb Hp. apply skip_name_loop_spec; [done|done|unfold len; lia]. Qed.

Lemma answer_name_spec msg pos : bytes_ok msg -> 0 <= pos < len msg ->
  exists r, answer_name msg pos = Ret r /\ forall p, r = Some p -> pos < p.
Proof.
  intros Hb Hp. unfold answer_name. destruct (idx_spec msg pos Hb Hp) as (l & -> & _). rewrite bind_Ret.
  case_if; [eexists; split; [done|]; intros p [= <-]; lia|]. apply plain_name_loop_spec; [done|lia|unfold len in *; lia].
Qed.

Lemma skip_rr_spec msg pos : bytes_ok msg -> 0 <= pos ->
  exists r, skip_rr msg pos = Ret r /\ forall p, r = Some p -> pos < p.
Proof.
  intros Hb Hp. unfold skip_rr. destruct (skip_name_spec msg pos Hb Hp) as (r & -> & Hr). rewrite bind_Ret.
  destruct r as [p|]; [|by exists None]. specialize (Hr p eq_refl). case_if; [by exists None|]. reflect_bools.
  destruct (be16_spec msg (p + 8) Hb) as (v & -> & Hv); [lia|lia|]. rewrite bind_Ret. eexists. split; [done|].
  intros q [= <-]. lia.
Qed.

Lemma skip_rrs_spec n msg pos : bytes_ok msg -> 0 <= pos ->
  exists r, skip_rrs n msg pos = Ret r /\ forall p, r = Some p -> pos <= p.
Proof.
  intros Hb. revert pos. induction n as [|n IH]; intros pos Hp; cbn [skip_rrs].
  - eexists. split; [done|]. intros p [= <-]. done.
  - destruct (skip_rr_spec msg pos Hb Hp) as (r & -> & Hr). rewrite bind_Ret. destruct r as [p|]; [|by exists None].
    specialize (Hr p eq_refl). destruct (IH p) as (r & -> & Hr'); [lia|]. exists r. split; [done|].
    intros q Hq. specialize (Hr' q Hq). lia.
Qed.

Lemma be32_returns msg p : 0 <= p -> p + 4 <= len msg -> returns (be32 msg p).
Proof. intros Hp Hl. unfold be32. apply returns_bind; [apply slice_returns; lia|]. intros; apply returns_ret. Qed.

Ltac dns_step :=
  first [ safe_step
        | apply returns_bind; [apply be32_returns; lia|intros ? _]
        | eapply pos_bind_returns;
          [first [apply skip_name_spec | apply skip_rr_spec | apply answer_name_spec]; [done|lia]|intros ? ?] ].

Lemma soa_loop_returns n msg pos : bytes_ok msg -> 0 <= pos -> returns (soa_loop n msg pos).
Proof.
  intros Hb. revert pos. induction n as [|n IH]; intros pos Hp; cbn [soa_loop]; [apply returns_ret|].
  repeat dns_step. apply IH. lia.
Qed.

Lemma extract_soa_ttl_returns msg : bytes_ok msg -> returns (extract_soa_ttl msg).
Proof.
  intros Hb. unfold extract_soa_ttl. repeat dns_step. cbv zeta.
  match goal with |- context [skip_rrs ?n msg ?p] =>
    destruct (skip_rrs_spec n msg p Hb) as (r & -> & Hr); [lia|] end. rewrite bind_Ret.
  destruct r as [q|]; [|apply returns_ret]. specialize (Hr q eq_refl). apply soa_loop_returns; [done|lia].
Qed.

Lemma min_ttl_loop_returns n msg pos m : bytes_ok msg -> 0 <= pos -> returns (min_ttl_loop n msg pos m).
Proof.
  intros Hb. revert pos m. induction n as [|n IH]; intros pos m Hp; cbn [min_ttl_loop]; [apply returns_ret|].
  destruct (Z.leb_spec (len msg) pos); [apply returns_ret|]. repeat dns_step. all: apply IH; lia.
Qed.

Lemma first_ip_loop_returns n msg qt pos : bytes_ok msg -> 0 <= pos -> returns (first_ip_loop n msg qt pos).
Proof.
  intros Hb. revert pos. induction n as [|n IH]; intros pos Hp; cbn [first_ip_loop]; [apply returns_ret|].
  destruct (Z.leb_spec (len msg) pos); [apply returns_ret|]. repeat dns_step. all: apply IH; lia.
Qed.

Lemma qname_loop_returns fuel msg pos ls : bytes_ok msg -> 0 <= pos -> len msg - pos <= Z.of_nat fuel ->
  returns (qname_loop fuel msg pos ls).
Proof.
  intros Hb. revert pos ls. induction fuel as [|fuel IH]; intros pos ls Hp Hf; cbn [qname_loop];
    (destruct (Z.leb_spec (len msg) pos); [apply returns_ret|]); [lia|]. repeat dns_step. all: apply IH; lia.
Qed.

Lemma extract_min_ttl_returns msg : bytes_ok msg -> returns (extract_min_ttl msg).
Proof.
  intros Hb. unfold extract_min_ttl. repeat dns_step. cbv zeta.
  match goal with |- context [min_ttl_loop ?n msg ?p ?m] =>
    destruct (min_ttl_loop_returns n msg p m Hb) as [r ->]; [lia|] end. rewrite bind_Ret. destruct r; apply returns_ret.
Qed.

Lemma make_servfail_returns q : exists r, make_servfail q = Ret r /\ length r = 12%nat /\ nth 2 r 0 = 0x80.
Proof.
  unfold make_servfail. cbv zeta. destruct (Z.leb_spec 2 (len q)).
  - destruct (idx_inrange q 0) as (q0 & _ & ->); [lia|]. destruct (idx_inrange q 1) as (q1 & _ & ->); [lia|].
    eexists. split; [reflexivity|done].
  - eexists. split; [reflexivity|done].
Qed.

Lemma dns_wire_returns (msg query : bytes) (qtype : Z) :
  bytes_ok msg ->
  returns (extract_qname msg) /\ returns (extract_qtype msg) /\ returns (extract_soa_ttl msg) /\
  returns (is_cacheable_or_negative msg) /\ returns (extract_min_ttl_or_negative msg) /\
  returns (extract_first_ip msg qtype) /\ returns (patch_id msg query) /\
  returns (make_servfail query) /\ returns (make_refused query) /\ returns (make_noerror_empty query) /\
  returns (make_nxdomain query).
Proof.
  intros Hb. split_and!.
  - unfold extract_qname. case_if; [apply returns_ret|]. reflect_bools.
    destruct (qname_loop_returns (length msg) msg 12 [] Hb) as [r ->]; [lia|unfold len; lia|]. rewrite bind_Ret.
    destruct r as [[|]|]; apply returns_ret.
  - unfold extract_qtype. repeat dns_step.
  - by apply extract_soa_ttl_returns.
  - unfold is_cacheable_or_negative. repeat dns_step.
    all: apply returns_bind; [by apply extract_soa_ttl_returns|]; intros [t|] _; apply returns_ret.
  - unfold extract_min_ttl_or_negative. repeat dns_step. all: try by apply extract_min_ttl_returns.
    all: apply returns_bind; [by apply extract_soa_ttl_returns|]; intros [t|] _; apply returns_ret.
  - unfold extract_first_ip. repeat dns_step. apply first_ip_loop_returns; [done|lia].
  - unfold patch_id. case_if; [|apply returns_ret]. reflect_bools.
    destruct (idx_inrange query 0) as (q0 & _ & ->); [lia|]. destruct (idx_inrange query 1) as (q1 & _ & ->); [lia|].
    destruct msg as [|m0 [|m1 msg]]; rewrite ?len_cons in *; try (unfold len in *; simpl in *; lia).
    rewrite !bind_Ret. unfold store at 2. rewrite !len_cons. pose proof (len_nonneg msg).
    replace ((0 <=? 0) && (0 <? 1 + (1 + len msg))) with true by bool_lia. rewrite bind_Ret, bind_Ret.
    unfold store. simpl (<[_ := _]> _). rewrite !len_cons.
    replace ((0 <=? 1) && (1 <? 1 + (1 + len msg))) with true by bool_lia. apply returns_ret.
  - destruct (make_servfail_returns query) as (r & -> & _). apply returns_ret.
  - unfold make_refused. destruct (make_servfail_returns query) as (r & -> & Hr & _). rewrite bind_Ret.
    do 13 (destruct r as [|? r]; try done). by eexists.
  - unfold make_noerror_empty. destruct (make_servfail_returns query) as (r & -> & Hr & _). rewrite bind_Ret.
    do 13 (destruct r as [|? r]; try done). by eexists.
  - unfold make_nxdomain. destruct (make_servfail_returns query) as (r & -> & Hr & _). rewrite bind_Ret.
    do 13 (destruct r as [|? r]; try done). by eexists.
Qed.

(** DNS parsing is total: for any bytes from a client or an upstream server, every
    wire helper returns; no index is out of range and no loop runs for ever, be it
    on truncated messages, bad counts or compression pointers. *)
Theorem dns_wire_total (msg query : bytes) (qtype : Z) :
  bytes_ok msg ->
  returns (extract_qname msg) /\ returns (extract_qtype msg) /\ returns (extract_soa_ttl msg) /\
  returns (is_cacheable_or_negative msg) /\ returns (extract_min_ttl_or_negative msg) /\
  returns (extract_first_ip msg qtype) /\ returns (patch_id msg query) /\
  returns (make_servfail query) /\ returns (make_refused query) /\ returns (make_noerror_empty query) /\
  returns (make_nxdomain query).
Proof. apply dns_wire_returns. Qed.

Lemma dns_wire_total_witness :
  returns (extract_qname (repeat 0xC0 12)) /\ returns (extract_first_ip (repeat 0xC0 12) 1).
Proof.
  destruct (dns_wire_total (repeat 0xC0 12) [] 1) as (H1 & _ & _ & _ & _ & H2 & _).
  - apply (bool_decide_eq_true_1 (bytes_ok _)). vm_compute. reflexivity.
  - split; assumption.
Defined.

(** ** Queries are read back *)

Lemma is_pointer_spec l : 0 <= l < 256 -> is_pointer l = (192 <=? l).
Proof. apply (octet_table is_pointer (fun l => 192 <=? l)). vm_compute. reflexivity. Qed.

(** A label that the wire format can carry: one to 191 bytes (longer ones would read as pointers). *)
Definition label_ok (l : str) : Prop := 0 < len l < 192 /\ utf8_valid l = true.

Definition wire_name (ls : list str) : bytes := flat_map (fun l => len l :: l) ls ++ [0].

Lemma wire_name_cons l ls : wire_name (l :: ls) = (len l :: l) ++ wire_name ls.
Proof. unfold wire_name. cbn [flat_map]. by rewrite <-app_assoc. Qed.

Lemma encode_labels_filter labels : Forall (fun l => len l < 192) labels ->
  encode_labels labels ++ [0] = wire_name (List.filter (fun l => negb (len l =? 0)) labels).
Proof.
  unfold wire_name, encode_labels. induction 1 as [|l ls Hl _ IH]; [done|]. cbn [flat_map List.filter].
  destruct (len l =? 0); [done|]. cbn [negb flat_map]. rewrite <-!app_assoc, IH. unfold as_u8, wrap.
  pose proof (len_nonneg l). by rewrite Z.mod_small by lia.
Qed.

Lemma qname_loop_spec ls pre post acc fuel p : Forall label_ok ls -> p = len pre ->
  (length (wire_name ls) <= fuel)%nat ->
  qname_loop fuel (pre ++ wire_name ls ++ post) p acc = Ret (Some (acc ++ ls)).
Proof.
  intros Hls. revert pre acc fuel p. induction Hls as [|l ls [Hl Hu] Hls IH]; intros pre acc fuel p Ep Hf.
  - destruct fuel as [|fuel]; [simpl in Hf; lia|]. cbn [qname_loop]. change (wire_name [] ++ post) with (0 :: post).
    rewrite len_app, len_cons. pose proof (len_nonneg post). rewrite (proj2 (Z.leb_gt _ _)) by lia.
    rewrite idx_mid by done. rewrite bind_Ret. by rewrite app_nil_r.
  - rewrite wire_name_cons in *. rewrite length_app in Hf. cbn [length] in Hf.
    destruct fuel as [|fuel]; [lia|]. cbn [qname_loop].
    assert (Hlen : len pre + 1 + len l < len (pre ++ ((len l :: l) ++ wire_name ls) ++ post)).
    { unfold wire_name. rewrite !len_app, len_cons. change (len [0]) with 1. pose proof (len_nonneg post).
      pose proof (len_nonneg (flat_map (fun l => len l :: l) ls)). lia. }
    rewrite (proj2 (Z.leb_gt _ _)) by lia. rewrite (idx_at _ pre (len l) (l ++ wire_name ls ++ post)); [|app_eq|done].
    rewrite bind_Ret. rewrite (proj2 (Z.eqb_neq _ _)) by lia. rewrite is_pointer_spec, (proj2 (Z.leb_gt _ _)) by lia.
    rewrite Z.gtb_ltb, (proj2 (Z.ltb_ge _ _)) by lia.
    rewrite (slice_at _ (pre ++ [len l]) l (wire_name ls ++ post)); [|app_eq|rewrite len_app, len_sing; lia|done].
    rewrite bind_Ret, from_utf8_lossy_valid by done.
    replace (pre ++ ((len l :: l) ++ wire_name ls) ++ post) with ((pre ++ len l :: l) ++ wire_name ls ++ post) by app_eq.
    rewrite IH; [by rewrite <-app_assoc|rewrite len_app, len_cons; lia|unfold wire_name in *; lia].
Qed.

Lemma skip_name_wire ls pre post p fuel : Forall (fun l => 0 < len l < 192) ls -> p = len pre ->
  (length (wire_name ls) <= fuel)%nat ->
  skip_name_loop fuel (pre ++ wire_name ls ++ post) p = Ret (Some (p + len (wire_name ls))).
Proof.
  intros Hls. revert pre fuel p. induction Hls as [|l ls Hl Hls IH]; intros pre fuel p Ep Hf.
  - destruct fuel as [|fuel]; [simpl in Hf; lia|]. cbn [skip_name_loop]. change (wire_name [] ++ post) with (0 :: post).
    rewrite len_app, len_cons. pose proof (len_nonneg post). rewrite (proj2 (Z.leb_gt _ _)) by lia.
    by rewrite idx_mid, bind_Ret by done.
  - rewrite wire_name_cons in *. rewrite length_app in Hf. cbn [length] in Hf. destruct fuel as [|fuel]; [lia|]. cbn [skip_name_loop].
    assert (Hlen : len pre + 1 + len l <= len (pre ++ ((len l :: l) ++ wire_name ls) ++ post)).
    { rewrite !len_app, len_cons. pose proof (len_nonneg post). pose proof (len_nonneg (wire_name ls)). lia. }
    rewrite (proj2 (Z.leb_gt _ _)) by lia. rewrite (idx_at _ pre (len l) (l ++ wire_name ls ++ post)); [|app_eq|done].
    rewrite bind_Ret, (proj2 (Z.eqb_neq _ _)) by lia. rewrite is_pointer_spec, (proj2 (Z.leb_gt _ _)) by lia.
    replace (pre ++ ((len l :: l) ++ wire_name ls) ++ post) with ((pre ++ len l :: l) ++ wire_name ls ++ post) by app_eq.
    rewrite IH; [|rewrite len_app, len_cons; lia|unfold wire_name in *; lia]. rewrite len_app, len_cons. do 2 f_equal. lia.
Qed.

Lemma query_roundtrip_ok (name : str) (qtype : Z) :
  let labels := List.filter (fun l => negb (len l =? 0)) (split_on 46 name) in
  Forall (fun l => len l < 192 /\ utf8_valid l = true) (split_on 46 name) -> labels <> [] -> in_width 16 qtype ->
  extract_qname (build_query name qtype) = Ret (Some (join [46] labels)) /\
  extract_qtype (build_query name qtype) = Ret (Some qtype).
Proof.
  intros labels Hok Hne Hq.
  assert (Hls : Forall label_ok labels).
  { apply Forall_forall. intros l Hl. apply list_elem_of_In, filter_In in Hl as [Hin Hn].
    rewrite Forall_forall in Hok. destruct (Hok l) as [H1 H2]; [by apply list_elem_of_In|].
    pose proof (len_nonneg l). reflect_bools. split; [lia|done]. }
  assert (Hmsg : build_query name qtype = query_header ++ wire_name labels ++ to_be_bytes 2 qtype ++ [0; 1]).
  { unfold build_query. rewrite (app_assoc (encode_labels _)), encode_labels_filter; [done|].
    eapply Forall_impl; [exact Hok|]. by intros l [? _]. }
  assert (Hw : 1 <= len (wire_name labels)) by (unfold wire_name; rewrite len_app; change (len [0]) with 1; pose proof (len_nonneg (flat_map (fun l => len l :: l) labels)); lia).
  assert (Hlen : len (query_header ++ wire_name labels ++ to_be_bytes 2 qtype ++ [0; 1]) = 16 + len (wire_name labels))
    by (rewrite !len_app, len_be2; change (len query_header) with 12; change (len [0; 1]) with 2; lia).
  rewrite Hmsg. split.
  - unfold extract_qname. rewrite Hlen, (proj2 (Z.ltb_ge _ _)) by lia.
    rewrite qname_loop_spec; [|done|done|rewrite !length_app; lia]. rewrite bind_Ret. by destruct labels.
  - unfold extract_qtype. rewrite Hlen, (proj2 (Z.ltb_ge _ _)) by lia. unfold skip_name.
    rewrite skip_name_wire; [|eapply Forall_impl; [exact Hls|]; by intros l [? _]|done|rewrite !length_app; lia].
    rewrite bind_Ret. rewrite Z.gtb_ltb, (proj2 (Z.ltb_ge _ _)) by lia.
    rewrite (be16_at _ (query_header ++ wire_name labels) qtype [0; 1]); [done|app_eq|rewrite len_app; done|exact Hq].
Qed.

(** Queries round-trip: the name and type of a query built for a domain are read
    back from its bytes, empty labels (such as a trailing dot) being dropped. *)
Theorem query_roundtrip (name : str) (qtype : Z) :
  let labels := List.filter (fun l => negb (len l =? 0)) (split_on 46 name) in
  Forall (fun l => len l < 192 /\ utf8_valid l = true) (split_on 46 name) -> labels <> [] -> in_width 16 qtype ->
  extract_qname (build_query name qtype) = Ret (Some (join [46] labels)) /\
  extract_qtype (build_query name qtype) = Ret (Some qtype).
Proof. apply query_roundtrip_ok. Qed.

Lemma query_roundtrip_witness :
  extract_qname (build_query (lit "www.example.com.") 28) = Ret (Some (lit "www.example.com")) /\
  extract_qtype (build_query (lit "www.example.com.") 28) = Ret (Some 28).
Proof.
  apply (query_roundtrip (lit "www.example.com.") 28).
  - repeat constructor; vm_compute; done.
  - vm_compute. discriminate.
  - vm_compute. done.
Defined.

(** ** What is read from a well-formed response *)

Inductive rr_owner : Type :=
  | OPtr (lo : Z)
  | OPlain (ls : list str).

Definition enc_owner (o : rr_owner) : bytes :=
  match o with
  | OPtr lo => [0xC0; lo]
  | OPlain ls => wire_name ls
  end.

Record rr : Type := mkRR { owner : rr_owner; rtype : Z; rclass : bytes; ttl : Z; rdata : bytes }.

Definition enc_rr (r : rr) : bytes :=
  enc_owner (owner r) ++ to_be_bytes 2 (rtype r) ++ rclass r ++ to_be_bytes 4 (ttl r)
  ++ to_be_bytes 2 (len (rdata r)) ++ rdata r.

(** Owners are written as a pointer or in full; numbers fit their fields. *)
Definition rr_ok (r : rr) : Prop :=
  match owner r with OPtr _ => True | OPlain ls => Forall (fun l => 0 < len l < 192) ls end /\
  0 <= rtype r < 65536 /\ len (rclass r) = 2 /\ 0 <= ttl r < 2 ^ 32 /\ len (rdata r) < 65536.

(** A response: header with its answer count, question, answers, anything after. *)
Definition response (h6 h4 : bytes) (qname : list str) (qend : bytes) (answers : list rr) (tail : bytes) : bytes :=
  h6 ++ to_be_bytes 2 (len answers) ++ h4 ++ wire_name qname ++ qend ++ flat_map enc_rr answers ++ tail.

Definition response_ok (h6 h4 : bytes) (qname : list str) (qend : bytes) (answers : list rr) : Prop :=
  len h6 = 6 /\ len h4 = 4 /\ len qend = 4 /\ Forall (fun l => 0 < len l < 192) qname /\
  Forall rr_ok answers /\ 0 < len answers < 65536.

Lemma plain_name_wire ls pre post p fuel : Forall (fun l => 0 < len l < 192) ls -> p = len pre ->
  (length (wire_name ls) <= fuel)%nat ->
  plain_name_loop fuel (pre ++ wire_name ls ++ post) p = Ret (Some (p + len (wire_name ls))).
Proof.
  intros Hls. revert pre fuel p. induction Hls as [|l ls Hl Hls IH]; intros pre fuel p Ep Hf.
  - destruct fuel as [|fuel]; [simpl in Hf; lia|]. cbn [plain_name_loop]. change (wire_name [] ++ post) with (0 :: post).
    rewrite len_app, len_cons. pose proof (len_nonneg post). rewrite (proj2 (Z.leb_gt _ _)) by lia.
    by rewrite idx_mid, bind_Ret by done.
  - rewrite wire_name_cons in *. rewrite length_app in Hf. cbn [length] in Hf. destruct fuel as [|fuel]; [lia|]. cbn [plain_name_loop].
    assert (Hlen : len pre + 1 + len l <= len (pre ++ ((len l :: l) ++ wire_name ls) ++ post)).
    { rewrite !len_app, len_cons. pose proof (len_nonneg post). pose proof (len_nonneg (wire_name ls)). lia. }
    rewrite (proj2 (Z.leb_gt _ _)) by lia. rewrite (idx_at _ pre (len l) (l ++ wire_name ls ++ post)); [|app_eq|done].
    rewrite bind_Ret, (proj2 (Z.eqb_neq _ _)) by lia.
    replace (pre ++ ((len l :: l) ++ wire_name ls) ++ post) with ((pre ++ len l :: l) ++ wire_name ls ++ post) by app_eq.
    rewrite IH; [|rewrite len_app, len_cons; lia|lia]. rewrite len_app, len_cons. do 2 f_equal. lia.
Qed.

Lemma answer_name_wire o pre post p :
  match o with OPtr _ => True | OPlain ls => Forall (fun l => 0 < len l < 192) ls end -> p = len pre ->
  answer_name (pre ++ enc_owner o ++ post) p = Ret (Some (p + len (enc_owner o))).
Proof.
  intros Ho ->. unfold answer_name. destruct o as [lo|ls]; cbn [enc_owner].
  - rewrite (idx_at _ pre 0xC0 (lo :: post)); [|app_eq|done]. rewrite bind_Ret. done.
  - assert (Hh : exists b r, wire_name ls ++ post = b :: r /\ 0 <= b < 192).
    { destruct ls as [|l ls]; [by exists 0, post|]. inversion Ho; subst. rewrite wire_name_cons.
      exists (len l), ((l ++ wire_name ls) ++ post). split; [done|lia]. }
    destruct Hh as (b & r & E & Hb). rewrite E at 1. rewrite idx_mid by done. rewrite bind_Ret.
    rewrite is_pointer_spec, (proj2 (Z.leb_gt _ _)) by lia. apply plain_name_wire; [done|done|rewrite !length_app; lia].
Qed.

Lemma be32_at buf pre n post p : buf = pre ++ to_be_bytes 4 n ++ post -> p = len pre -> 0 <= n < 2 ^ 32 ->
  be32 buf p = Ret n.
Proof.
  intros -> -> Hn. unfold be32. rewrite slice_app_mid by (done || by rewrite len_to_be_bytes). rewrite bind_Ret.
  by rewrite from_to_be_bytes_id.
Qed.

Lemma len_be4 n : len (to_be_bytes 4 n) = 4.
Proof. by rewrite len_to_be_bytes. Qed.

Ltac dns_len := rewrite ?len_app, ?len_be2, ?len_be4, ?len_cons, ?len_sing in *; try lia.

(** The fields of the record at a position: owner end, type, TTL, data length. *)
Lemma rr_fields r pre post : rr_ok r ->
  let buf := pre ++ enc_rr r ++ post in
  let e := len pre + len (enc_owner (owner r)) in
  answer_name buf (len pre) = Ret (Some e) /\ be16 buf e = Ret (rtype r) /\ be32 buf (e + 4) = Ret (ttl r) /\
  be16 buf (e + 8) = Ret (len (rdata r)) /\ e + 10 + len (rdata r) = len pre + len (enc_rr r) /\
  len pre + len (enc_rr r) <= len buf /\ len pre < e /\
  buf = (pre ++ enc_owner (owner r) ++ to_be_bytes 2 (rtype r) ++ rclass r ++ to_be_bytes 4 (ttl r)
        ++ to_be_bytes 2 (len (rdata r))) ++ rdata r ++ post.
Proof.
  intros (Ho & Ht & Hc & Httl & Hd) buf e. subst buf e. unfold enc_rr. pose proof (len_nonneg (rdata r)). pose proof (len_nonneg post).
  assert (Hol : 0 < len (enc_owner (owner r))).
  { destruct (owner r); cbn [enc_owner]; [done|]. unfold wire_name. rewrite len_app. change (len [0]) with 1.
    pose proof (len_nonneg (flat_map (fun l => len l :: l) ls)). lia. }
  split_and!.
  - rewrite <-app_assoc. by apply answer_name_wire.
  - eapply (be16_at _ (pre ++ enc_owner (owner r))); [app_eq|dns_len|lia].
  - eapply (be32_at _ (pre ++ enc_owner (owner r) ++ to_be_bytes 2 (rtype r) ++ rclass r)); [app_eq|dns_len|lia].
  - eapply (be16_at _ (pre ++ enc_owner (owner r) ++ to_be_bytes 2 (rtype r) ++ rclass r ++ to_be_bytes 4 (ttl r))); [app_eq|dns_len|lia].
  - dns_len.
  - dns_len.
  - lia.
  - app_eq.
Qed.

(** The smallest TTL, starting from [m]. *)
Definition min_ttl_of (m : Z) (rs : list rr) : Z := fold_left (fun m r => Z.min m (ttl r)) rs m.

Lemma min_ttl_loop_answers rs pre post m p : Forall rr_ok rs -> p = len pre ->
  min_ttl_loop (length rs) (pre ++ flat_map enc_rr rs ++ post) p m = Ret (Some (min_ttl_of m rs)).
Proof.
  intros Hrs. revert pre m p. induction Hrs as [|r rs Hr Hrs IH]; intros pre m p ->; [done|].
  cbn [length min_ttl_loop flat_map].
  destruct (rr_fields r pre (flat_map enc_rr rs ++ post) Hr) as (E1 & E2 & E3 & E4 & E5 & E6 & E7 & _).
  rewrite <-app_assoc. pose proof (len_nonneg pre). pose proof (len_nonneg (rdata r)).
  rewrite (proj2 (Z.leb_gt _ _)) by lia. rewrite E1, bind_Ret. rewrite Z.gtb_ltb, (proj2 (Z.ltb_ge _ _)) by lia.
  rewrite E3, bind_Ret, E4, bind_Ret. rewrite (app_assoc pre). rewrite IH by (rewrite len_app; lia).
  do 2 f_equal. unfold min_ttl_of. cbn [fold_left]. f_equal. destruct (Z.ltb_spec (ttl r) m); lia.
Qed.

(** The address a record carries for a query type. *)
Definition rr_address (qtype : Z) (r : rr) : option IpAddr :=
  if (rtype r =? qtype) && (qtype =? 1) && (len (rdata r) =? 4) then Some (V4 (from_be_bytes (rdata r)))
  else if (rtype r =? qtype) && (qtype =? 28) && (len (rdata r) =? 16) then Some (V6 (from_be_bytes (rdata r)))
  else None.

Fixpoint first_address (qtype : Z) (rs : list rr) : option IpAddr :=
  match rs with
  | [] => None
  | r :: rs => match rr_address qtype r with Some a => Some a | None => first_address qtype rs end
  end.

Lemma first_ip_loop_answers rs pre post qtype p : Forall rr_ok rs -> p = len pre ->
  first_ip_loop (length rs) (pre ++ flat_map enc_rr rs ++ post) qtype p = Ret (first_address qtype rs).
Proof.
  intros Hrs. revert pre p. induction Hrs as [|r rs Hr Hrs IH]; intros pre p ->; [done|].
  cbn [length first_ip_loop flat_map first_address].
  destruct (rr_fields r pre (flat_map enc_rr rs ++ post) Hr) as (E1 & E2 & E3 & E4 & E5 & E6 & E7 & E8).
  rewrite <-app_assoc. pose proof (len_nonneg pre). pose proof (len_nonneg (rdata r)).
  rewrite (proj2 (Z.leb_gt _ _)) by lia. rewrite E1, bind_Ret. rewrite Z.gtb_ltb, (proj2 (Z.ltb_ge _ _)) by lia.
  rewrite E2, bind_Ret, E4, bind_Ret. cbv zeta. rewrite Z.gtb_ltb, (proj2 (Z.ltb_ge _ _)) by lia. unfold rr_address.
  assert (Hs : forall n, len (rdata r) = n -> slice (pre ++ enc_rr r ++ flat_map enc_rr rs ++ post)
    (len pre + len (enc_owner (owner r)) + 10) (len pre + len (enc_owner (owner r)) + 10 + n) = Ret (rdata r)).
  { intros n Hn. rewrite E8. apply slice_app_mid; [|lia]. destruct Hr as (_ & _ & Hc & _). dns_len. }
  destruct ((rtype r =? qtype) && (qtype =? 1) && (len (rdata r) =? 4)) eqn:C1.
  { reflect_bools. by rewrite Hs, bind_Ret by done. }
  destruct ((rtype r =? qtype) && (qtype =? 28) && (len (rdata r) =? 16)) eqn:C2.
  { reflect_bools. by rewrite Hs, bind_Ret by done. }
  rewrite (app_assoc pre). apply IH. rewrite len_app. lia.
Qed.

Lemma response_answers_ok (h6 h4 : bytes) (qname : list str) (qend : bytes) (answers : list rr) (tail : bytes) (qtype : Z) :
  response_ok h6 h4 qname qend answers ->
  let resp := response h6 h4 qname qend answers tail in
  extract_min_ttl resp =
    Ret (let m := min_ttl_of u32_max answers in if m =? u32_max then None else Some m) /\
  extract_first_ip resp qtype = Ret (first_address qtype answers).
Proof.
  intros (H6 & H4 & Hq & Hqn & Hrs & Hn) resp. subst resp.
  set (resp := response h6 h4 qname qend answers tail).
  set (hd := h6 ++ to_be_bytes 2 (len answers) ++ h4). assert (Hhd : len hd = 12) by (unfold hd; dns_len).
  set (pre := hd ++ wire_name qname ++ qend).
  assert (Er : resp = pre ++ flat_map enc_rr answers ++ tail) by (unfold resp, response, pre, hd; app_eq).
  assert (Hpre : len pre = 12 + len (wire_name qname) + 4) by (unfold pre; dns_len).
  assert (Hl : 12 <= len resp) by (rewrite Er, len_app; pose proof (len_nonneg (wire_name qname)); pose proof (len_nonneg (flat_map enc_rr answers ++ tail)); lia).
  assert (Ha : be16 resp 6 = Ret (len answers)).
  { eapply (be16_at _ h6); [unfold resp, response; reflexivity|done|lia]. }
  assert (Hs : skip_name resp 12 = Ret (Some (12 + len (wire_name qname)))).
  { unfold skip_name. rewrite Er. unfold pre. rewrite <-!app_assoc. apply skip_name_wire; [done|done|rewrite !length_app; lia]. }
  assert (Hcount : Z.to_nat (len answers) = length answers) by (unfold len; lia).
  unfold extract_min_ttl, extract_first_ip. rewrite (proj2 (Z.ltb_ge _ _)) by lia.
  rewrite Ha, !bind_Ret, (proj2 (Z.eqb_neq _ _)) by lia. rewrite Hs, !bind_Ret, Hcount, Er. split.
  - by rewrite min_ttl_loop_answers, bind_Ret by (done || lia).
  - by apply first_ip_loop_answers.
Qed.

(** Responses: of any well-formed response whose record owners are written as a
    pointer or in full, the cache time to live is the smallest TTL of the answers
    and the address found is that of the first answer of the wanted type. *)
Theorem response_answers (h6 h4 : bytes) (qname : list str) (qend : bytes) (answers : list rr) (tail : bytes) (qtype : Z) :
  response_ok h6 h4 qname qend answers ->
  let resp := response h6 h4 qname qend answers tail in
  extract_min_ttl resp =
    Ret (let m := min_ttl_of u32_max answers in if m =? u32_max then None else Some m) /\
  extract_first_ip resp qtype = Ret (first_address qtype answers).
Proof. apply response_answers_ok. Qed.

Lemma response_answers_witness :
  extract_first_ip (response [0; 1; 0x81; 0x80; 0; 1] [0; 0; 0; 0] [lit "a"; lit "com"] [0; 1; 0; 1]
      [mkRR (OPtr 12) 5 [0; 1] 60 [1; 98; 0xC0; 14]; mkRR (OPlain [lit "b"; lit "com"]) 1 [0; 1] 30 [1; 2; 3; 4]] []) 1
  = Ret (Some (V4 0x01020304)).
Proof.
  apply (response_answers [0; 1; 0x81; 0x80; 0; 1] [0; 0; 0; 0] [lit "a"; lit "com"] [0; 1; 0; 1]
      [mkRR (OPtr 12) 5 [0; 1] 60 [1; 98; 0xC0; 14]; mkRR (OPlain [lit "b"; lit "com"]) 1 [0; 1] 30 [1; 2; 3; 4]] [] 1).
  split_and!; try reflexivity; repeat (apply Forall_cons; split); try apply Forall_nil; try exact I;
    unfold rr_ok; cbn [owner rtype rclass ttl rdata]; split_and!; try reflexivity; try lia; try exact I.
  repeat (apply Forall_cons; split; [split; reflexivity|]). apply Forall_nil. exact I.
Defined.

(** Negative answers are cached for at most five minutes: an empty NOERROR or
    NXDOMAIN response always gets a time to live of at most 300 seconds. *)
Theorem negative_ttl_bound (resp : bytes) (b3 : Z) :
  bytes_ok resp -> 12 <= len resp -> idx resp 3 = Ret b3 -> Z.land b3 0x0F = 0 \/ Z.land b3 0x0F = 3 ->
  be16 resp 6 = Ret 0 ->
  exists t, extract_min_ttl_or_negative resp = Ret (Some t) /\ t <= 300.
Proof.
  intros Hb Hl H3 Hrc Han. unfold extract_min_ttl_or_negative. rewrite (proj2 (Z.ltb_ge _ _)) by lia.
  rewrite H3, bind_Ret, Han, bind_Ret. cbv zeta.
  replace ((Z.land b3 15 =? 0) || (Z.land b3 15 =? 3)) with true by (destruct Hrc as [-> | ->]; done).
  cbn [Z.eqb andb]. destruct (extract_soa_ttl_returns resp Hb) as [t ->]. rewrite bind_Ret.
  destruct t as [t|]; (eexists; split; [done|]); lia.
Qed.

Lemma negative_ttl_bound_witness :
  exists t, extract_min_ttl_or_negative [0; 1; 0x81; 0x83; 0; 1; 0; 0; 0; 0; 0; 0] = Ret (Some t) /\ t <= 300.
Proof.
  apply (negative_ttl_bound [0; 1; 0x81; 0x83; 0; 1; 0; 0; 0; 0; 0; 0] 0x83); try (vm_compute; reflexivity).
  - apply (bool_decide_eq_true_1 (bytes_ok _)). vm_compute. reflexivity.
  - vm_compute. discriminate.
  - right. reflexivity.
Defined.

(** Partly compressed owners: an answer whose owner is a label followed by a
    compression pointer (a form RFC 1035 allows) is not recognised: its address
    and its TTL are both lost. *)
Theorem partly_compressed_owner_lost :
  let resp := [0; 1; 0x81; 0x80; 0; 1; 0; 1; 0; 0; 0; 0] ++ wire_name [lit "example"; lit "com"] ++ [0; 1; 0; 1]
              ++ [3; 119; 119; 119; 0xC0; 12; 0; 1; 0; 1; 0; 0; 0; 60; 0; 4; 1; 2; 3; 4] in
  extract_first_ip resp 1 = Ret None /\ extract_min_ttl resp = Ret None.
Proof. split; vm_compute; reflexivity. Qed.

(** Synthetic responses: each copies the query's identifier, sets the response bit
    and carries its own response code; patching an upstream answer replaces its
    identifier and nothing else. *)
Theorem synthetic_responses (q0 q1 : Z) (query : bytes) (r0 r1 : Z) (resp : bytes) :
  make_servfail (q0 :: q1 :: query) = Ret [q0; q1; 0x80; 2; 0; 0; 0; 0; 0; 0; 0; 0] /\
  make_refused (q0 :: q1 :: query) = Ret [q0; q1; 0x80; 5; 0; 0; 0; 0; 0; 0; 0; 0] /\
  make_noerror_empty (q0 :: q1 :: query) = Ret [q0; q1; 0x84; 0; 0; 0; 0; 0; 0; 0; 0; 0] /\
  make_nxdomain (q0 :: q1 :: query) = Ret [q0; q1; 0x84; 3; 0; 0; 0; 0; 0; 0; 0; 0] /\
  patch_id (r0 :: r1 :: resp) (q0 :: q1 :: query) = Ret (q0 :: q1 :: resp).
Proof.
  assert (H2 : forall (l : bytes) (a b : Z), (2 <=? len (a :: b :: l)) = true)
    by (intros l a b; rewrite !len_cons; pose proof (len_nonneg l); bool_lia).
  assert (Hi : forall (l : bytes) (a b : Z), idx (a :: b :: l) 0 = Ret a /\ idx (a :: b :: l) 1 = Ret b).
  { intros l a b. split; [exact (idx_mid [] a (b :: l) 0 eq_refl)|exact (idx_mid [a] b l 1 eq_refl)]. }
  assert (Hs : make_servfail (q0 :: q1 :: query) = Ret [q0; q1; 0x80; 2; 0; 0; 0; 0; 0; 0; 0; 0]).
  { unfold make_servfail. cbv zeta. rewrite H2. destruct (Hi query q0 q1) as [-> ->]. reflexivity. }
  unfold make_refused, make_noerror_empty, make_nxdomain. rewrite Hs, !bind_Ret.
  split_and!; try reflexivity. unfold patch_id. rewrite !H2. cbn [andb]. destruct (Hi query q0 q1) as [-> ->].
  rewrite !bind_Ret. unfold store at 2. rewrite !len_cons. pose proof (len_nonneg resp).
  replace ((0 <=? 0) && (0 <? 1 + (1 + len resp))) with true by bool_lia. rewrite !bind_Ret.
  unfold store. simpl (<[_ := _]> _). rewrite !len_cons.
  by replace ((0 <=? 1) && (1 <? 1 + (1 + len resp))) with true by bool_lia.
Qed.
