(* ===== verification/DnsTopo.v ===== *)
(** * DnsTopo: start-up order of the DNS servers ([toposort_servers] of
    [src/dns/mod.rs]).

    A server may name another one as its [domain_resolver]; the resolver must be
    built first.  The order is Kahn's algorithm over at most one dependency per
    server. *)

From S2P Require Import Prelude RustStr.

Local Open Scope reflex_scope.

(** The fields of [DnsServerConfig] the sort reads. *)
Record DnsServerConfig : Type := mkServer { tag : str; domain_resolver : option str }.

Inductive TopoError : Type :=
  | ResolverNotFound (server resolver : str)
  | CycleBetween (a b : str)
  | Cycle.

(** [tag_to_idx]: collecting into a [HashMap] keeps the last index of a tag. *)
Fixpoint tag_to_idx (servers : list DnsServerConfig) (i : Z) (t : str) : option Z :=
  match servers with
  | [] => None
  | s :: servers =>
      match tag_to_idx servers (i + 1) t with
      | Some j => Some j
      | None => if decide (tag s = t) then Some i else None
      end
  end.

(** The loop that fills [deps] and [in_degree]. *)
Fixpoint fill_deps (all todo : list DnsServerConfig) (i : Z) (deps : list (option Z)) (in_degree : list Z)
    : run (result (list (option Z) * list Z) TopoError) :=
  match todo with
  | [] => Ret (Ok (deps, in_degree))
  | srv :: todo =>
      match domain_resolver srv with
      | None => fill_deps all todo (i + 1) deps in_degree
      | Some t =>
          match tag_to_idx all 0 t with
          | None => Ret (Err (ResolverNotFound (tag srv) t))
          | Some j =>
              deps ← store deps i (Some j);
              d ← idx in_degree i;
              in_degree ← store in_degree i (d + 1);
              dj ← idx deps j;
              if decide (dj = Some i) then
                si ← idx all i; sj ← idx all j; Ret (Err (CycleBetween (tag si) (tag sj)))
              else fill_deps all todo (i + 1) deps in_degree
          end
      end
  end.

(** [for i in 0..n]: release the dependants of [node]; [k] indices are left. *)
Fixpoint release (k : nat) (i : Z) (deps : list (option Z)) (node : Z) (in_degree queue : list Z)
    : run (list Z * list Z) :=
  match k with
  | O => Ret (in_degree, queue)
  | S k =>
      di ← idx deps i;
      if decide (di = Some node) then
        d ← idx in_degree i;
        if d =? 0 then Panic
        else
          in_degree ← store in_degree i (d - 1);
          release k (i + 1) deps node in_degree (if d - 1 =? 0 then queue ++ [i] else queue)
      else release k (i + 1) deps node in_degree queue
  end.

(** [while let Some(node) = queue.pop_front()]: every server is popped at most once. *)
Fixpoint kahn (fuel : nat) (n : nat) (deps : list (option Z)) (in_degree queue order : list Z) : run (list Z) :=
  match queue with
  | [] => Ret order
  | node :: queue =>
      match fuel with
      | O => Stuck
      | S fuel =>
          x ← release n 0 deps node in_degree queue;
          kahn fuel n deps x.1 x.2 (order ++ [node])
      end
  end.

Definition indices (n : nat) : list Z := map Z.of_nat (seq 0 n).

Definition toposort_servers (servers : list DnsServerConfig) : run (result (list Z) TopoError) :=
  let n := length servers in
  x ←!! fill_deps servers servers 0 (repeat None n) (repeat 0 n);
  let '(deps, in_degree) := x in
  let queue := List.filter (fun i => bool_decide (in_degree !! Z.to_nat i = Some 0)) (indices n) in
  order ← kahn n n deps in_degree queue [];
  if negb (len order =? Z.of_nat n) then Ret (Err Cycle) else Ret (Ok order).

Example topo_example :
  toposort_servers [mkServer (lit "a") (Some (lit "c")); mkServer (lit "b") None; mkServer (lit "c") (Some (lit "b"))]
  = Ret (Ok [1; 2; 0]).
Proof. vm_compute. reflexivity. Qed.

(** ** The dependency table *)

Section Topo.
Context (servers : list DnsServerConfig).
Let n := length servers.

(** The index of a server's resolver. *)
Definition resolver_of (i : Z) : option Z :=
  s ← servers !! Z.to_nat i; t ← domain_resolver s; tag_to_idx servers 0 t.

Lemma tag_to_idx_bound ss k t j : tag_to_idx ss k t = Some j -> k <= j < k + len ss.
Proof.
  revert k. induction ss as [|s ss IH]; intros k; cbn [tag_to_idx]; [done|]. rewrite len_cons. pose proof (len_nonneg ss).
  destruct (tag_to_idx ss (k + 1) t) eqn:E; [intros [= <-]; apply IH in E; lia|]. case_decide; [|done]. intros [= <-]. lia.
Qed.

Lemma resolver_bound i j : resolver_of i = Some j -> 0 <= j < len servers.
Proof.
  unfold resolver_of. destruct (servers !! Z.to_nat i) as [s|]; [|done]. simpl.
  destruct (domain_resolver s) as [t|]; [|done]. simpl. intros H%tag_to_idx_bound. lia.
Qed.

(** [deps] and [in_degree] filled up to index [i]. *)
Definition filled (i : Z) (deps : list (option Z)) (deg : list Z) : Prop :=
  length deps = n /\ length deg = n /\
  forall k, (k < n)%nat ->
    deps !! k = Some (if Z.of_nat k <? i then resolver_of (Z.of_nat k) else None) /\
    deg !! k = Some (if Z.of_nat k <? i then match resolver_of (Z.of_nat k) with Some _ => 1 | None => 0 end else 0).

Lemma fill_deps_spec todo pre deps deg : servers = pre ++ todo -> filled (len pre) deps deg ->
  exists r, fill_deps servers todo (len pre) deps deg = Ret r /\ r <> Err Cycle /\
    forall deps' deg', r = Ok (deps', deg') -> filled (Z.of_nat n) deps' deg'.
Proof.
  revert pre deps deg. induction todo as [|s todo IH]; intros pre deps deg Hs Hf; cbn [fill_deps].
  - eexists. do 2 (split; [done|]). intros deps' deg' [= <- <-]. rewrite app_nil_r in Hs. by rewrite <-Hs in Hf.
  - pose proof Hf as (Hld & Hlg & Hk). pose proof (len_nonneg pre).
    assert (Hn : len pre < Z.of_nat n) by (unfold n; rewrite Hs, length_app; unfold len; simpl; lia).
    assert (Hres : resolver_of (len pre) = (t ← domain_resolver s; tag_to_idx servers 0 t)).
    { unfold resolver_of. assert (servers !! Z.to_nat (len pre) = Some s) as ->; [|done].
      rewrite Hs. unfold len. rewrite Nat2Z.id. by apply list_lookup_middle. }
    assert (Hnext : len pre + 1 = len (pre ++ [s])) by (rewrite len_app; done).
    destruct (domain_resolver s) as [t|] eqn:Et; simpl in Hres.
    + destruct (tag_to_idx servers 0 t) as [j|] eqn:Ej; [|eexists; do 2 (split; [done|]); done].
      pose proof (tag_to_idx_bound _ _ _ _ Ej) as Hj.
      rewrite (store_inrange deps) by (unfold len in *; lia). rewrite bind_Ret. destruct (idx_inrange deg (len pre)) as (d & Hd & ->); [unfold len in *; lia|]. rewrite bind_Ret.
      assert (d = 0) as ->.
      { destruct (Hk (Z.to_nat (len pre)) ltac:(lia)) as [_ Hdg]. rewrite Hd in Hdg. rewrite Z2Nat.id, Z.ltb_irrefl in Hdg by lia. congruence. }
      rewrite (store_inrange deg) by (unfold len in *; lia). rewrite bind_Ret. set (deps1 := <[Z.to_nat (len pre) := Some j]> deps). set (deg1 := <[Z.to_nat (len pre) := 0 + 1]> deg).
      assert (Hl1 : length deps1 = n) by (unfold deps1; by rewrite length_insert).
      destruct (idx_inrange deps1 j) as (dj & _ & ->); [unfold len in *; lia|]. rewrite bind_Ret. case_decide.
      * destruct (idx_inrange servers (len pre)) as (si & _ & ->); [unfold len in *; lia|].
        destruct (idx_inrange servers j) as (sj & _ & ->); [lia|]. eexists. do 2 (split; [done|]). done.
      * rewrite Hnext. apply IH; [by rewrite <-app_assoc|]. rewrite <-Hnext. split_and!; [done|unfold deg1; by rewrite length_insert|].
        intros k Hkn. destruct (Hk k Hkn) as [H1 H2]. destruct (decide (k = Z.to_nat (len pre))) as [->|Hne].
        -- unfold deps1, deg1. rewrite !list_lookup_insert_eq by lia. rewrite Z2Nat.id by lia.
           rewrite (proj2 (Z.ltb_lt _ _)) by lia. by rewrite Hres.
        -- unfold deps1, deg1. rewrite !list_lookup_insert_ne, H1, H2 by done.
           replace (Z.of_nat k <? len pre + 1) with (Z.of_nat k <? len pre) by bool_lia. done.
    + rewrite Hnext. apply IH; [by rewrite <-app_assoc|]. rewrite <-Hnext. split_and!; [done|done|].
      intros k Hkn. destruct (Hk k Hkn) as [H1 H2]. rewrite H1, H2.
      destruct (decide (k = Z.to_nat (len pre))) as [->|Hne].
      * rewrite Z2Nat.id, Z.ltb_irrefl, (proj2 (Z.ltb_lt _ _)) by lia. by rewrite Hres.
      * replace (Z.of_nat k <? len pre + 1) with (Z.of_nat k <? len pre) by bool_lia. done.
Qed.

(** ** Kahn's loop *)

Definition full (deps : list (option Z)) : Prop :=
  length deps = n /\ forall k, (k < n)%nat -> deps !! k = Some (resolver_of (Z.of_nat k)).

Definition dependants (node : Z) (i k : nat) : list Z :=
  List.filter (fun m => bool_decide (resolver_of m = Some node)) (map Z.of_nat (seq i k)).

Lemma elem_of_dependants node i k m :
  m ∈ dependants node i k <-> Z.of_nat i <= m < Z.of_nat (i + k) /\ resolver_of m = Some node.
Proof.
  unfold dependants. rewrite list_elem_of_In, filter_In, bool_decide_eq_true, in_map_iff. setoid_rewrite in_seq. split.
  - intros [(x & <- & Hx) Hr]. split; [lia|done].
  - intros [Hm Hr]. split; [|done]. exists (Z.to_nat m). split; [lia|lia].
Qed.

Lemma NoDup_list_filter {A} (f : A -> bool) (l : list A) : NoDup l -> NoDup (List.filter f l).
Proof.
  induction 1 as [|x l Hx _ IH]; cbn [List.filter]; [constructor|]. destruct (f x); [|done].
  constructor; [|done]. intros H. apply Hx. apply list_elem_of_In, filter_In in H as [H _]. by apply list_elem_of_In.
Qed.

Lemma NoDup_indices i k : NoDup (map Z.of_nat (seq i k)).
Proof. apply (NoDup_fmap_2 Z.of_nat), NoDup_seq. Qed.

Lemma release_spec deps node k i deg queue : full deps -> length deg = n -> (i + k)%nat = n ->
  (forall m, (i <= m < n)%nat -> resolver_of (Z.of_nat m) = Some node -> deg !! m = Some 1) ->
  exists deg', release k (Z.of_nat i) deps node deg queue = Ret (deg', queue ++ dependants node i k) /\
    length deg' = n /\
    forall m, deg' !! m = if decide ((i <= m < n)%nat /\ resolver_of (Z.of_nat m) = Some node) then Some 0 else deg !! m.
Proof.
  intros [Hl Hd]. revert i deg queue. induction k as [|k IH]; intros i deg queue Hg Hi H1; cbn [release].
  - exists deg. rewrite app_nil_r. split_and!; [done|done|]. intros m. rewrite decide_False; [done|]. lia.
  - destruct (idx_inrange deps (Z.of_nat i)) as (di & Hdi & ->); [unfold len; lia|]. rewrite bind_Ret.
    rewrite Nat2Z.id, (Hd i) in Hdi by lia. injection Hdi as <-.
    unfold dependants. cbn [seq map List.filter]. replace (Z.of_nat i + 1) with (Z.of_nat (S i)) by lia.
    destruct (decide (resolver_of (Z.of_nat i) = Some node)) as [Hr|Hr].
    + rewrite bool_decide_eq_true_2 by done.
      destruct (idx_inrange deg (Z.of_nat i)) as (d & Hdg & ->); [unfold len; lia|]. rewrite bind_Ret.
      rewrite Nat2Z.id, (H1 i) in Hdg by (done || lia). injection Hdg as <-. cbn [Z.eqb].
      rewrite store_inrange by (unfold len; lia). rewrite bind_Ret, Nat2Z.id. change (1 - 1 =? 0) with true. cbv iota.
      destruct (IH (S i) (<[i:=1 - 1]> deg) (queue ++ [Z.of_nat i])) as (deg' & E & Hl' & Hm);
        [by rewrite length_insert|lia|intros m Hm Hrm; rewrite list_lookup_insert_ne by lia; apply H1; [lia|done]|].
      exists deg'. rewrite E. split_and!; [by rewrite <-app_assoc|done|]. intros m. rewrite Hm.
      destruct (decide (m = i)) as [->|Hne].
      * rewrite decide_False by lia. rewrite decide_True by (split; [lia|done]). by rewrite list_lookup_insert_eq by lia.
      * rewrite list_lookup_insert_ne by done. destruct (decide (S i <= m < n /\ _)%nat) as [C|C].
        -- rewrite decide_True; [done|]. naive_solver lia.
        -- rewrite decide_False; [done|]. intros [? ?]. apply C. split; [lia|done].
    + rewrite bool_decide_eq_false_2 by done.
      destruct (IH (S i) deg queue) as (deg' & E & Hl' & Hm); [done|lia|intros m Hm Hrm; apply H1; [lia|done]|].
      exists deg'. rewrite E. split_and!; [done|done|]. intros m. rewrite Hm.
      destruct (decide (m = i)) as [->|Hne].
      * rewrite decide_False by lia. rewrite decide_False by naive_solver. done.
      * destruct (decide (S i <= m < n /\ _)%nat) as [C|C].
        -- rewrite decide_True; [done|]. naive_solver lia.
        -- rewrite decide_False; [done|]. intros [? ?]. apply C. split; [lia|done].
Qed.

(** A server that depends on another comes after it. *)
Definition resolvers_first (order : list Z) : Prop :=
  forall pre i post j, order = pre ++ i :: post -> resolver_of i = Some j -> j ∈ pre.

(** The state of the loop: [order] is done, [queue] is ready, the others still
    wait for a server that is not done. *)
Record kahn_inv (deg queue order : list Z) : Prop := {
  inv_len : length deg = n;
  inv_nodup : NoDup (order ++ queue);
  inv_range : forall i, i ∈ order ++ queue -> 0 <= i < Z.of_nat n;
  inv_deg : forall m, (m < n)%nat -> deg !! m = Some (if decide (Z.of_nat m ∈ order ++ queue) then 0 else 1);
  inv_wait : forall i, 0 <= i < Z.of_nat n -> i ∉ order ++ queue -> exists j, resolver_of i = Some j /\ j ∉ order;
  inv_ready : forall i j, i ∈ queue -> resolver_of i = Some j -> j ∈ order;
  inv_order : resolvers_first order
}.

Lemma kahn_step deps deg node queue order : full deps -> kahn_inv deg (node :: queue) order ->
  exists deg', release n 0 deps node deg queue = Ret (deg', queue ++ dependants node 0 n) /\
    kahn_inv deg' (queue ++ dependants node 0 n) (order ++ [node]).
Proof.
  intros Hfull [Hl Hnd Hr Hd Hw Hrd Ho].
  assert (Hperm : forall i, i ∈ order ++ node :: queue <-> i ∈ order \/ i = node \/ i ∈ queue)
    by (intros i; rewrite elem_of_app, elem_of_cons; done).
  assert (Hnode : node ∉ order) by (apply NoDup_app in Hnd as (_ & H & _); intros Hin; eapply H; [exact Hin|by left]).
  assert (Hfresh : forall i, resolver_of i = Some node -> i ∉ order ++ node :: queue).
  { intros i Hi Hin. apply Hperm in Hin as [Hin|[->|Hin]].
    - apply list_elem_of_split in Hin as (pre & post & E). apply Hnode. rewrite E. apply elem_of_app. left. by eapply Ho.
    - apply Hnode. eapply Hrd; [by left|done].
    - apply Hnode. eapply Hrd; [by right|done]. }
  destruct (release_spec deps node n 0 deg queue) as (deg' & E & Hl' & Hm); [done|done|lia| |].
  { intros m Hmn Hrm. rewrite (Hd m) by lia. rewrite decide_False; [done|by apply Hfresh]. }
  exists deg'. split; [done|].
  assert (Hel : forall i, i ∈ (order ++ [node]) ++ queue ++ dependants node 0 n <->
    i ∈ order ++ node :: queue \/ (0 <= i < Z.of_nat n /\ resolver_of i = Some node)).
  { intros i. rewrite !elem_of_app, list_elem_of_singleton, elem_of_dependants, elem_of_cons. change (Z.of_nat 0) with 0.
    rewrite Nat.add_0_l. tauto. }
  constructor.
  - done.
  - rewrite <-app_assoc. change ([node] ++ queue ++ dependants node 0 n) with ((node :: queue) ++ dependants node 0 n).
    rewrite app_assoc. apply NoDup_app. split_and!; [done| |apply NoDup_list_filter, NoDup_indices].
    intros i Hi [_ Hri]%elem_of_dependants. by eapply Hfresh.
  - intros i [Hi|[Hi _]]%Hel; [by apply Hr|done].
  - intros m Hmn. rewrite Hm, (Hd m Hmn).
    destruct (decide ((0 <= m < n)%nat /\ _)) as [[_ C]|C].
    + rewrite decide_True; [done|]. apply Hel. right. split; [lia|done].
    + f_equal. destruct (decide (Z.of_nat m ∈ order ++ node :: queue)) as [D|D].
      * rewrite decide_True; [done|]. apply Hel. by left.
      * rewrite decide_False; [done|]. intros [?|[_ Hx]]%Hel; [done|]. apply C. split; [lia|done].
  - intros i Hi Hni. rewrite Hel in Hni. destruct (Hw i Hi) as (j & Hj & Hjo); [tauto|]. exists j. split; [done|].
    intros [?|[= ->]%list_elem_of_singleton]%elem_of_app; [done|]. apply Hni. right. by split.
  - intros i j Hi Hj. apply elem_of_app. apply elem_of_app in Hi as [Hi|[_ Hi]%elem_of_dependants].
    + left. eapply Hrd; [by right|done].
    + right. apply list_elem_of_singleton. congruence.
  - intros pre i post j Epre Hj. destruct post as [|p post] using rev_ind.
    + apply app_inj_tail in Epre as [-> ->]. eapply Hrd; [by left|done].
    + rewrite app_comm_cons, app_assoc in Epre. apply app_inj_tail in Epre as [Epre _]. by eapply Ho.
Qed.

Lemma NoDup_bounded (l : list Z) : NoDup l -> (forall i, i ∈ l -> 0 <= i < Z.of_nat n) -> (length l <= n)%nat.
Proof.
  intros Hnd Hb.
  assert (Hs : l ⊆+ map Z.of_nat (seq 0 n)).
  { apply NoDup_submseteq; [done|]. intros i Hi. specialize (Hb i Hi). apply list_elem_of_fmap. exists (Z.to_nat i).
    split; [lia|]. apply elem_of_seq. lia. }
  apply submseteq_length in Hs. by rewrite length_map, length_seq in Hs.
Qed.

Lemma kahn_spec fuel deps deg queue order : full deps -> kahn_inv deg queue order ->
  (n <= length order + fuel)%nat ->
  exists deg' order', kahn fuel n deps deg queue order = Ret order' /\ kahn_inv deg' [] order'.
Proof.
  intros Hf. revert deg queue order. induction fuel as [|fuel IH]; intros deg queue order Hi Hn;
    (destruct queue as [|node queue]; [by exists deg, order|]).
  - exfalso. pose proof (NoDup_bounded _ (inv_nodup _ _ _ Hi) (inv_range _ _ _ Hi)) as H.
    rewrite length_app in H. simpl in H. lia.
  - cbn [kahn]. destruct (kahn_step deps deg node queue order Hf Hi) as (deg' & E & Hi'). rewrite E, bind_Ret.
    apply IH; [done|]. rewrite length_app. simpl. lia.
Qed.

Lemma initial_inv deps deg : filled (Z.of_nat n) deps deg ->
  full deps /\
  kahn_inv deg (List.filter (fun i => bool_decide (deg !! Z.to_nat i = Some 0)) (indices n)) [].
Proof.
  intros (Hld & Hlg & Hk).
  assert (Hdep : forall k, (k < n)%nat -> deps !! k = Some (resolver_of (Z.of_nat k)) /\
    deg !! k = Some (match resolver_of (Z.of_nat k) with Some _ => 1 | None => 0 end)).
  { intros k Hkn. destruct (Hk k Hkn) as [H1 H2]. by rewrite (proj2 (Z.ltb_lt _ _)) in H1, H2 by lia. }
  assert (Hq : forall i, i ∈ List.filter (fun i => bool_decide (deg !! Z.to_nat i = Some 0)) (indices n) <->
    0 <= i < Z.of_nat n /\ resolver_of i = None).
  { intros i. rewrite list_elem_of_In, filter_In, bool_decide_eq_true. unfold indices. rewrite in_map_iff. setoid_rewrite in_seq. split.
    - intros [(x & <- & Hx) E]. split; [lia|]. destruct (Hdep x ltac:(lia)) as [_ H]. rewrite Nat2Z.id, H in E.
      by destruct (resolver_of (Z.of_nat x)).
    - intros [Hi E]. split; [exists (Z.to_nat i); lia|]. destruct (Hdep (Z.to_nat i) ltac:(lia)) as [_ H].
      rewrite H, Z2Nat.id, E by lia. done. }
  split; [split; [done|]; intros k Hkn; by apply Hdep|]. constructor; cbn [app].
  - done.
  - apply NoDup_list_filter, NoDup_indices.
  - intros i [Hi _]%Hq. done.
  - intros m Hmn. destruct (Hdep m Hmn) as [_ ->]. f_equal. destruct (resolver_of (Z.of_nat m)) eqn:E.
    + rewrite decide_False; [done|]. rewrite Hq. intros [_ ?]. congruence.
    + rewrite decide_True; [done|]. apply Hq. split; [lia|done].
  - intros i Hi Hni. destruct (resolver_of i) as [j|] eqn:E; [exists j; split; [done|apply not_elem_of_nil]|].
    destruct Hni. by apply Hq.
  - intros i j [_ Hi]%Hq Hj. congruence.
  - intros pre i post j E. by destruct pre.
Qed.

Lemma toposort_spec :
  exists r, toposort_servers servers = Ret r /\
    match r with
    | Ok order => NoDup order /\ (forall i, i ∈ order <-> 0 <= i < len servers) /\ resolvers_first order
    | Err Cycle => exists i0, 0 <= i0 < len servers /\ exists stuck : Z -> Prop, stuck i0 /\
        forall i, stuck i -> exists j, resolver_of i = Some j /\ stuck j
    | Err _ => True
    end.
Proof.
  unfold toposort_servers. cbv zeta. fold n.
  destruct (fill_deps_spec servers [] (repeat None n) (repeat 0 n)) as (r & E & Hnc & Hr); [done| |].
  { split_and!; [by rewrite repeat_length|by rewrite repeat_length|]. intros k Hk. change (len []) with 0.
    rewrite (proj2 (Z.ltb_ge _ _)) by lia. by rewrite !lookup_repeat. }
  change (len []) with 0 in E. unfold try_bind. rewrite E, bind_Ret. destruct r as [[deps deg]|e]; cycle 1.
  { exists (Err e). split; [done|]. by destruct e. }
  destruct (initial_inv deps deg (Hr _ _ eq_refl)) as [Hfull Hinv].
  destruct (kahn_spec n deps deg _ [] Hfull Hinv) as (deg' & order & Ek & Hi); [simpl; lia|]. rewrite Ek, bind_Ret.
  destruct Hi as [_ Hnd Hrg _ Hw _ Ho]. rewrite app_nil_r in *.
  destruct (Z.eqb_spec (len order) (Z.of_nat n)) as [El|El]; cbn [negb]; (eexists; split; [done|]).
  - split_and!; [done| |done]. intros i. split; [intros Hin; apply Hrg in Hin; done|]. intros Hin.
    destruct (decide (i ∈ order)) as [|Hni]; [done|]. exfalso.
    pose proof (NoDup_bounded (i :: order)) as Hb. simpl in Hb.
    assert (S (length order) <= n)%nat; [|unfold len in El; lia]. apply Hb; [by constructor|].
    intros x [->|Hx]%elem_of_cons; [done|by apply Hrg].
  - assert (Hex : exists i0, 0 <= i0 < Z.of_nat n /\ i0 ∉ order).
    { destruct (decide (Forall (fun i => i ∈ order) (indices n))) as [Hall|Hnall].
      - exfalso. apply El. assert (Hs : indices n ⊆+ order).
        { apply NoDup_submseteq; [apply NoDup_indices|]. by apply Forall_forall. }
        apply submseteq_length in Hs. unfold indices in Hs. rewrite length_map, length_seq in Hs.
        pose proof (NoDup_bounded order Hnd Hrg). unfold len. lia.
      - apply not_Forall_Exists, Exists_exists in Hnall as (i & Hin & Hni); [|apply _]. exists i. split; [|done].
        apply list_elem_of_fmap in Hin as (k & -> & Hk%elem_of_seq). lia. }
    destruct Hex as (i0 & Hi0 & Hn0). exists i0. split; [done|].
    exists (fun i => 0 <= i < Z.of_nat n /\ i ∉ order). split; [done|]. intros i [Hi Hni].
    destruct (Hw i Hi Hni) as (j & Hj & Hjo). exists j. split; [done|]. split; [by apply (resolver_bound i)|done].
Qed.
End Topo.

(** Start-up order of DNS servers: for any configuration the sort returns; when it
    succeeds the order holds every server exactly once and each server after the
    one it resolves through, and it reports a cycle only when some server really
    cannot be ordered (its chain of resolvers never ends). *)
Theorem toposort_correct (servers : list DnsServerConfig) :
  exists r, toposort_servers servers = Ret r /\
    match r with
    | Ok order =>
        NoDup order /\ (forall i, i ∈ order <-> 0 <= i < len servers) /\
        forall pre i post j, order = pre ++ i :: post -> resolver_of servers i = Some j -> j ∈ pre
    | Err Cycle => exists i0, 0 <= i0 < len servers /\ exists stuck : Z -> Prop, stuck i0 /\
        forall i, stuck i -> exists j, resolver_of servers i = Some j /\ stuck j
    | Err _ => True
    end.
Proof. apply toposort_spec. Qed.
