(* ===== verification/FakeIp.v ===== *)
(** * FakeIp: the fake-address pool of [src/dns/upstream.rs].

    The resolver hands out addresses of a reserved range instead of real ones
    and later maps them back to the domain.  The maps of [FakeIpInner] are
    [gmap]s; the two address families follow the same algorithm, whose new
    allocation is [pool_step] at the family's width and constructor. *)

From S2P Require Import Prelude RustStr Extern CacheFile QuicCrypto Sniff DnsWire.

Local Open Scope reflex_scope.

(** ** Configuration *)

Record FakeIpConfig : Type := mkFakeCfg {
  inet4_range : option str;
  inet6_range : option str;
  cfg_exclude_domain : list str;
  cfg_exclude_domain_suffix : list str
}.

Inductive ResolveStrategy : Type := PreferIpv4 | PreferIpv6 | Ipv4Only | Ipv6Only.

Definition parse_ipv4_cidr (s : str) : result (Z * Z) str :=
  p ←! ok_or (split_once 47 s) (lit "invalid IPv4 CIDR: " ++ s);
  let '(addr_str, prefix_str) := p in
  addr ←! ok_or (Ipv4Addr_from_str addr_str) (lit "invalid IPv4 address in CIDR: " ++ s);
  prefix ←! ok_or (parse_uint u32_max prefix_str) (lit "invalid prefix length in CIDR: " ++ s);
  if prefix >? 32 then Err (lit "IPv4 prefix length must be ≤ 32: " ++ s)
  else
    let mask := if prefix =? 0 then 0 else wshl 32 (wnot 32 0) (32 - prefix) in
    let net := Z.land addr mask in
    Ok (net, Z.lor net (wnot 32 mask)).

Definition parse_ipv6_cidr (s : str) : result (Z * Z) str :=
  p ←! ok_or (split_once 47 s) (lit "invalid IPv6 CIDR: " ++ s);
  let '(addr_str, prefix_str) := p in
  addr ←! ok_or (Ipv6Addr_from_str addr_str) (lit "invalid IPv6 address in CIDR: " ++ s);
  prefix ←! ok_or (parse_uint u32_max prefix_str) (lit "invalid prefix length in CIDR: " ++ s);
  if prefix >? 128 then Err (lit "IPv6 prefix length must be ≤ 128: " ++ s)
  else
    let mask := if prefix =? 0 then 0 else wshl 128 (wnot 128 0) (128 - prefix) in
    let net := Z.land addr mask in
    Ok (net, Z.lor net (wnot 128 mask)).

(** [ipv4_next], [ipv6_next]: [wrapping_add(1)]. *)
Definition ipv4_next (a : Z) : Z := wrap 32 (a + 1).
Definition ipv6_next (a : Z) : Z := wrap 128 (a + 1).

(** ** The store *)

Record FakeIpInner : Type := mkInner {
  inet4_current : option Z;
  inet6_current : option Z;
  addr_to_domain : gmap IpAddr (list Z);
  domain_to_v4 : gmap (list Z) Z;
  domain_to_v6 : gmap (list Z) Z
}.

Record FakeIpStore : Type := mkStore {
  inet4_net : option (Z * Z);
  inet6_net : option (Z * Z);
  fk_inner : FakeIpInner;
  fk_cache_file : option CacheFile;
  exclude_domain : list str;
  exclude_domain_suffix : list str;
  strategy : Z
}.

Definition in_net (net : option (Z * Z)) (a : Z) : bool :=
  match net with Some (s, e) => (s <=? a) && (a <=? e) | None => false end.

(** One record restored from the cache file. *)
Definition restore_record (net4 net6 : option (Z * Z)) (st : FakeIpInner) (r : IpAddr * str) : FakeIpInner :=
  let '(ip, domain) := r in
  match ip with
  | V4 v4 =>
      if in_net net4 v4 then
        mkInner (match inet4_current st with
                 | Some cur => if cur <=? v4 then Some (ipv4_next v4) else Some cur
                 | None => None
                 end)
          (inet6_current st) (<[ip := domain]> (addr_to_domain st))
          (<[domain := v4]> (domain_to_v4 st)) (domain_to_v6 st)
      else st
  | V6 v6 =>
      if in_net net6 v6 then
        mkInner (inet4_current st)
          (match inet6_current st with
           | Some cur => if cur <=? v6 then Some (ipv6_next v6) else Some cur
           | None => None
           end)
          (<[ip := domain]> (addr_to_domain st))
          (domain_to_v4 st) (<[domain := v6]> (domain_to_v6 st))
      else st
  end.

(** After the restore a current address at or past the end starts over. *)
Definition reset_current (next : Z -> Z) (net : option (Z * Z)) (current : option Z) : option Z :=
  match net with
  | Some (start, last) =>
      match current with
      | Some c => if last <=? c then Some (next start) else current
      | None => current
      end
  | None => current
  end.

Definition restore_all (net4 net6 : option (Z * Z)) (st : FakeIpInner) (records : list (IpAddr * str)) : FakeIpInner :=
  let st := fold_left (restore_record net4 net6) records st in
  mkInner (reset_current ipv4_next net4 (inet4_current st)) (reset_current ipv6_next net6 (inet6_current st))
    (addr_to_domain st) (domain_to_v4 st) (domain_to_v6 st).

(** [.map(parse).transpose()?] *)
Definition parse_range (parse : str -> result (Z * Z) str) (range : option str) : result (option (Z * Z)) str :=
  match range with
  | Some s => n ←! parse s; Ok (Some n)
  | None => Ok None
  end.

Definition new_with_cache (cfg : FakeIpConfig) (cache_file : option CacheFile) (cache_reader : option CacheFileReader)
    (fault : bool) : result FakeIpStore str :=
  inet4_net ←! parse_range parse_ipv4_cidr (inet4_range cfg);
  inet6_net ←! parse_range parse_ipv6_cidr (inet6_range cfg);
  if negb (bool_decide (is_Some inet4_net)) && negb (bool_decide (is_Some inet6_net)) then
    Err (lit "fakeip: at least one of inet4_range or inet6_range must be set")
  else
    let fresh := mkInner (option_map (fun n => ipv4_next n.1) inet4_net) (option_map (fun n => ipv6_next n.1) inet6_net)
                   ∅ ∅ ∅ in
    let restored :=
      match cache_reader, cache_file with
      | Some cr, Some cf =>
          if store_fakeip cf then
            match load_all_fakeip fault cr with
            | Some records => restore_all inet4_net inet6_net fresh records
            | None => fresh
            end
          else fresh
      | _, _ => fresh
      end in
    Ok (mkStore inet4_net inet6_net restored cache_file
          (map to_ascii_lowercase (cfg_exclude_domain cfg))
          (map (fun s => if starts_with [46] s then to_ascii_lowercase s else 46 :: to_ascii_lowercase s)
             (cfg_exclude_domain_suffix cfg))
          0).

Definition strategy_code (s : ResolveStrategy) : Z :=
  match s with PreferIpv4 => 0 | PreferIpv6 => 1 | Ipv4Only => 2 | Ipv6Only => 3 end.

Definition set_strategy (st : FakeIpStore) (s : ResolveStrategy) : FakeIpStore :=
  mkStore (inet4_net st) (inet6_net st) (fk_inner st) (fk_cache_file st) (exclude_domain st)
    (exclude_domain_suffix st) (strategy_code s).

Definition diag_sizes (st : FakeIpStore) : Z * Z * Z :=
  (Z.of_nat (size (addr_to_domain (fk_inner st))), Z.of_nat (size (domain_to_v4 (fk_inner st))),
   Z.of_nat (size (domain_to_v6 (fk_inner st)))).

Definition FakeIpStore_contains (st : FakeIpStore) (addr : IpAddr) : bool :=
  match addr with
  | V4 v4 => in_net (inet4_net st) v4
  | V6 v6 => in_net (inet6_net st) v6
  end.

Definition FakeIpStore_lookup (st : FakeIpStore) (addr : IpAddr) : option str := addr_to_domain (fk_inner st) !! addr.

Definition is_excluded (st : FakeIpStore) (domain : str) : bool :=
  let lower := to_ascii_lowercase domain in
  bool_decide (lower ∈ exclude_domain st)
  || existsb (fun suffix => ends_with suffix lower || bool_decide (lower = trim_start_matches 46 suffix))
       (exclude_domain_suffix st).

(** The address after [current], back to the first usable one at the end of the range. *)
Definition pool_next (next : Z -> Z) (start last current : Z) : Z :=
  if last <=? next current then next start else next current.

(** Binding [addr] to [domain]: the domain that held the address loses it. *)
Definition rebind (addr : IpAddr) (value : Z) (domain : str) (a2d : gmap IpAddr (list Z)) (d2a : gmap (list Z) Z)
    : gmap IpAddr (list Z) * gmap (list Z) Z :=
  let d2a := match a2d !! addr with Some old_domain => delete old_domain d2a | None => d2a end in
  (<[addr := domain]> (delete addr a2d), <[domain := value]> d2a).

Definition with_inner (st : FakeIpStore) (i : FakeIpInner) (cf : option CacheFile) : FakeIpStore :=
  mkStore (inet4_net st) (inet6_net st) i cf (exclude_domain st) (exclude_domain_suffix st) (strategy st).

Definition allocate_v4 (st : FakeIpStore) (now : Z) (domain : str) : option Z * FakeIpStore :=
  let i := fk_inner st in
  match domain_to_v4 i !! domain with
  | Some existing =>
      (Some existing, with_inner st i (option_map (fun cf => touch_fakeip_entry cf now (V4 existing)) (fk_cache_file st)))
  | None =>
      match inet4_net st, inet4_current i with
      | Some (start, last), Some current =>
          let next := pool_next ipv4_next start last current in
          let '(a2d, d2a) := rebind (V4 next) next domain (addr_to_domain i) (domain_to_v4 i) in
          (Some next,
           with_inner st (mkInner (Some next) (inet6_current i) a2d d2a (domain_to_v6 i))
             (option_map (fun cf => store_fakeip_entry cf now (V4 next) domain) (fk_cache_file st)))
      | _, _ => (None, st)
      end
  end.

Definition allocate_v6 (st : FakeIpStore) (now : Z) (domain : str) : option Z * FakeIpStore :=
  let i := fk_inner st in
  match domain_to_v6 i !! domain with
  | Some existing =>
      (Some existing, with_inner st i (option_map (fun cf => touch_fakeip_entry cf now (V6 existing)) (fk_cache_file st)))
  | None =>
      match inet6_net st, inet6_current i with
      | Some (start, last), Some current =>
          let next := pool_next ipv6_next start last current in
          let '(a2d, d2a) := rebind (V6 next) next domain (addr_to_domain i) (domain_to_v6 i) in
          (Some next,
           with_inner st (mkInner (inet4_current i) (Some next) a2d (domain_to_v4 i) d2a)
             (option_map (fun cf => store_fakeip_entry cf now (V6 next) domain) (fk_cache_file st)))
      | _, _ => (None, st)
      end
  end.

(** ** Wire answers *)

Definition build_ip_response (query : bytes) (rtype : Z) (rdata : bytes) : run bytes :=
  if len query <? 12 then make_noerror_empty query
  else
    id ← slice query 0 2;
    question ← slice query 12 (len query);
    Ret (id ++ [0x81; 0x80] ++ [0; 1] ++ [0; 1] ++ [0; 0] ++ [0; 0] ++ question
         ++ [0xC0; 0x0C] ++ to_be_bytes 2 rtype ++ [0; 1] ++ to_be_bytes 4 1
         ++ to_be_bytes 2 (as_u16 (len rdata)) ++ rdata).

Definition build_a_response (query : bytes) (ip : Z) : run bytes := build_ip_response query 1 (to_be_bytes 4 ip).
Definition build_aaaa_response (query : bytes) (ip : Z) : run bytes := build_ip_response query 28 (to_be_bytes 16 ip).

Definition reply (st : FakeIpStore) (now : Z) (query : bytes) : run (bytes * FakeIpStore) :=
  let noerror := r ← make_noerror_empty query; Ret (r, st) in
  qtype ← extract_qtype query;
  match qtype with
  | None => noerror
  | Some qtype =>
      if negb (qtype =? 1) && negb (qtype =? 28) then noerror
      else
        qname ← extract_qname query;
        match qname with
        | None => noerror
        | Some qname =>
            if is_excluded st qname then r ← make_nxdomain query; Ret (r, st)
            else if qtype =? 1 then
              if strategy st =? 3 then noerror
              else
                let '(ip, st') := allocate_v4 st now qname in
                r ← match ip with Some ip => build_a_response query ip | None => make_noerror_empty query end;
                Ret (r, st')
            else
              if strategy st =? 2 then noerror
              else
                let '(ip, st') := allocate_v6 st now qname in
                r ← match ip with Some ip => build_aaaa_response query ip | None => make_noerror_empty query end;
                Ret (r, st')
        end
  end.

Example fakeip_example :
  (st ←! new_with_cache (mkFakeCfg (Some (lit "198.18.0.0/15")) None [] []) None None false;
   Ok (match reply st 0 (build_query (lit "example.com") 1) with
       | Ret (r, st') => (extract_first_ip r 1, FakeIpStore_lookup st' (V4 0xC6120002))
       | _ => (Panic, None)
       end))
  = Ok (Ret (Some (V4 0xC6120002)), Some (lit "example.com")).
Proof. vm_compute. reflexivity. Qed.

(** ** Invariants *)

(** A range with at least one address between its first and its last. *)
Definition usable (w : Z) (net : option (Z * Z)) : Prop :=
  match net with
  | Some (s, e) => 0 <= s /\ s + 2 <= e /\ e < 2 ^ w
  | None => True
  end.

Definition pool_ok (w : Z) (net : option (Z * Z)) (current : option Z) : Prop :=
  usable w net /\
  match net with
  | Some (s, e) => exists c, current = Some c /\ s < c < e
  | None => True
  end.

(** What is handed out for a domain maps back to it and lies in the range. *)
Definition bind_ok (K : Z -> IpAddr) (net : option (Z * Z)) (a2d : gmap IpAddr (list Z)) (d2a : gmap (list Z) Z) : Prop :=
  forall d a, d2a !! d = Some a -> a2d !! K a = Some d /\ in_net net a = true.

Definition store_ok (st : FakeIpStore) : Prop :=
  let i := fk_inner st in
  pool_ok 32 (inet4_net st) (inet4_current i) /\ pool_ok 128 (inet6_net st) (inet6_current i) /\
  bind_ok V4 (inet4_net st) (addr_to_domain i) (domain_to_v4 i) /\
  bind_ok V6 (inet6_net st) (addr_to_domain i) (domain_to_v6 i).

(** [wrapping_add(1)] does not wrap inside a range. *)
(** The cursor walks round the usable addresses. *)
Lemma pool_next_in w s e c : usable w (Some (s, e)) -> s < c < e ->
  let n := pool_next (fun a => wrap w (a + 1)) s e c in
  s < n < e /\ n = if e <=? c + 1 then s + 1 else c + 1.
Proof.
  intros (H1 & H2 & H3) Hc n. subst n. unfold pool_next. rewrite !wrap_succ by lia.
  destruct (Z.leb_spec e (c + 1)); split; lia.
Qed.

Lemma rebind_same K net a2d d2a d v : Inj (=) (=) K -> bind_ok K net a2d d2a -> in_net net v = true ->
  bind_ok K net (rebind (K v) v d a2d d2a).1 (rebind (K v) v d a2d d2a).2.
Proof.
  intros HK Hb Hv d' a' H. cbn [rebind fst snd] in *. apply lookup_insert_Some in H as [[<- <-]|[Hne H]].
  - by rewrite lookup_insert_eq.
  - assert (Hd : d2a !! d' = Some a' /\ a2d !! K v <> Some d').
    { destruct (a2d !! K v) as [old|] eqn:E; [|split; [done|congruence]].
      apply lookup_delete_Some in H as [Hold H]. split; [done|congruence]. }
    destruct Hd as [Hd Hold]. destruct (Hb _ _ Hd) as [Ha Hn]. split; [|done].
    assert (Hav : v <> a') by (intros <-; done).
    rewrite lookup_insert_ne, lookup_delete_ne; [done| |]; intros ?%(inj K); done.
Qed.

Lemma rebind_other K K' net a2d d2a d2b d v : (forall x y, K x <> K' y) -> bind_ok K' net a2d d2b ->
  bind_ok K' net (rebind (K v) v d a2d d2a).1 d2b.
Proof.
  intros HK Hb d' a' H. destruct (Hb _ _ H) as [Ha Hn]. split; [|done]. cbn [rebind fst].
  by rewrite lookup_insert_ne, lookup_delete_ne by apply HK.
Qed.

#[local] Instance V4_inj : Inj (=) (=) V4.
Proof. by intros ?? [=]. Qed.
#[local] Instance V6_inj : Inj (=) (=) V6.
Proof. by intros ?? [=]. Qed.

Lemma in_net_between s e a : s < a < e -> in_net (Some (s, e)) a = true.
Proof. intros. simpl. lia. Qed.

Lemma allocate_v4_ok st now d : store_ok st ->
  let '(r, st') := allocate_v4 st now d in
  store_ok st' /\ inet4_net st' = inet4_net st /\ inet6_net st' = inet6_net st /\
  exclude_domain st' = exclude_domain st /\ exclude_domain_suffix st' = exclude_domain_suffix st /\ strategy st' = strategy st /\
  (r = None -> inet4_net st = None) /\ forall a, r = Some a -> domain_to_v4 (fk_inner st') !! d = Some a.
Proof.
  intros Hok. pose proof Hok as (H4 & H6 & B4 & B6). unfold allocate_v4. destruct (domain_to_v4 (fk_inner st) !! d) as [a|] eqn:E.
  { split_and!; try done; by intros ? [= <-]. }
  destruct (inet4_net st) as [[s e]|] eqn:En; [|split_and!; done].
  destruct H4 as [Hu (c & -> & Hc)]. destruct (pool_next_in 32 s e c Hu Hc) as [Hn _].
  change (fun a => wrap 32 (a + 1)) with ipv4_next in Hn. set (n := pool_next ipv4_next s e c) in *.
  cbn [rebind]. split_and!; try done.
  - unfold store_ok, with_inner. cbn [inet4_net inet6_net fk_inner inet4_current inet6_current addr_to_domain domain_to_v4 domain_to_v6].
    rewrite En. split; [split; [done|by exists n]|split; [done|split]].
    + apply (rebind_same V4); [apply _|done|by apply in_net_between].
    + by apply (rebind_other V4 V6 _ _ ∅).
  - intros a [= <-]. cbn. apply lookup_insert_eq.
Qed.

Lemma allocate_v6_ok st now d : store_ok st ->
  let '(r, st') := allocate_v6 st now d in
  store_ok st' /\ inet4_net st' = inet4_net st /\ inet6_net st' = inet6_net st /\
  exclude_domain st' = exclude_domain st /\ exclude_domain_suffix st' = exclude_domain_suffix st /\ strategy st' = strategy st /\
  (r = None -> inet6_net st = None) /\ forall a, r = Some a -> domain_to_v6 (fk_inner st') !! d = Some a.
Proof.
  intros Hok. pose proof Hok as (H4 & H6 & B4 & B6). unfold allocate_v6. destruct (domain_to_v6 (fk_inner st) !! d) as [a|] eqn:E.
  { split_and!; try done; by intros ? [= <-]. }
  destruct (inet6_net st) as [[s e]|] eqn:En; [|split_and!; done].
  destruct H6 as [Hu (c & -> & Hc)]. destruct (pool_next_in 128 s e c Hu Hc) as [Hn _].
  change (fun a => wrap 128 (a + 1)) with ipv6_next in Hn. set (n := pool_next ipv6_next s e c) in *.
  cbn [rebind]. split_and!; try done.
  - unfold store_ok, with_inner. cbn [inet4_net inet6_net fk_inner inet4_current inet6_current addr_to_domain domain_to_v4 domain_to_v6].
    rewrite En. split; [done|split; [split; [done|by exists n]|split]].
    + by apply (rebind_other V6 V4 _ _ ∅).
    + apply (rebind_same V6); [apply _|done|by apply in_net_between].
  - intros a [= <-]. cbn. apply lookup_insert_eq.
Qed.

(** ** Queries *)

(** What a client and the control plane may do to a store. *)
Inductive fake_op : Type :=
  | FQuery (now : Z) (query : bytes)
  | FStrategy (s : ResolveStrategy).

Fixpoint serve (st : FakeIpStore) (ops : list fake_op) : run (list bytes * FakeIpStore) :=
  match ops with
  | [] => Ret ([], st)
  | FQuery now query :: ops =>
      x ← reply st now query;
      y ← serve x.2 ops;
      Ret (x.1 :: y.1, y.2)
  | FStrategy s :: ops => serve (set_strategy st s) ops
  end.

Definition op_ok (o : fake_op) : Prop := match o with FQuery _ q => bytes_ok q | FStrategy _ => True end.

Lemma set_strategy_ok st s : store_ok st -> store_ok (set_strategy st s).
Proof. done. Qed.

Lemma build_ip_response_returns query rtype rdata : returns (build_ip_response query rtype rdata).
Proof.
  unfold build_ip_response. case_if; reflect_bools.
  - by destruct (dns_wire_returns [] query 0) as (_ & _ & _ & _ & _ & _ & _ & _ & _ & H & _); [constructor|].
  - destruct (slice_returns query 0 2) as [i ->]; [lia|lia|].
    destruct (slice_returns query 12 (len query)) as [q ->]; [lia|lia|]. by eexists.
Qed.

(** A query never panics and keeps the store well formed. *)
Lemma reply_ok st now query : store_ok st -> bytes_ok query ->
  exists r st', reply st now query = Ret (r, st') /\ store_ok st'.
Proof.
  intros Hst Hq. destruct (dns_wire_returns query query 0 Hq) as ([n En] & [t Et] & _ & _ & _ & _ & _ & _ & _ & [ne Ene] & [nx Enx]).
  unfold reply. rewrite Et, bind_Ret, Ene. destruct t as [t|]; [|by eexists _, _]. case_if; [by eexists _, _|].
  rewrite En, bind_Ret. destruct n as [n|]; [|by eexists _, _]. rewrite Enx. case_if; [by eexists _, _|].
  case_if; (case_if; [by eexists _, _|]).
  - pose proof (allocate_v4_ok st now n Hst) as Ha. destruct (allocate_v4 st now n) as [[a|] st'].
    + destruct (build_ip_response_returns query 1 (to_be_bytes 4 a)) as [r Er]. unfold build_a_response. rewrite Er.
      exists r, st'. by destruct Ha.
    + exists ne, st'. by destruct Ha.
  - pose proof (allocate_v6_ok st now n Hst) as Ha. destruct (allocate_v6 st now n) as [[a|] st'].
    + destruct (build_ip_response_returns query 28 (to_be_bytes 16 a)) as [r Er]. unfold build_aaaa_response. rewrite Er.
      exists r, st'. by destruct Ha.
    + exists ne, st'. by destruct Ha.
Qed.

Lemma serve_ok ops st : store_ok st -> Forall op_ok ops -> exists rs st', serve st ops = Ret (rs, st') /\ store_ok st'.
Proof.
  intros Hst Hops. revert st Hst. induction Hops as [|[now q|s] ops Ho _ IH]; intros st Hst; cbn [serve].
  - by eexists _, _.
  - destruct (reply_ok st now q Hst Ho) as (r & st1 & -> & H1). rewrite bind_Ret. cbn [fst snd].
    destruct (IH st1 H1) as (rs & st2 & -> & H2). by eexists _, _.
  - apply IH. by apply set_strategy_ok.
Qed.

(** ** Restoring mappings at start-up *)

(** Half-way through the restore: the cursor may stand just past the end, and
    only addresses already seen are bound. *)
Definition restoring (net4 net6 : option (Z * Z)) (seen : list IpAddr) (st : FakeIpInner) : Prop :=
  match net4 with Some (s, e) => exists c, inet4_current st = Some c /\ s < c <= e + 1 | None => True end /\
  match net6 with Some (s, e) => exists c, inet6_current st = Some c /\ s < c <= e + 1 | None => True end /\
  bind_ok V4 net4 (addr_to_domain st) (domain_to_v4 st) /\ bind_ok V6 net6 (addr_to_domain st) (domain_to_v6 st) /\
  forall ip, is_Some (addr_to_domain st !! ip) -> ip ∈ seen.

Lemma bind_ok_insert_same K net a2d d2a d v : Inj (=) (=) K -> bind_ok K net a2d d2a -> in_net net v = true ->
  a2d !! K v = None -> bind_ok K net (<[K v := d]> a2d) (<[d := v]> d2a).
Proof.
  intros HK Hb Hv Hn d' a' H. apply lookup_insert_Some in H as [[<- <-]|[Hne H]]; [by rewrite lookup_insert_eq|].
  destruct (Hb _ _ H) as [Ha Hin]. split; [|done]. rewrite lookup_insert_ne; [done|]. intros ?%(inj K). naive_solver.
Qed.

Lemma bind_ok_insert_other (K K' : Z -> IpAddr) net a2d d2a d (v : Z) : (forall x y, K x <> K' y) -> bind_ok K' net a2d d2a ->
  bind_ok K' net (<[K v := d]> a2d) d2a.
Proof. intros HK Hb d' a' H. destruct (Hb _ _ H). by rewrite lookup_insert_ne by apply HK. Qed.

(** The largest address of each family is never in a record. *)
Definition not_last (ip : IpAddr) : Prop := ip <> V4 (2 ^ 32 - 1) /\ ip <> V6 (2 ^ 128 - 1).

Lemma restore_record_ok net4 net6 seen st r : usable 32 net4 -> usable 128 net6 -> restoring net4 net6 seen st ->
  r.1 ∉ seen -> not_last r.1 -> restoring net4 net6 (r.1 :: seen) (restore_record net4 net6 st r).
Proof.
  intros U4 U6 (C4 & C6 & B4 & B6 & Hs) Hr [L4 L6]. destruct r as [ip d]. cbn [fst] in *.
  assert (Hweak : restoring net4 net6 (ip :: seen) st)
    by (split_and!; try done; intros ip' H; apply elem_of_cons; right; by apply Hs).
  assert (Hnew : addr_to_domain st !! ip = None).
  { destruct (addr_to_domain st !! ip) eqn:E; [|done]. destruct Hr. apply Hs. by rewrite E. }
  assert (Hseen : forall ip', is_Some (<[ip := d]> (addr_to_domain st) !! ip') -> ip' ∈ ip :: seen).
  { intros ip' [x [[<- _]|[_ H]]%lookup_insert_Some]; apply elem_of_cons; [by left|]. right. apply Hs. by exists x. }
  destruct ip as [v|v]; cbn [restore_record].
  - destruct (in_net net4 v) eqn:En; [|done]. unfold restoring. cbn [inet4_current inet6_current addr_to_domain domain_to_v4 domain_to_v6].
    split; [|split; [done|split; [apply (bind_ok_insert_same V4); [apply _|done..]|split; [by apply (bind_ok_insert_other V4 V6)|done]]]].
    destruct net4 as [[s e]|]; [|done]. destruct C4 as (c & -> & Hc). cbn in En. reflect_bools. destruct U4 as (? & ? & ?).
    destruct (Z.leb_spec c v); eexists; (split; [done|]); [|lia]. unfold ipv4_next. rewrite wrap_succ; [lia|lia|].
    assert (v <> 2 ^ 32 - 1) by congruence. lia.
  - destruct (in_net net6 v) eqn:En; [|done]. unfold restoring. cbn [inet4_current inet6_current addr_to_domain domain_to_v4 domain_to_v6].
    split; [done|split; [|split; [by apply (bind_ok_insert_other V6 V4)|split; [apply (bind_ok_insert_same V6); [apply _|done..]|done]]]].
    destruct net6 as [[s e]|]; [|done]. destruct C6 as (c & -> & Hc). cbn in En. reflect_bools. destruct U6 as (? & ? & ?).
    destruct (Z.leb_spec c v); eexists; (split; [done|]); [|lia]. unfold ipv6_next. rewrite wrap_succ; [lia|lia|].
    assert (v <> 2 ^ 128 - 1) by congruence. lia.
Qed.

Lemma restore_fold_ok net4 net6 records seen st : usable 32 net4 -> usable 128 net6 -> restoring net4 net6 seen st ->
  NoDup (map fst records) -> Forall (fun r => r.1 ∉ seen) records -> Forall (fun r => not_last r.1) records ->
  exists seen', restoring net4 net6 seen' (fold_left (restore_record net4 net6) records st).
Proof.
  intros U4 U6. revert seen st. induction records as [|r records IH]; intros seen st Hst Hnd Hnew Hl; [by exists seen|].
  cbn [fold_left map] in *. apply NoDup_cons in Hnd as [Hni Hnd]. apply Forall_cons in Hnew as [Hr Hnew]. apply Forall_cons in Hl as [Hlr Hl].
  apply (IH (r.1 :: seen)); [by apply restore_record_ok|done| |done].
  apply Forall_forall. intros x Hx. rewrite elem_of_cons. intros [E|Hin].
  - apply Hni. rewrite <-E. by apply list_elem_of_fmap_2.
  - rewrite Forall_forall in Hnew. by apply (Hnew x).
Qed.

Lemma reset_pool_ok w net cur : usable w net ->
  match net with Some (s, e) => exists c, cur = Some c /\ s < c <= e + 1 | None => True end ->
  pool_ok w net (reset_current (fun a => wrap w (a + 1)) net cur).
Proof.
  intros Hu Hc. split; [done|]. destruct net as [[s e]|]; [|done]. destruct Hc as (c & -> & Hc). destruct Hu as (? & ? & ?).
  cbn [reset_current]. destruct (Z.leb_spec e c); eexists; (split; [done|]); [rewrite wrap_succ|]; lia.
Qed.

Lemma fresh_pool_ok w net : usable w net -> pool_ok w net (option_map (fun n => wrap w (n.1 + 1)) net).
Proof.
  intros Hu. split; [done|]. destruct net as [[s e]|]; [|done]. destruct Hu as (? & ? & ?).
  eexists. split; [done|]. cbn [fst]. rewrite wrap_succ; lia.
Qed.

(** What the cache file may hold: each address once, and not the very last one
    of the address space, whose successor would wrap. *)
Definition restorable (fault : bool) (cr : option CacheFileReader) : Prop :=
  forall rd records, cr = Some rd -> load_all_fakeip fault rd = Some records ->
    NoDup (map fst records) /\ Forall (fun r => not_last r.1) records.

Lemma new_store_ok cfg cf cr fault st : new_with_cache cfg cf cr fault = Ok st ->
  usable 32 (inet4_net st) -> usable 128 (inet6_net st) -> restorable fault cr -> store_ok st.
Proof.
  unfold new_with_cache. intros H U4 U6 Hr. apply result_bind_Ok in H as (net4 & _ & H). apply result_bind_Ok in H as (net6 & _ & H).
  destruct (negb _ && negb _); [done|]. injection H as <-. cbn in U4, U6. unfold store_ok. cbn [inet4_net inet6_net fk_inner].
  set (fresh := mkInner _ _ _ _ _). assert (B4 : forall net, bind_ok V4 net ∅ ∅) by done. assert (B6 : forall net, bind_ok V6 net ∅ ∅) by done.
  assert (Hfresh : pool_ok 32 net4 (inet4_current fresh) /\ pool_ok 128 net6 (inet6_current fresh) /\
    bind_ok V4 net4 (addr_to_domain fresh) (domain_to_v4 fresh) /\ bind_ok V6 net6 (addr_to_domain fresh) (domain_to_v6 fresh)).
  { split; [by apply fresh_pool_ok|split; [by apply fresh_pool_ok|split; [apply B4|apply B6]]]. }
  destruct cr as [rd|]; [|done]. destruct cf as [cf|]; [|done]. destruct (store_fakeip cf); [|done].
  destruct (load_all_fakeip fault rd) as [records|] eqn:E; [|done]. destruct (Hr rd records eq_refl E) as [Hnd Hl].
  destruct (restore_fold_ok net4 net6 records [] fresh) as (seen & C4 & C6 & R4 & R6 & _); try done.
  { destruct Hfresh as ([_ P4] & [_ P6] & _). split; [|split; [|split; [apply B4|split; [apply B6|by intros ? [? ?]]]]].
    - destruct net4 as [[s e]|]; [|done]. destruct P4 as (c & E4 & Hc). exists c. split; [done|lia].
    - destruct net6 as [[s e]|]; [|done]. destruct P6 as (c & E6 & Hc). exists c. split; [done|lia]. }
  { apply Forall_forall. intros x _. apply not_elem_of_nil. }
  unfold restore_all. cbn [inet4_current inet6_current addr_to_domain domain_to_v4 domain_to_v6].
  split; [by apply (reset_pool_ok 32)|split; [by apply (reset_pool_ok 128)|done]].
Qed.


Definition fake_cfg : FakeIpConfig :=
  mkFakeCfg (Some (lit "198.18.0.0/15")) (Some (lit "fc00::/18")) [lit "localhost"] [lit "lan"].

Definition fake_reader : CacheFileReader :=
  mkReader (mkDb {[ lit "198.18.0.9" := (0, lit "a.org"); lit "198.18.0.7" := (0, lit "b.org") ]} ∅ ∅ ∅) true.


(** ** How long a mapping lasts *)

(** One operation on a family: nothing, or one turn of its cursor, which can
    rebind only the address the cursor reaches. *)
Definition moves (w : Z) (K : Z -> IpAddr) (net : option (Z * Z)) (cur cur' : option Z)
    (a2d a2d' : gmap IpAddr (list Z)) : Prop :=
  (cur' = cur /\ forall a, a2d' !! K a = a2d !! K a) \/
  exists s e c, net = Some (s, e) /\ cur = Some c /\
    let n := pool_next (fun a => wrap w (a + 1)) s e c in
    cur' = Some n /\ forall a, a <> n -> a2d' !! K a = a2d !! K a.

Definition moves4 (st st' : FakeIpStore) : Prop :=
  moves 32 V4 (inet4_net st) (inet4_current (fk_inner st)) (inet4_current (fk_inner st'))
    (addr_to_domain (fk_inner st)) (addr_to_domain (fk_inner st')).
Definition moves6 (st st' : FakeIpStore) : Prop :=
  moves 128 V6 (inet6_net st) (inet6_current (fk_inner st)) (inet6_current (fk_inner st'))
    (addr_to_domain (fk_inner st)) (addr_to_domain (fk_inner st')).

Lemma moves_same st : moves4 st st /\ moves6 st st.
Proof. split; by left. Qed.

Lemma allocate_v4_moves st now d : moves4 st (allocate_v4 st now d).2 /\ moves6 st (allocate_v4 st now d).2.
Proof.
  unfold allocate_v4. destruct (domain_to_v4 _ !! d); [split; by left|].
  destruct (inet4_net st) as [[s e]|] eqn:En; [|apply moves_same].
  destruct (inet4_current (fk_inner st)) as [c|] eqn:Ec; [|apply moves_same]. split.
  - right. exists s, e, c. do 2 (split; [done|]). cbv zeta. split; [done|]. intros a Ha. cbn [rebind snd with_inner fk_inner addr_to_domain].
    by rewrite lookup_insert_ne, lookup_delete_ne by (intros [= E]; by apply Ha).
  - left. split; [done|]. intros a. cbn. by rewrite lookup_insert_ne, lookup_delete_ne by done.
Qed.

Lemma allocate_v6_moves st now d : moves4 st (allocate_v6 st now d).2 /\ moves6 st (allocate_v6 st now d).2.
Proof.
  unfold allocate_v6. destruct (domain_to_v6 _ !! d); [split; by left|].
  destruct (inet6_net st) as [[s e]|] eqn:En; [|apply moves_same].
  destruct (inet6_current (fk_inner st)) as [c|] eqn:Ec; [|apply moves_same]. split.
  - left. split; [done|]. intros a. cbn. by rewrite lookup_insert_ne, lookup_delete_ne by done.
  - right. exists s, e, c. do 2 (split; [done|]). cbv zeta. split; [done|]. intros a Ha. cbn [rebind snd with_inner fk_inner addr_to_domain].
    by rewrite lookup_insert_ne, lookup_delete_ne by (intros [= E]; by apply Ha).
Qed.

Lemma reply_moves st now q r st' : reply st now q = Ret (r, st') ->
  moves4 st st' /\ moves6 st st' /\ inet4_net st' = inet4_net st /\ inet6_net st' = inet6_net st.
Proof.
  assert (Hs : moves4 st st /\ moves6 st st /\ inet4_net st = inet4_net st /\ inet6_net st = inet6_net st)
    by (destruct (moves_same st); done).
  assert (Hn : forall m, (x ← m; Ret (x, st)) = Ret (r, st') -> st' = st)
    by (intros m H; apply bind_Ret_inv in H as (x & _ & [= _ <-]); done).
  unfold reply. intros H. apply bind_Ret_inv in H as (t & _ & H). destruct t as [t|]; [|by apply Hn in H as ->].
  destruct (negb _ && negb _); [by apply Hn in H as ->|]. apply bind_Ret_inv in H as (n & _ & H).
  destruct n as [n|]; [|by apply Hn in H as ->]. destruct (is_excluded st n); [by apply Hn in H as ->|].
  destruct (t =? 1).
  - destruct (strategy st =? 3); [by apply Hn in H as ->|]. destruct (allocate_v4_moves st now n) as [M4 M6].
    assert (Hnet : inet4_net (allocate_v4 st now n).2 = inet4_net st /\ inet6_net (allocate_v4 st now n).2 = inet6_net st)
      by (unfold allocate_v4; repeat (case_match; try done)).
    destruct (allocate_v4 st now n) as [a st1]. apply bind_Ret_inv in H as (x & _ & [= _ <-]). done.
  - destruct (strategy st =? 2); [by apply Hn in H as ->|]. destruct (allocate_v6_moves st now n) as [M4 M6].
    assert (Hnet : inet4_net (allocate_v6 st now n).2 = inet4_net st /\ inet6_net (allocate_v6 st now n).2 = inet6_net st)
      by (unfold allocate_v6; repeat (case_match; try done)).
    destruct (allocate_v6 st now n) as [a st1]. apply bind_Ret_inv in H as (x & _ & [= _ <-]). done.
Qed.

(** How many turns of the cursor until it reaches [a] (a full round when it stands there). *)
Definition ahead (s e c a : Z) : Z := if c <? a then a - c else a - c + (e - s - 1).

(** [a] is bound to [d] and the cursor needs more than [k] turns to reach it. *)
Definition kept (w : Z) (K : Z -> IpAddr) (net : option (Z * Z)) (cur : option Z) (a2d : gmap IpAddr (list Z))
    (a : Z) (d : str) (k : Z) : Prop :=
  exists s e c, net = Some (s, e) /\ usable w net /\ cur = Some c /\ s < c < e /\ s < a < e /\ k < ahead s e c a /\
    a2d !! K a = Some d.

Lemma kept_moves w K net cur cur' a2d a2d' a d k : moves w K net cur cur' a2d a2d' -> 0 <= k ->
  kept w K net cur a2d a d (k + 1) -> kept w K net cur' a2d' a d k.
Proof.
  intros Hm Hk (s & e & c & -> & Hu & -> & Hc & Ha & Hd & Hl).
  destruct Hm as [[-> Hsame]|(s' & e' & c' & [= <- <-] & [= <-] & Hm)].
  - exists s, e, c. split_and!; try done || lia. by rewrite Hsame.
  - cbv zeta in Hm. destruct Hm as [-> Hother]. destruct (pool_next_in w s e c Hu Hc) as [Hn En]. cbv zeta in Hn, En.
    set (n := pool_next _ s e c) in *. unfold ahead in *.
    assert (Hd' : k < if n <? a then a - n else a - n + (e - s - 1))
      by (destruct (Z.leb_spec e (c + 1)), (Z.ltb_spec c a), (Z.ltb_spec n a); lia).
    assert (Hne : a <> n) by (destruct (Z.leb_spec e (c + 1)), (Z.ltb_spec c a); lia).
    exists s, e, n. split_and!; try done || lia. by rewrite Hother.
Qed.

Lemma serve_kept ops st rs st' : serve st ops = Ret (rs, st') ->
  (forall a d k, 0 <= k -> kept 32 V4 (inet4_net st) (inet4_current (fk_inner st)) (addr_to_domain (fk_inner st)) a d (k + len ops) ->
     kept 32 V4 (inet4_net st') (inet4_current (fk_inner st')) (addr_to_domain (fk_inner st')) a d k) /\
  (forall a d k, 0 <= k -> kept 128 V6 (inet6_net st) (inet6_current (fk_inner st)) (addr_to_domain (fk_inner st)) a d (k + len ops) ->
     kept 128 V6 (inet6_net st') (inet6_current (fk_inner st')) (addr_to_domain (fk_inner st')) a d k).
Proof.
  revert st rs. induction ops as [|[now q|s] ops IH]; intros st rs H; cbn [serve] in H.
  - injection H as _ <-. split; intros a d k _; by rewrite len_nil, Z.add_0_r.
  - apply bind_Ret_inv in H as ([r st1] & E1 & H). apply bind_Ret_inv in H as ([rs1 st2] & E2 & [= _ <-]).
    cbn [fst snd] in *. destruct (reply_moves _ _ _ _ _ E1) as (M4 & M6 & N4 & N6). destruct (IH _ _ E2) as [I4 I6].
    split; intros a d k Hk Hkept; rewrite len_cons in Hkept; pose proof (len_nonneg ops).
    + apply I4; [done|]. rewrite N4. eapply kept_moves; [exact M4|lia|]. by replace (k + len ops + 1) with (k + (1 + len ops)) by lia.
    + apply I6; [done|]. rewrite N6. eapply kept_moves; [exact M6|lia|]. by replace (k + len ops + 1) with (k + (1 + len ops)) by lia.
  - destruct (IH _ _ H) as [I4 I6]. split; intros a d k Hk (s' & e & c & H1 & H2 & H3 & H4 & H5 & H6 & H7); rewrite len_cons in H6.
    + apply I4; [done|]. exists s', e, c. split_and!; (done || lia).
    + apply I6; [done|]. exists s', e, c. split_and!; (done || lia).
Qed.

(** The address of a new allocation is where the cursor stands. *)
Lemma allocate_v4_kept st now d a st1 s e : store_ok st -> inet4_net st = Some (s, e) ->
  domain_to_v4 (fk_inner st) !! d = None -> allocate_v4 st now d = (Some a, st1) ->
  kept 32 V4 (inet4_net st1) (inet4_current (fk_inner st1)) (addr_to_domain (fk_inner st1)) a d (e - s - 2).
Proof.
  intros ([Hu P4] & _) En Hd H. rewrite En in *. destruct P4 as (c & Ec & Hc). unfold allocate_v4 in H. rewrite Hd, En, Ec in H.
  destruct (pool_next_in 32 s e c Hu Hc) as [Hn _]. change (fun a => wrap 32 (a + 1)) with ipv4_next in Hn.
  cbn [rebind] in H. injection H as <- <-. set (n := pool_next ipv4_next s e c) in *.
  cbn [with_inner inet4_net fk_inner inet4_current addr_to_domain]. rewrite En. exists s, e, n. unfold ahead. rewrite Z.ltb_irrefl.
  split_and!; try (done || lia). apply lookup_insert_eq.
Qed.

Lemma allocate_v6_kept st now d a st1 s e : store_ok st -> inet6_net st = Some (s, e) ->
  domain_to_v6 (fk_inner st) !! d = None -> allocate_v6 st now d = (Some a, st1) ->
  kept 128 V6 (inet6_net st1) (inet6_current (fk_inner st1)) (addr_to_domain (fk_inner st1)) a d (e - s - 2).
Proof.
  intros (_ & [Hu P6] & _) En Hd H. rewrite En in *. destruct P6 as (c & Ec & Hc). unfold allocate_v6 in H. rewrite Hd, En, Ec in H.
  destruct (pool_next_in 128 s e c Hu Hc) as [Hn _]. change (fun a => wrap 128 (a + 1)) with ipv6_next in Hn.
  cbn [rebind] in H. injection H as <- <-. set (n := pool_next ipv6_next s e c) in *.
  cbn [with_inner inet6_net fk_inner inet6_current addr_to_domain]. rewrite En. exists s, e, n. unfold ahead. rewrite Z.ltb_irrefl.
  split_and!; try (done || lia). apply lookup_insert_eq.
Qed.

(** Fake addresses last: an address newly given to a domain keeps looking up to
    it for as long as fewer queries follow than the range has usable addresses
    (its size less the first and the last), whatever those queries ask. *)
Theorem fakeip_retention (st st1 st2 : FakeIpStore) (now a s e : Z) (d : str) (ops : list fake_op) (rs : list bytes) :
  store_ok st -> serve st1 ops = Ret (rs, st2) -> len ops < e - s - 1 ->
  (inet4_net st = Some (s, e) -> domain_to_v4 (fk_inner st) !! d = None -> allocate_v4 st now d = (Some a, st1) ->
   FakeIpStore_lookup st2 (V4 a) = Some d) /\
  (inet6_net st = Some (s, e) -> domain_to_v6 (fk_inner st) !! d = None -> allocate_v6 st now d = (Some a, st1) ->
   FakeIpStore_lookup st2 (V6 a) = Some d).
Proof.
  intros Hst Hs Hl. destruct (serve_kept _ _ _ _ Hs) as [K4 K6]. split; intros Hn Hd Ha.
  - destruct (K4 a d 0) as (? & ? & ? & _ & _ & _ & _ & _ & _ & H); [done| |exact H].
    destruct (allocate_v4_kept _ _ _ _ _ _ _ Hst Hn Hd Ha) as (s' & e' & c & ? & ? & ? & ? & ? & ? & ?).
    exists s', e', c. split_and!; (done || lia).
  - destruct (K6 a d 0) as (? & ? & ? & _ & _ & _ & _ & _ & _ & H); [done| |exact H].
    destruct (allocate_v6_kept _ _ _ _ _ _ _ Hst Hn Hd Ha) as (s' & e' & c & ? & ? & ? & ? & ? & ? & ?).
    exists s', e', c. split_and!; (done || lia).
Qed.

Definition fake_store : FakeIpStore :=
  mkStore (Some (10, 20)) (Some (100, 104)) (mkInner (Some 11) (Some 101) ∅ ∅ ∅) None [] [] 0.

Lemma fake_store_ok : store_ok fake_store.
Proof. split; [split; [done|by exists 11]|split; [split; [done|by exists 101]|done]]. Qed.

Lemma fakeip_retention_witness :
  exists rs st2,
    serve (allocate_v4 fake_store 0 (lit "a")).2 [FQuery 0 (build_query (lit "b") 1); FQuery 0 (build_query (lit "c") 28)] = Ret (rs, st2) /\
    FakeIpStore_lookup st2 (V4 12) = Some (lit "a").
Proof.
  eexists _, _. split; [vm_compute; reflexivity|].
  eapply (fakeip_retention fake_store (allocate_v4 fake_store 0 (lit "a")).2 _ 0 12 10 20 (lit "a")
    [FQuery 0 (build_query (lit "b") 1); FQuery 0 (build_query (lit "c") 28)]).
  - exact fake_store_ok.
  - vm_compute. reflexivity.
  - vm_compute. reflexivity.
  - reflexivity.
  - reflexivity.
  - vm_compute. reflexivity.
Defined.

(** ** The answer the client sees *)

Definition query_labels (name : str) : list str := List.filter (fun l => negb (len l =? 0)) (split_on 46 name).

(** The wire answer to a query carries the address. *)
Lemma build_ip_response_parsed name rtype rdata : Forall (fun l => len l < 192) (split_on 46 name) ->
  in_width 16 rtype -> len rdata < 65536 ->
  exists resp, build_ip_response (build_query name rtype) rtype rdata = Ret resp /\
    extract_first_ip resp rtype = Ret (rr_address rtype (mkRR (OPtr 12) rtype [0; 1] 1 rdata)).
Proof.
  intros Hn Ht Hd. set (w := wire_name (query_labels name)).
  assert (Hmsg : build_query name rtype = query_header ++ w ++ to_be_bytes 2 rtype ++ [0; 1]).
  { unfold build_query. by rewrite (app_assoc (encode_labels _)), encode_labels_filter. }
  rewrite Hmsg. unfold build_ip_response. rewrite len_app. change (len query_header) with 12. pose proof (len_nonneg (w ++ to_be_bytes 2 rtype ++ [0; 1])).
  rewrite (proj2 (Z.ltb_ge _ _)) by lia.
  assert (Hid : slice (query_header ++ w ++ to_be_bytes 2 rtype ++ [0; 1]) 0 2 = Ret [0; 1])
    by exact (slice_app_mid [] [0; 1] ([1; 0; 0; 1; 0; 0; 0; 0; 0; 0] ++ w ++ to_be_bytes 2 rtype ++ [0; 1]) 0 2 eq_refl eq_refl).
  rewrite Hid, bind_Ret.
  assert (Hq : slice (query_header ++ w ++ to_be_bytes 2 rtype ++ [0; 1]) 12 (12 + len (w ++ to_be_bytes 2 rtype ++ [0; 1]))
    = Ret (w ++ to_be_bytes 2 rtype ++ [0; 1])).
  { rewrite <-(app_nil_r (w ++ to_be_bytes 2 rtype ++ [0; 1])) at 1. by apply slice_app_mid. }
  rewrite Hq, bind_Ret. eexists. split; [done|].
  destruct (response_answers_ok [0; 1; 0x81; 0x80; 0; 1] [0; 0; 0; 0] (query_labels name) (to_be_bytes 2 rtype ++ [0; 1])
    [mkRR (OPtr 12) rtype [0; 1] 1 rdata] [] rtype) as [_ H1].
  - split_and!; try done.
    + apply Forall_forall. intros l Hl. apply list_elem_of_In, filter_In in Hl as [Hin Hz]. rewrite Forall_forall in Hn.
      specialize (Hn l (proj2 (list_elem_of_In _ _) Hin)). pose proof (len_nonneg l). reflect_bools. lia.
    + repeat constructor; cbn; try done; unfold in_width in Ht; lia.
  - cbn [first_address] in H1. destruct (rr_address _ _) as [x|] eqn:E in H1.
    all: rewrite E; rewrite <-H1; f_equal; unfold response, enc_rr; cbn [flat_map enc_owner owner DnsWire.rtype rclass ttl DnsWire.rdata];
      unfold as_u16, wrap; rewrite Z.mod_small by (pose proof (len_nonneg rdata); lia); rewrite !app_nil_r; app_eq.
Qed.

Lemma in_net_width w net a : usable w net -> in_net net a = true -> 0 <= a < 2 ^ w.
Proof. destruct net as [[s e]|]; [|done]. intros (H1 & H2 & H3) Hin. cbn in Hin. reflect_bools. lia. Qed.

(** The answer to a client, and the way back from it. *)
Lemma reply_resolves (st : FakeIpStore) (now : Z) (name : str) :
  store_ok st -> Forall (fun l => len l < 192 /\ utf8_valid l = true) (split_on 46 name) -> query_labels name <> [] ->
  is_excluded st (join [46] (query_labels name)) = false ->
  (inet4_net st <> None -> strategy st <> 3 ->
   exists resp st' a, reply st now (build_query name 1) = Ret (resp, st') /\ extract_first_ip resp 1 = Ret (Some (V4 a)) /\
     FakeIpStore_lookup st' (V4 a) = Some (join [46] (query_labels name)) /\ FakeIpStore_contains st' (V4 a) = true) /\
  (inet6_net st <> None -> strategy st <> 2 ->
   exists resp st' a, reply st now (build_query name 28) = Ret (resp, st') /\ extract_first_ip resp 28 = Ret (Some (V6 a)) /\
     FakeIpStore_lookup st' (V6 a) = Some (join [46] (query_labels name)) /\ FakeIpStore_contains st' (V6 a) = true).
Proof.
  intros Hst Hn Hne Hex.
  assert (Hl : Forall (fun l => len l < 192) (split_on 46 name)) by (eapply Forall_impl; [exact Hn|]; by intros l [? _]).
  split; intros Hnet Hs.
  - destruct (query_roundtrip_ok name 1 Hn Hne) as [En Et]; [done|]. unfold reply. rewrite Et, bind_Ret. cbn [Z.eqb negb andb].
    rewrite En, bind_Ret. fold (query_labels name). rewrite Hex, (proj2 (Z.eqb_neq _ _)) by done.
    pose proof (allocate_v4_ok st now (join [46] (query_labels name)) Hst) as Ha. destruct (allocate_v4 st now _) as [[a|] st'];
      [|destruct Ha as (_ & _ & _ & _ & _ & _ & Hnone & _); by destruct Hnet; apply Hnone].
    destruct Ha as (([Hu _] & _ & B4 & _) & _ & _ & _ & _ & _ & _ & Hd). destruct (B4 _ _ (Hd a eq_refl)) as [Hlk Hin].
    pose proof (in_net_width _ _ _ Hu Hin) as Hw.
    destruct (build_ip_response_parsed name 1 (to_be_bytes 4 a) Hl) as (resp & Er & Ep); [done|by rewrite len_be4|].
    unfold build_a_response. rewrite Er, bind_Ret. exists resp, st', a. split_and!; [done| |done|done].
    rewrite Ep. unfold rr_address. cbn [DnsWire.rtype DnsWire.rdata]. rewrite len_be4. cbn [Z.eqb andb]. by rewrite from_to_be_bytes_id.
  - destruct (query_roundtrip_ok name 28 Hn Hne) as [En Et]; [done|]. unfold reply. rewrite Et, bind_Ret. change (28 =? 1) with false. change (28 =? 28) with true. cbn [negb andb].
    rewrite En, bind_Ret. fold (query_labels name). rewrite Hex, (proj2 (Z.eqb_neq _ _)) by done.
    pose proof (allocate_v6_ok st now (join [46] (query_labels name)) Hst) as Ha. destruct (allocate_v6 st now _) as [[a|] st'];
      [|destruct Ha as (_ & _ & _ & _ & _ & _ & Hnone & _); by destruct Hnet; apply Hnone].
    destruct Ha as ((_ & [Hu _] & _ & B6) & _ & _ & _ & _ & _ & _ & Hd). destruct (B6 _ _ (Hd a eq_refl)) as [Hlk Hin].
    pose proof (in_net_width _ _ _ Hu Hin) as Hw.
    destruct (build_ip_response_parsed name 28 (to_be_bytes 16 a) Hl) as (resp & Er & Ep); [done|by rewrite len_to_be_bytes|].
    unfold build_aaaa_response. rewrite Er, bind_Ret. exists resp, st', a. split_and!; [done| |done|done].
    rewrite Ep. unfold rr_address. cbn [DnsWire.rtype DnsWire.rdata]. rewrite len_to_be_bytes. change (28 =? 28) with true. cbn [Z.eqb Pos.eqb andb Z.of_nat]. by rewrite from_to_be_bytes_id.
Qed.

(** Fake answers resolve: a client that asks for the addresses of a name that is
    not excluded gets a well-formed answer whose address, of the family asked
    for, lies in the range and looks up to that name (empty labels dropped). *)
Theorem fakeip_reply_resolves (st : FakeIpStore) (now : Z) (name : str) :
  store_ok st -> Forall (fun l => len l < 192 /\ utf8_valid l = true) (split_on 46 name) -> query_labels name <> [] ->
  is_excluded st (join [46] (query_labels name)) = false ->
  (inet4_net st <> None -> strategy st <> 3 ->
   exists resp st' a, reply st now (build_query name 1) = Ret (resp, st') /\ extract_first_ip resp 1 = Ret (Some (V4 a)) /\
     FakeIpStore_lookup st' (V4 a) = Some (join [46] (query_labels name)) /\ FakeIpStore_contains st' (V4 a) = true) /\
  (inet6_net st <> None -> strategy st <> 2 ->
   exists resp st' a, reply st now (build_query name 28) = Ret (resp, st') /\ extract_first_ip resp 28 = Ret (Some (V6 a)) /\
     FakeIpStore_lookup st' (V6 a) = Some (join [46] (query_labels name)) /\ FakeIpStore_contains st' (V6 a) = true).
Proof. apply reply_resolves. Qed.

Lemma fakeip_reply_resolves_witness :
  exists resp st' a, reply fake_store 0 (build_query (lit "example.com") 1) = Ret (resp, st') /\
    extract_first_ip resp 1 = Ret (Some (V4 a)) /\ FakeIpStore_lookup st' (V4 a) = Some (lit "example.com") /\
    FakeIpStore_contains st' (V4 a) = true.
Proof.
  apply (fakeip_reply_resolves fake_store 0 (lit "example.com")).
  - exact fake_store_ok.
  - repeat constructor; vm_compute; done.
  - vm_compute. discriminate.
  - vm_compute. reflexivity.
  - vm_compute. discriminate.
  - vm_compute. discriminate.
Defined.

(** A range of one address is accepted, but the address it hands out lies
    outside it, so the proxy does not recognise its own fake address. *)
Theorem fakeip_single_address :
  exists st resp st', new_with_cache (mkFakeCfg (Some (lit "198.18.0.1/32")) None [] []) None None false = Ok st /\
    reply st 0 (build_query (lit "example.com") 1) = Ret (resp, st') /\
    extract_first_ip resp 1 = Ret (Some (V4 0xC6120002)) /\ FakeIpStore_contains st' (V4 0xC6120002) = false.
Proof. do 3 eexists. split; [vm_compute; reflexivity|]. split; [vm_compute; reflexivity|]. by split; vm_compute. Qed.
