(* ===== verification/DnsCache.v ===== *)
(** * DnsCache: the DNS response cache of [src/dns/cache.rs].

    Instants and durations are integers in nanoseconds; [unix_now] is in seconds.
    Each operation takes the readings of the clocks it makes.  The [lru] crate is
    the class [LruLib] with the behaviour its documentation states ([LruLaws]);
    a [tokio] broadcast channel is an entry of the [bus]. *)

From S2P Require Import Prelude RustStr Extern CacheFile.

Local Open Scope reflex_scope.

(** ** The [lru] crate *)

Class LruLib (K V : Type) : Type := {
  lru : Type;
  lru_new : Z -> lru;
  lru_get : lru -> K -> option V * lru;
  lru_put : lru -> K -> V -> lru;
  lru_pop : lru -> K -> lru;
  lru_len : lru -> Z
}.
Arguments lru K V {_}.

Section Assoc.
Context {K V : Type} `{EqDecision K}.

Fixpoint assoc (k : K) (l : list (K * V)) : option V :=
  match l with
  | [] => None
  | (k', v) :: l => if decide (k = k') then Some v else assoc k l
  end.

Definition remove_key (k : K) (l : list (K * V)) : list (K * V) := filter (fun x => x.1 <> k) l.

(** A successful [get] moves the entry to the front. *)
Definition touch (k : K) (l : list (K * V)) : list (K * V) :=
  match assoc k l with
  | Some v => (k, v) :: remove_key k l
  | None => l
  end.

Lemma assoc_remove k l : assoc k (remove_key k l) = None.
Proof.
  induction l as [|[k' v] l IH]; [done|]. unfold remove_key. rewrite filter_cons.
  simpl. destruct (decide (k' <> k)) as [Hne|Heq]; [|exact IH]. simpl. rewrite decide_False by congruence. exact IH.
Qed.

Lemma assoc_remove_ne k k' l : k <> k' -> assoc k (remove_key k' l) = assoc k l.
Proof.
  intros Hne. induction l as [|[k1 v] l IH]; [done|]. unfold remove_key. rewrite filter_cons. simpl.
  destruct (decide (k1 <> k')) as [H1|H1]; simpl; case_decide; subst; try done.
Qed.

Lemma assoc_touch k k' l : assoc k (touch k' l) = assoc k l.
Proof.
  unfold touch. destruct (assoc k' l) as [v|] eqn:E; [|done]. simpl. case_decide; subst; [done|]. by apply assoc_remove_ne.
Qed.

Lemma assoc_take n k l v : assoc k (take n l) = Some v -> assoc k l = Some v.
Proof. revert n. induction l as [|[k' v'] l IH]; intros [|n]; simpl; try done. case_decide; [done|]. apply IH. Qed.
End Assoc.

(** The contents in order of use, most recent first, and the capacity. *)
Class LruLaws (K V : Type) `{EqDecision K} (L : LruLib K V) : Type := {
  lru_items : lru K V -> list (K * V);
  lru_cap : lru K V -> Z;
  lru_new_spec c : lru_items (lru_new c) = [] /\ lru_cap (lru_new c) = c;
  lru_get_spec l k : (lru_get l k).1 = assoc k (lru_items l) /\
    lru_items (lru_get l k).2 = touch k (lru_items l) /\ lru_cap (lru_get l k).2 = lru_cap l;
  lru_put_spec l k v : lru_items (lru_put l k v) = take (Z.to_nat (lru_cap l)) ((k, v) :: remove_key k (lru_items l)) /\
    lru_cap (lru_put l k v) = lru_cap l;
  lru_pop_spec l k : lru_items (lru_pop l k) = remove_key k (lru_items l) /\ lru_cap (lru_pop l k) = lru_cap l;
  lru_len_spec l : lru_len l = len (lru_items l)
}.

(** A list in order of use is such a cache. *)
Definition ListLru (K V : Type) `{EqDecision K} : LruLib K V := {|
  lru := Z * list (K * V);
  lru_new c := (c, []);
  lru_get l k := (assoc k l.2, (l.1, touch k l.2));
  lru_put l k v := (l.1, take (Z.to_nat l.1) ((k, v) :: remove_key k l.2));
  lru_pop l k := (l.1, remove_key k l.2);
  lru_len l := len l.2
|}.

Definition ListLru_laws (K V : Type) `{EqDecision K} : LruLaws K V (ListLru K V).
Proof.
  by refine (Build_LruLaws K V _ (ListLru K V) (fun l : Z * list (K * V) => l.2) (fun l : Z * list (K * V) => l.1) _ _ _ _ _).
Defined.

(** ** Keys, entries, results *)

Record CacheKey : Type := mkKey { ck_transport : str; ck_qname : str; ck_qtype : Z }.

#[export] Instance CacheKey_eq_dec : EqDecision CacheKey.
Proof. solve_decision. Defined.

#[export] Instance CacheKey_countable : Countable CacheKey.
Proof.
  apply (inj_countable' (fun k => (ck_transport k, ck_qname k, ck_qtype k))
           (fun x => mkKey x.1.1 x.1.2 x.2)).
  by intros [].
Defined.

Definition CacheKey_new (transport qname : str) (qtype : Z) : CacheKey :=
  mkKey transport (to_ascii_lowercase qname) qtype.

Record CacheEntry : Type := mkEntry { resp : bytes; expires : Z }.

Inductive CacheResult : Type := Hit (r : bytes) | Stale (r : bytes) | Miss.

(** A broadcast channel of capacity one: the value sent and whether its sender lives. *)
Record channel : Type := mkChan { ch_value : option bytes; ch_open : bool }.
Abbreviation bus := (list channel) (only parsing).

Inductive InflightResult : Type := Leader | Waiter (rx : nat).

(** [Receiver::recv]: pending, a value, or closed without one. *)
Definition recv (b : bus) (rx : nat) : option (result bytes unit) :=
  match b !! rx with
  | Some (mkChan (Some v) _) => Some (Ok v)
  | Some (mkChan None false) => Some (Err tt)
  | _ => None
  end.

(** [Duration::from_secs] *)
Definition secs (n : Z) : Z := n * 1000000000.

Section Cache.
Context {LRU : LruLib CacheKey CacheEntry}.

Record DnsCache : Type := mkDnsCache {
  dc_inner : lru CacheKey CacheEntry;
  ttl_cap : Z;
  optimistic_ttl : option Z;
  persist_reader : option CacheFileReader;
  persist_writer : option CacheFile;
  inflight : gmap CacheKey nat
}.

Definition with_options (capacity ttl_cap : Z) (optimistic_ttl : option Z) (persist_reader : option CacheFileReader)
    (persist_writer : option CacheFile) : DnsCache :=
  mkDnsCache (lru_new (Z.max capacity 1)) ttl_cap optimistic_ttl persist_reader persist_writer ∅.

Definition DnsCache_new (capacity ttl_cap : Z) : DnsCache := with_options capacity ttl_cap None None None.

Definition with_lru (c : DnsCache) (l : lru CacheKey CacheEntry) : DnsCache :=
  mkDnsCache l (ttl_cap c) (optimistic_ttl c) (persist_reader c) (persist_writer c) (inflight c).

Definition insert_memory (c : DnsCache) (now : Z) (key : CacheKey) (resp : bytes) (ttl_secs : Z) : DnsCache :=
  with_lru c (lru_put (dc_inner c) key (mkEntry resp (now + secs ttl_secs))).

(** The persistent layer, consulted after a miss in memory; [now'] is read again by [insert_memory]. *)
Definition get_persisted (c : DnsCache) (now_secs now' : Z) (fault : bool) (transport qname : str) (qtype : Z)
    : CacheResult * DnsCache :=
  match persist_reader c with
  | None => (Miss, c)
  | Some reader =>
      match load_dns_cache fault reader transport (to_ascii_lowercase qname) qtype with
      | None => (Miss, c)
      | Some (raw, expire_at_secs) =>
          if expire_at_secs >? now_secs then
            let remaining_secs := as_u32 (Z.min (expire_at_secs - now_secs) (ttl_cap c)) in
            (Hit raw, insert_memory c now' (CacheKey_new transport qname qtype) raw remaining_secs)
          else
            match optimistic_ttl c with
            | Some opt_dur =>
                let stale_secs := Z.max 0 (now_secs - expire_at_secs) in
                if secs stale_secs <? opt_dur then (Stale raw, c) else (Miss, c)
            | None => (Miss, c)
            end
      end
  end.

Definition DnsCache_get (c : DnsCache) (now now_secs now' : Z) (fault : bool) (transport qname : str) (qtype : Z)
    : CacheResult * DnsCache :=
  let key := CacheKey_new transport qname qtype in
  let '(found, l) := lru_get (dc_inner c) key in
  let c := with_lru c l in
  match found with
  | Some entry =>
      if now <? expires entry then (Hit (resp entry), c)
      else
        let removed := with_lru c (lru_pop (dc_inner c) key) in
        match optimistic_ttl c with
        | Some opt_dur =>
            if now <? expires entry + opt_dur then (Stale (resp entry), c)
            else get_persisted removed now_secs now' fault transport qname qtype
        | None => get_persisted removed now_secs now' fault transport qname qtype
        end
  | None => get_persisted c now_secs now' fault transport qname qtype
  end.

(** [ttl.min(self.ttl_cap).max(1)] *)
Definition clamp_ttl (c : DnsCache) (ttl : Z) : Z := Z.max (Z.min ttl (ttl_cap c)) 1.

Definition with_writer (c : DnsCache) (w : option CacheFile) : DnsCache :=
  mkDnsCache (dc_inner c) (ttl_cap c) (optimistic_ttl c) (persist_reader c) w (inflight c).

Definition DnsCache_set (c : DnsCache) (now now_secs : Z) (transport qname : str) (qtype : Z) (resp : bytes) (ttl : Z)
    : DnsCache :=
  let ttl := clamp_ttl c ttl in
  let c := insert_memory c now (CacheKey_new transport qname qtype) resp ttl in
  match persist_writer c with
  | Some writer => with_writer c (Some (save_dns_cache_async writer transport qname qtype resp (now_secs + ttl)))
  | None => c
  end.

(** ** In-flight requests *)

Definition with_inflight (c : DnsCache) (m : gmap CacheKey nat) : DnsCache :=
  mkDnsCache (dc_inner c) (ttl_cap c) (optimistic_ttl c) (persist_reader c) (persist_writer c) m.

Definition try_lead_inflight (c : DnsCache) (b : bus) (transport qname : str) (qtype : Z)
    : InflightResult * DnsCache * bus :=
  let key := CacheKey_new transport qname qtype in
  match inflight c !! key with
  | Some sender => (Waiter sender, c, b)
  | None => (Leader, with_inflight c (<[key := length b]> (inflight c)), b ++ [mkChan None true])
  end.

(** [inflight.remove(&key)], under the lock. *)
Definition take_inflight (c : DnsCache) (transport qname : str) (qtype : Z) : option nat * DnsCache :=
  let key := CacheKey_new transport qname qtype in
  (inflight c !! key, with_inflight c (delete key (inflight c))).

(** The send (if there is a response) and the drop of the sender, after the lock is released. *)
Definition finish_send (b : bus) (sender : option nat) (resp : option bytes) : bus :=
  match sender with
  | Some tx => alter (fun _ => mkChan resp false) tx b
  | None => b
  end.

Definition complete_inflight (c : DnsCache) (b : bus) (transport qname : str) (qtype : Z) (resp : option bytes)
    : DnsCache * bus :=
  let '(sender, c) := take_inflight c transport qname qtype in
  (c, finish_send b sender resp).

Definition inflight_len (c : DnsCache) : Z := Z.of_nat (size (inflight c)).
Definition DnsCache_len (c : DnsCache) : Z := lru_len (dc_inner c).
Definition DnsCache_is_empty (c : DnsCache) : bool := DnsCache_len c =? 0.
End Cache.

Arguments DnsCache : clear implicits.
Arguments DnsCache {LRU}.

(** ** What the memory cache serves *)

Section Memory.
Context {LRU : LruLib CacheKey CacheEntry} {LL : LruLaws CacheKey CacheEntry LRU}.

(** The calls a resolver makes, with the clock readings they see. *)
Inductive cache_op : Type :=
  | OSet (now now_secs : Z) (transport qname : str) (qtype : Z) (resp : bytes) (ttl : Z)
  | OGet (now now_secs now' : Z) (fault : bool) (transport qname : str) (qtype : Z).

Definition cache_step (c : DnsCache) (o : cache_op) : DnsCache :=
  match o with
  | OSet now now_secs transport qname qtype resp ttl => DnsCache_set c now now_secs transport qname qtype resp ttl
  | OGet now now_secs now' fault transport qname qtype => (DnsCache_get c now now_secs now' fault transport qname qtype).2
  end.

(** What the last [set] of a key in a history stored; the newest operation comes last. *)
Definition stored_by (cap : Z) (k : CacheKey) (acc : option CacheEntry) (o : cache_op) : option CacheEntry :=
  match o with
  | OSet now _ transport qname qtype resp ttl =>
      if decide (CacheKey_new transport qname qtype = k)
      then Some (mkEntry resp (now + secs (Z.max (Z.min ttl cap) 1))) else acc
  | OGet _ _ _ _ _ _ _ => acc
  end.

Definition last_stored (cap : Z) (ops : list cache_op) (k : CacheKey) : option CacheEntry :=
  fold_left (stored_by cap k) ops None.

(** Everything in memory is what the last [set] of its key stored. *)
Definition faithful (c : DnsCache) (ops : list cache_op) : Prop :=
  forall k e, assoc k (lru_items (dc_inner c)) = Some e -> last_stored (ttl_cap c) ops k = Some e.

Lemma get_items c now now_secs now' fault t q y k : persist_reader c = None ->
  let c' := (DnsCache_get c now now_secs now' fault t q y).2 in
  (forall e, assoc k (lru_items (dc_inner c')) = Some e -> assoc k (lru_items (dc_inner c)) = Some e) /\
  ttl_cap c' = ttl_cap c /\ optimistic_ttl c' = optimistic_ttl c /\ persist_reader c' = None.
Proof.
  intros Hr. unfold DnsCache_get. destruct (lru_get_spec (dc_inner c) (CacheKey_new t q y)) as (E1 & E2 & _).
  destruct (lru_get (dc_inner c) (CacheKey_new t q y)) as [found l]. cbn [fst snd] in E1, E2.
  unfold get_persisted. cbn [with_lru persist_reader optimistic_ttl dc_inner]. rewrite Hr.
  destruct (lru_pop_spec l (CacheKey_new t q y)) as [E3 _].
  destruct found as [entry|]; [destruct (now <? expires entry); [|destruct (optimistic_ttl c) eqn:Eo; [case_if|]]|];
    cbn [snd with_lru dc_inner ttl_cap optimistic_ttl persist_reader]; (split; [|by rewrite ?Eo]); intros e;
    rewrite ?E3, ?E2; try (by rewrite assoc_touch).
  all: destruct (decide (k = CacheKey_new t q y)) as [->|Hk]; [by rewrite assoc_remove|rewrite assoc_remove_ne by done; by rewrite assoc_touch].
Qed.

Lemma set_items c now now_secs t q y r ttl k : 
  let c' := DnsCache_set c now now_secs t q y r ttl in
  (forall e, assoc k (lru_items (dc_inner c')) = Some e ->
     if decide (CacheKey_new t q y = k) then e = mkEntry r (now + secs (clamp_ttl c ttl))
     else assoc k (lru_items (dc_inner c)) = Some e) /\
  ttl_cap c' = ttl_cap c /\ optimistic_ttl c' = optimistic_ttl c /\ persist_reader c' = persist_reader c.
Proof.
  unfold DnsCache_set, insert_memory. destruct (lru_put_spec (dc_inner c) (CacheKey_new t q y) (mkEntry r (now + secs (clamp_ttl c ttl)))) as [E _].
  cbn [with_lru persist_writer].
  assert (H : forall e, assoc k (lru_items (lru_put (dc_inner c) (CacheKey_new t q y) (mkEntry r (now + secs (clamp_ttl c ttl))))) = Some e ->
     if decide (CacheKey_new t q y = k) then e = mkEntry r (now + secs (clamp_ttl c ttl)) else assoc k (lru_items (dc_inner c)) = Some e).
  { intros e. rewrite E. intros He%assoc_take. cbn [assoc] in He. destruct (decide (k = CacheKey_new t q y)) as [->|Hk].
    - rewrite decide_True by done. congruence.
    - rewrite decide_False by congruence. by rewrite assoc_remove_ne in He. }
  destruct (persist_writer c); done.
Qed.

Lemma cache_run_faithful ops c : persist_reader c = None -> lru_items (dc_inner c) = [] ->
  let c' := fold_left cache_step ops c in
  faithful c' ops /\ ttl_cap c' = ttl_cap c /\ optimistic_ttl c' = optimistic_ttl c /\ persist_reader c' = None.
Proof.
  intros Hr He. cbv zeta. induction ops as [|o ops IH] using rev_ind.
  { split_and!; try done. intros k e. cbn [fold_left]. by rewrite He. }
  rewrite fold_left_app. cbn [fold_left]. destruct IH as (Hf & Hc & Ho & Hp). set (c1 := fold_left cache_step ops c) in *.
  destruct o as [now now_secs t q y r ttl|now now_secs now' fault t q y]; cbn [cache_step].
  - destruct (set_items c1 now now_secs t q y r ttl (CacheKey_new t q y)) as (_ & E1 & E2 & E3). rewrite E1, E2, E3. split_and!; try done.
    intros k e Hk. destruct (set_items c1 now now_secs t q y r ttl k) as (H & _). specialize (H e Hk).
    unfold last_stored. rewrite fold_left_app. cbn [fold_left stored_by]. rewrite E1. destruct (decide _) as [<-|Hne]; [by subst|]. by apply Hf.
  - destruct (get_items c1 now now_secs now' fault t q y (CacheKey_new t q y) Hp) as (_ & E1 & E2 & E3). rewrite E1, E2, E3. split_and!; try done.
    intros k e Hk. destruct (get_items c1 now now_secs now' fault t q y k Hp) as (H & _). specialize (H e Hk).
    unfold last_stored. rewrite fold_left_app. cbn [fold_left stored_by]. rewrite E1. by apply Hf.
Qed.

Lemma insert_memory_cap c now k r ttl : lru_cap (dc_inner (insert_memory c now k r ttl)) = lru_cap (dc_inner c).
Proof. apply lru_put_spec. Qed.

Lemma get_persisted_cap c now_secs now' fault t q y :
  lru_cap (dc_inner (get_persisted c now_secs now' fault t q y).2) = lru_cap (dc_inner c).
Proof.
  unfold get_persisted. destruct (persist_reader c) as [rd|]; [|done]. destruct (load_dns_cache _ _ _ _ _) as [[raw ex]|]; [|done].
  case_if; [apply insert_memory_cap|]. destruct (optimistic_ttl c); [|done]. by case_if.
Qed.

Lemma cache_step_cap c o : lru_cap (dc_inner (cache_step c o)) = lru_cap (dc_inner c).
Proof.
  destruct o as [now now_secs t q y r ttl|now now_secs now' fault t q y]; cbn [cache_step].
  - unfold DnsCache_set. destruct (persist_writer _); apply insert_memory_cap.
  - unfold DnsCache_get. destruct (lru_get_spec (dc_inner c) (CacheKey_new t q y)) as (_ & _ & E).
    destruct (lru_get (dc_inner c) (CacheKey_new t q y)) as [found l]. cbn [snd] in E.
    destruct (lru_pop_spec l (CacheKey_new t q y)) as [_ E3].
    destruct found as [e|]; [|by rewrite get_persisted_cap]. case_if; [done|].
    destruct (optimistic_ttl _); [case_if; [done|]|]; rewrite get_persisted_cap; cbn [with_lru dc_inner]; congruence.
Qed.

Lemma get_after_set c n ns t q q' y r ttl now now_secs now' fault :
  1 <= lru_cap (dc_inner c) -> to_ascii_lowercase q' = to_ascii_lowercase q -> now < n + secs (clamp_ttl c ttl) ->
  (DnsCache_get (DnsCache_set c n ns t q y r ttl) now now_secs now' fault t q' y).1 = Hit r.
Proof.
  intros Hc Hq Hn. unfold DnsCache_get. replace (CacheKey_new t q' y) with (CacheKey_new t q y) by (unfold CacheKey_new; by rewrite Hq).
  assert (E : assoc (CacheKey_new t q y) (lru_items (dc_inner (DnsCache_set c n ns t q y r ttl)))
    = Some (mkEntry r (n + secs (clamp_ttl c ttl)))).
  { assert (Hi : dc_inner (DnsCache_set c n ns t q y r ttl)
      = lru_put (dc_inner c) (CacheKey_new t q y) (mkEntry r (n + secs (clamp_ttl c ttl))))
      by (unfold DnsCache_set; by destruct (persist_writer _)).
    rewrite Hi. destruct (lru_put_spec (dc_inner c) (CacheKey_new t q y) (mkEntry r (n + secs (clamp_ttl c ttl)))) as [-> _].
    destruct (Z.to_nat (lru_cap (dc_inner c))) as [|m] eqn:Em; [lia|]. cbn [take assoc]. by rewrite decide_True. }
  destruct (lru_get_spec (dc_inner (DnsCache_set c n ns t q y r ttl)) (CacheKey_new t q y)) as (E1 & _).
  destruct (lru_get _ (CacheKey_new t q y)) as [found l]. cbn [fst] in E1. rewrite E1, E. cbn [expires resp].
  by rewrite (proj2 (Z.ltb_lt _ _)).
Qed.

(** The DNS cache is fresh and live: after any history of calls on a memory cache,
    a hit is the response of the last [set] for that transport, type and name (in
    any letter case) within its clamped time to live, a stale answer is past it by
    less than the optimistic window, and what is set is hit until it expires. *)
Theorem dns_cache_fresh (capacity cap : Z) (opt : option Z) (w : option CacheFile) (ops : list cache_op)
    (now now_secs now' : Z) (fault : bool) (t q : str) (y : Z) :
  let c := fold_left cache_step ops (with_options capacity cap opt None w) in
  match (DnsCache_get c now now_secs now' fault t q y).1 with
  | Hit r => exists e, last_stored cap ops (CacheKey_new t q y) = Some e /\ resp e = r /\ now < expires e
  | Stale r => exists e d, last_stored cap ops (CacheKey_new t q y) = Some e /\ resp e = r /\ opt = Some d /\
      expires e <= now < expires e + d
  | Miss => True
  end /\
  forall n ns q0 r ttl, to_ascii_lowercase q = to_ascii_lowercase q0 -> now < n + secs (Z.max (Z.min ttl cap) 1) ->
    (DnsCache_get (cache_step c (OSet n ns t q0 y r ttl)) now now_secs now' fault t q y).1 = Hit r.
Proof.
  intros c. subst c. destruct (cache_run_faithful ops (with_options capacity cap opt None w)) as (Hf & Hc & Ho & Hp);
    [done|by apply lru_new_spec|].
  assert (Hcap : 1 <= lru_cap (dc_inner (fold_left cache_step ops (with_options capacity cap opt None w)))).
  { assert (H0 : 1 <= lru_cap (dc_inner (with_options capacity cap opt None w)))
      by (cbn [with_options dc_inner]; rewrite (proj2 (lru_new_spec _)); lia).
    clear - H0. revert H0. generalize (with_options capacity cap opt None w). induction ops as [|o ops IH]; intros c H0; [done|].
    apply IH. by rewrite cache_step_cap. }
  set (c := fold_left cache_step ops _) in *. cbn [ttl_cap optimistic_ttl with_options] in Hc, Ho. split.
  - unfold DnsCache_get. destruct (lru_get_spec (dc_inner c) (CacheKey_new t q y)) as (E1 & _).
    destruct (lru_get (dc_inner c) (CacheKey_new t q y)) as [found l]. cbn [fst] in E1.
    unfold get_persisted. cbn [with_lru persist_reader optimistic_ttl]. rewrite Hp, Ho.
    destruct found as [e|]; [|done]. pose proof (Hf _ _ (eq_sym E1)) as Hl. rewrite Hc in Hl.
    destruct (now <? expires e) eqn:En; reflect_bools; [by exists e|].
    destruct opt as [d|]; [|done]. destruct (now <? expires e + d) eqn:Es; [|done]. reflect_bools. exists e, d. split_and!; (done || lia).
  - intros n ns q0 r ttl Hq Hn. apply get_after_set; [done|done|]. unfold clamp_ttl. by rewrite Hc.
Qed.

(** ** Across a restart *)

(** The DNS cache survives a restart: a response cached while persistence is on,
    once written to the database, is a hit in the cache of a new process exactly
    while its absolute expiry lies ahead, and is then held in memory too. *)
Theorem dns_cache_restart (c : DnsCache) (cf : CacheFile) (d : Database) (n ns : Z) (t q q' : str) (y ttl : Z) (r : bytes)
    (capacity cap now now_secs now' : Z) :
  persist_writer c = Some cf -> store_dns cf = true -> rx_alive cf = true -> write_tx cf = [] ->
  to_ascii_lowercase q' = to_ascii_lowercase q -> 
  exists cf' op d', persist_writer (DnsCache_set c n ns t q y r ttl) = Some cf' /\ write_tx cf' = [op] /\
    apply_op false d op = Ok d' /\
    let c2 := with_options capacity cap None (Some (mkReader d' true)) None in
    (DnsCache_get c2 now now_secs now' false t q' y).1 = (if now_secs <? ns + clamp_ttl c ttl then Hit r else Miss) /\
    (now_secs < ns + clamp_ttl c ttl -> forall now2 now_secs2 now2' fault,
       0 < cap < 2 ^ 32 -> now2 < now' + secs (Z.min (ns + clamp_ttl c ttl - now_secs) cap) ->
       (DnsCache_get (DnsCache_get c2 now now_secs now' false t q' y).2 now2 now_secs2 now2' fault t q' y).1 = Hit r).
Proof.
  intros Hw Hs Ha Htx Hq. unfold DnsCache_set. cbn [insert_memory with_lru persist_writer]. rewrite Hw.
  unfold save_dns_cache_async, send. rewrite Hs, Ha. cbn [negb with_writer persist_writer].
  eexists _, _, _. split; [done|]. cbn [write_tx]. rewrite Htx. split; [done|]. split; [done|]. cbv zeta.
  set (d' := with_dns d _).
  assert (Hl : load_dns_cache false (mkReader d' true) t (to_ascii_lowercase q') y = Some (r, ns + clamp_ttl c ttl)).
  { unfold load_dns_cache. cbn [negb r_store_dns db]. unfold d', encode_dns_key. cbn [with_dns dns_table].
    rewrite to_ascii_lowercase_idemp, Hq. by rewrite lookup_insert_eq. }
  set (c2 := with_options capacity cap None (Some (mkReader d' true)) None).
  assert (Hg : exists c3, lru_items (dc_inner c3) = [] /\ 1 <= lru_cap (dc_inner c3) /\ ttl_cap c3 = cap /\ optimistic_ttl c3 = None /\
    persist_reader c3 = Some (mkReader d' true) /\
    DnsCache_get c2 now now_secs now' false t q' y = get_persisted c3 now_secs now' false t q' y).
  { destruct (lru_new_spec (Z.max capacity 1)) as [Ei Ec]. unfold DnsCache_get.
    destruct (lru_get_spec (dc_inner c2) (CacheKey_new t q' y)) as (E1 & E2 & E3). destruct (lru_get _ _) as [found l]. cbn [fst snd] in *.
    unfold c2 in E1, E2, E3. cbn [with_options dc_inner] in E1, E2, E3. rewrite Ei in E1, E2. cbn [assoc] in E1. subst found.
    exists (with_lru c2 l). cbn [with_lru dc_inner]. split_and!; try done. rewrite E3, Ec. lia. }
  destruct Hg as (c3 & Hi & Hc & Ht & Ho & Hp & ->). unfold get_persisted. rewrite Hp, Hl, Ho, Ht, Z.gtb_ltb. split.
  - by case_if.
  - intros Hlt now2 now_secs2 now2' fault Hcap Hn2. rewrite (proj2 (Z.ltb_lt _ _)) by done. cbn [snd].
    unfold as_u32, wrap. rewrite Z.mod_small by lia. unfold DnsCache_get, insert_memory. cbn [with_lru dc_inner].
    set (e := mkEntry r _). destruct (lru_put_spec (dc_inner c3) (CacheKey_new t q' y) e) as [E _]. rewrite Hi in E.
    destruct (lru_get_spec (lru_put (dc_inner c3) (CacheKey_new t q' y) e) (CacheKey_new t q' y)) as (E1 & _).
    destruct (lru_get _ _) as [found l]. cbn [fst] in E1. rewrite E1, E.
    destruct (Z.to_nat (lru_cap (dc_inner c3))) as [|m] eqn:Em; [lia|]. cbn [take assoc]. rewrite decide_True by done.
    unfold e. cbn [expires resp]. by rewrite (proj2 (Z.ltb_lt _ _)).
Qed.
End Memory.

#[local] Existing Instance ListLru.

Definition sample_history : list cache_op :=
  [OSet 0 0 (lit "up") (lit "A.com") 1 [1; 2] 60; OSet 5 0 (lit "up") (lit "b.com") 1 [3] 60].

Lemma dns_cache_fresh_witness :
  (DnsCache_get (fold_left cache_step sample_history (with_options 10 3600 None None None)) 7 0 7 false (lit "up") (lit "a.com") 1).1
    = Hit [1; 2] /\
  exists e, last_stored 3600 sample_history (CacheKey_new (lit "up") (lit "a.com") 1) = Some e /\ resp e = [1; 2] /\ 7 < expires e.
Proof.
  assert (Hr : (DnsCache_get (fold_left cache_step sample_history (with_options 10 3600 None None None)) 7 0 7 false
    (lit "up") (lit "a.com") 1).1 = Hit [1; 2]) by (vm_compute; reflexivity).
  split; [exact Hr|].
  destruct (dns_cache_fresh (LL := ListLru_laws CacheKey CacheEntry) 10 3600 None None sample_history 7 0 7 false (lit "up") (lit "a.com") 1)
    as [H _]. rewrite Hr in H. exact H.
Defined.

Lemma dns_cache_restart_witness :
  exists cf' op d', persist_writer (DnsCache_set (with_options 10 3600 None None (Some (mkCacheFile [] true false true)))
      0 1000 (lit "up") (lit "a.com") 1 [1; 2] 60) = Some cf' /\ write_tx cf' = [op] /\ apply_op false empty_db op = Ok d' /\
    (DnsCache_get (with_options 5 600 None (Some (mkReader d' true)) None) 0 1059 0 false (lit "up") (lit "A.com") 1).1 = Hit [1; 2].
Proof.
  destruct (dns_cache_restart (LL := ListLru_laws CacheKey CacheEntry)
    (with_options 10 3600 None None (Some (mkCacheFile [] true false true))) (mkCacheFile [] true false true) empty_db
    0 1000 (lit "up") (lit "a.com") (lit "A.com") 1 60 [1; 2] 5 600 0 1059 0) as (cf' & op & d' & H1 & H2 & H3 & H4 & _).
  - reflexivity.
  - reflexivity.
  - reflexivity.
  - reflexivity.
  - vm_compute. reflexivity.
  - exists cf', op, d'. split_and!; [exact H1|exact H2|exact H3|]. exact H4.
Defined.
