(* ===== verification/DnsResolver.v ===== *)
(** * DnsResolver: rules, upstream selection and query handling of [src/dns/mod.rs].

    [handle] is asynchronous: it is cut at its waits and lock acquisitions into
    atomic segments, a task being between two of them at a [pc]; [resolver_step]
    interleaves the segments of all tasks.  What a network upstream answers is
    any value; the built-in upstreams answer as [src/dns/upstream.rs] computes.
    The upstream table is a [HashMap]; [upstreams] lists it in its iteration
    order, about which nothing is assumed. *)

From S2P Require Import Prelude RustStr Extern Format Trie IpMatch Compiler Loader Matcher MatchSafe CacheFile QuicCrypto Sniff DnsWire FakeIp DnsCache.

Local Open Scope reflex_scope.

(** ** Upstreams *)

Inductive RcodeAction : Type := Refused | Success | NxDomain.

(** [UpstreamKind]: the five network transports differ only in how bytes travel. *)
Inductive UpstreamKind : Type :=
  | Udp | Tcp | Doh | Dot | Doq
  | Rcode (action : RcodeAction)
  | FakeIpKind.

Record DnsUpstream : Type := mkUp { up_tag : str; up_kind : UpstreamKind }.

#[export] Instance RcodeAction_eq_dec : EqDecision RcodeAction.
Proof. solve_decision. Defined.
#[export] Instance UpstreamKind_eq_dec : EqDecision UpstreamKind.
Proof. solve_decision. Defined.
#[export] Instance DnsUpstream_eq_dec : EqDecision DnsUpstream.
Proof. solve_decision. Defined.

Definition is_fakeip (u : DnsUpstream) : bool := match up_kind u with FakeIpKind => true | _ => false end.

Definition rcode_reply (query : bytes) (action : RcodeAction) : run bytes :=
  match action with
  | Refused => make_refused query
  | Success => make_noerror_empty query
  | NxDomain => make_nxdomain query
  end.

(** The fake-address stores, by upstream tag. *)
Abbreviation stores := (gmap (list Z) FakeIpStore) (only parsing).

(** What a network upstream may answer to a message. *)
Abbreviation network := (DnsUpstream -> bytes -> result bytes str -> Prop) (only parsing).

(** [upstream.query(msg).await]: the possible answers and their effect on the stores. *)
Inductive answers (net : network) (u : DnsUpstream) (msg : bytes) (ss : stores) : result bytes str -> stores -> Prop :=
  | ans_rcode action r :
      up_kind u = Rcode action -> rcode_reply msg action = Ret r -> answers net u msg ss (Ok r) ss
  | ans_fakeip st now r st' :
      up_kind u = FakeIpKind -> ss !! up_tag u = Some st -> reply st now msg = Ret (r, st') ->
      answers net u msg ss (Ok r) (<[up_tag u := st']> ss)
  | ans_net res :
      up_kind u ∈ [Udp; Tcp; Doh; Dot; Doq] -> net u msg res -> answers net u msg ss res ss.

(** ** Rules *)

Inductive DnsQueryType : Type := QA | QAaaa | QCname | QMx | QTxt | QNs | QPtr | QSrv | QHttps.

Definition query_type_code (t : DnsQueryType) : Z :=
  match t with
  | QA => 1 | QAaaa => 28 | QCname => 5 | QMx => 15 | QTxt => 16 | QNs => 2 | QPtr => 12 | QSrv => 33 | QHttps => 65
  end.

Record DnsRuleConfig : Type := mkDnsRuleCfg {
  dc_inbound : list str;
  dc_ruleset : list str;
  dc_domain : list str;
  dc_domain_suffix : list str;
  dc_domain_keyword : list str;
  dc_query_type : list DnsQueryType;
  dc_server : str;
  dc_disable_cache : bool
}.

Inductive DnsError : Type :=
  | ServerNotFound (server : str)
  | InlineRules (e : RuleSetError)
  | ResolveFailed (host : str).

Section Resolver.
Context {FST : FstLib} {RX : RegexLib} {LRU : LruLib CacheKey CacheEntry}.

Record CompiledDnsRule : Type := mkDnsRule {
  inbound_tags : list str;
  query_types : list Z;
  inline_rs : option RuleSet;
  file_rulesets : list RuleSet;
  upstream : DnsUpstream;
  disable_cache : bool
}.

Definition find_upstream (ups : list DnsUpstream) (tag : str) : option DnsUpstream :=
  List.find (fun u => bool_decide (up_tag u = tag)) ups.

Definition dns_lines (r : DnsRuleConfig) : list str :=
  map (fun d => lit "domain: " ++ d) (dc_domain r)
  ++ map (fun d => lit "domain-suffix: " ++ d) (dc_domain_suffix r)
  ++ map (fun d => lit "domain-keyword: " ++ d) (dc_domain_keyword r).

Definition CompiledDnsRule_compile (rule : DnsRuleConfig) (upstreams : list DnsUpstream)
    (preloaded : gmap (list Z) RuleSet) : run (result CompiledDnsRule DnsError) :=
  match find_upstream upstreams (dc_server rule) with
  | None => Ret (Err (ServerNotFound (dc_server rule)))
  | Some up =>
      inline ←!! match dns_lines rule with
                 | [] => Ret (Ok None)
                 | lines => res ← RuleSet_from_text (join [10] lines); Ret (rs ←! map_err InlineRules res; Ok (Some rs))
                 end;
      Ret (Ok (mkDnsRule (dc_inbound rule) (map query_type_code (dc_query_type rule)) inline
                 (omap (fun tag => preloaded !! tag) (dc_ruleset rule)) up (dc_disable_cache rule)))
  end.

(** [rulesets.iter().any(|rs| rs.matches(&mt))] *)
Fixpoint any_matches (rss : list RuleSet) (mt : MatchTarget) : run bool :=
  match rss with
  | [] => Ret false
  | rs :: rss => b ← RuleSet_matches rs mt; if b : bool then Ret true else any_matches rss mt
  end.

Definition CompiledDnsRule_matches (r : CompiledDnsRule) (inbound_tag qname : str) (qtype : Z) : run bool :=
  if negb (bool_decide (inbound_tags r = [])) && negb (bool_decide (inbound_tag ∈ inbound_tags r)) then Ret false
  else if negb (bool_decide (query_types r = [])) && negb (bool_decide (qtype ∈ query_types r)) then Ret false
  else
    let has_cond := bool_decide (is_Some (inline_rs r)) || match file_rulesets r with [] => false | _ => true end in
    if has_cond then
      let mt := MDomain qname in
      hit ← match inline_rs r with Some rs => RuleSet_matches rs mt | None => Ret false end;
      if hit : bool then Ret true else any_matches (file_rulesets r) mt
    else Ret true.

(** [rules.iter().find(|r| r.matches(..) && ok(r))] *)
Fixpoint find_rule (ok : CompiledDnsRule -> bool) (rules : list CompiledDnsRule) (inbound_tag qname : str) (qtype : Z)
    : run (option CompiledDnsRule) :=
  match rules with
  | [] => Ret None
  | r :: rules =>
      m ← CompiledDnsRule_matches r inbound_tag qname qtype;
      if m && ok r then Ret (Some r) else find_rule ok rules inbound_tag qname qtype
  end.

(** ** The resolver *)

Record DnsResolver : Type := mkResolver {
  dr_rules : list CompiledDnsRule;
  dr_default : DnsUpstream;
  dr_upstreams : list DnsUpstream;
  dr_strategy : ResolveStrategy
}.

(** [self.upstreams.values().find(not fakeip).unwrap_or(default)] *)
Definition first_real (r : DnsResolver) : DnsUpstream :=
  match List.find (fun u => negb (is_fakeip u)) (dr_upstreams r) with
  | Some u => u
  | None => dr_default r
  end.

(** The upstream of a query and whether its rule disables the cache. *)
Definition select_upstream (r : DnsResolver) (inbound_tag qname : str) (qtype : Z) : run (DnsUpstream * bool) :=
  found ← find_rule (fun _ => true) (dr_rules r) inbound_tag qname qtype;
  let '(up, dis) := match found with
                    | Some c => (upstream c, disable_cache c)
                    | None => (dr_default r, false)
                    end in
  if negb (qtype =? 1) && negb (qtype =? 28) && is_fakeip up then
    found ← find_rule (fun c => negb (is_fakeip (upstream c))) (dr_rules r) inbound_tag qname qtype;
    Ret (match found with
         | Some c => (upstream c, disable_cache c)
         | None => (first_real r, false)
         end)
  else Ret (up, dis).

(** [lookup_fakeip]: the first store, in table order, whose range holds the address. *)
Fixpoint lookup_fakeip (ups : list DnsUpstream) (ss : stores) (addr : IpAddr) : option str :=
  match ups with
  | [] => None
  | u :: ups =>
      match up_kind u, ss !! up_tag u with
      | FakeIpKind, Some st =>
          if FakeIpStore_contains st addr then FakeIpStore_lookup st addr else lookup_fakeip ups ss addr
      | _, _ => lookup_fakeip ups ss addr
      end
  end.

(** [resolve_domain]: the upstream for a domain dialled by the proxy itself. *)
Definition resolve_upstream (r : DnsResolver) (host : str) : run DnsUpstream :=
  found ← find_rule (fun c => negb (is_fakeip (upstream c))) (dr_rules r) [] host 1;
  Ret (match found with
       | Some c => upstream c
       | None => if is_fakeip (dr_default r) then first_real r else dr_default r
       end).

Definition resolve_upstream_via (r : DnsResolver) (server_tag : str) : DnsUpstream :=
  match find_upstream (dr_upstreams r) server_tag with
  | Some u => u
  | None => dr_default r
  end.

(** [resp.ok().and_then(|r| extract_first_ip(r, qtype))] *)
Definition answer_ip (res : result bytes str) (qtype : Z) : run (option IpAddr) :=
  match res with
  | Ok r => extract_first_ip r qtype
  | Err _ => Ret None
  end.

(** [resolve_domain_with_strategy]; [query] is the chosen upstream. *)
Definition resolve_domain_with_strategy (host : str) (strategy : ResolveStrategy) (query : bytes -> result bytes str)
    : run (result IpAddr DnsError) :=
  match IpAddr_from_str host with
  | Some ip => Ret (Ok ip)
  | None =>
      match strategy with
      | Ipv4Only => a ← answer_ip (query (build_query host 1)) 1; Ret (ok_or a (ResolveFailed host))
      | Ipv6Only => a ← answer_ip (query (build_query host 28)) 28; Ret (ok_or a (ResolveFailed host))
      | _ =>
          ipv4 ← answer_ip (query (build_query host 1)) 1;
          ipv6 ← answer_ip (query (build_query host 28)) 28;
          Ret (match strategy, ipv4, ipv6 with
               | PreferIpv6, _, Some v6 => Ok v6
               | PreferIpv6, Some v4, None => Ok v4
               | _, Some v4, _ => Ok v4
               | _, None, Some v6 => Ok v6
               | _, _, _ => Err (ResolveFailed host)
               end)
      end
  end.

(** ** Handling queries *)

(** The local variables of [handle]. *)
Record request : Type := mkRequest { rq_msg : bytes; rq_qname : str; rq_qtype : Z; rq_up : DnsUpstream }.

Definition rq_key (q : request) : CacheKey := CacheKey_new (up_tag (rq_up q)) (rq_qname q) (rq_qtype q).

(** Where a task is. *)
Inductive pc : Type :=
  | PMissed (q : request)
  | PLeading (q : request)
  | PLeadStore (q : request) (r : bytes)
  | PLeadTake (q : request) (res : result bytes str)
  | PLeadSend (q : request) (sender : option nat) (res : result bytes str)
  | PWaiting (q : request) (rx : nat)
  | PRetry (q : request)
  | PRetryStore (q : request) (r : bytes)
  | PDirect (q : request)
  | PRefresh (q : request)
  | PRefreshStore (q : request) (r : bytes)
  | PDone (q : request) (res : result bytes str).

(** Up to the cache lookup: the next point, and a background refresh to spawn. *)
Definition handle_lookup (r : DnsResolver) (cache : option DnsCache) (now now_secs now' : Z) (fault : bool)
    (msg : bytes) (inbound_tag : str) : run (pc * option pc * option DnsCache) :=
  qname ← extract_qname msg;
  qtype ← extract_qtype msg;
  let qname := match qname with Some n => n | None => [] end in
  let qtype := match qtype with Some t => t | None => 1 end in
  sel ← select_upstream r inbound_tag qname qtype;
  let q := mkRequest msg qname qtype sel.1 in
  match cache, sel.2 with
  | Some c, false =>
      let '(res, c) := DnsCache_get c now now_secs now' fault (up_tag sel.1) qname qtype in
      match res with
      | Hit cached => p ← patch_id cached msg; Ret (PDone q (Ok p), None, Some c)
      | Stale cached => p ← patch_id cached msg; Ret (PDone q (Ok p), Some (PRefresh q), Some c)
      | Miss => Ret (PMissed q, None, Some c)
      end
  | _, _ => Ret (PDirect q, None, cache)
  end.

(** [if is_cacheable_or_negative(&resp) { cache.set(.., ttl) }] *)
Definition store_response (c : DnsCache) (now now_secs : Z) (q : request) (resp : bytes) : run DnsCache :=
  ok ← is_cacheable_or_negative resp;
  if ok : bool then
    ttl ← extract_min_ttl_or_negative resp;
    Ret (DnsCache_set c now now_secs (up_tag (rq_up q)) (rq_qname q) (rq_qtype q) resp
           (match ttl with Some t => t | None => 60 end))
  else Ret c.

Record sys : Type := mkSys {
  s_cache : option DnsCache;
  s_bus : list channel;
  s_stores : gmap (list Z) FakeIpStore;
  s_tasks : gmap nat pc
}.

Definition at_pc (s : sys) (t : nat) (p : pc) : Prop := s_tasks s !! t = Some p.
Definition goto (s : sys) (t : nat) (p : pc) : sys := mkSys (s_cache s) (s_bus s) (s_stores s) (<[t := p]> (s_tasks s)).
Definition with_cache (s : sys) (c : option DnsCache) : sys := mkSys c (s_bus s) (s_stores s) (s_tasks s).
Definition with_stores (s : sys) (ss : gmap (list Z) FakeIpStore) : sys := mkSys (s_cache s) (s_bus s) ss (s_tasks s).

(** The segment after an upstream's answer, by the point it was awaited at. *)
Definition after_answer (p : pc) (res : result bytes str) : option pc :=
  match p with
  | PLeading q => Some (match res with Ok r => PLeadStore q r | Err _ => PLeadTake q res end)
  | PRetry q => Some (match res with Ok r => PRetryStore q r | Err _ => PDone q res end)
  | PDirect q => Some (PDone q res)
  | PRefresh q => Some (match res with Ok r => PRefreshStore q r | Err _ => PDone q res end)
  | _ => None
  end.

(** The segment that stores a response: the request, the response, the next point. *)
Definition storing (p : pc) : option (request * bytes * pc) :=
  match p with
  | PLeadStore q r => Some (q, r, PLeadTake q (Ok r))
  | PRetryStore q r => Some (q, r, PDone q (Ok r))
  | PRefreshStore q r => Some (q, r, PDone q (Ok r))
  | _ => None
  end.

Definition pc_request (p : pc) : request :=
  match p with
  | PMissed q | PLeading q | PLeadStore q _ | PLeadTake q _ | PLeadSend q _ _ | PWaiting q _ | PRetry q | PRetryStore q _
  | PDirect q | PRefresh q | PRefreshStore q _ | PDone q _ => q
  end.

Inductive resolver_step (net : network) (r : DnsResolver) : sys -> sys -> Prop :=
  | step_arrive s t t2 now now_secs now' fault msg inbound_tag p spawned c :
      s_tasks s !! t = None -> s_tasks s !! t2 = None -> t <> t2 ->
      handle_lookup r (s_cache s) now now_secs now' fault msg inbound_tag = Ret (p, spawned, c) ->
      resolver_step net r s
        (let s1 := goto (with_cache s c) t p in
         match spawned with Some p2 => goto s1 t2 p2 | None => s1 end)
  | step_lead s t q c c' b' :
      at_pc s t (PMissed q) -> s_cache s = Some c ->
      try_lead_inflight c (s_bus s) (up_tag (rq_up q)) (rq_qname q) (rq_qtype q) = (Leader, c', b') ->
      resolver_step net r s (mkSys (Some c') b' (s_stores s) (<[t := PLeading q]> (s_tasks s)))
  | step_wait s t q c c' b' rx :
      at_pc s t (PMissed q) -> s_cache s = Some c ->
      try_lead_inflight c (s_bus s) (up_tag (rq_up q)) (rq_qname q) (rq_qtype q) = (Waiter rx, c', b') ->
      resolver_step net r s (mkSys (Some c') b' (s_stores s) (<[t := PWaiting q rx]> (s_tasks s)))
  | step_answer s t p res ss p' :
      at_pc s t p -> answers net (rq_up (pc_request p)) (rq_msg (pc_request p)) (s_stores s) res ss ->
      after_answer p res = Some p' ->
      resolver_step net r s (goto (with_stores s ss) t p')
  | step_store s t p q resp p' c c' now now_secs :
      at_pc s t p -> storing p = Some (q, resp, p') -> s_cache s = Some c ->
      store_response c now now_secs q resp = Ret c' ->
      resolver_step net r s (goto (with_cache s (Some c')) t p')
  | step_take s t q res c c' sender :
      at_pc s t (PLeadTake q res) -> s_cache s = Some c ->
      take_inflight c (up_tag (rq_up q)) (rq_qname q) (rq_qtype q) = (sender, c') ->
      resolver_step net r s (goto (with_cache s (Some c')) t (PLeadSend q sender res))
  | step_send s t q sender res :
      at_pc s t (PLeadSend q sender res) ->
      resolver_step net r s
        (mkSys (s_cache s) (finish_send (s_bus s) sender (match res with Ok r => Some r | Err _ => None end))
           (s_stores s) (<[t := PDone q res]> (s_tasks s)))
  | step_recv s t q rx v p :
      at_pc s t (PWaiting q rx) -> recv (s_bus s) rx = Some (Ok v) -> patch_id v (rq_msg q) = Ret p ->
      resolver_step net r s (goto s t (PDone q (Ok p)))
  | step_recv_closed s t q rx :
      at_pc s t (PWaiting q rx) -> recv (s_bus s) rx = Some (Err tt) ->
      resolver_step net r s (goto s t (PRetry q)).

Definition initial (c : option DnsCache) (ss : gmap (list Z) FakeIpStore) : sys := mkSys c [] ss ∅.
End Resolver.

(** ** The in-flight protocol *)

Section Protocol.
Context {FST : FstLib} {RX : RegexLib} {LRU : LruLib CacheKey CacheEntry}.

(** The key a task leads (its entry is in the table until it takes it out), and
    the channel it is about to complete. *)
Definition leading (p : pc) : option CacheKey :=
  match p with PLeading q | PLeadStore q _ | PLeadTake q _ => Some (rq_key q) | _ => None end.
Definition sending (p : pc) : option nat :=
  match p with PLeadSend _ sender _ => sender | _ => None end.
Definition waiting (p : pc) : option nat :=
  match p with PWaiting _ rx => Some rx | _ => None end.

Definition table (s : sys) : gmap CacheKey nat := match s_cache s with Some c => inflight c | None => ∅ end.

Definition idle_channel : channel := mkChan None true.

Record inflight_inv (s : sys) : Prop := {
  inv_table k ch : table s !! k = Some ch ->
    s_bus s !! ch = Some idle_channel /\ exists t p, at_pc s t p /\ leading p = Some k;
  inv_leader t p k : at_pc s t p -> leading p = Some k -> is_Some (table s !! k);
  inv_one_leader t1 t2 p1 p2 k : at_pc s t1 p1 -> at_pc s t2 p2 -> leading p1 = Some k -> leading p2 = Some k -> t1 = t2;
  inv_injective k1 k2 ch : table s !! k1 = Some ch -> table s !! k2 = Some ch -> k1 = k2;
  inv_sender t p ch : at_pc s t p -> sending p = Some ch ->
    s_bus s !! ch = Some idle_channel /\ forall k, table s !! k <> Some ch;
  inv_one_sender t1 t2 p1 p2 ch : at_pc s t1 p1 -> at_pc s t2 p2 -> sending p1 = Some ch -> sending p2 = Some ch -> t1 = t2;
  inv_waiter t p ch : at_pc s t p -> waiting p = Some ch -> (ch < length (s_bus s))%nat /\
    (recv (s_bus s) ch = None -> (exists k, table s !! k = Some ch) \/ exists t' p', at_pc s t' p' /\ sending p' = Some ch)
}.

(** A task that moves to a point with no part in the protocol. *)
Definition quiet (p : pc) : Prop := leading p = None /\ sending p = None /\ waiting p = None.

Lemma at_goto s t p t' p' : at_pc (goto s t p) t' p' <-> (t' = t /\ p' = p) \/ (t' <> t /\ at_pc s t' p').
Proof.
  unfold at_pc, goto. cbn [s_tasks]. rewrite lookup_insert_Some. naive_solver.
Qed.

(** Replacing a task's point by one with the same role, the table and bus unchanged. *)
Lemma inv_same_role s t p p' c ss :
  inflight_inv s -> s_tasks s !! t = p -> from_option leading None p = leading p' ->
  from_option sending None p = sending p' -> (waiting p' = None) ->
  match c with Some c => inflight c | None => ∅ end = table s ->
  inflight_inv (mkSys c (s_bus s) ss (<[t := p']> (s_tasks s))).
Proof.
  intros I Hp Hl Hs Hw Hc. set (s' := mkSys _ _ _ _).
  assert (Htab : table s' = table s) by exact Hc.
  assert (Hback : forall t1 p1, at_pc s' t1 p1 -> (t1 = t /\ p1 = p') \/ (t1 <> t /\ at_pc s t1 p1)).
  { intros t1 p1 H. unfold at_pc in H. cbn in H. apply lookup_insert_Some in H. naive_solver. }
  assert (Hlead : forall t1 p1 k, at_pc s' t1 p1 -> leading p1 = Some k -> exists p2, at_pc s t1 p2 /\ leading p2 = Some k).
  { intros t1 p1 k H1 H2. destruct (Hback _ _ H1) as [[-> ->]|[_ H]]; [|by exists p1].
    rewrite <-Hl in H2. destruct p as [p|]; [|done]. by exists p. }
  assert (Hsend : forall t1 p1 ch, at_pc s' t1 p1 -> sending p1 = Some ch -> exists p2, at_pc s t1 p2 /\ sending p2 = Some ch).
  { intros t1 p1 k H1 H2. destruct (Hback _ _ H1) as [[-> ->]|[_ H]]; [|by exists p1].
    rewrite <-Hs in H2. destruct p as [p|]; [|done]. by exists p. }
  assert (Hlead' : forall t1 p1 k, at_pc s t1 p1 -> leading p1 = Some k -> exists p2, at_pc s' t1 p2 /\ leading p2 = Some k).
  { intros t1 p1 k H1 H2. destruct (decide (t1 = t)) as [->|Hne].
    - exists p'. unfold at_pc in *. cbn. rewrite lookup_insert_eq. split; [done|]. rewrite <-Hl, <-Hp, H1. done.
    - exists p1. unfold at_pc in *. cbn. by rewrite lookup_insert_ne. }
  assert (Hsend' : forall t1 p1 ch, at_pc s t1 p1 -> sending p1 = Some ch -> exists p2, at_pc s' t1 p2 /\ sending p2 = Some ch).
  { intros t1 p1 k H1 H2. destruct (decide (t1 = t)) as [->|Hne].
    - exists p'. unfold at_pc in *. cbn. rewrite lookup_insert_eq. split; [done|]. rewrite <-Hs, <-Hp, H1. done.
    - exists p1. unfold at_pc in *. cbn. by rewrite lookup_insert_ne. }
  constructor; rewrite ?Htab; change (s_bus s') with (s_bus s).
  - intros k ch H. destruct (inv_table s I k ch H) as [Hb (t1 & p1 & H1 & H2)]. split; [done|].
    destruct (Hlead' _ _ _ H1 H2) as (p2 & ? & ?). by exists t1, p2.
  - intros t1 p1 k H1 H2. destruct (Hlead _ _ _ H1 H2) as (p2 & H3 & H4). by eapply inv_leader.
  - intros t1 t2 p1 p2 k H1 H2 L1 L2. destruct (Hlead _ _ _ H1 L1) as (q1 & A1 & B1). destruct (Hlead _ _ _ H2 L2) as (q2 & A2 & B2).
    by eapply (inv_one_leader s I).
  - apply (inv_injective s I).
  - intros t1 p1 ch H1 H2. destruct (Hsend _ _ _ H1 H2) as (p2 & H3 & H4). by eapply inv_sender.
  - intros t1 t2 p1 p2 k H1 H2 L1 L2. destruct (Hsend _ _ _ H1 L1) as (q1 & A1 & B1). destruct (Hsend _ _ _ H2 L2) as (q2 & A2 & B2).
    by eapply (inv_one_sender s I).
  - intros t1 p1 ch H1 H2. destruct (Hback _ _ H1) as [[-> ->]|[_ H]]; [congruence|].
    destruct (inv_waiter s I t1 p1 ch H H2) as [Hlt Hr]. split; [done|]. intros Hn. destruct (Hr Hn) as [?|(t2 & p2 & H3 & H4)]; [by left|right].
    destruct (Hsend' _ _ _ H3 H4) as (p3 & ? & ?). by exists t2, p3.
Qed.

Lemma get_inflight (c : DnsCache) now now_secs now' fault t q y :
  inflight (DnsCache_get c now now_secs now' fault t q y).2 = inflight c.
Proof.
  assert (Hp : forall c : DnsCache, inflight (get_persisted c now_secs now' fault t q y).2 = inflight c).
  { intros c0. unfold get_persisted. destruct (persist_reader c0); [|done]. destruct (load_dns_cache _ _ _ _ _) as [[raw ex]|]; [|done].
    case_if; [done|]. destruct (optimistic_ttl c0); [by case_if|done]. }
  unfold DnsCache_get. destruct (lru_get _ _) as [[e|] l]; [|by rewrite Hp]. case_if; [done|].
  destruct (optimistic_ttl _); [case_if; [done|]|]; by rewrite Hp.
Qed.

Lemma set_inflight (c : DnsCache) now now_secs t q y r ttl : inflight (DnsCache_set c now now_secs t q y r ttl) = inflight c.
Proof. unfold DnsCache_set. by destruct (persist_writer _). Qed.

Lemma lookup_points r cache now now_secs now' fault msg tag p spawned c :
  handle_lookup r cache now now_secs now' fault msg tag = Ret (p, spawned, c) ->
  quiet p /\ (forall p2, spawned = Some p2 -> quiet p2) /\
  match c with Some c => inflight c | None => ∅ end = match cache with Some c => inflight c | None => ∅ end.
Proof.
  unfold handle_lookup. intros H. apply bind_Ret_inv in H as (n & _ & H). apply bind_Ret_inv in H as (y & _ & H).
  apply bind_Ret_inv in H as ([up dis] & _ & H). cbn [fst snd] in H.
  destruct cache as [c0|]; [|injection H as <- <- <-; done]. destruct dis; [injection H as <- <- <-; done|].
  pose proof (get_inflight c0 now now_secs now' fault (up_tag up) (match n with Some n => n | None => [] end)
    (match y with Some t => t | None => 1 end)) as Hi.
  destruct (DnsCache_get c0 now now_secs now' fault _ _ _) as [res c1]. cbn [snd] in Hi.
  destruct res as [cached|cached|].
  - apply bind_Ret_inv in H as (pt & _ & H). by injection H as <- <- <-.
  - apply bind_Ret_inv in H as (pt & _ & H). injection H as <- <- <-. split; [done|]. split; [by intros ? [= <-]|done].
  - by injection H as <- <- <-.
Qed.

(** A new leader: a fresh key and a fresh channel. *)
Lemma inv_lead s t q c : inflight_inv s -> at_pc s t (PMissed q) -> s_cache s = Some c -> inflight c !! rq_key q = None ->
  inflight_inv (mkSys (Some (with_inflight c (<[rq_key q := length (s_bus s)]> (inflight c)))) (s_bus s ++ [idle_channel])
    (s_stores s) (<[t := PLeading q]> (s_tasks s))).
Proof.
  intros I Ht Hc Hk. set (n := length (s_bus s)). set (s' := mkSys _ _ _ _).
  assert (Htab : table s' = <[rq_key q := n]> (table s)) by (unfold table; rewrite Hc; done).
  assert (Hnone : table s !! rq_key q = None) by (unfold table; by rewrite Hc).
  assert (Hback : forall t1 p1, at_pc s' t1 p1 -> (t1 = t /\ p1 = PLeading q) \/ (t1 <> t /\ at_pc s t1 p1)).
  { intros t1 p1 H. unfold at_pc in H. cbn in H. apply lookup_insert_Some in H. naive_solver. }
  assert (Hfwd : forall t1 p1, at_pc s t1 p1 -> t1 <> t -> at_pc s' t1 p1)
    by (intros t1 p1 H Hne; unfold at_pc in *; cbn; by rewrite lookup_insert_ne).
  assert (Hbus : forall ch, (ch < n)%nat -> s_bus s' !! ch = s_bus s !! ch) by (intros ch H; cbn; by rewrite lookup_app_l).
  assert (Hlt : forall k ch, table s !! k = Some ch -> (ch < n)%nat)
    by (intros k ch H; destruct (inv_table s I k ch H) as [Hb _]; by eapply lookup_lt_Some).
  assert (Hold : forall t1 p1 k, t1 <> t -> at_pc s t1 p1 -> leading p1 = Some k -> k <> rq_key q).
  { intros t1 p1 k _ H1 H2 ->. destruct (inv_leader s I t1 p1 _ H1 H2) as [x Hx]. congruence. }
  constructor; rewrite ?Htab.
  - intros k ch [[<- <-]|[Hne H]]%lookup_insert_Some.
    + split; [cbn; by rewrite lookup_app_r, Nat.sub_diag|]. exists t, (PLeading q). split; [unfold at_pc; cbn; apply lookup_insert_eq|done].
    + rewrite (Hbus ch) by by eapply Hlt. destruct (inv_table s I k ch H) as [Hb (t1 & p1 & H1 & H2)]. split; [done|].
      exists t1, p1. split; [|done]. apply Hfwd; [done|]. intros ->. unfold at_pc in *. by simplify_eq.
  - intros t1 p1 k H1 H2. destruct (decide (k = rq_key q)) as [->|Hne]; [rewrite lookup_insert_eq; done|].
    rewrite lookup_insert_ne by done. destruct (Hback _ _ H1) as [[-> ->]|[_ H]]; [cbn in H2; congruence|by eapply inv_leader].
  - intros t1 t2 p1 p2 k H1 H2 L1 L2.
    destruct (Hback _ _ H1) as [[-> ->]|[N1 A1]], (Hback _ _ H2) as [[-> ->]|[N2 A2]]; [done| | |by eapply (inv_one_leader s I)].
    + destruct (Hold _ _ _ N2 A2 L2). cbn in L1. congruence.
    + destruct (Hold _ _ _ N1 A1 L1). cbn in L2. congruence.
  - intros k1 k2 ch [[<- <-]|[N1 H1]]%lookup_insert_Some [[<- E]|[N2 H2]]%lookup_insert_Some; try done.
    + apply Hlt in H2. lia.
    + apply Hlt in H1. lia.
    + by eapply (inv_injective s I).
  - intros t1 p1 ch H1 H2. destruct (Hback _ _ H1) as [[-> ->]|[_ A1]]; [done|].
    destruct (inv_sender s I t1 p1 ch A1 H2) as [Hb Hno]. assert (Hchn : (ch < n)%nat) by by eapply lookup_lt_Some.
    rewrite Hbus by done. split; [done|]. intros k [[_ E]|[_ H]]%lookup_insert_Some; [lia|by destruct (Hno k)].
  - intros t1 t2 p1 p2 ch H1 H2 L1 L2.
    destruct (Hback _ _ H1) as [[-> ->]|[N1 A1]], (Hback _ _ H2) as [[-> ->]|[N2 A2]]; try done. by eapply (inv_one_sender s I).
  - intros t1 p1 ch H1 H2. destruct (Hback _ _ H1) as [[-> ->]|[_ A1]]; [done|].
    destruct (inv_waiter s I t1 p1 ch A1 H2) as [Hlt' Hr]. split; [cbn; rewrite length_app; lia|].
    unfold recv. rewrite Hbus by done. fold (recv (s_bus s) ch). intros Hn. destruct (Hr Hn) as [[k Hk']|(t2 & p2 & H3 & H4)].
    + left. exists k. rewrite lookup_insert_ne; [done|]. intros <-. congruence.
    + right. exists t2, p2. split; [|done]. apply Hfwd; [done|]. intros ->. unfold at_pc in *. by simplify_eq.
Qed.

(** A new waiter on a channel of the table. *)
Lemma inv_wait s t q rx c : inflight_inv s -> at_pc s t (PMissed q) -> s_cache s = Some c -> inflight c !! rq_key q = Some rx ->
  inflight_inv (mkSys (Some c) (s_bus s) (s_stores s) (<[t := PWaiting q rx]> (s_tasks s))).
Proof.
  intros I Ht Hc Hk. assert (Hq : inflight_inv (mkSys (Some c) (s_bus s) (s_stores s) (<[t := PDirect q]> (s_tasks s)))).
  { eapply inv_same_role; [exact I|exact Ht|done..|]. unfold table. by rewrite Hc. }
  assert (Htab : table s !! rq_key q = Some rx) by (unfold table; by rewrite Hc).
  set (s0 := mkSys (Some c) (s_bus s) (s_stores s) (<[t := PDirect q]> (s_tasks s))) in *. set (s' := mkSys _ _ _ (<[t := PWaiting q rx]> _)).
  assert (Htab' : table s' = table s) by (unfold table; rewrite Hc; done).
  assert (Hback : forall t1 p1, at_pc s' t1 p1 -> (t1 = t /\ p1 = PWaiting q rx) \/ at_pc s0 t1 p1).
  { intros t1 p1 H. unfold at_pc in *. cbn in *. apply lookup_insert_Some in H as [[<- <-]|[Hne H]]; [by left|right]. by rewrite lookup_insert_ne. }
  assert (Hfwd : forall t1 p1, at_pc s0 t1 p1 -> p1 <> PDirect q -> at_pc s' t1 p1).
  { intros t1 p1 H Hne. unfold at_pc in *. cbn in *. apply lookup_insert_Some in H as [[<- <-]|[Hne' H]]; [done|]. by rewrite lookup_insert_ne. }
  constructor.
  - intros k ch H. destruct (inv_table s0 Hq k ch H) as [Hb (t1 & p1 & H1 & H2)]. split; [done|]. exists t1, p1. split; [|done]. apply Hfwd; [done|]. by intros ->.
  - intros t1 p1 k H1 H2. destruct (Hback _ _ H1) as [[-> ->]|H]; [done|by eapply (inv_leader s0 Hq)].
  - intros t1 t2 p1 p2 k H1 H2 L1 L2. destruct (Hback _ _ H1) as [[-> ->]|A1]; [done|]. destruct (Hback _ _ H2) as [[-> ->]|A2]; [done|].
    by eapply (inv_one_leader s0 Hq).
  - apply (inv_injective s0 Hq).
  - intros t1 p1 ch H1 H2. destruct (Hback _ _ H1) as [[-> ->]|H]; [done|by eapply (inv_sender s0 Hq)].
  - intros t1 t2 p1 p2 k H1 H2 L1 L2. destruct (Hback _ _ H1) as [[-> ->]|A1]; [done|]. destruct (Hback _ _ H2) as [[-> ->]|A2]; [done|].
    by eapply (inv_one_sender s0 Hq).
  - intros t1 p1 ch H1 H2. destruct (Hback _ _ H1) as [[-> ->]|A1].
    + injection H2 as <-. destruct (inv_table s I _ _ Htab) as [Hb _]. split; [by eapply lookup_lt_Some|]. intros _. left. exists (rq_key q). by rewrite Htab'.
    + destruct (inv_waiter s0 Hq t1 p1 ch A1 H2) as [Hlt Hr]. split; [done|]. intros Hn. destruct (Hr Hn) as [?|(t2 & p2 & H3 & H4)]; [by left|right].
      exists t2, p2. split; [|done]. apply Hfwd; [done|]. by intros ->.
Qed.

(** A leader takes its entry out of the table. *)
Lemma inv_take s t q res c : inflight_inv s -> at_pc s t (PLeadTake q res) -> s_cache s = Some c ->
  inflight_inv (mkSys (Some (with_inflight c (delete (rq_key q) (inflight c)))) (s_bus s) (s_stores s)
    (<[t := PLeadSend q (inflight c !! rq_key q) res]> (s_tasks s))).
Proof.
  intros I Ht Hc. set (s' := mkSys _ _ _ _).
  assert (Htc : table s = inflight c) by (unfold table; by rewrite Hc).
  assert (Htab : table s' = delete (rq_key q) (table s)) by (by rewrite Htc).
  destruct (inv_leader s I t _ (rq_key q) Ht eq_refl) as [ch0 Hch0].
  assert (Hs0 : inflight c !! rq_key q = Some ch0) by (by rewrite <-Htc).
  assert (Hback : forall t1 p1, at_pc s' t1 p1 -> (t1 = t /\ p1 = PLeadSend q (Some ch0) res) \/ (t1 <> t /\ at_pc s t1 p1)).
  { intros t1 p1 H. unfold at_pc in H. cbn in H. rewrite Hs0 in H. apply lookup_insert_Some in H. naive_solver. }
  assert (Hfwd : forall t1 p1, at_pc s t1 p1 -> t1 <> t -> at_pc s' t1 p1)
    by (intros t1 p1 H Hne; unfold at_pc in *; cbn; by rewrite lookup_insert_ne).
  assert (Hme : at_pc s' t (PLeadSend q (Some ch0) res)) by (unfold at_pc; cbn; rewrite Hs0; apply lookup_insert_eq).
  constructor; rewrite ?Htab.
  - intros k ch [Hne H]%lookup_delete_Some. destruct (inv_table s I k ch H) as [Hb (t1 & p1 & H1 & H2)]. split; [done|].
    exists t1, p1. split; [|done]. apply Hfwd; [done|]. intros ->. unfold at_pc in *. simplify_eq. cbn in H2. congruence.
  - intros t1 p1 k H1 H2. destruct (Hback _ _ H1) as [[-> ->]|[Hne A1]]; [done|]. destruct (inv_leader s I _ _ _ A1 H2) as [ch Hch].
    rewrite lookup_delete_ne; [by exists ch|]. intros <-. apply Hne. by eapply (inv_one_leader s I _ _ _ _ _ A1 Ht).
  - intros t1 t2 p1 p2 k H1 H2 L1 L2. destruct (Hback _ _ H1) as [[-> ->]|[N1 A1]]; [done|]. destruct (Hback _ _ H2) as [[-> ->]|[N2 A2]]; [done|].
    by eapply (inv_one_leader s I).
  - intros k1 k2 ch [_ H1]%lookup_delete_Some [_ H2]%lookup_delete_Some. by eapply (inv_injective s I).
  - intros t1 p1 ch H1 H2. destruct (Hback _ _ H1) as [[-> ->]|[_ A1]].
    + injection H2 as <-. split; [by apply (inv_table s I _ _ Hch0)|]. intros k [Hne H]%lookup_delete_Some. apply Hne.
      by eapply (inv_injective s I).
    + destruct (inv_sender s I t1 p1 ch A1 H2) as [Hb Hno]. split; [done|]. intros k [_ H]%lookup_delete_Some. by destruct (Hno k).
  - intros t1 t2 p1 p2 ch H1 H2 L1 L2.
    destruct (Hback _ _ H1) as [[-> ->]|[N1 A1]], (Hback _ _ H2) as [[-> ->]|[N2 A2]]; [done| | |by eapply (inv_one_sender s I)].
    + injection L1 as <-. destruct (inv_sender s I t2 p2 _ A2 L2) as [_ Hno]. by destruct (Hno (rq_key q)).
    + injection L2 as <-. destruct (inv_sender s I t1 p1 _ A1 L1) as [_ Hno]. by destruct (Hno (rq_key q)).
  - intros t1 p1 ch H1 H2. destruct (Hback _ _ H1) as [[-> ->]|[_ A1]]; [done|].
    destruct (inv_waiter s I t1 p1 ch A1 H2) as [Hlt Hr]. split; [done|]. intros Hn. destruct (Hr Hn) as [[k Hk]|(t2 & p2 & H3 & H4)].
    + destruct (decide (k = rq_key q)) as [->|Hne].
      * right. exists t, (PLeadSend q (Some ch0) res). split; [done|]. cbn. congruence.
      * left. exists k. by rewrite lookup_delete_ne.
    + right. exists t2, p2. split; [|done]. apply Hfwd; [done|]. intros ->. unfold at_pc in *. by simplify_eq.
Qed.

(** The leader's send closes its own channel and no other. *)
Lemma inv_send s t q sender res v : inflight_inv s -> at_pc s t (PLeadSend q sender res) ->
  inflight_inv (mkSys (s_cache s) (finish_send (s_bus s) sender v) (s_stores s) (<[t := PDone q res]> (s_tasks s))).
Proof.
  intros I Ht. destruct sender as [tx|]; cbn [finish_send]; [|by eapply inv_same_role]. set (s' := mkSys _ _ _ _).
  destruct (inv_sender s I t _ tx Ht eq_refl) as [Htx Hno].
  assert (Hback : forall t1 p1, at_pc s' t1 p1 -> (t1 = t /\ p1 = PDone q res) \/ (t1 <> t /\ at_pc s t1 p1)).
  { intros t1 p1 H. unfold at_pc in H. cbn in H. apply lookup_insert_Some in H. naive_solver. }
  assert (Hfwd : forall t1 p1, at_pc s t1 p1 -> t1 <> t -> at_pc s' t1 p1)
    by (intros t1 p1 H Hne; unfold at_pc in *; cbn; by rewrite lookup_insert_ne).
  assert (Hbus : forall ch, ch <> tx -> s_bus s' !! ch = s_bus s !! ch) by (intros ch H; cbn; by rewrite list_lookup_alter_ne).
  constructor; change (table s') with (table s).
  - intros k ch H. destruct (inv_table s I k ch H) as [Hb (t1 & p1 & H1 & H2)]. rewrite Hbus by (intros ->; by destruct (Hno k)).
    split; [done|]. exists t1, p1. split; [|done]. apply Hfwd; [done|]. intros ->. unfold at_pc in *. by simplify_eq.
  - intros t1 p1 k H1 H2. destruct (Hback _ _ H1) as [[-> ->]|[_ A1]]; [done|]. by eapply (inv_leader s I).
  - intros t1 t2 p1 p2 k H1 H2 L1 L2. destruct (Hback _ _ H1) as [[-> ->]|[N1 A1]]; [done|]. destruct (Hback _ _ H2) as [[-> ->]|[N2 A2]]; [done|].
    by eapply (inv_one_leader s I).
  - apply (inv_injective s I).
  - intros t1 p1 ch H1 H2. destruct (Hback _ _ H1) as [[-> ->]|[Hne A1]]; [done|]. rewrite Hbus; [by eapply (inv_sender s I)|].
    intros ->. apply Hne. by eapply (inv_one_sender s I _ _ _ _ _ A1 Ht).
  - intros t1 t2 p1 p2 k H1 H2 L1 L2. destruct (Hback _ _ H1) as [[-> ->]|[N1 A1]]; [done|]. destruct (Hback _ _ H2) as [[-> ->]|[N2 A2]]; [done|].
    by eapply (inv_one_sender s I).
  - intros t1 p1 ch H1 H2. destruct (Hback _ _ H1) as [[-> ->]|[_ A1]]; [done|].
    destruct (inv_waiter s I t1 p1 ch A1 H2) as [Hlt Hr]. split; [cbn; by rewrite length_alter|]. destruct (decide (ch = tx)) as [->|Hne].
    + unfold recv. cbn. rewrite list_lookup_alter_eq, Htx. cbn. by destruct v.
    + unfold recv. rewrite Hbus by done. fold (recv (s_bus s) ch). intros Hn. destruct (Hr Hn) as [?|(t2 & p2 & H3 & H4)]; [by left|right].
      exists t2, p2. split; [|done]. apply Hfwd; [done|]. intros ->. unfold at_pc in *. simplify_eq. cbn in H4. congruence.
Qed.

Lemma storing_roles p q r p' : storing p = Some (q, r, p') -> leading p = leading p' /\ sending p = sending p' /\ waiting p' = None.
Proof. by destruct p; intros [= <- <- <-]. Qed.

Lemma answer_roles p res p' : after_answer p res = Some p' -> leading p = leading p' /\ sending p = sending p' /\ waiting p' = None.
Proof. destruct p; try done; intros [= <-]; by destruct res. Qed.

Lemma store_response_inflight c now now_secs q resp c' : store_response c now now_secs q resp = Ret c' -> inflight c' = inflight c.
Proof.
  unfold store_response. intros H. apply bind_Ret_inv in H as (ok & _ & H). destruct ok; [|by injection H as <-].
  apply bind_Ret_inv in H as (ttl & _ & H). injection H as <-. apply set_inflight.
Qed.

Lemma inv_arrive s t p c : inflight_inv s -> s_tasks s !! t = None -> quiet p ->
  match c with Some c => inflight c | None => ∅ end = table s -> inflight_inv (goto (with_cache s c) t p).
Proof. intros I Ht (H1 & H2 & H3) Hc. by eapply (inv_same_role s t None). Qed.

Lemma inflight_step net r s s' : inflight_inv s -> resolver_step net r s s' -> inflight_inv s'.
Proof.
  intros I H. destruct H as [s t t2 now now_secs now' fault msg tag p spawned c Ht Ht2 Hne Hl|s t q c c' b' Ht Hc Hl|s t q c c' b' rx Ht Hc Hl
    |s t p res ss p' Ht Ha Hp|s t p q resp p' c c' now now_secs Ht Hp Hc Hs|s t q res c c' sender Ht Hc Hl|s t q sender res Ht
    |s t q rx v p Ht Hr Hp|s t q rx Ht Hr].
  - destruct (lookup_points _ _ _ _ _ _ _ _ _ _ _ Hl) as (Hq & Hsp & Hi). cbv zeta.
    assert (I1 : inflight_inv (goto (with_cache s c) t p)) by by apply inv_arrive.
    destruct spawned as [p2|]; [|done]. apply (inv_arrive (goto (with_cache s c) t p) t2 p2 c); [done| |by apply Hsp|done].
    cbn. by rewrite lookup_insert_ne.
  - unfold try_lead_inflight in Hl. fold (rq_key q) in Hl. destruct (inflight c !! rq_key q) eqn:E; [done|]. injection Hl as <- <-.
    by apply inv_lead.
  - unfold try_lead_inflight in Hl. fold (rq_key q) in Hl. destruct (inflight c !! rq_key q) eqn:E; [|done]. injection Hl as -> <- <-.
    by apply inv_wait.
  - destruct (answer_roles _ _ _ Hp) as (H1 & H2 & H3). by eapply (inv_same_role s t (Some p)).
  - destruct (storing_roles _ _ _ _ Hp) as (H1 & H2 & H3). eapply (inv_same_role s t (Some p)); try done.
    change (inflight c' = table s). rewrite (store_response_inflight _ _ _ _ _ _ Hs). unfold table. by rewrite Hc.
  - unfold take_inflight in Hl. injection Hl as <- <-. exact (inv_take s t q res c I Ht Hc).
  - by apply inv_send.
  - by eapply (inv_same_role s t (Some (PWaiting q rx))).
  - by eapply (inv_same_role s t (Some (PWaiting q rx))).
Qed.

Lemma inflight_initial c ss : match c with Some c => inflight c | None => ∅ end = ∅ -> inflight_inv (initial c ss).
Proof. intros Hc. by constructor; unfold at_pc, table; cbn; rewrite ?Hc. Qed.

Lemma inflight_reachable net r c ss s : match c with Some c => inflight c | None => ∅ end = ∅ ->
  rtc (resolver_step net r) (initial c ss) s -> inflight_inv s.
Proof.
  intros Hc H. assert (H0 := inflight_initial c ss Hc). revert H0. induction H as [s|s s1 s2 H1 _ IH]; intros I; [done|].
  apply IH. by eapply inflight_step.
Qed.

(** C4. Request deduplication: however the tasks of concurrent queries interleave and
    whatever upstreams answer, at most one task at a time asks an upstream as
    leader for a given transport, name and type, and no waiter is lost: it can
    go on now, or some leader of its channel is still to finish. *)
Theorem dns_inflight_protocol (net : network) (r : DnsResolver) (capacity cap : Z) (opt : option Z) (rd : option CacheFileReader)
    (w : option CacheFile) (ss : gmap (list Z) FakeIpStore) (s : sys) :
  rtc (resolver_step net r) (initial (Some (with_options capacity cap opt rd w)) ss) s ->
  (forall t1 t2 q1 q2, at_pc s t1 (PLeading q1) -> at_pc s t2 (PLeading q2) -> rq_key q1 = rq_key q2 -> t1 = t2) /\
  (forall t q rx, at_pc s t (PWaiting q rx) -> recv (s_bus s) rx = None ->
     exists t' p', at_pc s t' p' /\ ((exists k, leading p' = Some k /\ table s !! k = Some rx) \/ sending p' = Some rx)).
Proof.
  intros H. assert (I : inflight_inv s) by (by eapply inflight_reachable; [|exact H]). split.
  - intros t1 t2 q1 q2 H1 H2 E. eapply (inv_one_leader s I _ _ _ _ (rq_key q1) H1 H2); [done|]. cbn. by rewrite E.
  - intros t q rx Ht Hn. destruct (inv_waiter s I t _ rx Ht eq_refl) as [_ Hr]. destruct (Hr Hn) as [[k Hk]|(t' & p' & ? & ?)].
    + destruct (inv_table s I k rx Hk) as [_ (t' & p' & ? & ?)]. exists t', p'. split; [done|left; by exists k].
    + exists t', p'. split; [done|by right].
Qed.
End Protocol.

(** ** Answers reach the right client *)

Section Crosstalk.
Context {FST : FstLib} {RX : RegexLib} {LRU : LruLib CacheKey CacheEntry} {LL : LruLaws CacheKey CacheEntry LRU}.
Context (net : network) (rd : option CacheFileReader).

(** The cache key of the question in a message, for an upstream. *)
Definition question_key (u : DnsUpstream) (msg : bytes) : run CacheKey :=
  n ← extract_qname msg;
  y ← extract_qtype msg;
  Ret (CacheKey_new (up_tag u) (match n with Some n => n | None => [] end) (match y with Some t => t | None => 1 end)).

(** Where a response for a key may come from: an upstream asked exactly that, or the cache file. *)
Definition origin (k : CacheKey) (r : bytes) : Prop :=
  (exists u msg ss ss', answers net u msg ss (Ok r) ss' /\ question_key u msg = Ret k) \/
  (exists reader t q y fault ex, rd = Some reader /\ load_dns_cache fault reader t (to_ascii_lowercase q) y = Some (r, ex) /\
     k = CacheKey_new t q y).

Definition cache_ok (c : DnsCache) : Prop :=
  persist_reader c = rd /\ forall k e, assoc k (lru_items (dc_inner c)) = Some e -> origin k (resp e).

Lemma insert_memory_ok c now k r ttl : cache_ok c -> origin k r -> cache_ok (insert_memory c now k r ttl).
Proof.
  intros [Hr Hi] Ho. split; [done|]. intros k' e. cbn [insert_memory with_lru dc_inner].
  destruct (lru_put_spec (dc_inner c) k (mkEntry r (now + secs ttl))) as [-> _]. intros He%assoc_take. cbn [assoc] in He.
  destruct (decide (k' = k)) as [->|Hne]; [by injection He as <-|]. rewrite assoc_remove_ne in He by done. by apply Hi.
Qed.

Lemma set_ok c now now_secs t q y r ttl : cache_ok c -> origin (CacheKey_new t q y) r ->
  cache_ok (DnsCache_set c now now_secs t q y r ttl).
Proof.
  intros Hc Ho. pose proof (insert_memory_ok c now _ _ (clamp_ttl c ttl) Hc Ho) as [Hr Hi].
  unfold DnsCache_set. by destruct (persist_writer _).
Qed.

Lemma get_persisted_ok c now_secs now' fault t q y : cache_ok c ->
  let '(res, c') := get_persisted c now_secs now' fault t q y in
  cache_ok c' /\ match res with Hit r | Stale r => origin (CacheKey_new t q y) r | Miss => True end.
Proof.
  intros Hc. pose proof Hc as [Hr _]. unfold get_persisted. rewrite Hr. destruct rd as [reader|] eqn:Erd; [|done].
  destruct (load_dns_cache fault reader t (to_ascii_lowercase q) y) as [[raw ex]|] eqn:El; [|done].
  assert (Ho : origin (CacheKey_new t q y) raw) by (right; by exists reader, t, q, y, fault, ex).
  case_if; [split; [by apply insert_memory_ok|done]|]. destruct (optimistic_ttl c); [by case_if|done].
Qed.

Lemma get_ok c now now_secs now' fault t q y : cache_ok c ->
  let '(res, c') := DnsCache_get c now now_secs now' fault t q y in
  cache_ok c' /\ match res with Hit r | Stale r => origin (CacheKey_new t q y) r | Miss => True end.
Proof.
  intros [Hr Hi]. unfold DnsCache_get. destruct (lru_get_spec (dc_inner c) (CacheKey_new t q y)) as (E1 & E2 & _).
  destruct (lru_get (dc_inner c) (CacheKey_new t q y)) as [found l]. cbn [fst snd] in E1, E2.
  assert (Hl : cache_ok (with_lru c l)).
  { split; [done|]. intros k e. cbn [with_lru dc_inner]. rewrite E2, assoc_touch. apply Hi. }
  assert (Hpop : cache_ok (with_lru (with_lru c l) (lru_pop l (CacheKey_new t q y)))).
  { split; [done|]. intros k e. cbn [with_lru dc_inner]. destruct (lru_pop_spec l (CacheKey_new t q y)) as [-> _]. rewrite E2.
    destruct (decide (k = CacheKey_new t q y)) as [->|Hne]; [by rewrite assoc_remove|]. rewrite assoc_remove_ne, assoc_touch by done. apply Hi. }
  destruct found as [e|]; [|by apply get_persisted_ok]. pose proof (Hi _ _ (eq_sym E1)) as Ho. case_if; [done|].
  destruct (optimistic_ttl (with_lru c l)); [case_if; [done|]|]; by apply get_persisted_ok.
Qed.

Definition result_ok (k : CacheKey) (res : result bytes str) : Prop := forall r, res = Ok r -> origin k r.

(** What is known at each point; [own] gives the key each channel was made for. *)
Definition pc_ok (own : list CacheKey) (p : pc) : Prop :=
  question_key (rq_up (pc_request p)) (rq_msg (pc_request p)) = Ret (rq_key (pc_request p)) /\
  match p with
  | PLeadStore q r | PRetryStore q r | PRefreshStore q r => origin (rq_key q) r
  | PLeadTake q res => result_ok (rq_key q) res
  | PLeadSend q sender res => result_ok (rq_key q) res /\ forall ch, sender = Some ch -> own !! ch = Some (rq_key q)
  | PWaiting q rx => own !! rx = Some (rq_key q)
  | PDone q res => forall p, res = Ok p -> exists r, origin (rq_key q) r /\ (p = r \/ patch_id r (rq_msg q) = Ret p)
  | _ => True
  end.

Record talk_inv (own : list CacheKey) (s : sys) : Prop := {
  talk_cache c : s_cache s = Some c -> cache_ok c /\ forall k ch, inflight c !! k = Some ch -> own !! ch = Some k;
  talk_own : length own = length (s_bus s);
  talk_bus ch v o : s_bus s !! ch = Some (mkChan (Some v) o) -> exists k, own !! ch = Some k /\ origin k v;
  talk_tasks t p : at_pc s t p -> pc_ok own p
}.

Lemma pc_ok_mono own own' p : (forall ch k, own !! ch = Some k -> own' !! ch = Some k) -> pc_ok own p -> pc_ok own' p.
Proof. intros Hm [Hq H]. split; [done|]. destruct p; auto. destruct H as [H1 H2]. eauto. Qed.

(** A task moves, and the cache with it. *)
Lemma talk_goto own s t p c ss : talk_inv own s -> pc_ok own p ->
  (forall c1, c = Some c1 -> cache_ok c1 /\ forall k ch, inflight c1 !! k = Some ch -> own !! ch = Some k) ->
  talk_inv own (mkSys c (s_bus s) ss (<[t := p]> (s_tasks s))).
Proof.
  intros I Hp Hc. constructor; [exact Hc|apply (talk_own own s I)|apply (talk_bus own s I)|].
  intros t1 p1 H. unfold at_pc in H. cbn in H. apply lookup_insert_Some in H as [[_ <-]|[_ H]]; [done|]. by eapply (talk_tasks own s I).
Qed.

Lemma lookup_talk own r cache now now_secs now' fault msg tag p spawned c :
  (forall c1, cache = Some c1 -> cache_ok c1 /\ forall k ch, inflight c1 !! k = Some ch -> own !! ch = Some k) ->
  handle_lookup r cache now now_secs now' fault msg tag = Ret (p, spawned, c) ->
  pc_ok own p /\ (forall p2, spawned = Some p2 -> pc_ok own p2) /\
  forall c1, c = Some c1 -> cache_ok c1 /\ forall k ch, inflight c1 !! k = Some ch -> own !! ch = Some k.
Proof.
  intros Hc H. unfold handle_lookup in H. apply bind_Ret_inv in H as (n & En & H). apply bind_Ret_inv in H as (y & Ey & H).
  set (qn := match n with Some n => n | None => [] end) in *. set (qt := match y with Some t => t | None => 1 end) in *.
  apply bind_Ret_inv in H as ([up dis] & _ & H). cbn [fst snd] in H.
  assert (Hq : question_key up msg = Ret (CacheKey_new (up_tag up) qn qt)) by (unfold question_key; by rewrite En, bind_Ret, Ey, bind_Ret).
  destruct cache as [c0|]; [|injection H as <- <- <-; done]. destruct dis; [injection H as <- <- <-; done|].
  destruct (Hc c0 eq_refl) as [Hc0 Hi]. pose proof (get_ok c0 now now_secs now' fault (up_tag up) qn qt Hc0) as Hg.
  pose proof (get_inflight c0 now now_secs now' fault (up_tag up) qn qt) as Hf.
  destruct (DnsCache_get c0 now now_secs now' fault (up_tag up) qn qt) as [res c1]. cbn [snd] in Hf. destruct Hg as [Hc1 Hres].
  assert (Hc1' : forall c2, Some c1 = Some c2 -> cache_ok c2 /\ forall k ch, inflight c2 !! k = Some ch -> own !! ch = Some k)
    by (intros c2 [= <-]; split; [done|]; by rewrite Hf).
  destruct res as [cached|cached|].
  - apply bind_Ret_inv in H as (pt & Ept & H). injection H as <- <- <-. split; [|done]. split; [done|]. intros p' [= <-]. exists cached. auto.
  - apply bind_Ret_inv in H as (pt & Ept & H). injection H as <- <- <-. split; [split; [done|]; intros p' [= <-]; exists cached; auto|].
    split; [by intros p2 [= <-]|done].
  - injection H as <- <- <-. done.
Qed.

Lemma answer_ok own p res ss ss' p' : pc_ok own p ->
  answers net (rq_up (pc_request p)) (rq_msg (pc_request p)) ss res ss' -> after_answer p res = Some p' -> pc_ok own p'.
Proof.
  intros [Hq _] Ha Hp. assert (Ho : forall r, res = Ok r -> origin (rq_key (pc_request p)) r).
  { intros r ->. left. by eexists _, _, ss, ss'. }
  destruct p; try done; injection Hp as <-; cbn [pc_request] in *; destruct res as [r|e]; split; try done; cbn; auto.
  all: intros p' [= <-]; exists r; auto.
Qed.

Lemma talk_step r own s s' : talk_inv own s -> resolver_step net r s s' -> exists own', talk_inv own' s'.
Proof.
  intros I H. destruct H as [s t t2 now now_secs now' fault msg tag p spawned c Ht Ht2 Hne Hl|s t q c c' b' Ht Hc Hl|s t q c c' b' rx Ht Hc Hl
    |s t p res ss p' Ht Ha Hp|s t p q resp p' c c' now now_secs Ht Hp Hc Hs|s t q res c c' sender Ht Hc Hl|s t q sender res Ht
    |s t q rx v p Ht Hr Hp|s t q rx Ht Hr].
  - exists own. destruct (lookup_talk own _ _ _ _ _ _ _ _ _ _ _ (talk_cache own s I) Hl) as (Hp & Hsp & Hc). cbv zeta.
    assert (I1 : talk_inv own (goto (with_cache s c) t p)) by exact (talk_goto own s t p c _ I Hp Hc).
    destruct spawned as [p2|]; [|done]. apply (talk_goto own (goto (with_cache s c) t p) t2 p2 c _ I1); [by apply Hsp|done].
  - unfold try_lead_inflight in Hl. fold (rq_key q) in Hl. destruct (inflight c !! rq_key q) eqn:E; [done|]. injection Hl as <- <-.
    destruct (talk_cache own s I c Hc) as [Hco Hin]. pose proof (talk_own own s I) as Hlen.
    assert (Hm : forall ch k, own !! ch = Some k -> (own ++ [rq_key q]) !! ch = Some k) by (intros ch k H; by apply lookup_app_l_Some).
    exists (own ++ [rq_key q]). constructor; cbn [s_cache s_bus].
    + intros c1 [= <-]. split; [exact Hco|]. cbn [with_inflight inflight]. intros k ch [[<- <-]|[_ H]]%lookup_insert_Some; [|by apply Hm, Hin].
      by rewrite <-Hlen, list_lookup_middle.
    + by rewrite !length_app, Hlen.
    + intros ch v o H. apply lookup_app_Some in H as [H|[_ H]].
      * destruct (talk_bus own s I ch v o H) as (k & Hk & Ho). exists k. auto.
      * destruct (ch - length (s_bus s))%nat as [|n]; [done|]. by destruct n.
    + intros t1 p1 H. unfold at_pc in H. cbn in H. apply lookup_insert_Some in H as [[_ <-]|[_ H]].
      * destruct (talk_tasks own s I t _ Ht) as [Hq _]. done.
      * apply (pc_ok_mono own); [done|]. by apply (talk_tasks own s I t1).
  - unfold try_lead_inflight in Hl. fold (rq_key q) in Hl. destruct (inflight c !! rq_key q) eqn:E; [|done]. injection Hl as -> <- <-.
    destruct (talk_cache own s I c Hc) as [Hco Hin]. destruct (talk_tasks own s I t _ Ht) as [Hq _]. exists own.
    apply (talk_goto own s); [exact I|split; [exact Hq|by apply Hin]|by intros c1 [= <-]].
  - exists own. apply (talk_goto own s t p' (s_cache s) ss); [exact I| |apply (talk_cache own s I)]. eapply answer_ok; [by apply (talk_tasks own s I t)|exact Ha|exact Hp].
  - exists own. destruct (talk_tasks own s I t _ Ht) as [Hq Hpc]. destruct (talk_cache own s I c Hc) as [Hco Hin].
    assert (Ho : origin (rq_key q) resp /\ pc_ok own p').
    { destruct p; try done; injection Hp as <- <- <-; cbn in Hq, Hpc; (split; [done|]); (split; [done|]); [by intros ? [= <-]|..];
        intros ? [= <-]; eauto. }
    destruct Ho as [Ho Hp']. apply (talk_goto own s t p' (Some c')); [exact I|done|]. intros c1 [= <-]. rewrite (store_response_inflight _ _ _ _ _ _ Hs). split; [|done].
    unfold store_response in Hs. apply bind_Ret_inv in Hs as (ok & _ & Hs). destruct ok; [|by injection Hs as <-].
    apply bind_Ret_inv in Hs as (ttl & _ & Hs). injection Hs as <-. by apply set_ok.
  - exists own. unfold take_inflight in Hl. injection Hl as <- <-. destruct (talk_cache own s I c Hc) as [Hco Hin].
    destruct (talk_tasks own s I t _ Ht) as [Hq Hres]. apply (talk_goto own s t (PLeadSend q (inflight c !! rq_key q) res)); [exact I| |].
    + split; [exact Hq|]. split; [done|]. intros ch H. by apply Hin.
    + intros c1 [= <-]. split; [done|]. cbn [with_inflight inflight]. intros k ch [_ H]%lookup_delete_Some. by apply Hin.
  - exists own. destruct (talk_tasks own s I t _ Ht) as [Hq [Hres Hown]].
    assert (Hd : pc_ok own (PDone q res)) by (split; [exact Hq|]; intros p ->; exists p; auto).
    destruct sender as [tx|]; cbn [finish_send]; [|apply (talk_goto own s); [exact I|done|apply (talk_cache own s I)]].
    constructor; [apply (talk_cache own s I)|cbn; rewrite length_alter; apply (talk_own own s I)| |].
    + cbn [s_bus]. intros ch v o H. destruct (decide (ch = tx)) as [->|Hne].
      * rewrite list_lookup_alter_eq in H. destruct (s_bus s !! tx); [|done]. injection H as E _. exists (rq_key q). split; [by apply Hown|].
        destruct res as [r0|]; [|done]. injection E as ->. by apply Hres.
      * rewrite list_lookup_alter_ne in H by done. by eapply (talk_bus own s I).
    + intros t1 p1 H. unfold at_pc in H. cbn in H. apply lookup_insert_Some in H as [[_ <-]|[_ H]]; [done|]. by eapply (talk_tasks own s I).
  - exists own. destruct (talk_tasks own s I t _ Ht) as [Hq Hw]. unfold recv in Hr. destruct (s_bus s !! rx) as [[[v'|] o]|] eqn:Eb; [|by destruct o|done].
    injection Hr as ->. destruct (talk_bus own s I rx v o Eb) as (k & Hk & Ho). cbn in Hw. rewrite Hw in Hk. injection Hk as <-.
    apply (talk_goto own s t (PDone q (Ok p)) (s_cache s)); [exact I| |apply (talk_cache own s I)]. split; [exact Hq|]. intros p' [= <-]. exists v. auto.
  - exists own. destruct (talk_tasks own s I t _ Ht) as [Hq _]. apply (talk_goto own s t (PRetry q) (s_cache s)); [exact I|by split|apply (talk_cache own s I)].
Qed.

Lemma talk_reachable r c ss s : cache_ok c -> inflight c = ∅ -> rtc (resolver_step net r) (initial (Some c) ss) s ->
  exists own, talk_inv own s.
Proof.
  intros Hc Hi H. assert (H0 : exists own, talk_inv own (initial (Some c) ss)).
  { exists []. constructor; [|done|done|done]. intros c1 [= <-]. split; [done|]. rewrite Hi. done. }
  revert H0. induction H as [s|s s1 s2 H1 _ IH]; intros [own I]; [by exists own|]. apply IH. by eapply talk_step.
Qed.

(** C5. No cross-talk: however queries interleave, share upstream requests and hit or
    refresh the cache, a finished query was answered with a response that an
    upstream gave to a query for the same name and type through the same upstream
    (or that the cache file held for them), at most with its identifier patched. *)
Theorem dns_no_crosstalk (r : DnsResolver) (capacity cap : Z) (opt : option Z) (w : option CacheFile)
    (ss : gmap (list Z) FakeIpStore) (s : sys) (t : nat) (q : request) (p : bytes) :
  rtc (resolver_step net r) (initial (Some (with_options capacity cap opt rd w)) ss) s ->
  at_pc s t (PDone q (Ok p)) ->
  question_key (rq_up q) (rq_msg q) = Ret (rq_key q) /\
  exists resp, origin (rq_key q) resp /\ (p = resp \/ patch_id resp (rq_msg q) = Ret p).
Proof.
  intros H Ht. destruct (talk_reachable r (with_options capacity cap opt rd w) ss s) as (own & I); [|done|done|].
  - split; [done|]. intros k e. cbn [with_options dc_inner]. by rewrite (proj1 (lru_new_spec _)).
  - destruct (talk_tasks own s I t _ Ht) as [Hq Hd]. split; [done|]. by apply Hd.
Qed.
End Crosstalk.

(** ** Choosing an upstream *)

Section Select.
Context {FST : FstLib} {RX : RegexLib} {LRU : LruLib CacheKey CacheEntry}.

Definition dns_rule_wf (c : CompiledDnsRule) : Prop :=
  (forall rs, inline_rs c = Some rs -> ruleset_wf rs) /\ Forall ruleset_wf (file_rulesets c).

Definition rule_hits (c : CompiledDnsRule) (tag qname : str) (qtype : Z) : Prop :=
  CompiledDnsRule_matches c tag qname qtype = Ret true.

Lemma any_matches_returns rss d : Forall ruleset_wf rss -> returns (any_matches rss (MDomain d)).
Proof.
  induction 1 as [|rs rss Hrs _ IH]; cbn [any_matches]; [apply returns_ret|].
  apply returns_bind; [by apply ruleset_matches_returns|]. intros [] _; [apply returns_ret|done].
Qed.

Lemma dns_rule_returns c tag qname qtype : dns_rule_wf c -> returns (CompiledDnsRule_matches c tag qname qtype).
Proof.
  intros [Hi Hf]. unfold CompiledDnsRule_matches. case_if; [apply returns_ret|]. case_if; [apply returns_ret|].
  cbv zeta. destruct (bool_decide (is_Some (inline_rs c)) || _); [|apply returns_ret].
  apply returns_bind; [destruct (inline_rs c) as [rs|]; [apply ruleset_matches_returns; [by apply Hi|done]|apply returns_ret]|].
  intros [] _; [apply returns_ret|by apply any_matches_returns].
Qed.

(** The search returns the first rule that matches and passes the test. *)
Lemma find_rule_spec ok rules tag qname qtype : Forall dns_rule_wf rules ->
  exists res, find_rule ok rules tag qname qtype = Ret res /\
    match res with
    | Some c => exists pre post, rules = pre ++ c :: post /\ rule_hits c tag qname qtype /\ ok c = true /\
        Forall (fun c' => ~ (rule_hits c' tag qname qtype /\ ok c' = true)) pre
    | None => Forall (fun c' => ~ (rule_hits c' tag qname qtype /\ ok c' = true)) rules
    end.
Proof.
  induction 1 as [|c rules Hc _ IH]; cbn [find_rule]; [by exists None|].
  destruct (dns_rule_returns c tag qname qtype Hc) as [b Eb]. rewrite Eb, bind_Ret. destruct (b && ok c) eqn:Eok.
  - exists (Some c). split; [done|]. apply andb_true_iff in Eok as [-> Hok]. exists [], rules. by repeat split.
  - assert (Hno : ~ (rule_hits c tag qname qtype /\ ok c = true)).
    { unfold rule_hits. intros [H1 H2]. rewrite Eb in H1. injection H1 as ->. by rewrite H2 in Eok. }
    destruct IH as (res & -> & Hres). exists res. split; [done|]. destruct res as [c0|]; [|by constructor].
    destruct Hres as (pre & post & -> & H1 & H2 & H3). exists (c :: pre), post. split_and!; try done. by constructor.
Qed.

Lemma first_real_spec r u : u ∈ dr_upstreams r -> is_fakeip u = false -> is_fakeip (first_real r) = false.
Proof.
  intros Hu Hf. unfold first_real. destruct (List.find _ (dr_upstreams r)) as [u'|] eqn:E.
  - apply List.find_some in E as [_ E]. by apply negb_true_iff.
  - apply list_elem_of_In in Hu. pose proof (List.find_none _ _ E u Hu) as H. cbn in H. by rewrite Hf in H.
Qed.

(** With a rule list that matches and an upstream that is not a fake-address one,
    the upstream for the proxy's own lookups is a real one. *)
Lemma resolve_upstream_real r host u : Forall dns_rule_wf (dr_rules r) -> u ∈ dr_upstreams r -> is_fakeip u = false ->
  exists up, resolve_upstream r host = Ret up /\ is_fakeip up = false.
Proof.
  intros Hwf Hu Hf. unfold resolve_upstream.
  destruct (find_rule_spec (fun c => negb (is_fakeip (upstream c))) (dr_rules r) [] host 1 Hwf) as (res & -> & Hres).
  rewrite bind_Ret. eexists. split; [done|]. destruct res as [c|].
  - destruct Hres as (pre & post & _ & _ & Hok & _). by apply negb_true_iff.
  - destruct (is_fakeip (dr_default r)) eqn:E; [by eapply first_real_spec|done].
Qed.

(** The choice made before the fake-address test. *)
Definition ruled (r : DnsResolver) (tag qname : str) (qtype : Z) (sel : DnsUpstream * bool) : Prop :=
  (exists pre c post, dr_rules r = pre ++ c :: post /\ rule_hits c tag qname qtype /\
     Forall (fun c' => ~ rule_hits c' tag qname qtype) pre /\ sel = (upstream c, disable_cache c)) \/
  (Forall (fun c' => ~ rule_hits c' tag qname qtype) (dr_rules r) /\ sel = (dr_default r, false)).

Lemma find_rule_ruled r tag qname qtype : Forall dns_rule_wf (dr_rules r) ->
  exists res, find_rule (fun _ => true) (dr_rules r) tag qname qtype = Ret res /\
    ruled r tag qname qtype (match res with Some c => (upstream c, disable_cache c) | None => (dr_default r, false) end).
Proof.
  intros Hwf. destruct (find_rule_spec (fun _ => true) (dr_rules r) tag qname qtype Hwf) as (res & E & Hres).
  exists res. split; [done|]. destruct res as [c|].
  - destruct Hres as (pre & post & Hr & Hc & _ & Hpre). left. exists pre, c, post. split_and!; [done..| |done].
    eapply Forall_impl; [exact Hpre|]. cbn. tauto.
  - right. split; [|done]. eapply Forall_impl; [exact Hres|]. cbn. tauto.
Qed.

Lemma first_unique {A} (P : A -> Prop) pre1 pre2 c1 c2 post1 post2 : P c1 -> P c2 ->
  Forall (fun c => ~ P c) pre1 -> Forall (fun c => ~ P c) pre2 -> pre1 ++ c1 :: post1 = pre2 ++ c2 :: post2 -> c1 = c2.
Proof.
  intros H1 H2 F1. revert pre2. induction F1 as [|x pre1 Hx F1 IH]; intros [|y pre2] F2; cbn; intros [= -> E].
  - done.
  - by apply Forall_cons in F2 as [? _].
  - done.
  - apply Forall_cons in F2 as [_ F2]. by eapply IH.
Qed.

Lemma ruled_unique r tag qname qtype s1 s2 : ruled r tag qname qtype s1 -> ruled r tag qname qtype s2 -> s1 = s2.
Proof.
  intros [(p1 & c1 & q1 & E1 & H1 & F1 & ->)|[F1 ->]] [(p2 & c2 & q2 & E2 & H2 & F2 & ->)|[F2 ->]]; [| | |done].
  - rewrite (first_unique (fun c => rule_hits c tag qname qtype) p1 p2 c1 c2 q1 q2); try done. by rewrite <-E1, <-E2.
  - rewrite E1 in F2. apply Forall_app in F2 as [_ F2]. by apply Forall_cons in F2 as [? _].
  - rewrite E2 in F1. apply Forall_app in F1 as [_ F1]. by apply Forall_cons in F1 as [? _].
Qed.

(** Upstream selection.  When the rule sets are well formed and some configured
    upstream is not a fake-address one, every query is given an upstream: for an
    address query the one of the first matching rule (else the default), with that
    rule's cache setting; for any other query type never a fake-address upstream,
    and the same choice as for an address query when that choice is a real
    upstream.  A name the proxy resolves for itself never goes to a fake-address
    upstream. *)
Theorem fakeip_only_addresses (r : DnsResolver) (tag qname host : str) (qtype : Z) (u : DnsUpstream) :
  Forall dns_rule_wf (dr_rules r) -> u ∈ dr_upstreams r -> is_fakeip u = false ->
  (exists sel, select_upstream r tag qname qtype = Ret sel /\
     ((qtype = 1 \/ qtype = 28) -> ruled r tag qname qtype sel) /\
     (qtype <> 1 -> qtype <> 28 -> is_fakeip sel.1 = false /\
        forall sel0, ruled r tag qname qtype sel0 -> is_fakeip sel0.1 = false -> sel = sel0)) /\
  (exists up, resolve_upstream r host = Ret up /\ is_fakeip up = false).
Proof.
  intros Hwf Hu Hf. split; [|by eapply resolve_upstream_real]. unfold select_upstream.
  destruct (find_rule_ruled r tag qname qtype Hwf) as (res & -> & Hruled). rewrite bind_Ret.
  destruct (match res with Some c => _ | None => _ end) as [up dis] eqn:Esel.
  destruct (negb _ && negb _ && is_fakeip up) eqn:Eif.
  - destruct (find_rule_spec (fun c => negb (is_fakeip (upstream c))) (dr_rules r) tag qname qtype Hwf) as (res2 & -> & Hres2).
    rewrite bind_Ret. eexists. split; [done|]. apply andb_true_iff in Eif as [Eq Eup].
    apply andb_true_iff in Eq as [Eq1 Eq2]. apply negb_true_iff, Z.eqb_neq in Eq1, Eq2. split; [lia|]. intros _ _. split.
    + destruct res2 as [c|]; cbn [fst]; [|by eapply first_real_spec].
      destruct Hres2 as (pre & post & _ & _ & Hok & _). by apply negb_true_iff.
    + intros sel0 H0 Hf0. rewrite <-(ruled_unique _ _ _ _ _ _ Hruled H0) in Hf0. cbn in Hf0. congruence.
  - eexists. split; [done|]. split; [done|]. intros H1 H28. split.
    + apply Z.eqb_neq in H1, H28. by rewrite H1, H28 in Eif.
    + intros sel0 H0 _. by eapply ruled_unique.
Qed.

(** ** Rules that name rule sets which are not loaded *)

(** A rule whose only condition is a list of rule sets none of which is loaded
    compiles, and then matches every query of every inbound instead of none: the
    tags are skipped with a warning, and a rule with no condition left matches. *)
Theorem unloaded_ruleset_matches_all (tags : list str) (server : str) (dis : bool) (ups : list DnsUpstream)
    (preloaded : gmap (list Z) RuleSet) (up : DnsUpstream) :
  Forall (fun tag => preloaded !! tag = None) tags -> find_upstream ups server = Some up ->
  exists c, CompiledDnsRule_compile (mkDnsRuleCfg [] tags [] [] [] [] server dis) ups preloaded = Ret (Ok c) /\
    upstream c = up /\ forall inbound qname qtype, CompiledDnsRule_matches c inbound qname qtype = Ret true.
Proof.
  intros Htags Hup. unfold CompiledDnsRule_compile. cbn [dc_server dc_ruleset]. rewrite Hup.
  assert (omap (fun tag => preloaded !! tag) tags = []) as ->.
  { induction Htags as [|tag tags Ht _ IH]; [done|]. cbn. by rewrite Ht. }
  eexists. split; [reflexivity|]. by split.
Qed.
End Select.

(** ** A run of two clients asking for the same name *)

#[local] Existing Instance ToyFst.
#[local] Existing Instance ToyRegex.
#[local] Existing Instance ListLru.

Definition sample_upstream : DnsUpstream := mkUp (lit "block") (Rcode Success).
Definition sample_resolver : DnsResolver := mkResolver [] sample_upstream [sample_upstream] PreferIpv4.
Definition sample_net (u : DnsUpstream) (msg : bytes) (res : result bytes str) : Prop := True.
Definition sample_msg (id : Z) : bytes := [0; id] ++ drop 2 (build_query (lit "a.com") 1).
Definition sample_request (id : Z) : request := mkRequest (sample_msg id) (lit "a.com") 1 sample_upstream.
Definition sample_reply (id : Z) : bytes := match make_noerror_empty (sample_msg id) with Ret r => r | _ => [] end.
Definition sample_cache : DnsCache := with_options 10 3600 None None None.
Definition sample_led : DnsCache := (try_lead_inflight sample_cache [] (lit "block") (lit "a.com") 1).1.2.

(** Both queries missed the cache; client 0 leads and client 1 waits for it. *)
Definition sample_waiting : sys :=
  mkSys (Some sample_led) [idle_channel] ∅
    (<[1%nat := PWaiting (sample_request 8) 0%nat]> (<[0%nat := PLeading (sample_request 7)]>
       (<[1%nat := PMissed (sample_request 8)]> (<[0%nat := PMissed (sample_request 7)]> ∅)))).

Lemma sample_reaches_waiting : rtc (resolver_step sample_net sample_resolver) (initial (Some sample_cache) ∅) sample_waiting.
Proof.
  eapply rtc_l; [eapply (step_arrive _ _ _ 0%nat 9%nat 0 0 0 false (sample_msg 7) [] (PMissed (sample_request 7)) None (Some sample_cache));
    [reflexivity|reflexivity|lia|vm_compute; reflexivity]|].
  eapply rtc_l; [eapply (step_arrive _ _ _ 1%nat 9%nat 0 0 0 false (sample_msg 8) [] (PMissed (sample_request 8)) None (Some sample_cache));
    [reflexivity|reflexivity|lia|vm_compute; reflexivity]|].
  eapply rtc_l; [eapply (step_lead _ _ _ 0%nat (sample_request 7) sample_cache sample_led [idle_channel]); reflexivity|].
  apply rtc_once. exact (step_wait _ _ (mkSys (Some sample_led) [idle_channel] ∅
    (<[0%nat := PLeading (sample_request 7)]> (<[1%nat := PMissed (sample_request 8)]> (<[0%nat := PMissed (sample_request 7)]> ∅))))
    1%nat (sample_request 8) sample_led sample_led [idle_channel] 0%nat eq_refl eq_refl eq_refl).
Qed.

Lemma dns_inflight_protocol_witness :
  at_pc sample_waiting 1 (PWaiting (sample_request 8) 0) /\ recv (s_bus sample_waiting) 0 = None /\
  exists t' p', at_pc sample_waiting t' p' /\
    ((exists k, leading p' = Some k /\ table sample_waiting !! k = Some 0%nat) \/ sending p' = Some 0%nat).
Proof.
  split; [reflexivity|]. split; [reflexivity|].
  apply (proj2 (dns_inflight_protocol sample_net sample_resolver 10 3600 None None None ∅ sample_waiting sample_reaches_waiting)
    1%nat (sample_request 8) 0%nat); reflexivity.
Defined.

(** The leader's answer is stored, broadcast and received by the waiter. *)
Lemma sample_reaches_done : exists s,
  rtc (resolver_step sample_net sample_resolver) (initial (Some sample_cache) ∅) s /\
  at_pc s 1 (PDone (sample_request 8) (Ok (sample_reply 8))).
Proof.
  eexists. split.
  - etransitivity; [exact sample_reaches_waiting|].
    eapply rtc_l; [eapply (step_answer _ _ _ 0%nat (PLeading (sample_request 7)) (Ok (sample_reply 7)) ∅); [reflexivity| |reflexivity]|].
    { eapply ans_rcode; [reflexivity|vm_compute; reflexivity]. }
    eapply rtc_l; [eapply (step_store _ _ _ 0%nat _ (sample_request 7) (sample_reply 7) _ sample_led _ 0 0); [reflexivity..|vm_compute; reflexivity]|].
    eapply rtc_l; [eapply (step_take _ _ _ 0%nat (sample_request 7) (Ok (sample_reply 7))); reflexivity|].
    eapply rtc_l; [eapply (step_send _ _ _ 0%nat (sample_request 7) (Some 0%nat) (Ok (sample_reply 7))); reflexivity|].
    apply rtc_once. eapply (step_recv _ _ _ 1%nat (sample_request 8) 0%nat (sample_reply 7)); [reflexivity|reflexivity|vm_compute; reflexivity].
  - vm_compute. reflexivity.
Qed.

Lemma dns_no_crosstalk_witness : exists s,
  at_pc s 1 (PDone (sample_request 8) (Ok (sample_reply 8))) /\
  exists resp, origin sample_net None (rq_key (sample_request 8)) resp /\
    (sample_reply 8 = resp \/ patch_id resp (sample_msg 8) = Ret (sample_reply 8)).
Proof.
  destruct sample_reaches_done as (s & Hs & Hd). exists s. split; [exact Hd|].
  exact (proj2 (dns_no_crosstalk (LL := ListLru_laws CacheKey CacheEntry) sample_net None sample_resolver 10 3600 None None ∅ s 1
    (sample_request 8) (sample_reply 8) Hs Hd)).
Defined.

Definition fake_upstream : DnsUpstream := mkUp (lit "fake") FakeIpKind.

(** A fake-address default with one real upstream: an HTTPS query goes to the real one. *)
Lemma fakeip_only_addresses_witness :
  select_upstream (mkResolver [] fake_upstream [fake_upstream; sample_upstream] PreferIpv4) [] (lit "a.com") 65 = Ret (sample_upstream, false) /\
  exists up, resolve_upstream (mkResolver [] fake_upstream [fake_upstream; sample_upstream] PreferIpv4) (lit "b.com") = Ret up /\
    is_fakeip up = false.
Proof.
  split; [reflexivity|].
  apply (fakeip_only_addresses (mkResolver [] fake_upstream [fake_upstream; sample_upstream] PreferIpv4) [] (lit "a.com") (lit "b.com") 65 sample_upstream).
  - constructor.
  - apply list_elem_of_In. right. left. reflexivity.
  - reflexivity.
Defined.

Lemma unloaded_ruleset_matches_all_witness :
  exists c, CompiledDnsRule_compile (mkDnsRuleCfg [] [lit "geosite-cn"] [] [] [] [] (lit "block") false) [sample_upstream] ∅ = Ret (Ok c) /\
    CompiledDnsRule_matches c [] (lit "example.org") 1 = Ret true.
Proof.
  destruct (unloaded_ruleset_matches_all [lit "geosite-cn"] (lit "block") false [sample_upstream] ∅ sample_upstream) as (c & H1 & _ & H2).
  - constructor; [reflexivity|constructor].
  - reflexivity.
  - exists c. split; [exact H1|apply H2].
Defined.
