(* ===== verification/TunNat.v ===== *)
(** * TunNat: the TCP address translation table of [src/inbound/tun.rs].

    [TcpNat] gives each TCP source seen on the TUN device a port of the local
    listener.  An [Instant] is a number of nanoseconds; [min_by_key] runs over the
    table in the [HashMap]'s iteration order, which the caller of
    [lookup_or_insert] supplies ([iter]): nothing is assumed of it but that it
    lists the table. *)

From S2P Require Import Prelude RustStr.

Definition NAT_PORT_START : Z := 10000.
Definition NAT_PORT_END : Z := 60000.

Record TcpNatEntry : Type := mkNatEntry {
  source : SocketAddr;
  destination : SocketAddr;
  last_active : Z
}.

Record TcpNat : Type := mkNat {
  port_index : Z;
  addr_map : gmap SocketAddr Z;
  port_map : gmap Z TcpNatEntry
}.

Definition TcpNat_new : TcpNat := mkNat NAT_PORT_START ∅ ∅.

Definition do_insert (n : TcpNat) (now port : Z) (src dst : SocketAddr) : TcpNat :=
  mkNat (port_index n) (<[src := port]> (addr_map n)) (<[port := mkNatEntry src dst now]> (port_map n)).

(** [entry.last_active = Instant::now()] *)
Definition touch (n : TcpNat) (now port : Z) : TcpNat :=
  mkNat (port_index n) (addr_map n) (alter (fun e => mkNatEntry (source e) (destination e) now) port (port_map n)).

Definition next_port (port : Z) : Z := if NAT_PORT_END <=? port then NAT_PORT_START else port + 1.

(** The search for a free port: [None] when it is back at [start]. *)
Fixpoint alloc_loop (fuel : nat) (n : TcpNat) (start now : Z) (src dst : SocketAddr) : run (option Z * TcpNat) :=
  match fuel with
  | O => Stuck
  | S fuel =>
      let port := port_index n in
      let n := mkNat (next_port port) (addr_map n) (port_map n) in
      if bool_decide (port_map n !! port = None) then Ret (Some port, do_insert n now port src dst)
      else if port_index n =? start then Ret (None, n)
      else alloc_loop fuel n start now src dst
  end.

(** [port_map.remove(&port)] and the removal of its source. *)
Definition drop_port (n : TcpNat) (port : Z) : TcpNat :=
  match port_map n !! port with
  | Some e => mkNat (port_index n) (delete (source e) (addr_map n)) (delete port (port_map n))
  | None => n
  end.

Definition POOL : nat := Z.to_nat 50001.

Definition lookup_or_insert (n : TcpNat) (iter : list (Z * TcpNatEntry)) (now : Z) (src dst : SocketAddr) : run (Z * TcpNat) :=
  match addr_map n !! src with
  | Some port => Ret (port, touch n now port)
  | None =>
      r ← alloc_loop POOL n (port_index n) now src dst;
      match r with
      | (Some port, n) => Ret (port, n)
      | (None, n) =>
          let evict_port := match min_by_key (fun x => last_active x.2) iter with
                            | Some x => x.1
                            | None => NAT_PORT_START
                            end in
          Ret (evict_port, do_insert (drop_port n evict_port) now evict_port src dst)
      end
  end.

Definition lookup_back (n : TcpNat) (now nat_port : Z) : option (SocketAddr * SocketAddr) * TcpNat :=
  match port_map n !! nat_port with
  | Some e => (Some (source e, destination e), touch n now nat_port)
  | None => (None, n)
  end.

Definition TcpNat_gc (n : TcpNat) (now timeout : Z) : TcpNat :=
  let expired := map fst (List.filter (fun x => timeout <? Z.max 0 (now - last_active x.2)) (map_to_list (port_map n))) in
  fold_left drop_port expired n.

(** ** The table is a bijection between sources and ports *)

Definition in_pool (p : Z) : Prop := NAT_PORT_START <= p <= NAT_PORT_END.

Record nat_wf (n : TcpNat) : Prop := {
  wf_index : in_pool (port_index n);
  wf_pool p e : port_map n !! p = Some e -> in_pool p;
  wf_back p e : port_map n !! p = Some e -> addr_map n !! source e = Some p;
  wf_fwd s p : addr_map n !! s = Some p -> exists e, port_map n !! p = Some e /\ source e = s
}.

Lemma nat_wf_new : nat_wf TcpNat_new.
Proof. split; [unfold in_pool, TcpNat_new, NAT_PORT_START, NAT_PORT_END; cbn; lia|done..]. Qed.

Lemma next_port_pool p : in_pool p -> in_pool (next_port p).
Proof. unfold in_pool, next_port, NAT_PORT_START, NAT_PORT_END. case_if; reflect_bools; lia. Qed.

Lemma nat_wf_index n i : nat_wf n -> in_pool i -> nat_wf (mkNat i (addr_map n) (port_map n)).
Proof. intros [H1 H2 H3 H4] Hi. by split. Qed.

Lemma nat_wf_insert n now p src dst : nat_wf n -> in_pool p -> port_map n !! p = None -> addr_map n !! src = None ->
  nat_wf (do_insert n now p src dst).
Proof.
  intros [H1 H2 H3 H4] Hp Hfree Hsrc. split; cbn [do_insert port_index addr_map port_map]; [done|..].
  - intros q e [[<- _]|[_ H]]%lookup_insert_Some; eauto.
  - intros q e [[<- <-]|[Hq H]]%lookup_insert_Some; cbn [source].
    + by rewrite lookup_insert_eq.
    + rewrite lookup_insert_ne; [by apply H3|]. intros Es. pose proof (H3 _ _ H). congruence.
  - intros s q [[<- <-]|[Hs H]]%lookup_insert_Some.
    + eexists. by rewrite lookup_insert_eq.
    + destruct (H4 s q H) as (e & He & Hse). exists e. rewrite lookup_insert_ne; [done|]. congruence.
Qed.

Lemma nat_wf_touch n now p : nat_wf n -> nat_wf (touch n now p).
Proof.
  intros [H1 H2 H3 H4]. split; cbn [touch port_index addr_map port_map]; [done|..].
  - intros q e H. apply lookup_alter_Some in H as [(-> & e' & H & _)|[_ H]]; eauto.
  - intros q e H. apply lookup_alter_Some in H as [(-> & e' & H & ->)|[_ H]]; cbn; eauto.
  - intros s q H. destruct (H4 s q H) as (e & He & Hs). destruct (decide (q = p)) as [->|Hne].
    + eexists. rewrite lookup_alter_eq, He. by split.
    + exists e. by rewrite lookup_alter_ne.
Qed.

Lemma drop_port_lookup n p q : port_map (drop_port n p) !! q = if decide (q = p) then None else port_map n !! q.
Proof.
  unfold drop_port. destruct (port_map n !! p) as [e|] eqn:E; cbn [port_map].
  - case_decide; [subst; by rewrite lookup_delete_eq|by rewrite lookup_delete_ne].
  - case_decide; [by subst|done].
Qed.

Lemma nat_wf_drop n p : nat_wf n -> nat_wf (drop_port n p).
Proof.
  intros Hwf. pose proof Hwf as [H1 H2 H3 H4]. unfold drop_port. destruct (port_map n !! p) as [e|] eqn:E; [|done].
  split; cbn [port_index addr_map port_map]; [done|..].
  - intros q e' [_ H]%lookup_delete_Some; eauto.
  - intros q e' [Hq H]%lookup_delete_Some. rewrite lookup_delete_ne; [by apply H3|].
    intros Hs. pose proof (H3 _ _ E). pose proof (H3 _ _ H). congruence.
  - intros s q [Hs H]%lookup_delete_Some. destruct (H4 s q H) as (e' & He & Hse). exists e'. split; [|done].
    rewrite lookup_delete_ne; [done|]. intros ->. congruence.
Qed.

Lemma drop_port_src n p e : nat_wf n -> port_map n !! p = Some e -> addr_map (drop_port n p) = delete (source e) (addr_map n).
Proof. intros _ E. unfold drop_port. by rewrite E. Qed.

(** ** The search for a port *)

(** The [k]-th port after [start], cyclically. *)
Definition port_at (start k : Z) : Z := NAT_PORT_START + (start - NAT_PORT_START + k) mod 50001.

Lemma port_at_0 start : in_pool start -> port_at start 0 = start.
Proof. unfold in_pool, port_at, NAT_PORT_START, NAT_PORT_END. intros. rewrite Z.mod_small; lia. Qed.

Lemma port_at_pool start k : in_pool (port_at start k).
Proof.
  unfold in_pool, port_at, NAT_PORT_START, NAT_PORT_END.
  pose proof (Z.mod_pos_bound (start - 10000 + k) 50001). lia.
Qed.

Lemma port_at_next start k : next_port (port_at start k) = port_at start (k + 1).
Proof.
  unfold next_port, port_at, NAT_PORT_START, NAT_PORT_END. case_if; reflect_bools; Z.div_mod_to_equations; lia.
Qed.

Lemma port_at_back start k : in_pool start -> 0 <= k < 50001 -> port_at start (k + 1) = start <-> k = 50000.
Proof.
  unfold in_pool, port_at, NAT_PORT_START, NAT_PORT_END. intros. Z.div_mod_to_equations. lia.
Qed.

Lemma port_at_onto start p : in_pool start -> in_pool p -> exists k, 0 <= k < 50001 /\ port_at start k = p.
Proof.
  unfold in_pool, port_at, NAT_PORT_START, NAT_PORT_END. intros Hs Hp.
  exists ((p - start) mod 50001). split; [apply Z.mod_pos_bound; lia|].
  rewrite Zplus_mod_idemp_r, Z.mod_small; lia.
Qed.

(** From offset [k] on, with the ports before it taken, the search ends: at a free
    port, or after the whole pool. *)
Lemma alloc_loop_spec fuel n start now src dst k :
  in_pool start -> 0 <= k < 50001 -> 50001 - k <= Z.of_nat fuel -> port_index n = port_at start k ->
  (forall j, 0 <= j < k -> is_Some (port_map n !! port_at start j)) ->
  exists r i, alloc_loop fuel n start now src dst = Ret r /\ in_pool i /\
    match r.1 with
    | Some p => port_map n !! p = None /\ in_pool p /\ r.2 = do_insert (mkNat i (addr_map n) (port_map n)) now p src dst
    | None => (forall p, in_pool p -> is_Some (port_map n !! p)) /\ r.2 = mkNat i (addr_map n) (port_map n)
    end.
Proof.
  intros Hstart. revert n k. induction fuel as [|fuel IH]; intros n k Hk Hf Hi Hused; [lia|]. cbn [alloc_loop].
  cbn [port_map port_index]. case_bool_decide as Hfree.
  - eexists _, (next_port (port_index n)). split; [reflexivity|]. cbn [fst snd].
    split_and!; [apply next_port_pool; rewrite Hi; apply port_at_pool|done|rewrite Hi; apply port_at_pool|done].
  - assert (Hall : forall j, 0 <= j < k + 1 -> is_Some (port_map n !! port_at start j)).
    { intros j Hj. destruct (decide (j = k)) as [->|]; [|apply Hused; lia]. rewrite <-Hi.
      destruct (port_map n !! port_index n); [by eexists|done]. }
    rewrite Hi, port_at_next. destruct (Z.eqb_spec (port_at start (k + 1)) start) as [Hb|Hb].
    + apply port_at_back in Hb; [|done|done]. subst k. eexists _, (port_at start (50000 + 1)).
      split; [reflexivity|]. split; [apply port_at_pool|]. cbn [fst snd]. split; [|done].
      intros p Hp. destruct (port_at_onto start p Hstart Hp) as (j & Hj & <-). apply Hall. lia.
    + rewrite port_at_back in Hb by done.
      destruct (IH (mkNat (port_at start (k + 1)) (addr_map n) (port_map n)) (k + 1)) as (r & i & E & Hr); [lia|lia|done|done|].
      exists r, i. by split.
Qed.

Lemma alloc_spec n now src dst : nat_wf n -> 
  exists r i, alloc_loop POOL n (port_index n) now src dst = Ret r /\ in_pool i /\
    match r.1 with
    | Some p => port_map n !! p = None /\ in_pool p /\ r.2 = do_insert (mkNat i (addr_map n) (port_map n)) now p src dst
    | None => (forall p, in_pool p -> is_Some (port_map n !! p)) /\ r.2 = mkNat i (addr_map n) (port_map n)
    end.
Proof.
  intros Hwf. apply (alloc_loop_spec POOL n (port_index n) now src dst 0); [apply Hwf|lia| |by rewrite port_at_0 by apply Hwf|lia].
  unfold POOL. rewrite Z2Nat.id by lia. lia.
Qed.

(** ** Calls on the table *)

(** What a call does to the table, whatever the call. *)
Inductive nat_call : TcpNat -> TcpNat -> Prop :=
  | call_insert n iter now src dst p n' :
      iter ≡ₚ map_to_list (port_map n) -> lookup_or_insert n iter now src dst = Ret (p, n') -> nat_call n n'
  | call_back n now p : nat_call n (lookup_back n now p).2
  | call_gc n now timeout : nat_call n (TcpNat_gc n now timeout).

(** The session of a port. *)
Definition session (n : TcpNat) (p : Z) : option (SocketAddr * SocketAddr) :=
  match port_map n !! p with Some e => Some (source e, destination e) | None => None end.

Lemma session_touch n now p q : session (touch n now p) q = session n q.
Proof.
  unfold session, touch. cbn [port_map]. destruct (decide (q = p)) as [->|Hne].
  - rewrite lookup_alter_eq. by destruct (port_map n !! p).
  - by rewrite lookup_alter_ne.
Qed.

Lemma session_insert n now p src dst q :
  session (do_insert n now p src dst) q = if decide (q = p) then Some (src, dst) else session n q.
Proof.
  unfold session, do_insert. cbn [port_map]. case_decide; [subst; by rewrite lookup_insert_eq|by rewrite lookup_insert_ne].
Qed.

Lemma session_drop n p q : session (drop_port n p) q = if decide (q = p) then None else session n q.
Proof. unfold session. rewrite drop_port_lookup. by case_decide. Qed.

Lemma session_wf n p s d : nat_wf n -> session n p = Some (s, d) -> addr_map n !! s = Some p.
Proof.
  intros Hwf. unfold session. destruct (port_map n !! p) as [e|] eqn:E; [|done]. intros [= <- <-]. by apply (wf_back n Hwf).
Qed.

(** The oldest session of a full table. *)
Definition oldest (n : TcpNat) (p : Z) : Prop :=
  (forall q, in_pool q -> is_Some (port_map n !! q)) /\
  exists e, port_map n !! p = Some e /\ forall q e', port_map n !! q = Some e' -> last_active e <= last_active e'.

Lemma evicted_oldest n iter : iter ≡ₚ map_to_list (port_map n) -> (forall q, in_pool q -> is_Some (port_map n !! q)) ->
  exists x, min_by_key (fun x => last_active x.2) iter = Some x /\ oldest n x.1 /\ port_map n !! x.1 = Some x.2.
Proof.
  intros Hp Hfull.
  assert (Hin : forall q e, (q, e) ∈ iter <-> port_map n !! q = Some e).
  { intros q e. rewrite Hp. apply elem_of_map_to_list. }
  destruct (min_by_key_spec (fun x => last_active x.2) iter) as (x & E & Hx & Hle).
  { destruct (Hfull NAT_PORT_START) as [e He]; [unfold in_pool, NAT_PORT_START, NAT_PORT_END; lia|].
    apply Hin in He. intros ->. by apply elem_of_nil in He. }
  destruct x as [p e]. apply Hin in Hx. exists (p, e). split; [done|]. split; [|done]. split; [done|].
  exists e. split; [done|]. intros q e' H. apply Hin in H. exact (Hle _ H).
Qed.

(** The outcome of [lookup_or_insert]: the port of the source, the table's other
    sessions untouched but the oldest when the table is full. *)
Definition inserted (n : TcpNat) (now : Z) (src dst : SocketAddr) (p : Z) (n' : TcpNat) : Prop :=
  match addr_map n !! src with
  | Some p0 => p = p0 /\ forall q, session n' q = session n q
  | None => session n' p = Some (src, dst) /\ (forall q, q <> p -> session n' q = session n q) /\
      (port_map n !! p = None \/ oldest n p)
  end /\
  exists e, port_map n' !! p = Some e /\ last_active e = now.

Lemma lookup_or_insert_spec n iter now src dst : nat_wf n -> iter ≡ₚ map_to_list (port_map n) ->
  exists p n', lookup_or_insert n iter now src dst = Ret (p, n') /\ in_pool p /\ nat_wf n' /\ inserted n now src dst p n'.
Proof.
  intros Hwf Hiter. unfold lookup_or_insert, inserted. destruct (addr_map n !! src) as [p0|] eqn:Esrc.
  - destruct (wf_fwd n Hwf src p0 Esrc) as (e & He & Hs). exists p0, (touch n now p0).
    split_and!; [done|by eapply wf_pool|by apply nat_wf_touch|done|by intros; apply session_touch|].
    eexists. unfold touch. cbn [port_map]. rewrite lookup_alter_eq, He. by split.
  - destruct (alloc_spec n now src dst Hwf) as ([[p|] n1] & i & -> & Hi & Hr); cbn [fst snd] in Hr; rewrite bind_Ret.
    + destruct Hr as (Hfree & Hp & ->). eexists p, _. split; [reflexivity|].
      split_and!; [done|by apply nat_wf_insert; [apply nat_wf_index|..]| | |by left|].
      * rewrite session_insert. by case_decide.
      * intros q Hq. rewrite session_insert. by case_decide.
      * eexists. cbn [do_insert port_map]. by rewrite lookup_insert_eq.
    + destruct Hr as [Hfull ->]. destruct (evicted_oldest n iter Hiter Hfull) as (x & -> & Hold & Hx). cbv zeta.
      set (n0 := mkNat i (addr_map n) (port_map n)). assert (Hwf0 : nat_wf n0) by by apply nat_wf_index.
      eexists _, _. split; [reflexivity|].
      split_and!; [by eapply wf_pool|apply nat_wf_insert; [by apply nat_wf_drop|by eapply (wf_pool n)| |]| | |by right|].
      * rewrite drop_port_lookup. by case_decide.
      * rewrite (drop_port_src n0 x.1 x.2) by done. rewrite lookup_delete_None. right. exact Esrc.
      * rewrite session_insert. by case_decide.
      * intros q Hq. rewrite session_insert, session_drop. by repeat case_decide.
      * eexists. cbn [do_insert port_map]. by rewrite lookup_insert_eq.
Qed.

Lemma nat_wf_back n now p : nat_wf n -> nat_wf (lookup_back n now p).2.
Proof. intros. unfold lookup_back. destruct (port_map n !! p); [by apply nat_wf_touch|done]. Qed.

Lemma drop_ports_wf ps n : nat_wf n -> nat_wf (fold_left drop_port ps n).
Proof. revert n. induction ps as [|p ps IH]; intros n Hn; [done|]. by apply IH, nat_wf_drop. Qed.

Lemma drop_ports_lookup ps n q : port_map (fold_left drop_port ps n) !! q = if decide (q ∈ ps) then None else port_map n !! q.
Proof.
  revert n. induction ps as [|p ps IH]; intros n; cbn [fold_left].
  - case_decide; [by apply not_elem_of_nil in H|done].
  - rewrite IH, drop_port_lookup. repeat case_decide; set_solver.
Qed.

Lemma nat_call_wf n n' : nat_wf n -> nat_call n n' -> nat_wf n'.
Proof.
  intros Hwf Hc. destruct Hc as [n iter now src dst p n' Hi E|n now p|n now timeout].
  - destruct (lookup_or_insert_spec n iter now src dst Hwf Hi) as (p' & n1 & E1 & _ & Hw & _). rewrite E1 in E. by injection E as _ <-.
  - by apply nat_wf_back.
  - by apply drop_ports_wf.
Qed.

Lemma nat_reachable_wf n : rtc nat_call TcpNat_new n -> nat_wf n.
Proof.
  intros H. remember TcpNat_new as n0 eqn:E. assert (nat_wf n0) as Hwf by (subst; apply nat_wf_new). clear E.
  induction H; [done|]. eauto using nat_call_wf.
Qed.

(** ** Properties *)

(** Port allocation: on every table that calls can produce, a lookup terminates
    and gives the source a port of the pool; a known source keeps its port, a new
    one gets a free port while there is one, and otherwise the port of the session
    that was inactive for longest; no other session changes. *)
Theorem nat_alloc_correct (n : TcpNat) (iter : list (Z * TcpNatEntry)) (now : Z) (src dst : SocketAddr) :
  rtc nat_call TcpNat_new n -> iter ≡ₚ map_to_list (port_map n) ->
  exists p n', lookup_or_insert n iter now src dst = Ret (p, n') /\ in_pool p /\ addr_map n' !! src = Some p /\
    inserted n now src dst p n'.
Proof.
  intros Hn Hi. apply nat_reachable_wf in Hn as Hwf.
  destruct (lookup_or_insert_spec n iter now src dst Hwf Hi) as (p & n' & E & Hp & Hwf' & Hins).
  exists p, n'. split_and!; try done. destruct Hins as [Hs _]. destruct (addr_map n !! src) as [p0|] eqn:Esrc.
  - destruct Hs as [-> Hs]. destruct (wf_fwd n Hwf src p0 Esrc) as (e & He & <-).
    apply (session_wf n' p0 (source e) (destination e) Hwf'). rewrite Hs. unfold session. by rewrite He.
  - destruct Hs as [Hs _]. by eapply session_wf.
Qed.

(** Sessions are stable: on every table that calls can produce, sources and ports
    correspond one to one, and a call never moves a session to another port or
    changes its destination; a session only ends by its source leaving the table. *)
Theorem nat_sessions_stable (n n' : TcpNat) (p : Z) (s d : SocketAddr) :
  rtc nat_call TcpNat_new n -> nat_call n n' -> session n p = Some (s, d) ->
  addr_map n !! s = Some p /\ (forall q d', session n q = Some (s, d') -> q = p) /\
  (session n' p = Some (s, d) \/ addr_map n' !! s = None).
Proof.
  intros Hn Hc Hs. apply nat_reachable_wf in Hn as Hwf. pose proof (session_wf n p s d Hwf Hs) as Hp. split; [done|]. split.
  { intros q d' Hq. apply (session_wf n q s d' Hwf) in Hq. congruence. }
  pose proof (nat_call_wf n n' Hwf Hc) as Hwf'. destruct Hc as [n iter now src dst q n' Hi E|n now q|n now timeout].
  - destruct (lookup_or_insert_spec n iter now src dst Hwf Hi) as (p' & n1 & E1 & _ & _ & [Hins _]). rewrite E1 in E. injection E as -> ->.
    destruct (addr_map n !! src) as [p0|] eqn:Esrc; [left; destruct Hins as [_ ->]; done|].
    destruct Hins as (H1 & H2 & _). destruct (decide (p = q)) as [->|Hne]; [|left; by rewrite H2].
    right. apply eq_None_not_Some. intros [p0 H0]. destruct (wf_fwd n' Hwf' s p0 H0) as (e & He & Hse).
    assert (Hq : session n' p0 = Some (s, destination e)) by (unfold session; by rewrite He, Hse).
    destruct (decide (p0 = q)) as [->|Hne]; [congruence|]. rewrite H2 in Hq by done.
    apply (session_wf n p0 s _ Hwf) in Hq. congruence.
  - left. unfold lookup_back. destruct (port_map n !! q); cbn [snd]; [by rewrite session_touch|done].
  - unfold TcpNat_gc in *. set (ps := map fst _) in *. destruct (decide (p ∈ ps)) as [Hin|Hin].
    + right. apply eq_None_not_Some. intros [p0 H0]. destruct (wf_fwd _ Hwf' s p0 H0) as (e & He & Hse).
      rewrite drop_ports_lookup in He. case_decide; [done|]. apply (wf_back n Hwf) in He. congruence.
    + left. unfold session in *. rewrite drop_ports_lookup. by case_decide.
Qed.

(** The destination of a known source is not compared: while a source's session
    lives, a connection from it to any other destination gets the same port, and the
    listener is told the first destination. *)
Theorem nat_source_keeps_destination (n : TcpNat) (iter : list (Z * TcpNatEntry)) (now : Z) (src dst dst' : SocketAddr) (p : Z) :
  rtc nat_call TcpNat_new n -> session n p = Some (src, dst) ->
  exists n', lookup_or_insert n iter now src dst' = Ret (p, n') /\ (lookup_back n' now p).1 = Some (src, dst).
Proof.
  intros Hn Hs. apply nat_reachable_wf in Hn as Hwf. pose proof (session_wf n p src dst Hwf Hs) as Hp.
  unfold lookup_or_insert. rewrite Hp. eexists. split; [reflexivity|].
  pose proof (session_touch n now p p) as Ht. rewrite Hs in Ht. unfold session in Ht. unfold lookup_back.
  destruct (port_map (touch n now p) !! p) as [e|]; [|done]. exact Ht.
Qed.

Definition sample_src : SocketAddr := {| ip := V4 0xC0A80002; sock_port := 5555 |}.
Definition sample_dst : SocketAddr := {| ip := V4 0x08080808; sock_port := 443 |}.
Definition sample_dst' : SocketAddr := {| ip := V4 0x01010101; sock_port := 443 |}.
Definition sample_nat : TcpNat := do_insert (mkNat 10001 ∅ ∅) 5 10000 sample_src sample_dst.

Lemma sample_nat_reachable : rtc nat_call TcpNat_new sample_nat.
Proof. apply rtc_once, (call_insert _ [] 5 sample_src sample_dst 10000); [done|vm_compute; reflexivity]. Qed.

Lemma nat_alloc_correct_witness :
  exists p n', lookup_or_insert sample_nat (map_to_list (port_map sample_nat)) 7 sample_dst' sample_dst = Ret (p, n') /\ in_pool p /\
    addr_map n' !! sample_dst' = Some p /\ inserted sample_nat 7 sample_dst' sample_dst p n'.
Proof. apply nat_alloc_correct; [exact sample_nat_reachable|reflexivity]. Defined.

Lemma nat_sessions_stable_witness :
  addr_map sample_nat !! sample_src = Some 10000 /\
  (session (TcpNat_gc sample_nat 100 300) 10000 = Some (sample_src, sample_dst) \/
   addr_map (TcpNat_gc sample_nat 100 300) !! sample_src = None).
Proof.
  destruct (nat_sessions_stable sample_nat (TcpNat_gc sample_nat 100 300) 10000 sample_src sample_dst) as (H1 & _ & H2).
  - exact sample_nat_reachable.
  - apply call_gc.
  - reflexivity.
  - split; [exact H1|exact H2].
Defined.

Lemma nat_source_keeps_destination_witness :
  exists n', lookup_or_insert sample_nat [] 7 sample_src sample_dst' = Ret (10000, n') /\
    (lookup_back n' 7 10000).1 = Some (sample_src, sample_dst).
Proof. apply nat_source_keeps_destination; [exact sample_nat_reachable|reflexivity]. Defined.
