(* ===== verification/TunPacket.v ===== *)
(** * TunPacket: the packet processing of [src/inbound/tun.rs].

    Checksums, the rewriting of TCP packets to and from the local listener, ICMP
    echo, UDP parsing and the building of UDP replies.  A handler takes the state
    (the NAT table and the UDP sessions), the clock and a packet, and returns the
    new state with what it wrote to the device and sent to the dispatcher.  In the
    release profile integer addition wraps. *)

From S2P Require Import Prelude RustStr Inbound TunNat.

Local Open Scope reflex_scope.

Definition IPPROTO_TCP : Z := 6.
Definition IPPROTO_UDP : Z := 17.
Definition IPPROTO_ICMP : Z := 1.
Definition IPPROTO_ICMPV6 : Z := 58.

(** ** Checksums *)

(** The loop that adds the 16-bit words of the data to a [u32]. *)
Fixpoint sum_words (sum : Z) (data : bytes) : Z :=
  match data with
  | a :: b :: data => sum_words (wrap 32 (sum + Z.lor (Z.shiftl a 8) b)) data
  | [a] => wrap 32 (sum + Z.shiftl a 8)
  | [] => sum
  end.

(** [while sum >> 16 != 0]; three rounds are enough for a [u32]. *)
Fixpoint fold_carry (fuel : nat) (sum : Z) : run Z :=
  if wshr sum 16 =? 0 then Ret sum
  else match fuel with
       | O => Stuck
       | S fuel => fold_carry fuel (wrap 32 (Z.land sum 0xffff + wshr sum 16))
       end.

Definition finish_checksum (sum : Z) : run Z :=
  s ← fold_carry 3 sum; Ret (wnot 16 (as_u16 s)).

Definition internet_checksum (data : bytes) : run Z := finish_checksum (sum_words 0 data).

Definition pseudo_v4 (src dst : bytes) (proto len : Z) : bytes :=
  src ++ dst ++ [0; proto; as_u8 (wshr len 8); as_u8 (Z.land len 0xff)].

Definition checksum_with_pseudo_v4 (src dst : bytes) (proto : Z) (data : bytes) : run Z :=
  finish_checksum (sum_words (sum_words 0 (pseudo_v4 src dst proto (as_u16 (len data)))) data).

Definition checksum_with_pseudo_v6 (src dst : bytes) (proto : Z) (data : bytes) : run Z :=
  let n := as_u32 (len data) in
  let sum := sum_words (sum_words 0 src) dst in
  let sum := wrap 32 (sum + Z.land (wshr n 16) 0xffff) in
  let sum := wrap 32 (sum + Z.land n 0xffff) in
  let sum := wrap 32 (sum + proto) in
  finish_checksum (sum_words sum data).

Definition udp_checksum_v4 (src dst udp : bytes) : run Z := checksum_with_pseudo_v4 src dst IPPROTO_UDP udp.
Definition udp_checksum_v6 (src dst udp : bytes) : run Z := checksum_with_pseudo_v6 src dst IPPROTO_UDP udp.

(** [pkt[i] = a; pkt[i + 1] = b] *)
Definition store2 (pkt : bytes) (i a b : Z) : run bytes := pkt ← store pkt i a; store pkt (i + 1) b.

(** [pkt[i] = (cksum >> 8) as u8; pkt[i + 1] = (cksum & 0xff) as u8] *)
Definition store_checksum (pkt : bytes) (i cksum : Z) : run bytes :=
  store2 pkt i (as_u8 (wshr cksum 8)) (as_u8 (Z.land cksum 0xff)).

Definition recompute_ipv4_checksum (pkt : bytes) : run bytes :=
  if len pkt <? 20 then Ret pkt
  else
    pkt ← store2 pkt 10 0 0;
    header ← slice pkt 0 20;
    cksum ← internet_checksum header;
    store_checksum pkt 10 cksum.

Definition recompute_tcp_checksum_v4 (pkt : bytes) (ihl : Z) : run bytes :=
  if len pkt <? ihl + 18 then Ret pkt
  else
    src_ip ← slice pkt 12 16;
    dst_ip ← slice pkt 16 20;
    pkt ← store2 pkt (ihl + 16) 0 0;
    tcp ← slice pkt ihl (len pkt);
    cksum ← checksum_with_pseudo_v4 src_ip dst_ip IPPROTO_TCP tcp;
    store_checksum pkt (ihl + 16) cksum.

(** The IPv6 variants, for TCP (offset 16 of the segment) and ICMPv6 (offset 2). *)
Definition recompute_checksum_v6 (pkt : bytes) (proto off min : Z) : run bytes :=
  if len pkt <? 40 + min then Ret pkt
  else
    src_ip ← slice pkt 8 24;
    dst_ip ← slice pkt 24 40;
    pkt ← store2 pkt (40 + off) 0 0;
    segment ← slice pkt 40 (len pkt);
    cksum ← checksum_with_pseudo_v6 src_ip dst_ip proto segment;
    store_checksum pkt (40 + off) cksum.

Definition recompute_tcp_checksum_v6 (pkt : bytes) : run bytes := recompute_checksum_v6 pkt IPPROTO_TCP 16 18.
Definition recompute_icmpv6_checksum (pkt : bytes) : run bytes := recompute_checksum_v6 pkt IPPROTO_ICMPV6 2 8.

(** ** UDP *)

(** [u16::from_be_bytes([l[i], l[i + 1]])] *)
Definition read_u16 (l : bytes) (i : Z) : run Z :=
  a ← idx l i; b ← idx l (i + 1); Ret (from_be_bytes [a; b]).

Definition parse_udp (udp : bytes) (src_ip dst_ip : IpAddr) : run (option (SocketAddr * SocketAddr * bytes)) :=
  if len udp <? 8 then Ret None
  else
    src_port ← read_u16 udp 0;
    dst_port ← read_u16 udp 2;
    length ← read_u16 udp 4;
    let payload_len := Z.min (Z.max 0 (length - 8)) (Z.max 0 (len udp - 8)) in
    data ← slice udp 8 (8 + payload_len);
    Ret (Some ({| ip := src_ip; sock_port := src_port |}, {| ip := dst_ip; sock_port := dst_port |}, data)).

Definition parse_udp_v4 (udp : bytes) (src_ip dst_ip : Z) := parse_udp udp (V4 src_ip) (V4 dst_ip).
Definition parse_udp_v6 (udp : bytes) (src_ip dst_ip : Z) := parse_udp udp (V6 src_ip) (V6 dst_ip).

Definition ipv4_octets (a : Z) : bytes := to_be_bytes 4 a.
Definition ipv6_octets (a : Z) : bytes := to_be_bytes 16 a.

Definition build_udp_reply_v4 (src sport dst dport : Z) (payload : bytes) : run (option bytes) :=
  let udp_len := as_u16 (8 + len payload) in
  let total_len := as_u16 (20 + udp_len) in
  let pkt := [0x45; 0; as_u8 (wshr total_len 8); as_u8 (Z.land total_len 0xff); 0; 0; 0x40; 0; 64; IPPROTO_UDP; 0; 0]
             ++ ipv4_octets src ++ ipv4_octets dst in
  header ← slice pkt 0 20;
  cksum ← internet_checksum header;
  pkt ← store_checksum pkt 10 cksum;
  let udp_start := len pkt in
  let pkt := pkt ++ to_be_bytes 2 sport ++ to_be_bytes 2 dport ++ to_be_bytes 2 udp_len ++ [0; 0] ++ payload in
  udp ← slice pkt udp_start (len pkt);
  cksum ← udp_checksum_v4 (ipv4_octets src) (ipv4_octets dst) udp;
  pkt ← store_checksum pkt (udp_start + 6) cksum;
  Ret (Some pkt).

Definition build_udp_reply_v6 (src sport dst dport : Z) (payload : bytes) : run (option bytes) :=
  let udp_len := as_u16 (8 + len payload) in
  let pkt := [0x60; 0; 0; 0] ++ to_be_bytes 2 udp_len ++ [IPPROTO_UDP; 64] ++ ipv6_octets src ++ ipv6_octets dst in
  let udp_start := len pkt in
  let pkt := pkt ++ to_be_bytes 2 sport ++ to_be_bytes 2 dport ++ to_be_bytes 2 udp_len ++ [0; 0] ++ payload in
  udp ← slice pkt udp_start (len pkt);
  cksum ← udp_checksum_v6 (ipv6_octets src) (ipv6_octets dst) udp;
  pkt ← store_checksum pkt (udp_start + 6) cksum;
  Ret (Some pkt).

Definition build_udp_reply_packet (src dst : SocketAddr) (payload : bytes) : run (option bytes) :=
  match ip src, ip dst with
  | V4 s, V4 d => build_udp_reply_v4 s (sock_port src) d (sock_port dst) payload
  | V6 s, V6 d => build_udp_reply_v6 s (sock_port src) d (sock_port dst) payload
  | _, _ => Ret None
  end.

(** ** The state *)

(** A UDP session; [ue_src] is the address its reply task captured. *)
Record UdpEntry : Type := mkUdpEntry { ue_src : SocketAddr; ue_last_seen : Z }.

Record tun_state : Type := mkTun {
  tcp_nat : TcpNat;
  udp_sessions : gmap (SocketAddr * SocketAddr) UdpEntry
}.

Record tun_config : Type := mkTunCfg {
  inet4_addr : option Z;
  inet4_next : option Z;
  inet6_addr : option Z;
  inet6_next : option Z;
  tcp_port_v4 : Z;
  tcp_port_v6 : Z;
  tun_tag : str
}.

(** What leaves a handler: a packet written to the device, or a UDP packet for the
    dispatcher with the address its session's reply task captured. *)
Inductive tun_event : Type :=
  | Written (pkt : bytes)
  | Forward (p : InboundUdpPacket) (reply_src : SocketAddr).

Definition with_nat (st : tun_state) (n : TcpNat) : tun_state := mkTun n (udp_sessions st).

(** The clock and the table's iteration order, as one packet sees them. *)
Record moment : Type := mkMoment { m_now : Z; m_iter : list (Z * TcpNatEntry) }.

(** ** TCP *)

Definition is_broadcast (a : Z) : bool := a =? 0xFFFFFFFF.
Definition is_multicast_v4 (a : Z) : bool := (224 <=? wshr a 24) && (wshr a 24 <=? 239).
Definition is_multicast_v6 (a : Z) : bool := wshr a 120 =? 0xFF.
Definition is_unspecified (a : Z) : bool := a =? 0.

(** The rewriting of addresses and ports, with the checksums. *)
Definition rewrite_v4 (raw : bytes) (ihl src sport dst dport : Z) : run bytes :=
  pkt ← copy_at raw 12 (ipv4_octets src);
  pkt ← copy_at pkt 16 (ipv4_octets dst);
  pkt ← copy_at pkt ihl (to_be_bytes 2 sport);
  pkt ← copy_at pkt (ihl + 2) (to_be_bytes 2 dport);
  pkt ← recompute_tcp_checksum_v4 pkt ihl;
  recompute_ipv4_checksum pkt.

Definition rewrite_v6 (raw : bytes) (src sport dst dport : Z) : run bytes :=
  pkt ← copy_at raw 8 (ipv6_octets src);
  pkt ← copy_at pkt 24 (ipv6_octets dst);
  pkt ← copy_at pkt 40 (to_be_bytes 2 sport);
  pkt ← copy_at pkt 42 (to_be_bytes 2 dport);
  recompute_tcp_checksum_v6 pkt.

Definition handle_tcp_v4 (c : tun_config) (st : tun_state) (m : moment) (raw tcp_payload : bytes) (src_ip dst_ip : Z)
    : run (tun_state * list tun_event) :=
  match inet4_addr c, inet4_next c with
  | Some addr, Some next =>
      if len tcp_payload <? 20 then Ret (st, [])
      else
        src_port ← read_u16 tcp_payload 0;
        dst_port ← read_u16 tcp_payload 2;
        b0 ← idx raw 0;
        let ihl := Z.land b0 0x0f * 4 in
        if (src_ip =? addr) && (src_port =? tcp_port_v4 c) then
          let '(result, n) := lookup_back (tcp_nat st) (m_now m) dst_port in
          let st := with_nat st n in
          match result with
          | Some (orig_src, orig_dst) =>
              match ip orig_dst, ip orig_src with
              | V4 new_src, V4 new_dst =>
                  pkt ← rewrite_v4 raw ihl new_src (sock_port orig_dst) new_dst (sock_port orig_src);
                  Ret (st, [Written pkt])
              | _, _ => Ret (st, [])
              end
          | None => Ret (st, [])
          end
        else if is_broadcast dst_ip || is_multicast_v4 dst_ip || is_unspecified dst_ip then Ret (st, [])
        else
          let src := {| ip := V4 src_ip; sock_port := src_port |} in
          let dst := {| ip := V4 dst_ip; sock_port := dst_port |} in
          r ← lookup_or_insert (tcp_nat st) (m_iter m) (m_now m) src dst;
          pkt ← rewrite_v4 raw ihl next r.1 addr (tcp_port_v4 c);
          Ret (with_nat st r.2, [Written pkt])
  | _, _ => Ret (st, [])
  end.

Definition handle_tcp_v6 (c : tun_config) (st : tun_state) (m : moment) (raw tcp_payload : bytes) (src_ip dst_ip : Z)
    : run (tun_state * list tun_event) :=
  match inet6_addr c, inet6_next c with
  | Some addr, Some next =>
      if len tcp_payload <? 20 then Ret (st, [])
      else
        src_port ← read_u16 tcp_payload 0;
        dst_port ← read_u16 tcp_payload 2;
        if (src_ip =? addr) && (src_port =? tcp_port_v6 c) then
          let '(result, n) := lookup_back (tcp_nat st) (m_now m) dst_port in
          let st := with_nat st n in
          match result with
          | Some (orig_src, orig_dst) =>
              match ip orig_dst, ip orig_src with
              | V6 new_src, V6 new_dst =>
                  pkt ← rewrite_v6 raw new_src (sock_port orig_dst) new_dst (sock_port orig_src);
                  Ret (st, [Written pkt])
              | _, _ => Ret (st, [])
              end
          | None => Ret (st, [])
          end
        else if is_multicast_v6 dst_ip || is_unspecified dst_ip then Ret (st, [])
        else
          let src := {| ip := V6 src_ip; sock_port := src_port |} in
          let dst := {| ip := V6 dst_ip; sock_port := dst_port |} in
          r ← lookup_or_insert (tcp_nat st) (m_iter m) (m_now m) src dst;
          pkt ← rewrite_v6 raw next r.1 addr (tcp_port_v6 c);
          Ret (with_nat st r.2, [Written pkt])
  | _, _ => Ret (st, [])
  end.

(** [accept_loop]: the destination of a connection the listener accepted. *)
Definition accept_target (st : tun_state) (now nat_port : Z) : option Target * tun_state :=
  let '(result, n) := lookup_back (tcp_nat st) now nat_port in
  (match result with Some (_, dst) => Some (TSocket dst) | None => None end, with_nat st n).

(** ** ICMP echo *)

Definition handle_icmpv4 (c : tun_config) (raw : bytes) (ihl src_ip dst_ip : Z) : run (list tun_event) :=
  payload ← slice raw ihl (len raw);
  if len payload <? 8 then Ret []
  else
    p0 ← idx payload 0;
    p1 ← (if p0 =? 8 then idx payload 1 else Ret 0);
    if negb (p0 =? 8) || negb (p1 =? 0) then Ret []
    else if match inet4_addr c with Some a => negb (dst_ip =? a) | None => false end then Ret []
    else
      pkt ← copy_at raw 12 (ipv4_octets dst_ip);
      pkt ← copy_at pkt 16 (ipv4_octets src_ip);
      pkt ← store pkt ihl 0;
      pkt ← store2 pkt (ihl + 2) 0 0;
      icmp ← slice pkt ihl (len pkt);
      cksum ← internet_checksum icmp;
      pkt ← store_checksum pkt (ihl + 2) cksum;
      pkt ← recompute_ipv4_checksum pkt;
      Ret [Written pkt].

Definition handle_icmpv6 (c : tun_config) (raw : bytes) (src_ip dst_ip : Z) : run (list tun_event) :=
  if len raw <? 48 then Ret []
  else
    t ← idx raw 40;
    if negb (t =? 128) then Ret []
    else if match inet6_addr c with Some a => negb (dst_ip =? a) | None => false end then Ret []
    else
      pkt ← copy_at raw 8 (ipv6_octets dst_ip);
      pkt ← copy_at pkt 24 (ipv6_octets src_ip);
      pkt ← store pkt 40 129;
      pkt ← recompute_icmpv6_checksum pkt;
      Ret [Written pkt].

(** ** Dispatch *)

Definition tun_dispatch_udp (c : tun_config) (st : tun_state) (now : Z) (src dst : SocketAddr) (data : bytes)
    : tun_state * list tun_event :=
  let captured := match udp_sessions st !! (src, dst) with Some e => ue_src e | None => src end in
  (mkTun (tcp_nat st) (<[(src, dst) := mkUdpEntry captured now]> (udp_sessions st)),
   [Forward (mkUdp data src (TSocket dst) (tun_tag c) None None) captured]).

(** The reply task of a session: it gets the payload, the client's address and the
    address to answer from, in the order the outbounds send them. *)
Definition udp_reply_task (captured : SocketAddr) (payload : bytes) (orig_src spoofed_src : SocketAddr) : run (list tun_event) :=
  pkt ← build_udp_reply_packet orig_src captured payload;
  Ret (match pkt with Some p => [Written p] | None => [] end).

Definition process_ipv4 (c : tun_config) (st : tun_state) (m : moment) (raw : bytes) : run (tun_state * list tun_event) :=
  if len raw <? 20 then Ret (st, [])
  else
    b0 ← idx raw 0;
    let ihl := Z.land b0 0x0f * 4 in
    if (len raw <? ihl) || (ihl <? 20) then Ret (st, [])
    else
      flags_frag ← read_u16 raw 6;
      let more_fragments := negb (Z.land flags_frag 0x2000 =? 0) in
      let frag_offset := Z.land flags_frag 0x1fff in
      src ← slice raw 12 16;
      dst ← slice raw 16 20;
      let src_ip := from_be_bytes src in
      let dst_ip := from_be_bytes dst in
      payload ← slice raw ihl (len raw);
      proto ← idx raw 9;
      if proto =? IPPROTO_TCP then
        if more_fragments || negb (frag_offset =? 0) then Ret (st, [])
        else handle_tcp_v4 c st m raw payload src_ip dst_ip
      else if proto =? IPPROTO_UDP then
        if more_fragments || negb (frag_offset =? 0) then Ret (st, [])
        else
          r ← parse_udp_v4 payload src_ip dst_ip;
          Ret (match r with
               | Some (s, d, data) => tun_dispatch_udp c st (m_now m) s d data
               | None => (st, [])
               end)
      else if proto =? IPPROTO_ICMP then
        evs ← handle_icmpv4 c raw ihl src_ip dst_ip; Ret (st, evs)
      else Ret (st, []).

Definition process_ipv6 (c : tun_config) (st : tun_state) (m : moment) (raw : bytes) : run (tun_state * list tun_event) :=
  if len raw <? 40 then Ret (st, [])
  else
    src ← slice raw 8 24;
    dst ← slice raw 24 40;
    let src_ip := from_be_bytes src in
    let dst_ip := from_be_bytes dst in
    payload ← slice raw 40 (len raw);
    next ← idx raw 6;
    if next =? IPPROTO_TCP then handle_tcp_v6 c st m raw payload src_ip dst_ip
    else if next =? IPPROTO_UDP then
      r ← parse_udp_v6 payload src_ip dst_ip;
      Ret (match r with
           | Some (s, d, data) => tun_dispatch_udp c st (m_now m) s d data
           | None => (st, [])
           end)
    else if next =? IPPROTO_ICMPV6 then
      evs ← handle_icmpv6 c raw src_ip dst_ip; Ret (st, evs)
    else Ret (st, []).

(** The body of the read loop. *)
Definition process_packet (c : tun_config) (st : tun_state) (m : moment) (pkt : bytes) : run (tun_state * list tun_event) :=
  if len pkt =? 0 then Ret (st, [])
  else
    b0 ← idx pkt 0;
    if wshr b0 4 =? 4 then process_ipv4 c st m pkt
    else if wshr b0 4 =? 6 then process_ipv6 c st m pkt
    else Ret (st, []).

(** The timer's collection of idle sessions. *)
Definition tun_gc (st : tun_state) (now timeout : Z) : tun_state :=
  mkTun (TcpNat_gc (tcp_nat st) now timeout)
    (filter (fun x => Z.max 0 (now - ue_last_seen x.2) < timeout) (udp_sessions st)).

(** ** Addresses of the device *)

Definition prefix_len_to_mask_v4 (l : Z) : Z :=
  if l =? 0 then 0 else wnot 32 (wshl 32 1 (32 - Z.min l 32) - 1).

Definition parse_addr_prefix (s : str) : option (IpAddr * Z) :=
  match split_once 47 s with
  | None => None
  | Some (ip_str, len_str) =>
      match IpAddr_from_str ip_str, parse_uint u8_max len_str with
      | Some a, Some prefix_len =>
          if (match a with V4 _ => 32 | V6 _ => 128 end) <? prefix_len then None else Some (a, prefix_len)
      | _, _ => None
      end
  end.

(** The first address of each family, and the one after it. *)
Definition take_address (acc : option Z * option Z) (s : str) : option Z * option Z :=
  match parse_addr_prefix s, acc with
  | Some (V4 a, _), (None, v6) => (Some a, v6)
  | Some (V6 a, _), (v4, None) => (v4, Some a)
  | _, acc => acc
  end.

Definition tun_addresses (address : list str) (tag : str) (port_v4 port_v6 : Z) : option tun_config :=
  let '(v4, v6) := fold_left take_address address (None, None) in
  match v4, v6 with
  | None, None => None
  | _, _ =>
      Some (mkTunCfg v4 (option_map (fun a => wrap 32 (a + 1)) v4) v6 (option_map (fun a => wrap 128 (a + 1)) v6)
              port_v4 port_v6 tag)
  end.

(** ** Checksums verify *)

(** The one's complement sum as a receiver computes it: 16-bit words, the last byte
    padded; a header verifies when its sum is a positive multiple of [2^16 - 1]. *)
Fixpoint word_sum (data : bytes) : Z :=
  match data with
  | a :: b :: data => 256 * a + b + word_sum data
  | [a] => 256 * a
  | [] => 0
  end.

Definition verifies (sum : Z) : Prop := 0 < sum /\ sum mod 65535 = 0.

Lemma pairs_ind {A} (P : list A -> Prop) :
  P [] -> (forall a, P [a]) -> (forall a b l, P l -> P (a :: b :: l)) -> forall l, P l.
Proof. intros H0 H1 H2. fix IH 1. intros [|a [|b l]]; [exact H0|apply H1|apply H2, IH]. Qed.

Lemma lor_byte a b : is_byte a -> is_byte b -> Z.lor (Z.shiftl a 8) b = 256 * a + b.
Proof.
  unfold is_byte. intros Ha Hb. rewrite Z.shiftl_mul_pow2 by lia. change (2 ^ 8) with 256.
  rewrite <-Z.add_nocarry_lor; [lia|]. apply Z.bits_inj'. intros n Hn. rewrite Z.land_spec, Z.bits_0.
  destruct (Z.lt_ge_cases n 8).
  - change 256 with (2 ^ 8). by rewrite Z.mul_pow2_bits_low.
  - rewrite (Z.bits_above_log2 b); [by rewrite andb_false_r|lia|]. destruct (Z.eq_dec b 0) as [->|]; [cbn; lia|].
    apply Z.log2_lt_pow2; [lia|]. apply Z.lt_le_trans with (2 ^ 8); [lia|]. apply Z.pow_le_mono_r; lia.
Qed.

Lemma word_sum_bound l : bytes_ok l -> 0 <= word_sum l <= 32768 * (len l + 1).
Proof.
  revert l. refine (pairs_ind _ _ _ _).
  - intros _. cbn [word_sum]. change (len (@nil Z)) with 0. lia.
  - intros a H. apply Forall_cons in H as [Ha _]. unfold is_byte in Ha. cbn [word_sum]. change (len [a]) with 1. lia.
  - intros a b l IH H. apply Forall_cons in H as [Ha H]. apply Forall_cons in H as [Hb H]. unfold is_byte in *.
    cbn [word_sum]. rewrite !len_cons. specialize (IH H). lia.
Qed.

Lemma wrap32_id z : 0 <= z < 2 ^ 32 -> wrap 32 z = z.
Proof. intros. unfold wrap. by rewrite Z.mod_small. Qed.

Lemma sum_words_spec l : bytes_ok l -> forall s, 0 <= s -> s + word_sum l < 2 ^ 32 -> sum_words s l = s + word_sum l.
Proof.
  revert l. refine (pairs_ind _ _ _ _).
  - intros _ s _ _. cbn. lia.
  - intros a H s Hs Hb. apply Forall_cons in H as [Ha _]. unfold is_byte in Ha. cbn [word_sum sum_words] in *.
    rewrite Z.shiftl_mul_pow2 by lia. rewrite wrap32_id; lia.
  - intros a b l IH H s Hs Hb. apply Forall_cons in H as [Ha H]. apply Forall_cons in H as [Hb' H].
    pose proof (word_sum_bound l H). cbn [word_sum sum_words] in *. rewrite lor_byte by done. unfold is_byte in *.
    rewrite wrap32_id by lia. rewrite IH; [lia|done|lia|lia].
Qed.

Lemma word_sum_app l1 l2 : len l1 mod 2 = 0 -> word_sum (l1 ++ l2) = word_sum l1 + word_sum l2.
Proof.
  revert l1. refine (pairs_ind _ _ _ _); [done| |].
  - intros a H. done.
  - intros a b l IH H. cbn [app word_sum]. rewrite IH; [lia|]. rewrite !len_cons in H.
    replace (1 + (1 + len l)) with (len l + 1 * 2) in H by lia. by rewrite Z.mod_add in H.
Qed.

Lemma fold_carry_spec fuel s : 0 <= s < 2 ^ 32 ->
  (match fuel with O => s < 2 ^ 16 | 1%nat => s <= 2 ^ 17 - 2 | 2%nat => s < 2 ^ 32 | _ => True end) ->
  exists s', fold_carry fuel s = Ret s' /\ 0 <= s' < 2 ^ 16 /\ s' mod 65535 = s mod 65535 /\ s' <= s.
Proof.
  revert s. induction fuel as [|fuel IH]; intros s Hs Hf; cbn [fold_carry];
    unfold wshr in *; rewrite Z.shiftr_div_pow2 by lia; change (2 ^ 16) with 65536 in *.
  - rewrite Z.div_small by lia. exists s. split; [done|]. lia.
  - destruct (Z.eqb_spec (s / 65536) 0) as [E|E].
    + exists s. split; [done|]. Z.div_mod_to_equations. lia.
    + change 65535 with (Z.ones 16) at 1. rewrite Z.land_ones by lia. change (2 ^ 16) with 65536.
      pose proof (Z.div_mod s 65536 ltac:(lia)) as Hdm. pose proof (Z.mod_pos_bound s 65536 ltac:(lia)) as Hm.
      pose proof (Z.div_pos s 65536 ltac:(lia) ltac:(lia)) as Hd.
      assert (s / 65536 < 65536) by (apply Z.div_lt_upper_bound; lia).
      rewrite wrap32_id by lia. destruct (IH (s mod 65536 + s / 65536)) as (s' & -> & H1 & H2 & H3); [lia| |].
      * change (2 ^ 17) with 131072 in *. change (2 ^ 32) with 4294967296 in *.
        destruct fuel as [|[|[|fuel]]]; [|lia|lia|done]. assert (s / 65536 = 1) by lia. lia.
      * exists s'. split; [done|]. split; [done|]. split; [|lia]. rewrite H2. rewrite Hdm at 3.
        replace (65536 * (s / 65536) + s mod 65536) with (s mod 65536 + s / 65536 + s / 65536 * 65535) by lia.
        by rewrite Z.mod_add.
Qed.

Lemma finish_spec s : 0 <= s < 2 ^ 32 ->
  exists c, finish_checksum s = Ret c /\ 0 <= c < 2 ^ 16 /\ verifies (s + c).
Proof.
  intros Hs. unfold finish_checksum. destruct (fold_carry_spec 3 s Hs I) as (s' & -> & Hr & Hm & H0). rewrite bind_Ret.
  eexists. split; [done|]. unfold as_u16, wrap, wnot, verifies. rewrite (Z.mod_small s') by done.
  change (2 ^ 16) with 65536 in *. split; [lia|]. split; [lia|].
  replace (s + (65536 - 1 - s')) with (s - s' + 1 * 65535) by lia. rewrite Z.mod_add by lia.
  by rewrite Zminus_mod, Hm, Z.sub_diag.
Qed.

Lemma word_sum_u16 c : 0 <= c < 2 ^ 16 -> word_sum (to_be_bytes 2 c) = c.
Proof. intros Hc. cbn -[Z.div Z.modulo]. change (2 ^ 16) with 65536 in *. Z.div_mod_to_equations. lia. Qed.

Lemma u16_bytes c : 0 <= c < 2 ^ 16 -> [as_u8 (wshr c 8); as_u8 (Z.land c 0xff)] = to_be_bytes 2 c.
Proof.
  intros Hc. cbn -[Z.div Z.modulo Z.land]. unfold as_u8, wrap, wshr. rewrite Z.shiftr_div_pow2 by lia.
  change 255 with (Z.ones 8). rewrite Z.land_ones by lia. change (2 ^ 8) with 256. by rewrite Z.mod_mod by lia.
Qed.

(** ** Writing into a packet *)

Lemma store_mid {A} (l1 l2 : list A) a x i : i = len l1 -> store (l1 ++ a :: l2) i x = Ret (l1 ++ x :: l2).
Proof.
  intros ->. unfold store. rewrite len_app, len_cons. pose proof (len_nonneg l1). pose proof (len_nonneg l2).
  replace (_ && _) with true by lia. f_equal. unfold len. rewrite Nat2Z.id, insert_app_r_alt by lia.
  by rewrite Nat.sub_diag.
Qed.

Lemma store2_mid l1 l2 a b x y i : i = len l1 -> store2 (l1 ++ a :: b :: l2) i x y = Ret (l1 ++ x :: y :: l2).
Proof.
  intros Hi. unfold store2. rewrite (store_mid l1) by done. rewrite bind_Ret.
  change (l1 ++ x :: b :: l2) with (l1 ++ [x] ++ b :: l2). rewrite app_assoc, (store_mid (l1 ++ [x])).
  - by rewrite <-app_assoc.
  - rewrite len_app, len_cons, len_nil. lia.
Qed.

Lemma store_checksum_mid l1 l2 a b c i : i = len l1 -> 0 <= c < 2 ^ 16 ->
  store_checksum (l1 ++ a :: b :: l2) i c = Ret (l1 ++ to_be_bytes 2 c ++ l2).
Proof. intros Hi Hc. unfold store_checksum. rewrite store2_mid by done. by rewrite <-u16_bytes. Qed.
