(* ===== verification/TunSpec.v ===== *)
(** * TunSpec: what the packet processing of [src/inbound/tun.rs] guarantees.

    No packet makes it panic; TCP connections through the local listener keep their
    end points in both directions with checksums that verify; UDP replies are
    packets that parse back. *)

From S2P Require Import Prelude RustStr Inbound TunNat TunPacket.

Local Open Scope reflex_scope.

(** ** No packet makes a handler panic *)

Lemma sum_words_range l : forall s, 0 <= s < 2 ^ 32 -> 0 <= sum_words s l < 2 ^ 32.
Proof.
  revert l. refine (pairs_ind _ _ _ _).
  - done.
  - intros a s _. cbn [sum_words]. apply Z.mod_pos_bound. lia.
  - intros a b l IH s _. cbn [sum_words]. apply IH, Z.mod_pos_bound. lia.
Qed.

(** A checksum is a [u16]. *)
Definition is_checksum (m : run Z) : Prop := exists c, m = Ret c /\ 0 <= c < 2 ^ 16.

Lemma finish_returns s : 0 <= s < 2 ^ 32 -> is_checksum (finish_checksum s).
Proof. intros Hs. destruct (finish_spec s Hs) as (c & ? & ? & _). by exists c. Qed.

Lemma internet_checksum_returns l : is_checksum (internet_checksum l).
Proof. by apply finish_returns, sum_words_range. Qed.

Lemma checksum_v4_returns src dst p l : is_checksum (checksum_with_pseudo_v4 src dst p l).
Proof. by apply finish_returns, sum_words_range, sum_words_range. Qed.

Lemma checksum_v6_returns src dst p l : is_checksum (checksum_with_pseudo_v6 src dst p l).
Proof. apply finish_returns, sum_words_range, Z.mod_pos_bound. lia. Qed.

(** A packet operation that succeeds and keeps the length. *)
Definition keeps (m : run bytes) (n : Z) : Prop := exists l, m = Ret l /\ len l = n.

Lemma keeps_ret l n : len l = n -> keeps (Ret l) n.
Proof. by exists l. Qed.

Lemma keeps_bind m n f k : keeps m n -> (forall l, len l = n -> keeps (f l) k) -> keeps (m ≫= f) k.
Proof. intros (l & -> & Hl) Hf. by apply Hf. Qed.

Lemma keeps_bind_run {A} (m : run A) f n : returns m -> (forall a, keeps (f a) n) -> keeps (m ≫= f) n.
Proof. intros [a ->] Hf. apply Hf. Qed.

Lemma checksum_bind m f n : is_checksum m -> (forall c, keeps (f c) n) -> keeps (m ≫= f) n.
Proof. intros (c & -> & _) Hf. apply Hf. Qed.

Lemma keeps_copy l i s : 0 <= i -> i + len s <= len l -> keeps (copy_at l i s) (len l).
Proof. intros. destruct (copy_returns l s i) as (l' & ? & ?); [done..|]. by exists l'. Qed.

Lemma len_insert {A} (l : list A) i x : len (<[i := x]> l) = len l.
Proof. unfold len. by rewrite length_insert. Qed.

Lemma keeps_store l i x : 0 <= i < len l -> keeps (store l i x) (len l).
Proof. intros Hi. rewrite store_inrange by done. eexists. split; [done|]. apply len_insert. Qed.

Lemma keeps_store2 l i a b : 0 <= i -> i + 1 < len l -> keeps (store2 l i a b) (len l).
Proof.
  intros H1 H2. unfold store2. eapply keeps_bind; [apply keeps_store; lia|]. intros l' Hl. rewrite <-Hl. apply keeps_store. lia.
Qed.

Lemma recompute_ipv4_keeps l : keeps (recompute_ipv4_checksum l) (len l).
Proof.
  unfold recompute_ipv4_checksum. case_if; reflect_bools; [by apply keeps_ret|].
  eapply keeps_bind; [apply keeps_store2; lia|]. intros l' Hl.
  apply keeps_bind_run; [apply slice_returns; lia|]. intros h. apply checksum_bind; [apply internet_checksum_returns|].
  intros c. rewrite <-Hl. apply keeps_store2; lia.
Qed.

Lemma recompute_tcp_v4_keeps l ihl : 20 <= ihl -> keeps (recompute_tcp_checksum_v4 l ihl) (len l).
Proof.
  intros Hi. unfold recompute_tcp_checksum_v4. case_if; reflect_bools; [by apply keeps_ret|].
  apply keeps_bind_run; [apply slice_returns; lia|]. intros s. apply keeps_bind_run; [apply slice_returns; lia|]. intros d.
  eapply keeps_bind; [apply keeps_store2; lia|]. intros l' Hl.
  apply keeps_bind_run; [apply slice_returns; lia|]. intros h. apply checksum_bind; [apply checksum_v4_returns|].
  intros c. rewrite <-Hl. apply keeps_store2; lia.
Qed.

Lemma recompute_v6_keeps l p off min : 0 <= off -> off + 2 <= min -> keeps (recompute_checksum_v6 l p off min) (len l).
Proof.
  intros Hi Hm. unfold recompute_checksum_v6. case_if; reflect_bools; [by apply keeps_ret|].
  apply keeps_bind_run; [apply slice_returns; lia|]. intros s. apply keeps_bind_run; [apply slice_returns; lia|]. intros d.
  eapply keeps_bind; [apply keeps_store2; lia|]. intros l' Hl.
  apply keeps_bind_run; [apply slice_returns; lia|]. intros h. apply checksum_bind; [apply checksum_v6_returns|].
  intros c. rewrite <-Hl. apply keeps_store2; lia.
Qed.

Lemma rewrite_v4_keeps raw ihl s sp d dp : 20 <= ihl -> ihl + 4 <= len raw -> keeps (rewrite_v4 raw ihl s sp d dp) (len raw).
Proof.
  intros Hi Hl. unfold rewrite_v4, ipv4_octets.
  eapply keeps_bind; [apply keeps_copy; rewrite ?len_to_be_bytes; lia|]. intros l1 E1. rewrite <-E1 in *.
  eapply keeps_bind; [apply keeps_copy; rewrite ?len_to_be_bytes; lia|]. intros l2 E2. rewrite <-E2 in *.
  eapply keeps_bind; [apply keeps_copy; rewrite ?len_to_be_bytes; lia|]. intros l3 E3. rewrite <-E3 in *.
  eapply keeps_bind; [apply keeps_copy; rewrite ?len_to_be_bytes; lia|]. intros l4 E4. rewrite <-E4 in *.
  eapply keeps_bind; [by apply recompute_tcp_v4_keeps|]. intros l5 <-. apply recompute_ipv4_keeps.
Qed.

Lemma rewrite_v6_keeps raw s sp d dp : 44 <= len raw -> keeps (rewrite_v6 raw s sp d dp) (len raw).
Proof.
  intros Hl. unfold rewrite_v6, ipv6_octets.
  eapply keeps_bind; [apply keeps_copy; rewrite ?len_to_be_bytes; lia|]. intros l1 E1. rewrite <-E1 in *.
  eapply keeps_bind; [apply keeps_copy; rewrite ?len_to_be_bytes; lia|]. intros l2 E2. rewrite <-E2 in *.
  eapply keeps_bind; [apply keeps_copy; rewrite ?len_to_be_bytes; lia|]. intros l3 E3. rewrite <-E3 in *.
  eapply keeps_bind; [apply keeps_copy; rewrite ?len_to_be_bytes; lia|]. intros l4 E4. rewrite <-E4 in *.
  apply recompute_v6_keeps; lia.
Qed.

Lemma keeps_returns m n : keeps m n -> returns m.
Proof. intros (l & -> & _). by exists l. Qed.

Lemma read_u16_returns l i : 0 <= i -> i + 1 < len l -> returns (read_u16 l i).
Proof.
  intros H1 H2. unfold read_u16. apply returns_bind; [apply idx_returns; lia|]. intros a _.
  apply returns_bind; [apply idx_returns; lia|]. intros b _. apply returns_ret.
Qed.

Lemma parse_udp_returns udp s d : returns (parse_udp udp s d).
Proof.
  unfold parse_udp. case_if; reflect_bools; [apply returns_ret|].
  do 3 (apply returns_bind; [apply read_u16_returns; lia|]; intros ? _).
  apply returns_bind; [apply slice_returns; lia|]. intros ? _. apply returns_ret.
Qed.

(** A handler ends normally in a state whose table is well formed. *)
Definition fine (r : run (tun_state * list tun_event)) : Prop :=
  exists st evs, r = Ret (st, evs) /\ nat_wf (tcp_nat st).

Lemma fine_ret st evs : nat_wf (tcp_nat st) -> fine (Ret (st, evs)).
Proof. intros H. by exists st, evs. Qed.

Lemma fine_bind {A} (m : run A) f : returns m -> (forall a, m = Ret a -> fine (f a)) -> fine (m ≫= f).
Proof. intros [a ->] Hf. by apply Hf. Qed.

#[local] Hint Resolve fine_ret nat_wf_back : core.

Section Total.
Context (c : tun_config) (st : tun_state) (m : moment).
Hypothesis (Hwf : nat_wf (tcp_nat st)) (Hm : m_iter m ≡ₚ map_to_list (port_map (tcp_nat st))).

Lemma lookup_fine src dst f :
  (forall p n, nat_wf n -> fine (f (p, n))) ->
  fine (lookup_or_insert (tcp_nat st) (m_iter m) (m_now m) src dst ≫= f).
Proof.
  intros Hf. destruct (lookup_or_insert_spec (tcp_nat st) (m_iter m) (m_now m) src dst Hwf Hm) as (p & n & -> & _ & Hn & _).
  by apply Hf.
Qed.

Lemma handle_tcp_v4_fine raw ihl b0 s d : idx raw 0 = Ret b0 -> Z.land b0 0x0f * 4 = ihl -> 20 <= ihl <= len raw ->
  fine (handle_tcp_v4 c st m raw (drop (Z.to_nat ihl) raw) s d).
Proof.
  intros Hb Hi Hl. unfold handle_tcp_v4. destruct (inet4_addr c), (inet4_next c); auto.
  assert (Hp : len (drop (Z.to_nat ihl) raw) = len raw - ihl) by (unfold len in *; rewrite length_drop; lia).
  case_if; reflect_bools; auto.
  apply fine_bind; [apply read_u16_returns; lia|]. intros sp _. apply fine_bind; [apply read_u16_returns; lia|]. intros dp _.
  rewrite Hb, bind_Ret, Hi. case_if.
  - pose proof (nat_wf_back (tcp_nat st) (m_now m) dp Hwf). destruct (lookup_back _ _ _) as [[[os od]|] n]; cbn [snd] in *; [|by apply fine_ret].
    destruct (ip od), (ip os); try by apply fine_ret.
    apply fine_bind; [eapply keeps_returns, rewrite_v4_keeps; lia|]. intros pkt _. by apply fine_ret.
  - case_if; auto. apply lookup_fine. intros p n' Hn. apply fine_bind; [eapply keeps_returns, rewrite_v4_keeps; lia|].
    intros pkt _. by apply fine_ret.
Qed.

Lemma handle_tcp_v6_fine raw s d : 40 <= len raw -> fine (handle_tcp_v6 c st m raw (drop (Z.to_nat 40) raw) s d).
Proof.
  intros Hl. unfold handle_tcp_v6. destruct (inet6_addr c), (inet6_next c); auto.
  assert (Hp : len (drop (Z.to_nat 40) raw) = len raw - 40) by (unfold len in *; rewrite length_drop; lia).
  case_if; reflect_bools; auto.
  apply fine_bind; [apply read_u16_returns; lia|]. intros sp _. apply fine_bind; [apply read_u16_returns; lia|]. intros dp _. case_if.
  - pose proof (nat_wf_back (tcp_nat st) (m_now m) dp Hwf). destruct (lookup_back _ _ _) as [[[os od]|] n]; cbn [snd] in *; [|by apply fine_ret].
    destruct (ip od), (ip os); try by apply fine_ret.
    apply fine_bind; [eapply keeps_returns, rewrite_v6_keeps; lia|]. intros pkt _. by apply fine_ret.
  - case_if; auto. apply lookup_fine. intros p n' Hn. apply fine_bind; [eapply keeps_returns, rewrite_v6_keeps; lia|].
    intros pkt _. by apply fine_ret.
Qed.

Lemma handle_icmpv4_returns raw ihl s d : 20 <= ihl <= len raw -> returns (handle_icmpv4 c raw ihl s d).
Proof.
  intros Hl. unfold handle_icmpv4, ipv4_octets. apply returns_bind; [apply slice_returns; lia|]. intros p Hp.
  apply slice_Ret_inv in Hp as (_ & _ & ->). rewrite len_take_drop by lia. case_if; reflect_bools; [apply returns_ret|].
  assert (Hpl : len (take (Z.to_nat (len raw - ihl)) (drop (Z.to_nat ihl) raw)) = len raw - ihl) by (apply len_take_drop; lia).
  apply returns_bind; [apply idx_returns; lia|]. intros p0 _.
  apply returns_bind; [case_if; [apply idx_returns; lia|apply returns_ret]|]. intros p1 _.
  destruct (negb (p0 =? 8) || negb (p1 =? 0)); [apply returns_ret|]. destruct (match inet4_addr c with Some _ => _ | None => _ end); [apply returns_ret|].
  destruct (keeps_copy raw 12 (to_be_bytes 4 d)) as (l1 & -> & H1); [lia|rewrite len_to_be_bytes; lia|]. rewrite bind_Ret.
  destruct (keeps_copy l1 16 (to_be_bytes 4 s)) as (l2 & -> & H2); [lia|rewrite len_to_be_bytes; lia|]. rewrite bind_Ret.
  destruct (keeps_store l2 ihl 0) as (l3 & -> & H3); [lia|]. rewrite bind_Ret.
  destruct (keeps_store2 l3 (ihl + 2) 0 0) as (l4 & -> & H4); [lia|lia|]. rewrite bind_Ret.
  apply returns_bind; [apply slice_returns; lia|]. intros i _. destruct (internet_checksum_returns i) as (ck & -> & _). rewrite bind_Ret.
  destruct (keeps_store2 l4 (ihl + 2) (as_u8 (wshr ck 8)) (as_u8 (Z.land ck 0xff))) as (l5 & E & H5); [lia|lia|].
  unfold store_checksum. rewrite E, bind_Ret. destruct (recompute_ipv4_keeps l5) as (l6 & -> & _). apply returns_ret.
Qed.

Lemma handle_icmpv6_returns raw s d : returns (handle_icmpv6 c raw s d).
Proof.
  unfold handle_icmpv6, ipv6_octets. case_if; reflect_bools; [apply returns_ret|].
  apply returns_bind; [apply idx_returns; lia|]. intros t _. destruct (negb (t =? 128)); [apply returns_ret|].
  destruct (match inet6_addr c with Some _ => _ | None => _ end); [apply returns_ret|].
  destruct (keeps_copy raw 8 (to_be_bytes 16 d)) as (l1 & -> & H1); [lia|rewrite len_to_be_bytes; lia|]. rewrite bind_Ret.
  destruct (keeps_copy l1 24 (to_be_bytes 16 s)) as (l2 & -> & H2); [lia|rewrite len_to_be_bytes; lia|]. rewrite bind_Ret.
  destruct (keeps_store l2 40 129) as (l3 & -> & H3); [lia|]. rewrite bind_Ret.
  destruct (recompute_v6_keeps l3 IPPROTO_ICMPV6 2 8) as (l4 & E & _); [lia|lia|].
  unfold recompute_icmpv6_checksum. rewrite E. apply returns_ret.
Qed.

Lemma udp_fine (r : option (SocketAddr * SocketAddr * bytes)) :
  fine (Ret (match r with
             | Some (s, d, data) => tun_dispatch_udp c st (m_now m) s d data
             | None => (st, [])
             end)).
Proof. destruct r as [[[s d] data]|]; [unfold tun_dispatch_udp|]; by apply fine_ret. Qed.

Lemma process_ipv4_fine raw : fine (process_ipv4 c st m raw).
Proof.
  unfold process_ipv4. case_if; reflect_bools; auto. apply fine_bind; [apply idx_returns; lia|]. intros b0 Hb. cbv zeta.
  set (ihl := Z.land b0 0x0f * 4). destruct ((len raw <? ihl) || (ihl <? 20)) eqn:E; reflect_bools; auto.
  apply fine_bind; [apply read_u16_returns; lia|]. intros ff _.
  apply fine_bind; [apply slice_returns; lia|]. intros s _. apply fine_bind; [apply slice_returns; lia|]. intros d _.
  apply fine_bind; [apply slice_returns; lia|]. intros p Hp. apply slice_Ret_inv in Hp as (_ & _ & ->).
  rewrite take_ge by (rewrite length_drop; unfold len; lia).
  apply fine_bind; [apply idx_returns; lia|]. intros proto _.
  destruct (proto =? IPPROTO_TCP); [case_if; auto; by eapply handle_tcp_v4_fine|].
  destruct (proto =? IPPROTO_UDP).
  { case_if; auto. apply fine_bind; [apply parse_udp_returns|]. intros r _. apply udp_fine. }
  destruct (proto =? IPPROTO_ICMP); auto. apply fine_bind; [by apply handle_icmpv4_returns|]. auto.
Qed.

Lemma process_ipv6_fine raw : fine (process_ipv6 c st m raw).
Proof.
  unfold process_ipv6. case_if; reflect_bools; auto.
  apply fine_bind; [apply slice_returns; lia|]. intros s _. apply fine_bind; [apply slice_returns; lia|]. intros d _.
  apply fine_bind; [apply slice_returns; lia|]. intros p Hp. apply slice_Ret_inv in Hp as (_ & _ & ->).
  rewrite take_ge by (rewrite length_drop; unfold len; lia).
  apply fine_bind; [apply idx_returns; lia|]. intros proto _.
  destruct (proto =? IPPROTO_TCP); [by apply handle_tcp_v6_fine|]. destruct (proto =? IPPROTO_UDP).
  { apply fine_bind; [apply parse_udp_returns|]. intros r _. apply udp_fine. }
  destruct (proto =? IPPROTO_ICMPV6); auto. apply fine_bind; [apply handle_icmpv6_returns|]. auto.
Qed.

Lemma process_packet_fine pkt : fine (process_packet c st m pkt).
Proof.
  unfold process_packet. case_if; reflect_bools; auto. pose proof (len_nonneg pkt).
  apply fine_bind; [apply idx_returns; lia|]. intros b0 _. case_if; [apply process_ipv4_fine|]. case_if; [apply process_ipv6_fine|auto].
Qed.
End Total.

(** ** Rewritten packets *)

(** An IPv4 packet with a TCP segment: the ten bytes before the header checksum, the
    checksum, the addresses, the options, the ports, the twelve bytes before the
    segment's checksum, the checksum and the rest. *)
Definition tcp_segment (sport dport : Z) (t : bytes) (tc : Z) (rest : bytes) : bytes :=
  to_be_bytes 2 sport ++ to_be_bytes 2 dport ++ t ++ to_be_bytes 2 tc ++ rest.

Definition ipv4_header (h : bytes) (ic src dst : Z) : bytes :=
  h ++ to_be_bytes 2 ic ++ ipv4_octets src ++ ipv4_octets dst.

Definition ipv4_tcp (h : bytes) (ic src dst : Z) (opts : bytes) (sport dport : Z) (t : bytes) (tc : Z) (rest : bytes) : bytes :=
  ipv4_header h ic src dst ++ opts ++ tcp_segment sport dport t tc rest.

(** The sum a receiver computes over the segment with its pseudo header. *)
Definition tcp_sum (src dst : Z) (seg : bytes) : Z :=
  word_sum (pseudo_v4 (ipv4_octets src) (ipv4_octets dst) IPPROTO_TCP (as_u16 (len seg))) + word_sum seg.

Lemma len_octets a : len (ipv4_octets a) = 4.
Proof. unfold ipv4_octets. by rewrite len_to_be_bytes. Qed.

Lemma len_ports p : len (to_be_bytes 2 p) = 2.
Proof. by rewrite len_to_be_bytes. Qed.

Ltac lens := rewrite ?len_app, ?len_octets, ?len_ports, ?len_cons in *.

(** Regroups the packet an operation works on. *)
Ltac app_solve := repeat match goal with x := _ : list _ |- _ => subst x end; rewrite ?app_nil_r; app_eq.

Ltac group l :=
  match goal with
  | |- context [copy_at ?x _ _] => replace x with l by app_solve
  | |- context [store2 ?x _ _ _] => replace x with l by app_solve
  | |- context [store_checksum ?x _ _] => replace x with l by app_solve
  | |- context [slice ?x _ _] => replace x with l by app_solve
  end.

Lemma two_bytes c : exists a b, to_be_bytes 2 c = [a; b] /\ is_byte a /\ is_byte b.
Proof.
  pose proof (to_be_bytes_ok 2 c) as H. cbn [to_be_bytes to_le_bytes rev app] in *. eexists _, _. split; [reflexivity|].
  apply Forall_cons in H as [? H]. by apply Forall_cons in H as [? _].
Qed.

Lemma zero_bytes : [0; 0] = to_be_bytes 2 0.
Proof. reflexivity. Qed.

(** The checksum over data with a zero checksum field, put into the field, verifies. *)
Lemma field_verifies pre l1 l2 c : len l1 mod 2 = 0 -> 0 <= c < 2 ^ 16 ->
  verifies (pre + word_sum (l1 ++ [0; 0] ++ l2) + c) -> verifies (pre + word_sum (l1 ++ to_be_bytes 2 c ++ l2)).
Proof.
  intros H1 Hc. rewrite !word_sum_app by done. rewrite word_sum_u16 by done. replace (word_sum [0; 0]) with 0 by done.
  replace (pre + (word_sum l1 + (0 + word_sum l2)) + c) with (pre + (word_sum l1 + (c + word_sum l2))) by lia. done.
Qed.

#[local] Hint Resolve to_be_bytes_ok : core.

Lemma pseudo_ok src dst p n : is_byte p -> bytes_ok (pseudo_v4 (ipv4_octets src) (ipv4_octets dst) p n).
Proof.
  intros Hp. unfold pseudo_v4, ipv4_octets. rewrite !bytes_ok_app. split_and!; [done..|].
  repeat constructor; unfold is_byte, as_u8, wrap; try lia; try apply Hp; apply Z.mod_pos_bound; lia.
Qed.

Lemma pseudo_len src dst p n : len (pseudo_v4 (ipv4_octets src) (ipv4_octets dst) p n) = 12.
Proof. unfold pseudo_v4. lens. done. Qed.

Lemma checksum_v4_spec src dst p data : is_byte p -> bytes_ok data -> len data <= 65535 ->
  exists c, checksum_with_pseudo_v4 (ipv4_octets src) (ipv4_octets dst) p data = Ret c /\ 0 <= c < 2 ^ 16 /\
    verifies (word_sum (pseudo_v4 (ipv4_octets src) (ipv4_octets dst) p (as_u16 (len data))) + word_sum data + c).
Proof.
  intros Hp Hd Hl. unfold checksum_with_pseudo_v4. set (ps := pseudo_v4 _ _ _ _).
  assert (Hps : bytes_ok ps) by by apply pseudo_ok. pose proof (word_sum_bound ps Hps) as B1. pose proof (word_sum_bound data Hd) as B2.
  unfold ps in B1 at 3. rewrite pseudo_len in B1. pose proof (len_nonneg data). change (2 ^ 32) with 4294967296 in *.
  rewrite (sum_words_spec ps Hps 0) by (change (2 ^ 32) with 4294967296; lia). rewrite Z.add_0_l.
  rewrite sum_words_spec by (try done; change (2 ^ 32) with 4294967296; lia).
  apply finish_spec. change (2 ^ 32) with 4294967296. lia.
Qed.

Lemma internet_checksum_spec data : bytes_ok data -> len data <= 65535 ->
  exists c, internet_checksum data = Ret c /\ 0 <= c < 2 ^ 16 /\ verifies (word_sum data + c).
Proof.
  intros Hd Hl. unfold internet_checksum. pose proof (word_sum_bound data Hd). pose proof (len_nonneg data).
  rewrite sum_words_spec by (try done; change (2 ^ 32) with 4294967296; lia).
  apply finish_spec. change (2 ^ 32) with 4294967296. lia.
Qed.

Lemma recompute_ipv4_spec h ic src dst rest : len h = 10 -> bytes_ok h ->
  exists ic', recompute_ipv4_checksum (ipv4_header h ic src dst ++ rest) = Ret (ipv4_header h ic' src dst ++ rest) /\
    0 <= ic' < 2 ^ 16 /\ verifies (word_sum (ipv4_header h ic' src dst)).
Proof.
  intros Hh Ho. unfold recompute_ipv4_checksum, ipv4_header. pose proof (len_nonneg rest).
  replace (_ <? 20) with false by (symmetry; apply Z.ltb_ge; lens; lia).
  destruct (two_bytes ic) as (a & b & -> & _). group (h ++ a :: b :: (ipv4_octets src ++ ipv4_octets dst ++ rest)).
  rewrite store2_mid by done. rewrite bind_Ret. group ([] ++ (h ++ [0; 0] ++ ipv4_octets src ++ ipv4_octets dst) ++ rest).
  rewrite (slice_app_mid []); [|done|lens; change (len (@nil Z)) with 0; lia]. rewrite bind_Ret.
  destruct (internet_checksum_spec (h ++ [0; 0] ++ ipv4_octets src ++ ipv4_octets dst)) as (c & -> & Hc & Hv).
  { rewrite !bytes_ok_app. unfold ipv4_octets. split_and!; auto. by repeat constructor. }
  { lens. change (len (@nil Z)) with 0. lia. }
  rewrite bind_Ret. exists c. group (h ++ 0 :: 0 :: (ipv4_octets src ++ ipv4_octets dst ++ rest)).
  rewrite store_checksum_mid by done. split; [f_equal; app_eq|]. split; [done|].
  apply (field_verifies 0); [by rewrite Hh|done|]. by rewrite Z.add_0_l.
Qed.

Lemma segment_len sport dport t tc rest : len t = 12 -> len (tcp_segment sport dport t tc rest) = 18 + len rest.
Proof. intros. unfold tcp_segment. lens. lia. Qed.

Lemma recompute_tcp_spec h ic src dst opts sport dport t tc rest :
  len h = 10 -> len t = 12 -> bytes_ok t -> bytes_ok rest -> len rest <= 65000 ->
  exists tc', recompute_tcp_checksum_v4 (ipv4_tcp h ic src dst opts sport dport t tc rest) (20 + len opts)
              = Ret (ipv4_tcp h ic src dst opts sport dport t tc' rest) /\
    0 <= tc' < 2 ^ 16 /\ verifies (tcp_sum src dst (tcp_segment sport dport t tc' rest)).
Proof.
  intros Hh Ht Hto Hro Hl. unfold recompute_tcp_checksum_v4. pose proof (len_nonneg rest). pose proof (len_nonneg opts).
  assert (Hlen : len (ipv4_tcp h ic src dst opts sport dport t tc rest) = 38 + len opts + len rest).
  { unfold ipv4_tcp, ipv4_header. rewrite !len_app, segment_len by done. lens. lia. }
  rewrite Hlen. replace (_ <? _) with false by (symmetry; apply Z.ltb_ge; lia). unfold ipv4_tcp, ipv4_header.
  set (seg := tcp_segment sport dport t tc rest).
  group ((h ++ to_be_bytes 2 ic) ++ ipv4_octets src ++ (ipv4_octets dst ++ opts ++ seg)).
  rewrite (slice_app_mid _ _ _ 12 16) by (lens; lia). rewrite bind_Ret.
  group ((h ++ to_be_bytes 2 ic ++ ipv4_octets src) ++ ipv4_octets dst ++ (opts ++ seg)).
  rewrite (slice_app_mid _ _ _ 16 20) by (lens; lia). rewrite bind_Ret. unfold seg, tcp_segment.
  destruct (two_bytes tc) as (a & b & -> & _).
  set (hd := h ++ to_be_bytes 2 ic ++ ipv4_octets src ++ ipv4_octets dst ++ opts).
  set (s1 := to_be_bytes 2 sport ++ to_be_bytes 2 dport ++ t).
  assert (Hhd : len hd = 20 + len opts) by (unfold hd; lens; lia). assert (Hs1 : len s1 = 16) by (unfold s1; lens; lia).
  group ((hd ++ s1) ++ a :: b :: rest). rewrite store2_mid by (rewrite len_app; lia). rewrite bind_Ret.
  assert (Hz : len (s1 ++ [0; 0] ++ rest) = 18 + len rest) by (rewrite !len_app, Hs1; change (len [0; 0]) with 2; lia).
  group (hd ++ (s1 ++ [0; 0] ++ rest) ++ []).
  rewrite (slice_app_mid hd); [|lia|rewrite app_nil_r, (len_app hd); lia]. rewrite bind_Ret.
  destruct (checksum_v4_spec src dst IPPROTO_TCP (s1 ++ [0; 0] ++ rest)) as (c & -> & Hc & Hv).
  { unfold is_byte, IPPROTO_TCP. lia. }
  { unfold s1. rewrite !bytes_ok_app. split_and!; auto. by repeat constructor. }
  { lia. }
  rewrite bind_Ret. exists c. rewrite app_nil_r. group ((hd ++ s1) ++ 0 :: 0 :: rest). rewrite store_checksum_mid by (try done; rewrite len_app; lia).
  split; [unfold hd, s1; f_equal; app_eq|]. split; [done|].
  fold (tcp_segment sport dport t c rest). unfold tcp_sum. rewrite segment_len by done. rewrite Hz in Hv.
  replace (tcp_segment sport dport t c rest) with (s1 ++ to_be_bytes 2 c ++ rest) by (unfold tcp_segment, s1; app_eq).
  apply field_verifies; [by rewrite Hs1|done|exact Hv].
Qed.

(** The rewriting changes the end points and the checksums, and nothing else. *)
Lemma rewrite_v4_spec h ic src dst opts sport dport t tc rest src' sport' dst' dport' :
  len h = 10 -> bytes_ok h -> len t = 12 -> bytes_ok t -> bytes_ok rest -> len rest <= 65000 ->
  exists ic' tc', rewrite_v4 (ipv4_tcp h ic src dst opts sport dport t tc rest) (20 + len opts) src' sport' dst' dport'
                  = Ret (ipv4_tcp h ic' src' dst' opts sport' dport' t tc' rest) /\
    verifies (word_sum (ipv4_header h ic' src' dst')) /\ verifies (tcp_sum src' dst' (tcp_segment sport' dport' t tc' rest)).
Proof.
  intros Hh Hho Ht Hto Hro Hl. unfold rewrite_v4. unfold ipv4_tcp at 1. unfold ipv4_header at 1. unfold tcp_segment at 1.
  set (tail := t ++ to_be_bytes 2 tc ++ rest). set (hi := h ++ to_be_bytes 2 ic).
  assert (Hhi : len hi = 12) by (unfold hi; lens; lia).
  group (hi ++ ipv4_octets src ++ (ipv4_octets dst ++ opts ++ to_be_bytes 2 sport ++ to_be_bytes 2 dport ++ tail)).
  rewrite copy_app_mid by (lens; lia). rewrite bind_Ret.
  group ((hi ++ ipv4_octets src') ++ ipv4_octets dst ++ (opts ++ to_be_bytes 2 sport ++ to_be_bytes 2 dport ++ tail)).
  rewrite copy_app_mid by (lens; lia). rewrite bind_Ret.
  group ((hi ++ ipv4_octets src' ++ ipv4_octets dst' ++ opts) ++ to_be_bytes 2 sport ++ (to_be_bytes 2 dport ++ tail)).
  rewrite copy_app_mid by (lens; lia). rewrite bind_Ret.
  group ((hi ++ ipv4_octets src' ++ ipv4_octets dst' ++ opts ++ to_be_bytes 2 sport') ++ to_be_bytes 2 dport ++ tail).
  rewrite copy_app_mid by (lens; lia). rewrite bind_Ret.
  replace ((hi ++ ipv4_octets src' ++ ipv4_octets dst' ++ opts ++ to_be_bytes 2 sport') ++ to_be_bytes 2 dport' ++ tail)
    with (ipv4_tcp h ic src' dst' opts sport' dport' t tc rest)
    by (unfold ipv4_tcp, ipv4_header, tcp_segment, hi, tail; app_eq).
  destruct (recompute_tcp_spec h ic src' dst' opts sport' dport' t tc rest) as (tc' & -> & _ & Htc); [done..|]. rewrite bind_Ret.
  unfold ipv4_tcp at 1.
  destruct (recompute_ipv4_spec h ic src' dst' (opts ++ tcp_segment sport' dport' t tc' rest)) as (ic' & -> & _ & Hic); [done..|].
  exists ic', tc'. by split.
Qed.

(** ** A connection through the listener *)

(** The first ten bytes of the header of an unfragmented packet of a protocol. *)
Record ip4_head (proto : Z) (h opts : bytes) : Prop := {
  head_len : len h = 10;
  head_ok : bytes_ok h;
  head_opts : len opts <= 40 /\ len opts mod 4 = 0;
  head_first : idx h 0 = Ret (64 + (20 + len opts) / 4);
  head_flags : exists f, read_u16 h 6 = Ret f /\ Z.land f 0x2000 = 0 /\ Z.land f 0x1fff = 0;
  head_proto : idx h 9 = Ret proto
}.

Abbreviation tcp_head := (ip4_head IPPROTO_TCP).

(** The rest of a packet: after the ports, and after the checksum. *)
Definition tcp_tail (t rest : bytes) : Prop := len t = 12 /\ bytes_ok t /\ bytes_ok rest /\ 2 <= len rest <= 65000.

Definition v4_addr (a : SocketAddr) (i : Z) : Prop := ip a = V4 i /\ in_width 32 i /\ in_width 16 (sock_port a).

Lemma octets_value a : in_width 32 a -> from_be_bytes (ipv4_octets a) = a.
Proof. intros. by apply from_to_be_bytes_id. Qed.

Lemma port_value p l : in_width 16 p -> read_u16 (to_be_bytes 2 p ++ l) 0 = Ret p.
Proof.
  intros Hp. unfold read_u16. destruct (two_bytes p) as (a & b & E & _). rewrite E.
  assert (H0 : idx ([a; b] ++ l) 0 = Ret a) by exact (idx_mid [] a (b :: l) 0 eq_refl).
  assert (H1 : idx ([a; b] ++ l) (0 + 1) = Ret b) by exact (idx_mid [a] b l 1 eq_refl).
  rewrite H0, bind_Ret, H1, bind_Ret, <-E. by rewrite from_to_be_bytes_id.
Qed.

Lemma read_u16_app_r l1 l2 i : i = len l1 -> read_u16 (l1 ++ l2) i = read_u16 l2 0.
Proof. intros ->. unfold read_u16. rewrite !idx_app_r by lia.
  replace (len l1 - len l1) with 0 by lia. by replace (len l1 + 1 - len l1) with (0 + 1) by lia. Qed.

Lemma read_u16_app_l l1 l2 i : i + 1 < len l1 -> read_u16 (l1 ++ l2) i = read_u16 l1 i.
Proof. intros Hi. unfold read_u16. by rewrite !idx_app_l by lia. Qed.

Lemma first_byte n : 0 <= n <= 40 -> n mod 4 = 0 ->
  wshr (64 + (20 + n) / 4) 4 = 4 /\ Z.land (64 + (20 + n) / 4) 0x0f * 4 = 20 + n.
Proof.
  intros Hn Hm. unfold wshr. rewrite Z.shiftr_div_pow2 by lia. change 0x0f with (Z.ones 4). rewrite Z.land_ones by lia.
  change (2 ^ 4) with 16. Z.div_mod_to_equations. lia.
Qed.

(** A packet reaches the handler of its protocol with its addresses and segment. *)
Lemma process_ip4 c st m proto h ic src dst opts seg :
  ip4_head proto h opts -> in_width 32 src -> in_width 32 dst ->
  let pkt := ipv4_header h ic src dst ++ opts ++ seg in
  process_packet c st m pkt =
    if proto =? IPPROTO_TCP then handle_tcp_v4 c st m pkt seg src dst
    else if proto =? IPPROTO_UDP then
      r ← parse_udp_v4 seg src dst;
      Ret (match r with
           | Some (s, d, data) => tun_dispatch_udp c st (m_now m) s d data
           | None => (st, [])
           end)
    else if proto =? IPPROTO_ICMP then evs ← handle_icmpv4 c pkt (20 + len opts) src dst; Ret (st, evs)
    else Ret (st, []).
Proof.
  intros [Hh _ [Ho1 Ho2] H0 (f & Hf & Hm & Hfo) H9] Hs Hd pkt. pose proof (len_nonneg opts). pose proof (len_nonneg seg).
  assert (Epkt : pkt = h ++ (to_be_bytes 2 ic ++ ipv4_octets src ++ ipv4_octets dst ++ opts ++ seg))
    by (unfold pkt, ipv4_header; app_eq).
  assert (Hl : len pkt = 20 + len opts + len seg) by (rewrite Epkt, !len_app, Hh, !len_octets, len_ports; lia).
  destruct (first_byte (len opts)) as [F1 F2]; [lia|done|].
  assert (Hb0 : idx pkt 0 = Ret (64 + (20 + len opts) / 4)) by (rewrite Epkt, idx_app_l; [done|lia]).
  unfold process_packet. rewrite (proj2 (Z.eqb_neq _ _)) by lia. rewrite Hb0, bind_Ret, F1. cbn [Z.eqb Pos.eqb].
  unfold process_ipv4. rewrite (proj2 (Z.ltb_ge _ _)) by lia. rewrite Hb0, bind_Ret. cbv zeta. rewrite F2.
  rewrite (proj2 (Z.ltb_ge (len pkt) _)), (proj2 (Z.ltb_ge (20 + len opts) 20)) by lia. cbn [orb].
  assert (Hff : read_u16 pkt 6 = Ret f) by (rewrite Epkt, read_u16_app_l; [done|lia]). rewrite Hff, bind_Ret.
  assert (Es : slice pkt 12 16 = Ret (ipv4_octets src)).
  { rewrite Epkt. group ((h ++ to_be_bytes 2 ic) ++ ipv4_octets src ++ (ipv4_octets dst ++ opts ++ seg)). apply slice_app_mid; lens; lia. }
  assert (Ed : slice pkt 16 20 = Ret (ipv4_octets dst)).
  { rewrite Epkt. group ((h ++ to_be_bytes 2 ic ++ ipv4_octets src) ++ ipv4_octets dst ++ (opts ++ seg)). apply slice_app_mid; lens; lia. }
  assert (Ep : slice pkt (20 + len opts) (len pkt) = Ret seg).
  { rewrite Hl, Epkt. group ((h ++ to_be_bytes 2 ic ++ ipv4_octets src ++ ipv4_octets dst ++ opts) ++ seg ++ []).
    apply slice_app_mid; lens; lia. }
  assert (Eb : idx pkt 9 = Ret proto) by (rewrite Epkt, idx_app_l; [done|lia]).
  rewrite Es, bind_Ret, Ed, bind_Ret, Ep, bind_Ret, Eb, bind_Ret, Hm, Hfo, !octets_value by done. reflexivity.
Qed.

Lemma process_tcp4 c st m h ic src dst opts sport dport t tc rest :
  tcp_head h opts -> in_width 32 src -> in_width 32 dst ->
  process_packet c st m (ipv4_tcp h ic src dst opts sport dport t tc rest)
  = handle_tcp_v4 c st m (ipv4_tcp h ic src dst opts sport dport t tc rest) (tcp_segment sport dport t tc rest) src dst.
Proof. intros Hh Hs Hd. exact (process_ip4 c st m IPPROTO_TCP h ic src dst opts (tcp_segment sport dport t tc rest) Hh Hs Hd). Qed.

Lemma handler_prefix h ic src dst opts sport dport t tc rest : tcp_head h opts ->
  idx (ipv4_tcp h ic src dst opts sport dport t tc rest) 0 = Ret (64 + (20 + len opts) / 4).
Proof.
  intros Hh. unfold ipv4_tcp, ipv4_header. rewrite <-!app_assoc, idx_app_l; [apply Hh|]. rewrite (head_len _ h opts Hh). lia.
Qed.

Lemma segment_ports sport dport t tc rest : in_width 16 sport -> in_width 16 dport ->
  read_u16 (tcp_segment sport dport t tc rest) 0 = Ret sport /\ read_u16 (tcp_segment sport dport t tc rest) 2 = Ret dport.
Proof.
  intros Hs Hd. unfold tcp_segment. split; [by apply port_value|]. rewrite read_u16_app_r by by rewrite len_ports. by apply port_value.
Qed.


(** ** UDP replies *)

Definition udp_segment (sport dport n ck : Z) (payload : bytes) : bytes :=
  to_be_bytes 2 sport ++ to_be_bytes 2 dport ++ to_be_bytes 2 n ++ to_be_bytes 2 ck ++ payload.

Lemma parse_udp_segment sport dport ck payload s d : in_width 16 sport -> in_width 16 dport -> len payload <= 65507 ->
  parse_udp (udp_segment sport dport (8 + len payload) ck payload) s d
  = Ret (Some ({| ip := s; sock_port := sport |}, {| ip := d; sock_port := dport |}, payload)).
Proof.
  intros Hs Hd Hl. unfold parse_udp, udp_segment. pose proof (len_nonneg payload).
  set (l1 := to_be_bytes 2 sport). set (l2 := to_be_bytes 2 dport). set (l3 := to_be_bytes 2 (8 + len payload)). set (l4 := to_be_bytes 2 ck).
  assert (Hlen : len (l1 ++ l2 ++ l3 ++ l4 ++ payload) = 8 + len payload) by (unfold l1, l2, l3, l4; lens; lia).
  assert (R0 : read_u16 (l1 ++ l2 ++ l3 ++ l4 ++ payload) 0 = Ret sport) by by apply port_value.
  assert (R2 : read_u16 (l1 ++ l2 ++ l3 ++ l4 ++ payload) 2 = Ret dport).
  { rewrite read_u16_app_r by by (unfold l1; rewrite len_ports). by apply port_value. }
  assert (R4 : read_u16 (l1 ++ l2 ++ l3 ++ l4 ++ payload) 4 = Ret (8 + len payload)).
  { rewrite (app_assoc l1), read_u16_app_r by (unfold l1, l2; lens; lia).
    apply port_value. unfold in_width. change (2 ^ 16) with 65536. lia. }
  rewrite Hlen, (proj2 (Z.ltb_ge _ _)), R0, bind_Ret, R2, bind_Ret, R4, bind_Ret by lia. cbv zeta.
  replace (8 + Z.min (Z.max 0 (8 + len payload - 8)) (Z.max 0 (8 + len payload - 8))) with (8 + len payload) by lia.
  group ((l1 ++ l2 ++ l3 ++ l4) ++ payload ++ []). rewrite slice_app_mid by (unfold l1, l2, l3, l4; lens; lia). by rewrite bind_Ret.
Qed.

(** What a receiver sums over a UDP segment. *)
Definition udp_sum (src dst : Z) (seg : bytes) : Z :=
  word_sum (pseudo_v4 (ipv4_octets src) (ipv4_octets dst) IPPROTO_UDP (as_u16 (len seg))) + word_sum seg.

Definition reply_head (n : Z) : bytes :=
  [0x45; 0; as_u8 (wshr n 8); as_u8 (Z.land n 0xff); 0; 0; 0x40; 0; 64; IPPROTO_UDP].

Lemma reply_head_ok n : 0 <= n < 2 ^ 16 -> ip4_head IPPROTO_UDP (reply_head n) [].
Proof.
  intros Hn. unfold reply_head. split; try done.
  - pose proof (u16_bytes n Hn) as E. injection E as E1 E2. pose proof (to_be_bytes_ok 2 n) as Ho. rewrite <-(u16_bytes n Hn) in Ho.
    apply Forall_cons in Ho as [O1 O2]. apply Forall_cons in O2 as [O2 _].
    repeat (apply Forall_cons; split; [first [exact O1 | exact O2 | unfold is_byte, IPPROTO_UDP; lia]|]). constructor.
  - exists (from_be_bytes [0x40; 0]). split_and!; reflexivity.
Qed.

Lemma build_udp_reply_v4_spec s sp d dp payload : bytes_ok payload -> len payload <= 65507 ->
  exists ic ck, build_udp_reply_v4 s sp d dp payload
    = Ret (Some (ipv4_header (reply_head (28 + len payload)) ic s d ++ udp_segment sp dp (8 + len payload) ck payload)) /\
    verifies (word_sum (ipv4_header (reply_head (28 + len payload)) ic s d)) /\
    verifies (udp_sum s d (udp_segment sp dp (8 + len payload) ck payload)).
Proof.
  intros Hp Hl. unfold build_udp_reply_v4. pose proof (len_nonneg payload).
  assert (Ew : forall z, 0 <= z < 65536 -> as_u16 z = z) by (intros; unfold as_u16, wrap; by rewrite Z.mod_small).
  rewrite (Ew (8 + len payload)), (Ew (20 + (8 + len payload))) by lia.
  replace (20 + (8 + len payload)) with (28 + len payload) by lia. cbv zeta.
  set (h := reply_head (28 + len payload)).
  destruct (reply_head_ok (28 + len payload)) as [Hh Ho _ _ _ _]; [change (2 ^ 16) with 65536; lia|]. fold h in Hh, Ho.
  assert (E0 : [69; 0; as_u8 (wshr (28 + len payload) 8); as_u8 (Z.land (28 + len payload) 255); 0; 0; 64; 0; 64; IPPROTO_UDP; 0; 0]
    ++ ipv4_octets s ++ ipv4_octets d = ipv4_header h 0 s d) by done.
  rewrite E0. assert (H20 : len (ipv4_header h 0 s d) = 20) by (unfold ipv4_header; lens; lia).
  replace (slice (ipv4_header h 0 s d) 0 20) with (slice ([] ++ ipv4_header h 0 s d ++ []) 0 20) by by rewrite app_nil_r.
  rewrite (slice_app_mid [] (ipv4_header h 0 s d) []) by (try done; lia). rewrite bind_Ret.
  destruct (internet_checksum_spec (ipv4_header h 0 s d)) as (ic & -> & Hic & Hv).
  { unfold ipv4_header, ipv4_octets. rewrite !bytes_ok_app. auto. }
  { lia. }
  rewrite bind_Ret. unfold ipv4_header at 1. rewrite <-zero_bytes.
  group (h ++ 0 :: 0 :: (ipv4_octets s ++ ipv4_octets d)). rewrite store_checksum_mid by done. rewrite bind_Ret.
  fold (ipv4_header h ic s d). assert (H20' : len (ipv4_header h ic s d) = 20) by (unfold ipv4_header; lens; lia). rewrite H20'.
  set (u1 := to_be_bytes 2 sp ++ to_be_bytes 2 dp ++ to_be_bytes 2 (8 + len payload)).
  assert (Hu1 : len u1 = 6) by (unfold u1; lens; lia).
  assert (Hu : len (u1 ++ [0; 0] ++ payload) = 8 + len payload) by (rewrite !len_app, Hu1; change (len [0; 0]) with 2; lia).
  group (ipv4_header h ic s d ++ (u1 ++ [0; 0] ++ payload) ++ []).
  rewrite (slice_app_mid (ipv4_header h ic s d)); [|done|rewrite app_nil_r, (len_app (ipv4_header h ic s d)); lia]. rewrite bind_Ret.
  unfold udp_checksum_v4. destruct (checksum_v4_spec s d IPPROTO_UDP (u1 ++ [0; 0] ++ payload)) as (ck & -> & Hck & Hv2).
  { unfold is_byte, IPPROTO_UDP. lia. }
  { unfold u1. rewrite !bytes_ok_app. split_and!; auto. by repeat constructor. }
  { lia. }
  rewrite bind_Ret, app_nil_r. group ((ipv4_header h ic s d ++ u1) ++ 0 :: 0 :: payload).
  rewrite store_checksum_mid by (try done; rewrite len_app; lia). rewrite bind_Ret. exists ic, ck.
  assert (Eseg : udp_segment sp dp (8 + len payload) ck payload = u1 ++ to_be_bytes 2 ck ++ payload) by (unfold udp_segment, u1; app_eq).
  split; [rewrite Eseg; do 2 f_equal; app_eq|]. split.
  - rewrite <-(Z.add_0_l (word_sum _)). apply field_verifies; [by rewrite Hh|done|]. by rewrite Z.add_0_l.
  - unfold udp_sum. rewrite Eseg. replace (len (u1 ++ to_be_bytes 2 ck ++ payload)) with (8 + len payload) by (rewrite !len_app, Hu1, len_ports; lia).
    rewrite Hu in Hv2. apply field_verifies; [by rewrite Hu1|done|exact Hv2].
Qed.

(** UDP replies (IPv4): the packet built for a payload of up to 65507 bytes has
    verifying header and UDP checksums, and the device's own parser reads back from
    it the two end points and the payload. *)
Theorem udp_reply_v4_roundtrip (src dst : SocketAddr) (si di : Z) (payload : bytes) :
  v4_addr src si -> v4_addr dst di -> bytes_ok payload -> len payload <= 65507 ->
  exists header seg,
    build_udp_reply_packet src dst payload = Ret (Some (header ++ seg)) /\
    verifies (word_sum header) /\ verifies (udp_sum si di seg) /\
    forall c st m, process_packet c st m (header ++ seg) = Ret (tun_dispatch_udp c st (m_now m) src dst payload).
Proof.
  intros (Hs & Ws & Wsp) (Hd & Wd & Wdp) Hp Hl. unfold build_udp_reply_packet. rewrite Hs, Hd. pose proof (len_nonneg payload).
  destruct (build_udp_reply_v4_spec si (sock_port src) di (sock_port dst) payload Hp Hl) as (ic & ck & -> & V1 & V2).
  eexists _, _. split; [reflexivity|]. split; [done|]. split; [done|]. intros c st m.
  pose proof (process_ip4 c st m IPPROTO_UDP (reply_head (28 + len payload)) ic si di []
    (udp_segment (sock_port src) (sock_port dst) (8 + len payload) ck payload)) as E.
  cbn [app Z.eqb] in E. rewrite E; [|apply reply_head_ok; change (2 ^ 16) with 65536; lia|done|done]. cbn [IPPROTO_UDP IPPROTO_TCP Z.eqb Pos.eqb].
  unfold parse_udp_v4. rewrite parse_udp_segment, bind_Ret by done.
  replace {| ip := V4 si; sock_port := sock_port src |} with src by (rewrite <-Hs; by destruct src).
  replace {| ip := V4 di; sock_port := sock_port dst |} with dst by (rewrite <-Hd; by destruct dst). done.
Qed.

(** ** Totality and defects *)

(** No packet read from the device, of any length and content, makes its processing
    panic, and the address translation table stays well formed. *)
Theorem tun_packet_total (c : tun_config) (st : tun_state) (m : moment) (pkt : bytes) :
  rtc nat_call TcpNat_new (tcp_nat st) -> m_iter m ≡ₚ map_to_list (port_map (tcp_nat st)) ->
  fine (process_packet c st m pkt).
Proof. intros Hn Hi. apply (process_packet_fine c st m); [by apply nat_reachable_wf|done]. Qed.

(** The reply task of a UDP session takes the client's address for the source of
    the packet it writes: whatever server answered, the reply that comes back with
    the client's address (as every outbound sends it) goes from the client to itself. *)
Theorem udp_reply_to_client (c : tun_config) (st : tun_state) (now : Z) (client server : SocketAddr) (ci : Z) (data payload : bytes) :
  udp_sessions st !! (client, server) = None -> v4_addr client ci -> bytes_ok payload -> len payload <= 65507 ->
  exists p captured, (tun_dispatch_udp c st now client server data).2 = [Forward p captured] /\
    forall spoofed, exists pkt, udp_reply_task captured payload (u_src p) spoofed = Ret [Written pkt] /\
      slice pkt 12 16 = Ret (ipv4_octets ci) /\ slice pkt 16 20 = Ret (ipv4_octets ci).
Proof.
  intros Hnew (Hc & Wc & Wp) Hp Hl. unfold tun_dispatch_udp. rewrite Hnew. eexists _, _. split; [reflexivity|].
  intros spoofed. unfold udp_reply_task, build_udp_reply_packet. cbn [u_src]. rewrite Hc.
  destruct (build_udp_reply_v4_spec ci (sock_port client) ci (sock_port client) payload Hp Hl) as (ic & ck & -> & _ & _).
  rewrite bind_Ret. eexists. split; [reflexivity|]. unfold ipv4_header. set (h := reply_head _). set (seg := udp_segment _ _ _ _ _).
  assert (Hh : len h = 10) by done. split.
  - group ((h ++ to_be_bytes 2 ic) ++ ipv4_octets ci ++ (ipv4_octets ci ++ seg)). apply slice_app_mid; lens; lia.
  - group ((h ++ to_be_bytes 2 ic ++ ipv4_octets ci) ++ ipv4_octets ci ++ seg). apply slice_app_mid; lens; lia.
Qed.

(** The header checksum covers twenty bytes: with IP options the whole header only
    verifies if the options happen to add up to zero. *)
Theorem header_options_unsummed (h opts t rest : bytes) (ic tc src dst sport dport src' sport' dst' dport' : Z) :
  len h = 10 -> bytes_ok h -> len t = 12 -> bytes_ok t -> bytes_ok rest -> len rest <= 65000 ->
  exists ic' tc', rewrite_v4 (ipv4_tcp h ic src dst opts sport dport t tc rest) (20 + len opts) src' sport' dst' dport'
                  = Ret (ipv4_tcp h ic' src' dst' opts sport' dport' t tc' rest) /\
    word_sum (ipv4_header h ic' src' dst' ++ opts) mod 65535 = word_sum opts mod 65535.
Proof.
  intros Hh Hho Ht Hto Hro Hl.
  destruct (rewrite_v4_spec h ic src dst opts sport dport t tc rest src' sport' dst' dport') as (ic' & tc' & E & [_ V] & _); [done..|].
  exists ic', tc'. split; [done|]. rewrite word_sum_app by (unfold ipv4_header; lens; by rewrite Hh).
  by rewrite <-Zplus_mod_idemp_l, V.
Qed.

(** A UDP checksum of zero is sent as it is, which IPv6 receivers must discard. *)
Example udp6_zero_checksum :
  exists pkt, build_udp_reply_v6 1 53 2 4096 [0xEF; 0xA2] = Ret (Some pkt) /\ slice pkt 46 48 = Ret [0; 0].
Proof. eexists. split; [vm_compute; reflexivity|vm_compute; reflexivity]. Qed.

(** ** Witnesses *)

Ltac byte_list := apply (bool_decide_unpack _); vm_compute; exact I.
Ltac le_tac := unfold in_width; repeat split; first [apply Z.leb_le; reflexivity | apply Z.ltb_lt; reflexivity].

Definition sample_cfg : tun_config := mkTunCfg (Some 0xAC130001) (Some 0xAC130002) None None 40000 0 (lit "tun").
Definition sample_tun : tun_state := mkTun TcpNat_new ∅.
Definition sample_moment : moment := mkMoment 5 [].
Definition sample_head : bytes := [0x45; 0; 0; 40; 0; 1; 0x40; 0; 64; 6].
Definition sample_t : bytes := [0; 0; 0; 1; 0; 0; 0; 0; 0x50; 2; 0xFF; 0xFF].

Lemma sample_head_ok : tcp_head sample_head [].
Proof.
  split; [reflexivity|byte_list|split; [le_tac|reflexivity]|reflexivity| |reflexivity].
  exists 0x4000. repeat split; reflexivity.
Qed.

Lemma sample_addr_ok a i : ip a = V4 i -> (0 <=? i) && (i <? 2 ^ 32) && (0 <=? sock_port a) && (sock_port a <? 2 ^ 16) = true -> v4_addr a i.
Proof. intros Hi H. reflect_bools. unfold v4_addr, in_width. split; [done|]. split; lia. Qed.

Lemma sample_tail_ok : tcp_tail sample_t [0; 0].
Proof. split; [reflexivity|]. split; [byte_list|]. split; [byte_list|le_tac]. Qed.


Lemma udp_reply_v4_roundtrip_witness :
  exists header seg,
    build_udp_reply_packet sample_dst sample_src (lit "hello") = Ret (Some (header ++ seg)) /\
    process_packet sample_cfg sample_tun sample_moment (header ++ seg)
    = Ret (tun_dispatch_udp sample_cfg sample_tun 5 sample_dst sample_src (lit "hello")).
Proof.
  destruct (udp_reply_v4_roundtrip sample_dst sample_src 0x08080808 0xC0A80002 (lit "hello")) as (header & seg & H1 & _ & _ & H2).
  - apply sample_addr_ok; reflexivity.
  - apply sample_addr_ok; reflexivity.
  - byte_list.
  - le_tac.
  - exists header, seg. split; [exact H1|exact (H2 sample_cfg sample_tun sample_moment)].
Defined.

Lemma tun_packet_total_witness :
  exists st' evs, process_packet sample_cfg sample_tun sample_moment [0x4F; 1; 2] = Ret (st', evs) /\ nat_wf (tcp_nat st').
Proof. apply tun_packet_total; [apply rtc_refl|reflexivity]. Defined.

Lemma udp_reply_to_client_witness :
  exists p captured, (tun_dispatch_udp sample_cfg sample_tun 5 sample_src sample_dst (lit "hello")).2 = [Forward p captured] /\
    exists pkt, udp_reply_task captured (lit "world") (u_src p) sample_dst = Ret [Written pkt] /\
      slice pkt 12 16 = Ret (ipv4_octets 0xC0A80002) /\ slice pkt 16 20 = Ret (ipv4_octets 0xC0A80002).
Proof.
  destruct (udp_reply_to_client sample_cfg sample_tun 5 sample_src sample_dst 0xC0A80002 (lit "hello") (lit "world")) as (p & captured & H1 & H2).
  - reflexivity.
  - apply sample_addr_ok; reflexivity.
  - byte_list.
  - le_tac.
  - exists p, captured. split; [exact H1|apply H2].
Defined.
