(* ===== verification/TunUid.v ===== *)
(** * TunUid: the UID ranges of the Linux routes of [src/inbound/tun.rs].

    The routes exclude users from the tunnel by ranges of [u32] identifiers,
    computed from an include list and an exclude list. *)

From S2P Require Import Prelude.

Definition UID_MAX : Z := 2 ^ 32 - 2.

Definition range : Type := (Z * Z)%type.

(** [Ord] on pairs. *)
Definition range_le (x y : range) : Prop := x.1 < y.1 \/ (x.1 = y.1 /\ x.2 <= y.2).

#[export] Instance range_le_dec : RelDecision range_le.
Proof. intros x y. unfold range_le. apply _. Defined.

Definition saturating_succ (b : Z) : Z := Z.min (b + 1) (2 ^ 32 - 1).

(** [v.dedup()] *)
Fixpoint dedup_uids (l : list Z) : list Z :=
  match l with
  | [] => []
  | a :: l' => match l' with
               | b :: _ => if a =? b then dedup_uids l' else a :: dedup_uids l'
               | [] => [a]
               end
  end.

Definition to_sorted_ranges (uids : list Z) : list range := map (fun u => (u, u)) (dedup_uids (merge_sort Z.le uids)).

(** One range of the base against one of the subtracted ranges. *)
Definition subtract_one (lo hi : Z) (x : range) : list range :=
  let '(a, b) := x in
  if (hi <? a) || (b <? lo) then [(a, b)]
  else (if a <? lo then [(a, lo - 1)] else []) ++ (if hi <? b then [(hi + 1, b)] else []).

Fixpoint subtract_ranges (base sub : list range) : list range :=
  match sub with
  | [] => base
  | (lo, hi) :: sub => subtract_ranges (flat_map (subtract_one lo hi) base) sub
  end.

(** The loop of [complement_ranges]: [cur] is the first identifier not yet seen. *)
Fixpoint complement_loop (cur : Z) (ranges : list range) (hi : Z) : list range :=
  match ranges with
  | [] => if cur <=? hi then [(cur, hi)] else []
  | (a, b) :: ranges => (if cur <? a then [(cur, a - 1)] else []) ++ complement_loop (saturating_succ b) ranges hi
  end.

Definition complement_ranges (ranges : list range) (lo hi : Z) : list range := complement_loop lo ranges hi.

(** The loop of [merge_ranges]: [last] is the last merged range. *)
Fixpoint merge_tail (last : range) (ranges : list range) : list range :=
  match ranges with
  | [] => [last]
  | (a, b) :: ranges =>
      if a <=? saturating_succ last.2 then merge_tail (last.1, Z.max last.2 b) ranges
      else last :: merge_tail (a, b) ranges
  end.

Definition merge_ranges (ranges : list range) : list range :=
  match merge_sort range_le ranges with
  | [] => []
  | r :: ranges => merge_tail r ranges
  end.

Definition build_excluded_uid_ranges (include exclude : list Z) : list range :=
  if bool_decide (include = []) && bool_decide (exclude = []) then []
  else
    let include_ranges := to_sorted_ranges include in
    let exclude_ranges := to_sorted_ranges exclude in
    if negb (bool_decide (include_ranges = []))
    then merge_ranges (complement_ranges (subtract_ranges include_ranges exclude_ranges) 0 UID_MAX)
    else merge_ranges exclude_ranges.

(** ** What ranges cover *)

Definition covers (rs : list range) (u : Z) : Prop := exists r, r ∈ rs /\ r.1 <= u <= r.2.

Lemma uid_covers_nil u : ~ covers [] u.
Proof. intros (r & H & _). by apply elem_of_nil in H. Qed.

Lemma uid_covers_cons r rs u : covers (r :: rs) u <-> r.1 <= u <= r.2 \/ covers rs u.
Proof.
  unfold covers. setoid_rewrite elem_of_cons. split; [intros (x & [->|H] & ?); eauto|]. intros [H|(x & H & ?)]; eauto.
Qed.

Lemma covers_one r u : covers [r] u <-> r.1 <= u <= r.2.
Proof. rewrite uid_covers_cons. pose proof (uid_covers_nil u). tauto. Qed.

Lemma covers_empty u : covers [] u <-> False.
Proof. split; [apply uid_covers_nil|done]. Qed.

Lemma uid_covers_app rs1 rs2 u : covers (rs1 ++ rs2) u <-> covers rs1 u \/ covers rs2 u.
Proof. unfold covers. setoid_rewrite elem_of_app. firstorder. Qed.

Lemma uid_covers_perm rs1 rs2 u : rs1 ≡ₚ rs2 -> covers rs1 u <-> covers rs2 u.
Proof. intros H. unfold covers. by setoid_rewrite H. Qed.

(** Ranges in order, disjoint and not adjacent overlapping, from [lo] on. *)
Fixpoint chain (lo : Z) (rs : list range) : Prop :=
  match rs with
  | [] => True
  | r :: rs => lo <= r.1 <= r.2 /\ chain (r.2 + 1) rs
  end.

Lemma chain_weaken lo lo' rs : lo' <= lo -> chain lo rs -> chain lo' rs.
Proof. destruct rs as [|r rs]; [done|]. cbn [chain]. intros H [H1 H2]. split; [lia|done]. Qed.

Lemma chain_covers lo rs u : chain lo rs -> covers rs u -> lo <= u.
Proof.
  revert lo. induction rs as [|r rs IH]; intros lo; [intros _ H; by apply uid_covers_nil in H|].
  cbn [chain]. rewrite uid_covers_cons. intros [H1 H2] [H|H]; [lia|]. apply (IH _ H2) in H. lia.
Qed.

Lemma subtract_one_covers lo hi x u : lo <= hi ->
  covers (subtract_one lo hi x) u <-> x.1 <= u <= x.2 /\ ~ (lo <= u <= hi).
Proof.
  intros Hl. destruct x as [a b]. unfold subtract_one. cbn [fst snd].
  repeat case_if; reflect_bools; rewrite ?uid_covers_app, ?covers_one, ?covers_empty; cbn [fst snd]; lia.
Qed.

Lemma subtract_one_chain lo hi x c rest : lo <= hi -> c <= x.1 <= x.2 -> chain (x.2 + 1) rest -> chain c (subtract_one lo hi x ++ rest).
Proof.
  intros Hl Hx Hr. destruct x as [a b]. unfold subtract_one. cbn [fst snd] in *.
  assert (chain c rest) by (eapply chain_weaken; [|exact Hr]; lia).
  repeat case_if; reflect_bools; cbn [app chain fst snd]; repeat (apply conj); try lia; try done;
    (eapply chain_weaken; [|exact Hr]; lia).
Qed.

Lemma flat_subtract lo hi c base : lo <= hi -> chain c base ->
  chain c (flat_map (subtract_one lo hi) base) /\
  forall u, covers (flat_map (subtract_one lo hi) base) u <-> covers base u /\ ~ (lo <= u <= hi).
Proof.
  intros Hl. revert c. induction base as [|r base IH]; intros c; cbn [flat_map chain].
  - intros _. split; [done|]. intros u. pose proof (uid_covers_nil u). tauto.
  - intros [H1 H2]. destruct (IH _ H2) as [I1 I2]. split; [by apply subtract_one_chain|].
    intros u. rewrite uid_covers_app, uid_covers_cons, I2, subtract_one_covers by done. tauto.
Qed.

Lemma subtract_ranges_spec sub c base : Forall (fun r => r.1 <= r.2) sub -> chain c base ->
  chain c (subtract_ranges base sub) /\ forall u, covers (subtract_ranges base sub) u <-> covers base u /\ ~ covers sub u.
Proof.
  intros Hs. revert base. induction Hs as [|[lo hi] sub Hr _ IH]; intros base Hb; cbn [subtract_ranges].
  - split; [done|]. intros u. pose proof (uid_covers_nil u). tauto.
  - destruct (flat_subtract lo hi c base Hr Hb) as [F1 F2]. destruct (IH _ F1) as [I1 I2]. split; [done|].
    intros u. rewrite I2, F2, uid_covers_cons. cbn [fst snd]. tauto.
Qed.

Lemma complement_spec rs cur u : chain cur rs -> Forall (fun r => r.2 < 2 ^ 32) rs ->
  covers (complement_loop cur rs UID_MAX) u <-> cur <= u <= UID_MAX /\ ~ covers rs u.
Proof.
  intros Hc Hb. change (2 ^ 32) with 4294967296 in *. unfold UID_MAX. change (2 ^ 32 - 2) with 4294967294.
  revert cur Hc. induction rs as [|[a b] rs IH]; intros cur Hc; cbn [complement_loop chain] in *.
  - case_if; reflect_bools; rewrite ?covers_one, ?covers_empty; cbn [fst snd]; lia.
  - apply Forall_cons in Hb as [Hb1 Hb2]. cbn [fst snd] in *. destruct Hc as [H1 H2].
    rewrite uid_covers_app, uid_covers_cons. cbn [fst snd].
    assert (Hcase : covers (if cur <? a then [(cur, a - 1)] else []) u <-> cur <= u < a).
    { case_if; reflect_bools; rewrite ?covers_one, ?covers_empty; cbn [fst snd]; lia. }
    assert (Hrest : forall v, covers rs v -> b < v) by (intros v Hv; apply (chain_covers _ _ _ H2) in Hv; lia).
    rewrite Hcase. unfold saturating_succ. change (2 ^ 32 - 1) with 4294967295. destruct (decide (b = 4294967295)) as [->|Hne].
    + assert (rs = []) as ->.
      { destruct rs as [|r rs]; [done|]. cbn [chain] in H2. apply Forall_cons in Hb2 as [? _]. lia. }
      pose proof (uid_covers_nil u). cbn [complement_loop]. change (4294967295 <=? 4294967294) with false. replace (Z.min (4294967295 + 1) 4294967295) with 4294967295 by reflexivity. cbv iota. change (4294967295 <=? 4294967294) with false. cbv iota. split.
      * intros [?|?]; [split; [lia|intros [?|?]; [lia|done]]|done].
      * intros [? Hn]. left. assert (~ (a <= u <= 4294967295)) by (intros ?; apply Hn; by left). lia.
    + replace (Z.min (b + 1) 4294967295) with (b + 1) by lia.
      pose proof (IH Hb2 (b + 1) H2) as IH'. split; [rewrite IH'|rewrite IH'].
      * intros [?|[? ?]]; [|split; [lia|intros [?|?]; [lia|done]]].
        split; [lia|]. intros [?|Hv]; [lia|]. apply Hrest in Hv. lia.
      * intros [? Hn]. destruct (decide (u < a)); [left; lia|]. right. split; [|intros ?; apply Hn; by right].
        assert (~ (a <= u <= b)) by (intros ?; apply Hn; by left). lia.
Qed.

(** ** Sorting and merging *)

Lemma dedup_uids_elem l u : u ∈ dedup_uids l <-> u ∈ l.
Proof.
  induction l as [|a l IH]; [done|]. cbn [dedup_uids]. destruct l as [|b l]; [done|].
  destruct (Z.eqb_spec a b) as [->|Hne]; rewrite ?elem_of_cons, IH, ?elem_of_cons; tauto.
Qed.

Lemma dedup_uids_chain l lo : StronglySorted Z.le l -> Forall (Z.le lo) l -> chain lo (map (fun u => (u, u)) (dedup_uids l)).
Proof.
  intros Hs. revert lo. induction Hs as [|a l Hs IH Ha]; intros lo Hlo; [done|]. apply Forall_cons in Hlo as [H1 H2].
  cbn [dedup_uids]. destruct l as [|b l]; [cbn; lia|]. apply Forall_cons in Ha as [Hab Ha].
  destruct (Z.eqb_spec a b) as [->|Hne]; [by apply IH|]. cbn [map chain fst snd]. split; [lia|]. apply IH.
  apply Forall_cons. split; [lia|]. inversion Hs; subst. eapply Forall_impl; [eassumption|]. intros x Hx. lia.
Qed.

Lemma singles_cover l u : covers (map (fun u => (u, u)) l) u <-> u ∈ l.
Proof.
  induction l as [|a l IH]; cbn [map]; [pose proof (uid_covers_nil u); rewrite elem_of_nil; tauto|].
  rewrite uid_covers_cons, IH, elem_of_cons. cbn [fst snd]. split; (intros [H|H]; [left; lia|by right]).
Qed.

Lemma to_sorted_ranges_spec l lo : Forall (Z.le lo) l ->
  chain lo (to_sorted_ranges l) /\ forall u, covers (to_sorted_ranges l) u <-> u ∈ l.
Proof.
  intros Hl. unfold to_sorted_ranges. split.
  - apply dedup_uids_chain; [apply StronglySorted_merge_sort; apply _|]. by rewrite merge_sort_Permutation.
  - intros u. by rewrite singles_cover, dedup_uids_elem, merge_sort_Permutation.
Qed.

#[export] Instance range_le_total : Total range_le.
Proof. intros x y. unfold range_le. lia. Qed.
#[export] Instance range_le_trans : Transitive range_le.
Proof. intros x y z. unfold range_le. lia. Qed.

(** Merged ranges are in order and never touch. *)
Fixpoint apart (rs : list range) : Prop :=
  match rs with
  | [] => True
  | r :: rs' => r.1 <= r.2 /\ match rs' with r' :: _ => r.2 + 1 < r'.1 | [] => True end /\ apart rs'
  end.

Lemma merge_tail_first last rs : exists r rest, merge_tail last rs = r :: rest /\ r.1 = last.1.
Proof.
  revert last. induction rs as [|[a b] rs IH]; intros last; cbn [merge_tail]; [by exists last, []|].
  case_if; [apply (IH (last.1, Z.max last.2 b))|by eexists _, _].
Qed.

Lemma merge_tail_spec rs last : StronglySorted range_le (last :: rs) -> last.1 <= last.2 ->
  Forall (fun r => r.1 <= r.2 /\ r.2 < 2 ^ 32) rs -> last.2 < 2 ^ 32 ->
  apart (merge_tail last rs) /\ forall u, covers (merge_tail last rs) u <-> covers (last :: rs) u.
Proof.
  revert last. induction rs as [|[a b] rs IH]; intros last Hs Hl Hr Hb; cbn [merge_tail].
  - split; [by split|done].
  - apply Forall_cons in Hr as [[Hr1 Hr2] Hr]. cbn [fst snd] in *. inversion Hs as [|? ? Hs1 Hle]; subst.
    apply Forall_cons in Hle as [Hla Hle]. inversion Hs1 as [|? ? Hs2 Hle2]; subst. unfold range_le in Hla. cbn [fst snd] in Hla.
    unfold saturating_succ. change (2 ^ 32) with 4294967296 in *. destruct (a <=? Z.min (last.2 + 1) (4294967296 - 1)) eqn:E; reflect_bools.
    + destruct (IH (last.1, Z.max last.2 b)) as [I1 I2]; [|cbn; lia|done|cbn; lia|].
      { constructor; [done|]. rewrite Forall_forall in *. intros x Hx. specialize (Hle x Hx). specialize (Hle2 x Hx).
        specialize (Hr x Hx). unfold range_le in *. cbn [fst snd] in *. lia. }
      split; [done|]. intros u. rewrite I2, !uid_covers_cons. cbn [fst snd]. split.
      * intros [H|H]; [|right; by right]. destruct (decide (u <= last.2)); [left; lia|right; left; lia].
      * intros [H|[H|H]]; [left; lia|left; lia|by right].
    + destruct (IH (a, b)) as [I1 I2]; [done|done|done|done|]. split.
      * destruct (merge_tail_first (a, b) rs) as (r & rest & E' & Hr'). rewrite E' in *. cbn [apart fst snd] in *.
        split; [done|]. split; [lia|]. exact I1.
      * intros u. by rewrite uid_covers_cons, I2, !uid_covers_cons.
Qed.

Lemma uid_merge_ranges_spec rs : Forall (fun r => r.1 <= r.2 /\ r.2 < 2 ^ 32) rs ->
  apart (merge_ranges rs) /\ forall u, covers (merge_ranges rs) u <-> covers rs u.
Proof.
  intros Hr. unfold merge_ranges. pose proof (merge_sort_Permutation range_le rs) as Hp.
  assert (Hs : StronglySorted range_le (merge_sort range_le rs)) by (apply StronglySorted_merge_sort; apply _).
  rewrite <-Hp in Hr. destruct (merge_sort range_le rs) as [|r l] eqn:E.
  - split; [done|]. intros u. by apply uid_covers_perm.
  - apply Forall_cons in Hr as [[H1 H2] Hr]. destruct (merge_tail_spec l r Hs H1 Hr H2) as [A B]. split; [done|].
    intros u. rewrite B. by apply uid_covers_perm.
Qed.

(** ** The excluded users *)

Lemma chain_bounds lo rs hi : chain lo rs -> (forall u, covers rs u -> u < hi) -> Forall (fun r => r.1 <= r.2 /\ r.2 < hi) rs.
Proof.
  revert lo. induction rs as [|r rs IH]; intros lo; [constructor|]. cbn [chain]. intros [H1 H2] Hu. constructor.
  - split; [lia|]. apply Hu, uid_covers_cons. left. lia.
  - apply (IH _ H2). intros u H. apply Hu, uid_covers_cons. by right.
Qed.

Lemma complement_bounds rs cur : chain cur rs -> Forall (fun r => r.2 < 2 ^ 32) rs ->
  Forall (fun r => r.1 <= r.2 /\ r.2 < 2 ^ 32) (complement_loop cur rs UID_MAX).
Proof.
  intros Hc Hb. unfold UID_MAX. change (2 ^ 32 - 2) with 4294967294. change (2 ^ 32) with 4294967296 in *.
  revert cur Hc. induction Hb as [|[a b] rs Hb1 Hb IH]; intros cur Hc; cbn [complement_loop chain fst snd] in *.
  - case_if; reflect_bools; constructor; [cbn; lia|constructor].
  - destruct Hc as [H1 H2]. apply Forall_app. split; [case_if; reflect_bools; [constructor; [cbn; lia|]|]; constructor|].
    unfold saturating_succ. change (2 ^ 32 - 1) with 4294967295. destruct (decide (b = 4294967295)) as [->|Hne].
    + apply IH. eapply chain_weaken; [|exact H2]. lia.
    + replace (Z.min (b + 1) 4294967295) with (b + 1) by lia. by apply IH.
Qed.

(** The UID ranges of the routes: for any include and exclude lists of [u32]
    identifiers, a user other than the reserved last one is in an excluded range
    exactly if, with an include list, it is not included or is excluded too, and,
    without one, it is in the exclude list; the ranges are ordered and never touch. *)
Theorem uid_ranges_spec (include exclude : list Z) :
  Forall (in_width 32) include -> Forall (in_width 32) exclude ->
  apart (build_excluded_uid_ranges include exclude) /\
  forall u, 0 <= u <= UID_MAX ->
    covers (build_excluded_uid_ranges include exclude) u <-> (include <> [] /\ u ∉ include) \/ u ∈ exclude.
Proof.
  intros Hi He. unfold build_excluded_uid_ranges.
  assert (Hw : forall l, Forall (in_width 32) l -> Forall (Z.le 0) l /\ forall u, u ∈ l -> u < 2 ^ 32).
  { intros l Hl. split; [eapply Forall_impl; [exact Hl|]; by intros x [? _]|]. intros u Hu. rewrite Forall_forall in Hl. by apply Hl. }
  destruct (Hw _ Hi) as [Hi0 Hi1]. destruct (Hw _ He) as [He0 He1].
  destruct (to_sorted_ranges_spec include 0 Hi0) as [Ci Ri]. destruct (to_sorted_ranges_spec exclude 0 He0) as [Ce Re].
  assert (Be : Forall (fun r => r.1 <= r.2 /\ r.2 < 2 ^ 32) (to_sorted_ranges exclude))
    by (eapply chain_bounds; [exact Ce|]; intros u Hu; by apply He1, Re).
  destruct (bool_decide (include = []) && bool_decide (exclude = [])) eqn:E0.
  { apply andb_true_iff in E0 as [E1 E2]. apply bool_decide_eq_true in E1 as ->. apply bool_decide_eq_true in E2 as ->.
    split; [done|]. intros u _. pose proof (uid_covers_nil u). rewrite elem_of_nil. split; [done|]. intros [[? _]|?]; done. }
  clear E0. case_bool_decide as Hn; cbn [negb].
  - assert (include = []) as Hinc.
    { destruct include as [|x l]; [done|]. assert (covers (to_sorted_ranges (x :: l)) x) as Hx by (apply Ri; by left).
      rewrite Hn in Hx. by apply uid_covers_nil in Hx. }
    destruct (uid_merge_ranges_spec _ Be) as [A B]. split; [done|]. intros u _. rewrite B, Re. split; [by right|]. intros [[? _]|?]; done.
  - assert (include <> []) as Hinc by (intros ->; done).
    destruct (subtract_ranges_spec (to_sorted_ranges exclude) 0 (to_sorted_ranges include)) as [Cs Rs];
      [eapply Forall_impl; [exact Be|]; by intros r [? _]|done|].
    assert (Bs : Forall (fun r => r.2 < 2 ^ 32) (subtract_ranges (to_sorted_ranges include) (to_sorted_ranges exclude))).
    { eapply Forall_impl; [apply (chain_bounds 0 _ (2 ^ 32) Cs)|by intros r [_ ?]]. intros u Hu. apply Rs in Hu as [Hu _]. by apply Hi1, Ri. }
    unfold complement_ranges. destruct (uid_merge_ranges_spec _ (complement_bounds _ 0 Cs Bs)) as [A B]. split; [done|].
    intros u Hu. rewrite B, (complement_spec _ 0 u Cs Bs), Rs, Ri, Re.
    destruct (decide (u ∈ include)), (decide (u ∈ exclude)); tauto.
Qed.

Lemma uid_ranges_spec_witness :
  build_excluded_uid_ranges [1000; 0; 1001; 1000] [1001] = [(1, 999); (1001, UID_MAX)] /\
  (covers (build_excluded_uid_ranges [1000; 0; 1001; 1000] [1001]) 1001 <->
   ([1000; 0; 1001; 1000] <> [] /\ 1001 ∉ [1000; 0; 1001; 1000]) \/ 1001 ∈ [1001]).
Proof.
  split; [vm_compute; reflexivity|].
  apply (uid_ranges_spec [1000; 0; 1001; 1000] [1001]).
  - repeat constructor; unfold in_width; lia.
  - repeat constructor; unfold in_width; lia.
  - unfold UID_MAX; lia.
Defined.
