(* ===== verification/Config.v ===== *)
(** * Config: the checks of [src/config/mod.rs] on a parsed configuration.

    The JSON parser is serde's; what is modelled is what happens around it: the
    comment stripping before it, and [validate] after it, with the durations and
    identifiers it checks.  The iteration order of the [HashMap] of groups is the
    argument [keys] of the cycle search. *)

From S2P Require Import Prelude RustStr Extern Format Trie IpMatch Compiler Loader Matcher MatchSafe CacheFile Inbound QuicCrypto Sniff Router DnsWire DnsTopo FakeIp DnsCache DnsResolver.

Local Open Scope reflex_scope.

(** ** Comments *)

Fixpoint find_line_comment_loop (line : bytes) (i : Z) (in_str : bool) : option Z :=
  match line with
  | [] => None
  | b :: rest =>
      if b =? 34 then find_line_comment_loop rest (i + 1) (negb in_str)
      else if (b =? 92) && in_str then
        match rest with
        | [] => None
        | _ :: rest => find_line_comment_loop rest (i + 2) in_str
        end
      else if (b =? 47) && negb in_str && match rest with b' :: _ => b' =? 47 | [] => false end then Some i
      else find_line_comment_loop rest (i + 1) in_str
  end.

Definition find_line_comment (line : str) : option Z := find_line_comment_loop line 0 false.

Definition strip_line (line : str) : str :=
  let trimmed := trim_start line in
  if starts_with (lit "//") trimmed || starts_with [35] trimmed then []
  else match find_line_comment line with
       | Some pos => take (Z.to_nat pos) line
       | None => line
       end.

Definition strip_comments (s : str) : str := flat_map (fun line => strip_line line ++ [10]) (lines s).

(** ** Durations and identifiers *)

Definition u64_max : Z := 2 ^ 64 - 1.

Fixpoint digit_prefix (s : str) : str * str :=
  match s with
  | [] => ([], [])
  | b :: r => if is_digit b then let '(ds, rest) := digit_prefix r in (b :: ds, rest) else ([], s)
  end.

(** [parse_duration] of outbounds, in seconds; the products wrap in release. *)
Definition parse_duration (s : str) : result Z unit :=
  let s := trim s in
  if len s =? 0 then Err tt
  else
    let '(num, unit) := digit_prefix s in
    if len num =? 0 then Err tt
    else
      value ←! ok_or (parse_uint u64_max num) tt;
      if bool_decide (unit = []) || bool_decide (unit = [115]) then Ok value
      else if bool_decide (unit = [109]) then Ok (as_u64 (value * 60))
      else if bool_decide (unit = [104]) then Ok (as_u64 (as_u64 (value * 60) * 60))
      else if bool_decide (unit = [100]) then Ok (as_u64 (as_u64 (as_u64 (value * 24) * 60) * 60))
      else Err tt.

Definition strip_suffix_char (c : Z) (s : str) : option str :=
  match rev s with
  | b :: r => if b =? c then Some (rev r) else None
  | [] => None
  end.

(** [parse_duration] of providers. *)
Definition provider_parse_duration (s : str) : result Z unit :=
  let s := trim s in
  match strip_suffix_char 104 s with
  | Some h => n ←! ok_or (parse_uint u64_max (trim h)) tt; Ok (as_u64 (n * 3600))
  | None =>
      match strip_suffix_char 109 s with
      | Some m => n ←! ok_or (parse_uint u64_max (trim m)) tt; Ok (as_u64 (n * 60))
      | None =>
          match strip_suffix_char 115 s with
          | Some sec => ok_or (parse_uint u64_max (trim sec)) tt
          | None => Err tt
          end
      end
  end.

Definition validate_uuid (s : str) : result unit unit :=
  if negb (len (List.filter is_hexdigit s) =? 32) then Err tt
  else if contains_char 45 s then
    if bool_decide (map len (split_on 45 s) = [8; 4; 4; 4; 12]) then Ok tt else Err tt
  else Ok tt.

(** ** Configuration data *)

Record ProviderRef : Type := mkProviderRef {
  pr_tags : list str;
  exclude_filter : list str;
  pr_filter : list str
}.

(** [ProviderRef::matches]: the black list first, then the white list. *)
Definition ProviderRef_matches {UL : UnicodeLib} (p : ProviderRef) (name : str) : bool :=
  let name_lower := to_lowercase name in
  if existsb (fun kw => contains (to_lowercase kw) name_lower) (exclude_filter p) then false
  else if bool_decide (pr_filter p = []) then true
  else existsb (fun kw => contains (to_lowercase kw) name_lower) (pr_filter p).

Record SelectorOutboundConfig : Type := mkSelCfg {
  sel_tag : str;
  sel_outbounds : list str;
  sel_providers : option ProviderRef;
  sel_default : option str;
  interrupt_existing_connections : bool
}.

Record UrlTestOutboundConfig : Type := mkUrlCfg {
  ut_tag : str;
  ut_outbounds : list str;
  ut_providers : option ProviderRef;
  ut_url : str;
  ut_interval : str;
  ut_idle_timeout : str;
  ut_tolerance : Z
}.

(** Of the protocols' settings, what the checks read. *)
Inductive OutboundConfig : Type :=
  | OVless (tag uuid : str)
  | OVmess (tag uuid : str)
  | OShadowsocks (tag : str)
  | OHysteria2 (tag : str)
  | OTuic (tag uuid : str)
  | OTrojan (tag : str)
  | ODirect (tag : str)
  | OBlock (tag : str)
  | OSocks (tag : str) (version : option str)
  | OSelector (c : SelectorOutboundConfig)
  | OUrlTest (c : UrlTestOutboundConfig).

Inductive SocksVersion : Type := V5 | V4a | V4_.

(** The version text of a SOCKS outbound; the error carries an unsupported one. *)
Definition parsed_version (version : option str) : result SocksVersion str :=
  let v := match version with Some v => v | None => lit "5" end in
  if bool_decide (v = lit "5") || bool_decide (v = []) then Ok V5
  else if bool_decide (v = lit "4a") then Ok V4a
  else if bool_decide (v = lit "4") then Ok V4_
  else Err v.

Definition ob_tag (o : OutboundConfig) : str :=
  match o with
  | OVless t _ | OVmess t _ | OShadowsocks t | OHysteria2 t | OTuic t _ | OTrojan t | ODirect t | OBlock t | OSocks t _ => t
  | OSelector c => sel_tag c
  | OUrlTest c => ut_tag c
  end.

Definition child_outbounds (o : OutboundConfig) : list str :=
  match o with
  | OSelector c => sel_outbounds c
  | OUrlTest c => ut_outbounds c
  | _ => []
  end.

Definition group_providers (o : OutboundConfig) : option ProviderRef :=
  match o with
  | OSelector c => sel_providers c
  | OUrlTest c => ut_providers c
  | _ => None
  end.

Definition group_default (o : OutboundConfig) : option str :=
  match o with OSelector c => sel_default c | _ => None end.

Definition is_group (o : OutboundConfig) : bool :=
  match o with OSelector _ | OUrlTest _ => true | _ => false end.

Record HealthCheckConfig : Type := mkHealth { hc_interval : str; hc_timeout : str }.

Inductive ProviderConfig : Type :=
  | PRemote (tag update_interval : str) (health_check : option HealthCheckConfig)
  | PLocal (tag : str) (health_check : option HealthCheckConfig).

Definition provider_tag (p : ProviderConfig) : str := match p with PRemote t _ _ | PLocal t _ => t end.

(** Users are pairs of a name and an identifier. *)
Inductive InboundConfig : Type :=
  | ITProxy (tag : str) (listen_port : Z)
  | IRedir (tag : str) (listen_port : Z)
  | IMixed (tag : str) (listen_port : Z)
  | IDns (tag : str) (listen_port : Z)
  | ITun (tag : str)
  | IVless (tag : str) (listen_port : Z) (users : list (str * str))
  | IVmess (tag : str) (listen_port : Z) (users : list (str * str))
  | ITrojan (tag : str) (listen_port : Z) (users : list str)
  | IShadowsocks (tag : str) (listen_port : Z) (password : option str) (users : list str)
  | IHysteria2 (tag : str) (listen_port : Z) (users : list str) (tls_enabled : bool)
  | ITuic (tag : str) (listen_port : Z) (users : list (str * str)).

Definition ib_tag (i : InboundConfig) : str :=
  match i with
  | ITProxy t _ | IRedir t _ | IMixed t _ | IDns t _ | ITun t | IVless t _ _ | IVmess t _ _ | ITrojan t _ _
  | IShadowsocks t _ _ _ | IHysteria2 t _ _ _ | ITuic t _ _ => t
  end.

(** [listen_addr().1] *)
Definition listen_port (i : InboundConfig) : Z :=
  match i with
  | ITProxy _ p | IRedir _ p | IMixed _ p | IDns _ p | IVless _ p _ | IVmess _ p _ | ITrojan _ p _
  | IShadowsocks _ p _ _ | IHysteria2 _ p _ _ | ITuic _ p _ => p
  | ITun _ => 0
  end.

Definition is_tun (i : InboundConfig) : bool := match i with ITun _ => true | _ => false end.

Record DnsConfig : Type := mkDnsConfig {
  dns_servers : list DnsServerConfig;
  dns_rules : list DnsRuleConfig;
  dns_final : str
}.

Record Config : Type := mkConfig {
  providers : list ProviderConfig;
  outbounds : list OutboundConfig;
  inbounds : list InboundConfig;
  route_cfg : RouteConfig;
  dns : DnsConfig
}.

Inductive ConfigError : Type :=
  | DuplicateProvider (tag : str)
  | BadDuration (tag : str)
  | DuplicateOutbound (tag : str)
  | BadUuid (tag : str)
  | EmptyGroup (tag : str)
  | SelfReference (tag : str)
  | UnknownChild (group child : str)
  | UnknownProvider (group provider : str)
  | DefaultNotListed (group default : str)
  | GroupCycle (tag : str)
  | UnknownFinal (tag : str)
  | UnknownRuleOutbound (i : Z) (tag : str)
  | DuplicateRuleSet
  | UndeclaredRuleSet (i : Z) (tag : str)
  | DuplicateInbound (tag : str)
  | PortZero (tag : str)
  | NoUsers (tag : str)
  | TlsRequired (tag : str)
  | UnknownRuleInbound (i : Z) (tag : str)
  | DuplicateDnsServer (tag : str)
  | UnknownDnsFinal (tag : str)
  | UnknownDnsServer (i : Z) (tag : str)
  | UnknownDnsInbound (i : Z) (tag : str).

(** ** The checks *)

Abbreviation tags := (gset (list Z)) (only parsing).

Definition ensure (b : bool) (e : ConfigError) : result unit ConfigError := if b then Ok tt else Err e.
Definition duration_ok (r : result Z unit) (e : ConfigError) : result unit ConfigError :=
  match r with Ok _ => Ok tt | Err _ => Err e end.
Definition uuid_ok (s : str) (e : ConfigError) : result unit ConfigError :=
  match validate_uuid s with Ok _ => Ok tt | Err _ => Err e end.

(** [for x in l { check(x)?; }], with the index. *)
Fixpoint check_each {A} (check : Z -> A -> result unit ConfigError) (i : Z) (l : list A) : result unit ConfigError :=
  match l with
  | [] => Ok tt
  | a :: l => result_bind (check i a) (fun _ => check_each check (i + 1) l)
  end.

(** [for x in l { if !set.insert(tag(x)) { bail!(dup) } check(x)?; }] *)
Fixpoint collect_tags {A} (tag_of : A -> str) (dup : str -> ConfigError) (check : A -> result unit ConfigError) (l : list A)
    (seen : tags) : result tags ConfigError :=
  match l with
  | [] => Ok seen
  | a :: l =>
      if bool_decide (tag_of a ∈ seen) then Err (dup (tag_of a))
      else result_bind (check a) (fun _ => collect_tags tag_of dup check l ({[tag_of a]} ∪ seen))
  end.

Definition check_health (tag : str) (hc : option HealthCheckConfig) : result unit ConfigError :=
  match hc with
  | None => Ok tt
  | Some hc =>
      _ ←! duration_ok (provider_parse_duration (hc_interval hc)) (BadDuration tag);
      duration_ok (provider_parse_duration (hc_timeout hc)) (BadDuration tag)
  end.

Definition check_provider (p : ProviderConfig) : result unit ConfigError :=
  match p with
  | PRemote tag interval hc =>
      _ ←! duration_ok (provider_parse_duration interval) (BadDuration tag); check_health tag hc
  | PLocal tag hc => check_health tag hc
  end.

Definition check_outbound (o : OutboundConfig) : result unit ConfigError :=
  match o with
  | OVless t u | OVmess t u | OTuic t u => uuid_ok u (BadUuid t)
  | _ => Ok tt
  end.

Definition has_providers (o : OutboundConfig) : bool :=
  match group_providers o with Some p => negb (bool_decide (pr_tags p = [])) | None => false end.

Definition validate_outbound_group (o : OutboundConfig) (ob_tags provider_tags : tags) : result unit ConfigError :=
  if negb (is_group o) then Ok tt
  else
    _ ←! ensure (negb (bool_decide (child_outbounds o = [])) || has_providers o) (EmptyGroup (ob_tag o));
    _ ←! check_each (fun _ child =>
           _ ←! ensure (negb (bool_decide (child = ob_tag o))) (SelfReference child);
           ensure (bool_decide (child ∈ ob_tags)) (UnknownChild (ob_tag o) child)) 0 (child_outbounds o);
    _ ←! match group_providers o with
         | Some p => check_each (fun _ t => ensure (bool_decide (t ∈ provider_tags)) (UnknownProvider (ob_tag o) t)) 0 (pr_tags p)
         | None => Ok tt
         end;
    _ ←! match group_default o with
         | Some d => ensure (bool_decide (d ∈ child_outbounds o)) (DefaultNotListed (ob_tag o) d)
         | None => Ok tt
         end;
    match o with
    | OUrlTest c =>
        _ ←! duration_ok (parse_duration (ut_interval c)) (BadDuration (ut_tag c));
        duration_ok (parse_duration (ut_idle_timeout c)) (BadDuration (ut_tag c))
    | _ => Ok tt
    end.

Abbreviation graph := (gmap (list Z) (list (list Z))) (only parsing).

(** [visit]: depth first; [fuel] bounds the depth of the recursion. *)
Fixpoint visit (fuel : nat) (g : graph) (tag : str) (visiting visited : tags) : run (result (tags * tags) str) :=
  match fuel with
  | O => Stuck
  | S fuel =>
      if bool_decide (tag ∈ visited) then Ret (Ok (visiting, visited))
      else if bool_decide (tag ∈ visiting) then Ret (Err tag)
      else
        let fix visit_children (children : list str) (visiting visited : tags) : run (result (tags * tags) str) :=
          match children with
          | [] => Ret (Ok (visiting, visited))
          | child :: children =>
              if bool_decide (is_Some (g !! child)) then
                r ←!! visit fuel g child visiting visited;
                visit_children children r.1 r.2
              else visit_children children visiting visited
          end in
        let children := match g !! tag with Some cs => cs | None => [] end in
        r ←!! visit_children children ({[tag]} ∪ visiting) visited;
        Ret (Ok (r.1 ∖ {[tag]}, {[tag]} ∪ r.2))
  end.

Definition group_graph (obs : list OutboundConfig) : graph :=
  fold_left (fun g o => <[ob_tag o := child_outbounds o]> g) (List.filter is_group obs) ∅.

Fixpoint visit_keys (g : graph) (keys : list str) (visiting visited : tags) : run (result (tags * tags) str) :=
  match keys with
  | [] => Ret (Ok (visiting, visited))
  | k :: keys => r ←!! visit (S (size g)) g k visiting visited; visit_keys g keys r.1 r.2
  end.

Definition validate_outbound_group_cycles (obs : list OutboundConfig) (keys : list str) : run (result unit str) :=
  r ←!! visit_keys (group_graph obs) keys ∅ ∅; Ret (Ok tt).

Definition check_inbound (i : InboundConfig) : result unit ConfigError :=
  _ ←! ensure (negb (listen_port i =? 0) || is_tun i) (PortZero (ib_tag i));
  match i with
  | IVless t _ users | IVmess t _ users | ITuic t _ users => check_each (fun _ u => uuid_ok u.2 (BadUuid t)) 0 users
  | ITrojan t _ users => ensure (negb (bool_decide (users = []))) (NoUsers t)
  | IShadowsocks t _ password users =>
      ensure (bool_decide (is_Some password) || negb (bool_decide (users = []))) (NoUsers t)
  | IHysteria2 t _ users tls =>
      _ ←! ensure (negb (bool_decide (users = []))) (NoUsers t); ensure tls (TlsRequired t)
  | _ => Ok tt
  end.

Definition check_rule_outbound (ob_tags : tags) (i : Z) (r : RouteRuleConfig) : result unit ConfigError :=
  if hijack_dns r || sniff_on r || resolve r then Ok tt
  else ensure (bool_decide (outbound r = lit "dns-out") || bool_decide (outbound r ∈ ob_tags)) (UnknownRuleOutbound i (outbound r)).

(** The checks in the order of [Config::validate]. *)
Definition validate (c : Config) (keys : list str) : run (result unit ConfigError) :=
  provider_tags ←!! Ret (collect_tags provider_tag DuplicateProvider check_provider (providers c) ∅);
  ob_tags ←!! Ret (collect_tags ob_tag DuplicateOutbound check_outbound (outbounds c) ∅);
  _ ←!! Ret (check_each (fun _ o => validate_outbound_group o ob_tags provider_tags) 0 (outbounds c));
  cycles ← validate_outbound_group_cycles (outbounds c) keys;
  _ ←!! Ret (map_err GroupCycle cycles);
  let rc := route_cfg c in
  Ret (
    _ ←! ensure (bool_decide (final rc ∈ ob_tags)) (UnknownFinal (final rc));
    _ ←! check_each (check_rule_outbound ob_tags) 0 (rules_cfg rc);
    let rs_tags : tags := list_to_set (map rs_tag (rule_set rc)) in
    _ ←! ensure (Z.of_nat (size rs_tags) =? len (rule_set rc)) DuplicateRuleSet;
    _ ←! check_each (fun i r => check_each (fun _ t => ensure (bool_decide (t ∈ rs_tags)) (UndeclaredRuleSet i t)) 0 (ruleset r)) 0 (rules_cfg rc);
    in_tags ←! collect_tags ib_tag DuplicateInbound check_inbound (inbounds c) ∅;
    _ ←! check_each (fun i r => check_each (fun _ t => ensure (bool_decide (t ∈ in_tags)) (UnknownRuleInbound i t)) 0 (inbound r)) 0 (rules_cfg rc);
    let d := dns c in
    dns_tags ←! collect_tags tag DuplicateDnsServer (fun _ => Ok tt) (dns_servers d) ∅;
    _ ←! ensure (bool_decide (dns_servers d = []) || bool_decide (dns_final d ∈ dns_tags)) (UnknownDnsFinal (dns_final d));
    check_each (fun i r =>
      _ ←! ensure (bool_decide (dc_server r ∈ dns_tags)) (UnknownDnsServer i (dc_server r));
      check_each (fun _ t => ensure (bool_decide (t ∈ in_tags)) (UnknownDnsInbound i t)) 0 (dc_inbound r)) 0 (dns_rules d)).

(** ** The search finds exactly the cycles *)

Section Cycles.
Context (g : graph).

(** A group refers to another. *)
Definition edge (x y : str) : Prop := exists cs, g !! x = Some cs /\ y ∈ cs /\ is_Some (g !! y).

(** A group from which every chain of references ends. *)
Definition settled (x : str) : Prop := Acc (fun y x => edge x y) x.

Definition acyclic : Prop := forall x, ~ tc edge x x.

Lemma edge_key x y : edge x y -> is_Some (g !! y).
Proof. by intros (cs & _ & _ & H). Qed.

Lemma settled_no_cycle x : settled x -> ~ tc edge x x.
Proof.
  induction 1 as [x _ IH]. intros H. inversion H as [? ? He|? y ? He Ht]; subst; apply (IH _ He).
  - by apply tc_once.
  - eapply tc_r; [exact Ht|exact He].
Qed.

(** What a call leaves: the same path, and a settled set that holds the tag. *)
Definition visit_post (tags_in : list str) (visiting visited : tags) (res : result (tags * tags) str) : Prop :=
  match res with
  | Ok (vg, vd) => vg = visiting /\ visited ⊆ vd /\ (forall t, t ∈ tags_in -> is_Some (g !! t) -> t ∈ vd) /\
      (forall t, t ∈ vd -> settled t)
  | Err t => tc edge t t
  end.

(** [path]: the groups being visited all lead to the tag. *)
Definition path (visiting : tags) (t : str) : Prop := forall v, v ∈ visiting -> is_Some (g !! v) /\ tc edge v t.

Definition room (visiting : tags) : nat := size (dom g ∖ visiting).

Lemma room_shrinks visiting t : is_Some (g !! t) -> t ∉ visiting -> (room ({[t]} ∪ visiting) < room visiting)%nat.
Proof.
  intros Ht Hn. unfold room. apply subset_size. apply elem_of_dom in Ht. set_solver.
Qed.

Lemma visit_spec fuel t visiting visited :
  is_Some (g !! t) -> path visiting t -> (forall v, v ∈ visited -> settled v) -> (room visiting < fuel)%nat ->
  exists res, visit fuel g t visiting visited = Ret res /\ visit_post [t] visiting visited res.
Proof.
  revert t visiting visited. induction fuel as [|fuel IH]; intros t visiting visited Ht Hp Hs Hf; [lia|]. cbn [visit].
  case_bool_decide as Hin.
  { eexists. split; [done|]. split; [done|]. split; [done|]. split; [|done]. intros x Hx _. by apply list_elem_of_singleton in Hx as ->. }
  case_bool_decide as Hcyc; [eexists; split; [done|]; by apply Hp|].
  match goal with |- context [try_bind (?f _ _ _)] => set (visit_children := f) end.
  pose proof (room_shrinks visiting t Ht Hcyc) as Hroom.
  assert (Hch : forall children vd, (forall y, y ∈ children -> is_Some (g !! y) -> edge t y) -> (forall v, v ∈ vd -> settled v) ->
    exists res, visit_children children ({[t]} ∪ visiting) vd = Ret res /\ visit_post children ({[t]} ∪ visiting) vd res).
  { induction children as [|y ys IHc]; intros vd He Hvd; cbn [visit_children].
    - eexists. split; [done|]. split; [done|]. split; [done|]. split; [|done]. intros x Hx. by apply elem_of_nil in Hx.
    - case_bool_decide as Hy.
      + destruct (IH y ({[t]} ∪ visiting) vd) as (res & -> & Hres); [done| |done|lia|].
        { assert (edge t y) as Hty by (apply He; [by left|done]). intros v [->%elem_of_singleton|Hv]%elem_of_union; [split; [done|by apply tc_once]|].
          destruct (Hp v Hv). split; [done|]. by eapply tc_r. }
        destruct res as [[vg1 vd1]|x]; cbn [try_bind mbind run_bind fst snd]; [|eexists; by split].
        destruct Hres as (-> & Hsub & Hy1 & Hset).
        destruct (IHc vd1) as (res & -> & Hres); [intros z Hz; apply He; by right|done|]. exists res. split; [done|].
        destruct res as [[vg2 vd2]|x]; [|done]. destruct Hres as (-> & Hsub2 & Hy2 & Hset2). split; [done|]. split; [set_solver|].
        split; [|done]. intros z [->|Hz]%elem_of_cons Hk; [|by apply Hy2]. apply Hsub2, Hy1; [by left|done].
      + destruct (IHc vd) as (res & -> & Hres); [intros z Hz; apply He; by right|done|]. exists res. split; [done|].
        destruct res as [[vg2 vd2]|x]; [|done]. destruct Hres as (-> & Hsub2 & Hy2 & Hset2). split; [done|]. split; [done|].
        split; [|done]. intros z [->|Hz]%elem_of_cons Hk; [done|]. by apply Hy2. }
  destruct Ht as [cs Hcs]. rewrite Hcs. destruct (Hch cs visited) as (res & -> & Hres); [by intros y Hy Hk; exists cs|done|].
  destruct res as [[vg vd]|x]; cbn [try_bind mbind run_bind fst snd]; [|eexists; by split].
  destruct Hres as (-> & Hsub & Hy & Hset). eexists. split; [reflexivity|]. split; [set_solver|]. split; [set_solver|]. split.
  - intros z Hz _. set_solver.
  - intros z [->%elem_of_singleton|Hz]%elem_of_union; [|by apply Hset]. constructor. intros y (cs' & Hcs' & Hin' & Hk).
    apply Hset, Hy; [|done]. rewrite Hcs in Hcs'. by injection Hcs' as <-.
Qed.

Lemma visit_keys_spec keys visited : Forall (fun k => is_Some (g !! k)) keys -> (forall v, v ∈ visited -> settled v) ->
  exists res, visit_keys g keys ∅ visited = Ret res /\ visit_post keys ∅ visited res.
Proof.
  intros Hk. revert visited. induction Hk as [|k keys Hkey _ IH]; intros visited Hs; cbn [visit_keys].
  - eexists. split; [done|]. split; [done|]. split; [done|]. split; [|done]. intros x Hx. by apply elem_of_nil in Hx.
  - destruct (visit_spec (S (size g)) k ∅ visited) as (res & -> & Hres); [done| |done| |].
    { intros v Hv. by apply elem_of_empty in Hv. }
    { unfold room. rewrite <-size_dom. assert (size (dom g ∖ ∅) ≤ size (dom g))%nat by (apply subseteq_size; set_solver). lia. }
    destruct res as [[vg vd]|x]; cbn [try_bind mbind run_bind fst snd]; [|eexists; by split].
    destruct Hres as (-> & Hsub & Hy & Hset). destruct (IH vd Hset) as (res & -> & Hres). exists res. split; [done|].
    destruct res as [[vg2 vd2]|x]; [|done]. destruct Hres as (-> & Hsub2 & Hy2 & Hset2). split; [done|]. split; [set_solver|].
    split; [|done]. intros z [->|Hz]%elem_of_cons Hz'; [|by apply Hy2]. apply Hsub2, Hy; [by left|done].
Qed.

(** When every group is settled there is no cycle. *)
Lemma all_settled (keys : list str) : (forall k, is_Some (g !! k) -> k ∈ keys) -> (forall t, t ∈ keys -> is_Some (g !! t) -> settled t) -> acyclic.
Proof.
  intros Hk Hs x Hx. assert (is_Some (g !! x)) as Hg.
  { inversion Hx as [? ? (cs & H & _)|? y ? (cs & H & _)]; subst; by exists cs. }
  apply (settled_no_cycle x); [|done]. apply Hs; [by apply Hk|done].
Qed.
End Cycles.

(** Cycle check: in whatever order the groups are visited, the search terminates;
    it accepts exactly the configurations whose groups do not refer to each other in
    a cycle, and the group it blames otherwise lies on a cycle. *)
Lemma cycle_search (obs : list OutboundConfig) (keys : list str) :
  keys ≡ₚ (map_to_list (group_graph obs)).*1 ->
  exists res, validate_outbound_group_cycles obs keys = Ret res /\
    (res = Ok tt <-> acyclic (group_graph obs)) /\
    (forall t, res = Err t -> tc (edge (group_graph obs)) t t).
Proof.
  intros Hkeys. set (g := group_graph obs) in *.
  assert (Hin : forall k, k ∈ keys <-> is_Some (g !! k)).
  { intros k. rewrite Hkeys, list_elem_of_fmap. split.
    - intros ([k' v] & -> & H). apply elem_of_map_to_list in H. by exists v.
    - intros [v H]. exists (k, v). split; [done|]. by apply elem_of_map_to_list. }
  destruct (visit_keys_spec g keys ∅) as (res & E & Hres).
  { apply Forall_forall. intros k Hk. by apply Hin. }
  { intros v Hv. by apply elem_of_empty in Hv. }
  unfold validate_outbound_group_cycles. fold g. rewrite E. destruct res as [[vg vd]|x]; cbn [try_bind mbind run_bind].
  - destruct Hres as (_ & _ & Hy & Hset). eexists. split; [reflexivity|]. split; [|done]. split; [|done]. intros _.
    apply (all_settled g keys); [intros k Hk; by apply Hin|]. intros t Ht Hk. by apply Hset, Hy.
  - eexists. split; [reflexivity|]. split; [|by intros t [= <-]]. split; [done|]. intros Hac. by destruct (Hac x).
Qed.
