(* ===== verification/ConfigSpec.v ===== *)
(** * ConfigSpec: [validate] accepts exactly the well-formed configurations, and a
    router built from an accepted one sends traffic to declared outbounds only. *)

From S2P Require Import Prelude RustStr Extern Format Trie IpMatch Compiler Loader Matcher MatchSafe CacheFile Inbound QuicCrypto Sniff Router RouterSpec DnsWire DnsTopo FakeIp DnsCache DnsResolver Config.

Local Open Scope reflex_scope.

(** ** What the checks decide *)

Lemma ensure_ok b e : ensure b e = Ok tt <-> b = true.
Proof. unfold ensure. by destruct b. Qed.

Lemma then_ok {A E} (m : result unit E) (k : result A E) a : (_ ←! m; k) = Ok a <-> m = Ok tt /\ k = Ok a.
Proof. rewrite result_bind_Ok. split; [by intros ([] & -> & ->)|]. intros [-> ->]. by exists tt. Qed.

Lemma duration_ok_spec r e : duration_ok r e = Ok tt <-> exists d, r = Ok d.
Proof. unfold duration_ok. destruct r; [split; [by eexists|done]|split; [done|by intros [? ?]]]. Qed.

Lemma check_each_ok {A} (check : Z -> A -> result unit ConfigError) (P : A -> Prop) l i :
  (forall j a, check j a = Ok tt <-> P a) -> (check_each check i l = Ok tt <-> Forall P l).
Proof.
  intros HP. revert i. induction l as [|a l IH]; intros i; cbn [check_each]; [by rewrite Forall_nil|].
  by rewrite then_ok, Forall_cons, IH, HP.
Qed.

Lemma collect_tags_ok {A} (tag_of : A -> str) (dup : str -> ConfigError) (check : A -> result unit ConfigError) (l : list A) seen s :
  collect_tags tag_of dup check l seen = Ok s <->
  s = seen ∪ list_to_set (map tag_of l) /\ NoDup (map tag_of l) /\ (forall a, a ∈ l -> tag_of a ∉ seen) /\
  Forall (fun a => check a = Ok tt) l.
Proof.
  revert seen. induction l as [|a l IH]; intros seen; cbn [collect_tags map].
  - cbn. rewrite NoDup_nil, Forall_nil. split.
    + intros [= <-]. split; [set_solver|]. split; [done|]. split; [|done]. intros a Ha. by apply elem_of_nil in Ha.
    + intros (-> & _). f_equal. set_solver.
  - rewrite NoDup_cons, Forall_cons. case_bool_decide as Ha.
    { split; [done|]. intros (_ & _ & Hs & _). by destruct (Hs a); [left|]. }
    rewrite then_ok, IH, list_elem_of_fmap.
    replace (list_to_set (C := gset (list Z)) (map tag_of (a :: l))) with ({[tag_of a]} ∪ list_to_set (C := gset (list Z)) (map tag_of l)) by done.
    split.
    + intros (Hc & -> & Hn & Hd & Hf). split; [set_solver|]. split; [split; [|done]|].
      { intros (b & Hb & Hin). apply (Hd b Hin). set_solver. }
      split; [|done]. intros b [->|Hb]%elem_of_cons; [done|]. specialize (Hd b Hb). set_solver.
    + intros (-> & [Hna Hn] & Hd & Hc & Hf). split; [done|]. split; [set_solver|]. split; [done|]. split; [|done].
      intros b Hb [Hab|Hsn]%elem_of_union; [|by apply (Hd b); [right|]]. apply elem_of_singleton in Hab. apply Hna. by exists b.
Qed.

(** Collected from nothing: distinct tags, each passing its check. *)
Lemma collect_tags_empty {A} (tag_of : A -> str) (dup : str -> ConfigError) (check : A -> result unit ConfigError) (l : list A) s :
  collect_tags tag_of dup check l ∅ = Ok s <->
  s = list_to_set (map tag_of l) /\ NoDup (map tag_of l) /\ Forall (fun a => check a = Ok tt) l.
Proof.
  rewrite collect_tags_ok. split.
  - intros (-> & Hn & _ & Hf). split; [set_solver|done].
  - intros (-> & Hn & Hf). split; [set_solver|]. split; [done|]. split; [|done]. intros a _. apply not_elem_of_empty.
Qed.

Lemma size_list_to_set_NoDup (l : list str) : size (list_to_set l : gset str) = length l <-> NoDup l.
Proof.
  split; [|apply size_list_to_set]. induction l as [|x l IH]; intros H; [constructor|].
  assert (Hle : (size (list_to_set l : gset str) <= length l)%nat).
  { rewrite <-(list_to_set_elements_L (list_to_set l)), size_list_to_set by apply NoDup_elements.
    apply submseteq_length, NoDup_submseteq; [apply NoDup_elements|]. intros y. by rewrite elem_of_elements, elem_of_list_to_set. }
  change (list_to_set (x :: l) : gset str) with ({[x]} ∪ list_to_set l : gset str) in H. cbn [length] in H.
  destruct (decide (x ∈ l)) as [Hx|Hx].
  - assert (E : ({[x]} ∪ list_to_set l : gset str) = list_to_set l) by set_solver. rewrite E in H. lia.
  - rewrite size_union, size_singleton in H by set_solver. constructor; [done|]. apply IH. lia.
Qed.

(** ** Well-formed configurations *)

(** A group has something to choose from, and all it names is declared. *)
Record group_ok (obs provs : list str) (o : OutboundConfig) : Prop := {
  group_inhabited : child_outbounds o <> [] \/ has_providers o = true;
  group_children : forall child, child ∈ child_outbounds o -> child <> ob_tag o /\ child ∈ obs;
  group_sources : forall p t, group_providers o = Some p -> t ∈ pr_tags p -> t ∈ provs;
  group_initial : forall d, group_default o = Some d -> d ∈ child_outbounds o;
  group_times : forall u, o = OUrlTest u -> (exists n, parse_duration (ut_interval u) = Ok n) /\ (exists n, parse_duration (ut_idle_timeout u) = Ok n)
}.

(** A rule that ends the routing names an outbound; all a rule names is declared. *)
Record rule_ok (obs rsets inbs : list str) (r : RouteRuleConfig) : Prop := {
  rule_target : hijack_dns r || sniff_on r || resolve r = true \/ outbound r = lit "dns-out" \/ outbound r ∈ obs;
  rule_sets : forall t, t ∈ ruleset r -> t ∈ rsets;
  rule_inbounds : forall t, t ∈ inbound r -> t ∈ inbs
}.

Record config_ok (c : Config) : Prop := {
  ok_providers : NoDup (map provider_tag (providers c)) /\ Forall (fun p => check_provider p = Ok tt) (providers c);
  ok_outbounds : NoDup (map ob_tag (outbounds c)) /\ Forall (fun o => check_outbound o = Ok tt) (outbounds c);
  ok_groups : Forall (fun o => is_group o = true -> group_ok (map ob_tag (outbounds c)) (map provider_tag (providers c)) o) (outbounds c);
  ok_acyclic : acyclic (group_graph (outbounds c));
  ok_final : final (route_cfg c) ∈ map ob_tag (outbounds c);
  ok_rulesets : NoDup (map rs_tag (rule_set (route_cfg c)));
  ok_rules : Forall (rule_ok (map ob_tag (outbounds c)) (map rs_tag (rule_set (route_cfg c))) (map ib_tag (inbounds c))) (rules_cfg (route_cfg c));
  ok_inbounds : NoDup (map ib_tag (inbounds c)) /\ Forall (fun i => check_inbound i = Ok tt) (inbounds c);
  ok_dns : NoDup (map tag (dns_servers (dns c))) /\
    (dns_servers (dns c) = [] \/ dns_final (dns c) ∈ map tag (dns_servers (dns c))) /\
    Forall (fun r => dc_server r ∈ map tag (dns_servers (dns c)) /\ Forall (fun t => t ∈ map ib_tag (inbounds c)) (dc_inbound r))
      (dns_rules (dns c))
}.

Lemma ensure_in (t : str) (l : list str) e : ensure (bool_decide (t ∈ (list_to_set l : gset str))) e = Ok tt <-> t ∈ l.
Proof. by rewrite ensure_ok, bool_decide_eq_true, elem_of_list_to_set. Qed.

Lemma Forall_in {A} (P : A -> Prop) l : Forall P l <-> forall a, a ∈ l -> P a.
Proof. by rewrite Forall_forall. Qed.

Lemma validate_group_ok (o : OutboundConfig) (obs provs : list str) :
  validate_outbound_group o (list_to_set obs) (list_to_set provs) = Ok tt <-> (is_group o = true -> group_ok obs provs o).
Proof.
  unfold validate_outbound_group. destruct (is_group o) eqn:Eg; [|by split].
  cbn [negb]. rewrite !then_ok, ensure_ok, orb_true_iff, negb_true_iff, bool_decide_eq_false.
  rewrite (check_each_ok _ (fun child => child <> ob_tag o /\ child ∈ obs)).
  2: { intros _ child. by rewrite then_ok, ensure_ok, negb_true_iff, bool_decide_eq_false, ensure_in. }
  assert (Hp : (match group_providers o with
     | Some p => check_each (fun _ t => ensure (bool_decide (t ∈ (list_to_set provs : gset str))) (UnknownProvider (ob_tag o) t)) 0 (pr_tags p)
     | None => Ok tt end = Ok tt) <-> (forall p t, group_providers o = Some p -> t ∈ pr_tags p -> t ∈ provs)).
  { destruct (group_providers o) as [p|]; [|by split]. rewrite (check_each_ok _ (fun t => t ∈ provs)) by (intros _ t; apply ensure_in).
    rewrite Forall_in. split; [by intros H ? t [= <-] Ht; apply H|]. intros H t. by apply H. }
  assert (Hd : (match group_default o with
     | Some d => ensure (bool_decide (d ∈ child_outbounds o)) (DefaultNotListed (ob_tag o) d) | None => Ok tt end = Ok tt)
     <-> (forall d, group_default o = Some d -> d ∈ child_outbounds o)).
  { destruct (group_default o) as [d|]; [|by split]. rewrite ensure_ok, bool_decide_eq_true. split; [by intros H ? [= <-]|]. intros H. by apply H. }
  rewrite Hp, Hd, Forall_in. split.
  - intros (H1 & H2 & H3 & H4 & H5) _. split; [done..|]. intros u ->. by rewrite then_ok, !duration_ok_spec in H5.
  - intros H. destruct (H eq_refl) as [H1 H2 H3 H4 H5]. repeat (split; [done|]). destruct o; try done.
    rewrite then_ok, !duration_ok_spec. by apply H5.
Qed.

Lemma check_rule_ok (obs : list str) i r : check_rule_outbound (list_to_set obs) i r = Ok tt <->
  hijack_dns r || sniff_on r || resolve r = true \/ outbound r = lit "dns-out" \/ outbound r ∈ obs.
Proof.
  unfold check_rule_outbound. destruct (hijack_dns r || sniff_on r || resolve r); [split; [by left|done]|].
  rewrite ensure_ok, orb_true_iff, !bool_decide_eq_true, elem_of_list_to_set. naive_solver.
Qed.

Lemma try_Ret {A E} (m : result A E) : Ret m = try_bind (Ret m) (fun a => Ret (Ok a)).
Proof. by destruct m. Qed.

(** One check of the sequence, with what follows it. *)
Lemma try_unit_ok {E} (m : result unit E) (k : unit -> run (result unit E)) (P Q : Prop) :
  (m = Ok tt <-> P) -> (exists res, k tt = Ret res /\ (res = Ok tt <-> Q)) ->
  exists res, try_bind (Ret m) k = Ret res /\ (res = Ok tt <-> P /\ Q).
Proof.
  intros HP (res & Hk & HQ). destruct m as [[]|e]; unfold try_bind; rewrite bind_Ret.
  - exists res. split; [done|]. rewrite HQ. split; [|by intros [_ ?]]. intros H. split; [by apply HP|done].
  - exists (Err e). split; [done|]. split; [done|]. intros [H _]. by apply HP in H.
Qed.

(** A set of tags collected, with what follows it. *)
Lemma try_collect_ok {A} (tag_of : A -> str) (dup : str -> ConfigError) (check : A -> result unit ConfigError) (l : list A) (k : gset str -> run (result unit ConfigError)) (Q : Prop) :
  (exists res, k (list_to_set (map tag_of l)) = Ret res /\ (res = Ok tt <-> Q)) ->
  exists res, try_bind (Ret (collect_tags tag_of dup check l ∅)) k = Ret res /\
    (res = Ok tt <-> (NoDup (map tag_of l) /\ Forall (fun a => check a = Ok tt) l) /\ Q).
Proof.
  intros (res & Hk & HQ). destruct (collect_tags tag_of dup check l ∅) as [s|e] eqn:E; unfold try_bind; rewrite bind_Ret.
  - apply collect_tags_empty in E as (-> & H). exists res. split; [done|]. rewrite HQ. split; [done|]. by intros [_ ?].
  - exists (Err e). split; [done|]. split; [done|]. intros [H _].
    assert (collect_tags tag_of dup check l ∅ = Ok (list_to_set (map tag_of l))) by (by apply collect_tags_empty). congruence.
Qed.

Lemma then_unit_iff {E} (m : result unit E) (k : result unit E) (P Q : Prop) :
  (m = Ok tt <-> P) -> (k = Ok tt <-> Q) -> ((_ ←! m; k) = Ok tt <-> P /\ Q).
Proof. intros HP HQ. by rewrite then_ok, HP, HQ. Qed.

Lemma then_collect_iff {A} (tag_of : A -> str) (dup : str -> ConfigError) (check : A -> result unit ConfigError) (l : list A) (k : gset str -> result unit ConfigError) (Q : Prop) :
  (k (list_to_set (map tag_of l)) = Ok tt <-> Q) ->
  (result_bind (collect_tags tag_of dup check l ∅) k = Ok tt <-> (NoDup (map tag_of l) /\ Forall (fun a => check a = Ok tt) l) /\ Q).
Proof.
  intros HQ. rewrite result_bind_Ok. setoid_rewrite collect_tags_empty. rewrite <-HQ. split; [by intros (s & (-> & H) & Hk)|].
  intros [H Hk]. eexists. split; [by split|done].
Qed.

Section Validate.
Context (c : Config).

(** The last part of [validate], once the groups are checked. *)
Lemma validate_routes (ob_tags := list_to_set (map ob_tag (outbounds c)) : gset str) (rc := route_cfg c) (d := dns c) :
  (_ ←! ensure (bool_decide (final rc ∈ ob_tags)) (UnknownFinal (final rc));
   _ ←! check_each (check_rule_outbound ob_tags) 0 (rules_cfg rc);
   let rs_tags : gset str := list_to_set (map rs_tag (rule_set rc)) in
   _ ←! ensure (Z.of_nat (size rs_tags) =? len (rule_set rc)) DuplicateRuleSet;
   _ ←! check_each (fun i r => check_each (fun _ t => ensure (bool_decide (t ∈ rs_tags)) (UndeclaredRuleSet i t)) 0 (ruleset r)) 0 (rules_cfg rc);
   in_tags ←! collect_tags ib_tag DuplicateInbound check_inbound (inbounds c) ∅;
   _ ←! check_each (fun i r => check_each (fun _ t => ensure (bool_decide (t ∈ in_tags)) (UnknownRuleInbound i t)) 0 (inbound r)) 0 (rules_cfg rc);
   dns_tags ←! collect_tags tag DuplicateDnsServer (fun _ => Ok tt) (dns_servers d) ∅;
   _ ←! ensure (bool_decide (dns_servers d = []) || bool_decide (dns_final d ∈ dns_tags)) (UnknownDnsFinal (dns_final d));
   check_each (fun i r =>
     _ ←! ensure (bool_decide (dc_server r ∈ dns_tags)) (UnknownDnsServer i (dc_server r));
     check_each (fun _ t => ensure (bool_decide (t ∈ in_tags)) (UnknownDnsInbound i t)) 0 (dc_inbound r)) 0 (dns_rules d)) = Ok tt <->
  final rc ∈ map ob_tag (outbounds c) /\
  Forall (fun r => hijack_dns r || sniff_on r || resolve r = true \/ outbound r = lit "dns-out" \/ outbound r ∈ map ob_tag (outbounds c)) (rules_cfg rc) /\
  NoDup (map rs_tag (rule_set rc)) /\
  Forall (fun r => Forall (fun t => t ∈ map rs_tag (rule_set rc)) (ruleset r)) (rules_cfg rc) /\
  (NoDup (map ib_tag (inbounds c)) /\ Forall (fun i => check_inbound i = Ok tt) (inbounds c)) /\
  Forall (fun r => Forall (fun t => t ∈ map ib_tag (inbounds c)) (inbound r)) (rules_cfg rc) /\
  (NoDup (map tag (dns_servers d)) /\ Forall (fun _ => Ok (E := ConfigError) tt = Ok tt) (dns_servers d)) /\
  (dns_servers d = [] \/ dns_final d ∈ map tag (dns_servers d)) /\
  Forall (fun r => dc_server r ∈ map tag (dns_servers d) /\ Forall (fun t => t ∈ map ib_tag (inbounds c)) (dc_inbound r)) (dns_rules d).
Proof.
  apply then_unit_iff; [apply ensure_in|].
  apply then_unit_iff; [apply check_each_ok; intros; apply check_rule_ok|]. cbv zeta.
  apply then_unit_iff.
  { rewrite ensure_ok, Z.eqb_eq, <-size_list_to_set_NoDup. unfold len. rewrite length_map. lia. }
  apply then_unit_iff; [apply check_each_ok; intros; apply check_each_ok; intros; apply ensure_in|].
  apply then_collect_iff.
  apply then_unit_iff; [apply check_each_ok; intros; apply check_each_ok; intros; apply ensure_in|].
  apply then_collect_iff. apply then_unit_iff.
  { by rewrite ensure_ok, orb_true_iff, !bool_decide_eq_true, elem_of_list_to_set. }
  apply check_each_ok. intros j r. apply then_unit_iff; [apply ensure_in|]. apply check_each_ok. intros; apply ensure_in.
Qed.

(** In whatever order the groups are visited,
    [validate] terminates, and it accepts exactly the configurations whose tags are
    distinct, whose references are declared, whose groups are inhabited and free of
    cycles, and whose durations, identifiers and ports are valid. *)
Lemma checks_decide (keys : list str) : keys ≡ₚ (map_to_list (group_graph (outbounds c))).*1 ->
  exists res, validate c keys = Ret res /\ (res = Ok tt <-> config_ok c).
Proof.
  intros Hkeys. destruct (cycle_search (outbounds c) keys Hkeys) as (cyc & Ecyc & Hcyc & _).
  eassert (H : exists res, validate c keys = Ret res /\ (res = Ok tt <-> _)).
  { apply try_collect_ok, try_collect_ok, try_unit_ok.
    { apply check_each_ok. intros _ o. apply validate_group_ok. }
    rewrite Ecyc, bind_Ret. apply try_unit_ok; [|eexists; split; [reflexivity|apply validate_routes]].
    transitivity (cyc = Ok tt); [by destruct cyc as [[]|]|exact Hcyc]. }
  destruct H as (res & E & H). exists res. split; [exact E|]. rewrite H. clear. split.
  - intros ([Hp1 Hp2] & [Ho1 Ho2] & Hg & Hc & Hf & Hr & Hs & Hrs & Hi & Hri & [Hd _] & Hdf & Hdr). split; try done.
    apply Forall_forall. intros r Hin. rewrite Forall_forall in Hr, Hrs, Hri.
    split; [by apply Hr|by apply Forall_in, Hrs|by apply Forall_in, Hri].
  - intros [Hp Ho Hg Hc Hf Hs Hr Hi (Hd & Hdf & Hdr)]. do 5 (split; [done|]). split; [|split; [done|split; [|split; [done|split]]]].
    + eapply Forall_impl; [exact Hr|]. by intros r [? _ _].
    + eapply Forall_impl; [exact Hr|]. intros r [_ H _]. by apply Forall_in.
    + eapply Forall_impl; [exact Hr|]. intros r [_ _ H]. by apply Forall_in.
    + split; [|done]. split; [done|]. by apply Forall_forall.
Qed.
End Validate.

(** ** The checks, and the router *)



Section Declared.
Context {FST : FstLib} {RX : RegexLib} {IO : HostIO} {UL : UnicodeLib}.

(** Where a decision sends the traffic: the DNS module or a declared outbound. *)
Definition delivered (obs : list str) (a : RouteAction) : Prop := a = DnsOut \/ exists t, a = Outbound t /\ t ∈ obs.

Definition delivered_or_jumps (obs : list str) (a : RouteAction) : Prop :=
  is_sniff a || is_resolve a = true \/ delivered obs a.

Lemma to_action_delivered obs t : t = lit "dns-out" \/ t ∈ obs -> delivered obs (to_action t).
Proof. unfold to_action. case_decide as H; [by left|]. intros [?|Ht]; [done|]. right. by exists t. Qed.

Lemma rule_action_delivered obs rsets inbs r : rule_ok obs rsets inbs r -> delivered_or_jumps obs (rule_action r).
Proof.
  intros [H _ _]. unfold rule_action. destruct (sniff_on r); [by left|]. destruct (resolve r); [by left|].
  destruct (hijack_dns r); [right; by left|]. right. apply to_action_delivered. by destruct H.
Qed.

Lemma compile_rules_actions rs rss cs : compile_rules rs rss = Ret (Ok cs) -> map cr_action cs = map rule_action rs.
Proof.
  revert cs. induction rs as [|r rs IH]; intros cs H; cbn [compile_rules] in H; [by simplify_eq|].
  unfold try_bind in H. apply bind_Ret_inv in H as ([c|] & Ec & H); [|done].
  apply bind_Ret_inv in H as ([cs'|] & E & H); [|done]. simplify_eq. cbn [map]. f_equal; [|by apply IH].
  unfold CompiledRule_compile, try_bind in Ec. apply bind_Ret_inv in Ec as ([?|] & _ & Ec); [|done].
  apply bind_Ret_inv in Ec as ([?|] & _ & Ec); [|done]. apply bind_Ret_inv in Ec as ([?|] & _ & Ec); [|done]. by simplify_eq.
Qed.

Lemma from_config_actions s s' config cr fault r : Router_from_config s config cr fault = Ret (Ok r, s') ->
  map cr_action (rt_rules r) = map rule_action (rules_cfg config) /\ default r = to_action (final config).
Proof.
  intros H. unfold Router_from_config in H. apply bind_Ret_inv in H as ([loaded s1] & _ & H).
  destruct loaded as [[rss metas]|]; [|done]. destruct (check_hijack _ _); [|done].
  apply bind_Ret_inv in H as (res & Ec & H). destruct res as [rules|]; [|done]. simplify_eq. split; [|done].
  by eapply compile_rules_actions.
Qed.

(** Every rule of a router built from a well-formed configuration. *)
Lemma built_delivered c s s' cr fault r : config_ok c -> Router_from_config s (route_cfg c) cr fault = Ret (Ok r, s') ->
  Forall (fun rule => delivered_or_jumps (map ob_tag (outbounds c)) (cr_action rule)) (rt_rules r) /\
  delivered (map ob_tag (outbounds c)) (default r).
Proof.
  intros Hc H. apply from_config_actions in H as [Hr ->]. split; [|apply to_action_delivered; right; apply Hc].
  change (Forall (delivered_or_jumps (map ob_tag (outbounds c)) ∘ cr_action) (rt_rules r)). rewrite <-Forall_fmap.
  change (cr_action <$> rt_rules r) with (map cr_action (rt_rules r)). rewrite Hr. apply Forall_fmap.
  eapply Forall_impl; [apply (ok_rules c Hc)|]. intros rule. apply rule_action_delivered.
Qed.

(** Traffic goes where the configuration allows: for a router built from an
    accepted configuration, every first decision is a sniff, a resolve, the DNS
    module or a declared outbound; after resolving only the last two are left. *)
Theorem accepted_config_routes (c : Config) (keys : list str) (s s' : io) (cr : option CacheFileReader) (fault : str -> bool)
    (r : Router) (conn : InboundTcpStream) (pkt : InboundUdpPacket) (t : Target) (obs := map ob_tag (outbounds c)) :
  keys ≡ₚ (map_to_list (group_graph (outbounds c))).*1 -> validate c keys = Ret (Ok tt) ->
  Router_from_config s (route_cfg c) cr fault = Ret (Ok r, s') -> Forall rule_wf (rt_rules r) ->
  target_port_ok t -> target_port_ok (t_target conn) -> target_port_ok (u_target pkt) ->
  (exists res, route_tcp r conn = Ret res /\ delivered_or_jumps obs res.1.1) /\
  (exists res, route_udp r pkt = Ret res /\ delivered_or_jumps obs res.1.1) /\
  (exists res, route_tcp_after_resolve r conn t = Ret res /\ delivered obs res.1.1) /\
  (exists res, route_udp_after_resolve r pkt t = Ret res /\ delivered obs res.1.1).
Proof.
  intros Hk Hv Hr Hw Ht Htc Hu. assert (Hok : config_ok c).
  { destruct (checks_decide c keys Hk) as (res & E & H). apply H. congruence. }
  destruct (built_delivered c s s' cr fault r Hok Hr) as [Hrules Hdef]. fold obs in Hrules, Hdef.
  assert (Hfirst : forall tag nk u sniffed, target_port_ok u ->
    exists res, route r tag nk u sniffed = Ret res /\ delivered_or_jumps obs res.1.1).
  { intros tag nk u sniffed Hp. destruct (route_rules_spec (rt_rules r) (default r) tag nk u sniffed Hw Hp) as (res & E & Hm).
    exists res. split; [done|]. apply (first_match_action _ _ _ _ _ _ _ (delivered_or_jumps obs) Hm); [done|by right]. }
  assert (Hlast : forall tag nk u sniffed, target_port_ok u ->
    exists res, route_indexed r (idx_no_sniff_resolve r) tag nk u sniffed = Ret res /\ delivered obs res.1.1).
  { intros tag nk u sniffed Hp. destruct (after_resolve_spec r tag nk u sniffed) as (res & E & Hs & Hres & Hm);
      [by eapply from_config_built|done|done|]. exists res. split; [done|].
    destruct (first_match_action _ _ _ _ _ _ _ (delivered_or_jumps obs) Hm) as [Hj|]; [by apply Forall_filter_keep|by right| |done].
    by rewrite Hs, Hres in Hj. }
  split; [by apply Hfirst|]. split; [by apply Hfirst|]. split; by apply Hlast.
Qed.
End Declared.

(** ** Witnesses *)

#[local] Existing Instance ToyFst.
#[local] Existing Instance ToyRegex.
#[local] Existing Instance ToyHost.
#[local] Existing Instance ToyUnicode.

Definition sample_outbounds : list OutboundConfig :=
  [ODirect (lit "cn"); OVless (lit "proxy") (lit "a3482e88-686a-4a58-8126-99c9df64b7bf");
   OSelector (mkSelCfg (lit "auto") [lit "proxy"; lit "cn"] None (Some (lit "cn")) false)].

Definition sample_full : Config :=
  mkConfig [PRemote (lit "sub") (lit "12h") None] sample_outbounds [IMixed (lit "in") 7890] sample_config
    (mkDnsConfig [mkServer (lit "d") None] [] (lit "d")).

Lemma sample_keys : [lit "auto"] ≡ₚ (map_to_list (group_graph (outbounds sample_full))).*1.
Proof. apply (bool_decide_unpack _). vm_compute. exact I. Qed.

Lemma sample_accepted : validate sample_full [lit "auto"] = Ret (Ok tt).
Proof. vm_compute. reflexivity. Qed.


Lemma accepted_config_routes_witness :
  let conn := sample_conn (TDomain (lit "a.cn") 85) in let pkt := sample_pkt (TDomain (lit "b.org") 85) in
  let obs := map ob_tag (outbounds sample_full) in
  (exists res, route_tcp get_router conn = Ret res /\ delivered_or_jumps obs res.1.1) /\
  (exists res, route_udp_after_resolve get_router pkt (TDomain (lit "c.org") 443) = Ret res /\ delivered obs res.1.1).
Proof.
  cbv zeta. destruct (accepted_config_routes (IO := ToyHost) sample_full [lit "auto"] (sample_world, None) (sample_world, None) None (fun _ => false)
    get_router (sample_conn (TDomain (lit "a.cn") 85)) (sample_pkt (TDomain (lit "b.org") 85)) (TDomain (lit "c.org") 443))
    as (H1 & _ & _ & H4);
    [apply sample_keys|apply sample_accepted|apply sample_router_ok|apply sample_rules_wf|vm_compute; done|vm_compute; done|vm_compute; done|].
  split; [exact H1|exact H4].
Defined.
