(* ===== verification/Provider.v ===== *)
(** * Provider: the node manager of [src/provider/mod.rs].

    Each provider's nodes get names that are unique among all providers.  The
    [watch] channels only wake the groups that subscribed; an update reports the
    provider whose channel is notified. *)

From S2P Require Import Prelude RustStr Extern Format Trie IpMatch Compiler Loader Matcher MatchSafe CacheFile Inbound QuicCrypto Sniff Router DnsWire DnsTopo FakeIp DnsCache DnsResolver Config.

Local Open Scope reflex_scope.

Definition ProviderNodes : Type := list (str * OutboundConfig).

(** [senders] are the providers that have a channel. *)
Record ProviderManager : Type := mkPm {
  nodes : gmap (list Z) ProviderNodes;
  global_tags : gset (list Z);
  senders : gset (list Z)
}.

Definition ProviderManager_new (configs : list ProviderConfig) : ProviderManager :=
  mkPm ∅ ∅ (list_to_set (map provider_tag configs)).

Definition subscribe (m : ProviderManager) (tag : str) : bool := bool_decide (tag ∈ senders m).

(** [format!("{name}_{i}")] *)
Definition candidate (name : str) (i : Z) : str := name ++ 95 :: show_uint i.

(** The loop over the suffixes; [i] is a [u32]. *)
Fixpoint suffix_search (fuel : nat) (name : str) (i : Z) (global : gset (list Z)) : run str :=
  match fuel with
  | O => Stuck
  | S fuel =>
      if negb (bool_decide (candidate name i ∈ global)) then Ret (candidate name i)
      else suffix_search fuel name (as_u32 (i + 1)) global
  end.

(** The tag and the set that holds it. *)
Definition alloc_unique_tag (name : str) (global : gset (list Z)) : run (str * gset (list Z)) :=
  if negb (bool_decide (name ∈ global)) then Ret (name, {[name]} ∪ global)
  else c ← suffix_search (S (size global)) name 1 global; Ret (c, {[c]} ∪ global).

Definition set_outbound_tag (o : OutboundConfig) (t : str) : OutboundConfig :=
  match o with
  | OVless _ u => OVless t u
  | OVmess _ u => OVmess t u
  | OShadowsocks _ => OShadowsocks t
  | OHysteria2 _ => OHysteria2 t
  | OTuic _ u => OTuic t u
  | OTrojan _ => OTrojan t
  | ODirect _ => ODirect t
  | OBlock _ => OBlock t
  | OSocks _ v => OSocks t v
  | OSelector c => OSelector (mkSelCfg t (sel_outbounds c) (sel_providers c) (sel_default c) (interrupt_existing_connections c))
  | OUrlTest c => OUrlTest (mkUrlCfg t (ut_outbounds c) (ut_providers c) (ut_url c) (ut_interval c) (ut_idle_timeout c) (ut_tolerance c))
  end.

(** The loop over the new nodes. *)
Fixpoint name_nodes (raw : ProviderNodes) (global : gset (list Z)) : run (ProviderNodes * gset (list Z)) :=
  match raw with
  | [] => Ret ([], global)
  | (name, ob) :: raw =>
      x ← alloc_unique_tag name global;
      rest ← name_nodes raw x.2;
      Ret ((x.1, set_outbound_tag ob x.1) :: rest.1, rest.2)
  end.

Definition provider_nodes (m : ProviderManager) (p : str) : ProviderNodes :=
  match nodes m !! p with Some l => l | None => [] end.

(** The old names of the provider are released first. *)
Definition dedup_name (m : ProviderManager) (p : str) (raw : ProviderNodes) : run (ProviderNodes * gset (list Z)) :=
  name_nodes raw (fold_left (fun g x => g ∖ {[x.1]}) (provider_nodes m p) (global_tags m)).

(** The new state, and whether the subscribers are notified. *)
Definition update_nodes (m : ProviderManager) (p : str) (raw : ProviderNodes) : run (ProviderManager * bool) :=
  x ← dedup_name m p raw;
  Ret (mkPm (<[p := x.1]> (nodes m)) x.2 (senders m), bool_decide (p ∈ senders m)).

Definition nodes_snapshot (m : ProviderManager) (p : str) : ProviderNodes := provider_nodes m p.

Definition expand {UL : UnicodeLib} (m : ProviderManager) (pref : ProviderRef) : ProviderNodes :=
  flat_map (fun p => List.filter (fun x => ProviderRef_matches pref x.1) (provider_nodes m p)) (pr_tags pref).

(** ** Unique names *)

Lemma show_uint_inj a b : 0 <= a < 2 ^ 32 -> 0 <= b < 2 ^ 32 -> show_uint a = show_uint b -> a = b.
Proof.
  intros Ha Hb E. assert (2 ^ 32 < 10 ^ 20) by lia.
  pose proof (parse_show_uint (2 ^ 32) a ltac:(lia) ltac:(lia)) as H1. rewrite E, parse_show_uint in H1 by lia. congruence.
Qed.

Lemma candidate_inj name a b : 0 <= a < 2 ^ 32 -> 0 <= b < 2 ^ 32 -> candidate name a = candidate name b -> a = b.
Proof. intros Ha Hb E. unfold candidate in E. apply app_inv_head in E. injection E as E. by apply show_uint_inj. Qed.

(** A node's name: the subscription's, or that with a number. *)
Definition named_as (name t : str) : Prop := t = name \/ exists i, 1 <= i < 2 ^ 32 /\ t = candidate name i.

(** After [k] misses the candidates 1 to [k] are all taken, so [k] is at most the
    number of taken names. *)
Lemma suffix_search_spec (fuel : nat) (name : str) (i : Z) (global : gset (list Z)) :
  (size global < fuel + Z.to_nat (i - 1))%nat -> Z.of_nat (size global) + 1 < 2 ^ 32 -> 1 <= i <= Z.of_nat (size global) + 1 ->
  (forall j, 1 <= j < i -> candidate name j ∈ global) ->
  exists j, suffix_search fuel name i global = Ret (candidate name j) /\ 1 <= j < 2 ^ 32 /\ candidate name j ∉ global.
Proof.
  revert i. induction fuel as [|fuel IH]; intros i Hf Hs Hi Hall; [lia|]. cbn [suffix_search].
  case_bool_decide as Hc; cbn [negb]; [|exists i; split; [done|split; [lia|done]]].
  assert (Hi' : i <= Z.of_nat (size global)).
  { destruct (decide (i <= Z.of_nat (size global))) as [|Hn]; [done|]. exfalso.
    assert (Hnd : NoDup (map (fun k => candidate name (Z.of_nat k + 1)) (seq 0 (Z.to_nat i)))).
    { apply NoDup_fmap_2_strong; [|apply NoDup_seq]. intros x y Hx Hy E. apply elem_of_seq in Hx, Hy.
      apply candidate_inj in E; lia. }
    assert (Hsub : map (fun k => candidate name (Z.of_nat k + 1)) (seq 0 (Z.to_nat i)) ⊆+ elements global).
    { apply NoDup_submseteq; [done|]. intros x (k & -> & Hk)%list_elem_of_fmap. apply elem_of_seq in Hk. apply elem_of_elements.
      destruct (decide (Z.of_nat k + 1 = i)) as [->|]; [done|]. apply Hall. lia. }
    apply submseteq_length in Hsub. rewrite length_map, length_seq in Hsub. change (length (elements global)) with (size global) in Hsub. lia. }
  unfold as_u32. rewrite wrap_succ by lia. apply IH; [lia|done|lia|].
  intros j Hj. destruct (decide (j = i)) as [->|]; [done|]. apply Hall. lia.
Qed.

Lemma alloc_unique_tag_spec (name : str) (global : gset (list Z)) : Z.of_nat (size global) + 1 < 2 ^ 32 ->
  exists t g', alloc_unique_tag name global = Ret (t, g') /\ g' = {[t]} ∪ global /\ (t ∉ global) /\ named_as name t /\ (name ∉ global -> t = name).
Proof.
  intros Hs. unfold alloc_unique_tag. case_bool_decide as Hn; cbn [negb].
  - destruct (suffix_search_spec (S (size global)) name 1 global) as (j & -> & Hj & Hf); [lia..| |].
    { intros j Hj. lia. }
    rewrite bind_Ret. eexists _, _. split; [reflexivity|]. split; [done|]. split; [done|]. split; [|done]. right. by exists j.
  - eexists name, _. split; [done|]. split; [done|]. split; [done|]. split; [by left|done].
Qed.

(** The names of a list of nodes are new and distinct, and the taken set grows by them. *)
Lemma name_nodes_spec (raw : ProviderNodes) (global : gset (list Z)) : Z.of_nat (size global) + len raw < 2 ^ 32 ->
  exists l g', name_nodes raw global = Ret (l, g') /\ g' = global ∪ list_to_set (map fst l) /\
    NoDup (map fst l) /\ (forall t, t ∈ map fst l -> t ∉ global) /\
    Forall2 (fun x y => named_as x.1 y.1 /\ y.2 = set_outbound_tag x.2 y.1) raw l.
Proof.
  revert global. induction raw as [|[name ob] raw IH]; intros global Hs; cbn [name_nodes].
  - exists [], global. split; [done|]. split; [set_solver|]. split; [constructor|]. split; [|constructor].
    intros t Ht. by apply elem_of_nil in Ht.
  - rewrite len_cons in Hs. pose proof (len_nonneg raw).
    destruct (alloc_unique_tag_spec name global ltac:(lia)) as (t & g & -> & -> & Ht & Hn & _). rewrite bind_Ret. cbn [fst snd].
    destruct (IH ({[t]} ∪ global)) as (l & g' & -> & -> & Hnd & Hnew & Hf).
    { rewrite size_union, size_singleton by set_solver. lia. }
    rewrite bind_Ret. cbn [fst snd]. eexists _, _. split; [reflexivity|]. cbn [map fst].
    split; [|split; [|split]].
    + change (list_to_set (C := gset (list Z)) (t :: map fst l)) with ({[t]} ∪ list_to_set (map fst l) : gset (list Z)). set_solver.
    + constructor; [|done]. intros Hin. specialize (Hnew t Hin). set_solver.
    + intros x [->|Hx]%elem_of_cons; [done|]. specialize (Hnew x Hx). set_solver.
    + constructor; [|done]. by split.
Qed.

(** ** The state invariant *)

Definition tags_of (m : ProviderManager) (p : str) : list str := map fst (provider_nodes m p).

(** The taken set holds exactly the names in use, and no name is used twice. *)
Record provider_inv (m : ProviderManager) : Prop := {
  names_taken : forall t, t ∈ global_tags m <-> exists p, t ∈ tags_of m p;
  names_distinct : forall p, NoDup (tags_of m p);
  names_apart : forall p q t, t ∈ tags_of m p -> t ∈ tags_of m q -> p = q
}.

Lemma provider_new_inv configs : provider_inv (ProviderManager_new configs).
Proof.
  assert (H : forall p, tags_of (ProviderManager_new configs) p = []) by done.
  split.
  - intros t. split; [intros Ht; by apply not_elem_of_empty in Ht|]. intros (p & Hp). rewrite H in Hp. by apply elem_of_nil in Hp.
  - intros p. rewrite H. constructor.
  - intros p q t Hp. rewrite H in Hp. by apply elem_of_nil in Hp.
Qed.

Lemma released_spec (l : ProviderNodes) (g : gset (list Z)) t :
  t ∈ fold_left (fun g x => g ∖ {[x.1]}) l g <-> t ∈ g /\ t ∉ map fst l.
Proof.
  revert g. induction l as [|x l IH]; intros g; cbn [fold_left map].
  - split; [|by intros [? _]]. intros H. split; [done|apply not_elem_of_nil].
  - rewrite IH, not_elem_of_cons, elem_of_difference, elem_of_singleton. tauto.
Qed.

Lemma release_size (l : ProviderNodes) (g : gset (list Z)) : (size (fold_left (fun g x => g ∖ {[x.1]}) l g) <= size g)%nat.
Proof. apply subseteq_size. intros t Ht. by apply released_spec in Ht as [? _]. Qed.

(** Subscriptions: replacing a provider's nodes always terminates, gives every
    new node the name the subscription gave it or that name with a number, and
    keeps names unique among all providers; other providers keep their nodes, and
    the taken set is exactly the names in use, so names of removed nodes are free
    again. *)
Theorem provider_update (m : ProviderManager) (p : str) (raw : ProviderNodes) :
  provider_inv m -> Z.of_nat (size (global_tags m)) + len raw < 2 ^ 32 ->
  exists m', update_nodes m p raw = Ret (m', bool_decide (p ∈ senders m)) /\ provider_inv m' /\
    (forall q, q <> p -> provider_nodes m' q = provider_nodes m q) /\
    Forall2 (fun x y => named_as x.1 y.1 /\ y.2 = set_outbound_tag x.2 y.1) raw (provider_nodes m' p).
Proof.
  intros [Ht Hd Ha] Hs. unfold update_nodes, dedup_name.
  pose proof (release_size (provider_nodes m p) (global_tags m)) as Hrs.
  destruct (name_nodes_spec raw (fold_left (fun g x => g ∖ {[x.1]}) (provider_nodes m p) (global_tags m)))
    as (l & g' & -> & Hg & Hnd & Hnew & Hf); [lia|].
  rewrite bind_Ret. cbn [fst snd]. set (m' := mkPm (<[p := l]> (nodes m)) g' (senders m)).
  exists m'. split; [reflexivity|].
  assert (Hp : provider_nodes m' p = l) by (unfold provider_nodes; cbn; by rewrite lookup_insert_eq).
  assert (Hq : forall q, q <> p -> provider_nodes m' q = provider_nodes m q).
  { intros q Hne. unfold provider_nodes. cbn. by rewrite lookup_insert_ne. }
  split; [|split; [done|by rewrite Hp]].
  assert (Hold : forall t q, t ∈ tags_of m q -> q <> p -> t ∈ fold_left (fun g x => g ∖ {[x.1]}) (provider_nodes m p) (global_tags m)).
  { intros t q Hin Hne. apply released_spec. split; [apply Ht; by exists q|]. intros Hin'. by apply Hne, (Ha q p t). }
  assert (Hfree : forall t q, t ∈ map fst l -> t ∈ tags_of m q -> q <> p -> False).
  { intros t q Hin Hin' Hne. by apply (Hnew t Hin), (Hold t q). }
  split; unfold tags_of.
  - intros t. change (global_tags m') with g'. rewrite Hg, elem_of_union, elem_of_list_to_set, released_spec, Ht. split.
    + intros [[(q & Hin) Hn]|Hin]; [|exists p; by rewrite Hp]. exists q. rewrite Hq; [done|]. intros ->. by apply Hn.
    + intros (q & Hin). destruct (decide (q = p)) as [->|Hne]; [right; by rewrite Hp in Hin|]. rewrite Hq in Hin by done.
      left. split; [by exists q|]. intros Hin'. by apply Hne, (Ha q p t).
  - intros q. destruct (decide (q = p)) as [->|Hne]; [by rewrite Hp|rewrite Hq by done; apply Hd].
  - intros q q' t Hin Hin'. destruct (decide (q = p)) as [->|Hne], (decide (q' = p)) as [->|Hne']; [done| | |].
    + rewrite Hp in Hin. rewrite Hq in Hin' by done. by destruct (Hfree t q').
    + rewrite Hp in Hin'. rewrite Hq in Hin by done. by destruct (Hfree t q).
    + rewrite Hq in Hin, Hin' by done. by apply (Ha q q' t).
Qed.

Definition sample_pm : ProviderManager :=
  mkPm {[ lit "s1" := [(lit "jp", ODirect (lit "jp"))] ]} {[ lit "jp" ]} {[ lit "s1"; lit "s2" ]}.

Lemma sample_pm_inv : provider_inv sample_pm.
Proof.
  assert (H : forall p, tags_of sample_pm p = if decide (p = lit "s1") then [lit "jp"] else []).
  { intros p. unfold tags_of, provider_nodes. cbn [nodes sample_pm]. case_decide as E; [subst; by rewrite lookup_singleton_eq|].
    by rewrite lookup_singleton_ne. }
  split.
  - intros t. cbn [global_tags sample_pm]. rewrite elem_of_singleton. split.
    + intros ->. exists (lit "s1"). rewrite H, decide_True by done. by left.
    + intros (p & Hp). rewrite H in Hp. case_decide; [by apply list_elem_of_singleton in Hp|by apply elem_of_nil in Hp].
  - intros p. rewrite H. case_decide; repeat constructor. apply not_elem_of_nil.
  - intros p q t. rewrite !H. case_decide; case_decide; subst; try done; intros Hp Hq; by apply elem_of_nil in Hp || by apply elem_of_nil in Hq.
Qed.

Lemma provider_update_witness :
  exists m', update_nodes sample_pm (lit "s2") [(lit "jp", OBlock []); (lit "us", ODirect [])] = Ret (m', true) /\ provider_inv m' /\
    provider_nodes m' (lit "s1") = [(lit "jp", ODirect (lit "jp"))].
Proof.
  destruct (provider_update sample_pm (lit "s2") [(lit "jp", OBlock []); (lit "us", ODirect [])] sample_pm_inv ltac:(vm_compute; done))
    as (m' & E & Hi & Hq & _).
  exists m'. split; [exact E|]. split; [exact Hi|]. rewrite (Hq (lit "s1")) by (intros H; discriminate H). vm_compute. reflexivity.
Defined.
