(* ===== verification/Group.v ===== *)
(** * Group: the selector and url-test groups of [src/outbound/group.rs].

    The state of a group is a record, each method a function on it; the locks are
    held within one method, so a method is one step, but for [interrupt], which
    releases its lock between taking the list and putting it back, and for the
    background check of a url-test group, which is a task of its own.  A oneshot
    channel is its number; [closed] says which receivers are gone.  Times are
    nanoseconds. *)

From S2P Require Import Prelude RustStr Extern Format Trie IpMatch Compiler Loader Matcher MatchSafe CacheFile Inbound QuicCrypto Sniff Router DnsWire DnsTopo FakeIp DnsCache DnsResolver Config.

Local Open Scope reflex_scope.

(** ** Interrupts *)

Record ConnItem : Type := mkConn { close_tx : Z; is_external : bool }.

Record InterruptGroup : Type := mkIg { conns : list ConnItem; next_tx : Z }.

Definition InterruptGroup_new : InterruptGroup := mkIg [] 0.

(** The number of the new channel; entries whose receiver is gone are dropped. *)
Definition register (closed : Z -> bool) (g : InterruptGroup) (ext : bool) : Z * InterruptGroup :=
  (next_tx g, mkIg (List.filter (fun i => negb (closed (close_tx i))) (conns g) ++ [mkConn (next_tx g) ext]) (next_tx g + 1)).

(** [std::mem::take] under the first lock. *)
Definition interrupt_take (g : InterruptGroup) : list ConnItem * InterruptGroup := (conns g, mkIg [] (next_tx g)).

Definition hits (interrupt_external : bool) (i : ConnItem) : bool := negb (is_external i) || interrupt_external.

(** The loop and the second lock.  The result is the channels whose receiver
    completes: those sent to, and those whose sender is dropped because the list
    it is in is overwritten. *)
Definition interrupt_finish (closed : Z -> bool) (interrupt_external : bool) (all : list ConnItem) (g : InterruptGroup)
    : list Z * list Z * InterruptGroup :=
  let live := List.filter (fun i => negb (closed (close_tx i))) all in
  (map close_tx (List.filter (hits interrupt_external) live),
   map close_tx (conns g),
   mkIg (List.filter (fun i => negb (hits interrupt_external i)) live) (next_tx g)).

Definition interrupt (closed : Z -> bool) (interrupt_external : bool) (g : InterruptGroup) : list Z * list Z * InterruptGroup :=
  let '(all, g) := interrupt_take g in interrupt_finish closed interrupt_external all g.

(** ** Selector *)

Record SelectorOutbound : Type := mkSelector {
  s_config : SelectorOutboundConfig;
  s_all : list str;
  s_selected : str;
  s_cache : option CacheFile;
  s_conns : InterruptGroup
}.

Definition or_else {A} (o p : option A) : option A := match o with Some _ => o | None => p end.

Definition Selector_new (config : SelectorOutboundConfig) (cache_writer : option CacheFile) (cache_reader : option CacheFileReader)
    (fault : bool) : SelectorOutbound :=
  let initial_tags := sel_outbounds config in
  let saved := match cache_reader with Some r => load_selected fault r (sel_tag config) | None => None end in
  let kept := match saved with Some s => if bool_decide (s ∈ initial_tags) then Some s else None | None => None end in
  let selected := match or_else (or_else kept (sel_default config)) (head initial_tags) with Some s => s | None => [] end in
  mkSelector config initial_tags selected cache_writer InterruptGroup_new.

(** The static part, then the nodes that are not in yet. *)
Definition add_nodes (static provider_nodes : list str) : list str :=
  fold_left (fun acc t => if bool_decide (t ∈ acc) then acc else acc ++ [t]) provider_nodes static.

Definition refreshed (outbounds all provider_nodes : list str) : list str :=
  add_nodes (List.filter (fun t => bool_decide (t ∈ all)) outbounds) provider_nodes.

Definition selector_refresh (st : SelectorOutbound) (provider_nodes : list str) : SelectorOutbound :=
  let new_all := refreshed (sel_outbounds (s_config st)) (s_all st) provider_nodes in
  let selected :=
    if negb (bool_decide (s_selected st = [])) && negb (bool_decide (s_selected st ∈ new_all)) then
      match new_all with first :: _ => first | [] => s_selected st end
    else s_selected st in
  mkSelector (s_config st) new_all selected (s_cache st) (s_conns st).

Definition first_or_empty (l : list str) : str := match l with t :: _ => t | [] => [] end.

Definition selector_current (st : SelectorOutbound) : str :=
  if bool_decide (s_selected st ∈ s_all st) then s_selected st else first_or_empty (s_all st).

(** [set_selected]: the new state and the receivers that complete. *)
Definition set_selected (closed : Z -> bool) (st : SelectorOutbound) (tag : str) : result (SelectorOutbound * list Z) str :=
  if negb (bool_decide (tag ∈ s_all st)) then Err tag
  else if bool_decide (s_selected st = tag) then Ok (st, [])
  else
    let cache := match s_cache st with Some c => Some (store_selected c (sel_tag (s_config st)) tag) | None => None end in
    let '(sent, dropped, g) := interrupt closed (interrupt_existing_connections (s_config st)) (s_conns st) in
    Ok (mkSelector (s_config st) (s_all st) tag cache g, sent ++ dropped).

(** The part of [handle_tcp] before the relay: the child, and the channel the relay waits on. *)
Definition selector_accept (closed : Z -> bool) (st : SelectorOutbound) : str * Z * SelectorOutbound :=
  let '(tx, g) := register closed (s_conns st) true in
  (selector_current st, tx, mkSelector (s_config st) (s_all st) (s_selected st) (s_cache st) g).

Record OutboundStatus : Type := mkStatus {
  st_name : str;
  type_name : str;
  st_now : option str;
  st_all : list str;
  history : list (str * Z)
}.

Definition selector_status (st : SelectorOutbound) : OutboundStatus :=
  mkStatus (sel_tag (s_config st)) (lit "Selector") (Some (selector_current st)) (s_all st) [].

(** ** Url-test *)

(** A background check: the tags it was given, and whether it has begun. *)
Record ProbeTask : Type := mkTask { pt_tags : list str; pt_begun : bool }.

Record UrlTestOutbound : Type := mkUrlTest {
  u_config : UrlTestOutboundConfig;
  u_all : list str;
  u_selected : option str;
  latencies : gmap (list Z) (option Z);
  last_check : option Z;
  is_checking : bool;
  is_checking_arc : bool;
  tasks : list ProbeTask
}.

(** [rest.split('/').next()] *)
Definition until_slash (s : str) : str := match split_once 47 s with Some (a, _) => a | None => s end.

Definition parse_probe_url (url : str) : result (str * Z) unit :=
  split ←! ok_or (match strip_prefix (lit "https://") url with
                  | Some rest => Some (443, rest)
                  | None => match strip_prefix (lit "http://") url with Some rest => Some (80, rest) | None => None end
                  end) tt;
  let '(default_port, rest) := split in
  let authority := until_slash rest in
  if bool_decide (authority = []) then Err tt
  else
    hp ←! match rsplit_once 58 authority with
          | Some (host, port) => p ←! ok_or (parse_uint u16_max port) tt; Ok (host, p)
          | None => Ok (authority, default_port)
          end;
    if bool_decide (hp.1 = []) then Err tt else Ok hp.

Definition parse_probe_path (url : str) : str :=
  let rest := match or_else (strip_prefix (lit "https://") url) (strip_prefix (lit "http://") url) with Some r => r | None => url end in
  match split_once 47 rest with
  | Some (_, path) => 47 :: path
  | None => lit "/"
  end.

Definition UrlTest_new (config : UrlTestOutboundConfig) : result UrlTestOutbound unit :=
  let has_providers := match ut_providers config with Some p => negb (bool_decide (pr_tags p = [])) | None => false end in
  if bool_decide (ut_outbounds config = []) && negb has_providers then Err tt
  else
    _ ←! parse_probe_url (ut_url config);
    _ ←! parse_duration (ut_interval config);
    _ ←! parse_duration (ut_idle_timeout config);
    Ok (mkUrlTest config (ut_outbounds config) None ∅ None false false []).

Definition urltest_refresh (st : UrlTestOutbound) (provider_nodes : list str) : UrlTestOutbound :=
  let new_all := refreshed (ut_outbounds (u_config st)) (u_all st) provider_nodes in
  let selected := match u_selected st with
                  | Some cur => if bool_decide (cur ∈ new_all) then Some cur else None
                  | None => None
                  end in
  mkUrlTest (u_config st) new_all selected (latencies st) None (is_checking st) (is_checking_arc st) (tasks st).

Definition should_check (st : UrlTestOutbound) (now : Z) : bool :=
  let interval := match parse_duration (ut_interval (u_config st)) with Ok d => d | Err _ => 180 end in
  match last_check st with
  | None => true
  | Some last => interval * 1000000000 <=? Z.max 0 (now - last)
  end.

(** [current_tag]: the tag, and the state with the task it may spawn. *)
Definition urltest_current (st : UrlTestOutbound) (now : Z) : str * UrlTestOutbound :=
  let st := if should_check st now && negb (is_checking st) then
              mkUrlTest (u_config st) (u_all st) (u_selected st) (latencies st) (last_check st) true (is_checking_arc st)
                (tasks st ++ [mkTask (u_all st) false])
            else st in
  (match u_selected st with Some t => t | None => first_or_empty (u_all st) end, st).

(** The first block of [refresh_background]. *)
Definition begin_task (st : UrlTestOutbound) (now : Z) (pre post : list ProbeTask) (tags : list str) : UrlTestOutbound :=
  mkUrlTest (u_config st) (u_all st) (u_selected st) (latencies st) (Some now) (is_checking st) (is_checking_arc st)
    (pre ++ mkTask tags true :: post).

Definition measure (results : list (str * option Z)) : gmap (list Z) (option Z) :=
  fold_left (fun m r => <[r.1 := r.2]> m) results ∅.

(** [iter] is [measured] in the map's iteration order. *)
Definition best_of (iter : list (str * option Z)) : option (str * Z) :=
  min_by_key snd (omap (fun x => match x.2 with Some l => Some (x.1, l) | None => None end) iter).

Definition choose (tolerance : Z) (measured : gmap (list Z) (option Z)) (current : option str) (best : str * Z) : str :=
  match current with
  | Some cur =>
      match measured !! cur with
      | Some (Some l) => if l <=? as_u64 (best.2 + tolerance) then cur else best.1
      | _ => best.1
      end
  | None => best.1
  end.

(** The rest of [refresh_background], and the [store] after it. *)
Definition end_task (st : UrlTestOutbound) (results iter : list (str * option Z)) (others : list ProbeTask) : UrlTestOutbound :=
  match parse_probe_url (ut_url (u_config st)) with
  | Err _ => mkUrlTest (u_config st) (u_all st) (u_selected st) (latencies st) (last_check st) (is_checking st) false others
  | Ok _ =>
      let measured := measure results in
      let selected := match best_of iter with
                      | Some best => Some (choose (ut_tolerance (u_config st)) measured (u_selected st) best)
                      | None => u_selected st
                      end in
      mkUrlTest (u_config st) (u_all st) selected measured (last_check st) (is_checking st) false others
  end.

Definition force_selected (st : UrlTestOutbound) (tag : str) : result UrlTestOutbound str :=
  if negb (bool_decide (tag ∈ u_all st)) then Err tag
  else Ok (mkUrlTest (u_config st) (u_all st) (Some tag) (latencies st) (last_check st) (is_checking st) (is_checking_arc st) (tasks st)).

(** [iter] is [latencies] in the map's iteration order. *)
Definition status_snapshot (st : UrlTestOutbound) (iter : list (str * option Z)) : OutboundStatus :=
  mkStatus (ut_tag (u_config st)) (lit "URLTest") (or_else (u_selected st) (head (u_all st))) (u_all st)
    (omap (fun x => match x.2 with Some l => Some (x.1, l) | None => None end) iter).

(** What can happen to a url-test group.  A check reports one result per tag it was given. *)
Inductive urltest_step : UrlTestOutbound -> UrlTestOutbound -> Prop :=
  | ut_connect st now : urltest_step st (urltest_current st now).2
  | ut_nodes st provider_nodes : urltest_step st (urltest_refresh st provider_nodes)
  | ut_force st st' tag : force_selected st tag = Ok st' -> urltest_step st st'
  | ut_begin st now pre tags post : tasks st = pre ++ mkTask tags false :: post -> urltest_step st (begin_task st now pre post tags)
  | ut_end st pre tags post results iter : tasks st = pre ++ mkTask tags true :: post ->
      map fst results = tags -> iter ≡ₚ map_to_list (measure results) ->
      (forall x l, x ∈ results -> x.2 = Some l -> in_width 64 l) ->
      urltest_step st (end_task st results iter (pre ++ post)).

(** ** Interrupts: who is told *)

(** Two filters by a condition and its negation share a list out. *)
Lemma interrupt_atomic closed flag g :
  interrupt closed flag g =
  (map close_tx (List.filter (hits flag) (List.filter (fun i => negb (closed (close_tx i))) (conns g))), [],
   mkIg (List.filter (fun i => negb (hits flag i)) (List.filter (fun i => negb (closed (close_tx i))) (conns g))) (next_tx g)).
Proof. done. Qed.

(** A connection that registers while an interrupt is between its two locks is
    always ended: the list that holds its channel is overwritten, whatever the flag
    and whether or not it is external, and the group forgets it. *)
Theorem interrupt_race (closed : Z -> bool) (flag ext : bool) (g : InterruptGroup) :
  let '(all, g1) := interrupt_take g in
  let '(tx, g2) := register closed g1 ext in
  let '(sent, dropped, g3) := interrupt_finish closed flag all g2 in
  dropped = [tx] /\ (Forall (fun i => close_tx i < next_tx g) (conns g) -> (tx ∉ map close_tx (conns g3)) /\ tx ∉ sent).
Proof.
  cbn. split; [done|]. intros Hf.
  assert (H : forall f h : ConnItem -> bool, next_tx g ∉ map close_tx (List.filter f (List.filter h (conns g)))).
  { intros f h (i & E & Hi)%list_elem_of_fmap. apply list_elem_of_In, filter_In in Hi as [Hi _].
    apply filter_In in Hi as [Hi _]. rewrite Forall_forall in Hf. apply list_elem_of_In, Hf in Hi. lia. }
  split; apply H.
Qed.

(** ** Selector *)

Inductive selector_step : SelectorOutbound -> SelectorOutbound -> Prop :=
  | s_nodes st provider_nodes : selector_step st (selector_refresh st provider_nodes)
  | s_select closed st st' tag ended : set_selected closed st tag = Ok (st', ended) -> selector_step st st'
  | s_connect closed st : selector_step st (selector_accept closed st).2.

Lemma add_nodes_spec static ns : exists extra, add_nodes static ns = static ++ extra /\ NoDup extra /\
  (forall t, t ∈ extra <-> t ∈ ns /\ t ∉ static).
Proof.
  unfold add_nodes. cut (forall l extra, NoDup extra -> (forall t, t ∈ extra -> t ∉ static) ->
    exists extra', fold_left (fun acc t => if bool_decide (t ∈ acc) then acc else acc ++ [t]) l (static ++ extra) = static ++ extra' /\
      NoDup extra' /\ (forall t, t ∈ extra' <-> t ∈ extra \/ (t ∈ l /\ t ∉ static))).
  { intros H. destruct (H ns [] ltac:(constructor)) as (e & E & Hn & He); [intros t Ht; by apply elem_of_nil in Ht|].
    rewrite app_nil_r in E. exists e. split; [done|]. split; [done|]. intros t. rewrite He, elem_of_nil. naive_solver. }
  induction l as [|x l IH]; intros extra Hn He; cbn [fold_left].
  - exists extra. split; [done|]. split; [done|]. intros t. rewrite elem_of_nil. naive_solver.
  - case_bool_decide as Hx.
    + destruct (IH extra Hn He) as (e & -> & Hne & Hee). exists e. split; [done|]. split; [done|]. intros t. rewrite Hee, elem_of_cons.
      rewrite elem_of_app in Hx. naive_solver.
    + rewrite <-app_assoc. rewrite elem_of_app in Hx. destruct (IH (extra ++ [x])) as (e & -> & Hne & Hee).
      { apply NoDup_app. split; [done|]. split; [|apply NoDup_singleton]. intros t Ht ->%list_elem_of_singleton. tauto. }
      { intros t [Ht| ->%list_elem_of_singleton]%elem_of_app; [by apply He|tauto]. }
      exists e. split; [done|]. split; [done|]. intros t. rewrite Hee, elem_of_app, !elem_of_cons, elem_of_nil. naive_solver.
Qed.

(** The nodes of a group are its own children, in order, then provider nodes. *)
Definition listed (outbounds all : list str) : Prop := exists extra, all = outbounds ++ extra /\ NoDup extra /\ (forall t, t ∈ extra -> t ∉ outbounds).

Lemma refreshed_spec outbounds all ns : listed outbounds all -> exists extra, refreshed outbounds all ns = outbounds ++ extra /\
  NoDup extra /\ (forall t, t ∈ extra <-> t ∈ ns /\ t ∉ outbounds).
Proof.
  intros (e & -> & _). unfold refreshed. rewrite filter_all; [apply add_nodes_spec|].
  intros t Ht. apply bool_decide_eq_true, elem_of_app. by left.
Qed.

Lemma listed_self l : listed l l.
Proof. exists []. rewrite app_nil_r. split; [done|]. split; [constructor|]. intros t Ht. by apply elem_of_nil in Ht. Qed.

Lemma listed_refreshed outbounds all ns : listed outbounds all -> listed outbounds (refreshed outbounds all ns).
Proof.
  intros H. destruct (refreshed_spec outbounds all ns H) as (e & -> & Hn & He). exists e. split; [done|]. split; [done|].
  intros t Ht. by apply He.
Qed.

Lemma first_or_empty_in l : l <> [] -> first_or_empty l ∈ l.
Proof. destruct l; [done|]. intros _. by left. Qed.

(** What every reachable selector satisfies. *)
Record selector_inv (config : SelectorOutboundConfig) (st : SelectorOutbound) : Prop := {
  si_config : s_config st = config;
  si_listed : listed (sel_outbounds config) (s_all st);
  si_selected : s_selected st ∈ s_all st \/ s_selected st = [] \/ s_all st = [];
  si_external : Forall (fun i => is_external i = true /\ close_tx i < next_tx (s_conns st)) (conns (s_conns st))
}.

Lemma register_inv closed g ext :
  Forall (fun i => is_external i = true /\ close_tx i < next_tx g) (conns g) -> ext = true ->
  Forall (fun i => is_external i = true /\ close_tx i < next_tx (register closed g ext).2) (conns (register closed g ext).2).
Proof.
  intros H ->. cbn. apply Forall_app. split.
  - apply Forall_filter_keep. eapply Forall_impl; [exact H|]. intros i [? ?]. split; [done|lia].
  - constructor; [|constructor]. cbn. split; [done|lia].
Qed.

Lemma set_selected_cases closed st tag st' ended : set_selected closed st tag = Ok (st', ended) ->
  tag ∈ s_all st /\ (s_selected st = tag /\ st' = st /\ ended = [] \/
   s_selected st <> tag /\
   let cache := match s_cache st with Some c => Some (store_selected c (sel_tag (s_config st)) tag) | None => None end in
   let '(sent, dropped, g) := interrupt closed (interrupt_existing_connections (s_config st)) (s_conns st) in
   st' = mkSelector (s_config st) (s_all st) tag cache g /\ ended = sent ++ dropped).
Proof.
  unfold set_selected. case_bool_decide as Hin; [|done]. cbn [negb]. case_bool_decide as Heq.
  - intros [= <- <-]. split; [done|]. by left.
  - intros H. split; [done|]. right. split; [done|]. rewrite interrupt_atomic in *. cbn zeta in *. injection H as <- <-. done.
Qed.

Lemma selector_step_inv config st st' : selector_inv config st -> selector_step st st' -> selector_inv config st'.
Proof.
  intros [Hc Hl Hs He] Hst. destruct Hst as [st ns|closed st st' tag ended H|closed st].
  - split; cbn; [done| | |done]; rewrite Hc; [by apply listed_refreshed|].
    case_bool_decide as E1; cbn [negb andb]; [by right; left|]. case_bool_decide as E2; cbn [negb]; [by left|].
    destruct (refreshed _ _ _) as [|x l]; [by right; right|left; by left].
  - apply set_selected_cases in H as [Hin [(_ & -> & _)|(_ & H)]]; [done|]. rewrite interrupt_atomic in H. cbn zeta in H.
    destruct H as [-> _]. split; cbn; [done..|by left|]. apply Forall_filter_keep, Forall_filter_keep. exact He.
  - split; cbn; [done..|]. by apply (register_inv closed (s_conns st) true).
Qed.

Lemma selector_new_inv config w r f : (forall d, sel_default config = Some d -> d ∈ sel_outbounds config) ->
  selector_inv config (Selector_new config w r f).
Proof.
  intros Hd. split; [done|apply listed_self| |constructor]. unfold Selector_new. cbn [s_selected s_all].
  set (kept := match _ with Some s => if bool_decide (s ∈ sel_outbounds config) then Some s else None | None => None end).
  destruct kept as [s|] eqn:E; cbn [or_else].
  - left. unfold kept in E. destruct (match r with Some r => load_selected f r (sel_tag config) | None => None end); [|done].
    case_bool_decide; by simplify_eq.
  - destruct (sel_default config) as [d|]; cbn [or_else]; [left; by apply Hd|].
    destruct (sel_outbounds config); cbn [head]; [by right; right|left; by left].
Qed.

Section Reachable.
Context (config : SelectorOutboundConfig) (w : option CacheFile) (r : option CacheFileReader) (f : bool).
Hypothesis default_listed : forall d, sel_default config = Some d -> d ∈ sel_outbounds config.

Lemma selector_reachable_inv st : rtc selector_step (Selector_new config w r f) st -> selector_inv config st.
Proof.
  intros H. pose proof (selector_new_inv config w r f default_listed) as Hi. revert Hi.
  induction H as [|st1 st2 st3 Hst _ IH]; intros Hi; [done|]. apply IH. by eapply selector_step_inv.
Qed.
End Reachable.

(** Connections that are still there. *)
Definition live (closed : Z -> bool) (g : InterruptGroup) : list ConnItem := List.filter (fun i => negb (closed (close_tx i))) (conns g).

(** Switching: in every reachable selector, choosing another listed node makes
    it current and queues it for the cache file; unless the configuration asks for
    it no connection is ended and all live ones stay registered, and when it does,
    exactly the live ones are ended; a node that is not listed is refused. *)
Theorem selector_switch (config : SelectorOutboundConfig) (w : option CacheFile) (r : option CacheFileReader) (f : bool)
    (closed : Z -> bool) (st : SelectorOutbound) (tag : str) :
  (forall d, sel_default config = Some d -> d ∈ sel_outbounds config) ->
  rtc selector_step (Selector_new config w r f) st -> s_selected st <> tag ->
  match set_selected closed st tag with
  | Err t => t = tag /\ tag ∉ s_all st
  | Ok (st', ended) =>
      tag ∈ s_all st /\ selector_current st' = tag /\
      s_cache st' = option_map (fun c => store_selected c (sel_tag config) tag) (s_cache st) /\
      if interrupt_existing_connections config then ended = map close_tx (live closed (s_conns st)) /\ conns (s_conns st') = []
      else ended = [] /\ conns (s_conns st') = live closed (s_conns st)
  end.
Proof.
  intros Hd Hst Hne. destruct (selector_reachable_inv config w r f Hd st Hst) as [Hc Hl Hs He].
  unfold set_selected. case_bool_decide as Hin; cbn [negb]; [|done]. rewrite bool_decide_eq_false_2 by done.
  rewrite interrupt_atomic. cbn zeta iota. split; [done|]. split; [unfold selector_current; cbn; by rewrite bool_decide_eq_true_2|].
  split; [by rewrite Hc; destruct (s_cache st)|]. rewrite Hc. cbn [s_conns conns]. rewrite app_nil_r. fold (live closed (s_conns st)).
  assert (Hx : Forall (fun i => is_external i = true) (live closed (s_conns st))).
  { apply Forall_filter_keep. eapply Forall_impl; [exact He|]. by intros i [? _]. }
  destruct (interrupt_existing_connections config).
  - rewrite filter_all by (intros i _; apply orb_true_r). split; [done|].
    induction (live closed (s_conns st)) as [|i l IH]; [done|]. cbn [List.filter]. unfold hits at 1. rewrite orb_true_r. cbn [negb].
    apply IH. by inversion Hx.
  - induction Hx as [|i l Hi _ [IH1 IH2]]; [done|]. cbn [List.filter]. unfold hits. rewrite Hi. cbn [negb orb]. split; [apply IH1|].
    f_equal. apply IH2.
Qed.

(** Provider updates: in every reachable selector, taking new provider nodes
    lists its own children first, in order, then each new node once; a selection
    that is still listed stays current, and otherwise the first node becomes it. *)
Theorem selector_options (config : SelectorOutboundConfig) (w : option CacheFile) (r : option CacheFileReader) (f : bool)
    (st : SelectorOutbound) (provider_nodes : list str) (st' := selector_refresh st provider_nodes) :
  (forall d, sel_default config = Some d -> d ∈ sel_outbounds config) ->
  rtc selector_step (Selector_new config w r f) st ->
  (exists extra, s_all st' = sel_outbounds config ++ extra /\ NoDup extra /\
     (forall t, t ∈ extra <-> t ∈ provider_nodes /\ t ∉ sel_outbounds config)) /\
  selector_current st' = (if bool_decide (s_selected st ∈ s_all st') then s_selected st else first_or_empty (s_all st')) /\
  (s_all st' <> [] -> selector_current st' ∈ s_all st').
Proof.
  intros Hd Hst. destruct (selector_reachable_inv config w r f Hd st Hst) as [Hc Hl Hs He].
  unfold st', selector_refresh, selector_current. cbn [s_all s_selected]. rewrite Hc.
  split; [by apply refreshed_spec|]. set (l := refreshed (sel_outbounds config) (s_all st) provider_nodes).
  destruct (decide (s_selected st ∈ l)) as [Hin|Hin].
  - rewrite (bool_decide_eq_true_2 (s_selected st ∈ l)) by done. cbn [negb]. rewrite andb_false_r.
    rewrite bool_decide_eq_true_2 by done. by split.
  - rewrite (bool_decide_eq_false_2 (s_selected st ∈ l)) by done. cbn [negb]. rewrite andb_true_r.
    destruct (decide (s_selected st = [])) as [E|E].
    + rewrite (bool_decide_eq_true_2 (s_selected st = [])) by done. cbn [negb]. rewrite bool_decide_eq_false_2 by done.
      split; [done|]. apply first_or_empty_in.
    + rewrite (bool_decide_eq_false_2 (s_selected st = [])) by done. cbn [negb].
      destruct l as [|x l]; [by rewrite bool_decide_eq_false_2|]. rewrite bool_decide_eq_true_2 by by left.
      split; [done|]. intros _. by left.
Qed.

(** Restarting: after a choice is written to the cache file, a selector built
    anew from the same configuration starts with it when it is one of the group's
    own children; the choice of a provider's node is forgotten, and the selector
    starts as if nothing had been saved. *)
Theorem selector_restart (closed : Z -> bool) (st st' : SelectorOutbound) (tag : str) (ended : list Z) (c : CacheFile) (d : Database)
    (w : option CacheFile) (sd : bool) :
  s_cache st = Some c -> rx_alive c = true -> write_tx c = [] -> s_selected st <> tag ->
  set_selected closed st tag = Ok (st', ended) ->
  exists c' op d', s_cache st' = Some c' /\ write_tx c' = [op] /\ apply_op false d op = Ok d' /\
    let st'' := Selector_new (s_config st) w (Some (mkReader d' sd)) false in
    if bool_decide (tag ∈ sel_outbounds (s_config st)) then selector_current st'' = tag
    else st'' = Selector_new (s_config st) w None false.
Proof.
  intros Hc Ha Hw Hne H. apply set_selected_cases in H as [Hin [(? & _)|(_ & H)]]; [done|].
  rewrite interrupt_atomic, Hc in H. cbn zeta in H. destruct H as [-> _]. cbn [s_cache].
  eexists _, (StoreSelected (sel_tag (s_config st)) tag), _. split; [reflexivity|]. split; [by unfold store_selected, send; rewrite Ha, Hw|].
  split; [reflexivity|]. cbv zeta. unfold Selector_new.
  match goal with |- context [load_selected false ?r ?g] => assert (E : load_selected false r g = Some tag) by apply lookup_insert_eq end.
  rewrite E. case_bool_decide as Hs; [|done]. cbn [or_else].
  unfold selector_current. cbn [s_selected s_all]. by rewrite bool_decide_eq_true_2.
Qed.

(** ** Url-test *)

(** Entries with a measurement. *)
Definition measured_of (iter : list (str * option Z)) : list (str * Z) :=
  omap (fun x => match x.2 with Some l => Some (x.1, l) | None => None end) iter.

Lemma measured_of_spec iter t l : (t, l) ∈ measured_of iter <-> (t, Some l) ∈ iter.
Proof.
  unfold measured_of. rewrite list_elem_of_omap. split.
  - intros ([t' [l'|]] & H & E); cbn in E; by simplify_eq.
  - intros H. by exists (t, Some l).
Qed.

Lemma best_of_spec iter : match best_of iter with
  | Some b => (b.1, Some b.2) ∈ iter /\ forall t l, (t, Some l) ∈ iter -> b.2 <= l
  | None => forall t l, (t, Some l) ∉ iter
  end.
Proof.
  unfold best_of. fold (measured_of iter). destruct (measured_of iter) as [|x l] eqn:E.
  - cbn. intros t l H. apply measured_of_spec in H. rewrite E in H. by apply elem_of_nil in H.
  - destruct (min_by_key_spec snd (x :: l)) as (m & -> & Hm & Hle); [done|]. split.
    + apply measured_of_spec. rewrite E. by destruct m.
    + intros t k Hk. apply measured_of_spec in Hk. rewrite E in Hk. by apply (Hle (t, k)).
Qed.

Lemma measured_iter (iter : list (str * option Z)) (m : gmap (list Z) (option Z)) (t : str) (l : Z) : iter ≡ₚ map_to_list m -> (t, Some l) ∈ iter <-> m !! t = Some (Some l).
Proof. intros ->. apply elem_of_map_to_list. Qed.

(** Choosing by latency: when a background check ends with no answer at all the
    selection stays; otherwise the group's selection is a node that answered and
    whose latency is within the tolerance of every other's; it is the previous
    selection whenever that one is within the tolerance, and the fastest node
    when it is not. *)
Theorem urltest_selection (st : UrlTestOutbound) (results iter : list (str * option Z)) (others : list ProbeTask)
    (m := measure results) (tol := ut_tolerance (u_config st)) (st' := end_task st results iter others) (hp : str * Z) :
  parse_probe_url (ut_url (u_config st)) = Ok hp -> iter ≡ₚ map_to_list m -> 0 <= tol ->
  (forall t l, m !! t = Some (Some l) -> 0 <= l /\ l + tol < 2 ^ 64) ->
  ((forall t l, m !! t <> Some (Some l)) /\ u_selected st' = u_selected st) \/
  (exists t l, u_selected st' = Some t /\ m !! t = Some (Some l) /\ (forall t' l', m !! t' = Some (Some l') -> l <= l' + tol) /\
     ((u_selected st = Some t) \/
      ((forall t' l', m !! t' = Some (Some l') -> l <= l') /\
       (forall cur lc, u_selected st = Some cur -> m !! cur = Some (Some lc) -> l + tol < lc)))).
Proof.
  intros Hp Hiter Htol Hb. unfold st', end_task. rewrite Hp. cbn [u_selected]. fold m. fold tol.
  pose proof (best_of_spec iter) as Hbest. destruct (best_of iter) as [[bt bl]|]; cbn [fst snd] in Hbest.
  2: { left. split; [|done]. intros t l H. apply (measured_iter iter m t l Hiter) in H. by apply (Hbest t l). }
  right. destruct Hbest as [Hin Hle]. apply (measured_iter iter m bt bl Hiter) in Hin.
  assert (Hmin : forall t l, m !! t = Some (Some l) -> bl <= l) by (intros t l H; by apply (Hle t l), (measured_iter iter m t l Hiter)).
  destruct (Hb bt bl Hin) as [Hbl Hbt].
  assert (Hw : as_u64 (bl + tol) = bl + tol) by (unfold as_u64, wrap; apply Z.mod_small; lia).
  assert (Hkeep : forall cur lc, u_selected st = Some cur -> m !! cur = Some (Some lc) -> lc <= bl + tol ->
    choose tol m (u_selected st) (bt, bl) = cur).
  { intros cur lc -> Hcur Hl. unfold choose. rewrite Hcur. cbn [snd]. by rewrite Hw, (proj2 (Z.leb_le lc (bl + tol))). }
  assert (Hbest : forall cur lc, u_selected st = Some cur -> m !! cur = Some (Some lc) -> bl + tol < lc ->
    choose tol m (u_selected st) (bt, bl) = bt).
  { intros cur lc -> Hcur Hl. unfold choose. rewrite Hcur. cbn [fst snd]. by rewrite Hw, (proj2 (Z.leb_gt lc (bl + tol))). }
  destruct (u_selected st) as [cur|] eqn:Es; [destruct (m !! cur) as [[lc|]|] eqn:Ec; [destruct (Z.le_gt_cases lc (bl + tol)) as [Hl|Hl]|..]|].
  - rewrite (Hkeep cur lc) by done. exists cur, lc. split; [done|]. split; [done|]. split; [|by left].
    intros t' l' H. specialize (Hmin t' l' H). lia.
  - rewrite (Hbest cur lc) by done. exists bt, bl. split; [done|]. split; [done|]. split; [intros t' l' H; specialize (Hmin t' l' H); lia|].
    right. split; [done|]. intros c l [= <-]. rewrite Ec. by intros [= <-].
  - unfold choose. rewrite Ec. exists bt, bl. split; [done|]. split; [done|]. split; [intros t' l' H; specialize (Hmin t' l' H); lia|].
    right. split; [done|]. intros c l [= <-]. by rewrite Ec.
  - unfold choose. rewrite Ec. exists bt, bl. split; [done|]. split; [done|]. split; [intros t' l' H; specialize (Hmin t' l' H); lia|].
    right. split; [done|]. intros c l [= <-]. by rewrite Ec.
  - exists bt, bl. split; [done|]. split; [done|]. split; [intros t' l' H; specialize (Hmin t' l' H); lia|]. right. by split.
Qed.

(** The flag that admits a check is set by the first connection and no step clears it. *)
Record probing_inv (st : UrlTestOutbound) : Prop := {
  one_task : (length (tasks st) <= 1)%nat;
  unprobed : is_checking st = false -> tasks st = [] /\ latencies st = ∅
}.

Lemma urltest_current_cases st now :
  (urltest_current st now).2 = st \/
  (is_checking st = false /\ tasks (urltest_current st now).2 = tasks st ++ [mkTask (u_all st) false] /\
   is_checking (urltest_current st now).2 = true /\ latencies (urltest_current st now).2 = latencies st).
Proof.
  unfold urltest_current. destruct (should_check st now); [|by left]. destruct (is_checking st) eqn:E; [by left|]. by right.
Qed.

Lemma end_task_state st results iter others :
  tasks (end_task st results iter others) = others /\ is_checking (end_task st results iter others) = is_checking st.
Proof. unfold end_task. by destruct (parse_probe_url _). Qed.

Lemma urltest_step_inv st st' : probing_inv st -> urltest_step st st' -> probing_inv st' /\
  (is_checking st = true -> is_checking st' = true /\ (length (tasks st') <= length (tasks st))%nat /\ (tasks st = [] -> latencies st' = latencies st)).
Proof.
  intros [Ho Hu] Hst. destruct Hst as [st now|st ns|st st' tag H|st now pre tags post H|st pre tags post results iter H Hr Hi Hw].
  - destruct (urltest_current_cases st now) as [->|(Hc & Ht & Hc' & Hl)]; [by split|]. destruct (Hu Hc) as [H1 H2].
    split; [split|]; [rewrite Ht, H1; cbn; lia|congruence|congruence].
  - split; [by split|done].
  - unfold force_selected in H. case_bool_decide; simplify_eq/=. split; [by split|done].
  - assert (El : length (tasks st) = length (pre ++ mkTask tags true :: post)) by by rewrite H, !length_app.
    split; [split; cbn|].
    + by rewrite <-El.
    + intros Hc. destruct (Hu Hc) as [Hn _]. rewrite Hn in H. by destruct pre.
    + intros Hc. split; [done|]. cbn. split; [by rewrite <-El|done].
  - destruct (end_task_state st results iter (pre ++ post)) as [Et Ec].
    assert (El : length (tasks st) = S (length (pre ++ post))) by (rewrite H, !length_app; cbn; lia).
    split; [split|].
    + rewrite Et. lia.
    + rewrite Ec. intros Hc. destruct (Hu Hc) as [Hn _]. rewrite Hn in H. by destruct pre.
    + intros Hc. rewrite Ec, Et. split; [done|]. split; [lia|]. intros Hn. rewrite Hn in H. by destruct pre.
Qed.

(** One check, ever: from its construction a url-test group has at most one
    background check; once that one has ended no step starts another, whatever
    the interval, and the latencies it measured are never replaced. *)
Theorem urltest_probes_once (config : UrlTestOutboundConfig) (st0 st st' : UrlTestOutbound) :
  UrlTest_new config = Ok st0 -> rtc urltest_step st0 st -> rtc urltest_step st st' ->
  (length (tasks st) <= 1)%nat /\
  (is_checking st = true -> tasks st = [] -> tasks st' = [] /\ latencies st' = latencies st).
Proof.
  intros Hn H0 H1. assert (Hi : probing_inv st0).
  { unfold UrlTest_new in Hn. destruct (bool_decide _ && _); [done|]. destruct (parse_probe_url _); [|done].
    destruct (parse_duration (ut_interval config)); [|done]. cbn in Hn. destruct (parse_duration (ut_idle_timeout config)); [|done].
    cbn in Hn. injection Hn as <-. split; cbn; [lia|done]. }
  assert (Hi' : probing_inv st).
  { revert Hi. clear -H0. induction H0 as [|s1 s2 s3 Hst _ IH]; intros Hi; [done|]. apply IH. by destruct (urltest_step_inv s1 s2 Hi Hst). }
  split; [apply Hi'|]. revert Hi'. clear -H1. induction H1 as [|s1 s2 s3 Hst _ IH]; intros Hi Hc Ht; [done|].
  destruct (urltest_step_inv s1 s2 Hi Hst) as [Hi2 H]. destruct (H Hc) as (Hc2 & Hlen & Hl).
  rewrite Ht in Hlen. destruct (tasks s2) eqn:E; [|cbn in Hlen; lia]. destruct (IH Hi2 Hc2 eq_refl) as [-> ->]. split; [done|]. by apply Hl.
Qed.

(** ** Witnesses *)

Definition sample_sel : SelectorOutboundConfig := mkSelCfg (lit "g") [lit "x"; lit "y"] None (Some (lit "y")) false.
Definition sample_writer : CacheFile := mkCacheFile [] true true true.
Definition sample_selector : SelectorOutbound := Selector_new sample_sel (Some sample_writer) None false.
Definition open_channels : Z -> bool := fun _ => false.
Definition busy_selector : SelectorOutbound := (selector_accept open_channels (selector_refresh sample_selector [lit "z"; lit "x"])).2.

Lemma busy_reachable : rtc selector_step (Selector_new sample_sel (Some sample_writer) None false) busy_selector.
Proof.
  apply (rtc_l _ _ (selector_refresh sample_selector [lit "z"; lit "x"])); [apply s_nodes|].
  apply (rtc_l _ _ busy_selector); [apply (s_connect open_channels)|apply rtc_refl].
Qed.

Lemma sample_default : forall d, sel_default sample_sel = Some d -> d ∈ sel_outbounds sample_sel.
Proof. intros d [= <-]. apply (bool_decide_unpack _). vm_compute. exact I. Qed.

Lemma interrupt_race_witness :
  let g := mkIg [mkConn 0 true] 1 in
  let g2 := (register open_channels (interrupt_take g).2 true).2 in
  (interrupt_finish open_channels false (conns g) g2).1.2 = [1].
Proof. cbv zeta. destruct (interrupt_race open_channels false true (mkIg [mkConn 0 true] 1)) as [H _]. exact H. Defined.

Lemma selector_switch_witness :
  exists st' , set_selected open_channels busy_selector (lit "z") = Ok (st', []) /\ selector_current st' = lit "z".
Proof.
  pose proof (selector_switch sample_sel (Some sample_writer) None false open_channels busy_selector (lit "z")
    sample_default busy_reachable ltac:(vm_compute; discriminate)) as H.
  destruct (set_selected open_channels busy_selector (lit "z")) as [[st' ended]|t] eqn:E; [|vm_compute in E; discriminate E].
  destruct H as (_ & H1 & _ & H2 & _). exists st'. split; [by rewrite H2|exact H1].
Defined.

Lemma selector_options_witness :
  let st' := selector_refresh busy_selector [lit "w"] in
  (exists extra, s_all st' = sel_outbounds sample_sel ++ extra) /\ selector_current st' ∈ s_all st'.
Proof.
  cbv zeta. destruct (selector_options sample_sel (Some sample_writer) None false busy_selector [lit "w"] sample_default busy_reachable)
    as ((extra & H1 & _) & _ & H2).
  split; [by exists extra|]. apply H2. vm_compute. discriminate.
Defined.

Lemma selector_restart_witness :
  exists st' c' op d', set_selected open_channels busy_selector (lit "x") = Ok (st', []) /\ s_cache st' = Some c' /\
    write_tx c' = [op] /\ apply_op false empty_db op = Ok d' /\
    selector_current (Selector_new sample_sel None (Some (mkReader d' true)) false) = lit "x".
Proof.
  destruct (set_selected open_channels busy_selector (lit "x")) as [[st' ended]|t] eqn:E; [|vm_compute in E; discriminate E].
  assert (ended = []) as -> by (vm_compute in E; by injection E).
  destruct (selector_restart open_channels busy_selector st' (lit "x") [] sample_writer empty_db None true eq_refl eq_refl eq_refl
    ltac:(vm_compute; discriminate) E) as (c' & op & d' & H1 & H2 & H3 & H4).
  exists st', c', op, d'. split; [done|]. split; [exact H1|]. split; [exact H2|]. split; [exact H3|]. exact H4.
Defined.

Definition sample_ut : UrlTestOutboundConfig :=
  mkUrlCfg (lit "auto") [lit "x"; lit "y"] None (lit "https://a.b/c") (lit "3m") (lit "30m") 50.

Definition sample_urltest : UrlTestOutbound := mkUrlTest sample_ut [lit "x"; lit "y"] None ∅ None false false [].
Definition sample_results : list (str * option Z) := [(lit "x", Some 90); (lit "y", Some 40)].

Lemma urltest_selection_witness :
  exists t l, u_selected (end_task sample_urltest sample_results (map_to_list (measure sample_results)) []) = Some t /\
    measure sample_results !! t = Some (Some l) /\ l <= 90.
Proof.
  destruct (urltest_selection sample_urltest sample_results (map_to_list (measure sample_results)) [] (lit "a.b", 443))
    as [[H _]|(t & l & H1 & H2 & _ & [H|[H _]])]; [vm_compute; reflexivity|reflexivity|vm_compute; discriminate| | | |].
  - intros t l H. change (measure sample_results) with (<[lit "y" := Some 40]> (<[lit "x" := Some 90]> (∅ : gmap (list Z) (option Z)))) in H.
    apply lookup_insert_Some in H as [[_ E]|[_ H]]; [injection E as <-; vm_compute; split; discriminate || reflexivity|].
    apply lookup_insert_Some in H as [[_ E]|[_ H]]; [injection E as <-; vm_compute; split; discriminate || reflexivity|].
    by rewrite lookup_empty in H.
  - exfalso. by apply (H (lit "x") 90).
  - discriminate H.
  - exists t, l. split; [exact H1|]. split; [exact H2|]. by apply (H (lit "x") 90).
Defined.

(** After the one check, an hour later: a connection starts no other. *)
Definition probed_urltest : UrlTestOutbound :=
  end_task (begin_task (urltest_current sample_urltest 0).2 1 [] [] [lit "x"; lit "y"]) sample_results
    (map_to_list (measure sample_results)) [].

Lemma urltest_probes_once_witness :
  tasks (urltest_current probed_urltest 3600000000000).2 = [] /\ should_check probed_urltest 3600000000000 = true.
Proof.
  split; [|vm_compute; reflexivity].
  destruct (urltest_probes_once sample_ut sample_urltest probed_urltest (urltest_current probed_urltest 3600000000000).2) as [_ H].
  - vm_compute. reflexivity.
  - apply (rtc_l _ _ (urltest_current sample_urltest 0).2); [apply ut_connect|].
    apply (rtc_l _ _ (begin_task (urltest_current sample_urltest 0).2 1 [] [] [lit "x"; lit "y"])); [by apply ut_begin|].
    apply (rtc_l _ _ probed_urltest); [|apply rtc_refl]. apply (ut_end _ [] [lit "x"; lit "y"] []); [done|done|done|].
    intros x l [->|[->|Hx]%elem_of_cons]%elem_of_cons; [intros [= <-]; vm_compute; split; discriminate || reflexivity..|by apply elem_of_nil in Hx].
  - apply (rtc_l _ _ (urltest_current probed_urltest 3600000000000).2); [apply ut_connect|apply rtc_refl].
  - destruct H as [H _]; [vm_compute; reflexivity|vm_compute; reflexivity|exact H].
Defined.
