(* ===== verification/OutboundMgr.v ===== *)
(** * OutboundMgr: the registry of [src/app/outbound_mgr.rs] and delegation through groups.

    An outbound of the registry is a group with its state, or any other protocol,
    whose settings the model leaves out.  A connection or packet given to a group
    is handed to the outbound its current tag names, and so on; [resolve] follows
    that chain.  It always ends in a configuration that was accepted, as long as
    no provider node has the name of a group. *)

From S2P Require Import Prelude RustStr Extern Format Trie IpMatch Compiler Loader Matcher MatchSafe CacheFile Inbound QuicCrypto Sniff Router RouterSpec DnsWire DnsTopo FakeIp DnsCache DnsResolver Config ConfigSpec Provider Group.

Local Open Scope reflex_scope.

Inductive OutboundObj : Type :=
  | Leaf (config : OutboundConfig)
  | Selector (st : SelectorOutbound)
  | UrlTest (st : UrlTestOutbound).

Abbreviation registry := (gmap (list Z) OutboundObj) (only parsing).

Inductive MgrError : Type :=
  | DuplicateTag (tag : str)
  | BadOutbound (tag : str)
  | OutboundNotFound (tag : str).

(** ** Construction *)

Section Build.
(** [leaf_ok] says which of the other protocols' constructors succeed. *)
Context (leaf_ok : OutboundConfig -> bool) (writer : option CacheFile) (reader : option CacheFileReader) (fault : bool).

Definition build_one (cfg : OutboundConfig) : result OutboundObj MgrError :=
  match cfg with
  | OSelector c => Ok (Selector (Selector_new c writer reader fault))
  | OUrlTest c => st ←! map_err (fun _ => BadOutbound (ut_tag c)) (UrlTest_new c); Ok (UrlTest st)
  | _ => if leaf_ok cfg then Ok (Leaf cfg) else Err (BadOutbound (ob_tag cfg))
  end.

Fixpoint from_config_loop (configs : list OutboundConfig) (map : registry) : result registry MgrError :=
  match configs with
  | [] => Ok map
  | cfg :: configs =>
      if bool_decide (is_Some (map !! ob_tag cfg)) then Err (DuplicateTag (ob_tag cfg))
      else ob ←! build_one cfg; from_config_loop configs (<[ob_tag cfg := ob]> map)
  end.

Definition from_config_full (configs : list OutboundConfig) : result registry MgrError := from_config_loop configs ∅.
End Build.

(** ** Delegation *)

(** The tag a group hands its traffic to, and its next state. *)
Definition delegate (o : OutboundObj) (now : Z) : option (str * OutboundObj) :=
  match o with
  | Leaf _ => None
  | Selector st => Some (selector_current st, o)
  | UrlTest st => let '(t, st) := urltest_current st now in Some (t, UrlTest st)
  end.

(** [lookup_outbound] and the call on what it finds; [fuel] bounds the calls. *)
Fixpoint resolve (fuel : nat) (reg : registry) (now : Z) (tag : str) : run (result str MgrError * registry) :=
  match fuel with
  | O => Stuck
  | S fuel =>
      match reg !! tag with
      | None => Ret (Err (OutboundNotFound tag), reg)
      | Some o =>
          match delegate o now with
          | None => Ret (Ok tag, reg)
          | Some (child, o') => resolve fuel (<[tag := o']> reg) now child
          end
      end
  end.

(** [select]: the control API's choice for a group. *)
Definition select (closed : Z -> bool) (reg : registry) (tag child : str) : result registry MgrError :=
  match reg !! tag with
  | None => Err (OutboundNotFound tag)
  | Some (Selector st) =>
      match set_selected closed st child with
      | Ok (st', _) => Ok (<[tag := Selector st']> reg)
      | Err t => Err (OutboundNotFound t)
      end
  | Some (UrlTest st) =>
      match force_selected st child with
      | Ok st' => Ok (<[tag := UrlTest st']> reg)
      | Err t => Err (OutboundNotFound t)
      end
  | Some (Leaf _) => Err (BadOutbound tag)
  end.

(** A group takes the expanded nodes of its providers. *)
Definition refresh_nodes (reg : registry) (tag : str) (names : list str) : registry :=
  match reg !! tag with
  | Some (Selector st) => <[tag := Selector (selector_refresh st names)]> reg
  | Some (UrlTest st) => <[tag := UrlTest (urltest_refresh st names)]> reg
  | _ => reg
  end.

(** ** What a group can name *)

(** [names]: every name a provider ever gave; the group's own children besides. *)
Definition may_name (outbounds names : list str) (t : str) : Prop := t ∈ outbounds \/ t ∈ names.

Definition obj_outbounds (o : OutboundObj) : list str :=
  match o with
  | Leaf _ => []
  | Selector st => sel_outbounds (s_config st)
  | UrlTest st => ut_outbounds (u_config st)
  end.

Record selector_names (names : list str) (st : SelectorOutbound) : Prop := {
  sn_all : forall t, t ∈ s_all st -> may_name (sel_outbounds (s_config st)) names t
}.

Record urltest_names (names : list str) (st : UrlTestOutbound) : Prop := {
  un_all : forall t, t ∈ u_all st -> may_name (ut_outbounds (u_config st)) names t;
  un_selected : forall t, u_selected st = Some t -> may_name (ut_outbounds (u_config st)) names t;
  un_tasks : forall task t, task ∈ tasks st -> t ∈ pt_tags task -> may_name (ut_outbounds (u_config st)) names t
}.

Definition obj_names (names : list str) (o : OutboundObj) : Prop :=
  match o with
  | Leaf _ => True
  | Selector st => selector_names names st
  | UrlTest st => urltest_names names st
  end.

(** Steps of the objects of a registry, with provider nodes from [names]. *)
Inductive obj_step (names : list str) : OutboundObj -> OutboundObj -> Prop :=
  | step_nodes_s st ns : (forall t, t ∈ ns -> t ∈ names) -> obj_step names (Selector st) (Selector (selector_refresh st ns))
  | step_nodes_u st ns : (forall t, t ∈ ns -> t ∈ names) -> obj_step names (UrlTest st) (UrlTest (urltest_refresh st ns))
  | step_select closed st st' tag ended : set_selected closed st tag = Ok (st', ended) -> obj_step names (Selector st) (Selector st')
  | step_accept closed st : obj_step names (Selector st) (Selector (selector_accept closed st).2)
  | step_force st st' tag : force_selected st tag = Ok st' -> obj_step names (UrlTest st) (UrlTest st')
  | step_current st now : obj_step names (UrlTest st) (UrlTest (urltest_current st now).2)
  | step_begin st now pre tags post : tasks st = pre ++ mkTask tags false :: post ->
      obj_step names (UrlTest st) (UrlTest (begin_task st now pre post tags))
  | step_end st pre tags post results iter : tasks st = pre ++ mkTask tags true :: post -> map fst results = tags ->
      iter ≡ₚ map_to_list (measure results) -> obj_step names (UrlTest st) (UrlTest (end_task st results iter (pre ++ post))).

Inductive registry_step (names : list str) : registry -> registry -> Prop :=
  | registry_obj reg tag o o' : reg !! tag = Some o -> obj_step names o o' -> registry_step names reg (<[tag := o']> reg).

Lemma refreshed_names outbounds all ns names t : (forall t, t ∈ ns -> t ∈ names) -> t ∈ refreshed outbounds all ns -> may_name outbounds names t.
Proof.
  intros Hns Ht. unfold refreshed in Ht.
  destruct (add_nodes_spec (List.filter (fun t => bool_decide (t ∈ all)) outbounds) ns) as (extra & E & _ & He). rewrite E in Ht.
  apply elem_of_app in Ht as [Ht|Ht].
  - left. apply list_elem_of_In, filter_In in Ht as [Ht _]. by apply list_elem_of_In.
  - right. by apply Hns, He.
Qed.

Lemma measure_keys results t x : measure results !! t = Some x -> t ∈ map fst results.
Proof.
  unfold measure. cut (forall l (m : gmap (list Z) (option Z)), fold_left (fun m r => <[r.1 := r.2]> m) l m !! t = Some x -> is_Some (m !! t) \/ t ∈ map fst l).
  { intros H E. destruct (H results ∅ E) as [[y Hy]|]; [by rewrite lookup_empty in Hy|done]. }
  induction l as [|r l IH]; intros m H; cbn [fold_left map] in *; [left; by exists x|].
  destruct (IH _ H) as [Hs|Hs]; [|right; by right].
  destruct (decide (r.1 = t)) as [->|Hne]; [right; by left|]. rewrite lookup_insert_ne in Hs by done. by left.
Qed.

(** A check selects one of the tags it was given, or keeps the selection. *)
Lemma end_task_selected st results iter others t : iter ≡ₚ map_to_list (measure results) ->
  u_selected (end_task st results iter others) = Some t -> u_selected st = Some t \/ t ∈ map fst results.
Proof.
  intros Hi. unfold end_task. destruct (parse_probe_url _); [|by left]. cbn [u_selected].
  pose proof (best_of_spec iter) as Hb. destruct (best_of iter) as [[bt bl]|]; [|by left]. destruct Hb as [Hb _]. cbn [fst snd] in Hb.
  apply (measured_iter iter (measure results) bt bl Hi) in Hb. apply measure_keys in Hb.
  intros [= <-]. unfold choose. destruct (u_selected st) as [cur|]; [|by right]. destruct (measure results !! cur) as [[lc|]|]; [|by right..].
  cbn [fst snd]. destruct (lc <=? _); [by left|by right].
Qed.

Lemma first_or_empty_cases l : first_or_empty l ∈ l \/ first_or_empty l = [].
Proof. destruct l; [by right|left; by left]. Qed.

Definition same_shape (o o' : OutboundObj) : Prop :=
  match o, o' with
  | Leaf c, Leaf c' => c = c'
  | Selector st, Selector st' => s_config st = s_config st'
  | UrlTest st, UrlTest st' => u_config st = u_config st'
  | _, _ => False
  end.

Lemma obj_step_names names o o' : obj_names names o -> obj_step names o o' -> obj_names names o' /\ same_shape o o'.
Proof.
  intros Hn Hst. destruct Hst as [st ns Hns|st ns Hns|closed st st' tag ended H|closed st|st st' tag H|st now|st now pre tags post H|st pre tags post results iter H Hr Hi]; cbn [obj_names same_shape] in *.
  - split; [|done]. split. cbn. intros t. by apply refreshed_names.
  - destruct Hn as [Ha Hs Ht]. split; [|done]. split; cbn; [intros t; by apply refreshed_names| |done].
    intros t. destruct (u_selected st) as [cur|] eqn:E; [|done]. case_bool_decide; [|done]. intros [= <-]. by apply Hs.
  - apply set_selected_cases in H as [_ [(_ & -> & _)|(_ & H)]]; [done|]. rewrite interrupt_atomic in H. cbn zeta in H. destruct H as [-> _].
    split; [|done]. destruct Hn as [Hn]. by split.
  - destruct Hn as [Hn]. split; [by split|done].
  - destruct Hn as [Ha Hs Ht]. unfold force_selected in H. case_bool_decide as Hin; simplify_eq/=. split; [|done].
    split; cbn; [done| |done]. intros t [= <-]. by apply Ha.
  - destruct Hn as [Ha Hs Ht]. unfold urltest_current. destruct (_ && _); (split; [|reflexivity]); [|by split]. split; cbn; [done..|].
    intros task t [Hin| ->%list_elem_of_singleton]%elem_of_app; [by apply Ht|]. apply Ha.
  - destruct Hn as [Ha Hs Ht]. split; [|done]. split; cbn; [done..|]. intros task t Hin Hin'. rewrite H in Ht.
    apply elem_of_app in Hin as [Hin|[->|Hin]%elem_of_cons]; [apply (Ht task t); [apply elem_of_app; by left|done]| |].
    + apply (Ht (mkTask tags false) t); [apply elem_of_app; right; by left|done].
    + apply (Ht task t); [apply elem_of_app; right; by right|done].
  - destruct Hn as [Ha Hs Ht]. destruct (end_task_state st results iter (pre ++ post)) as [Et _].
    assert (Ec : u_config (end_task st results iter (pre ++ post)) = u_config st /\ u_all (end_task st results iter (pre ++ post)) = u_all st)
      by (unfold end_task; by destruct (parse_probe_url _)).
    destruct Ec as [Ec Ea]. split; [|by rewrite Ec]. rewrite H in Ht. split; rewrite Ec; [by rewrite Ea| |].
    + intros t E. apply (end_task_selected st results iter _ t Hi) in E as [E|E]; [by apply Hs|].
      apply (Ht (mkTask tags true) t); [apply elem_of_app; right; by left|by rewrite <-Hr].
    + rewrite Et. intros task t Hin Hin'. apply (Ht task t); [|done]. apply elem_of_app in Hin as [Hin|Hin]; apply elem_of_app; [by left|right; by right].
Qed.

Lemma delegate_names names o now t o' : obj_names names o -> delegate o now = Some (t, o') ->
  (may_name (obj_outbounds o) names t \/ t = []) /\ obj_names names o' /\ same_shape o o'.
Proof.
  intros Hn H. destruct o as [c|st|st]; [done|..].
  - injection H as <- <-. split; [|by split]. cbn. unfold selector_current. case_bool_decide as E; [left; by apply Hn|].
    destruct (first_or_empty_cases (s_all st)) as [Hf| ->]; [left; by apply Hn|by right].
  - unfold delegate in H. pose proof (obj_step_names names (UrlTest st) _ Hn (step_current names st now)) as [Hn' Hs].
    destruct (urltest_current st now) as [t' st'] eqn:E. injection H as <- <-. split; [|split; [exact Hn'|exact Hs]].
    assert (Et : t' = match u_selected st with Some t => t | None => first_or_empty (u_all st) end).
    { unfold urltest_current in E. destruct (_ && _) in E; by injection E as <- _. }
    subst t'. cbn. destruct Hn as [Ha Hsel _]. destruct (u_selected st) as [cur|] eqn:Es; [left; by apply Hsel|].
    destruct (first_or_empty_cases (u_all st)) as [Hf| ->]; [left; by apply Ha|by right].
Qed.

(** ** The registry of a configuration *)

Definition built_from (cfg : OutboundConfig) (o : OutboundObj) : Prop :=
  match o with
  | Leaf c => c = cfg /\ is_group cfg = false
  | Selector st => OSelector (s_config st) = cfg
  | UrlTest st => OUrlTest (u_config st) = cfg
  end.

Record registry_ok (configs : list OutboundConfig) (names : list str) (reg : registry) : Prop := {
  ro_objects : forall t o, reg !! t = Some o -> exists cfg, cfg ∈ configs /\ ob_tag cfg = t /\ built_from cfg o /\ obj_names names o;
  ro_complete : forall cfg, cfg ∈ configs -> is_Some (reg !! ob_tag cfg)
}.

Lemma built_shape cfg o o' : built_from cfg o -> same_shape o o' -> built_from cfg o'.
Proof. destruct o, o'; cbn; try done; [by intros [-> ?] <-|by intros <- <-..]. Qed.

Lemma registry_insert configs names reg t o o' : registry_ok configs names reg -> reg !! t = Some o -> obj_names names o' -> same_shape o o' ->
  registry_ok configs names (<[t := o']> reg).
Proof.
  intros [Ho Hc] Ht Hn Hs. split.
  - intros t' x Hx. destruct (decide (t = t')) as [<-|Hne]; [|rewrite lookup_insert_ne in Hx by done; by apply Ho].
    rewrite lookup_insert_eq in Hx. injection Hx as <-. destruct (Ho t o Ht) as (cfg & Hin & Htag & Hb & _).
    exists cfg. split; [done|]. split; [done|]. split; [by eapply built_shape|done].
  - intros cfg Hin. apply lookup_insert_is_Some'. right. by apply Hc.
Qed.

Lemma registry_step_ok configs names reg reg' : registry_ok configs names reg -> registry_step names reg reg' -> registry_ok configs names reg'.
Proof.
  intros Hr Hst. destruct Hst as [reg tag o o' Ht Hst]. destruct (ro_objects _ _ _ Hr tag o Ht) as (_ & _ & _ & _ & Hn).
  destruct (obj_step_names names o o' Hn Hst) as [Hn' Hs]. by eapply registry_insert.
Qed.

Lemma selector_new_names names c writer reader fault : selector_names names (Selector_new c writer reader fault).
Proof. split. intros t Ht. by left. Qed.

Lemma urltest_new_names names c st : UrlTest_new c = Ok st -> urltest_names names st /\ u_config st = c.
Proof.
  unfold UrlTest_new. intros H. destruct (bool_decide _ && _); [done|]. destruct (parse_probe_url _); [|done].
  destruct (parse_duration (ut_interval c)); [|done]. cbn in H. destruct (parse_duration (ut_idle_timeout c)); [|done].
  cbn in H. injection H as <-. split; [|done]. split; cbn; [intros t Ht; by left|done|]. intros task t Ht. by apply elem_of_nil in Ht.
Qed.

Lemma build_one_ok names leaf_ok writer reader fault cfg o : build_one leaf_ok writer reader fault cfg = Ok o ->
  built_from cfg o /\ obj_names names o.
Proof.
  unfold build_one. intros H.
  destruct cfg as [t u|t u|t|t|t u|t|t|t|t|c|c]; try (destruct (leaf_ok _); [|done]; injection H as <-; by split).
  - injection H as <-. split; [done|]. apply selector_new_names.
  - destruct (UrlTest_new c) as [st|] eqn:E; [|done]. cbn in H. injection H as <-.
    destruct (urltest_new_names names c st E) as [Hn Hc]. split; [cbn; by rewrite Hc|done].
Qed.

Lemma from_config_ok names leaf_ok writer reader fault configs reg :
  from_config_full leaf_ok writer reader fault configs = Ok reg -> registry_ok configs names reg.
Proof.
  unfold from_config_full. cut (forall todo done_ m, registry_ok done_ names m ->
    from_config_loop leaf_ok writer reader fault todo m = Ok reg -> registry_ok (done_ ++ todo) names reg).
  { intros H E. apply (H configs [] ∅); [|done]. split; [intros t o Ht; by rewrite lookup_empty in Ht|].
    intros cfg Hin. by apply elem_of_nil in Hin. }
  induction todo as [|cfg todo IH]; intros done_ m Hm E; cbn [from_config_loop] in E.
  - injection E as <-. by rewrite app_nil_r.
  - case_bool_decide as Hd; [done|]. destruct (build_one leaf_ok writer reader fault cfg) as [o|] eqn:Eb; [|done]. cbn in E.
    replace (done_ ++ cfg :: todo) with ((done_ ++ [cfg]) ++ todo) by (by rewrite <-app_assoc). apply (IH _ (<[ob_tag cfg := o]> m)); [|done].
    apply (build_one_ok names) in Eb as [Hb Hn]. destruct Hm as [Ho Hc]. split.
    + intros t x Hx. destruct (decide (ob_tag cfg = t)) as [<-|Hne].
      * rewrite lookup_insert_eq in Hx. injection Hx as <-. exists cfg. split; [apply elem_of_app; right; by left|]. by split.
      * rewrite lookup_insert_ne in Hx by done. destruct (Ho t x Hx) as (c & Hin & H). exists c. split; [apply elem_of_app; by left|done].
    + intros c [Hin| ->%list_elem_of_singleton]%elem_of_app; apply lookup_insert_is_Some'; [right; by apply Hc|by left].
Qed.

Lemma registry_reachable names leaf_ok writer reader fault configs reg0 reg :
  from_config_full leaf_ok writer reader fault configs = Ok reg0 -> rtc (registry_step names) reg0 reg -> registry_ok configs names reg.
Proof.
  intros H0 Hst. apply (from_config_ok names) in H0. induction Hst as [|r1 r2 r3 H1 _ IH]; [done|]. apply IH. by eapply registry_step_ok.
Qed.

(** ** The group graph of distinct tags *)

Lemma fold_graph_lookup (obs : list OutboundConfig) (g0 : gmap (list Z) (list (list Z))) t cs :
  fold_left (fun g o => <[ob_tag o := child_outbounds o]> g) obs g0 !! t = Some cs ->
  g0 !! t = Some cs \/ exists o, o ∈ obs /\ ob_tag o = t /\ child_outbounds o = cs.
Proof.
  revert g0. induction obs as [|o obs IH]; intros g0 H; cbn [fold_left] in H; [by left|].
  destruct (IH _ H) as [H'|(o' & Hin & ? & ?)]; [|right; exists o'; split; [by right|done]].
  destruct (decide (ob_tag o = t)) as [E|Hne]; [|rewrite lookup_insert_ne in H' by done; by left].
  rewrite <-E, lookup_insert_eq in H'. injection H' as <-. right. exists o. split; [by left|done].
Qed.

Lemma fold_graph_dom (obs : list OutboundConfig) (g0 : gmap (list Z) (list (list Z))) t :
  is_Some (g0 !! t) \/ t ∈ map ob_tag obs -> is_Some (fold_left (fun g o => <[ob_tag o := child_outbounds o]> g) obs g0 !! t).
Proof.
  revert g0. induction obs as [|o obs IH]; intros g0 H; cbn [fold_left map] in *.
  - destruct H as [H|H]; [done|by apply elem_of_nil in H].
  - apply IH. rewrite lookup_insert_is_Some', elem_of_cons in *. naive_solver.
Qed.

Lemma graph_lookup (configs : list OutboundConfig) cfg : NoDup (map ob_tag configs) -> cfg ∈ configs -> is_group cfg = true ->
  group_graph configs !! ob_tag cfg = Some (child_outbounds cfg).
Proof.
  intros Hnd Hin Hg. assert (Hf : cfg ∈ List.filter is_group configs) by by apply list_elem_of_In, filter_In; split; [apply list_elem_of_In|].
  destruct (fold_graph_dom (List.filter is_group configs) ∅ (ob_tag cfg)) as [cs Hcs]; [right; by apply (list_elem_of_fmap_2 ob_tag)|].
  unfold group_graph. rewrite Hcs. f_equal. apply fold_graph_lookup in Hcs as [Hcs|(o & Hin' & Ht & <-)]; [by rewrite lookup_empty in Hcs|].
  apply list_elem_of_In, filter_In in Hin' as [Hin' _]. apply list_elem_of_In in Hin'.
  assert (o = cfg) as ->; [|done]. clear -Hnd Hin Hin' Ht. induction configs as [|c cs IH]; [by apply elem_of_nil in Hin|].
  cbn [map] in Hnd. apply NoDup_cons in Hnd as [Hn Hnd].
  apply elem_of_cons in Hin as [->|Hin], Hin' as [->|Hin']; [done| | |by apply IH].
  - destruct Hn. rewrite <-Ht. by apply (list_elem_of_fmap_2 ob_tag).
  - destruct Hn. rewrite Ht. by apply (list_elem_of_fmap_2 ob_tag).
Qed.

Lemma graph_group (configs : list OutboundConfig) t : is_Some (group_graph configs !! t) ->
  exists cfg, cfg ∈ configs /\ ob_tag cfg = t /\ is_group cfg = true.
Proof.
  intros [cs H]. apply fold_graph_lookup in H as [H|(o & Hin & Ht & _)]; [by rewrite lookup_empty in H|].
  apply list_elem_of_In, filter_In in Hin as [Hin Hg]. exists o. split; [by apply list_elem_of_In|done].
Qed.

(** ** Following the chain *)

Section Chain.
Context (configs : list OutboundConfig) (names : list str) (now : Z).
Let g := group_graph configs.
Hypothesis tags_distinct : NoDup (map ob_tag configs).
Hypothesis no_cycle : acyclic g.
Hypothesis names_apart : forall n, n ∈ [] :: names -> g !! n = None.
Hypothesis children_declared : forall cfg t, cfg ∈ configs -> t ∈ child_outbounds cfg -> t ∈ map ob_tag configs.

(** Where a chain ends: at an outbound that is no group, or at a name the
    configuration does not declare. *)
Definition chain_end (t : str) (res : result str MgrError) : Prop :=
  (exists cfg, cfg ∈ configs /\ is_group cfg = false /\ res = Ok (ob_tag cfg)) \/
  (exists y, res = Err (OutboundNotFound y) /\ (y ∉ map ob_tag configs) /\ (y = t \/ y ∈ [] :: names)).

Lemma chain_end_none t reg : registry_ok configs names reg -> reg !! t = None -> t ∉ map ob_tag configs.
Proof.
  intros [_ Hc] Hn (cfg & -> & Hin)%list_elem_of_fmap. destruct (Hc cfg Hin). congruence.
Qed.

Lemma group_key reg t o : registry_ok configs names reg -> reg !! t = Some o -> delegate o now <> None ->
  g !! t = Some (obj_outbounds o) /\ obj_names names o.
Proof.
  intros Hr Ht Hd. destruct (ro_objects _ _ _ Hr t o Ht) as (cfg & Hin & <- & Hb & Hn). split; [|done]. unfold g.
  destruct o as [c|st|st]; [done|..]; cbn in Hb; subst cfg; by rewrite (graph_lookup configs _ tags_distinct Hin).
Qed.

Lemma resolve_spec fuel reg t visiting : registry_ok configs names reg ->
  (is_Some (g !! t) -> path g visiting t /\ (room g visiting < fuel)%nat) -> (0 < fuel)%nat ->
  exists res reg', resolve fuel reg now t = Ret (res, reg') /\ registry_ok configs names reg' /\ chain_end t res.
Proof.
  revert reg t visiting. induction fuel as [|fuel IH]; intros reg t visiting Hr Hg Hf; [lia|]. cbn [resolve].
  destruct (reg !! t) as [o|] eqn:Et.
  2: { eexists _, _. split; [reflexivity|]. split; [done|]. right. exists t. split; [done|]. split; [by eapply chain_end_none|by left]. }
  destruct (delegate o now) as [[child o']|] eqn:Ed.
  2: { eexists _, _. split; [reflexivity|]. split; [done|]. left. destruct (ro_objects _ _ _ Hr t o Et) as (cfg & Hin & <- & Hb & _).
       exists cfg. split; [done|]. split; [|done]. destruct o as [|st|st]; [by destruct Hb|done|]. unfold delegate in Ed. by destruct (urltest_current st now). }
  destruct (group_key reg t o Hr Et) as [Hgt Hn]; [by rewrite Ed|].
  destruct (delegate_names names o now child o' Hn Ed) as (Hc & Hn' & Hs).
  destruct Hg as [Hp Hroom]; [by exists (obj_outbounds o)|].
  assert (Hcyc : t ∉ visiting) by (intros Hin; by apply (no_cycle t), Hp).
  pose proof (room_shrinks g visiting t ltac:(by exists (obj_outbounds o)) Hcyc) as Hlt.
  destruct (IH (<[t := o']> reg) child ({[t]} ∪ visiting)) as (res & reg' & E & Hr' & He).
  - by eapply registry_insert.
  - intros Hgc. assert (Hedge : edge g t child).
    { destruct Hc as [[Hc|Hc]| ->]; [|by rewrite names_apart in Hgc by (by right); destruct Hgc|by rewrite names_apart in Hgc by (by left); destruct Hgc].
      by exists (obj_outbounds o). }
    split; [|lia]. intros v [->%elem_of_singleton|Hv]%elem_of_union; [split; [by exists (obj_outbounds o)|by apply tc_once]|].
    destruct (Hp v Hv). split; [done|]. by eapply tc_r.
  - lia.
  - exists res, reg'. split; [done|]. split; [done|]. destruct He as [He|(y & Hy & Hd & Hw)]; [by left|].
    right. exists y. split; [done|]. split; [done|]. destruct Hw as [->|Hw]; [|by right].
    destruct Hc as [[Hc|Hc]| ->]; [|right; by right|right; by left].
    destruct Hd. destruct (ro_objects _ _ _ Hr t o Et) as (cfg & Hin & _ & Hb & _). apply (children_declared cfg); [done|].
    destruct o as [c|st|st]; cbn in Hb; [done|by subst cfg..].
Qed.
End Chain.

(** C24. Delegation ends: with the outbounds of an accepted configuration, whatever
    the groups have selected, taken from providers or measured since, following
    the groups from any outbound reaches in a bounded number of calls one that is
    no group, or fails on a name the configuration does not declare - provided no
    provider node, nor the empty name, is the name of a group. *)
Theorem delegation_terminates (c : Config) (keys : list str) (leaf_ok : OutboundConfig -> bool) (writer : option CacheFile)
    (reader : option CacheFileReader) (fault : bool) (reg0 reg : gmap (list Z) OutboundObj) (names : list str) (now : Z) (tag : str) :
  keys ≡ₚ (map_to_list (group_graph (outbounds c))).*1 -> validate c keys = Ret (Ok tt) ->
  from_config_full leaf_ok writer reader fault (outbounds c) = Ok reg0 -> rtc (registry_step names) reg0 reg ->
  (forall n, n ∈ [] :: names -> group_graph (outbounds c) !! n = None) ->
  exists res reg', resolve (S (size (group_graph (outbounds c)))) reg now tag = Ret (res, reg') /\
    chain_end (outbounds c) names tag res.
Proof.
  intros Hk Hv H0 Hst Hn. assert (Hok : config_ok c).
  { destruct (checks_decide c keys Hk) as (res & E & H). apply H. congruence. }
  assert (Hr : registry_ok (outbounds c) names reg).
  { by eapply registry_reachable. }
  destruct (resolve_spec (outbounds c) names now (proj1 (ok_outbounds c Hok)) (ok_acyclic c Hok) Hn) with
    (fuel := S (size (group_graph (outbounds c)))) (reg := reg) (t := tag) (visiting := ∅ : gset (list Z)) as (res & reg' & E & _ & He).
  - intros cfg t Hin Ht. pose proof (ok_groups c Hok) as Hg. rewrite Forall_forall in Hg.
    destruct (is_group cfg) eqn:Eg; [by apply (Hg cfg Hin Eg)|]. destruct cfg; try done; by apply elem_of_nil in Ht.
  - done.
  - intros _. split; [intros v Hv'; by apply elem_of_empty in Hv'|]. unfold room. rewrite <-size_dom.
    assert (size (dom (group_graph (outbounds c)) ∖ (∅ : gset (list Z))) ≤ size (dom (group_graph (outbounds c))))%nat
      by (apply subseteq_size; set_solver). lia.
  - lia.
  - by exists res, reg'.
Qed.

(** Provider nodes carry no traffic: the registry holds the configured outbounds
    only, so a group whose current node came from a provider (and is not also
    configured) fails every connection, for as long as that node is current. *)
Theorem provider_nodes_unusable (leaf_ok : OutboundConfig -> bool) (writer : option CacheFile) (reader : option CacheFileReader)
    (fault : bool) (configs : list OutboundConfig) (reg0 reg : gmap (list Z) OutboundObj) (names : list str)
    (tag node : str) (o o' : OutboundObj) (now : Z) (fuel : nat) :
  from_config_full leaf_ok writer reader fault configs = Ok reg0 -> rtc (registry_step names) reg0 reg ->
  reg !! tag = Some o -> delegate o now = Some (node, o') -> node ∉ map ob_tag configs ->
  resolve (S (S fuel)) reg now tag = Ret (Err (OutboundNotFound node), <[tag := o']> reg).
Proof.
  intros H0 Hst Ht Hd Hn. assert (Hr : registry_ok configs names reg).
  { by eapply registry_reachable. }
  assert (Hnone : forall x, reg !! node = Some x -> False).
  { intros x Hx. destruct (ro_objects _ _ _ Hr node x Hx) as (cfg & Hin & Hcfg & _). apply Hn. rewrite <-Hcfg.
    by apply (list_elem_of_fmap_2 ob_tag). }
  cbn [resolve]. rewrite Ht, Hd. destruct (decide (tag = node)) as [->|Hne].
  { by destruct (Hnone o Ht). }
  rewrite lookup_insert_ne by done. destruct (reg !! node) as [x|] eqn:E; [by destruct (Hnone x)|done].
Qed.

(** The first new node of a group without children comes first. *)
Lemma refreshed_first x rest : exists l, refreshed [] [] (x :: rest) = x :: l.
Proof.
  unfold refreshed, add_nodes. cbn. rewrite bool_decide_eq_false_2 by apply not_elem_of_nil. cbn [app].
  cut (forall l', exists l'', fold_left (fun acc t => if bool_decide (t ∈ acc) then acc else acc ++ [t]) rest (x :: l') = x :: l''); [by intros H|].
  induction rest as [|z rest IH]; intros l'; cbn [fold_left]; [by exists l'|]. case_bool_decide; apply IH.
Qed.

(** A provider can shut a group off: names from a subscription are kept apart
    from each other but not from the configured tags, so when the first node of a
    selector without children of its own has that selector's tag, delegation calls
    itself without end. *)
Theorem provider_shadows_group (config : SelectorOutboundConfig) (writer : option CacheFile) (now : Z)
    (rest : list str) (reg : gmap (list Z) OutboundObj) :
  sel_outbounds config = [] -> sel_default config = None -> [] ∉ sel_tag config :: rest ->
  reg !! sel_tag config = Some (Selector (Selector_new config writer None false)) ->
  forall fuel, resolve fuel (refresh_nodes reg (sel_tag config) (sel_tag config :: rest)) now (sel_tag config) = Stuck.
Proof.
  intros Ho Hd He Hr. unfold refresh_nodes. rewrite Hr. set (st := selector_refresh _ _).
  assert (Hs : selector_current st = sel_tag config).
  { assert (Hsel : s_selected (Selector_new config writer None false) = []) by (unfold Selector_new; cbn; by rewrite Ho, Hd).
    assert (Hnot : [] ∉ refreshed [] [] (sel_tag config :: rest)).
    { intros Hin. apply He. by apply (refreshed_names [] [] (sel_tag config :: rest) (sel_tag config :: rest)) in Hin as [Hin%elem_of_nil|Hin]. }
    unfold st, selector_refresh, selector_current. rewrite Hsel. cbn [s_config s_all s_selected Selector_new]. rewrite Ho.
    rewrite (bool_decide_eq_true_2 ([] = [])) by done. cbn [negb andb]. rewrite bool_decide_eq_false_2 by done.
    by destruct (refreshed_first (sel_tag config) rest) as [l ->]. }
  intros fuel. generalize (lookup_insert_eq reg (sel_tag config) (Selector st)).
  generalize (<[sel_tag config := Selector st]> reg). intros m Hm.
  revert m Hm. induction fuel as [|fuel IH]; intros m Hm; [done|]. cbn [resolve]. rewrite Hm. cbn [delegate]. rewrite Hs.
  apply IH. apply lookup_insert_eq.
Qed.

(** ** Witnesses *)

Definition sample_registry : gmap (list Z) OutboundObj :=
  match from_config_full (fun _ => true) None None false sample_outbounds with Ok reg => reg | Err _ => ∅ end.

Lemma delegation_terminates_witness :
  exists res reg', resolve 2 (refresh_nodes sample_registry (lit "auto") [lit "hk"]) 0 (lit "auto") = Ret (res, reg') /\
    chain_end sample_outbounds [lit "hk"] (lit "auto") res.
Proof.
  apply (delegation_terminates sample_full [lit "auto"] (fun _ => true) None None false sample_registry
    (refresh_nodes sample_registry (lit "auto") [lit "hk"]) [lit "hk"] 0 (lit "auto")).
  - apply sample_keys.
  - apply sample_accepted.
  - vm_compute. reflexivity.
  - apply rtc_once. apply (registry_obj [lit "hk"] sample_registry (lit "auto")
      (Selector (Selector_new (mkSelCfg (lit "auto") [lit "proxy"; lit "cn"] None (Some (lit "cn")) false) None None false))).
    + vm_compute. reflexivity.
    + apply step_nodes_s. done.
  - intros n [->|[->|Hn]%elem_of_cons]%elem_of_cons; [vm_compute; reflexivity..|by apply elem_of_nil in Hn].
Defined.

Definition lonely : SelectorOutboundConfig := mkSelCfg (lit "auto") [] (Some (mkProviderRef [lit "sub"] [] [])) None false.
Definition lonely_registry : gmap (list Z) OutboundObj :=
  match from_config_full (fun _ => true) None None false [OSelector lonely] with Ok reg => reg | Err _ => ∅ end.

Lemma provider_nodes_unusable_witness :
  let reg := refresh_nodes lonely_registry (lit "auto") [lit "hk"] in
  exists reg', resolve 2 reg 0 (lit "auto") = Ret (Err (OutboundNotFound (lit "hk")), reg').
Proof.
  cbv zeta. eexists.
  apply (provider_nodes_unusable (fun _ => true) None None false [OSelector lonely] lonely_registry
    (refresh_nodes lonely_registry (lit "auto") [lit "hk"]) [lit "hk"] (lit "auto") (lit "hk")
    (Selector (selector_refresh (Selector_new lonely None None false) [lit "hk"]))
    (Selector (selector_refresh (Selector_new lonely None None false) [lit "hk"])) 0 0).
  - vm_compute. reflexivity.
  - apply rtc_once. apply (registry_obj [lit "hk"] lonely_registry (lit "auto") (Selector (Selector_new lonely None None false)));
      [vm_compute; reflexivity|by apply step_nodes_s].
  - vm_compute. reflexivity.
  - vm_compute. reflexivity.
  - apply (bool_decide_unpack _). vm_compute. exact I.
Defined.

Lemma provider_shadows_group_witness :
  forall fuel, resolve fuel (refresh_nodes lonely_registry (lit "auto") [lit "auto"; lit "hk"]) 0 (lit "auto") = Stuck.
Proof.
  apply (provider_shadows_group lonely None 0 [lit "hk"] lonely_registry); [reflexivity|reflexivity| |vm_compute; reflexivity].
  apply (bool_decide_unpack _). vm_compute. exact I.
Defined.
