(* ===== verification/Stats.v ===== *)
(** * Stats: the counters of [src/app/stats.rs] and the guards that keep them.

    The counters are 64-bit atomics whose additions wrap; every method is one
    atomic addition or more, so the order in which tasks interleave does not
    matter for the totals, and a history of calls is a list.  The abstract
    specification is a ledger of what was opened, closed and counted; the
    counters refine it. *)

From S2P Require Import Prelude RustStr.

Local Open Scope reflex_scope.

Record TagStats : Type := mkTagStats {
  tcp_active : Z;
  udp_active : Z;
  tcp_total : Z;
  udp_total : Z;
  bytes_up : Z;
  bytes_down : Z;
  errors : Z
}.

Definition TagSnapshot_zero : TagStats := mkTagStats 0 0 0 0 0 0 0.

(** [fetch_add], [fetch_sub] *)
Definition fetch_add (c n : Z) : Z := as_u64 (c + n).
Definition fetch_sub (c n : Z) : Z := as_u64 (c - n).

Abbreviation stats := (gmap (list Z) TagStats) (only parsing).

(** [Stats::tag]: the entry, made on first use. *)
Definition stats_tag (s : stats) (tag : str) : TagStats := match s !! tag with Some t => t | None => TagSnapshot_zero end.

Inductive GuardKind : Type := TcpGuard | UdpGuard.

Definition guard_new (k : GuardKind) (t : TagStats) : TagStats :=
  match k with
  | TcpGuard => mkTagStats (fetch_add (tcp_active t) 1) (udp_active t) (fetch_add (tcp_total t) 1) (udp_total t) (bytes_up t) (bytes_down t) (errors t)
  | UdpGuard => mkTagStats (tcp_active t) (fetch_add (udp_active t) 1) (tcp_total t) (fetch_add (udp_total t) 1) (bytes_up t) (bytes_down t) (errors t)
  end.

Definition add_bytes (t : TagStats) (up down : Z) : TagStats :=
  mkTagStats (tcp_active t) (udp_active t) (tcp_total t) (udp_total t) (fetch_add (bytes_up t) up) (fetch_add (bytes_down t) down) (errors t).

Definition record_error (t : TagStats) : TagStats :=
  mkTagStats (tcp_active t) (udp_active t) (tcp_total t) (udp_total t) (bytes_up t) (bytes_down t) (fetch_add (errors t) 1).

Definition guard_drop (k : GuardKind) (t : TagStats) : TagStats :=
  match k with
  | TcpGuard => mkTagStats (fetch_sub (tcp_active t) 1) (udp_active t) (tcp_total t) (udp_total t) (bytes_up t) (bytes_down t) (errors t)
  | UdpGuard => mkTagStats (tcp_active t) (fetch_sub (udp_active t) 1) (tcp_total t) (udp_total t) (bytes_up t) (bytes_down t) (errors t)
  end.

(** The loop body of [global_snapshot]. *)
Definition add_snapshot (acc s : TagStats) : TagStats :=
  mkTagStats (as_u64 (tcp_active acc + tcp_active s)) (as_u64 (udp_active acc + udp_active s)) (as_u64 (tcp_total acc + tcp_total s))
    (as_u64 (udp_total acc + udp_total s)) (as_u64 (bytes_up acc + bytes_up s)) (as_u64 (bytes_down acc + bytes_down s))
    (as_u64 (errors acc + errors s)).

(** [iter]: the entries in the map's iteration order. *)
Definition global_snapshot (iter : list TagStats) : TagStats := fold_left add_snapshot iter TagSnapshot_zero.

(** A call on a guard of the given kind and tag; [Lookup] is [Stats::tag] alone. *)
Inductive stats_call : Type :=
  | Lookup (tag : str)
  | Open (k : GuardKind) (tag : str)
  | AddBytes (tag : str) (up down : Z)
  | RecordError (tag : str)
  | Close (k : GuardKind) (tag : str).

Definition call_tag (c : stats_call) : str :=
  match c with Lookup t | Open _ t | AddBytes t _ _ | RecordError t | Close _ t => t end.

Definition call_on (c : stats_call) (t : TagStats) : TagStats :=
  match c with
  | Lookup _ => t
  | Open k _ => guard_new k t
  | AddBytes _ up down => add_bytes t up down
  | RecordError _ => record_error t
  | Close k _ => guard_drop k t
  end.

Definition exec_call (s : stats) (c : stats_call) : stats := <[call_tag c := call_on c (stats_tag s (call_tag c))]> s.

(** ** The ledger *)

(** What the numbers mean, without a width: guards opened and not closed, guards
    opened, bytes and errors reported. *)
Definition count (f : stats_call -> Z) (history : list stats_call) : Z := fold_right (fun c n => f c + n) 0 history.

Definition weigh (tag : str) (f : stats_call -> Z) (c : stats_call) : Z := if decide (call_tag c = tag) then f c else 0.

Definition kind_eqb (k k' : GuardKind) : bool := match k, k' with TcpGuard, TcpGuard | UdpGuard, UdpGuard => true | _, _ => false end.

Definition opens (k : GuardKind) (c : stats_call) : Z := match c with Open k' _ => if kind_eqb k k' then 1 else 0 | _ => 0 end.
Definition closes (k : GuardKind) (c : stats_call) : Z := match c with Close k' _ => if kind_eqb k k' then 1 else 0 | _ => 0 end.
Definition ups (c : stats_call) : Z := match c with AddBytes _ up _ => up | _ => 0 end.
Definition downs (c : stats_call) : Z := match c with AddBytes _ _ down => down | _ => 0 end.
Definition errs (c : stats_call) : Z := match c with RecordError _ => 1 | _ => 0 end.

(** The entry of a ledger: its numbers reduced to the counters' width. *)
Definition ledger (select : (stats_call -> Z) -> stats_call -> Z) (history : list stats_call) : TagStats :=
  mkTagStats
    (as_u64 (count (select (fun c => opens TcpGuard c - closes TcpGuard c)) history))
    (as_u64 (count (select (fun c => opens UdpGuard c - closes UdpGuard c)) history))
    (as_u64 (count (select (opens TcpGuard)) history)) (as_u64 (count (select (opens UdpGuard)) history))
    (as_u64 (count (select ups) history)) (as_u64 (count (select downs) history)) (as_u64 (count (select errs) history)).

Lemma count_app f h1 h2 : count f (h1 ++ h2) = count f h1 + count f h2.
Proof. unfold count. induction h1 as [|c h1 IH]; cbn; [lia|]. unfold count in *. cbn in *. lia. Qed.

Lemma count_snoc f h c : count f (h ++ [c]) = count f h + f c.
Proof. rewrite count_app. cbn. lia. Qed.

Lemma u64_add a b : as_u64 (as_u64 a + b) = as_u64 (a + b).
Proof. unfold as_u64, wrap. apply Zplus_mod_idemp_l. Qed.

Lemma u64_sub a b : as_u64 (as_u64 a - b) = as_u64 (a - b).
Proof. unfold as_u64, wrap. apply Zminus_mod_idemp_l. Qed.

Lemma weigh_same f c : weigh (call_tag c) f c = f c.
Proof. unfold weigh. by rewrite decide_True. Qed.

Lemma weigh_other tag f c : call_tag c <> tag -> weigh tag f c = 0.
Proof. intros Hc. unfold weigh. by rewrite decide_False. Qed.

Lemma ledger_other tag h c : call_tag c <> tag -> ledger (weigh tag) (h ++ [c]) = ledger (weigh tag) h.
Proof. intros Hc. unfold ledger. rewrite !count_snoc, !weigh_other by done. by rewrite !Z.add_0_r. Qed.

Lemma ledger_call h c : call_on c (ledger (weigh (call_tag c)) h) = ledger (weigh (call_tag c)) (h ++ [c]).
Proof.
  unfold ledger. rewrite !count_snoc, !weigh_same.
  destruct c as [t|[] t|t up down|t|[] t]; cbn [call_on guard_new guard_drop add_bytes record_error opens closes ups downs errs kind_eqb
    tcp_active udp_active tcp_total udp_total bytes_up bytes_down errors call_tag];
    unfold add_bytes, record_error; cbn [tcp_active udp_active tcp_total udp_total bytes_up bytes_down errors];
    unfold fetch_add, fetch_sub; rewrite ?u64_add, ?u64_sub; f_equal; f_equal; lia.
Qed.

Lemma ledger_nil f : ledger f [] = TagSnapshot_zero.
Proof. done. Qed.

Lemma exec_ledger (h : list stats_call) (s : gmap (list Z) TagStats) :
  (forall tag, stats_tag (fold_left exec_call h s) tag = ledger (weigh tag) h) \/ s <> ∅.
Proof.
  destruct (decide (s = ∅)) as [->|]; [left|by right]. intros tag. induction h as [|c h IH] using rev_ind.
  - rewrite ledger_nil. unfold stats_tag. cbn. by rewrite lookup_empty.
  - rewrite fold_left_app. cbn [fold_left]. unfold exec_call at 1. unfold stats_tag at 1.
    destruct (decide (call_tag c = tag)) as [<-|Hne].
    + rewrite lookup_insert_eq. rewrite IH. apply ledger_call.
    + rewrite lookup_insert_ne by done. fold (stats_tag (fold_left exec_call h ∅) tag). by rewrite ledger_other, IH.
Qed.

(** ** The global snapshot *)

Definition total (f : TagStats -> Z) (l : list TagStats) : Z := fold_right (fun t n => f t + n) 0 l.

Lemma total_perm f l l' : l ≡ₚ l' -> total f l = total f l'.
Proof. induction 1 as [|x l l' _ IH|x y l|l l' l'' _ IH1 _ IH2]; unfold total in *; cbn; lia. Qed.

Lemma global_fold (f : TagStats -> Z) l acc :
  (forall a t, f (add_snapshot a t) = as_u64 (f a + f t)) -> as_u64 (f acc) = f acc ->
  f (fold_left add_snapshot l acc) = as_u64 (f acc + total f l).
Proof.
  intros Hf. revert acc. induction l as [|t l IH]; intros acc Ha; cbn [fold_left].
  - unfold total. cbn. by rewrite Z.add_0_r.
  - rewrite IH; rewrite Hf; unfold total; cbn [fold_right]; rewrite ?u64_add.
    + f_equal. lia.
    + unfold as_u64, wrap. apply Z.mod_mod. lia.
Qed.

(** Adding up per tag is adding up. *)
Lemma weigh_keys (ks : list str) f c : NoDup ks -> fold_right (fun k n => weigh k f c + n) 0 ks = if decide (call_tag c ∈ ks) then f c else 0.
Proof.
  induction 1 as [|k ks Hk _ IH]; cbn [fold_right]; [by rewrite decide_False by apply not_elem_of_nil|]. rewrite IH. unfold weigh.
  destruct (decide (call_tag c = k)) as [->|Hne].
  - rewrite decide_False by done. rewrite decide_True by by left. lia.
  - destruct (decide (call_tag c ∈ ks)) as [Hin|Hin]; [by rewrite decide_True by by right|].
    rewrite decide_False; [done|]. intros [?|?]%elem_of_cons; done.
Qed.

Lemma fold_right_add {A} (f g : A -> Z) l :
  fold_right (fun x n => (f x + g x) + n) 0 l = fold_right (fun x n => f x + n) 0 l + fold_right (fun x n => g x + n) 0 l.
Proof. induction l as [|x l IH]; cbn; lia. Qed.

Lemma count_keys (ks : list str) f h : NoDup ks -> (forall c, c ∈ h -> call_tag c ∈ ks) ->
  fold_right (fun k n => count (weigh k f) h + n) 0 ks = count f h.
Proof.
  intros Hnd. induction h as [|c h IH]; intros Hin.
  - unfold count. cbn. clear. induction ks; cbn; lia.
  - change (fold_right (fun k n => (weigh k f c + count (weigh k f) h) + n) 0 ks = f c + count f h).
    rewrite fold_right_add, weigh_keys by done. rewrite decide_True by (apply Hin; by left). rewrite IH; [done|].
    intros x Hx. apply Hin. by right.
Qed.

Lemma total_mod f g (l : list (str * TagStats)) : (forall x, x ∈ l -> f x.2 = as_u64 (g x.1)) ->
  as_u64 (total f (map snd l)) = as_u64 (fold_right (fun k n => g k + n) 0 (map fst l)).
Proof.
  induction l as [|x l IH]; intros H; [done|]. unfold total in *. cbn [map fold_right]. rewrite H by by left. rewrite u64_add.
  rewrite Z.add_comm, <-u64_add, IH by (intros y Hy; apply H; by right). rewrite u64_add. f_equal. lia.
Qed.

Lemma exec_keys (h : list stats_call) k : is_Some (fold_left exec_call h (∅ : gmap (list Z) TagStats) !! k) <-> k ∈ map call_tag h.
Proof.
  induction h as [|c h IH] using rev_ind; [cbn; rewrite lookup_empty; split; [by intros [? ?]|intros H; by apply elem_of_nil in H]|].
  rewrite fold_left_app, map_app, elem_of_app, <-IH. cbn [fold_left map]. unfold exec_call at 1.
  rewrite lookup_insert_is_Some', list_elem_of_singleton. naive_solver.
Qed.

(** One field of the global snapshot. *)
Lemma global_field (f : TagStats -> Z) (g : stats_call -> Z) (history : list stats_call) iter :
  (forall a t, f (add_snapshot a t) = as_u64 (f a + f t)) -> f TagSnapshot_zero = 0 ->
  (forall tag, f (ledger (weigh tag) history) = as_u64 (count (weigh tag g) history)) ->
  iter ≡ₚ map snd (map_to_list (fold_left exec_call history ∅)) -> f (global_snapshot iter) = as_u64 (count g history).
Proof.
  intros Hf H0 Hg Hi. unfold global_snapshot. rewrite global_fold; [|done|by rewrite H0].
  rewrite H0, Z.add_0_l, (total_perm f _ _ Hi).
  rewrite (total_mod f (fun k => count (weigh k g) history)).
  - f_equal. apply count_keys; [apply NoDup_fst_map_to_list|]. intros c Hc.
    assert (is_Some (fold_left exec_call history (∅ : gmap (list Z) TagStats) !! call_tag c)) as [t Ht].
    { apply exec_keys. by apply (list_elem_of_fmap_2 call_tag). }
    apply elem_of_map_to_list in Ht. by apply (list_elem_of_fmap_2 fst) in Ht.
  - intros [k t] Hx%elem_of_map_to_list. cbn [fst snd]. rewrite <-Hg. f_equal.
    destruct (exec_ledger history ∅) as [H|H]; [|done]. rewrite <-H. unfold stats_tag. by rewrite Hx.
Qed.

(** C8. Statistics refine the ledger: after any history of calls on guards, however
    the calls of concurrent tasks are ordered, each tag's snapshot is what the
    ledger says of that tag - active is opened less closed - modulo the width of
    the counters, a tag never used reads as zeros, and the global snapshot is the
    ledger of all tags. *)
Theorem stats_refine_ledger (history : list stats_call) (iter : list TagStats) (st := fold_left exec_call history ∅) :
  iter ≡ₚ map snd (map_to_list st) ->
  (forall tag, stats_tag st tag = ledger (weigh tag) history) /\ global_snapshot iter = ledger (fun f => f) history.
Proof.
  intros Hi. split; [by destruct (exec_ledger history ∅) as [H|H]|].
  assert (E : global_snapshot iter = mkTagStats (tcp_active (global_snapshot iter)) (udp_active (global_snapshot iter))
    (tcp_total (global_snapshot iter)) (udp_total (global_snapshot iter)) (bytes_up (global_snapshot iter))
    (bytes_down (global_snapshot iter)) (errors (global_snapshot iter))) by by destruct (global_snapshot iter).
  rewrite E. unfold ledger. f_equal; (eapply global_field; [| | |exact Hi]); done.
Qed.

Lemma stats_refine_ledger_witness :
  let h := [Open TcpGuard (lit "p"); Open TcpGuard (lit "p"); Open UdpGuard (lit "d"); AddBytes (lit "p") 100 200; Close TcpGuard (lit "p")] in
  let st := fold_left exec_call h ∅ in
  stats_tag st (lit "p") = mkTagStats 1 0 2 0 100 200 0 /\
  global_snapshot (map snd (map_to_list st)) = mkTagStats 1 1 2 1 100 200 0.
Proof.
  cbv zeta.
  destruct (stats_refine_ledger [Open TcpGuard (lit "p"); Open TcpGuard (lit "p"); Open UdpGuard (lit "d"); AddBytes (lit "p") 100 200;
    Close TcpGuard (lit "p")] (map snd (map_to_list (fold_left exec_call [Open TcpGuard (lit "p"); Open TcpGuard (lit "p");
    Open UdpGuard (lit "d"); AddBytes (lit "p") 100 200; Close TcpGuard (lit "p")] (∅ : gmap (list Z) TagStats))))) as [H1 H2]; [reflexivity|].
  split; [rewrite H1; vm_compute; reflexivity|rewrite H2; vm_compute; reflexivity].
Defined.

