(* ===== verification/Dispatcher.v ===== *)
(** * Dispatcher: [src/app/dispatcher.rs].

    The body of the accept loops of [run_tcp] and [run_udp]: the target of a fake
    address is restored, the connection is sniffed and routed (at most three
    times), then handed to the DNS module, an outbound, or a UDP session task.
    The answers of the DNS upstreams are the parameter [ask], the read the sniffer
    makes is a [sniff_read], and what an outbound does with a connection is an
    outcome.  A channel is its queue and whether its receiver still exists; times
    are nanoseconds. *)

From S2P Require Import Prelude RustStr Extern Format Trie IpMatch Compiler Loader Matcher MatchSafe CacheFile Inbound QuicCrypto Sniff Router RouterSpec DnsWire DnsTopo FakeIp DnsCache DnsResolver Config ConfigSpec Stats.

(** ** UDP session timeouts *)

Definition secs (n : Z) : Z := n * 10 ^ 9.

Definition UDP_TIMEOUT : Z := secs 300.

Definition udp_timeout_for_port (port : Z) : Z :=
  if port =? 53 then secs 10
  else if port =? 123 then secs 10
  else if port =? 3478 then secs 10
  else if port =? 443 then secs 30
  else UDP_TIMEOUT.

(** ** Deciding where a connection goes *)

(** A routing decision: the action and the text of the rule that took it. *)
Abbreviation decision := (RouteAction * str * str)%type (only parsing).

Definition with_target (conn : InboundTcpStream) (t : Target) : InboundTcpStream :=
  mkTcp (t_stream conn) t (t_inbound_tag conn) (t_sniffed_protocol conn) (t_sniffed_domain conn).

Definition with_stream (conn : InboundTcpStream) (s : SniffedStream) : InboundTcpStream :=
  mkTcp s (t_target conn) (t_inbound_tag conn) (t_sniffed_protocol conn) (t_sniffed_domain conn).

(** What the result of a sniff changes. *)
Definition apply_sniff (conn : InboundTcpStream) (override_destination : bool) (result : SniffResult) : InboundTcpStream :=
  let port := Target_port (t_target conn) in
  let proto := match t_sniffed_protocol conn with None => Some (sn_protocol result) | p => p end in
  match sn_domain result with
  | Some d =>
      if override_destination
      then mkTcp (t_stream conn) (TDomain d port) (t_inbound_tag conn) proto (t_sniffed_domain conn)
      else mkTcp (t_stream conn) (t_target conn) (t_inbound_tag conn) proto (Some d)
  | None => mkTcp (t_stream conn) (t_target conn) (t_inbound_tag conn) proto (t_sniffed_domain conn)
  end.

(** DNS over TCP: port 53, nothing sniffed, and a DNS message after the length. *)
Definition detect_dns_tcp (conn : InboundTcpStream) : run InboundTcpStream :=
  if (Target_port (t_target conn) =? 53) && bool_decide (t_sniffed_protocol conn = None) && (len (prefix (t_stream conn)) >=? 14) then
    dns_buf ← slice (prefix (t_stream conn)) 2 (len (prefix (t_stream conn)));
    is_dns ← is_dns_wire dns_buf;
    Ret (if is_dns : bool
         then mkTcp (t_stream conn) (t_target conn) (t_inbound_tag conn) (Some (lit "dns")) (t_sniffed_domain conn)
         else conn)
  else Ret conn.

Definition sniff_conn (conn : InboundTcpStream) (read : sniff_read) (override_destination : bool) (types : list SniffType)
    : run InboundTcpStream :=
  let s := sniff (t_stream conn) read types in
  result ← s.1;
  let conn := with_stream conn s.2 in
  detect_dns_tcp (match result with Some r => apply_sniff conn override_destination r | None => conn end).

(** UDP: the payload itself is looked at. *)
Definition detect_dns_udp (p : InboundUdpPacket) : run InboundUdpPacket :=
  match u_sniffed_protocol p with
  | Some _ => Ret p
  | None =>
      is_dns ← is_dns_wire (u_data p);
      Ret (if is_dns : bool
           then mkUdp (u_data p) (u_src p) (u_target p) (u_inbound_tag p) (Some (lit "dns")) (u_sniffed_domain p)
           else p)
  end.

Section Decide.
Context {FST : FstLib} {RX : RegexLib} {IO : HostIO} {UL : UnicodeLib}.
Context (router : Router) (dns_resolver : DnsResolver) (ask : DnsUpstream -> bytes -> result bytes str).

(** A target inside a fake range becomes the domain the address stands for. *)
Definition restore_target (ss : stores) (t : Target) : Target :=
  match t with
  | TSocket a =>
      match lookup_fakeip (dr_upstreams dns_resolver) ss (ip a) with
      | Some domain => TDomain domain (sock_port a)
      | None => t
      end
  | TDomain _ _ => t
  end.

Definition resolve_host (server : option str) (host : str) : run (result IpAddr DnsError) :=
  upstream ← match server with
             | Some tag => Ret (resolve_upstream_via dns_resolver tag)
             | None => resolve_upstream dns_resolver host
             end;
  resolve_domain_with_strategy host (dr_strategy dns_resolver) (ask upstream).

(** The resolve step: [again] is [route_*_after_resolve] of the connection. *)
Definition resolve_action (again : Target -> run decision) (t : Target) (d : decision) : run decision :=
  match d.1.1 with
  | Resolve server =>
      match t with
      | TDomain host port =>
          res ← resolve_host server host;
          match res with
          | Ok a => again (TSocket {| ip := a; sock_port := port |})
          | Err _ => again t
          end
      | TSocket _ => again t
      end
  | _ => Ret d
  end.

Definition route_conn (ss : stores) (conn : InboundTcpStream) (read : sniff_read) : run (InboundTcpStream * decision) :=
  let conn := with_target conn (restore_target ss (t_target conn)) in
  first ← route_tcp router conn;
  sniffed ← match first.1.1 with
            | Sniff _ override_destination sniff_types =>
                conn ← sniff_conn conn read override_destination sniff_types;
                d ← route_tcp_after_sniff router conn (t_target conn);
                Ret (conn, d)
            | _ => Ret (conn, first)
            end;
  d ← resolve_action (route_tcp_after_resolve router sniffed.1) (t_target sniffed.1) sniffed.2;
  Ret (sniffed.1, d).

Definition restore_packet (ss : stores) (p : InboundUdpPacket) : InboundUdpPacket :=
  mkUdp (u_data p) (u_src p) (restore_target ss (u_target p)) (u_inbound_tag p) (u_sniffed_protocol p) (u_sniffed_domain p).

Definition route_packet (ss : stores) (p : InboundUdpPacket) : run (InboundUdpPacket * decision) :=
  p ← detect_dns_udp (restore_packet ss p);
  first ← route_udp router p;
  second ← (if is_sniff first.1.1 then route_udp_after_sniff router p else Ret first);
  d ← resolve_action (route_udp_after_resolve router p) (u_target p) second;
  Ret (p, d).
End Decide.

(** ** Handing it over *)

(** What an outbound's [handle_tcp_live], or the DNS relay, came to. *)
Inductive relay_outcome : Type :=
  | Relayed (up down : Z)
  | RelayFailed.

Inductive DispatchError : Type :=
  | OutboundNotFound (tag : str)
  | RelayError.

Definition DNS_OUT : str := lit "dns-out".

(** [has tag] is [mgr.get(tag)]; the calls on the statistics are listed in order.
    [unreachable!] is a panic. *)
Definition dispatch_tcp (has : str -> bool) (action : RouteAction) (outcome : relay_outcome)
    : run (result unit DispatchError * list stats_call) :=
  match action with
  | DnsOut =>
      Ret (match outcome with
           | Relayed _ _ => (Ok tt, [Open TcpGuard DNS_OUT; Close TcpGuard DNS_OUT])
           | RelayFailed => (Err RelayError, [Open TcpGuard DNS_OUT; RecordError DNS_OUT; Close TcpGuard DNS_OUT])
           end)
  | Outbound tag =>
      if has tag then
        Ret (match outcome with
             | Relayed up down => (Ok tt, [Open TcpGuard tag; AddBytes tag up down; Close TcpGuard tag])
             | RelayFailed => (Err RelayError, [Open TcpGuard tag; RecordError tag; Close TcpGuard tag])
             end)
      else Ret (Err (OutboundNotFound tag), [])
  | Sniff _ _ _ | Resolve _ => Panic
  end.

(** UDP reports neither bytes nor errors; a stray action drops the packet. *)
Definition dispatch_udp (has : str -> bool) (action : RouteAction) (outcome : relay_outcome)
    : result unit DispatchError * list stats_call :=
  let res := match outcome with Relayed _ _ => Ok tt | RelayFailed => Err RelayError end in
  match action with
  | DnsOut => (res, [Open UdpGuard DNS_OUT; Close UdpGuard DNS_OUT])
  | Outbound tag =>
      if has tag then (res, [Open UdpGuard tag; Close UdpGuard tag]) else (Err (OutboundNotFound tag), [])
  | Sniff _ _ _ | Resolve _ => (Ok tt, [])
  end.

(** ** UDP sessions *)

(** [(src, target, outbound)] *)
Abbreviation UdpSessionKey := (SocketAddr * list Z * list Z)%type (only parsing).

(** A session task: the arguments of [run_udp_session], and its channel's queue,
    what it has taken from it, and whether it still holds the receiver. *)
Record session_task : Type := mkTask {
  st_src : SocketAddr;
  st_target : Target;
  st_inbound : str;
  st_outbound : str;
  st_rule : str * str;
  st_timeout : Z;
  st_queue : list bytes;
  st_taken : list bytes;
  st_open : bool
}.

Definition st_key (t : session_task) : UdpSessionKey := (st_src t, show_target (st_target t), st_outbound t).

Definition with_queue (t : session_task) (q taken : list bytes) (op : bool) : session_task :=
  mkTask (st_src t) (st_target t) (st_inbound t) (st_outbound t) (st_rule t) (st_timeout t) q taken op.

(** [data_tx] is the task's number. *)
Record UdpSessionHandle : Type := mkHandle { data_tx : nat; last_seen : Z }.

Abbreviation session_table := (gmap UdpSessionKey UdpSessionHandle) (only parsing).

(** [!data_tx.is_closed()] *)
Definition is_open (tasks : list session_task) (tx : nat) : bool :=
  match tasks !! tx with Some t => st_open t | None => false end.

(** [data_tx.try_send(data)]: dropped when the queue holds 64 payloads or the
    receiver is gone. *)
Definition try_send (tasks : list session_task) (tx : nat) (data : bytes) : list session_task :=
  match tasks !! tx with
  | Some t =>
      if st_open t && (len (st_queue t) <? 64)
      then <[tx := with_queue t (st_queue t ++ [data]) (st_taken t) true]> tasks
      else tasks
  | None => tasks
  end.

Definition get_live (tasks : list session_task) (sessions : session_table) (key : UdpSessionKey)
    : option UdpSessionHandle * session_table :=
  match sessions !! key with
  | Some h => if is_open tasks (data_tx h) then (Some h, sessions) else (None, delete key sessions)
  | None => (None, delete key sessions)
  end.

(** [retain(|_, h| !h.data_tx.is_closed() && h.last_seen.elapsed() < UDP_TIMEOUT * 2)] *)
Definition table_gc (tasks : list session_task) (now : Z) (sessions : session_table) : session_table :=
  filter (fun e => is_open tasks (data_tx e.2) = true /\ now - last_seen e.2 < UDP_TIMEOUT * 2) sessions.

Record udp_state : Type := mkUdpState { us_sessions : session_table; us_tasks : list session_task }.

(** What a turn of the loop starts: a session task, or a one-shot dispatch. *)
Inductive udp_effect : Type :=
  | Spawned (task : nat)
  | Dispatched (p : InboundUdpPacket) (d : decision).

(** The part of the loop body after the decision. *)
Definition forward (s : udp_state) (now : Z) (p : InboundUdpPacket) (d : decision) : udp_state * list udp_effect :=
  match d.1.1 with
  | Outbound outbound_tag =>
      let session_key := (u_src p, show_target (u_target p), outbound_tag) in
      let timeout := udp_timeout_for_port (Target_port (u_target p)) in
      match get_live (us_tasks s) (us_sessions s) session_key with
      | (Some h, sessions) =>
          (mkUdpState (<[session_key := mkHandle (data_tx h) now]> sessions) (try_send (us_tasks s) (data_tx h) (u_data p)), [])
      | (None, sessions) =>
          let tx := length (us_tasks s) in
          let task := mkTask (u_src p) (u_target p) (u_inbound_tag p) outbound_tag (d.1.2, d.2) timeout [] [] true in
          (mkUdpState (<[session_key := mkHandle tx now]> sessions) (try_send (us_tasks s ++ [task]) tx (u_data p)), [Spawned tx])
      end
  | _ => (s, [Dispatched p d])
  end.

(** A turn of the loop, or a move of a session task: it takes a payload from its
    queue, or it ends and drops its receiver. *)
Inductive udp_event : Type :=
  | UPacket (ss : gmap (list Z) FakeIpStore) (now : Z) (p : InboundUdpPacket)
  | UTick (now : Z)
  | UTake (task : nat)
  | UEnd (task : nat).

Definition task_take (t : session_task) : session_task :=
  match st_queue t with
  | x :: q => if st_open t then with_queue t q (st_taken t ++ [x]) true else t
  | [] => t
  end.

Definition task_end (t : session_task) : session_task := with_queue t [] (st_taken t) false.

Section UdpLoop.
Context {FST : FstLib} {RX : RegexLib} {IO : HostIO} {UL : UnicodeLib}.
Context (router : Router) (dns_resolver : DnsResolver) (ask : DnsUpstream -> bytes -> result bytes str).

Definition udp_step (s : udp_state) (ev : udp_event) : run (udp_state * list udp_effect) :=
  match ev with
  | UPacket ss now p =>
      routed ← route_packet router dns_resolver ask ss p;
      Ret (forward s now routed.1 routed.2)
  | UTick now => Ret (mkUdpState (table_gc (us_tasks s) now (us_sessions s)) (us_tasks s), [])
  | UTake tx => Ret (mkUdpState (us_sessions s) (alter task_take tx (us_tasks s)), [])
  | UEnd tx => Ret (mkUdpState (us_sessions s) (alter task_end tx (us_tasks s)), [])
  end.

Fixpoint run_udp (s : udp_state) (evs : list udp_event) : run (udp_state * list udp_effect) :=
  match evs with
  | [] => Ret (s, [])
  | ev :: evs =>
      r ← udp_step s ev;
      rest ← run_udp r.1 evs;
      Ret (rest.1, r.2 ++ rest.2)
  end.
End UdpLoop.

Definition udp_idle : udp_state := mkUdpState ∅ [].

(** What [data_rx.recv()] under the session's timeout comes to. *)
Inductive first_recv : Type :=
  | FirstPayload (data : bytes)
  | SenderGone
  | IdleTimeout.

(** [run_udp_session]: the packet given to the outbound, the calls on the
    statistics, and what is added to the live upload counter of the connection
    list.  Later payloads reach the outbound through [upstream_rx], past the
    counter. *)
Definition run_udp_session (has : str -> bool) (t : session_task) (recv : first_recv)
    : option InboundUdpPacket * list stats_call * Z :=
  if has (st_outbound t) then
    let calls := [Open UdpGuard (st_outbound t); Close UdpGuard (st_outbound t)] in
    match recv with
    | FirstPayload data => (Some (mkUdp data (st_src t) (st_target t) (st_inbound t) None None), calls, len data)
    | SenderGone | IdleTimeout => (None, calls, 0)
    end
  else (None, [], 0).

(** ** DNS over TCP, relayed to the DNS module *)

Inductive DnsTcpError : Type :=
  | DnsTcpTooLarge (n : Z)
  | DnsTcpEof
  | DnsReplyDropped.

(** [input] is what the client sends until it closes; [answer] what the DNS module
    replies to a message.  The second component is what the client gets back. *)
Fixpoint handle_dns_tcp (fuel : nat) (answer : bytes -> option bytes) (input : bytes)
    : run (result unit DnsTcpError * bytes) :=
  match fuel with
  | O => Stuck
  | S fuel =>
      if len input <? 2 then Ret (Ok tt, [])
      else
        let n := from_be_bytes (take 2 input) in
        let rest := drop 2 input in
        if n >? 4096 then Ret (Err (DnsTcpTooLarge n), [])
        else if len rest <? n then Ret (Err DnsTcpEof, [])
        else
          match answer (take (Z.to_nat n) rest) with
          | None => Ret (Err DnsReplyDropped, [])
          | Some resp =>
              r ← handle_dns_tcp fuel answer (drop (Z.to_nat n) rest);
              Ret (r.1, to_be_bytes 2 (as_u16 (len resp)) ++ resp ++ r.2)
          end
  end.

(** ** Every connection is dispatched *)

Section DecideSpec.
Context {FST : FstLib} {RX : RegexLib} {IO : HostIO} {UL : UnicodeLib}.
Context (r : Router) (dns : DnsResolver) (ask : DnsUpstream -> bytes -> result bytes str).
Context (Hbuilt : built r) (Hrules : Forall rule_wf (rt_rules r)) (Hdns : Forall dns_rule_wf (dr_rules dns)).
Context (Hask : forall u q resp, ask u q = Ok resp -> bytes_ok resp).

Lemma answer_ip_returns res qtype : (forall resp, res = Ok resp -> bytes_ok resp) -> returns (answer_ip res qtype).
Proof. destruct res as [resp|]; intros H; [|apply returns_ret]. by apply (dns_wire_returns resp [] qtype), H. Qed.

Lemma resolve_host_returns server host : returns (resolve_host dns ask server host).
Proof.
  unfold resolve_host. apply returns_bind.
  - destruct server; [apply returns_ret|]. unfold resolve_upstream.
    destruct (find_rule_spec (fun c => negb (is_fakeip (upstream c))) (dr_rules dns) [] host 1 Hdns) as (res & -> & _).
    apply returns_ret.
  - intros up _. unfold resolve_domain_with_strategy. destruct (IpAddr_from_str host); [apply returns_ret|].
    destruct (dr_strategy dns); repeat (apply returns_bind; [apply answer_ip_returns, Hask|intros ? _]); apply returns_ret.
Qed.

Lemma resolve_action_spec (P : RouteAction * str * str -> Prop) again t d : target_port_ok t ->
  (forall t', target_port_ok t' -> exists res, again t' = Ret res /\ P res) -> (is_resolve d.1.1 = false -> P d) ->
  exists res, resolve_action dns ask again t d = Ret res /\ P res.
Proof.
  intros Ht Hagain Hd. unfold resolve_action. destruct (d.1.1) as [tag| |? ? ?|server]; try by (exists d; auto).
  destruct t as [host port|a]; [|by apply Hagain]. destruct (resolve_host_returns server host) as [res ->]. rewrite bind_Ret.
  destruct res as [a|e]; by apply Hagain.
Qed.

Lemma restore_target_ok ss t : target_port_ok t -> target_port_ok (restore_target dns ss t).
Proof. destruct t as [d p|a]; [done|]. cbn [restore_target]. by destruct (lookup_fakeip _ _ _). Qed.

Lemma detect_dns_tcp_spec conn : bytes_ok (prefix (t_stream conn)) ->
  exists conn', detect_dns_tcp conn = Ret conn' /\ t_stream conn' = t_stream conn /\ t_target conn' = t_target conn /\
    t_inbound_tag conn' = t_inbound_tag conn.
Proof.
  intros Hp. unfold detect_dns_tcp. case_if; [|by exists conn]. reflect_bools.
  destruct (slice_returns (prefix (t_stream conn)) 2 (len (prefix (t_stream conn)))) as [buf E]; [lia..|]. rewrite E, bind_Ret.
  destruct (is_dns_wire_returns buf) as [b ->].
  { revert E. unfold slice. case_if; [|done]. intros [= <-]. by apply Forall_take, Forall_drop. }
  rewrite bind_Ret. eexists. split; [done|]. by destruct b.
Qed.

Lemma apply_sniff_spec conn ov res : t_stream (apply_sniff conn ov res) = t_stream conn /\
  t_inbound_tag (apply_sniff conn ov res) = t_inbound_tag conn /\ Target_port (t_target (apply_sniff conn ov res)) = Target_port (t_target conn).
Proof. unfold apply_sniff. by destruct (sn_domain res), ov. Qed.

(** Sniffing a connection keeps its bytes, its inbound and its port. *)
Lemma sniff_conn_spec conn read ov types : bytes_ok (prefix (t_stream conn)) -> bytes_ok (inner (t_stream conn)) ->
  len (prefix (t_stream conn)) <= 2048 ->
  exists conn', sniff_conn conn read ov types = Ret conn' /\ pending (t_stream conn') = pending (t_stream conn) /\
    t_inbound_tag conn' = t_inbound_tag conn /\ Target_port (t_target conn') = Target_port (t_target conn).
Proof.
  intros Hp Hi Hl. unfold sniff_conn. destruct (sniff_returns (t_stream conn) read types Hp Hi) as [res ->]. rewrite bind_Ret.
  set (c1 := match res with Some _ => _ | None => _ end).
  assert (H1 : t_stream c1 = (sniff (t_stream conn) read types).2 /\ t_inbound_tag c1 = t_inbound_tag conn /\
    Target_port (t_target c1) = Target_port (t_target conn)).
  { subst c1. destruct res as [res|]; [|done]. destruct (apply_sniff_spec (with_stream conn (sniff (t_stream conn) read types).2) ov res) as (-> & -> & ->). done. }
  destruct H1 as (Es & Et & Ep). destruct (detect_dns_tcp_spec c1) as (c2 & E & Hs & Hg & Hi2).
  { rewrite Es. by apply sniff_prefix_ok. }
  exists c2. split; [done|]. rewrite Hs, Es, Hi2, Et, Hg, Ep. by rewrite sniff_pending.
Qed.

Context (obs : list str).
Context (Hobs : Forall (fun rule => delivered_or_jumps obs (cr_action rule)) (rt_rules r)) (Hdef : delivered obs (default r)).

Lemma first_pass tag nk t sniffed : target_port_ok t ->
  exists res, route r tag nk t sniffed = Ret res /\ delivered_or_jumps obs res.1.1.
Proof.
  intros Ht. destruct (route_rules_spec (rt_rules r) (default r) tag nk t sniffed Hrules Ht) as (res & E & Hm). exists res.
  split; [done|]. apply (first_match_action _ _ _ _ _ _ _ (delivered_or_jumps obs) Hm); [done|by right].
Qed.

Lemma after_sniff_pass tag nk t sniffed : target_port_ok t ->
  exists res, route_indexed r (idx_no_sniff r) tag nk t sniffed = Ret res /\ (is_resolve res.1.1 = false -> delivered obs res.1.1).
Proof.
  intros Ht. destruct (after_sniff_spec r tag nk t sniffed Hbuilt Hrules Ht) as (res & E & Hs & Hm). exists res. split; [done|].
  destruct (first_match_action _ _ _ _ _ _ _ (delivered_or_jumps obs) Hm) as [Hj|]; [by apply Forall_filter_keep|by right| |done].
  rewrite Hs in Hj. cbn in Hj. congruence.
Qed.

Lemma after_resolve_pass tag nk t sniffed : target_port_ok t ->
  exists res, route_indexed r (idx_no_sniff_resolve r) tag nk t sniffed = Ret res /\ delivered obs res.1.1.
Proof.
  intros Ht. destruct (after_resolve_spec r tag nk t sniffed Hbuilt Hrules Ht) as (res & E & Hs & Hres & Hm). exists res.
  split; [done|]. destruct (first_match_action _ _ _ _ _ _ _ (delivered_or_jumps obs) Hm) as [Hj|]; [by apply Forall_filter_keep|by right| |done].
  by rewrite Hs, Hres in Hj.
Qed.

Lemma route_conn_spec ss conn read : target_port_ok (t_target conn) -> bytes_ok (prefix (t_stream conn)) ->
  bytes_ok (inner (t_stream conn)) -> len (prefix (t_stream conn)) <= 2048 ->
  exists conn' d, route_conn r dns ask ss conn read = Ret (conn', d) /\ delivered obs d.1.1 /\
    pending (t_stream conn') = pending (t_stream conn) /\ t_inbound_tag conn' = t_inbound_tag conn.
Proof.
  intros Ht Hp Hi Hl. unfold route_conn. set (c0 := with_target conn _).
  assert (Ht0 : target_port_ok (t_target c0)) by (by apply restore_target_ok).
  destruct (first_pass (t_inbound_tag c0) (Some KTcp) (t_target c0) (t_sniffed_protocol c0) Ht0) as (first & E & Hd).
  unfold route_tcp. rewrite E, bind_Ret.
  assert (Hmid : exists c1 d1,
    match first.1.1 with
    | Sniff _ ov types => c ← sniff_conn c0 read ov types; d ← route_tcp_after_sniff r c (t_target c); Ret (c, d)
    | _ => Ret (c0, first) end = Ret (c1, d1) /\ (is_resolve d1.1.1 = false -> delivered obs d1.1.1) /\
    pending (t_stream c1) = pending (t_stream conn) /\ t_inbound_tag c1 = t_inbound_tag conn /\ target_port_ok (t_target c1)).
  { destruct (first.1.1) as [tag| |timeout ov types|server] eqn:Ea.
    3: { destruct (sniff_conn_spec c0 read ov types Hp Hi Hl) as (c1 & -> & Hpend & Htag & Hport). rewrite bind_Ret.
         assert (Ht1 : target_port_ok (t_target c1)) by (unfold target_port_ok; by rewrite Hport).
         destruct (after_sniff_pass (t_inbound_tag c1) (Some KTcp) (t_target c1) (t_sniffed_protocol c1) Ht1) as (d1 & E1 & Hd1).
         unfold route_tcp_after_sniff. rewrite E1, bind_Ret. by exists c1, d1. }
    all: exists c0, first; rewrite Ea; split_and!; try done; intros Hr; by destruct Hd as [Hj|]. }
  destruct Hmid as (c1 & d1 & -> & Hd1 & Hpend & Htag & Ht1). rewrite bind_Ret. cbn [fst snd].
  destruct (resolve_action_spec (fun d => delivered obs d.1.1) (route_tcp_after_resolve r c1) (t_target c1) d1 Ht1) as (d & -> & Hfin);
    [intros t' Ht'; by apply after_resolve_pass|done|].
  rewrite bind_Ret. by exists c1, d.
Qed.

Lemma detect_dns_udp_spec p : bytes_ok (u_data p) ->
  exists p', detect_dns_udp p = Ret p' /\ u_data p' = u_data p /\ u_src p' = u_src p /\ u_target p' = u_target p.
Proof.
  intros Hp. unfold detect_dns_udp. destruct (u_sniffed_protocol p); [by exists p|].
  destruct (is_dns_wire_returns (u_data p) Hp) as [b ->]. rewrite bind_Ret. eexists. split; [done|]. by destruct b.
Qed.

Lemma route_packet_spec ss p : target_port_ok (u_target p) -> bytes_ok (u_data p) ->
  exists p' d, route_packet r dns ask ss p = Ret (p', d) /\ delivered obs d.1.1 /\ u_data p' = u_data p /\ u_src p' = u_src p.
Proof.
  intros Ht Hp. unfold route_packet. destruct (detect_dns_udp_spec (restore_packet dns ss p) Hp) as (p1 & -> & Hdata & Hsrc & Htg).
  rewrite bind_Ret. assert (Ht1 : target_port_ok (u_target p1)) by (rewrite Htg; by apply restore_target_ok).
  destruct (first_pass (u_inbound_tag p1) (Some KUdp) (u_target p1) (u_sniffed_protocol p1) Ht1) as (first & E & Hd).
  unfold route_udp. rewrite E, bind_Ret.
  assert (Hmid : exists d1, (if is_sniff first.1.1 then route_udp_after_sniff r p1 else Ret first) = Ret d1 /\
    (is_resolve d1.1.1 = false -> delivered obs d1.1.1)).
  { destruct (is_sniff first.1.1) eqn:Ea; [by apply after_sniff_pass|]. exists first. split; [done|]. intros Hr.
    destruct Hd as [Hj|]; [|done]. by rewrite Ea, Hr in Hj. }
  destruct Hmid as (d1 & -> & Hd1). rewrite bind_Ret.
  destruct (resolve_action_spec (fun d => delivered obs d.1.1) (route_udp_after_resolve r p1) (u_target p1) d1 Ht1) as (d & -> & Hfin);
    [intros t' Ht'; by apply after_resolve_pass|done|].
  rewrite bind_Ret. by exists p1, d.
Qed.

Lemma dispatch_delivered a outcome (has := fun t => bool_decide (t ∈ obs)) (res := match outcome with Relayed _ _ => Ok tt | RelayFailed => Err RelayError end) :
  delivered obs a -> exists tag tail,
    (a = DnsOut /\ tag = DNS_OUT \/ a = Outbound tag /\ tag ∈ obs) /\
    dispatch_tcp has a outcome = Ret (res, Open TcpGuard tag :: tail ++ [Close TcpGuard tag]) /\
    Forall (fun c => opens TcpGuard c = 0 /\ closes TcpGuard c = 0) tail /\
    dispatch_udp has a outcome = (res, [Open UdpGuard tag; Close UdpGuard tag]).
Proof.
  intros [->|(t & -> & Ht)].
  - exists DNS_OUT, (match outcome with Relayed _ _ => [] | RelayFailed => [RecordError DNS_OUT] end). subst res.
    destruct outcome; (split_and!; [by left|done|by repeat constructor|done]).
  - exists t, (match outcome with Relayed up down => [AddBytes t up down] | RelayFailed => [RecordError t] end). subst has res.
    cbn [dispatch_tcp dispatch_udp]. rewrite (bool_decide_eq_true_2 (t ∈ obs)) by done.
    destruct outcome; (split_and!; [by right|done|by repeat constructor|done]).
Qed.
End DecideSpec.

Section Dispatched.
Context {FST : FstLib} {RX : RegexLib} {IO : HostIO} {UL : UnicodeLib}.

(** What the dispatcher is started with: a configuration that was accepted, the
    router built from it, rule sets that were loaded, upstreams that answer bytes. *)
Record deployed (c : Config) (r : Router) (dns_resolver : DnsResolver) (ask : DnsUpstream -> bytes -> result bytes str) : Prop := {
  dep_valid : exists keys, keys ≡ₚ (map_to_list (group_graph (outbounds c))).*1 /\ validate c keys = Ret (Ok tt);
  dep_router : exists s s' cr fault, Router_from_config s (route_cfg c) cr fault = Ret (Ok r, s');
  dep_rules : Forall rule_wf (rt_rules r);
  dep_dns : Forall dns_rule_wf (dr_rules dns_resolver);
  dep_ask u q resp : ask u q = Ok resp -> bytes_ok resp
}.

Record conn_ok (conn : InboundTcpStream) : Prop := {
  conn_port : target_port_ok (t_target conn);
  conn_prefix : bytes_ok (prefix (t_stream conn));
  conn_inner : bytes_ok (inner (t_stream conn));
  conn_peeked : len (prefix (t_stream conn)) <= 2048
}.

Definition packet_ok (p : InboundUdpPacket) : Prop := target_port_ok (u_target p) /\ bytes_ok (u_data p).

Lemma deployed_spec c r dns ask (obs := map ob_tag (outbounds c)) : deployed c r dns ask ->
  built r /\ Forall (fun rule => delivered_or_jumps obs (cr_action rule)) (rt_rules r) /\ delivered obs (default r).
Proof.
  intros [(keys & Hk & Hv) (s & s' & cr & fault & Hr) _ _ _]. assert (Hok : config_ok c).
  { destruct (checks_decide c keys Hk) as (v & E & H). apply H. congruence. }
  split; [by eapply from_config_built|]. by eapply built_delivered.
Qed.

Lemma packet_routed c r dns ask ss p (obs := map ob_tag (outbounds c)) : deployed c r dns ask -> packet_ok p ->
  exists p' d, route_packet r dns ask ss p = Ret (p', d) /\ delivered obs d.1.1 /\ u_data p' = u_data p /\ u_src p' = u_src p.
Proof.
  intros Hdep [Ht Hp]. destruct (deployed_spec c r dns ask Hdep) as (Hb & Hr & Hd). destruct Hdep as [_ _ Hw Hdns Hask].
  by apply route_packet_spec.
Qed.

(** C3. Everything is dispatched: with an accepted configuration, whatever the client
    sends and the upstreams answer, the accept loops decide without a panic, lose
    no byte to sniffing, reach a declared outbound or the DNS module, never the
    [unreachable!] arms, and leave the active counters balanced. *)
Theorem connections_dispatched (c : Config) (r : Router) (dns_resolver : DnsResolver) (ask : DnsUpstream -> bytes -> result bytes str)
    (ss : gmap (list Z) FakeIpStore) (conn : InboundTcpStream) (read : sniff_read) (pkt : InboundUdpPacket) (outcome : relay_outcome)
    (obs := map ob_tag (outbounds c)) (has := fun t => bool_decide (t ∈ obs))
    (res := match outcome with Relayed _ _ => Ok tt | RelayFailed => Err RelayError end) :
  deployed c r dns_resolver ask -> conn_ok conn -> packet_ok pkt ->
  (exists conn' d tag tail, route_conn r dns_resolver ask ss conn read = Ret (conn', d) /\ delivered obs d.1.1 /\
     pending (t_stream conn') = pending (t_stream conn) /\ t_inbound_tag conn' = t_inbound_tag conn /\
     dispatch_tcp has d.1.1 outcome = Ret (res, Open TcpGuard tag :: tail ++ [Close TcpGuard tag]) /\
     Forall (fun call => opens TcpGuard call = 0 /\ closes TcpGuard call = 0) tail) /\
  (exists pkt' d tag, route_packet r dns_resolver ask ss pkt = Ret (pkt', d) /\ delivered obs d.1.1 /\
     u_data pkt' = u_data pkt /\ u_src pkt' = u_src pkt /\
     dispatch_udp has d.1.1 outcome = (res, [Open UdpGuard tag; Close UdpGuard tag])).
Proof.
  intros Hdep [Hc1 Hc2 Hc3 Hc4] Hpkt. split.
  - destruct (deployed_spec c r dns_resolver ask Hdep) as (Hb & Hr & Hdef). destruct Hdep as [_ _ Hw Hdns Hask].
    destruct (route_conn_spec r dns_resolver ask Hb Hw Hdns Hask obs Hr Hdef ss conn read Hc1 Hc2 Hc3 Hc4) as (conn' & d & ? & Hd & ? & ?).
    destruct (dispatch_delivered obs d.1.1 outcome Hd) as (tag & tail & _ & ? & ? & _). by exists conn', d, tag, tail.
  - destruct (packet_routed c r dns_resolver ask ss pkt Hdep Hpkt) as (pkt' & d & ? & Hd & ? & ?).
    destruct (dispatch_delivered obs d.1.1 outcome Hd) as (tag & tail & _ & _ & _ & ?). by exists pkt', d, tag.
Qed.

(** With one fake-address upstream its store alone answers the reverse lookup. *)
Lemma lookup_only_fake ups ss u st addr d : u ∈ ups -> up_kind u = FakeIpKind ->
  (forall v, v ∈ ups -> is_fakeip v = true -> v = u) -> ss !! up_tag u = Some st -> FakeIpStore_contains st addr = true ->
  FakeIpStore_lookup st addr = Some d -> lookup_fakeip ups ss addr = Some d.
Proof.
  intros Hu Hk Honly Hs Hc Hl. induction ups as [|v ups IH]; [by apply elem_of_nil in Hu|]. cbn [lookup_fakeip].
  destruct (decide (v = u)) as [->|Hne]; [by rewrite Hk, Hs, Hc|]. apply elem_of_cons in Hu as [?|Hu]; [done|].
  assert (Hv : up_kind v <> FakeIpKind).
  { intros E. apply Hne, Honly; [left|]. unfold is_fakeip. by rewrite E. }
  rewrite IH; [|done|]; [by destruct (up_kind v)|]. intros w Hw. apply Honly. by right.
Qed.

(** C25. Fake addresses stand for their names: a client that asks the fake-address
    upstream for a name and connects, or sends a packet, to the answer is treated
    exactly as if it had named the domain: same decision, same forwarded target. *)
Theorem fakeip_routed_by_name (r : Router) (dns_resolver : DnsResolver) (ask : DnsUpstream -> bytes -> result bytes str)
    (ss : gmap (list Z) FakeIpStore) (u : DnsUpstream) (st : FakeIpStore) (now : Z) (name : str) (domain := join [46] (query_labels name)) :
  u ∈ dr_upstreams dns_resolver -> up_kind u = FakeIpKind ->
  (forall v, v ∈ dr_upstreams dns_resolver -> is_fakeip v = true -> v = u) -> ss !! up_tag u = Some st -> store_ok st ->
  Forall (fun l => len l < 192 /\ utf8_valid l = true) (split_on 46 name) -> query_labels name <> [] ->
  is_excluded st domain = false -> inet4_net st <> None -> strategy st <> 3 ->
  exists resp st' a, reply st now (build_query name 1) = Ret (resp, st') /\ extract_first_ip resp 1 = Ret (Some (V4 a)) /\
    (forall conn read port, t_target conn = TSocket {| ip := V4 a; sock_port := port |} ->
       route_conn r dns_resolver ask (<[up_tag u := st']> ss) conn read =
       route_conn r dns_resolver ask (<[up_tag u := st']> ss) (with_target conn (TDomain domain port)) read) /\
    (forall data src tag proto dom port,
       route_packet r dns_resolver ask (<[up_tag u := st']> ss) (mkUdp data src (TSocket {| ip := V4 a; sock_port := port |}) tag proto dom) =
       route_packet r dns_resolver ask (<[up_tag u := st']> ss) (mkUdp data src (TDomain domain port) tag proto dom)).
Proof.
  intros Hu Hk Honly Hs Hok Hn Hne Hex Hnet Hst.
  destruct (reply_resolves st now name Hok Hn Hne Hex) as [H4 _]. destruct (H4 Hnet Hst) as (resp & st' & a & Hr & Hx & Hlook & Hc).
  fold domain in Hlook. exists resp, st', a. split; [done|]. split; [done|].
  assert (Hback : forall port, restore_target dns_resolver (<[up_tag u := st']> ss) (TSocket {| ip := V4 a; sock_port := port |}) = TDomain domain port).
  { intros port. cbn [restore_target ip sock_port]. by rewrite (lookup_only_fake _ _ u st' _ domain) by (done || apply lookup_insert_eq). }
  split.
  - intros conn read port Ht. unfold route_conn. rewrite Ht, Hback. done.
  - intros data src tag proto dom port. unfold route_packet, restore_packet. cbn [u_target u_data u_src u_inbound_tag u_sniffed_protocol u_sniffed_domain].
    by rewrite Hback.
Qed.
End Dispatched.

(** ** The session table *)

Section Sessions.
Context {FST : FstLib} {RX : RegexLib} {IO : HostIO} {UL : UnicodeLib}.
Context (r : Router) (dns : DnsResolver) (ask : DnsUpstream -> bytes -> result bytes str).

(** The session an event's packet belongs to, its payload and its time. *)
Definition session_of (ev : udp_event) : option (UdpSessionKey * bytes * Z) :=
  match ev with
  | UPacket ss now p =>
      match route_packet r dns ask ss p with
      | Ret (p, (Outbound tag, _, _)) => Some ((u_src p, show_target (u_target p), tag), u_data p, now)
      | _ => None
      end
  | _ => None
  end.

Definition of_key (k : UdpSessionKey) (ev : udp_event) : list (bytes * Z) :=
  match session_of ev with
  | Some (k', data, now) => if decide (k' = k) then [(data, now)] else []
  | None => []
  end.

(** The packets of a session in order of arrival. *)
Definition flow (evs : list udp_event) (k : UdpSessionKey) : list (bytes * Z) := evs ≫= of_key k.

Record sessions_inv (evs : list udp_event) (s : udp_state) : Prop := {
  inv_tasks i t : us_tasks s !! i = Some t ->
    st_taken t ++ st_queue t `sublist_of` (flow evs (st_key t)).*1 /\ len (st_queue t) <= 64;
  inv_table k h : us_sessions s !! k = Some h ->
    (exists t, us_tasks s !! data_tx h = Some t /\ st_key t = k) /\ last (flow evs k).*2 = Some (last_seen h)
}.

Lemma flow_snoc evs ev k : flow (evs ++ [ev]) k = flow evs k ++ of_key k ev.
Proof. unfold flow. rewrite bind_app. cbn. by rewrite app_nil_r. Qed.

Lemma flow_grows evs ev k l : l `sublist_of` (flow evs k).*1 -> l `sublist_of` (flow (evs ++ [ev]) k).*1.
Proof. rewrite flow_snoc, fmap_app. intros H. by apply sublist_inserts_r. Qed.

(** A step that carries no packet and only advances tasks. *)
Lemma inv_quiet evs ev s f i sessions : sessions_inv evs s -> session_of ev = None ->
  (forall t, st_key (f t) = st_key t /\ st_taken (f t) ++ st_queue (f t) `sublist_of` st_taken t ++ st_queue t /\
     len (st_queue (f t)) <= len (st_queue t)) ->
  (forall k h, sessions !! k = Some h -> us_sessions s !! k = Some h) ->
  sessions_inv (evs ++ [ev]) (mkUdpState sessions (alter f i (us_tasks s))).
Proof.
  intros [Ht Hk] Hev Hf Hsub. assert (Hsame : forall k, flow (evs ++ [ev]) k = flow evs k).
  { intros k. rewrite flow_snoc. unfold of_key. by rewrite Hev, app_nil_r. }
  split; cbn [us_sessions us_tasks].
  - intros j t Hj. rewrite Hsame. destruct (decide (i = j)) as [<-|Hne].
    + rewrite list_lookup_alter_eq in Hj. destruct (us_tasks s !! i) as [t0|] eqn:E; [|done]. injection Hj as <-.
      destruct (Ht _ _ E) as [H1 H2], (Hf t0) as (-> & H3 & H4). split; [by etrans|lia].
    + rewrite list_lookup_alter_ne in Hj by done. by apply (Ht j).
  - intros k h Hh. rewrite Hsame. destruct (Hk k h (Hsub k h Hh)) as ((t & E & Ek) & Hl). split; [|done].
    destruct (decide (i = data_tx h)) as [->|Hne]; [|exists t; by rewrite list_lookup_alter_ne].
    exists (f t). rewrite list_lookup_alter_eq, E. split; [done|]. by rewrite (proj1 (Hf t)).
Qed.

Lemma of_key_same ev k data now : session_of ev = Some (k, data, now) -> of_key k ev = [(data, now)].
Proof. unfold of_key. intros ->. by rewrite decide_True. Qed.

Lemma of_key_other ev k k' data now : session_of ev = Some (k, data, now) -> k' <> k -> of_key k' ev = [].
Proof. unfold of_key. intros -> H. by rewrite decide_False. Qed.

(** A packet put into the queue of a task of its own session. *)
Lemma inv_forwarded evs ev tasks sessions tx t k data now : session_of ev = Some (k, data, now) ->
  sessions_inv evs (mkUdpState (delete k sessions) tasks) -> tasks !! tx = Some t -> st_key t = k ->
  sessions_inv (evs ++ [ev]) (mkUdpState (<[k := mkHandle tx now]> sessions) (try_send tasks tx data)).
Proof.
  intros Hev [Ht Hk] Etx Ekey. cbn [us_sessions us_tasks] in *.
  assert (Hfl : (flow (evs ++ [ev]) k) = flow evs k ++ [(data, now)]) by (by rewrite flow_snoc, (of_key_same _ _ _ _ Hev)).
  assert (Hkeys : forall j t', tasks !! j = Some t' -> exists t'', try_send tasks tx data !! j = Some t'' /\ st_key t'' = st_key t').
  { intros j t' Hj. unfold try_send. rewrite Etx. case_if; [|by exists t']. destruct (decide (j = tx)) as [->|Hne].
    - rewrite Etx in Hj. injection Hj as <-. eexists. split; [by eapply list_lookup_insert_eq, lookup_lt_Some|done].
    - exists t'. by rewrite list_lookup_insert_ne by done. }
  split; cbn [us_sessions us_tasks].
  - intros j t' Hj. unfold try_send in Hj. rewrite Etx in Hj. destruct (st_open t && _) eqn:Eo.
    2: { destruct (Ht j t' Hj) as [H1 H2]. split; [by apply flow_grows|done]. }
    destruct (decide (j = tx)) as [->|Hne].
    + rewrite list_lookup_insert_eq in Hj by (by eapply lookup_lt_Some). injection Hj as <-.
      destruct (Ht _ _ Etx) as [H1 H2]. apply andb_true_iff in Eo as [_ Eq]. apply Z.ltb_lt in Eq.
      change (st_key (with_queue _ _ _ _)) with (st_key t). cbn [with_queue st_taken st_queue]. rewrite Ekey in *. rewrite Hfl, fmap_app, app_assoc, len_app.
      split; [by apply sublist_app|]. change (len [data]) with 1. lia.
    + rewrite list_lookup_insert_ne in Hj by done. destruct (Ht j t' Hj) as [H1 H2]. split; [by apply flow_grows|done].
  - intros k' h Hh. destruct (decide (k' = k)) as [->|Hne].
    + rewrite lookup_insert_eq in Hh. injection Hh as <-. cbn [data_tx last_seen].
      split; [destruct (Hkeys _ _ Etx) as (t'' & ? & ?); exists t''; split; [done|congruence]|]. rewrite Hfl, fmap_app. cbn. by rewrite last_snoc.
    + rewrite lookup_insert_ne in Hh by done. destruct (Hk k' h) as ((t' & E & Ek) & Hl); [by rewrite lookup_delete_ne|].
      rewrite flow_snoc, (of_key_other _ _ _ _ _ Hev Hne), app_nil_r. split; [|done].
      destruct (Hkeys _ _ E) as (t'' & ? & ?). exists t''. split; [done|congruence].
Qed.

(** A new task joins with an empty queue. *)
Lemma inv_spawn evs sessions tasks task : sessions_inv evs (mkUdpState sessions tasks) -> st_queue task = [] -> st_taken task = [] ->
  sessions_inv evs (mkUdpState sessions (tasks ++ [task])).
Proof.
  intros [Ht Hk] Hq Htk. split; cbn [us_sessions us_tasks] in *.
  - intros i t Hi. apply lookup_app_Some in Hi as [Hi|[_ Hi]]; [by apply (Ht i)|].
    apply list_lookup_singleton_Some in Hi as [_ <-]. rewrite Hq, Htk. split; [apply sublist_nil_l|done].
  - intros k h Hh. destruct (Hk k h Hh) as ((t & E & ?) & ?). split; [|done]. exists t. split; [by apply lookup_app_l_Some|done].
Qed.

Lemma get_live_spec tasks sessions k o sessions' : get_live tasks sessions k = (o, sessions') ->
  delete k sessions' = delete k sessions /\
  match o with
  | Some h => sessions !! k = Some h /\ is_open tasks (data_tx h) = true
  | None => forall h, sessions !! k = Some h -> is_open tasks (data_tx h) = false
  end.
Proof.
  unfold get_live. destruct (sessions !! k) as [h|] eqn:E; [destruct (is_open _ _) eqn:Eo|]; intros [= <- <-].
  - done.
  - split; [by rewrite delete_delete_eq|]. by intros ? [= <-].
  - split; [by rewrite delete_delete_eq|done].
Qed.

Lemma inv_forget evs s k : sessions_inv evs s -> sessions_inv evs (mkUdpState (delete k (us_sessions s)) (us_tasks s)).
Proof.
  intros [Ht Hk]. split; [done|]. cbn [us_sessions us_tasks]. intros k' h Hh. apply Hk.
  destruct (decide (k = k')) as [->|Hne]; [by rewrite lookup_delete_eq in Hh|by rewrite lookup_delete_ne in Hh].
Qed.

Lemma is_open_task tasks tx : is_open tasks tx = true -> exists t, tasks !! tx = Some t /\ st_open t = true.
Proof. unfold is_open. destruct (tasks !! tx) as [t|]; [by exists t|done]. Qed.

Lemma forward_inv evs ev s now p d : sessions_inv evs s ->
  session_of ev = match d.1.1 with Outbound tag => Some ((u_src p, show_target (u_target p), tag), u_data p, now) | _ => None end ->
  sessions_inv (evs ++ [ev]) (forward s now p d).1.
Proof.
  intros Hinv Hev. unfold forward. destruct (d.1.1) as [tag| | |] eqn:Ea.
  2-4: pose proof (inv_quiet evs ev s (fun t => t) 0 (us_sessions s) Hinv Hev) as Hq; rewrite list_alter_id in Hq by done;
    destruct s; by apply Hq.
  set (k := (u_src p, show_target (u_target p), tag)) in *.
  destruct (get_live (us_tasks s) (us_sessions s) k) as [o sessions'] eqn:Eg.
  destruct (get_live_spec _ _ _ _ _ Eg) as [Hd Ho]. pose proof (inv_forget evs s k Hinv) as Hfor. rewrite <-Hd in Hfor.
  destruct o as [h|]; cbn [fst].
  - destruct Ho as [Hh _]. destruct (inv_table evs s Hinv k h Hh) as ((t & Et & Ek) & _). by eapply inv_forwarded.
  - eapply inv_forwarded; [done|by apply inv_spawn|by apply list_lookup_middle|done].
Qed.

Lemma step_inv evs ev s s' outs : sessions_inv evs s -> udp_step r dns ask s ev = Ret (s', outs) -> sessions_inv (evs ++ [ev]) s'.
Proof.
  intros Hinv H. destruct ev as [ss now p|now|tx|tx]; cbn [udp_step] in H.
  - apply bind_Ret_inv in H as ([p' d] & Er & [= E]). cbn [fst snd] in E.
    replace s' with (forward s now p' d).1 by (by rewrite E). apply forward_inv; [done|].
    cbn [session_of]. rewrite Er. by destruct d as [[[] ?] ?].
  - injection H as <- _. replace (us_tasks s) with (alter (fun t => t) 0%nat (us_tasks s)) by (by apply list_alter_id).
    apply inv_quiet; [done..| |]; [done|]. intros k h Hh. by apply map_lookup_filter_Some in Hh as [Hh _].
  - injection H as <- _. apply inv_quiet; [done..| |done]. intros t. unfold task_take.
    destruct (st_queue t) as [|x q] eqn:Eq; [by rewrite Eq|]. destruct (st_open t); [|by rewrite Eq]. cbn. rewrite <-app_assoc.
    split_and!; [done|done|rewrite !len_cons; lia].
  - injection H as <- _. apply inv_quiet; [done..| |done]. intros t. cbn. rewrite app_nil_r. split_and!; [done| |apply len_nonneg].
    by apply sublist_inserts_r.
Qed.

Lemma run_udp_snoc s evs ev : run_udp r dns ask s (evs ++ [ev]) =
  (a ← run_udp r dns ask s evs; b ← udp_step r dns ask a.1 ev; Ret (b.1, a.2 ++ b.2)).
Proof.
  revert s. induction evs as [|e evs IH]; intros s; cbn [app run_udp].
  - cbn. destruct (udp_step r dns ask s ev) as [[b o]| |]; cbn; [by rewrite app_nil_r|done..].
  - destruct (udp_step r dns ask s e) as [[s1 o1]| |]; cbn; [|done..]. rewrite IH.
    destruct (run_udp r dns ask s1 evs) as [[s2 o2]| |]; cbn; [|done..].
    destruct (udp_step r dns ask s2 ev) as [[s3 o3]| |]; cbn; [by rewrite app_assoc|done..].
Qed.

Lemma run_inv evs s outs : run_udp r dns ask udp_idle evs = Ret (s, outs) -> sessions_inv evs s.
Proof.
  revert s outs. induction evs as [|ev evs IH] using rev_ind; intros s outs H.
  - injection H as <- _. split; cbn [us_sessions us_tasks udp_idle]; [by intros ? ?|]. intros k h Hh. by apply lookup_empty_Some in Hh.
  - rewrite run_udp_snoc in H. apply bind_Ret_inv in H as ([s1 o1] & E1 & H). apply bind_Ret_inv in H as ([s2 o2] & E2 & [= <- _]).
    eapply step_inv; [by eapply IH|exact E2].
Qed.

End Sessions.

(** ** Idle sessions *)

Section Idle.
Context {FST : FstLib} {RX : RegexLib} {IO : HostIO} {UL : UnicodeLib}.

Definition event_ok (ev : udp_event) : Prop := match ev with UPacket _ _ p => packet_ok p | _ => True end.

(** The loop takes every turn. *)
Lemma run_udp_returns c r dns ask s evs : deployed c r dns ask -> Forall event_ok evs -> returns (run_udp r dns ask s evs).
Proof.
  intros Hdep Hevs. revert s. induction Hevs as [|ev evs Hev _ IH]; intros s; cbn [run_udp]; [apply returns_ret|].
  apply returns_bind; [|intros rr _; apply returns_bind; [apply IH|intros ? _; apply returns_ret]].
  destruct ev as [ss now p|now|tx|tx]; cbn [udp_step]; [|apply returns_ret..].
  destruct (packet_routed c r dns ask ss p Hdep Hev) as (p' & d & -> & _). apply returns_ret.
Qed.

End Idle.

(** ** Framing of DNS over TCP *)

Definition dns_frame (m : bytes) : bytes := to_be_bytes 2 (len m) ++ m.

Lemma take_frame m rest : len m < 65536 -> take 2 (dns_frame m ++ rest) = to_be_bytes 2 (len m) /\ drop 2 (dns_frame m ++ rest) = m ++ rest.
Proof. intros Hm. unfold dns_frame. rewrite <-app_assoc. split; [by apply take_app_length'|by apply drop_app_length']. Qed.

Lemma dns_frame_step fuel answer m rest : len m < 65536 ->
  handle_dns_tcp (S fuel) answer (dns_frame m ++ rest) =
  if len m >? 4096 then Ret (Err (DnsTcpTooLarge (len m)), [])
  else match answer m with
       | None => Ret (Err DnsReplyDropped, [])
       | Some resp => r ← handle_dns_tcp fuel answer rest; Ret (r.1, to_be_bytes 2 (as_u16 (len resp)) ++ resp ++ r.2)
       end.
Proof.
  intros Hm. destruct (take_frame m rest Hm) as [Ht Hd]. cbn [handle_dns_tcp]. rewrite Ht, Hd.
  pose proof (len_nonneg m). pose proof (len_nonneg rest). rewrite from_to_be_bytes_id by (cbn; lia).
  rewrite (proj2 (Z.ltb_ge _ _)). 2: { unfold dns_frame. rewrite !len_app. change (len (to_be_bytes 2 (len m))) with 2. lia. }
  case_if; [done|]. rewrite len_app, (proj2 (Z.ltb_ge _ _)) by lia. unfold len. rewrite Nat2Z.id.
  by rewrite take_app_length, drop_app_length.
Qed.

Lemma handle_dns_tcp_returns fuel answer input : bytes_ok input -> (length input < fuel)%nat -> returns (handle_dns_tcp fuel answer input).
Proof.
  revert input. induction fuel as [|fuel IH]; intros input Hb Hf; [lia|]. cbn [handle_dns_tcp].
  case_if; [apply returns_ret|]. cbv zeta. case_if; [apply returns_ret|]. case_if; [apply returns_ret|].
  destruct (answer _); [|apply returns_ret]. reflect_bools. apply returns_bind; [|intros ? _; apply returns_ret].
  apply IH; [by apply Forall_drop, Forall_drop|]. unfold len in *. rewrite !length_drop. lia.
Qed.

(** DNS over TCP: the relay always comes to an end; to a client that sends any
    number of framed messages of at most 4096 bytes and then closes (even halfway
    through a length) it answers each, framed, in order, and ends without error. *)
Theorem dns_tcp_framing (answer : bytes -> option bytes) (msgs replies : list bytes) (tail input : bytes) :
  Forall2 (fun m resp => len m <= 4096 /\ answer m = Some resp /\ len resp < 65536) msgs replies -> len tail < 2 -> bytes_ok input ->
  returns (handle_dns_tcp (S (length input)) answer input) /\
  (input = concat (map dns_frame msgs) ++ tail ->
   handle_dns_tcp (S (length input)) answer input = Ret (Ok tt, concat (map dns_frame replies))).
Proof.
  intros Hm Ht Hb. split; [apply handle_dns_tcp_returns; [done|lia]|]. intros ->.
  generalize (Nat.lt_succ_diag_r (length (concat (map dns_frame msgs) ++ tail))). generalize (S (length (concat (map dns_frame msgs) ++ tail))) as fuel.
  clear Hb. induction Hm as [|m resp msgs replies (Hl & Ha & Hr) _ IH]; intros [|fuel] Hf; try lia.
  - cbn [map concat app handle_dns_tcp]. by rewrite (proj2 (Z.ltb_lt _ _)).
  - cbn [map concat]. rewrite <-app_assoc, dns_frame_step by lia. rewrite Z.gtb_ltb, (proj2 (Z.ltb_ge _ _)) by lia. rewrite Ha.
    rewrite IH; [|cbn [map concat] in Hf; rewrite <-app_assoc, length_app in Hf; unfold dns_frame in Hf at 1; rewrite length_app, length_to_be_bytes in Hf; lia].
    rewrite bind_Ret. cbn [fst snd]. unfold dns_frame at 2. unfold as_u16, wrap. pose proof (len_nonneg resp).
    rewrite (Z.mod_small (len resp)) by lia. by rewrite app_assoc.
Qed.

(** ** Witnesses *)

#[local] Existing Instance ToyFst.
#[local] Existing Instance ToyRegex.
#[local] Existing Instance ToyHost.
#[local] Existing Instance ToyUnicode.

Definition sample_ask (u : DnsUpstream) (q : bytes) : result bytes str := Err (lit "timeout").

Definition fake_resolver : DnsResolver := mkResolver [] fake_upstream [fake_upstream; sample_upstream] PreferIpv4.

Lemma sample_deployed : deployed sample_full get_router fake_resolver sample_ask.
Proof.
  split; [exists [lit "auto"]; split; [apply sample_keys|apply sample_accepted]| |apply sample_rules_wf|constructor|done].
  eexists _, _, _, _. apply sample_router_ok.
Qed.

Lemma sample_conn_ok t : target_port_ok t -> conn_ok (sample_conn t).
Proof. by split; [|constructor..|]. Qed.

Lemma sample_packet_ok t : target_port_ok t -> packet_ok (sample_pkt t).
Proof. by split; [|constructor]. Qed.

Lemma connections_dispatched_witness :
  let conn := sample_conn (TDomain (lit "a.cn") 85) in let pkt := sample_pkt (TDomain (lit "b.org") 85) in
  (exists conn' d tag tail, route_conn get_router fake_resolver sample_ask ∅ conn (Answered (IoReady 3)) = Ret (conn', d) /\
     delivered (map ob_tag (outbounds sample_full)) d.1.1 /\ pending (t_stream conn') = pending (t_stream conn) /\
     t_inbound_tag conn' = t_inbound_tag conn /\
     dispatch_tcp (fun t => bool_decide (t ∈ map ob_tag (outbounds sample_full))) d.1.1 (Relayed 5 7)
     = Ret (Ok tt, Open TcpGuard tag :: tail ++ [Close TcpGuard tag]) /\
     Forall (fun call => opens TcpGuard call = 0 /\ closes TcpGuard call = 0) tail) /\
  (exists pkt' d tag, route_packet get_router fake_resolver sample_ask ∅ pkt = Ret (pkt', d) /\
     delivered (map ob_tag (outbounds sample_full)) d.1.1 /\ u_data pkt' = u_data pkt /\ u_src pkt' = u_src pkt /\
     dispatch_udp (fun t => bool_decide (t ∈ map ob_tag (outbounds sample_full))) d.1.1 (Relayed 5 7)
     = (Ok tt, [Open UdpGuard tag; Close UdpGuard tag])).
Proof.
  cbv zeta. apply (connections_dispatched sample_full get_router fake_resolver sample_ask ∅ (sample_conn (TDomain (lit "a.cn") 85))
    (Answered (IoReady 3)) (sample_pkt (TDomain (lit "b.org") 85)) (Relayed 5 7));
    [apply sample_deployed|apply sample_conn_ok; vm_compute; done|apply sample_packet_ok; vm_compute; done].
Defined.

Lemma fakeip_routed_by_name_witness :
  exists resp st' a, reply fake_store 0 (build_query (lit "a.cn") 1) = Ret (resp, st') /\ extract_first_ip resp 1 = Ret (Some (V4 a)) /\
    (forall conn read port, t_target conn = TSocket {| ip := V4 a; sock_port := port |} ->
       route_conn get_router fake_resolver sample_ask (<[lit "fake" := st']> {[ lit "fake" := fake_store ]}) conn read =
       route_conn get_router fake_resolver sample_ask (<[lit "fake" := st']> {[ lit "fake" := fake_store ]}) (with_target conn (TDomain (lit "a.cn") port)) read) /\
    (forall data src tag proto dom port,
       route_packet get_router fake_resolver sample_ask (<[lit "fake" := st']> {[ lit "fake" := fake_store ]})
         (mkUdp data src (TSocket {| ip := V4 a; sock_port := port |}) tag proto dom) =
       route_packet get_router fake_resolver sample_ask (<[lit "fake" := st']> {[ lit "fake" := fake_store ]})
         (mkUdp data src (TDomain (lit "a.cn") port) tag proto dom)).
Proof.
  apply (fakeip_routed_by_name get_router fake_resolver sample_ask {[ lit "fake" := fake_store ]} fake_upstream fake_store 0 (lit "a.cn")).
  - left.
  - reflexivity.
  - intros v Hv Hf. unfold fake_resolver in Hv. cbn [dr_upstreams] in Hv.
    apply elem_of_cons in Hv as [?|Hv]; [done|]. apply list_elem_of_singleton in Hv. by subst v.
  - apply lookup_singleton_eq.
  - exact fake_store_ok.
  - repeat constructor; vm_compute; done.
  - vm_compute. discriminate.
  - vm_compute. reflexivity.
  - vm_compute. discriminate.
  - vm_compute. discriminate.
Defined.

Definition sample_event (now : Z) : udp_event := UPacket ∅ now (sample_pkt (TDomain (lit "b.org") 85)).



Lemma dns_tcp_framing_witness (input := dns_frame [7; 8] ++ dns_frame [9] ++ [0]) :
  returns (handle_dns_tcp (S (length input)) (fun m => Some (0 :: m)) input) /\
  (input = concat (map dns_frame [[7; 8]; [9]]) ++ [0] ->
   handle_dns_tcp (S (length input)) (fun m => Some (0 :: m)) input = Ret (Ok tt, concat (map dns_frame [[0; 7; 8]; [0; 9]]))).
Proof.
  apply (dns_tcp_framing (fun m => Some (0 :: m)) [[7; 8]; [9]] [[0; 7; 8]; [0; 9]] [0] input);
    [repeat constructor; vm_compute; discriminate|reflexivity|apply (bool_decide_eq_true_1 (bytes_ok _)); vm_compute; reflexivity].
Defined.
