(* ===== verification/Http.v ===== *)
(** * Http: the HTTP layer of the control API, [src/app/clash_api.rs] from line 1268.

    Reading a request from a stream that arrives in arbitrary chunks, printing a
    response, the WebSocket handshake and frames, percent-decoding, and the
    ISO 8601 time stamps.  A chunk is what one [read] returned; an empty chunk, or
    no more chunks, is the end of the stream. *)

From S2P Require Import Prelude RustStr.

(** ** Words *)

Definition rotate_left (x n : Z) : Z := Z.lor (wshl 32 x n) (wshr x (32 - n)).

Definition bnot32 (x : Z) : Z := 2 ^ 32 - 1 - x.

(** ** SHA-1 *)

(** [while msg.len() % 64 != 56 { msg.push(0) }] after the 0x80 byte, then the length. *)
Definition sha1_pad (data : bytes) : bytes :=
  let msg := data ++ [0x80] in
  msg ++ repeat 0 (Z.to_nat ((56 - len msg) mod 64)) ++ to_be_bytes 8 (as_u64 (len data * 8)).

(** [data.chunks(n)] *)
Fixpoint chunks_fuel {A} (fuel n : nat) (l : list A) : list (list A) :=
  match fuel, l with
  | S fuel, _ :: _ => take n l :: chunks_fuel fuel n (drop n l)
  | _, _ => []
  end.

Definition byte_chunks {A} (n : nat) (l : list A) : list (list A) := chunks_fuel (length l) n l.

Definition sha1_words (chunk : bytes) : list Z := map from_be_bytes (byte_chunks 4 chunk).

(** The schedule, newest word first: [w[i]] from [w[i-3]], [w[i-8]], [w[i-14]], [w[i-16]]. *)
Fixpoint sha1_schedule (n : nat) (newest : list Z) : list Z :=
  match n with
  | O => newest
  | S n =>
      let at_ i := nth (i - 1) newest 0 in
      sha1_schedule n (rotate_left (Z.lxor (Z.lxor (Z.lxor (at_ 3%nat) (at_ 8%nat)) (at_ 14%nat)) (at_ 16%nat)) 1 :: newest)
  end.

Definition sha1_f (i : Z) (b c d : Z) : Z * Z :=
  if i <=? 19 then (Z.lor (Z.land b c) (Z.land (bnot32 b) d), 0x5A827999)
  else if i <=? 39 then (Z.lxor (Z.lxor b c) d, 0x6ED9EBA1)
  else if i <=? 59 then (Z.lor (Z.lor (Z.land b c) (Z.land b d)) (Z.land c d), 0x8F1BBCDC)
  else (Z.lxor (Z.lxor b c) d, 0xCA62C1D6).

Record sha1_state : Type := mkSha1 { sa : Z; sb : Z; sc : Z; sd : Z; se : Z }.

Fixpoint sha1_rounds (i : Z) (ws : list Z) (s : sha1_state) : sha1_state :=
  match ws with
  | [] => s
  | w :: ws =>
      let '(f, k) := sha1_f i (sb s) (sc s) (sd s) in
      let temp := as_u32 (rotate_left (sa s) 5 + f + se s + k + w) in
      sha1_rounds (i + 1) ws (mkSha1 temp (sa s) (rotate_left (sb s) 30) (sc s) (sd s))
  end.

Definition sha1_block (h : sha1_state) (chunk : bytes) : sha1_state :=
  let w := rev (sha1_schedule 64 (rev (sha1_words chunk))) in
  let s := sha1_rounds 0 w h in
  mkSha1 (as_u32 (sa h + sa s)) (as_u32 (sb h + sb s)) (as_u32 (sc h + sc s)) (as_u32 (sd h + sd s)) (as_u32 (se h + se s)).

Definition sha1_bytes (data : bytes) : bytes :=
  let h := fold_left sha1_block (byte_chunks 64 (sha1_pad data)) (mkSha1 0x67452301 0xEFCDAB89 0x98BADCFE 0x10325476 0xC3D2E1F0) in
  flat_map (to_be_bytes 4) [sa h; sb h; sc h; sd h; se h].

(** ** Base64 *)

Definition BASE64_CHARS : bytes := lit "ABCDEFGHIJKLMNOPQRSTUVWXYZabcdefghijklmnopqrstuvwxyz0123456789+/".

Definition base64_char (n : Z) : Z := nth (Z.to_nat (Z.land n 63)) BASE64_CHARS 0.

Definition base64_chunk (chunk : bytes) : bytes :=
  let b i := nth i chunk 0 in
  let n := Z.lor (Z.lor (Z.shiftl (b 0%nat) 16) (Z.shiftl (b 1%nat) 8)) (b 2%nat) in
  [base64_char (wshr n 18); base64_char (wshr n 12);
   if len chunk >? 1 then base64_char (wshr n 6) else 61;
   if len chunk >? 2 then base64_char n else 61].

Definition base64_encode (data : bytes) : bytes := flat_map base64_chunk (byte_chunks 3 data).

(** ** WebSocket *)

Definition WS_MAGIC : str := lit "258EAFA5-E914-47DA-95CA-C5AB0DC85B11".

Definition ws_accept_key (client_key : str) : str := base64_encode (sha1_bytes (client_key ++ WS_MAGIC)).

Definition crlf : bytes := [13; 10].

Definition ws_upgrade_response (client_key : str) : str :=
  lit "HTTP/1.1 101 Switching Protocols" ++ crlf ++ lit "Upgrade: websocket" ++ crlf ++ lit "Connection: Upgrade" ++ crlf
  ++ lit "Sec-WebSocket-Accept: " ++ ws_accept_key client_key ++ crlf ++ lit "Access-Control-Allow-Origin: *" ++ crlf ++ crlf.

(** The frame [ws_send_text] writes. *)
Definition ws_text_frame (data : bytes) : bytes :=
  let n := len data in
  [0x81]
  ++ (if n <=? 125 then [as_u8 n]
      else if n <=? 65535 then [126; as_u8 (wshr n 8); as_u8 (Z.land n 0xFF)]
      else 127 :: to_be_bytes 8 (as_u64 n))
  ++ data.

(** ** Requests *)

Record HttpRequest : Type := mkRequest {
  method : str;
  path : str;
  headers : gmap (list Z) (list Z);
  body : bytes
}.

Definition header (r : HttpRequest) (name : str) : option str := headers r !! name.

Definition is_websocket (r : HttpRequest) : bool :=
  match header r (lit "upgrade") with
  | Some v => eq_ignore_ascii_case v (lit "websocket")
  | None => false
  end.

Inductive HttpError : Type :=
  | ClosedBeforeRequest
  | HeadersTooLarge
  | HeadersNotUtf8
  | MissingMethod
  | MissingPath
  | ClosedBeforeBody
  | BodyTooLarge.

Definition find_header_end (buf : bytes) : option nat := find_str [13; 10; 13; 10] buf.

(** The first loop: the position, the buffer and the chunks left. *)
Fixpoint read_headers (buf : bytes) (reads : list bytes) : result (nat * bytes * list bytes) HttpError :=
  match reads with
  | [] => Err ClosedBeforeRequest
  | chunk :: reads =>
      if len chunk =? 0 then Err ClosedBeforeRequest
      else
        let buf := buf ++ chunk in
        match find_header_end buf with
        | Some pos => Ok (pos, buf, reads)
        | None => if len buf <=? 64 * 1024 then read_headers buf reads else Err HeadersTooLarge
        end
  end.

(** A header line with a colon; the later of two equal names wins. *)
Definition insert_header (hs : gmap (list Z) (list Z)) (line : str) : gmap (list Z) (list Z) :=
  match split_once 58 line with
  | Some (k, v) => <[to_ascii_lowercase (trim k) := trim v]> hs
  | None => hs
  end.

Definition parse_head (head : bytes) : result (str * str * gmap (list Z) (list Z)) HttpError :=
  if negb (utf8_valid head) then Err HeadersNotUtf8
  else
    match split_str crlf head with
    | [] => Err MissingMethod
    | request_line :: lines =>
        match split_whitespace request_line with
        | [] => Err MissingMethod
        | [_] => Err MissingPath
        | m :: p :: _ => Ok (m, p, fold_left insert_header lines ∅)
        end
    end.

Definition content_length (hs : gmap (list Z) (list Z)) : Z :=
  match hs !! lit "content-length" with
  | Some v => match parse_uint (2 ^ 64 - 1) v with Some n => n | None => 0 end
  | None => 0
  end.

(** The second loop: [while buf.len() < need]. *)
Fixpoint read_body (need : Z) (buf : bytes) (reads : list bytes) : result bytes HttpError :=
  if len buf <? need then
    match reads with
    | [] => Err ClosedBeforeBody
    | chunk :: reads =>
        if len chunk =? 0 then Err ClosedBeforeBody
        else
          let buf := buf ++ chunk in
          if len buf <=? 2 * 1024 * 1024 then read_body need buf reads else Err BodyTooLarge
    end
  else Ok buf.

(** [body_start + content_len] wraps: the release profile has no overflow checks. *)
Definition read_request (reads : list bytes) : run (result HttpRequest HttpError) :=
  match read_headers [] reads with
  | Err e => Ret (Err e)
  | Ok (pos, buf, reads) =>
      match parse_head (take pos buf) with
      | Err e => Ret (Err e)
      | Ok (m, p, hs) =>
          let body_start := Z.of_nat pos + 4 in
          let need := as_u64 (body_start + content_length hs) in
          match read_body need buf reads with
          | Err e => Ret (Err e)
          | Ok buf => b ← slice buf body_start need; Ret (Ok (mkRequest m p hs b))
          end
      end
  end.

(** ** Responses *)

Record HttpResponse : Type := mkResponse {
  status : Z;
  reason : str;
  rheaders : list (str * str);
  rbody : bytes
}.

Definition HttpResponse_new (status : Z) (reason : str) : HttpResponse := mkResponse status reason [] [].

Definition add_header (r : HttpResponse) (name value : str) : HttpResponse :=
  mkResponse (status r) (reason r) (rheaders r ++ [(name, value)]) (rbody r).

Definition with_body (r : HttpResponse) (b : bytes) (content_type : str) : HttpResponse :=
  mkResponse (status r) (reason r) (rheaders r ++ [(lit "Content-Type", content_type)]) b.

Definition HttpResponse_to_bytes (r : HttpResponse) : bytes :=
  lit "HTTP/1.1 " ++ show_uint (status r) ++ [32] ++ reason r ++ crlf
  ++ lit "Content-Length: " ++ show_uint (len (rbody r)) ++ crlf
  ++ lit "Connection: close" ++ crlf ++ lit "Access-Control-Allow-Origin: *" ++ crlf
  ++ flat_map (fun h => h.1 ++ lit ": " ++ h.2 ++ crlf) (rheaders r) ++ crlf ++ rbody r.

Definition text_response (status : Z) (reason text : str) : HttpResponse :=
  with_body (HttpResponse_new status reason) text (lit "text/plain; charset=utf-8").

Definition empty_response (status : Z) (reason : str) : HttpResponse :=
  with_body (HttpResponse_new status reason) [] (lit "text/plain; charset=utf-8").

(** ** Percent-decoding *)

(** [u8::from_str_radix(s, 16)] of two bytes: a leading [+] is taken as a sign. *)
Definition hex_pair (a b : Z) : option Z :=
  if a =? 43 then digit_val 16 b
  else match digit_val 16 a, digit_val 16 b with
       | Some x, Some y => Some (x * 16 + y)
       | _, _ => None
       end.

Definition is_continuation (b : Z) : bool := (0x80 <=? b) && (b <=? 0xBF).

(** The loop; [s] is what is left.  [&s[i + 1..i + 3]] panics when its end is not a
    character boundary. *)
Fixpoint percent_loop (s : str) : run bytes :=
  match s with
  | [] => Ret []
  | c :: s1 =>
      let plain := out ← percent_loop s1; Ret (c :: out) in
      if c =? 37 then
        match s1 with
        | a :: b :: s3 =>
            if is_continuation a || match s3 with x :: _ => is_continuation x | [] => false end then Panic
            else match hex_pair a b with
                 | Some h => out ← percent_loop s3; Ret (h :: out)
                 | None => plain
                 end
        | _ => plain
        end
      else plain
  end.

Definition percent_decode (s : str) : run str := out ← percent_loop s; Ret (from_utf8_lossy out).

(** ** Time stamps *)

Definition is_leap (y : Z) : bool := ((y mod 4 =? 0) && negb (y mod 100 =? 0)) || (y mod 400 =? 0).

Definition year_days (y : Z) : Z := if is_leap y then 366 else 365.

Fixpoint year_loop (fuel : nat) (days year : Z) : run (Z * Z) :=
  match fuel with
  | O => Stuck
  | S fuel => if days <? year_days year then Ret (days, year) else year_loop fuel (days - year_days year) (year + 1)
  end.

Definition month_days (y : Z) : list Z := [31; if is_leap y then 29 else 28; 31; 30; 31; 30; 31; 31; 30; 31; 30; 31].

Fixpoint month_loop (mds : list Z) (days month : Z) : Z * Z :=
  match mds with
  | [] => (days, month)
  | md :: mds => if days <? md then (days, month) else month_loop mds (days - md) (month + 1)
  end.

Definition days_to_ymd (days : Z) : run (Z * Z * Z) :=
  r ← year_loop (S (Z.to_nat (days / 365))) days 1970;
  let '(d, m) := month_loop (month_days r.2) r.1 0 in
  Ret (r.2, m + 1, d + 1).

(** [{:0w}] *)
Definition pad_zero (w : nat) (n : Z) : str := repeat 48 (w - length (show_uint n)) ++ show_uint n.

Definition ms_to_iso (ms : Z) : run str :=
  let secs := ms / 1000 in
  let s := secs mod 60 in
  let m := (secs / 60) mod 60 in
  let h := (secs / 3600) mod 24 in
  let days := secs / 86400 in
  ymd ← days_to_ymd days;
  let '(y, mo, d) := ymd in
  Ret (pad_zero 4 y ++ [45] ++ pad_zero 2 mo ++ [45] ++ pad_zero 2 d ++ [84]
       ++ pad_zero 2 h ++ [58] ++ pad_zero 2 m ++ [58] ++ pad_zero 2 s ++ lit ".000000000Z").

(** ** The examples of the source's tests *)

Example ws_accept_key_rfc_example : ws_accept_key (lit "dGhlIHNhbXBsZSBub25jZQ==") = lit "s3pPLMBiTxaQ9kYGzzhZRbK+xOo=".
Proof. vm_compute. reflexivity. Qed.

Example ms_to_iso_known_date : ms_to_iso 1704067200000 = Ret (lit "2024-01-01T00:00:00.000000000Z").
Proof. vm_compute. reflexivity. Qed.

(** ** Finding a pattern *)

Lemma starts_with_app p a b : starts_with p a = true -> starts_with p (a ++ b) = true.
Proof. revert a. induction p as [|x p IH]; intros [|y a]; cbn; try done. rewrite !andb_true_iff. intros [-> H]. split; [done|by apply IH]. Qed.

Lemma starts_with_app_inv p a b : (length p <= length a)%nat -> starts_with p (a ++ b) = true -> starts_with p a = true.
Proof.
  revert a. induction p as [|x p IH]; intros [|y a] Hl H; cbn in *; try done; [lia|]. apply andb_true_iff in H as [-> H].
  apply IH; [lia|done].
Qed.

Lemma starts_with_length p a : starts_with p a = true -> (length p <= length a)%nat.
Proof. revert a. induction p as [|x p IH]; intros [|y a] H; cbn in *; try done; try lia. apply andb_true_iff in H as [_ H]. apply IH in H. lia. Qed.

Lemma find_str_length p s n : find_str p s = Some n -> (n + length p <= length s)%nat.
Proof.
  revert n. induction s as [|x s IH]; intros n H; cbn [find_str] in H; destruct (starts_with _ _) eqn:E; try done;
    try (injection H as <-; by apply starts_with_length in E).
  apply fmap_Some in H as (m & H & ->). apply IH in H. cbn. lia.
Qed.

Lemma find_str_prefix p a b n : find_str p a = Some n -> find_str p (a ++ b) = Some n.
Proof.
  revert n. induction a as [|x a IH]; intros n H; cbn [find_str app] in *.
  - destruct (starts_with p []) eqn:E; [|done]. injection H as <-. apply (starts_with_app p [] b) in E. cbn in E. destruct b; cbn [find_str]; by rewrite E.
  - change (x :: a ++ b) with ((x :: a) ++ b).
    destruct (starts_with p (x :: a)) eqn:E; [injection H as <-; by rewrite (starts_with_app p (x :: a) b E)|].
    apply fmap_Some in H as (m & H & ->). pose proof (find_str_length _ _ _ H) as Hl. destruct (starts_with p ((x :: a) ++ b)) eqn:E'.
    + apply starts_with_app_inv in E'; [congruence|cbn; lia].
    + cbn. by rewrite (IH _ H).
Qed.

(** Whether the pattern is there is decided by as many bytes as it takes. *)
Lemma find_str_early p a b n : find_str p (a ++ b) = Some n -> (n + length p <= length a)%nat -> find_str p a = Some n.
Proof.
  revert n. induction a as [|x a IH]; intros n H Hl; cbn [find_str app] in *.
  - destruct p as [|? ?]; [|cbn in Hl; lia]. cbn in *. destruct b; cbn in H; by simplify_eq.
  - change (x :: a ++ b) with ((x :: a) ++ b) in H. destruct (starts_with p ((x :: a) ++ b)) eqn:E.
    + injection H as <-. by rewrite (starts_with_app_inv p (x :: a) b).
    + apply fmap_Some in H as (m & H & ->). destruct (starts_with p (x :: a)) eqn:E2; [by rewrite (starts_with_app _ _ b E2) in E|].
      rewrite (IH m H); [done|cbn in Hl; lia].
Qed.

(** Bytes other than the first of the pattern are passed over. *)
Lemma find_str_skip c p l s : c ∉ l -> find_str (c :: p) (l ++ s) = (fun n => (length l + n)%nat) <$> find_str (c :: p) s.
Proof.
  induction l as [|x l IH]; intros H; [change ([] ++ s) with s; by destruct (find_str (c :: p) s)|]. apply not_elem_of_cons in H as [Hx Hl].
  cbn [app find_str starts_with]. rewrite (proj2 (Z.eqb_neq c x)) by done. cbn [andb]. rewrite IH by done.
  by destruct (find_str (c :: p) s).
Qed.

Lemma find_str_none c p s : c ∉ s -> find_str (c :: p) s = None.
Proof. intros H. rewrite <-(app_nil_r s), find_str_skip by done. done. Qed.

(** ** The head of a request *)

Definition line_ok (l : str) : Prop := l <> [] /\ (13 ∉ l).

Lemma split_str_join ls fuel : ls <> [] -> Forall line_ok ls -> (length (join crlf ls) <= fuel)%nat ->
  split_str_fuel fuel crlf (join crlf ls) = ls.
Proof.
  intros Hne Hls. revert fuel. induction Hls as [|l ls [Hl H13] Hls IH]; intros fuel Hf; [done|].
  destruct ls as [|l' ls].
  - cbn [join]. destruct fuel; [done|]. cbn [split_str_fuel]. unfold crlf. by rewrite find_str_none.
  - rewrite join_cons in * by done. rewrite !length_app in Hf. destruct fuel as [|fuel]; [destruct l; cbn in *; [done|lia]|].
    set (J := join crlf (l' :: ls)) in *.
    assert (Hfind : find_str crlf (l ++ crlf ++ J) = Some (length l)).
    { unfold crlf at 1. rewrite find_str_skip by done. cbn. by rewrite Nat.add_0_r. }
    assert (Hd : drop (length l + length crlf) (l ++ crlf ++ J) = J) by (rewrite app_assoc, <-length_app; apply drop_app_length).
    cbn [split_str_fuel]. rewrite Hfind, take_app_length, Hd. f_equal. apply IH; [done|]. change (length crlf) with 2%nat in Hf. lia.
Qed.

Lemma header_end_join ls rest : ls <> [] -> Forall line_ok ls ->
  find_header_end (join crlf ls ++ crlf ++ crlf ++ rest) = Some (length (join crlf ls)).
Proof.
  intros Hne Hls. unfold find_header_end. induction Hls as [|l ls [Hl H13] Hls IH]; [done|].
  destruct ls as [|l' ls].
  - cbn [join]. rewrite find_str_skip by done. cbn. by rewrite Nat.add_0_r.
  - rewrite join_cons, <-!app_assoc by done. rewrite find_str_skip by done. rewrite length_app, length_app.
    specialize (IH ltac:(done)). inversion Hls as [|? ? [Hl' H13'] Hls']; subst. destruct l' as [|x l']; [done|].
    apply not_elem_of_cons in H13' as [Hx _].
    assert (Hj : exists t, join crlf ((x :: l') :: ls) ++ crlf ++ crlf ++ rest = x :: t).
    { destruct ls; [by eexists|]. rewrite join_cons by done. by eexists. }
    destruct Hj as [t Ht]. rewrite Ht in *. cbn [crlf app find_str starts_with]. rewrite (proj2 (Z.eqb_neq 13 x)) by done. cbn [Z.eqb Pos.eqb andb].
    cbn [find_str starts_with] in IH. rewrite (proj2 (Z.eqb_neq 13 x)) in IH by done. cbn [andb] in IH. rewrite IH.
    done.
Qed.

(** ** Reading in chunks *)

Lemma read_headers_any total pos reads buf : total = buf ++ concat reads -> Forall (fun c => c <> []) reads ->
  find_header_end total = Some pos -> find_header_end buf = None -> Z.of_nat pos + 4 <= 64 * 1024 ->
  exists buf' rest, read_headers buf reads = Ok (pos, buf', rest) /\ total = buf' ++ concat rest /\ Forall (fun c => c <> []) rest /\
    find_header_end buf' = Some pos.
Proof.
  intros Ht Hne Hpos Hnone Hmax. revert buf Ht Hnone. induction Hne as [|c reads Hc Hreads IH]; intros buf Ht Hnone; cbn [read_headers concat] in *.
  - rewrite app_nil_r in Ht. by rewrite Ht, Hnone in Hpos.
  - destruct c as [|x c]; [done|]. rewrite (proj2 (Z.eqb_neq _ 0)) by (rewrite len_cons; pose proof (len_nonneg c); lia). cbv zeta.
    rewrite app_assoc in Ht. destruct (find_header_end (buf ++ x :: c)) as [n|] eqn:E.
    + exists (buf ++ x :: c), reads. assert (n = pos) as ->; [|done].
      unfold find_header_end in *. rewrite Ht, (find_str_prefix _ _ _ _ E) in Hpos. by injection Hpos.
    + assert (Hl : len (buf ++ x :: c) <= 64 * 1024).
      { destruct (decide (len (buf ++ x :: c) <= 64 * 1024)) as [|Hgt]; [done|]. exfalso. unfold find_header_end in *. rewrite Ht in Hpos.
        rewrite (find_str_early _ _ _ _ Hpos) in E; [done|]. unfold len in *. cbn [length]. lia. }
      rewrite (proj2 (Z.leb_le _ _) Hl). by apply IH.
Qed.

Lemma read_body_any total need reads buf : total = buf ++ concat reads -> Forall (fun c => c <> []) reads ->
  need <= len total -> len total <= 2 * 1024 * 1024 ->
  exists buf' rest, read_body need buf reads = Ok buf' /\ total = buf' ++ rest /\ need <= len buf'.
Proof.
  intros Ht Hne Hneed Hmax. revert buf Ht. induction Hne as [|c reads Hc Hreads IH]; intros buf Ht; cbn [read_body concat] in *.
  - rewrite app_nil_r in Ht. subst buf. rewrite (proj2 (Z.ltb_ge _ _)) by done. exists total, []. by rewrite app_nil_r.
  - destruct (len buf <? need) eqn:E; [|exists buf, (c ++ concat reads); apply Z.ltb_ge in E; by rewrite Ht].
    destruct c as [|x c]; [done|]. rewrite (proj2 (Z.eqb_neq _ 0)) by (rewrite len_cons; pose proof (len_nonneg c); lia). cbv zeta.
    rewrite app_assoc in Ht. rewrite (proj2 (Z.leb_le _ _)); [by apply IH|].
    rewrite Ht, len_app in Hmax. pose proof (len_nonneg (concat reads)). lia.
Qed.

(** ** Round trip of a request *)

Definition header_line (h : str * str) : str := h.1 ++ lit ": " ++ h.2.

Definition request_head (m p : str) (hs : list (str * str)) : bytes :=
  join crlf ((m ++ [32] ++ p ++ lit " HTTP/1.1") :: map header_line hs).

Definition header_map (hs : list (str * str)) : gmap (list Z) (list Z) :=
  fold_left (fun acc h => <[to_ascii_lowercase h.1 := h.2]> acc) hs ∅.

Definition printable (b : Z) : Prop := 32 <= b <= 126.

#[export] Instance printable_dec b : Decision (printable b).
Proof. unfold printable. apply _. Defined.

#[export] Instance graphic_dec b : Decision (graphic b).
Proof. unfold graphic. apply _. Defined.

Ltac literal := apply (bool_decide_unpack _); vm_compute; exact I.

Definition token_ok (w : str) : Prop := w <> [] /\ Forall graphic w.

Definition header_ok (h : str * str) : Prop := token_ok h.1 /\ (58 ∉ h.1) /\ framed h.2 /\ Forall printable h.2.

Lemma printable_utf8 s : Forall printable s -> utf8_valid s = true.
Proof.
  intros H. unfold utf8_valid. assert (utf8_run [] s = Some []) as ->; [|done].
  induction H as [|b s Hb _ IH]; [done|]. unfold printable in Hb. cbn [utf8_run utf8_step]. unfold utf8_start.
  by replace ((0 <=? b) && (b <=? 0x7F)) with true by bool_lia.
Qed.

Lemma graphic_printable s : Forall graphic s -> Forall printable s.
Proof. intros H. eapply Forall_impl; [exact H|]. unfold graphic, printable. lia. Qed.

Lemma header_line_parsed h acc : header_ok h -> insert_header acc (header_line h) = <[to_ascii_lowercase h.1 := h.2]> acc.
Proof.
  intros ([Hne Hk] & H58 & Hv & _). unfold insert_header, header_line. change (lit ": " ++ h.2) with (58 :: 32 :: h.2).
  assert (E : split_once 58 (h.1 ++ 58 :: 32 :: h.2) = Some (h.1, 32 :: h.2)).
  { clear -H58. induction (h.1) as [|x k IH]; [done|]. apply not_elem_of_cons in H58 as [Hx Hk]. cbn [app split_once].
    by rewrite (proj2 (Z.eqb_neq x 58)), IH by done. }
  by rewrite E, trim_space_framed, trim_framed by (done || by apply graphic_framed).
Qed.

Lemma headers_parsed hs acc : Forall header_ok hs ->
  fold_left insert_header (map header_line hs) acc = fold_left (fun acc h => <[to_ascii_lowercase h.1 := h.2]> acc) hs acc.
Proof. intros H. revert acc. induction H as [|h hs Hh _ IH]; intros acc; [done|]. cbn [map fold_left]. by rewrite header_line_parsed. Qed.

Lemma header_line_ok h : header_ok h -> header_line h <> [] /\ Forall printable (header_line h).
Proof.
  intros ([Hne Hk] & _ & _ & Hv). split; [unfold header_line; by destruct (h.1)|]. unfold header_line. apply Forall_app. split; [by apply graphic_printable|].
  apply Forall_app. split; [literal|done].
Qed.

Lemma head_lines m p hs : token_ok m -> token_ok p -> Forall header_ok hs ->
  Forall (fun l => l <> [] /\ Forall printable l) ((m ++ [32] ++ p ++ lit " HTTP/1.1") :: map header_line hs).
Proof.
  intros [Hm1 Hm] [Hp1 Hp] Hh. constructor.
  - split; [by destruct m|]. rewrite !Forall_app. split_and!; try (by apply graphic_printable); literal.
  - apply Forall_fmap. eapply Forall_impl; [exact Hh|]. intros h. apply header_line_ok.
Qed.

Lemma printable_line l : l <> [] /\ Forall printable l -> line_ok l.
Proof. intros [Hl H]. split; [done|]. rewrite Forall_forall in H. intros Hin. apply H in Hin. unfold printable in Hin. lia. Qed.

Lemma join_utf8 ls : Forall (fun l => l <> [] /\ Forall printable l) ls -> utf8_valid (join crlf ls) = true.
Proof.
  induction 1 as [|l ls [Hl H] Hls IH]; [done|]. destruct ls as [|l' ls]; [by apply printable_utf8|].
  rewrite join_cons by done. apply utf8_valid_app; [by apply printable_utf8|]. by apply utf8_valid_app.
Qed.

Lemma head_parsed m p hs : token_ok m -> token_ok p -> Forall header_ok hs ->
  parse_head (request_head m p hs) = Ok (m, p, header_map hs).
Proof.
  intros Hm Hp Hh. pose proof (head_lines m p hs Hm Hp Hh) as Hl. unfold parse_head, request_head. rewrite join_utf8 by done. cbn [negb].
  unfold split_str. rewrite split_str_join; [|done|by eapply Forall_impl; [exact Hl|apply printable_line]|done].
  unfold split_whitespace. cbn [app]. destruct Hm as [Hm1 Hm], Hp as [Hp1 Hp].
  rewrite split_ws_word by done. change (lit " HTTP/1.1") with (32 :: lit "HTTP/1.1"). rewrite split_ws_word by done. cbn [app].
  by rewrite headers_parsed.
Qed.

Lemma header_end_pos buf pos : find_header_end buf = Some pos -> Z.of_nat pos + 4 <= len buf.
Proof. intros H. apply find_str_length in H. unfold len. cbn in H. lia. Qed.

(** A request is read back from any chunking: however the network cuts the bytes,
    and whatever follows them, the parser returns the method, the path, the headers
    (names lower-cased, the last of equal names) and exactly the announced body. *)
Theorem read_request_any_chunks (m p : str) (hs : list (str * str)) (content more : bytes) (reads : list bytes) :
  token_ok m -> token_ok p -> Forall header_ok hs -> content_length (header_map hs) = len content ->
  len (request_head m p hs) + 4 <= 64 * 1024 ->
  Forall (fun c => c <> []) reads -> concat reads = request_head m p hs ++ crlf ++ crlf ++ content ++ more ->
  len (concat reads) <= 2 * 1024 * 1024 ->
  read_request reads = Ret (Ok (mkRequest m p (header_map hs) content)).
Proof.
  intros Hm Hp Hh Hc Hmax Hne Hcat Hsize. set (head := request_head m p hs) in *.
  assert (Hend : find_header_end (concat reads) = Some (length head)).
  { rewrite Hcat. apply header_end_join; [done|]. eapply Forall_impl; [by apply head_lines|apply printable_line]. }
  destruct (read_headers_any (concat reads) (length head) reads []) as (buf & rest & E & Htot & Hrest & Hfound); try done.
  unfold read_request. rewrite E.
  assert (Hbuf : take (length head) buf = head).
  { pose proof (header_end_pos _ _ Hfound) as Hl. unfold len in Hl.
    transitivity (take (length head) (buf ++ concat rest)); [by rewrite take_app_le by lia|]. rewrite <-Htot, Hcat. apply take_app_length. }
  rewrite Hbuf. subst head. rewrite head_parsed by done. cbv zeta. rewrite Hc. set (head := request_head m p hs) in *.
  pose proof (len_nonneg content). pose proof (len_nonneg head). pose proof (len_nonneg more).
  assert (Htotal : len (concat reads) = len head + 4 + len content + len more).
  { rewrite Hcat, !len_app. change (len crlf) with 2. lia. }
  change (Z.of_nat (length head)) with (len head).
  assert (Hneed : as_u64 (len head + 4 + len content) = len head + 4 + len content) by (unfold as_u64, wrap; rewrite Z.mod_small; lia).
  rewrite Hneed. destruct (read_body_any (concat reads) (len head + 4 + len content) rest buf Htot Hrest) as (buf2 & rest2 & -> & Htot2 & Hlen2); [lia|lia|].
  assert (Hs : slice buf2 (len head + 4) (len head + 4 + len content) = Ret content).
  { rewrite <-(slice_app_l buf2 rest2) by done. rewrite <-Htot2, Hcat. rewrite (app_assoc crlf), (app_assoc head).
    apply slice_app_mid; [rewrite !len_app; change (len crlf) with 2; lia|done]. }
  by rewrite Hs, bind_Ret.
Qed.

(** ** The announced length that wraps *)

Lemma read_body_reaches need buf reads buf' : read_body need buf reads = Ok buf' -> need <= len buf' /\ len buf <= len buf'.
Proof.
  revert buf. induction reads as [|c reads IH]; intros buf H; cbn [read_body] in H; destruct (len buf <? need) eqn:E; reflect_bools;
    try done; try (injection H as <-; lia).
  destruct (len c =? 0); [done|]. destruct (len (buf ++ c) <=? 2 * 1024 * 1024); [|done]. apply IH in H. rewrite len_app in H. pose proof (len_nonneg c). lia.
Qed.

Lemma read_headers_found buf reads pos buf' rest : read_headers buf reads = Ok (pos, buf', rest) -> find_header_end buf' = Some pos.
Proof.
  revert buf. induction reads as [|c reads IH]; intros buf H; cbn [read_headers] in H; [done|]. destruct (len c =? 0); [done|].
  destruct (find_header_end (buf ++ c)) as [n|] eqn:E; [by injection H as -> <- _|]. case_match; [by apply IH in H|done].
Qed.

(** The buffer of a head is bounded: at most 64 KiB before the last read. *)
Lemma read_headers_bounded buf reads pos buf' rest : Forall (fun c => len c <= 4096) reads -> len buf <= 64 * 1024 ->
  read_headers buf reads = Ok (pos, buf', rest) -> len buf' <= 64 * 1024 + 4096.
Proof.
  intros Hr. revert buf. induction Hr as [|c reads Hc _ IH]; intros buf Hb H; cbn [read_headers] in H; [done|]. destruct (len c =? 0); [done|].
  destruct (find_header_end (buf ++ c)); [injection H as _ <- _; rewrite len_app; lia|].
  destruct (len (buf ++ c) <=? 64 * 1024) eqn:E; [|done]. apply (IH (buf ++ c)); [by apply Z.leb_le|done].
Qed.

(** What the first chunks hold when a head is complete. *)
Definition request_announces (reads : list bytes) (pos : nat) (n : Z) : Prop :=
  exists buf rest m p hs, read_headers [] reads = Ok (pos, buf, rest) /\ parse_head (take pos buf) = Ok (m, p, hs) /\ content_length hs = n.

Lemma content_length_bound hs : 0 <= content_length hs < 2 ^ 64.
Proof.
  unfold content_length. destruct (hs !! _) as [v|]; [|lia]. destruct (parse_uint _ v) as [n|] eqn:E; [|lia].
  apply parse_uint_bound in E; lia.
Qed.

Lemma read_rest_panics {A} (f : bytes -> A) start n buf rest : 4 <= start <= len buf -> start <= 2 ^ 32 -> 0 <= n < 2 ^ 64 ->
  let need := as_u64 (start + n) in
  let res := match read_body need buf rest with Err e => Ret (Err e) | Ok buf => b ← slice buf start need; Ret (Ok (f b)) end in
  res <> Stuck /\ (res = Panic <-> 2 ^ 64 <= start + n).
Proof.
  intros Hs Hm Hn. cbv zeta. destruct (Z.lt_ge_cases (start + n) (2 ^ 64)) as [Hlt|Hge].
  - assert (as_u64 (start + n) = start + n) as -> by (unfold as_u64, wrap; rewrite Z.mod_small; lia).
    destruct (read_body _ buf rest) as [buf'|e] eqn:Eb; [|split; [done|]; split; [done|lia]].
    apply read_body_reaches in Eb as [Hb _]. destruct (slice_returns buf' start (start + n)) as [b ->]; [lia|done|].
    rewrite bind_Ret. split; [done|]. split; [done|lia].
  - assert (as_u64 (start + n) = start + n - 2 ^ 64) as ->
      by (unfold as_u64, wrap; symmetry; apply (Z.mod_unique_pos _ _ 1); lia).
    assert (read_body (start + n - 2 ^ 64) buf rest = Ok buf) as -> by (destruct rest; cbn [read_body]; by rewrite (proj2 (Z.ltb_ge _ _)) by lia).
    assert (slice buf start (start + n - 2 ^ 64) = Panic) as ->; [|done].
    unfold slice. by replace ((0 <=? start) && (start <=? start + n - 2 ^ 64) && (start + n - 2 ^ 64 <=? len buf)) with false by bool_lia.
Qed.


(** ** Percent-decoding undoes encoding *)

Definition hex_upper (d : Z) : Z := if d <? 10 then 48 + d else 55 + d.

(** A client's encoder: the bytes it keeps, and three characters for the others. *)
Definition percent_encode (keep : Z -> bool) (s : str) : str :=
  flat_map (fun b => if keep b then [b] else [37; hex_upper (b / 16); hex_upper (b mod 16)]) s.

Lemma hex_pair_upper b : 0 <= b < 256 -> hex_pair (hex_upper (b / 16)) (hex_upper (b mod 16)) = Some b.
Proof. apply (octet_table (fun b => hex_pair (hex_upper (b / 16)) (hex_upper (b mod 16))) Some). vm_compute. reflexivity. Qed.

Lemma hex_upper_plain d : 0 <= d < 16 -> is_continuation (hex_upper d) = false.
Proof. unfold is_continuation, hex_upper. intros H. destruct (Z.ltb_spec d 10); bool_lia. Qed.

Lemma percent_loop_encoded keep s : bytes_ok s -> (forall b, keep b = true -> 0 <= b < 128 /\ b <> 37) ->
  percent_loop (percent_encode keep s) = Ret s.
Proof.
  intros Hs Hk. induction Hs as [|b s Hb Hs IH]; [done|]. cbn [percent_encode flat_map]. destruct (keep b) eqn:E.
  - apply Hk in E as [_ E]. cbn [app percent_loop]. rewrite (proj2 (Z.eqb_neq b 37)) by done. fold (percent_encode keep s). by rewrite IH.
  - cbn [app percent_loop Z.eqb Pos.eqb]. fold (percent_encode keep s). assert (Hb' : 0 <= b < 256) by (unfold is_byte in *; lia).
    rewrite hex_upper_plain by (split; [apply Z.div_pos; lia|apply Z.div_lt_upper_bound; lia]). cbn [orb].
    assert (Hhead : match percent_encode keep s with x :: _ => is_continuation x | [] => false end = false).
    { destruct s as [|x s]; [done|]. cbn [percent_encode flat_map]. destruct (keep x) eqn:Ex; [|done]. apply Hk in Ex as [Ex _].
      cbn [app]. unfold is_continuation. bool_lia. }
    rewrite Hhead, hex_pair_upper, IH by done. done.
Qed.

(** Names survive the URL: percent-decoding what any client encoder made of a
    UTF-8 name (it keeps some ASCII bytes other than the percent sign) gives the
    name back, without a panic. *)
Theorem percent_roundtrip (keep : Z -> bool) (s : str) :
  bytes_ok s -> utf8_valid s = true -> (forall b, keep b = true -> 0 <= b < 128 /\ b <> 37) ->
  percent_decode (percent_encode keep s) = Ret s.
Proof. intros Hs Hu Hk. unfold percent_decode. rewrite percent_loop_encoded, bind_Ret by done. by rewrite from_utf8_lossy_valid. Qed.

(** An undecodable percent sign before a multi-byte character stops the proxy. *)
Theorem percent_panics : percent_decode (lit "%a" ++ [0xE2; 0x82; 0xAC]) = Panic /\ utf8_valid (lit "%a" ++ [0xE2; 0x82; 0xAC]) = true.
Proof. split; vm_compute; reflexivity. Qed.

(** ** The calendar *)

Definition leap_days (y : Z) : Z := y / 4 - y / 100 + y / 400.

(** The days from 1970-01-01 to the first day of a year. *)
Definition year_start (y : Z) : Z := 365 * (y - 1970) + (leap_days (y - 1) - leap_days 1969).

Definition month_start (y m : Z) : Z := fold_right Z.add 0 (take (Z.to_nat (m - 1)) (month_days y)).

Definition day_number (date : Z * Z * Z) : Z := let '(y, m, d) := date in year_start y + month_start y m + (d - 1).

Definition valid_date (date : Z * Z * Z) : Prop :=
  let '(y, m, d) := date in 1970 <= y /\ 1 <= m <= 12 /\ 1 <= d <= nth (Z.to_nat (m - 1)) (month_days y) 0.

Lemma year_start_succ y : year_start (y + 1) = year_start y + year_days y.
Proof.
  unfold year_start, year_days, is_leap, leap_days. replace (y + 1 - 1) with y by lia.
  destruct (Z.eqb_spec (y mod 4) 0), (Z.eqb_spec (y mod 100) 0), (Z.eqb_spec (y mod 400) 0); cbn [andb orb negb]; Z.div_mod_to_equations; lia.
Qed.

Lemma year_days_bound y : 365 <= year_days y <= 366.
Proof. unfold year_days. destruct (is_leap y); lia. Qed.

Lemma year_loop_spec fuel days y : 0 <= days -> days / 365 < Z.of_nat fuel ->
  exists d y', year_loop fuel days y = Ret (d, y') /\ y <= y' /\ 0 <= d < year_days y' /\ year_start y + days = year_start y' + d.
Proof.
  revert days y. induction fuel as [|fuel IH]; intros days y Hd Hf; [pose proof (Z.div_pos days 365); lia|]. cbn [year_loop].
  pose proof (year_days_bound y). destruct (Z.ltb_spec days (year_days y)); [exists days, y; split_and!; done || lia|].
  destruct (IH (days - year_days y) (y + 1)) as (d & y' & E & Hy & Hb & Hsum); [lia|Z.div_mod_to_equations; lia|].
  exists d, y'. split; [done|]. rewrite year_start_succ in Hsum. split_and!; lia.
Qed.

Lemma month_loop_spec (mds : list Z) days month : 0 <= days < fold_right Z.add 0 mds ->
  exists k, month_loop mds days month = (days - fold_right Z.add 0 (take k mds), month + Z.of_nat k) /\ (k < length mds)%nat /\
    0 <= days - fold_right Z.add 0 (take k mds) < nth k mds 0.
Proof.
  revert days month. induction mds as [|md mds IH]; intros days month H; cbn [fold_right] in H; [lia|]. cbn [month_loop].
  destruct (Z.ltb_spec days md).
  - exists 0%nat. cbn. split_and!; [f_equal; lia|lia|lia|lia].
  - destruct (IH (days - md) (month + 1)) as (k & E & Hk & Hb); [lia|]. exists (S k). cbn. rewrite E.
    split_and!; [f_equal; lia|lia|lia|lia].
Qed.

Lemma month_days_sum y : fold_right Z.add 0 (month_days y) = year_days y.
Proof. unfold month_days, year_days. by destruct (is_leap y). Qed.

Lemma month_days_pos y k : (k < 12)%nat -> 28 <= nth k (month_days y) 0 <= 31.
Proof. intros H. unfold month_days. do 12 (destruct k as [|k]; [cbn; destruct (is_leap y); lia|]). lia. Qed.

Lemma days_to_ymd_valid days : 0 <= days -> exists date, days_to_ymd days = Ret date /\ valid_date date /\ day_number date = days.
Proof.
  intros Hd. unfold days_to_ymd. destruct (year_loop_spec (S (Z.to_nat (days / 365))) days 1970) as (d & y & -> & Hy & Hb & Hsum);
    [done|pose proof (Z.div_pos days 365); lia|]. rewrite bind_Ret. cbn [fst snd].
  destruct (month_loop_spec (month_days y) d 0) as (k & E & Hk & Hr); [by rewrite month_days_sum|]. rewrite E.
  eexists. split; [done|]. change (length (month_days y)) with 12%nat in Hk. unfold valid_date, day_number, month_start.
  replace (0 + Z.of_nat k + 1 - 1) with (Z.of_nat k) by lia. rewrite Nat2Z.id. change (year_start 1970) with 0 in Hsum. split; [|lia]. lia.
Qed.

(** Dates are ordered as their numbers, so a number names one date. *)
Lemma year_start_mono y y' : y < y' -> year_start y + year_days y <= year_start y'.
Proof.
  intros H. rewrite <-year_start_succ. assert (Hm : forall n, year_start (y + 1) <= year_start (y + 1 + Z.of_nat n)).
  { induction n as [|n IH]; [rewrite Z.add_0_r; lia|]. replace (y + 1 + Z.of_nat (S n)) with (y + 1 + Z.of_nat n + 1) by lia.
    rewrite (year_start_succ (y + 1 + Z.of_nat n)). pose proof (year_days_bound (y + 1 + Z.of_nat n)). lia. }
  specialize (Hm (Z.to_nat (y' - (y + 1)))). replace (y + 1 + Z.of_nat (Z.to_nat (y' - (y + 1)))) with y' in Hm by lia. done.
Qed.

Lemma take_sum_mono (l : list Z) k k' : Forall (fun x => 0 <= x) l -> (k < k')%nat -> (k < length l)%nat ->
  fold_right Z.add 0 (take k l) + nth k l 0 <= fold_right Z.add 0 (take k' l).
Proof.
  intros Hl. revert k k'. induction Hl as [|x l Hx Hl IH]; intros k k' Hk Hlen; cbn in Hlen; [lia|]. destruct k' as [|k']; [lia|].
  assert (Hnn : forall n, 0 <= fold_right Z.add 0 (take n l)).
  { clear -Hl. induction Hl as [|y l Hy _ IH]; intros [|n]; cbn; try lia. specialize (IH n). lia. }
  destruct k as [|k]; cbn; [specialize (Hnn k'); lia|]. specialize (IH k k'). lia.
Qed.

Lemma month_start_in y m d : 1 <= m <= 12 -> 1 <= d <= nth (Z.to_nat (m - 1)) (month_days y) 0 ->
  0 <= month_start y m + (d - 1) < year_days y.
Proof.
  intros Hm Hd. unfold month_start. rewrite <-(month_days_sum y). set (k := Z.to_nat (m - 1)) in *.
  assert (Hnn : Forall (fun x => 0 <= x) (month_days y)) by (unfold month_days; destruct (is_leap y); repeat constructor; lia).
  assert (H12 : fold_right Z.add 0 (month_days y) = fold_right Z.add 0 (take 12 (month_days y))) by done.
  pose proof (take_sum_mono (month_days y) k 12 Hnn ltac:(lia) ltac:(cbn; lia)) as Hs. rewrite <-H12 in Hs.
  assert (0 <= fold_right Z.add 0 (take k (month_days y))); [|lia].
  clearbody k. clear -Hnn. revert k. induction Hnn as [|x l Hx _ IH]; intros [|k]; cbn; try lia. specialize (IH k). lia.
Qed.

Lemma day_number_inj a b : valid_date a -> valid_date b -> day_number a = day_number b -> a = b.
Proof.
  destruct a as [[y m] d], b as [[y' m'] d']. unfold valid_date, day_number. intros (Hy & Hm & Hd) (Hy' & Hm' & Hd') E.
  pose proof (month_start_in y m d Hm Hd). pose proof (month_start_in y' m' d' Hm' Hd').
  destruct (Z.lt_total y y') as [Hlt|[->|Hlt]]; [pose proof (year_start_mono _ _ Hlt); lia| |pose proof (year_start_mono _ _ Hlt); lia].
  assert (Hnn : Forall (fun x => 0 <= x) (month_days y')) by (unfold month_days; destruct (is_leap y'); repeat constructor; lia).
  unfold month_start in *.
  destruct (Z.lt_total m m') as [Hlt|[->|Hlt]].
  - pose proof (take_sum_mono (month_days y') (Z.to_nat (m - 1)) (Z.to_nat (m' - 1)) Hnn ltac:(lia) ltac:(cbn; lia)). lia.
  - f_equal. lia.
  - pose proof (take_sum_mono (month_days y') (Z.to_nat (m' - 1)) (Z.to_nat (m - 1)) Hnn ltac:(lia) ltac:(cbn; lia)). lia.
Qed.

(** Time stamps: the year and month loops end for every day count, and give the
    one valid Gregorian date with that number of days since 1970-01-01; the date of
    a date's number is the date again. *)
Theorem days_to_ymd_correct (days : Z) (date : Z * Z * Z) :
  0 <= days -> valid_date date ->
  (exists ymd, days_to_ymd days = Ret ymd /\ valid_date ymd /\ day_number ymd = days) /\
  days_to_ymd (day_number date) = Ret date.
Proof.
  intros Hd Hv. split; [by apply days_to_ymd_valid|].
  assert (Hn : 0 <= day_number date).
  { destruct date as [[y m] d]. destruct Hv as (Hy & Hm & Hdd). unfold day_number. pose proof (month_start_in y m d Hm Hdd).
    destruct (decide (y = 1970)) as [->|]; [change (year_start 1970) with 0; lia|].
    pose proof (year_start_mono 1970 y ltac:(lia)) as Hy'. change (year_start 1970) with 0 in Hy'. pose proof (year_days_bound 1970). lia. }
  destruct (days_to_ymd_valid _ Hn) as (ymd & -> & Hv' & E). by rewrite (day_number_inj _ _ Hv' Hv E).
Qed.

(** ** Witnesses *)

Definition sample_headers : list (str * str) := [(lit "Host", lit "127.0.0.1:9090"); (lit "Content-Length", lit "2")].

Lemma sample_headers_ok : Forall header_ok sample_headers.
Proof.
  assert (Hg : forall s, forallb (fun b => (33 <=? b) && (b <=? 126)) s = true -> Forall graphic s).
  { intros s H. apply Forall_forall. intros b Hb. rewrite forallb_forall in H. apply list_elem_of_In, H in Hb. unfold graphic. lia. }
  assert (Hok : forall k v, k <> [] -> v <> [] -> forallb (fun b => (33 <=? b) && (b <=? 126)) (k ++ v) = true -> (58 ∉ k) -> header_ok (k, v)).
  { intros k v Hk Hv H H58. apply Hg, Forall_app in H as [H1 H2]. split; [by split|]. split; [done|]. split; [by apply graphic_framed|by apply graphic_printable]. }
  apply Forall_cons. split; [|apply Forall_cons; split; [|done]].
  - apply Hok; [done|done|vm_compute; reflexivity|]. apply (bool_decide_unpack _). vm_compute. exact I.
  - apply Hok; [done|done|vm_compute; reflexivity|]. apply (bool_decide_unpack _). vm_compute. exact I.
Qed.

Lemma read_request_any_chunks_witness :
  let whole := request_head (lit "PUT") (lit "/proxies/auto") sample_headers ++ crlf ++ crlf ++ lit "{}" in
  read_request [take 20 whole; drop 20 whole] = Ret (Ok (mkRequest (lit "PUT") (lit "/proxies/auto") (header_map sample_headers) (lit "{}"))).
Proof.
  cbv zeta. apply (read_request_any_chunks (lit "PUT") (lit "/proxies/auto") sample_headers (lit "{}") []).
  - split; [done|]. apply (bool_decide_unpack (Forall graphic _)). vm_compute. exact I.
  - split; [done|]. apply (bool_decide_unpack (Forall graphic _)). vm_compute. exact I.
  - exact sample_headers_ok.
  - vm_compute. reflexivity.
  - vm_compute. discriminate.
  - repeat constructor; vm_compute; discriminate.
  - vm_compute. reflexivity.
  - vm_compute. discriminate.
Defined.

(** A length of 2^64 - 1, as any client may send it. *)
Definition huge_request : bytes := request_head (lit "GET") (lit "/") [(lit "Content-Length", lit "18446744073709551615")] ++ crlf ++ crlf.


Example huge_request_panics : read_request [huge_request] = Panic.
Proof. vm_compute. reflexivity. Qed.

Lemma percent_roundtrip_witness : percent_decode (percent_encode is_digit (lit "a b%" ++ [0xE2; 0x82; 0xAC])) = Ret (lit "a b%" ++ [0xE2; 0x82; 0xAC]).
Proof.
  apply percent_roundtrip; [apply (bool_decide_eq_true_1 (bytes_ok _)); vm_compute; reflexivity|vm_compute; reflexivity|].
  intros b. unfold is_digit. lia.
Defined.

Lemma days_to_ymd_correct_witness :
  (exists ymd, days_to_ymd 19723 = Ret ymd /\ valid_date ymd /\ day_number ymd = 19723) /\ days_to_ymd (day_number (2000, 2, 29)) = Ret (2000, 2, 29).
Proof.
  apply (days_to_ymd_correct 19723 (2000, 2, 29)); [lia|]. split; [lia|]. split; [lia|].
  split; [lia|]. vm_compute. discriminate.
Defined.
