(* ===== verification/ClashApi.v ===== *)
(** * ClashApi: the control API of [src/app/clash_api.rs], up to line 1264.

    The delay history, the connection tracker, and [handle_request]: the check of
    the secret, the routing of a request to a handler, and the handlers, as a
    function on the state of the API.  JSON values are data; their text is the
    parameter [JsonLib].  What an outbound's [connect_tcp] comes to and the files
    of the user interface are arguments.  The WebSocket and log streams are named
    by the reply, their periodic messages left out. *)

From S2P Require Import Prelude RustStr Extern Format Trie IpMatch Compiler Loader Matcher MatchSafe CacheFile Inbound QuicCrypto Sniff Router RouterSpec DnsWire DnsTopo FakeIp DnsCache DnsResolver Config ConfigSpec Provider Group OutboundMgr Stats Http.

Local Open Scope reflex_scope.
#[local] Set Warnings "-register-all".

(** ** JSON *)

Inductive json : Type :=
  | JNull
  | JBool (b : bool)
  | JNum (z : Z)
  | JStr (s : str)
  | JArr (l : list json)
  | JObj (fields : list (str * json)).

(** [serde_json]: [from_slice] and [to_vec]. *)
Class JsonLib : Type := {
  from_slice : bytes -> result json str;
  to_vec : json -> bytes
}.

(** [value.get(key)] *)
Fixpoint field (key : str) (fs : list (str * json)) : option json :=
  match fs with
  | [] => None
  | (k, v) :: fs => if bool_decide (k = key) then Some v else field key fs
  end.

Definition json_get (v : json) (key : str) : option json := match v with JObj fs => field key fs | _ => None end.

Definition as_str (v : json) : option str := match v with JStr s => Some s | _ => None end.

(** [value.get(key).and_then(|v| v.as_str())] *)
Definition get_str (v : json) (key : str) : option str :=
  match json_get v key with Some x => as_str x | None => None end.

(** [map.insert(key, value)]: an entry of that name is replaced. *)
Fixpoint json_insert (key : str) (v : json) (fs : list (str * json)) : list (str * json) :=
  match fs with
  | [] => [(key, v)]
  | (k, x) :: fs => if bool_decide (k = key) then (k, v) :: fs else (k, x) :: json_insert key v fs
  end.

Definition strings (l : list str) : json := JArr (map JStr l).

(** ** Delay history *)

Record DelayRecord : Type := mkDelay { time_ms : Z; delay : Z }.

Abbreviation delays := (gmap (list Z) DelayRecord) (only parsing).

Definition history_store (h : delays) (now : Z) (tag : str) (d : Z) : delays := <[tag := mkDelay now d]> h.
Definition history_load (h : delays) (tag : str) : option DelayRecord := h !! tag.
Definition history_delete (h : delays) (tag : str) : delays := delete tag h.

(** ** Connections *)

Record ConnInfo : Type := mkConnInfo {
  ci_network : str;
  ci_host : str;
  ci_source : SocketAddr;
  ci_dest_port : Z;
  ci_inbound : str;
  ci_outbound : str
}.

Record ConnMeta : Type := mkConnMeta {
  cm_id : Z;
  cm_network : str;
  cm_host : str;
  cm_source_ip : str;
  cm_source_port : Z;
  cm_dest_port : Z;
  cm_inbound : str;
  cm_outbound : str;
  cm_rule : str;
  cm_rule_payload : str;
  cm_started_ms : Z
}.

(** [counters]: upload and download of every registration; the counters outlive
    the entry, as the relay holds them too. *)
Record ConnectionTracker : Type := mkTracker {
  next_id : Z;
  tr_conns : gmap Z ConnMeta;
  counters : gmap Z (Z * Z)
}.

Definition tracker_new : ConnectionTracker := mkTracker 1 ∅ ∅.

(** The guard is the number. *)
Definition tracker_register (t : ConnectionTracker) (now : Z) (info : ConnInfo) (rule : str * str) : Z * ConnectionTracker :=
  let id := next_id t in
  let m := mkConnMeta id (ci_network info) (ci_host info) (show_ip (ip (ci_source info))) (sock_port (ci_source info))
             (ci_dest_port info) (ci_inbound info) (ci_outbound info) rule.1 rule.2 now in
  (id, mkTracker (as_u64 (id + 1)) (<[id := m]> (tr_conns t)) (<[id := (0, 0)]> (counters t))).

Definition tracker_remove (t : ConnectionTracker) (id : Z) : ConnectionTracker :=
  mkTracker (next_id t) (delete id (tr_conns t)) (counters t).

Definition tracker_get (t : ConnectionTracker) (id : Z) : option ConnMeta := tr_conns t !! id.

(** In the iteration order of the map. *)
Definition tracker_snapshot (t : ConnectionTracker) : list ConnMeta := map snd (map_to_list (tr_conns t)).

Definition tracker_len (t : ConnectionTracker) : Z := Z.of_nat (size (tr_conns t)).

(** What the relay adds through its handle on the counters. *)
Definition count_live (t : ConnectionTracker) (id up down : Z) : ConnectionTracker :=
  mkTracker (next_id t) (tr_conns t) (alter (fun c => (wrap_i64 (c.1 + up), wrap_i64 (c.2 + down))) id (counters t)).

(** [ConnGuard::add_bytes] *)
Definition guard_add_bytes (t : ConnectionTracker) (id up down : Z) : ConnectionTracker :=
  match tracker_get t id with Some _ => count_live t id up down | None => t end.

(** [ConnGuard::live_counters]: the number of the counters, or none. *)
Definition live_counters (t : ConnectionTracker) (id : Z) : option Z :=
  match tracker_get t id with Some m => Some (cm_id m) | None => None end.

Definition conn_to_json (t : ConnectionTracker) (c : ConnMeta) : run json :=
  let '(host, destination_ip) := match IpAddr_from_str (cm_host c) with
                                 | Some _ => ([], cm_host c)
                                 | None => (cm_host c, [])
                                 end in
  let n := match counters t !! cm_id c with Some n => n | None => (0, 0) end in
  start ← ms_to_iso (cm_started_ms c);
  Ret (JObj [
    (lit "id", JStr (show_uint (cm_id c)));
    (lit "metadata", JObj [
      (lit "network", JStr (cm_network c)); (lit "type", JStr (cm_inbound c)); (lit "host", JStr host); (lit "sniffHost", JStr []);
      (lit "destinationIP", JStr destination_ip); (lit "destinationPort", JStr (show_uint (cm_dest_port c)));
      (lit "sourceIP", JStr (cm_source_ip c)); (lit "sourcePort", JStr (show_uint (cm_source_port c)));
      (lit "inboundName", JStr (cm_inbound c)); (lit "inboundPort", JStr []); (lit "inboundUser", JStr []);
      (lit "process", JStr []); (lit "processPath", JStr []); (lit "dnsMode", JStr (lit "normal"))]);
    (lit "upload", JNum n.1); (lit "download", JNum n.2); (lit "start", JStr start);
    (lit "chains", strings [cm_outbound c]); (lit "rule", JStr (cm_rule c)); (lit "rulePayload", JStr (cm_rule_payload c))]).

(** [l.iter().map(f).collect()] where [f] may panic *)
Fixpoint map_run {A B} (f : A -> run B) (l : list A) : run (list B) :=
  match l with
  | [] => Ret []
  | a :: l => b ← f a; bs ← map_run f l; Ret (b :: bs)
  end.

(** ** Outbound statuses *)

(** [OutboundStatus::type_name] of the protocols that are not groups. *)
Definition leaf_type (c : OutboundConfig) : str :=
  match c with
  | ODirect _ => lit "Direct"
  | OBlock _ => lit "Reject"
  | OVmess _ _ => lit "VMess"
  | OShadowsocks _ => lit "Shadowsocks"
  | OTuic _ _ => lit "TUIC"
  | OSocks _ v =>
      match parsed_version v with
      | Ok V4a => lit "SOCKS4a"
      | Ok V4_ => lit "SOCKS4"
      | _ => lit "SOCKS5"
      end
  | _ => lit "Proxy"
  end.

Definition obj_status (o : OutboundObj) : OutboundStatus :=
  match o with
  | Leaf c => mkStatus (ob_tag c) (leaf_type c) None [] []
  | Selector st => selector_status st
  | UrlTest st => status_snapshot st (map_to_list (latencies st))
  end.

(** The byte order of strings. *)
Fixpoint str_leb (a b : str) : bool :=
  match a, b with
  | [], _ => true
  | _ :: _, [] => false
  | x :: a, y :: b => (x <? y) || ((x =? y) && str_leb a b)
  end.

Fixpoint insert_sorted (s : OutboundStatus) (l : list OutboundStatus) : list OutboundStatus :=
  match l with
  | [] => [s]
  | x :: l => if str_leb (st_name s) (st_name x) then s :: x :: l else x :: insert_sorted s l
  end.

(** [OutboundManager::statuses], [OutboundManager::status] *)
Definition statuses (reg : registry) : list OutboundStatus :=
  fold_right insert_sorted [] (map (fun e => obj_status e.2) (map_to_list reg)).

Definition mgr_status (reg : registry) (tag : str) : option OutboundStatus := obj_status <$> reg !! tag.

(** ** Paths of the user interface *)

Inductive Component : Type := RootDir | CurDir | ParentDir | Normal (part : str).

(** [Path::new(s).components()] on Unix. *)
Definition component_of (w : str) : list Component :=
  if bool_decide (w = []) then []
  else if bool_decide (w = lit ".") then [CurDir]
  else if bool_decide (w = lit "..") then [ParentDir]
  else [Normal w].

Definition components (s : str) : list Component :=
  (match s with 47 :: _ => [RootDir] | _ => [] end) ++ flat_map component_of (split_on 47 s).

Fixpoint join_components (out : str) (cs : list Component) : option str :=
  match cs with
  | [] => Some out
  | Normal part :: cs => join_components (path_push out part) cs
  | CurDir :: cs => join_components out cs
  | _ :: _ => None
  end.

Definition safe_join (root relative : str) : option str := join_components root (components relative).

(** [path.extension()]: after the last dot of the last component, unless it is its first byte. *)
Definition path_extension (p : str) : option str :=
  match last (components p) with
  | Some (Normal w) =>
      match rsplit_on 46 w with
      | [_; []] => None
      | ext :: _ :: _ => Some ext
      | _ => None
      end
  | _ => None
  end.

Definition content_type (p : str) : str :=
  let eqs e s := bool_decide (e = lit s) in
  match path_extension p with
  | Some e =>
      if eqs e "html" then lit "text/html; charset=utf-8"
      else if eqs e "js" || eqs e "mjs" then lit "application/javascript; charset=utf-8"
      else if eqs e "css" then lit "text/css; charset=utf-8"
      else if eqs e "json" then lit "application/json; charset=utf-8"
      else if eqs e "png" then lit "image/png"
      else if eqs e "jpg" || eqs e "jpeg" then lit "image/jpeg"
      else if eqs e "svg" then lit "image/svg+xml"
      else if eqs e "ico" then lit "image/x-icon"
      else if eqs e "woff" then lit "font/woff"
      else if eqs e "woff2" then lit "font/woff2"
      else lit "application/octet-stream"
  | None => lit "application/octet-stream"
  end.

(** ** The API *)

Inductive LogLevel : Type := Trace | Debug_ | Info_ | Warn | Error_ | Off.

Record ClashApiConfig : Type := mkApiConfig {
  default_mode : str;
  mode_list_cfg : list str;
  secret : str;
  external_ui : option str
}.

(** The parts fixed at construction; an inbound comes with the address it listens on. *)
Record ClashApi : Type := mkApi {
  api_config : ClashApiConfig;
  mode_list : list str;
  route_config_of : RouteConfig;
  inbound_configs : list (InboundConfig * str);
  log_level : LogLevel
}.

Definition ClashApi_new (config : ClashApiConfig) (rc : RouteConfig) (ibs : list (InboundConfig * str)) (level : LogLevel) : ClashApi :=
  let modes := match mode_list_cfg config with [] => [lit "rule"; lit "global"; lit "direct"] | l => l end in
  let modes := if bool_decide (default_mode config ∈ modes) then modes else default_mode config :: modes in
  mkApi config modes rc ibs level.

(** What a handler answers: a JSON document, a text, the error of the outbound
    manager, a file, a redirect, or a stream of its own. *)
Inductive api_reply : Type :=
  | RJson (status : Z) (v : json)
  | RText (status : Z) (text : str)
  | REmpty (status : Z)
  | RMgrError (status : Z) (e : MgrError)
  | RRulesError (status : Z) (e : RouterError)
  | RFile (data : bytes) (kind : str)
  | RRedirect (location : str)
  | RPreflight
  | RStream (name : str).

Definition json_response (v : json) : api_reply := RJson 200 v.

(** [s.find('?')]: the path and the query. *)
Definition split_query (full_path : str) : str * str :=
  match split_once 63 full_path with
  | Some (p, q) => (p, q)
  | None => (full_path, [])
  end.

(** [s.strip_prefix(p).map(|t| t == secret)] over the parts of the query, or the header. *)
Definition secret_ok (cfg : ClashApiConfig) (r : HttpRequest) (query : str) : bool :=
  if is_websocket r
  then existsb (fun kv => match strip_prefix (lit "token=") kv with Some t => bool_decide (t = secret cfg) | None => false end) (split_on 38 query)
  else match header r (lit "authorization") with
       | Some v => match strip_prefix (lit "Bearer ") v with Some t => bool_decide (t = secret cfg) | None => false end
       | None => false
       end.

(** Where a request goes; the text is the part of the path after the prefix. *)
Inductive endpoint : Type :=
  | EUiRoot | EVersion | EConfigs | EPatchConfigs | EPutConfigs | ETraffic | ELogs | ERules | EConnections | EDeleteConnections
  | EProxies | EProxyProviders | ERuleProviders | EScript | ECache | EProfile | EDnsQuery | EMemory | EGroups
  | EGroupDelay (name : str) | EGroup (name : str) | EPutProxy (name : str) | EDeleteConnection (id : str)
  | EProxyDelay (name : str) | EProxy (name : str) | EProxyProvider | EUpdateRules (name : str) | EUi | ENotFound.

(** [s.trim_start_matches(p)]: the prefix is taken off as often as it is there. *)
Fixpoint trim_prefixes (fuel : nat) (p s : str) : str :=
  match fuel with
  | O => s
  | S fuel => match strip_prefix p s with Some r => trim_prefixes fuel p r | None => s end
  end.

Definition trim_start_matches_str (p s : str) : str := trim_prefixes (length s) p s.

Definition strip_suffix (p s : str) : option str := (fun r => rev r) <$> strip_prefix (rev p) (rev s).

Definition fixed_endpoints : list (str * str * endpoint) := [
  (lit "GET", lit "/", EUiRoot); (lit "GET", lit "/version", EVersion); (lit "GET", lit "/configs", EConfigs);
  (lit "PATCH", lit "/configs", EPatchConfigs); (lit "PUT", lit "/configs", EPutConfigs); (lit "GET", lit "/traffic", ETraffic);
  (lit "GET", lit "/logs", ELogs); (lit "GET", lit "/rules", ERules); (lit "GET", lit "/connections", EConnections);
  (lit "DELETE", lit "/connections", EDeleteConnections); (lit "GET", lit "/proxies", EProxies);
  (lit "GET", lit "/providers/proxies", EProxyProviders); (lit "GET", lit "/providers/rules", ERuleProviders);
  (lit "GET", lit "/script", EScript); (lit "GET", lit "/cache", ECache); (lit "GET", lit "/profile", EProfile);
  (lit "GET", lit "/dns/query", EDnsQuery); (lit "GET", lit "/memory", EMemory); (lit "GET", lit "/group", EGroups)].

Definition route_request (m p : str) : endpoint :=
  let eqm x := bool_decide (m = lit x) in
  let under x := starts_with (lit x) p in
  let rest x := trim_start_matches_str (lit x) p in
  match List.find (fun e => bool_decide (e.1 = (m, p))) fixed_endpoints with
  | Some e => e.2
  | None =>
      if eqm "GET" && under "/group/" then
        match strip_suffix (lit "/delay") (rest "/group/") with Some n => EGroupDelay n | None => EGroup (rest "/group/") end
      else if eqm "PUT" && under "/group/" then EPutProxy (rest "/group/")
      else if eqm "DELETE" && under "/connections/" then EDeleteConnection (rest "/connections/")
      else if eqm "GET" && under "/proxies/" then
        match strip_suffix (lit "/delay") (rest "/proxies/") with Some n => EProxyDelay n | None => EProxy (rest "/proxies/") end
      else if eqm "PUT" && under "/proxies/" then EPutProxy (rest "/proxies/")
      else if eqm "GET" && under "/providers/proxies/" then EProxyProvider
      else if eqm "PUT" && under "/providers/rules/" then EUpdateRules (rest "/providers/rules/")
      else if eqm "GET" then EUi
      else ENotFound
  end.

(** [connect_tcp] under the probe's timeout, with the milliseconds it took. *)
Inductive probe_result : Type :=
  | Connected (ms : Z)
  | ConnectFailed (message : str)
  | ConnectTimedOut.

Section Handlers.
Context {FST : FstLib} {RX : RegexLib} {IO : HostIO} {UL : UnicodeLib} {JL : JsonLib}.

(** The parts a request may change. *)
Record api_state : Type := mkApiState {
  mode : str;
  delay_history : gmap (list Z) DelayRecord;
  conn_tracker : ConnectionTracker;
  outbound_mgr : gmap (list Z) OutboundObj;
  rs_registry : RuleSetRegistry;
  rs_world : world;
  api_stats : gmap (list Z) TagStats
}.

Definition with_mode (s : api_state) (m : str) : api_state :=
  mkApiState m (delay_history s) (conn_tracker s) (outbound_mgr s) (rs_registry s) (rs_world s) (api_stats s).
Definition with_history (s : api_state) (h : gmap (list Z) DelayRecord) : api_state :=
  mkApiState (mode s) h (conn_tracker s) (outbound_mgr s) (rs_registry s) (rs_world s) (api_stats s).
Definition with_tracker (s : api_state) (t : ConnectionTracker) : api_state :=
  mkApiState (mode s) (delay_history s) t (outbound_mgr s) (rs_registry s) (rs_world s) (api_stats s).
Definition with_registry (s : api_state) (reg : gmap (list Z) OutboundObj) : api_state :=
  mkApiState (mode s) (delay_history s) (conn_tracker s) reg (rs_registry s) (rs_world s) (api_stats s).

(** The environment of one request: the clock, the receivers that are gone, the
    outbounds' connections, the package's version, the memory in use and the files of the interface. *)
Context (api : ClashApi) (now : Z) (closed : Z -> bool) (connect : str -> str -> Z -> Z -> probe_result).
Context (pkg_version : str) (rss_kb : option Z) (is_dir : str -> bool) (ui_read : str -> option bytes).

(** ** Configuration *)

(** The first port of each kind; whether an inbound listens on every address. *)
Definition config_ports (acc : Z * Z * Z * bool) (ib : InboundConfig * str) : Z * Z * Z * bool :=
  let '(mixed, redir, tproxy, lan) := acc in
  let open := bool_decide (ib.2 = lit "0.0.0.0") || bool_decide (ib.2 = lit "::") || bool_decide (ib.2 = lit "0") in
  match ib.1 with
  | IMixed _ p => ((if mixed =? 0 then p else mixed), redir, tproxy, lan || open)
  | IRedir _ p => (mixed, (if redir =? 0 then p else redir), tproxy, lan || open)
  | ITProxy _ p => (mixed, redir, (if tproxy =? 0 then p else tproxy), lan || open)
  | _ => acc
  end.

Definition log_level_str (l : LogLevel) : str :=
  match l with
  | Trace | Debug_ => lit "debug"
  | Info_ => lit "info"
  | Warn => lit "warning"
  | Error_ => lit "error"
  | Off => lit "silent"
  end.

Definition get_configs (s : api_state) : api_reply :=
  let '(mixed, redir, tproxy, lan) := fold_left config_ports (inbound_configs api) (0, 0, 0, false) in
  json_response (JObj [
    (lit "port", JNum 0); (lit "socks-port", JNum 0); (lit "redir-port", JNum redir); (lit "tproxy-port", JNum tproxy);
    (lit "mixed-port", JNum mixed); (lit "allow-lan", JBool lan); (lit "bind-address", JStr (lit "*")); (lit "mode", JStr (mode s));
    (lit "mode-list", strings (mode_list api)); (lit "log-level", JStr (log_level_str (log_level api))); (lit "ipv6", JBool true)]).

Definition patch_configs (s : api_state) (b : bytes) : api_reply * api_state :=
  match from_slice b with
  | Err e => (RText 400 (lit "invalid json: " ++ e), s)
  | Ok v =>
      match get_str v (lit "mode") with
      | Some m => if existsb (fun x => eq_ignore_ascii_case x m) (mode_list api) then (REmpty 204, with_mode s m) else (REmpty 204, s)
      | None => (REmpty 204, s)
      end
  end.

(** ** Traffic and connections *)

Definition api_snapshot (s : api_state) : TagStats := global_snapshot (map snd (map_to_list (api_stats s))).

Definition get_traffic_once (s : api_state) : api_reply :=
  let t := api_snapshot s in
  json_response (JObj [(lit "up", JNum (bytes_up t)); (lit "down", JNum (bytes_down t));
                       (lit "uploadTotal", JNum (bytes_up t)); (lit "downloadTotal", JNum (bytes_down t))]).

Definition get_connections (s : api_state) : run api_reply :=
  let t := api_snapshot s in
  cs ← map_run (conn_to_json (conn_tracker s)) (tracker_snapshot (conn_tracker s));
  Ret (json_response (JObj [(lit "downloadTotal", JNum (bytes_down t)); (lit "uploadTotal", JNum (bytes_up t)); (lit "connections", JArr cs)])).

Definition delete_connections : api_reply := REmpty 204.

Definition delete_connection (s : api_state) (id_str : str) : api_reply * api_state :=
  match parse_uint (2 ^ 64 - 1) id_str with
  | Some id => (REmpty 204, with_tracker s (tracker_remove (conn_tracker s) id))
  | None => (RText 400 (lit "invalid connection id"), s)
  end.

Definition get_memory_once : api_reply :=
  json_response (JObj [(lit "inuse", JNum (match rss_kb with Some kb => kb * 1024 | None => 0 end)); (lit "oslimit", JNum 0)]).

(** ** Groups and proxies *)

Definition is_group_type (st : OutboundStatus) : bool :=
  bool_decide (type_name st = lit "Selector") || bool_decide (type_name st = lit "URLTest") || bool_decide (type_name st = lit "UrlTest").

Definition history_json (s : api_state) (tag : str) : run json :=
  match history_load (delay_history s) tag with
  | Some r => t ← ms_to_iso (time_ms r);
              Ret (JArr [JObj [(lit "time", JStr t); (lit "delay", JNum (delay r)); (lit "meanDelay", JNum (delay r))]])
  | None => Ret (JArr [])
  end.

Definition with_now (st : OutboundStatus) (fs : list (str * json)) : list (str * json) :=
  match st_now st with Some n => json_insert (lit "now") (JStr n) fs | None => fs end.

Definition member_json (s : api_state) (tag : str) : run json :=
  h ← history_json s tag;
  let ty := match mgr_status (outbound_mgr s) tag with Some st => type_name st | None => lit "Unknown" end in
  Ret (JObj [(lit "name", JStr tag); (lit "type", JStr ty); (lit "udp", JBool true); (lit "history", h)]).

Definition build_group_entry (s : api_state) (st : OutboundStatus) : run json :=
  h ← history_json s (st_name st);
  members ← map_run (member_json s) (st_all st);
  Ret (JObj (with_now st [(lit "type", JStr (type_name st)); (lit "name", JStr (st_name st)); (lit "udp", JBool true);
                          (lit "history", h); (lit "all", JArr members)])).

Definition get_groups (s : api_state) : run api_reply :=
  gs ← map_run (build_group_entry s) (List.filter is_group_type (statuses (outbound_mgr s)));
  Ret (json_response (JObj [(lit "proxies", JArr gs)])).

Definition find_status (s : api_state) (name : str) : option OutboundStatus :=
  List.find (fun st => bool_decide (st_name st = name)) (statuses (outbound_mgr s)).

Definition get_group (s : api_state) (encoded_name : str) : run api_reply :=
  name ← percent_decode encoded_name;
  match find_status s name with
  | Some st => if is_group_type st then v ← build_group_entry s st; Ret (json_response v) else Ret (RText 404 (lit "group not found"))
  | None => Ret (RText 404 (lit "group not found"))
  end.

(** The members of the GLOBAL entry, and the first of them. *)
Definition global_tags (s : api_state) : list str :=
  map st_name (List.filter (fun st => negb (bool_decide (type_name st = lit "Direct")) && negb (bool_decide (type_name st = lit "Block"))) (statuses (outbound_mgr s))).

Definition global_entry (s : api_state) : json :=
  let all := global_tags s in
  JObj [(lit "type", JStr (lit "Selector")); (lit "name", JStr (lit "GLOBAL")); (lit "udp", JBool true); (lit "history", JArr []);
        (lit "all", strings all); (lit "now", JStr (match head all with Some t => t | None => [] end))].

Definition proxy_entry (s : api_state) (st : OutboundStatus) : run json :=
  h ← history_json s (st_name st);
  let fs := with_now st [(lit "type", JStr (type_name st)); (lit "name", JStr (st_name st)); (lit "udp", JBool true); (lit "history", h)] in
  Ret (JObj (match st_all st with [] => fs | all => json_insert (lit "all") (strings all) fs end)).

Definition get_proxies (s : api_state) : run api_reply :=
  entries ← map_run (fun st => e ← proxy_entry s st; Ret (st_name st, e)) (statuses (outbound_mgr s));
  Ret (json_response (JObj [(lit "proxies",
    JObj (fold_left (fun fs e => json_insert e.1 e.2 fs) entries [(lit "GLOBAL", global_entry s)]))])).

Definition get_proxy (s : api_state) (encoded_name : str) : run api_reply :=
  name ← percent_decode encoded_name;
  if bool_decide (name = lit "GLOBAL") then Ret (json_response (global_entry s))
  else match mgr_status (outbound_mgr s) name with
       | Some st => v ← proxy_entry s st; Ret (json_response v)
       | None => Ret (RText 404 (lit "proxy not found"))
       end.

Definition put_proxy (s : api_state) (encoded_name : str) (b : bytes) : run (api_reply * api_state) :=
  name ← percent_decode encoded_name;
  Ret (match from_slice b with
       | Err e => (RText 400 (lit "invalid json: " ++ e), s)
       | Ok v =>
           match get_str v (lit "name") with
           | None => (RText 400 (lit "missing proxy name"), s)
           | Some child =>
               match select closed (outbound_mgr s) name child with
               | Ok reg => (REmpty 204, with_registry s reg)
               | Err e => (RMgrError 400 e, s)
               end
           end
       end).

(** ** Probes *)

(** The arguments of a probe: its URL and its timeout in milliseconds. *)
Fixpoint probe_args (kvs : list str) (url : str) (timeout_ms : Z) : run (str * Z) :=
  match kvs with
  | [] => Ret (url, timeout_ms)
  | kv :: kvs =>
      match strip_prefix (lit "url=") kv with
      | Some v => u ← percent_decode v; probe_args kvs u timeout_ms
      | None =>
          match strip_prefix (lit "timeout=") kv with
          | Some v => probe_args kvs url (match parse_uint (2 ^ 64 - 1) v with Some n => n | None => timeout_ms end)
          | None => probe_args kvs url timeout_ms
          end
      end
  end.

Definition probe_target (url : str) (bad_port : str) : result (str * Z) str :=
  let rest := match strip_prefix (lit "https://") url with
              | Some r => Some (443, r)
              | None => match strip_prefix (lit "http://") url with Some r => Some (80, r) | None => None end
              end in
  match rest with
  | None => Err (lit "invalid probe url scheme")
  | Some (port, r) =>
      let authority := match split_on 47 r with a :: _ => a | [] => r end in
      match rsplit_once 58 authority with
      | Some (h, p) => match parse_uint u16_max p with Some n => Ok (h, n) | None => Err bad_port end
      | None => Ok (authority, port)
      end
  end.

Definition DEFAULT_PROBE_URL : str := lit "https://www.gstatic.com/generate_204".

(** One probe: its result and what it does to the history. *)
Definition probe_one (reg : gmap (list Z) OutboundObj) (h : gmap (list Z) DelayRecord) (tag host : str) (port timeout : Z)
    : option Z * gmap (list Z) DelayRecord :=
  match reg !! tag with
  | None => (None, h)
  | Some _ =>
      match connect tag host port timeout with
      | Connected ms => (Some ms, history_store h now tag ms)
      | _ => (None, history_delete h tag)
      end
  end.

Fixpoint probe_all (reg : gmap (list Z) OutboundObj) (h : gmap (list Z) DelayRecord) (tags : list str) (host : str) (port timeout : Z)
    (out : list (str * json)) : list (str * json) * gmap (list Z) DelayRecord :=
  match tags with
  | [] => (out, h)
  | tag :: tags =>
      let '(d, h) := probe_one reg h tag host port timeout in
      probe_all reg h tags host port timeout (json_insert tag (match d with Some ms => JNum ms | None => JNull end) out)
  end.

Definition get_group_delay (s : api_state) (encoded_name query : str) : run (api_reply * api_state) :=
  name ← percent_decode encoded_name;
  match find_status s name with
  | None => Ret (RText 404 (lit "group not found"), s)
  | Some g =>
      match st_all g with
      | [] => Ret (json_response (JObj []), s)
      | all =>
          args ← probe_args (split_on 38 query) DEFAULT_PROBE_URL 5000;
          Ret (match probe_target args.1 (lit "invalid port") with
               | Err t => (RText 400 t, s)
               | Ok (host, port) =>
                   let '(out, h) := probe_all (outbound_mgr s) (delay_history s) all host port args.2 [] in
                   (json_response (JObj out), with_history s h)
               end)
      end
  end.

Definition get_proxy_delay (s : api_state) (encoded_name query : str) : run (api_reply * api_state) :=
  name ← percent_decode encoded_name;
  args ← probe_args (split_on 38 query) DEFAULT_PROBE_URL 5000;
  Ret (match probe_target args.1 (lit "invalid port in url") with
       | Err t => (RText 400 t, s)
       | Ok (host, port) =>
           match outbound_mgr s !! name with
           | None => (RText 404 (lit "proxy not found"), s)
           | Some _ =>
               let dropped := with_history s (history_delete (delay_history s) name) in
               match connect name host port args.2 with
               | Connected ms => (json_response (JObj [(lit "delay", JNum ms); (lit "meanDelay", JNum ms)]),
                                  with_history s (history_store (delay_history s) now name ms))
               | ConnectFailed m => (RJson 500 (JObj [(lit "message", JStr m)]), dropped)
               | ConnectTimedOut => (RJson 500 (JObj [(lit "message", JStr (lit "timeout"))]), dropped)
               end
           end
       end).

(** ** Rules and rule sets *)

Definition provider_json (g : RuleSetRegistry) (rs : RuleSetRef) : run (str * json) :=
  m ← match snapshot g !! rs_tag rs with
      | Some m => t ← ms_to_iso (updated_at_ms m); Ret (rule_count m, t)
      | None => Ret (0, [])
      end;
  Ret (rs_tag rs, JObj [(lit "behavior", JStr (lit "domain")); (lit "format", JStr (lit "binary")); (lit "name", JStr (rs_tag rs));
         (lit "ruleCount", JNum m.1); (lit "type", JStr (lit "Rule")); (lit "updatedAt", JStr m.2);
         (lit "vehicleType", JStr (match rs_type rs with Local_ => lit "File" | Remote => lit "HTTP" end))]).

Definition get_rule_providers (s : api_state) : run api_reply :=
  ps ← map_run (provider_json (rs_registry s)) (rule_set (route_config_of api));
  Ret (json_response (JObj [(lit "providers", JObj (fold_left (fun fs e => json_insert e.1 e.2 fs) ps []))])).

Definition update_rule_provider (s : api_state) (name : str) : run (api_reply * api_state) :=
  let is_remote := match List.find (fun r => bool_decide (rs_tag r = name)) (rule_set (route_config_of api)) with
                   | Some r => match rs_type r with Remote => true | Local_ => false end
                   | None => false
                   end in
  if negb is_remote then Ret (RText 400 (lit "rule_set is not remote or does not exist"), s)
  else
    x ← reload_remote (rs_world s) (rs_registry s) name;
    let '(res, w, g) := x in
    let s := mkApiState (mode s) (delay_history s) (conn_tracker s) (outbound_mgr s) g w (api_stats s) in
    Ret (match res with Ok _ => (REmpty 204, s) | Err e => (RRulesError 500 e, s) end).

Definition rule_json (r : RouteRuleConfig) : json :=
  let list_or (l : list str) ty rest := if nonempty l then (lit ty, join [44] l) else rest in
  let '(rule_type, payload) :=
    list_or (ruleset r) "rule-set" (list_or (domain r) "DOMAIN" (list_or (domain_suffix r) "DOMAIN-SUFFIX"
    (list_or (domain_keyword r) "DOMAIN-KEYWORD" (list_or (ip_cidr r) "IP-CIDR"
    (match Router.network r with
     | Some n => (lit "NETWORK", match n with FTcp => lit "tcp" | FUdp => lit "udp" end)
     | None => list_or (protocol r) "PROTOCOL" (list_or (inbound r) "IN-NAME"
                 (if sniff_on r then (lit "SNIFF", []) else (lit "MATCH", [])))
     end))))) in
  let proxy := if hijack_dns r then lit "dns-out" else outbound r in
  JObj [(lit "type", JStr rule_type); (lit "payload", JStr payload); (lit "proxy", JStr proxy); (lit "size", JNum (-1))].

Definition get_rules : api_reply :=
  let rc := route_config_of api in
  json_response (JObj [(lit "rules", JArr (map rule_json (rules_cfg rc)
    ++ [JObj [(lit "type", JStr (lit "MATCH")); (lit "payload", JStr []); (lit "proxy", JStr (final rc)); (lit "size", JNum (-1))]]))]).

(** ** The user interface *)

Definition redirect_to_ui : api_reply :=
  match external_ui (api_config api) with
  | Some _ => RRedirect (lit "/ui/")
  | None => json_response (JObj [(lit "hello", JStr (lit "clash"))])
  end.

Definition serve_ui (p : str) : api_reply :=
  match external_ui (api_config api), strip_prefix (lit "/ui") p with
  | Some ui_dir, Some relative =>
      match safe_join ui_dir (trim_start_matches 47 relative) with
      | None => RText 403 (lit "forbidden")
      | Some q =>
          let file := if is_dir q then path_push q (lit "index.html") else q in
          match ui_read file with
          | Some data => RFile data (content_type file)
          | None => match ui_read (path_push ui_dir (lit "index.html")) with
                    | Some data => RFile data (lit "text/html; charset=utf-8")
                    | None => RText 404 (lit "not found")
                    end
          end
      end
  | _, _ => RText 404 (lit "not found")
  end.

(** ** Requests *)

Definition ws_streams : list str := [lit "/traffic"; lit "/logs"; lit "/connections"; lit "/memory"].

Definition same (s : api_state) (m : run api_reply) : run (api_reply * api_state) := r ← m; Ret (r, s).

Definition handle_endpoint (s : api_state) (e : endpoint) (p query : str) (b : bytes) : run (api_reply * api_state) :=
  match e with
  | EUiRoot => Ret (redirect_to_ui, s)
  | EVersion => Ret (json_response (JObj [(lit "premium", JBool false); (lit "version", JStr (lit "reflex " ++ pkg_version)); (lit "meta", JBool true)]), s)
  | EConfigs => Ret (get_configs s, s)
  | EPatchConfigs => Ret (patch_configs s b)
  | EPutConfigs | ECache | EProxyProvider => Ret (REmpty 204, s)
  | ETraffic => Ret (get_traffic_once s, s)
  | ELogs => Ret (RStream (lit "logs"), s)
  | ERules => Ret (get_rules, s)
  | EConnections => same s (get_connections s)
  | EDeleteConnections => Ret (delete_connections, s)
  | EProxies => same s (get_proxies s)
  | EProxyProviders => Ret (json_response (JObj [(lit "providers", JObj [])]), s)
  | ERuleProviders => same s (get_rule_providers s)
  | EScript => Ret (json_response (JObj [(lit "code", JStr [])]), s)
  | EProfile => Ret (json_response (JObj [(lit "payload", JStr [])]), s)
  | EDnsQuery => Ret (json_response (JObj [(lit "Answer", JArr [])]), s)
  | EMemory => Ret (get_memory_once, s)
  | EGroups => same s (get_groups s)
  | EGroupDelay n => get_group_delay s n query
  | EGroup n => same s (get_group s n)
  | EPutProxy n => put_proxy s n b
  | EDeleteConnection id => Ret (delete_connection s id)
  | EProxyDelay n => get_proxy_delay s n query
  | EProxy n => same s (get_proxy s n)
  | EUpdateRules n => name ← percent_decode n; update_rule_provider s name
  | EUi => Ret (serve_ui p, s)
  | ENotFound => Ret (RText 404 (lit "not found"), s)
  end.

Definition handle_request (s : api_state) (r : HttpRequest) : run (api_reply * api_state) :=
  if bool_decide (method r = lit "OPTIONS") then Ret (RPreflight, s)
  else
    let '(p, query) := split_query (path r) in
    if nonempty (secret (api_config api)) && negb (secret_ok (api_config api) r query) then
      Ret (RJson 401 (JObj [(lit "message", JStr (lit "Unauthorized"))]), s)
    else if is_websocket r && bool_decide (p ∈ ws_streams) then Ret (RStream p, s)
    else handle_endpoint s (route_request (method r) p) p query (body r).

(** [handle_connection]: nothing is answered to a request that cannot be read. *)
Definition handle_connection (s : api_state) (reads : list bytes) : run (option api_reply * api_state) :=
  req ← read_request reads;
  match req with
  | Err _ => Ret (None, s)
  | Ok r => x ← handle_request s r; Ret (Some x.1, x.2)
  end.
End Handlers.

(** ** The secret *)

Lemma strip_prefix_Some p s t : strip_prefix p s = Some t <-> s = p ++ t.
Proof.
  unfold strip_prefix. split.
  - destruct (starts_with p s) eqn:E; [|done]. intros [= <-]. revert s E. induction p as [|x p IH]; intros [|y s] E; cbn in E; try done.
    apply andb_true_iff in E as [E1 E2]. apply Z.eqb_eq in E1 as ->. cbn. f_equal. by apply IH.
  - intros ->. assert (starts_with p (p ++ t) = true) as ->; [|by rewrite drop_app_length].
    induction p as [|x p IH]; [by destruct t|]. cbn. by rewrite Z.eqb_refl.
Qed.

(** What a client has to send to be let in. *)
Definition presents_secret (cfg : ClashApiConfig) (r : HttpRequest) : Prop :=
  if is_websocket r then lit "token=" ++ secret cfg ∈ split_on 38 (split_query (path r)).2
  else header r (lit "authorization") = Some (lit "Bearer " ++ secret cfg).

Lemma secret_ok_spec cfg r : secret_ok cfg r (split_query (path r)).2 = true <-> presents_secret cfg r.
Proof.
  unfold secret_ok, presents_secret. destruct (is_websocket r).
  - rewrite existsb_exists. split.
    + intros (kv & Hin & H). destruct (strip_prefix _ kv) as [t|] eqn:E; [|done]. apply bool_decide_eq_true in H as ->.
      apply strip_prefix_Some in E as ->. by apply list_elem_of_In.
    + intros Hin. exists (lit "token=" ++ secret cfg). split; [by apply list_elem_of_In|].
      rewrite (proj2 (strip_prefix_Some _ _ (secret cfg))) by done. by apply bool_decide_eq_true_2.
  - destruct (header r _) as [v|]; [|done]. split.
    + destruct (strip_prefix _ v) as [t|] eqn:E; [|done]. intros H. apply bool_decide_eq_true in H as ->. by apply strip_prefix_Some in E as ->.
    + intros [= ->]. rewrite (proj2 (strip_prefix_Some _ _ (secret cfg))) by done. by apply bool_decide_eq_true_2.
Qed.

Section Secret.
Context {FST : FstLib} {RX : RegexLib} {IO : HostIO} {UL : UnicodeLib} {JL : JsonLib}.

(** C13. The secret guards the API: with a secret configured, a request that does not
    present it - as the bearer token, or for a WebSocket as a part of the query -
    changes nothing and is answered 401 (or the preflight answer to OPTIONS);
    one that does is handled by its method and path. *)
Theorem api_requires_secret (api : ClashApi) (now : Z) (closed : Z -> bool) (connect : str -> str -> Z -> Z -> probe_result)
    (version : str) (rss_kb : option Z) (is_dir : str -> bool) (ui_read : str -> option bytes) (s : api_state) (r : HttpRequest) :
  secret (api_config api) <> [] ->
  (~ presents_secret (api_config api) r ->
   handle_request api now closed connect version rss_kb is_dir ui_read s r =
   Ret (if bool_decide (method r = lit "OPTIONS") then RPreflight else RJson 401 (JObj [(lit "message", JStr (lit "Unauthorized"))]), s)) /\
  (presents_secret (api_config api) r -> method r <> lit "OPTIONS" -> is_websocket r = false ->
   handle_request api now closed connect version rss_kb is_dir ui_read s r =
   handle_endpoint api now closed connect version rss_kb is_dir ui_read s (route_request (method r) (split_query (path r)).1)
     (split_query (path r)).1 (split_query (path r)).2 (body r)).
Proof.
  intros Hs. pose proof (secret_ok_spec (api_config api) r) as Htok. unfold handle_request.
  assert (Hne : nonempty (secret (api_config api)) = true) by (by destruct (secret (api_config api))).
  destruct (split_query (path r)) as [p q] eqn:Eq. cbn [fst snd] in Htok. split.
  - intros Hn. case_bool_decide; [done|]. rewrite Hne. destruct (secret_ok _ r q); [by destruct Hn; apply Htok|done].
  - intros Hp Hm Hw. rewrite bool_decide_eq_false_2 by done. rewrite Hne. rewrite (proj2 Htok Hp). by rewrite Hw.
Qed.
End Secret.

(** ** Files stay under the interface's directory *)

Definition plain_part (w : str) : Prop := w <> [] /\ w <> lit "." /\ w <> lit ".." /\ (47 ∉ w).

Lemma join_components_spec cs out p : join_components out cs = Some p ->
  exists parts, p = fold_left path_push parts out /\ Forall (fun c => c = CurDir \/ exists w, c = Normal w) cs /\
    Forall (fun w => Normal w ∈ cs) parts.
Proof.
  revert out. induction cs as [|c cs IH]; intros out H; cbn [join_components] in H; [exists []; by injection H as <-|].
  destruct c as [| | |w]; try done.
  - destruct (IH _ H) as (parts & -> & Hc & Hp). exists parts. split; [done|]. split; [constructor; [by left|done]|].
    eapply Forall_impl; [exact Hp|]. intros w Hw. by right.
  - destruct (IH _ H) as (parts & -> & Hc & Hp). exists (w :: parts). split; [done|]. split; [constructor; [right; by exists w|done]|].
    constructor; [left|]. eapply Forall_impl; [exact Hp|]. intros w' Hw. by right.
Qed.

Lemma component_plain s w : Normal w ∈ components s -> plain_part w.
Proof.
  unfold components. intros H. apply elem_of_app in H as [H|H].
  - destruct s as [|x s]; [by apply elem_of_nil in H|]. repeat (case_match; try by apply elem_of_nil in H). by apply list_elem_of_singleton in H.
  - apply list_elem_of_In, in_flat_map in H as (x & Hx & Hw). apply list_elem_of_In in Hx.
    pose proof (split_on_pieces 47 s) as Hp. rewrite Forall_forall in Hp. specialize (Hp x Hx). unfold component_of in Hw.
    repeat (case_bool_decide; [cbn in Hw; naive_solver|]). destruct Hw as [[= <-]|[]]. by split_and!.
Qed.

(** The interface serves its directory only: whatever path is asked for, the file
    that is joined is the configured directory followed by parts none of which is
    empty, dot, dot-dot or contains a slash; a path with a dot-dot is refused. *)
Theorem safe_join_inside (root relative : str) :
  (forall p, safe_join root relative = Some p -> exists parts, p = fold_left path_push parts root /\ Forall plain_part parts) /\
  (lit ".." ∈ split_on 47 relative -> safe_join root relative = None).
Proof.
  split.
  - intros p H. destruct (join_components_spec _ _ _ H) as (parts & -> & _ & Hp). exists parts. split; [done|].
    eapply Forall_impl; [exact Hp|]. intros w. apply component_plain.
  - intros Hin. destruct (safe_join root relative) as [p|] eqn:E; [|done]. exfalso.
    destruct (join_components_spec _ _ _ E) as (parts & _ & Hc & _). rewrite Forall_forall in Hc.
    destruct (Hc ParentDir) as [?|[? ?]]; [|done|done]. unfold components. apply elem_of_app. right.
    apply list_elem_of_In, in_flat_map. exists (lit ".."). split; [by apply list_elem_of_In|by left].
Qed.

(** ** Selecting a node *)

Lemma not_in_encoded keep name c : c <> 37 -> (forall b, keep b = true -> 0 <= b < 128 /\ b <> 37 /\ b <> c) ->
  (forall d, 0 <= d < 16 -> hex_upper d <> c) -> bytes_ok name -> c ∉ percent_encode keep name.
Proof.
  intros Hc Hk Hh Hb Hin. unfold percent_encode in Hin. apply list_elem_of_In, in_flat_map in Hin as (b & Hb' & Hin).
  apply list_elem_of_In in Hb'. unfold bytes_ok in Hb. rewrite Forall_forall in Hb. specialize (Hb b Hb'). unfold is_byte in Hb.
  destruct (keep b) eqn:E.
  - destruct Hin as [<-|[]]. by destruct (Hk b E) as (_ & _ & ?).
  - destruct Hin as [?|[H|[H|[]]]]; [done| |]; revert H; apply Hh; [split; [apply Z.div_pos; lia|apply Z.div_lt_upper_bound; lia]|apply Z.mod_pos_bound; lia].
Qed.

Lemma split_query_plain p : 63 ∉ p -> split_query p = (p, []).
Proof.
  intros H. unfold split_query. assert (split_once 63 p = None) as ->; [|done]. induction p as [|x p IH]; [done|].
  apply not_elem_of_cons in H as [Hx Hp]. cbn [split_once]. by rewrite (proj2 (Z.eqb_neq x 63)), IH by done.
Qed.

(** The path of a name without a slash goes to the handler with that name. *)
Lemma route_put_proxy n : 47 ∉ n -> route_request (lit "PUT") (lit "/proxies/" ++ n) = EPutProxy n.
Proof.
  intros Hn. unfold route_request.
  assert (Hfind : List.find (fun e => bool_decide (e.1 = (lit "PUT", lit "/proxies/" ++ n))) fixed_endpoints = None).
  { assert (H : forall e, e ∈ fixed_endpoints -> e.1.1 = lit "PUT" -> e.1.2 = lit "/configs").
    { intros e He. unfold fixed_endpoints in He. rewrite !elem_of_cons in He. intros Hm.
      repeat (destruct He as [->|He]; [try (vm_compute in Hm; discriminate Hm); reflexivity|]). by apply elem_of_nil in He. }
    destruct (List.find _ fixed_endpoints) as [e|] eqn:E; [|done]. apply List.find_some in E as [He E]. apply list_elem_of_In in He.
    apply bool_decide_eq_true in E. specialize (H e He). rewrite E in H. specialize (H eq_refl). discriminate H. }
  rewrite Hfind. cbv zeta.
  assert (Htrim : trim_start_matches_str (lit "/proxies/") (lit "/proxies/" ++ n) = n).
  { unfold trim_start_matches_str. destruct (length (lit "/proxies/" ++ n)) as [|fuel] eqn:El; [by rewrite length_app in El|].
    cbn [trim_prefixes]. rewrite (proj2 (strip_prefix_Some (lit "/proxies/") (lit "/proxies/" ++ n) n)) by done.
    destruct fuel as [|fuel]; [done|]. cbn [trim_prefixes]. destruct n as [|x n]; [done|]. apply not_elem_of_cons in Hn as [Hx _].
    assert (strip_prefix (lit "/proxies/") (x :: n) = None) as ->; [|done].
    unfold strip_prefix. change (starts_with (lit "/proxies/") (x :: n)) with ((47 =? x) && starts_with (lit "proxies/") n).
    by rewrite (proj2 (Z.eqb_neq 47 x)). }
  rewrite Htrim. reflexivity.
Qed.

Section SelectRequest.
Context {FST : FstLib} {RX : RegexLib} {IO : HostIO} {UL : UnicodeLib} {JL : JsonLib}.

(** A dashboard can switch a selector: an admitted PUT to the encoded name of a
    selector, however the client encodes it, with a body that names one of its
    members answers 204, makes that member the current one, and changes no other
    outbound. *)
Theorem select_by_request (api : ClashApi) (now : Z) (closed : Z -> bool) (connect : str -> str -> Z -> Z -> probe_result)
    (version : str) (rss_kb : option Z) (is_dir : str -> bool) (ui_read : str -> option bytes) (s : api_state) (r : HttpRequest)
    (keep : Z -> bool) (name child : str) (v : json) (st : SelectorOutbound) :
  secret (api_config api) = [] \/ presents_secret (api_config api) r ->
  method r = lit "PUT" -> path r = lit "/proxies/" ++ percent_encode keep name -> is_websocket r = false ->
  from_slice (body r) = Ok v -> get_str v (lit "name") = Some child ->
  bytes_ok name -> utf8_valid name = true -> (forall b, keep b = true -> 0 <= b < 128 /\ b <> 37 /\ b <> 47 /\ b <> 63) ->
  outbound_mgr s !! name = Some (Selector st) -> child ∈ s_all st ->
  exists reg, handle_request api now closed connect version rss_kb is_dir ui_read s r = Ret (REmpty 204, with_registry s reg) /\
    (exists status, mgr_status reg name = Some status /\ st_now status = Some child) /\
    (forall t, t <> name -> reg !! t = outbound_mgr s !! t).
Proof.
  intros Hsec Hm Hp Hw Hv Hc Hb Hu Hk Hst Hin. set (enc := percent_encode keep name) in *.
  assert (H47 : 47 ∉ enc).
  { apply not_in_encoded; [done|intros b E; by destruct (Hk b E) as (? & ? & ? & ?)|intros d Hd; unfold hex_upper; destruct (d <? 10); lia|done]. }
  assert (H63 : 63 ∉ enc).
  { apply not_in_encoded; [done|intros b E; by destruct (Hk b E) as (? & ? & ? & ?)|intros d Hd; unfold hex_upper; destruct (Z.ltb_spec d 10); lia|done]. }
  assert (Hq : split_query (path r) = (lit "/proxies/" ++ enc, [])).
  { rewrite Hp. apply split_query_plain. rewrite elem_of_app. intros [H|H]; [|done]. revert H. apply (bool_decide_unpack _). vm_compute. exact I. }
  assert (Hadm : nonempty (secret (api_config api)) && negb (secret_ok (api_config api) r []) = false).
  { destruct Hsec as [->|Hpr]; [done|]. apply secret_ok_spec in Hpr. rewrite Hq in Hpr. cbn [snd] in Hpr. rewrite Hpr. apply andb_false_r. }
  unfold handle_request. rewrite Hm, Hq, Hadm, Hw. rewrite (bool_decide_eq_false_2 (lit "PUT" = lit "OPTIONS")) by done. cbn [andb].
  rewrite route_put_proxy by done. cbn [handle_endpoint]. unfold put_proxy. unfold enc, percent_decode.
  rewrite percent_loop_encoded; [|done|intros b E; by destruct (Hk b E) as (? & ? & ? & ?)]. rewrite bind_Ret, from_utf8_lossy_valid by done.
  rewrite bind_Ret, Hv, Hc. unfold select. rewrite Hst. unfold set_selected. rewrite (bool_decide_eq_true_2 (child ∈ s_all st)) by done. cbn [negb].
  assert (Hfin : forall st', s_selected st' = child -> s_all st' = s_all st -> exists reg, Ret (REmpty 204, with_registry s (<[name := Selector st']> (outbound_mgr s))) =
    Ret (REmpty 204, with_registry s reg) /\ (exists status, mgr_status reg name = Some status /\ st_now status = Some child) /\
    (forall t, t <> name -> reg !! t = outbound_mgr s !! t)).
  { intros st' Es Ea. eexists. split; [done|]. split; [|intros t Ht; by rewrite lookup_insert_ne].
    exists (selector_status st'). split; [unfold mgr_status; by rewrite lookup_insert_eq|].
    cbn. unfold selector_current. rewrite Es, Ea. by rewrite bool_decide_eq_true_2. }
  case_bool_decide as Hsel; [by apply Hfin|]. destruct (interrupt _ _ _) as [[sent dropped] g]. by apply Hfin.
Qed.
End SelectRequest.

(** ** The connections listed *)

(** A call on the tracker: a registration, the drop of a guard, a deletion through
    the API, or traffic. *)
Inductive tracker_call : Type :=
  | TRegister (now : Z) (info : ConnInfo) (rule : str * str)
  | TDrop (id : Z)
  | TDelete (id : Z)
  | TCount (id up down : Z).

Definition exec_tracker (t : ConnectionTracker) (c : tracker_call) : ConnectionTracker :=
  match c with
  | TRegister now info rule => (tracker_register t now info rule).2
  | TDrop id | TDelete id => tracker_remove t id
  | TCount id up down => count_live t id up down
  end.

Definition is_register (c : tracker_call) : Z := match c with TRegister _ _ _ => 1 | _ => 0 end.

Definition registrations (h : list tracker_call) : Z := fold_right (fun c n => is_register c + n) 0 h.

Definition conn_meta (id now : Z) (info : ConnInfo) (rule : str * str) : ConnMeta :=
  mkConnMeta id (ci_network info) (ci_host info) (show_ip (ip (ci_source info))) (sock_port (ci_source info))
    (ci_dest_port info) (ci_inbound info) (ci_outbound info) rule.1 rule.2 now.

(** Registered as number [id] in the history and closed neither by its guard nor
    through the API since. *)
Definition open_in (h : list tracker_call) (id : Z) (m : ConnMeta) : Prop :=
  exists h1 h2 now info rule, h = h1 ++ TRegister now info rule :: h2 /\ id = 1 + registrations h1 /\
    m = conn_meta id now info rule /\ (TDrop id ∉ h2) /\ (TDelete id ∉ h2).

Lemma registrations_app h1 h2 : registrations (h1 ++ h2) = registrations h1 + registrations h2.
Proof. unfold registrations. induction h1 as [|c h1 IH]; cbn; lia. Qed.

Lemma registrations_nonneg h : 0 <= registrations h.
Proof. unfold registrations. induction h as [|c h IH]; cbn; [lia|]. destruct c; cbn; lia. Qed.

Lemma open_in_bound h id m : open_in h id m -> 1 <= id <= registrations h.
Proof.
  intros (h1 & h2 & now & info & rule & -> & -> & _). rewrite registrations_app. pose proof (registrations_nonneg h1). pose proof (registrations_nonneg h2).
  cbn. fold (registrations h2). lia.
Qed.

(** An earlier registration stays open through a call that does not close it. *)
Lemma open_in_snoc h c id m : id <= registrations h ->
  open_in (h ++ [c]) id m <-> open_in h id m /\ c <> TDrop id /\ c <> TDelete id.
Proof.
  intros Hid. split.
  - intros (h1 & h2 & now & info & rule & E & Hi & Hm & H1 & H2). destruct h2 as [|x h2 _] using rev_ind.
    + change (h1 ++ [TRegister now info rule]) with (h1 ++ [TRegister now info rule]) in E. apply app_inj_tail in E as [-> ->]. lia.
    + rewrite app_comm_cons, app_assoc in E. apply app_inj_tail in E as [-> ->]. rewrite elem_of_app in H1, H2.
      split; [exists h1, h2, now, info, rule; split_and!; (done || tauto)|].
      split; intros ->; [apply H1|apply H2]; right; by left.
  - intros ((h1 & h2 & now & info & rule & -> & Hi & Hm & H1 & H2) & Hd & Hx). exists h1, (h2 ++ [c]), now, info, rule.
    rewrite app_comm_cons, app_assoc. split_and!; try done; rewrite elem_of_app, list_elem_of_singleton; intros [?|?]; naive_solver.
Qed.

(** The call that is no registration. *)
Lemma open_in_other h c id m : is_register c = 0 ->
  open_in (h ++ [c]) id m <-> open_in h id m /\ c <> TDrop id /\ c <> TDelete id.
Proof.
  intros Hc. split.
  - intros Ho. pose proof (open_in_bound _ _ _ Ho) as Hb. rewrite registrations_app in Hb. cbn in Hb. apply open_in_snoc in Ho; [done|lia].
  - intros (Ho & ? & ?). pose proof (open_in_bound _ _ _ Ho). apply open_in_snoc; [lia|done].
Qed.

(** The registration itself. *)
Lemma open_in_register h now info rule id m :
  open_in (h ++ [TRegister now info rule]) id m <->
  (id = 1 + registrations h /\ m = conn_meta id now info rule) \/ (id <> 1 + registrations h /\ open_in h id m).
Proof.
  split.
  - intros Ho. destruct (decide (id = 1 + registrations h)) as [Hid|Hid].
    + left. split; [done|]. destruct Ho as (h1 & h2 & now' & info' & rule' & E & Hi & -> & _ & _). destruct h2 as [|x h2 _] using rev_ind.
      * by apply app_inj_tail in E as [-> [= <- <- <-]].
      * rewrite app_comm_cons, app_assoc in E. apply app_inj_tail in E as [-> _]. rewrite registrations_app in Hid.
        cbn in Hid. fold (registrations h2) in Hid. pose proof (registrations_nonneg h2). lia.
    + right. split; [done|]. pose proof (open_in_bound _ _ _ Ho) as Hb. rewrite registrations_app in Hb. cbn in Hb.
      apply open_in_snoc in Ho; [tauto|lia].
  - intros [[-> ->]|[Hid Ho]].
    + exists h, [], now, info, rule. split_and!; try done; apply not_elem_of_nil.
    + pose proof (open_in_bound _ _ _ Ho). apply open_in_snoc; [lia|done].
Qed.

Lemma exec_next_id h : registrations h < 2 ^ 64 - 1 -> next_id (fold_left exec_tracker h tracker_new) = 1 + registrations h.
Proof.
  induction h as [|c h IH] using rev_ind; intros Hb; [done|]. rewrite registrations_app in Hb |- *. pose proof (registrations_nonneg h).
  rewrite fold_left_app. cbn [fold_left]. destruct c; cbn in Hb |- *; rewrite IH by lia; try lia.
  unfold as_u64, wrap. rewrite Z.mod_small; lia.
Qed.

(** The connection list: after any history of fewer than 2^64 - 1 registrations
    the entries are exactly the connections registered and neither dropped nor
    deleted since, each under its own number and with its own data, and the next
    registration gets a number never given before. *)
Theorem tracker_lists_open (h : list tracker_call) :
  registrations h < 2 ^ 64 - 1 ->
  (forall id m, tr_conns (fold_left exec_tracker h tracker_new) !! id = Some m <-> open_in h id m) /\
  (forall now info rule id m, (tracker_register (fold_left exec_tracker h tracker_new) now info rule).1 = id -> ~ open_in h id m).
Proof.
  intros Hb. split; [|intros now info rule id m <- Ho; apply open_in_bound in Ho; cbn in Ho; rewrite exec_next_id in Ho by done; lia].
  induction h as [|c h IH] using rev_ind; intros id m.
  - cbn. rewrite lookup_empty. split; [done|]. intros (h1 & ? & ? & ? & ? & E & _). by destruct h1.
  - rewrite registrations_app in Hb. pose proof (registrations_nonneg h). pose proof (exec_next_id h ltac:(destruct c; cbn in Hb; lia)) as Hn.
    specialize (IH ltac:(destruct c; cbn in Hb; lia)). rewrite fold_left_app. cbn [fold_left].
    destruct c as [now info rule|i|i|i up down]; cbn [exec_tracker tracker_register tracker_remove count_live snd tr_conns].
    + rewrite Hn, lookup_insert_Some, open_in_register, IH. naive_solver.
    + rewrite lookup_delete_Some, IH, open_in_other by done. naive_solver.
    + rewrite lookup_delete_Some, IH, open_in_other by done. naive_solver.
    + rewrite IH, open_in_other by done. naive_solver.
Qed.

(** ** Witnesses *)

#[local] Existing Instance ToyFst.
#[local] Existing Instance ToyRegex.
#[local] Existing Instance ToyHost.
#[local] Existing Instance ToyUnicode.

(** A reader that takes any body as the name. *)
Definition ToyJson : JsonLib := {| from_slice b := Ok (JObj [(lit "name", JStr b)]); to_vec _ := [] |}.

#[local] Existing Instance ToyJson.

Definition sample_api : ClashApi :=
  ClashApi_new (mkApiConfig (lit "rule") [] (lit "s3cret") None) sample_config [] Info_.

Definition sample_api_selector : SelectorOutbound :=
  Selector_new (mkSelCfg (lit "auto") [lit "cn"; lit "proxy"] None None false) None None false.

Definition sample_api_state : api_state :=
  mkApiState (lit "rule") ∅ tracker_new {[ lit "auto" := Selector sample_api_selector ]} (from_router_meta sample_config ∅) sample_world ∅.

Definition sample_put (hs : gmap (list Z) (list Z)) : HttpRequest :=
  mkRequest (lit "PUT") (lit "/proxies/" ++ percent_encode is_digit (lit "auto")) hs (lit "proxy").

Definition sample_auth : gmap (list Z) (list Z) := {[ lit "authorization" := lit "Bearer s3cret" ]}.

Lemma api_requires_secret_witness :
  let h := handle_request sample_api 0 (fun _ => false) (fun _ _ _ _ => ConnectTimedOut) (lit "1") None (fun _ => false) (fun _ => None) in
  secret (api_config sample_api) <> [] /\
  (~ presents_secret (api_config sample_api) (sample_put ∅) -> h sample_api_state (sample_put ∅)
    = Ret (if bool_decide (method (sample_put ∅) = lit "OPTIONS") then RPreflight else RJson 401 (JObj [(lit "message", JStr (lit "Unauthorized"))]), sample_api_state)) /\
  presents_secret (api_config sample_api) (sample_put sample_auth).
Proof.
  cbv zeta. split; [vm_compute; discriminate|]. split.
  - apply (api_requires_secret sample_api). vm_compute. discriminate.
  - vm_compute. reflexivity.
Defined.

Lemma safe_join_inside_demo : safe_join (lit "ui") (lit "js/app.js") = Some (lit "ui/js/app.js") /\ safe_join (lit "ui") (lit "../secret") = None.
Proof. split; vm_compute; reflexivity. Qed.

Lemma select_by_request_witness : exists reg,
  handle_request sample_api 0 (fun _ => false) (fun _ _ _ _ => ConnectTimedOut) (lit "1") None (fun _ => false) (fun _ => None)
    sample_api_state (sample_put sample_auth) = Ret (REmpty 204, with_registry sample_api_state reg) /\
  (exists status, mgr_status reg (lit "auto") = Some status /\ st_now status = Some (lit "proxy")) /\
  (forall t, t <> lit "auto" -> reg !! t = outbound_mgr sample_api_state !! t).
Proof.
  apply (select_by_request sample_api 0 _ _ _ _ _ _ sample_api_state (sample_put sample_auth) is_digit (lit "auto") (lit "proxy")
    (JObj [(lit "name", JStr (lit "proxy"))]) sample_api_selector).
  - right. vm_compute. reflexivity.
  - reflexivity.
  - reflexivity.
  - vm_compute. reflexivity.
  - reflexivity.
  - reflexivity.
  - apply (bool_decide_eq_true_1 (bytes_ok _)). vm_compute. reflexivity.
  - vm_compute. reflexivity.
  - intros b. unfold is_digit. lia.
  - apply lookup_singleton_eq.
  - right. left.
Defined.

Definition sample_info : ConnInfo := mkConnInfo (lit "tcp") (lit "a.cn") {| ip := V4 0; sock_port := 5 |} 443 (lit "in") (lit "cn").

Lemma tracker_lists_open_witness :
  let h := [TRegister 7 sample_info (lit "final", []); TRegister 8 sample_info (lit "final", []); TDrop 1] in
  (forall id m, tr_conns (fold_left exec_tracker h tracker_new) !! id = Some m <-> open_in h id m) /\
  (forall now info rule id m, (tracker_register (fold_left exec_tracker h tracker_new) now info rule).1 = id -> ~ open_in h id m).
Proof. cbv zeta. apply (tracker_lists_open [TRegister 7 sample_info (lit "final", []); TRegister 8 sample_info (lit "final", []); TDrop 1]). vm_compute. reflexivity. Defined.

Lemma safe_join_inside_witness :
  (forall p, safe_join (lit "ui") (lit "../x") = Some p -> exists parts, p = fold_left path_push parts (lit "ui") /\ Forall plain_part parts) /\
  (lit ".." ∈ split_on 47 (lit "../x") -> safe_join (lit "ui") (lit "../x") = None).
Proof. apply (safe_join_inside (lit "ui") (lit "../x")). Defined.

(** The block outbound reports the type Reject, so the GLOBAL group offers it. *)
Lemma global_offers_block :
  global_tags (mkApiState (lit "rule") ∅ tracker_new {[ lit "ads" := Leaf (OBlock (lit "ads")) ]} (from_router_meta sample_config ∅) sample_world ∅)
  = [lit "ads"].
Proof. vm_compute. reflexivity. Qed.
