(* ===== verification/Wire.v ===== *)
(** * Wire: handshakes over a byte stream, shared by the proxy protocols.

    An [async] handshake of the source alternates [read_exact], [write_all] and a
    [peek] on its socket; a [wire A] is that sequence of calls, each read with
    what follows for every answer.  [play] runs one against a peer whose bytes
    are all known and who then closes; [converse] runs the two ends of one
    connection against each other, each blocked while the bytes it waits for are
    not there.  A [write_all] succeeds. *)

From Stdlib Require Import FunctionalExtensionality.
From S2P Require Import Prelude RustStr Inbound.

Inductive WireError : Type :=
  | UnexpectedEof
  | BadVersion
  | NoAcceptableMethod
  | AuthFailed
  | CredentialsTooLong
  | BadCommand
  | BadAtyp
  | NotUtf8
  | Refused
  | DomainTooLong
  | HeaderTooLarge
  | MalformedRequest
  | NoHost
  | BadFraming
  | Unauthorized
  | UnknownProtocol
  | UnsupportedTarget
  | ResolveFailed
  | DecryptFailed
  | TokenMismatch
  | TaskPanicked
  | TimedOut.

#[export] Instance WireError_eq_dec : EqDecision WireError.
Proof. solve_decision. Defined.

Inductive wire (A : Type) : Type :=
  | WRet (a : A)
  | WFail (e : WireError)
  | WPeek (k : Z -> wire A)
  | WRead (n : nat) (k : bytes -> wire A)
  | WWrite (o : bytes) (k : wire A).
Arguments WRet {A} a.
Arguments WFail {A} e.
Arguments WPeek {A} k.
Arguments WRead {A} n k.
Arguments WWrite {A} o k.

Fixpoint wbind {A B} (m : wire A) (f : A -> wire B) : wire B :=
  match m with
  | WRet a => f a
  | WFail e => WFail e
  | WPeek k => WPeek (fun b => wbind (k b) f)
  | WRead n k => WRead n (fun s => wbind (k s) f)
  | WWrite o k => WWrite o (wbind k f)
  end.

Notation "'let*' x := m 'in' k" := (wbind m (fun x => k)) (at level 10, x name, m at level 100, k at level 200) : reflex_scope.
#[local] Open Scope reflex_scope.

Definition read_exact (n : nat) : wire bytes := WRead n (fun s => WRet s).
Definition write_all (o : bytes) : wire unit := WWrite o (WRet tt).

Lemma wbind_assoc {A B C} (m : wire A) (f : A -> wire B) (g : B -> wire C) : wbind (wbind m f) g = wbind m (fun a => wbind (f a) g).
Proof. induction m as [a|e|k IH|n k IH|o k IH]; cbn [wbind]; try done; f_equal; [..|exact IH]; apply functional_extensionality; exact IH. Qed.

Lemma wbind_ret_r {A} (m : wire A) : wbind m WRet = m.
Proof. induction m as [a|e|k IH|n k IH|o k IH]; cbn [wbind]; try done; f_equal; [..|exact IH]; apply functional_extensionality; exact IH. Qed.

(** [TcpStream::peek] into one byte; a closed stream leaves the byte zero. *)
Definition peek1 : wire Z := WPeek (fun b => WRet b).

(** [anyhow::ensure!] *)
Definition wensure (b : bool) (e : WireError) : wire unit := if b then WRet tt else WFail e.

Definition CRLF : bytes := [13; 10].

Definition byte_at (i : nat) (s : bytes) : Z := default 0 (s !! i).

Definition read_u8 : wire Z := let* s := read_exact 1 in WRet (byte_at 0 s).
Definition read_u16 : wire Z := let* s := read_exact 2 in WRet (from_be_bytes s).

(** [String::from_utf8(s)?] *)
Definition from_utf8 (s : bytes) : wire str := if utf8_valid s then WRet s else WFail NotUtf8.

(** ** One end against known bytes *)

(** The result with the bytes left unread, and what was written. *)
Fixpoint play {A} (m : wire A) (i : bytes) : result (A * bytes) WireError * bytes :=
  match m with
  | WRet a => (Ok (a, i), [])
  | WFail e => (Err e, [])
  | WPeek k => play (k (byte_at 0 i)) i
  | WRead n k => if (length i <? n)%nat then (Err UnexpectedEof, []) else play (k (take n i)) (drop n i)
  | WWrite o k => let '(r, o') := play k i in (r, o ++ o')
  end.

(** ** Two ends of one connection *)

(** What an end has come to: [None] while it waits for bytes that do not come. *)
Record outcome (A B : Type) : Type := mkOutcome {
  at_client : option (result A WireError);
  at_server : option (result B WireError);
  to_server : bytes;
  to_client : bytes
}.
Arguments mkOutcome {A B}.
Arguments at_client {A B}.
Arguments at_server {A B}.
Arguments to_server {A B}.
Arguments to_client {A B}.

(** Nothing moves any more: an end that failed has closed, so the other one's
    read past what is there fails too. *)
Definition stalled {A} (other_failed : bool) : option (result A WireError) :=
  if other_failed then Some (Err UnexpectedEof) else None.

Definition failed {A} (m : wire A) : bool := match m with WFail _ => true | _ => false end.

Definition settled {A} (m : wire A) (other_failed : bool) : option (result A WireError) :=
  match m with
  | WRet a => Some (Ok a)
  | WFail e => Some (Err e)
  | _ => stalled other_failed
  end.

(** The client moves while it can, then the server: with one connection and
    deterministic ends the order of moves does not change what each reads.  [b]
    holds the bytes on their way to the server, [a] those to the client. *)
Fixpoint converse {A B} (c : wire A) : wire B -> bytes -> bytes -> outcome A B :=
  fix serve (s : wire B) (b a : bytes) : outcome A B :=
    let wait :=
      match s with
      | WWrite o k => serve k b (a ++ o)
      | WRead n k => if (length b <? n)%nat then mkOutcome (settled c false) (settled s (failed c)) b a else serve (k (take n b)) (drop n b) a
      | WPeek k => if len b =? 0 then mkOutcome (settled c false) (settled s (failed c)) b a else serve (k (byte_at 0 b)) b a
      | _ => mkOutcome (settled c (failed s)) (settled s false) b a
      end in
    match c with
    | WWrite o k => converse k s (b ++ o) a
    | WRead n k => if (length a <? n)%nat then wait else converse (k (take n a)) s b (drop n a)
    | WPeek k => if len a =? 0 then wait else converse (k (byte_at 0 a)) s b a
    | _ => wait
    end.

(** Which end moves first does not matter: what each reads is a prefix of what the
    other has written. *)
Section Converse.
Context {A B : Type}.
Implicit Types (c : wire A) (s : wire B).

Lemma converse_cwrite o c s b a : converse (WWrite o c) s b a = converse c s (b ++ o) a.
Proof. by destruct s. Qed.

Lemma converse_cread n (k : bytes -> wire A) s b x a : length x = n -> converse (WRead n k) s b (x ++ a) = converse (k x) s b a.
Proof.
  intros <-. assert (Hl : (length (x ++ a) <? length x)%nat = false) by (apply Nat.ltb_ge; rewrite length_app; lia).
  destruct s; cbn [converse]; by rewrite Hl, take_app_length, drop_app_length.
Qed.

Lemma ltb_app_false (x y : bytes) n : (length x <? n)%nat = false ->
  (length (x ++ y) <? n)%nat = false /\ take n (x ++ y) = take n x /\ drop n (x ++ y) = drop n x ++ y.
Proof.
  intros Hn. apply Nat.ltb_ge in Hn. split_and!; [apply Nat.ltb_ge; rewrite length_app; lia|by apply take_app_le|by apply drop_app_le].
Qed.

Lemma converse_cread_ready n (k : bytes -> wire A) s b a : (length a <? n)%nat = false ->
  converse (WRead n k) s b a = converse (k (take n a)) s b (drop n a).
Proof. intros Hn. destruct s; cbn [converse]; by rewrite Hn. Qed.

Lemma converse_cpeek_ready (k : Z -> wire A) s b a : (len a =? 0) = false -> converse (WPeek k) s b a = converse (k (byte_at 0 a)) s b a.
Proof. intros Hn. destruct s; cbn [converse]; by rewrite Hn. Qed.

Lemma len_app_nonzero (x y : bytes) : (len x =? 0) = false -> (len (x ++ y) =? 0) = false /\ byte_at 0 (x ++ y) = byte_at 0 x.
Proof. destruct x as [|z x]; [done|]. intros _. split; [apply Z.eqb_neq; cbn [app]; len_solve|done]. Qed.

Lemma converse_swrite c o s b a : converse c (WWrite o s) b a = converse c s b (a ++ o).
Proof.
  revert b a. induction c as [v|e|k IH|n k IH|o' k IH]; intros b a; [done|done|..].
  - destruct (len a =? 0) eqn:Ha; [by cbn [converse]; rewrite Ha|]. destruct (len_app_nonzero a o Ha) as [Ha' Hb].
    by rewrite !converse_cpeek_ready, IH, Hb.
  - destruct (length a <? n)%nat eqn:Ha; [by cbn [converse]; rewrite Ha|]. destruct (ltb_app_false a o n Ha) as (Ha' & Ht & Hd).
    by rewrite !converse_cread_ready, IH, Ht, Hd.
  - by rewrite !converse_cwrite, IH.
Qed.

Lemma converse_sread c n (k : bytes -> wire B) b x a : length x = n -> converse c (WRead n k) (x ++ b) a = converse c (k x) b a.
Proof.
  intros <-. assert (Hl : forall b, (length (x ++ b) <? length x)%nat = false) by (intros b'; apply Nat.ltb_ge; rewrite length_app; lia).
  revert b a. induction c as [v|e|k' IH|n k' IH|o' k' IH]; intros b a.
  - cbn [converse]. by rewrite Hl, take_app_length, drop_app_length.
  - cbn [converse]. by rewrite Hl, take_app_length, drop_app_length.
  - destruct (len a =? 0) eqn:Ha; [cbn [converse]; by rewrite Ha, Hl, take_app_length, drop_app_length|]. by rewrite !converse_cpeek_ready, IH.
  - destruct (length a <? n)%nat eqn:Ha; [cbn [converse]; by rewrite Ha, Hl, take_app_length, drop_app_length|]. by rewrite !converse_cread_ready, IH.
  - by rewrite !converse_cwrite, <-app_assoc, IH.
Qed.

Lemma converse_speek c (k : Z -> wire B) x b a : converse c (WPeek k) (x :: b) a = converse c (k x) (x :: b) a.
Proof.
  assert (Hl : forall b, (len (x :: b) =? 0) = false) by (intros b'; apply Z.eqb_neq; len_solve).
  revert b a. induction c as [v|e|k' IH|n k' IH|o' k' IH]; intros b a.
  - cbn [converse]. by rewrite Hl.
  - cbn [converse]. by rewrite Hl.
  - destruct (len a =? 0) eqn:Ha; [cbn [converse]; by rewrite Ha, Hl|]. by rewrite !converse_cpeek_ready, IH.
  - destruct (length a <? n)%nat eqn:Ha; [cbn [converse]; by rewrite Ha, Hl|]. by rewrite !converse_cread_ready, IH.
  - rewrite !converse_cwrite. cbn [app]. apply IH.
Qed.

Lemma converse_done (v : A) (w : B) b a : converse (WRet v) (WRet w) b a = mkOutcome (Some (Ok v)) (Some (Ok w)) b a.
Proof. done. Qed.
End Converse.

(** ** Running a handshake on known bytes *)

(** [m] consumes exactly [i], whatever follows, writes [o] and returns [a]. *)
Definition plays {A} (m : wire A) (i : bytes) (a : A) (o : bytes) : Prop := forall rest, play m (i ++ rest) = (Ok (a, rest), o).

Lemma plays_ret {A} (a : A) : plays (WRet a) [] a [].
Proof. by intros rest. Qed.

Lemma play_bind {A B} (m : wire A) (f : A -> wire B) i : play (wbind m f) i =
  match play m i with
  | (Ok (a, r), o) => let '(x, o') := play (f a) r in (x, o ++ o')
  | (Err e, o) => (Err e, o)
  end.
Proof.
  revert i. induction m as [a|e|k IH|n k IH|o k IH]; intros i; cbn [wbind play]; try done.
  - by destruct (play (f a) i).
  - case_if; [done|apply IH].
  - rewrite IH. destruct (play k i) as [[[a r]|e] o1]; [|done]. destruct (play (f a) r) as [x o']. by rewrite app_assoc.
Qed.

Lemma plays_bind {A B} (m : wire A) (f : A -> wire B) i1 i2 a b o1 o2 :
  plays m i1 a o1 -> plays (f a) i2 b o2 -> plays (wbind m f) (i1 ++ i2) b (o1 ++ o2).
Proof. intros Hm Hf rest. rewrite play_bind, <-app_assoc, Hm, Hf. done. Qed.

(** The same for a part that writes nothing, or reads nothing. *)
Lemma plays_read {A B} (m : wire A) (f : A -> wire B) i1 i2 a b o : plays m i1 a [] -> plays (f a) i2 b o -> plays (wbind m f) (i1 ++ i2) b o.
Proof. intros Hm Hf. exact (plays_bind m f i1 i2 a b [] o Hm Hf). Qed.

Lemma plays_pure {A B} (m : wire A) (f : A -> wire B) i a b o : plays m [] a [] -> plays (f a) i b o -> plays (wbind m f) i b o.
Proof. intros Hm Hf. exact (plays_bind m f [] i a b [] o Hm Hf). Qed.

Lemma plays_last {A B} (m : wire A) (f : A -> wire B) i a b o : plays m i a [] -> plays (f a) [] b o -> plays (wbind m f) i b o.
Proof. intros Hm Hf. rewrite <-(app_nil_r i). by eapply plays_read. Qed.

Lemma plays_write o {A} (b : A) : plays (wbind (write_all o) (fun _ => WRet b)) [] b o.
Proof. intros rest. cbn. by rewrite app_nil_r. Qed.

Lemma plays_out {A} o (f : unit -> wire A) i a o' : plays (f tt) i a o' -> plays (wbind (write_all o) f) i a (o ++ o').
Proof. intros Hf rest. cbn [write_all wbind play]. by rewrite Hf. Qed.

Lemma plays_ensure b e : b = true -> plays (wensure b e) [] tt [].
Proof. intros ->. apply plays_ret. Qed.

Lemma plays_exact n s : length s = n -> plays (read_exact n) s s [].
Proof.
  intros <- rest. cbn [read_exact play]. rewrite (proj2 (Nat.ltb_ge _ _)) by (rewrite length_app; lia).
  by rewrite take_app_length, drop_app_length.
Qed.

Lemma plays_u8 b : plays read_u8 [b] b [].
Proof. by intros rest. Qed.

Lemma plays_u16 n : in_width 16 n -> plays read_u16 (to_be_bytes 2 n) n [].
Proof.
  intros Hn. unfold read_u16. rewrite <-(app_nil_r (to_be_bytes 2 n)). eapply plays_read; [by apply plays_exact, length_to_be_bytes|].
  rewrite from_to_be_bytes_id by (unfold in_width in Hn; cbn; lia). apply plays_ret.
Qed.

Lemma plays_utf8 s : utf8_valid s = true -> plays (from_utf8 s) [] s [].
Proof. intros Hs. unfold from_utf8. rewrite Hs. apply plays_ret. Qed.

(** A first part that only reads. *)
Lemma play_pass {A B} (m : wire A) (f : A -> wire B) i a rest : plays m i a [] -> play (wbind m f) (i ++ rest) = play (f a) rest.
Proof. intros Hm. rewrite play_bind, Hm. by destruct (play (f a) rest). Qed.

Lemma play_check {B} c e (f : unit -> wire B) i : c = true -> play (wbind (wensure c e) f) i = play (f tt) i.
Proof. by intros ->. Qed.

(** ** What a handshake that ended well has read *)

Lemma play_bind_Ok {A B} (m : wire A) (f : A -> wire B) i b r o : play (wbind m f) i = (Ok (b, r), o) ->
  exists a r1 o1 o2, play m i = (Ok (a, r1), o1) /\ play (f a) r1 = (Ok (b, r), o2) /\ o = o1 ++ o2.
Proof.
  rewrite play_bind. destruct (play m i) as [[[a r1]|e] o1] eqn:E; [|done]. destruct (play (f a) r1) as [x o2] eqn:E2.
  intros [= -> <-]. by exists a, r1, o1, o2.
Qed.

Lemma play_exact_Ok n i s r o : play (read_exact n) i = (Ok (s, r), o) -> i = s ++ r /\ length s = n /\ o = [].
Proof.
  cbn [read_exact play]. destruct (length i <? n)%nat eqn:E; [done|]. apply Nat.ltb_ge in E. intros [= <- <- <-].
  rewrite take_drop, length_take. split_and!; [done|lia|done].
Qed.

Lemma play_u8_Ok i b r o : play read_u8 i = (Ok (b, r), o) -> i = b :: r /\ o = [].
Proof. destruct i as [|x i]; [done|]. cbn. by intros [= <- <- <-]. Qed.

Lemma play_ensure_Ok c e i x r o : play (wensure c e) i = (Ok (x, r), o) -> c = true /\ r = i /\ o = [].
Proof. destruct c; [|done]. by intros [= <- <- <-]. Qed.

Lemma play_write_Ok w i x r o : play (write_all w) i = (Ok (x, r), o) -> r = i /\ o = w.
Proof. cbn. rewrite app_nil_r. by intros [= <- <- <-]. Qed.

(** One step of such a run. *)
Ltac play_step H :=
  lazymatch type of H with
  | play (wbind _ _) _ = _ =>
      let a := fresh "a" in let r := fresh "r" in let o1 := fresh "o" in let o2 := fresh "o" in let H1 := fresh "P" in
      apply play_bind_Ok in H as (a & r & o1 & o2 & H1 & H & ->);
      lazymatch type of H1 with
      | play read_u8 _ = _ => apply play_u8_Ok in H1 as [-> ->]
      | play (read_exact _) _ = _ => let L := fresh "L" in apply play_exact_Ok in H1 as (-> & L & ->)
      | play (wensure _ _) _ = _ => let C := fresh "C" in apply play_ensure_Ok in H1 as (C & -> & ->)
      | play (write_all _) _ = _ => apply play_write_Ok in H1 as (-> & ->)
      | _ => idtac
      end
  end.

(** No [peek] in it: what it does depends on the bytes it consumes alone. *)
Fixpoint peekless {A} (m : wire A) : Prop :=
  match m with
  | WPeek _ => False
  | WRead _ k => forall s, peekless (k s)
  | WWrite _ k => peekless k
  | _ => True
  end.

Lemma peekless_bind {A B} (m : wire A) (f : A -> wire B) : peekless m -> (forall a, peekless (f a)) -> peekless (wbind m f).
Proof. intros Hm Hf. induction m as [a|e|k IH|n k IH|o k IH]; cbn [wbind peekless] in *; auto. Qed.

Lemma peekless_ensure b e : peekless (wensure b e).
Proof. by destruct b. Qed.

Lemma peekless_utf8 s : peekless (from_utf8 s).
Proof. unfold from_utf8. by destruct (utf8_valid s). Qed.

(** A handshake without [peek], by its structure. *)
Ltac peekless :=
  repeat first [done | apply peekless_ensure | apply peekless_utf8 | apply peekless_bind; [|intros] | case_if | case_match].

(** A part of the server's handshake whose input is there runs to its end. *)
Lemma converse_plays {A B C} (m : wire B) (f : B -> wire C) i v o (c : wire A) b a : peekless m -> plays m i v o ->
  converse c (wbind m f) (i ++ b) a = converse c (f v) b (a ++ o).
Proof.
  intros Hp Hm. specialize (Hm b). revert Hm Hp. generalize (i ++ b) as q. clear i. revert a o.
  induction m as [w|e|k IH|n k IH|o' k IH]; intros a o q Hm Hp; cbn [wbind play peekless] in *.
  - injection Hm as -> -> <-. by rewrite app_nil_r.
  - done.
  - done.
  - destruct (length q <? n)%nat eqn:Hn; [done|]. apply Nat.ltb_ge in Hn.
    rewrite <-(take_drop n q) at 1. rewrite converse_sread by (rewrite length_take; lia). by apply IH.
  - destruct (play k q) as [r o2] eqn:Ek. injection Hm as -> <-. rewrite converse_swrite, app_assoc. by apply IH.
Qed.

(** The same of the client's. *)
Lemma converse_cplays {A B C} (m : wire B) (f : B -> wire C) i v o (s : wire A) b a : peekless m -> plays m i v o ->
  converse (wbind m f) s b (i ++ a) = converse (f v) s (b ++ o) a.
Proof.
  intros Hp Hm. specialize (Hm a). revert Hm Hp. generalize (i ++ a) as q. clear i. revert b o.
  induction m as [w|e|k IH|n k IH|o' k IH]; intros b o q Hm Hp; cbn [wbind play peekless] in *.
  - injection Hm as -> -> <-. by rewrite app_nil_r.
  - done.
  - done.
  - destruct (length q <? n)%nat eqn:Hn; [done|]. rewrite converse_cread_ready by done. by apply IH.
  - destruct (play k q) as [r o2] eqn:Ek. injection Hm as -> <-. rewrite converse_cwrite, app_assoc. by apply IH.
Qed.

(** When nothing else is on its way. *)
Lemma converse_plays_all {A B C} (m : wire B) (f : B -> wire C) i v o (c : wire A) : peekless m -> plays m i v o ->
  converse c (wbind m f) i [] = converse c (f v) [] o.
Proof. intros Hp Hm. rewrite <-(app_nil_r i). by rewrite (converse_plays m f i v o). Qed.

Lemma converse_cplays_all {A B C} (m : wire B) (f : B -> wire C) i v (s : wire A) b : peekless m -> plays m i v [] ->
  converse (wbind m f) s b i = converse (f v) s b [].
Proof. intros Hp Hm. rewrite <-(app_nil_r i). by rewrite (converse_cplays m f i v []), app_nil_r. Qed.

(** A whole end. *)
Lemma converse_server {A B} (m : wire B) i v o (c : wire A) : peekless m -> plays m i v o -> converse c m i [] = converse c (WRet v) [] o.
Proof. intros Hp Hm. rewrite <-(wbind_ret_r m) at 1. by apply converse_plays_all. Qed.

(** ** Targets a protocol can carry *)

Definition ip_ok (a : IpAddr) : Prop := match a with V4 v => in_width 32 v | V6 v => in_width 128 v end.

(** A domain that fits one length byte, or an address of its width, with a port. *)
Definition target_ok (t : Target) : Prop :=
  match t with
  | TDomain d p => len d <= 255 /\ utf8_valid d = true /\ in_width 16 p
  | TSocket a => ip_ok (ip a) /\ in_width 16 (sock_port a)
  end.

#[export] Instance ip_ok_dec a : Decision (ip_ok a).
Proof. destruct a; apply _. Defined.

#[export] Instance target_ok_dec t : Decision (target_ok t).
Proof. destruct t; apply _. Defined.

(** [ip.octets()] and [Ipv4Addr::from], [Ipv6Addr::from]. *)
Definition octets (a : IpAddr) : bytes := match a with V4 v => to_be_bytes 4 v | V6 v => to_be_bytes 16 v end.
Definition ipv4_of (s : bytes) : IpAddr := V4 (from_be_bytes s).
Definition ipv6_of (s : bytes) : IpAddr := V6 (from_be_bytes s).

Lemma ipv4_of_octets v : in_width 32 v -> ipv4_of (octets (V4 v)) = V4 v.
Proof. unfold in_width, ipv4_of. intros H. cbn [octets]. f_equal. apply from_to_be_bytes_id. cbn. lia. Qed.

Lemma ipv6_of_octets v : in_width 128 v -> ipv6_of (octets (V6 v)) = V6 v.
Proof. unfold in_width, ipv6_of. intros H. cbn [octets]. f_equal. apply from_to_be_bytes_id. cbn. lia. Qed.

(** ** Addresses on the wire

    [atyp], the address and the port; the protocols differ in the codes of the
    three kinds.  A length goes into its byte with [as u8]. *)
Record atyps : Type := mkAtyps { c_v4 : Z; c_v6 : Z; c_domain : Z }.

Definition put_addr (c : atyps) (t : Target) : bytes :=
  match t with
  | TDomain host port => [c_domain c; as_u8 (len host)] ++ host ++ to_be_bytes 2 port
  | TSocket a =>
      match ip a with
      | V4 v => [c_v4 c] ++ octets (V4 v) ++ to_be_bytes 2 (sock_port a)
      | V6 v => [c_v6 c] ++ octets (V6 v) ++ to_be_bytes 2 (sock_port a)
      end
  end.

(** The same address read from a datagram, from its kind at [cur] on. *)
Definition get_addr (c : atyps) (buf : bytes) (cur : Z) : run (result (Target * Z) WireError) :=
  atyp ← idx buf cur;
  let cur := cur + 1 in
  if atyp =? c_v4 c then
    if len buf <? cur + 6 then Ret (Err UnexpectedEof)
    else
      a ← slice buf cur (cur + 4);
      p ← slice buf (cur + 4) (cur + 6);
      Ret (Ok (TSocket {| ip := ipv4_of a; sock_port := from_be_bytes p |}, cur + 6))
  else if atyp =? c_v6 c then
    if len buf <? cur + 18 then Ret (Err UnexpectedEof)
    else
      a ← slice buf cur (cur + 16);
      p ← slice buf (cur + 16) (cur + 18);
      Ret (Ok (TSocket {| ip := ipv6_of a; sock_port := from_be_bytes p |}, cur + 18))
  else if atyp =? c_domain c then
    if len buf <=? cur then Ret (Err UnexpectedEof)
    else
      dlen ← idx buf cur;
      let cur := cur + 1 in
      if len buf <? cur + dlen + 2 then Ret (Err UnexpectedEof)
      else
        d ← slice buf cur (cur + dlen);
        if negb (utf8_valid d) then Ret (Err NotUtf8)
        else
          p ← slice buf (cur + dlen) (cur + dlen + 2);
          Ret (Ok (TDomain d (from_be_bytes p), cur + dlen + 2))
  else Ret (Err BadAtyp).

(** The codes of the three kinds are distinct. *)
Definition atyps_ok (c : atyps) : Prop := c_v4 c <> c_v6 c /\ c_v4 c <> c_domain c /\ c_v6 c <> c_domain c.

Lemma as_u8_small n : 0 <= n <= 255 -> as_u8 n = n.
Proof. intros. unfold as_u8, wrap. apply Z.mod_small. lia. Qed.

Lemma len_addr_octets a : len (octets a) = match a with V4 _ => 4 | V6 _ => 16 end.
Proof. destruct a; cbn [octets]; apply len_to_be_bytes. Qed.

Lemma port_back p : in_width 16 p -> from_be_bytes (to_be_bytes 2 p) = p.
Proof. unfold in_width. intros H. apply from_to_be_bytes_id. cbn. lia. Qed.

Lemma slice_seg {A} (l l1 s l2 : list A) i j : l = l1 ++ s ++ l2 -> i = len l1 -> j = i + len s -> slice l i j = Ret s.
Proof. intros -> ? ?. by apply slice_app_mid. Qed.

Lemma slice_tail {A} (l1 l2 : list A) i : i = len l1 -> slice (l1 ++ l2) i (len (l1 ++ l2)) = Ret l2.
Proof. intros ->. apply (slice_seg _ l1 l2 []); [by rewrite app_nil_r|done|by rewrite len_app]. Qed.

Lemma idx_seg {A} (l l1 : list A) x l2 i : l = l1 ++ x :: l2 -> i = len l1 -> idx l i = Ret x.
Proof. intros -> ?. by apply idx_mid. Qed.

(** An address of fixed width [w] after its code. *)
Lemma addr_segments (c : Z) (pre oct pb data : bytes) w w' : len oct = w -> len pb = 2 -> w' = w + 2 ->
  let buf := pre ++ (c :: oct ++ pb) ++ data in
  let cur := len pre + 1 in
  idx buf (len pre) = Ret c /\ (len buf <? cur + w') = false /\ slice buf cur (cur + w) = Ret oct /\
  slice buf (cur + w) (cur + w') = Ret pb.
Proof.
  intros Hw Hp -> buf cur. subst buf cur. split_and!.
  - apply (idx_seg _ pre c (oct ++ pb ++ data)); [app_eq|done].
  - apply Z.ltb_ge. len_solve.
  - apply (slice_seg _ (pre ++ [c]) oct (pb ++ data)); [app_eq|len_solve..].
  - apply (slice_seg _ (pre ++ c :: oct) pb data); [app_eq|len_solve..].
Qed.

Lemma get_put_addr c t pre data : atyps_ok c -> target_ok t ->
  get_addr c (pre ++ put_addr c t ++ data) (len pre) = Ret (Ok (t, len pre + len (put_addr c t))).
Proof.
  intros (C1 & C2 & C3) Ht. unfold get_addr.
  destruct t as [d p|[[v|v] p]]; cbn [put_addr target_ok ip ip_ok sock_port] in *.
  - destruct Ht as (Hd & Hu & Hp). rewrite as_u8_small by len_solve.
    set (buf := pre ++ _).
    assert (idx buf (len pre) = Ret (c_domain c)) as -> by (by apply (idx_seg _ pre _ (len d :: d ++ to_be_bytes 2 p ++ data)); [unfold buf; app_eq|]).
    rewrite bind_Ret, (proj2 (Z.eqb_neq _ _)), (proj2 (Z.eqb_neq _ _)), Z.eqb_refl by congruence.
    assert (Hl : len buf = len pre + 2 + len d + 2 + len data) by (unfold buf; len_solve). rewrite (proj2 (Z.leb_gt _ _)) by len_solve.
    assert (idx buf (len pre + 1) = Ret (len d)) as -> by (apply (idx_seg _ (pre ++ [c_domain c]) _ (d ++ to_be_bytes 2 p ++ data)); [unfold buf; app_eq|len_solve]).
    rewrite bind_Ret, (proj2 (Z.ltb_ge _ _)) by len_solve.
    assert (slice buf (len pre + 1 + 1) (len pre + 1 + 1 + len d) = Ret d) as ->
      by (apply (slice_seg _ (pre ++ [c_domain c; len d]) d (to_be_bytes 2 p ++ data)); [unfold buf; app_eq|len_solve..]).
    rewrite bind_Ret, Hu. cbn [negb].
    assert (slice buf (len pre + 1 + 1 + len d) (len pre + 1 + 1 + len d + 2) = Ret (to_be_bytes 2 p)) as ->
      by (apply (slice_seg _ (pre ++ [c_domain c; len d] ++ d) (to_be_bytes 2 p) data); [unfold buf; app_eq|len_solve..]).
    rewrite bind_Ret, port_back by done. do 3 f_equal. len_solve.
  - destruct Ht as [Hv Hp]. destruct (addr_segments (c_v4 c) pre (octets (V4 v)) (to_be_bytes 2 p) data 4 6) as (E1 & E2 & E3 & E4);
      [apply len_addr_octets|apply len_to_be_bytes|done|]. cbn [app] in *. rewrite E1, bind_Ret, Z.eqb_refl, E2, E3, bind_Ret, E4, bind_Ret.
    rewrite ipv4_of_octets, port_back by done. do 3 f_equal. rewrite len_cons, len_app, len_addr_octets, len_to_be_bytes. lia.
  - destruct Ht as [Hv Hp]. destruct (addr_segments (c_v6 c) pre (octets (V6 v)) (to_be_bytes 2 p) data 16 18) as (E1 & E2 & E3 & E4);
      [apply len_addr_octets|apply len_to_be_bytes|done|]. cbn [app] in *. rewrite E1, bind_Ret, (proj2 (Z.eqb_neq _ _)), Z.eqb_refl, E2, E3, bind_Ret, E4, bind_Ret by congruence.
    rewrite ipv6_of_octets, port_back by done. do 3 f_equal. rewrite len_cons, len_app, len_addr_octets, len_to_be_bytes. lia.
Qed.

(** Reading an address returns, and stays within the datagram. *)
Lemma get_addr_returns c buf cur : 0 <= cur < len buf -> bytes_ok buf ->
  exists r, get_addr c buf cur = Ret r /\ forall t n, r = Ok (t, n) -> cur < n <= len buf.
Proof.
  intros Hc Hb. unfold get_addr. destruct (idx_inrange buf cur Hc) as (x & _ & ->). rewrite bind_Ret.
  repeat case_if; reflect_bools; try (eexists; split; [done|by intros]).
  - edestruct (slice_returns buf (cur + 1) (cur + 1 + 4)) as [a ->]; [lia..|]. rewrite bind_Ret.
    edestruct (slice_returns buf (cur + 1 + 4) (cur + 1 + 6)) as [p ->]; [lia..|]. eexists. split; [done|]. intros t n [= <- <-]. lia.
  - edestruct (slice_returns buf (cur + 1) (cur + 1 + 16)) as [a ->]; [lia..|]. rewrite bind_Ret.
    edestruct (slice_returns buf (cur + 1 + 16) (cur + 1 + 18)) as [p ->]; [lia..|]. eexists. split; [done|]. intros t n [= <- <-]. lia.
  - destruct (idx_inrange buf (cur + 1)) as (dl & _ & Ed); [lia|]. pose proof (idx_byte _ _ _ Hb Ed) as Hd. unfold is_byte in Hd. rewrite Ed, bind_Ret.
    case_if; reflect_bools; [eexists; split; [done|by intros]|].
    edestruct (slice_returns buf (cur + 1 + 1) (cur + 1 + 1 + dl)) as [d ->]; [lia..|]. rewrite bind_Ret.
    case_if; [eexists; split; [done|by intros]|].
    edestruct (slice_returns buf (cur + 1 + 1 + dl) (cur + 1 + 1 + dl + 2)) as [p ->]; [lia..|]. eexists. split; [done|]. intros t n [= <- <-]. lia.
Qed.

(** The address read from a stream, after its kind. *)
Definition read_addr (c : atyps) (atyp : Z) : wire Target :=
  if atyp =? c_v4 c then
    let* a := read_exact 4 in let* port := read_u16 in WRet (TSocket {| ip := ipv4_of a; sock_port := port |})
  else if atyp =? c_v6 c then
    let* a := read_exact 16 in let* port := read_u16 in WRet (TSocket {| ip := ipv6_of a; sock_port := port |})
  else if atyp =? c_domain c then
    let* n := read_u8 in
    let* d := read_exact (Z.to_nat n) in
    let* port := read_u16 in
    let* domain := from_utf8 d in
    WRet (TDomain domain port)
  else WFail BadAtyp.

Definition addr_code (c : atyps) (t : Target) : Z :=
  match t with
  | TDomain _ _ => c_domain c
  | TSocket a => match ip a with V4 _ => c_v4 c | V6 _ => c_v6 c end
  end.

Lemma put_addr_cons c t : put_addr c t = addr_code c t :: drop 1 (put_addr c t).
Proof. destruct t as [d p|[[v|v] p]]; done. Qed.

Lemma read_addr_peekless c atyp : peekless (read_addr c atyp).
Proof.
  unfold read_addr. peekless.
Qed.

Lemma read_addr_plays c t : atyps_ok c -> target_ok t -> plays (read_addr c (addr_code c t)) (drop 1 (put_addr c t)) t [].
Proof.
  intros (C1 & C2 & C3) Ht. unfold read_addr.
  destruct t as [d p|[[v|v] p]]; cbn [put_addr addr_code target_ok ip ip_ok sock_port app drop] in *.
  - destruct Ht as (Hd & Hu & Hp). rewrite (proj2 (Z.eqb_neq _ _)), (proj2 (Z.eqb_neq _ _)), Z.eqb_refl by congruence.
    rewrite as_u8_small by len_solve. change (len d :: d ++ to_be_bytes 2 p) with ([len d] ++ d ++ to_be_bytes 2 p).
    eapply plays_read; [apply plays_u8|]. eapply plays_read; [apply plays_exact; unfold len; lia|].
    rewrite <-(app_nil_r (to_be_bytes 2 p)). eapply plays_read; [by apply plays_u16|].
    eapply plays_pure; [by apply plays_utf8|]. apply plays_ret.
  - destruct Ht as [Hv Hp]. rewrite Z.eqb_refl. eapply plays_read; [apply plays_exact, length_to_be_bytes|].
    rewrite <-(app_nil_r (to_be_bytes 2 p)). eapply plays_read; [by apply plays_u16|]. rewrite ipv4_of_octets by done. apply plays_ret.
  - destruct Ht as [Hv Hp]. rewrite (proj2 (Z.eqb_neq _ _)), Z.eqb_refl by congruence. eapply plays_read; [apply plays_exact, length_to_be_bytes|].
    rewrite <-(app_nil_r (to_be_bytes 2 p)). eapply plays_read; [by apply plays_u16|]. rewrite ipv6_of_octets by done. apply plays_ret.
Qed.
