(* ===== verification/Socks.v ===== *)
(** * Socks: the SOCKS5 and HTTP inbound of [src/inbound/mixed.rs] and the SOCKS
    outbound of [src/outbound/socks.rs].

    The two ends of one protocol: [Mixed] is the server that reads a target,
    [Client] the handshakes of the outbound.  Looking a name up is a parameter. *)

From S2P Require Import Prelude RustStr Extern Format Trie IpMatch Compiler Loader Matcher MatchSafe CacheFile Inbound QuicCrypto Sniff Router DnsWire DnsTopo FakeIp DnsCache DnsResolver Config RouterSpec Wire.

#[local] Open Scope reflex_scope.

(** [ATYP_IPV4], [ATYP_IPV6], [ATYP_DOMAIN] of both files. *)
Definition SOCKS_ATYP : atyps := mkAtyps 1 4 3.

(** ** The inbound *)

(** What [handle_conn] reads of [MixedInboundConfig]; [udp] is [network.udp()]. *)
Record MixedInboundConfig : Type := mkMixed { username : option str; password : option str; udp : bool }.

(** What a connection asks for: a stream to a target, or a UDP association on the
    socket that was opened for it. *)
Inductive Request : Type :=
  | Connect (t : Target)
  | UdpAssociate.

Definition CMD_CONNECT : Z := 1.
Definition CMD_UDP_ASSOCIATE : Z := 3.
Definition REP_SUCCESS : Z := 0.
Definition REP_CMD_NOT_SUPPORTED : Z := 7.

Definition select_method (cfg : MixedInboundConfig) (methods : bytes) : option Z :=
  let need_auth := bool_decide (is_Some (username cfg)) in
  if need_auth && bool_decide (2 ∈ methods) then Some 2 else if bool_decide (0 ∈ methods) then Some 0 else None.

(** [std::str::from_utf8(s).unwrap_or("")] *)
Definition utf8_or_empty (s : bytes) : str := if utf8_valid s then s else [].

Definition credentials_ok (cfg : MixedInboundConfig) (uname passwd : bytes) : bool :=
  bool_decide (username cfg = Some (utf8_or_empty uname)) && bool_decide (password cfg = Some (utf8_or_empty passwd)).

Definition authenticate (cfg : MixedInboundConfig) : wire unit :=
  let* _ := read_u8 in
  let* ulen := read_u8 in
  let* uname := read_exact (Z.to_nat ulen) in
  let* plen := read_u8 in
  let* passwd := read_exact (Z.to_nat plen) in
  if credentials_ok cfg uname passwd then write_all [1; 0]
  else let* _ := write_all [1; 1] in WFail AuthFailed.

Definition negotiate (cfg : MixedInboundConfig) : wire Z :=
  let* ver := read_u8 in
  let* _ := wensure (ver =? 5) BadVersion in
  let* nmethods := read_u8 in
  let* methods := read_exact (Z.to_nat nmethods) in
  match select_method cfg methods with
  | None => let* _ := write_all [5; 255] in WFail NoAcceptableMethod
  | Some method => let* _ := write_all [5; method] in WRet method
  end.

Definition read_socks5_addr (atyp : Z) : wire Target := read_addr SOCKS_ATYP atyp.

Definition socks5_reply (rep : Z) (bind_addr : SocketAddr) : bytes := [5; rep; 0] ++ put_addr SOCKS_ATYP (TSocket bind_addr).
Definition socks5_reply_code (rep : Z) : bytes := [5; rep; 0; 1; 0; 0; 0; 0; 0; 0].

(** The third phase; [local_addr] is that of the UDP socket, if one is opened. *)
Definition read_socks5_request (cfg : MixedInboundConfig) (peer local_addr : SocketAddr) : wire Request :=
  let* _ := read_u8 in
  let* cmd := read_u8 in
  let* _ := read_u8 in
  let* atyp := read_u8 in
  let* target := read_socks5_addr atyp in
  if cmd =? CMD_CONNECT then
    let* _ := write_all (socks5_reply REP_SUCCESS peer) in WRet (Connect target)
  else if cmd =? CMD_UDP_ASSOCIATE then
    if negb (udp cfg) then
      let* _ := write_all (socks5_reply_code REP_CMD_NOT_SUPPORTED) in WFail BadCommand
    else
      let* _ := write_all (socks5_reply REP_SUCCESS local_addr) in WRet UdpAssociate
  else
    let* _ := write_all (socks5_reply_code REP_CMD_NOT_SUPPORTED) in WFail BadCommand.

Definition handle_socks5 (cfg : MixedInboundConfig) (peer local_addr : SocketAddr) : wire Request :=
  let* method := negotiate cfg in
  let* _ := (if method =? 2 then authenticate cfg else WRet tt) in
  read_socks5_request cfg peer local_addr.

(** *** HTTP *)

(** Byte by byte; the check on the length ends it after 8192 turns. *)
Fixpoint read_head (fuel : nat) (buf : bytes) : wire bytes :=
  match fuel with
  | O => WFail HeaderTooLarge
  | S fuel =>
      let* b := read_u8 in
      let buf := buf ++ [b] in
      if ends_with (CRLF ++ CRLF) buf then WRet buf
      else let* _ := wensure (len buf <? 8192) HeaderTooLarge in read_head fuel buf
  end.

Definition port_or (d : Z) (s : str) : Z := match parse_uint u16_max s with Some p => p | None => d end.

(** [host:port] with a port to fall back on. *)
Definition split_target (dflt : Z) (s : str) : Target :=
  match rsplit_once 58 s with
  | Some (host, port_str) => TDomain host (port_or dflt port_str)
  | None => TDomain s dflt
  end.

Fixpoint find_host (ls : list str) : result Target WireError :=
  match ls with
  | [] => Err NoHost
  | line :: ls =>
      match strip_prefix (lit "Host:") line with
      | Some rest => Ok (split_target 80 (trim rest))
      | None => find_host ls
      end
  end.

Definition parse_http_connect (request : str) : result Target WireError :=
  let first_line := match lines request with l :: _ => l | [] => [] end in
  match split_once 32 first_line with
  | None => Err MalformedRequest
  | Some (method, rest) =>
      let target := match split_once 32 rest with Some (t, _) => t | None => rest end in
      if eq_ignore_ascii_case method (lit "CONNECT") then Ok (split_target 443 target)
      else find_host (drop 1 (lines request))
  end.

Definition established : bytes := lit "HTTP/1.1 200 Connection Established" ++ CRLF ++ CRLF.

Definition handle_http : wire Request :=
  let* buf := read_head (Z.to_nat 8192) [] in
  let* request := from_utf8 buf in
  match parse_http_connect request with
  | Err e => WFail e
  | Ok target => let* _ := write_all established in WRet (Connect target)
  end.

Definition http_first : bytes := lit "CGPHDOT".

Definition handle_conn (cfg : MixedInboundConfig) (peer local_addr : SocketAddr) : wire Request :=
  let* first := peek1 in
  if first =? 5 then handle_socks5 cfg peer local_addr
  else if bool_decide (first ∈ http_first) then handle_http
  else WFail UnknownProtocol.

(** *** Datagrams of an association *)

Definition parse_socks5_udp (buf : bytes) : run (result (bytes * Target) WireError) :=
  if len buf <? 4 then Ret (Err UnexpectedEof)
  else
    frag ← idx buf 2;
    if negb (frag =? 0) then Ret (Err BadFraming)
    else
      r ←!! get_addr SOCKS_ATYP buf 3;
      data ← slice buf r.2 (len buf);
      Ret (Ok (data, r.1)).

Definition wrap_socks5_udp (data : bytes) (dst : SocketAddr) : bytes := [0; 0; 0] ++ put_addr SOCKS_ATYP (TSocket dst) ++ data.

(** One datagram that came to the socket of an association: the packet for the
    dispatcher, if it parses. *)
Definition udp_recv (tag : str) (src : SocketAddr) (buf : bytes) : run (option InboundUdpPacket) :=
  r ← parse_socks5_udp buf;
  Ret (match r with Ok (data, target) => Some (mkUdp data src target tag None None) | Err _ => None end).

(** An answer for the client at [dst] that comes from [spoofed_src]: what is sent, and to whom. *)
Definition udp_reply (data : bytes) (dst spoofed_src : SocketAddr) : bytes * SocketAddr := (wrap_socks5_udp data dst, dst).

(** ** The outbound *)

(** What the handshakes read of [SocksOutboundConfig]. *)
Record SocksOutboundConfig : Type := mkSocks { so_username : option str; so_password : option str; so_version : option str }.

Definition SOCKS5_NO_ACCEPTABLE : Z := 255.
Definition SOCKS5_USER_PASS_AUTH : Z := 2.

Definition credential (o : option str) : str := match o with Some s => s | None => [] end.

Definition socks5_methods (cfg : SocksOutboundConfig) : bytes :=
  match so_username cfg with Some _ => [5; 2; 0; SOCKS5_USER_PASS_AUTH] | None => [5; 1; 0] end.

(** [checked]: the handshake of a stream refuses what does not fit its length
    byte, the one of an association does not look. *)
Definition socks5_method (cfg : SocksOutboundConfig) (checked : bool) : wire unit :=
  let* resp := read_exact 2 in
  let* _ := wensure (byte_at 0 resp =? 5) BadVersion in
  let* _ := wensure (negb (byte_at 1 resp =? SOCKS5_NO_ACCEPTABLE)) NoAcceptableMethod in
  if byte_at 1 resp =? SOCKS5_USER_PASS_AUTH then
    let user := credential (so_username cfg) in
    let pass := credential (so_password cfg) in
    let* _ := wensure (negb checked || (len user <=? 255) && (len pass <=? 255)) CredentialsTooLong in
    let* _ := write_all ([1; as_u8 (len user)] ++ user ++ [as_u8 (len pass)] ++ pass) in
    let* auth_resp := read_exact 2 in
    wensure (byte_at 1 auth_resp =? 0) AuthFailed
  else WRet tt.

(** The head of the answer: the kind of its address. *)
Definition socks5_answer : wire Z :=
  let* hdr := read_exact 4 in
  let* _ := wensure (byte_at 0 hdr =? 5) BadVersion in
  let* _ := wensure (byte_at 1 hdr =? REP_SUCCESS) Refused in
  WRet (byte_at 3 hdr).

Definition skip_bound (atyp : Z) : wire unit :=
  if atyp =? 1 then let* _ := read_exact 6 in WRet tt
  else if atyp =? 4 then let* _ := read_exact 18 in WRet tt
  else if atyp =? 3 then let* n := read_u8 in let* _ := read_exact (Z.to_nat n + 2) in WRet tt
  else WFail BadAtyp.

Definition domain_fits (t : Target) : bool := match t with TDomain host _ => len host <=? 255 | TSocket _ => true end.

Definition socks5_handshake (cfg : SocksOutboundConfig) (target : Target) (cmd : Z) : wire unit :=
  let* _ := write_all (socks5_methods cfg) in
  let* _ := socks5_method cfg true in
  let* _ := wensure (domain_fits target) DomainTooLong in
  let* _ := write_all ([5; cmd; 0] ++ put_addr SOCKS_ATYP target) in
  let* atyp := socks5_answer in
  skip_bound atyp.

Definition addr_unspecified (a : IpAddr) : bool := match a with V4 v => v =? 0 | V6 v => v =? 0 end.

Definition relay_addr_of (atyp : Z) : wire SocketAddr :=
  if atyp =? 1 then
    let* buf := read_exact 6 in WRet {| ip := ipv4_of (take 4 buf); sock_port := from_be_bytes (drop 4 buf) |}
  else if atyp =? 4 then
    let* buf := read_exact 18 in WRet {| ip := ipv6_of (take 16 buf); sock_port := from_be_bytes (drop 16 buf) |}
  else WFail BadAtyp.

(** The association: the address the server relays at.  [proxy] is what looking the server up gives. *)
Definition socks5_udp_associate_get_relay (cfg : SocksOutboundConfig) (proxy : option SocketAddr) : wire SocketAddr :=
  let* _ := write_all (socks5_methods cfg) in
  let* _ := socks5_method cfg false in
  let* _ := write_all [5; CMD_UDP_ASSOCIATE; 0; 1; 0; 0; 0; 0; 0; 0] in
  let* atyp := socks5_answer in
  let* relay_addr := relay_addr_of atyp in
  if addr_unspecified (ip relay_addr) then
    match proxy with
    | Some a => WRet {| ip := ip a; sock_port := sock_port relay_addr |}
    | None => WFail ResolveFailed
    end
  else WRet relay_addr.

(** [resolve_target]: what the system's lookup gives for a name. *)
Definition resolve_target (lookup_host : str -> Z -> option SocketAddr) (t : Target) : option SocketAddr :=
  match t with
  | TSocket a => Some a
  | TDomain host port => lookup_host host port
  end.

Definition socks4_target (version : SocksVersion) (lookup_host : str -> Z -> option SocketAddr) (t : Target)
    : result (bytes * Z * option str) WireError :=
  let v4 (a : SocketAddr) := match ip a with V4 v => Ok (octets (V4 v), sock_port a, None) | V6 _ => Err UnsupportedTarget end in
  match t with
  | TSocket a => v4 a
  | TDomain host port =>
      match version with
      | V4a => Ok ([0; 0; 0; 1], port, Some host)
      | _ => match resolve_target lookup_host t with Some a => v4 a | None => Err ResolveFailed end
      end
  end.

Definition socks4_handshake (version : SocksVersion) (lookup_host : str -> Z -> option SocketAddr) (target : Target) : wire unit :=
  match socks4_target version lookup_host target with
  | Err e => WFail e
  | Ok (ip_bytes, port, domain) =>
      let* _ := write_all ([4; 1] ++ to_be_bytes 2 port ++ ip_bytes ++ [0] ++ match domain with Some d => d ++ [0] | None => [] end) in
      let* resp := read_exact 8 in
      let* _ := wensure (byte_at 0 resp =? 0) BadVersion in
      wensure (byte_at 1 resp =? 0x5A) Refused
  end.

Definition connect_tunnel (cfg : SocksOutboundConfig) (version : SocksVersion) (lookup_host : str -> Z -> option SocketAddr) (target : Target) : wire unit :=
  match version with
  | V5 => socks5_handshake cfg target CMD_CONNECT
  | V4a | V4_ => socks4_handshake version lookup_host target
  end.

(** [SocksOutbound::new], then a tunnel. *)
Definition socks_outbound (cfg : SocksOutboundConfig) (lookup_host : str -> Z -> option SocketAddr) (target : Target) : result (wire unit) str :=
  version ←! parsed_version (so_version cfg);
  Ok (connect_tunnel cfg version lookup_host target).

(** *** Datagrams *)

Definition build_dgram (target : Target) (data : bytes) : bytes := [0; 0; 0] ++ put_addr SOCKS_ATYP target ++ data.

Definition socks5_udp_strip_header (buf : bytes) : run (result bytes WireError) :=
  if len buf <? 4 then Ret (Err UnexpectedEof)
  else
    atyp ← idx buf 3;
    header_len ←!!
      (if atyp =? 1 then Ret (Ok (4 + 4 + 2))
       else if atyp =? 4 then Ret (Ok (4 + 16 + 2))
       else if atyp =? 3 then
         if len buf <? 5 then Ret (Err UnexpectedEof) else n ← idx buf 4; Ret (Ok (4 + 1 + n + 2))
       else Ret (Err BadAtyp));
    if len buf <? header_len then Ret (Err UnexpectedEof)
    else payload ← slice buf header_len (len buf); Ret (Ok payload).

(** A session: every datagram of the client goes to the relay with the target of
    the first one; what comes back until the timeout is stripped and sent to
    the client, datagrams that do not parse left out. *)
Definition socks5_udp_up (p : InboundUdpPacket) (upstream : list bytes) : list bytes := map (build_dgram (u_target p)) (u_data p :: upstream).

Fixpoint socks5_udp_down (p : InboundUdpPacket) (received : list bytes) : run (list (bytes * SocketAddr * SocketAddr)) :=
  match received with
  | [] => Ret []
  | d :: received =>
      r ← socks5_udp_strip_header d;
      rest ← socks5_udp_down p received;
      Ret (match r with Ok payload => (payload, u_src p, to_socket_addr_lossy (u_target p)) :: rest | Err _ => rest end)
  end.

(** ** The parts of the server, on the bytes of a client *)

Lemma socks_atyps_ok : atyps_ok SOCKS_ATYP.
Proof. by vm_compute. Qed.

Definition greeting (methods : bytes) : bytes := [5; len methods] ++ methods.
Definition auth_message (u p : str) : bytes := [1; len u] ++ u ++ [len p] ++ p.

Lemma negotiate_run sc methods rest : play (negotiate sc) (greeting methods ++ rest) =
  match select_method sc methods with
  | None => (Err NoAcceptableMethod, [5; 255])
  | Some method => (Ok (method, rest), [5; method])
  end.
Proof.
  change (play (negotiate sc) (greeting methods ++ rest)) with
    (play (WRead (Z.to_nat (len methods)) (fun methods => match select_method sc methods with
      | None => WWrite [5; 255] (WFail NoAcceptableMethod)
      | Some method => WWrite [5; method] (WRet method)
      end)) (methods ++ rest)).
  cbn [play]. replace (Z.to_nat (len methods)) with (length methods) by (unfold len; lia).
  rewrite (proj2 (Nat.ltb_ge _ _)) by (rewrite length_app; lia). rewrite take_app_length, drop_app_length.
  by destruct (select_method sc methods).
Qed.

Lemma negotiate_plays sc methods method : select_method sc methods = Some method ->
  plays (negotiate sc) (greeting methods) method [5; method].
Proof. intros Hs rest. by rewrite negotiate_run, Hs. Qed.

Lemma authenticate_plays sc u p : credentials_ok sc u p = true -> plays (authenticate sc) (auth_message u p) tt [1; 0].
Proof.
  intros Hc. unfold authenticate, auth_message. cbn [app].
  change (1 :: len u :: u ++ len p :: p) with ([1] ++ [len u] ++ u ++ [len p] ++ p).
  eapply plays_read; [apply plays_u8|]. eapply plays_read; [apply plays_u8|]. eapply plays_read; [apply plays_exact; unfold len; lia|].
  eapply plays_read; [apply plays_u8|]. eapply plays_last; [apply plays_exact; unfold len; lia|].
  rewrite Hc. by intros rest.
Qed.

Definition socks5_request (cmd : Z) (t : Target) : bytes := [5; cmd; 0] ++ put_addr SOCKS_ATYP t.

Lemma read_request_plays sc peer local t cmd o r : target_ok t ->
  plays (if cmd =? CMD_CONNECT then let* _ := write_all (socks5_reply REP_SUCCESS peer) in WRet (Connect t)
         else if cmd =? CMD_UDP_ASSOCIATE then
           if negb (udp sc) then let* _ := write_all (socks5_reply_code REP_CMD_NOT_SUPPORTED) in WFail BadCommand
           else let* _ := write_all (socks5_reply REP_SUCCESS local) in WRet UdpAssociate
         else let* _ := write_all (socks5_reply_code REP_CMD_NOT_SUPPORTED) in WFail BadCommand) [] r o ->
  plays (read_socks5_request sc peer local) (socks5_request cmd t) r o.
Proof.
  intros Ht Hc. unfold read_socks5_request, socks5_request. rewrite put_addr_cons. cbn [app].
  set (rest := drop 1 _). change (5 :: cmd :: 0 :: addr_code SOCKS_ATYP t :: rest) with ([5] ++ [cmd] ++ [0] ++ [addr_code SOCKS_ATYP t] ++ rest).
  do 4 (eapply plays_read; [apply plays_u8|]). eapply plays_last; [|exact Hc].
  by apply read_addr_plays; [apply socks_atyps_ok|].
Qed.

Lemma connect_plays sc peer local t : target_ok t ->
  plays (read_socks5_request sc peer local) (socks5_request CMD_CONNECT t) (Connect t) (socks5_reply REP_SUCCESS peer).
Proof. intros Ht. apply read_request_plays; [done|]. apply plays_write. Qed.

Lemma associate_plays sc peer local t : target_ok t -> udp sc = true ->
  plays (read_socks5_request sc peer local) (socks5_request CMD_UDP_ASSOCIATE t) UdpAssociate (socks5_reply REP_SUCCESS local).
Proof.
  intros Ht Hu. apply read_request_plays; [done|]. rewrite Hu. apply plays_write.
Qed.

Lemma negotiate_peekless sc : peekless (negotiate sc).
Proof. unfold negotiate. peekless. Qed.

Lemma authenticate_peekless sc : peekless (authenticate sc).
Proof. unfold authenticate. peekless. Qed.

Lemma read_request_peekless sc peer local : peekless (read_socks5_request sc peer local).
Proof. unfold read_socks5_request. do 4 (apply peekless_bind; [done|intros]). apply peekless_bind; [apply read_addr_peekless|]. peekless. Qed.

(** ** The parts of the client, on the bytes of a server *)

Lemma answer_plays atyp : plays socks5_answer [5; REP_SUCCESS; 0; atyp] atyp [].
Proof. by intros rest. Qed.

Lemma skip_bound_plays a : plays (skip_bound (addr_code SOCKS_ATYP (TSocket a))) (drop 1 (put_addr SOCKS_ATYP (TSocket a))) tt [].
Proof.
  unfold skip_bound. destruct a as [[v|v] p]; cbn [addr_code ip SOCKS_ATYP c_v4 c_v6 Z.eqb Pos.eqb put_addr app drop sock_port];
    (eapply plays_last; [apply plays_exact; rewrite drop_0, length_app; cbn [octets]; by rewrite !length_to_be_bytes|apply plays_ret]).
Qed.

Lemma answer_peekless : peekless socks5_answer.
Proof. unfold socks5_answer. peekless. Qed.

Lemma skip_bound_peekless atyp : peekless (skip_bound atyp).
Proof. unfold skip_bound. peekless. Qed.

Lemma relay_addr_peekless atyp : peekless (relay_addr_of atyp).
Proof. unfold relay_addr_of. peekless. Qed.

Definition addr_ok (a : SocketAddr) : Prop := target_ok (TSocket a).

Lemma relay_addr_plays a : addr_ok a -> plays (relay_addr_of (addr_code SOCKS_ATYP (TSocket a))) (drop 1 (put_addr SOCKS_ATYP (TSocket a))) a [].
Proof.
  unfold relay_addr_of. destruct a as [[v|v] p]; intros [Ha Hp]; cbn [addr_code ip SOCKS_ATYP c_v4 c_v6 Z.eqb Pos.eqb put_addr app drop sock_port ip_ok] in *;
    (eapply plays_last; [apply plays_exact; rewrite drop_0, length_app; cbn [octets]; by rewrite !length_to_be_bytes|]); rewrite drop_0.
  - rewrite take_app_length', drop_app_length', ipv4_of_octets, port_back by (done || apply length_to_be_bytes). apply plays_ret.
  - rewrite take_app_length', drop_app_length', ipv6_of_octets, port_back by (done || apply length_to_be_bytes). apply plays_ret.
Qed.

(** ** Both ends *)

(** The inbound asks for no credentials, or both are configured with the same. *)
Definition agree (sc : MixedInboundConfig) (cc : SocksOutboundConfig) : Prop :=
  username sc = None \/
  exists u p, username sc = Some u /\ password sc = Some p /\ so_username cc = Some u /\ so_password cc = Some p /\
    len u <= 255 /\ len p <= 255 /\ utf8_valid u = true /\ utf8_valid p = true.


(** The first two phases, whatever follows. *)
Lemma methods_meet {A B} sc cc checked (f : unit -> wire A) (g : unit -> wire B) : agree sc cc ->
  converse (wbind (socks5_method cc checked) f) (let* method := negotiate sc in let* _ := (if method =? 2 then authenticate sc else WRet tt) in g tt)
    (socks5_methods cc) [] = converse (f tt) (g tt) [] [].
Proof.
  intros [Hn|(u & p & Hu & Hp & Hcu & Hcp & Lu & Lp & Vu & Vp)].
  - assert (exists ms, socks5_methods cc = greeting ms /\ 0 ∈ ms) as (ms & -> & H0).
    { unfold socks5_methods. destruct (so_username cc); [exists [0; 2]|exists [0]]; split; try done; set_solver. }
    erewrite converse_plays_all; [|apply negotiate_peekless|apply negotiate_plays; unfold select_method; rewrite Hn; rewrite (bool_decide_true (0 ∈ ms)) by done; reflexivity].
    cbn [Z.eqb wbind]. unfold socks5_method. cbn [wbind read_exact]. by rewrite (converse_cread 2 _ _ _ [5; 0] []).
  - unfold socks5_methods, socks5_method. rewrite Hcu, Hcp. change [5; 2; 0; SOCKS5_USER_PASS_AUTH] with (greeting [0; 2]).
    erewrite converse_plays_all; [|apply negotiate_peekless|apply negotiate_plays; unfold select_method; by rewrite Hu].
    cbn [Z.eqb Pos.eqb wbind read_exact]. rewrite (converse_cread 2 _ _ _ [5; 2] []) by done.
    change (byte_at 0 [5; 2]) with 5. change (byte_at 1 [5; 2]) with 2.
    assert (Hl : negb checked || (len u <=? 255) && (len p <=? 255) = true) by (apply orb_true_iff; right; apply andb_true_iff; split; by apply Z.leb_le).
    cbn [Z.eqb Pos.eqb wensure wbind negb SOCKS5_NO_ACCEPTABLE SOCKS5_USER_PASS_AUTH credential]. rewrite Hl, !as_u8_small by len_solve. cbn [wensure wbind write_all].
    rewrite converse_cwrite. cbn [app]. rewrite (converse_plays_all (authenticate sc) _ (auth_message u p) tt [1; 0]);
      [|apply authenticate_peekless|apply authenticate_plays; unfold credentials_ok, utf8_or_empty; by rewrite Vu, Vp, Hu, Hp, !bool_decide_true].
    by rewrite (converse_cread 2 _ _ _ [1; 0] []).
Qed.

(** The first byte of every greeting chooses the protocol. *)
Lemma conn_is_socks5 {A} (c : wire A) sc cc peer local a : 
  converse c (handle_conn sc peer local) (socks5_methods cc) a = converse c (handle_socks5 sc peer local) (socks5_methods cc) a.
Proof. unfold handle_conn, socks5_methods. cbn [peek1 wbind]. destruct (so_username cc); rewrite converse_speek; done. Qed.

(** The outbound's handshake through the inbound: the target arrives, and what the
    client sends next is the first byte of the relayed stream. *)
Lemma tunnel_meets sc cc peer local t payload : agree sc cc -> target_ok t -> addr_ok peer ->
  converse (let* _ := socks5_handshake cc t CMD_CONNECT in write_all payload) (handle_conn sc peer local) [] [] =
  mkOutcome (Some (Ok tt)) (Some (Ok (Connect t))) payload [].
Proof.
  intros Ha Ht Hp. unfold socks5_handshake. cbn [wbind write_all]. rewrite converse_cwrite. cbn [app]. rewrite conn_is_socks5.
  unfold handle_socks5. rewrite wbind_assoc, (methods_meet sc cc true _ (fun _ => read_socks5_request sc peer local)) by done.
  assert (domain_fits t = true) as -> by (destruct t; [apply Z.leb_le; apply Ht|done]). cbn [wensure wbind]. rewrite converse_cwrite. cbn [app].
  rewrite (converse_server _ (socks5_request CMD_CONNECT t) (Connect t) (socks5_reply REP_SUCCESS peer)) by (apply read_request_peekless || by apply connect_plays).
  rewrite wbind_assoc. unfold socks5_reply. rewrite put_addr_cons.
  change ([5; REP_SUCCESS; 0] ++ ?c :: ?r) with ([5; REP_SUCCESS; 0; c] ++ r).
  rewrite (converse_cplays _ _ _ _ _ _ _ _ answer_peekless (answer_plays _)), (converse_cplays_all _ _ _ _ _ _ (skip_bound_peekless _) (skip_bound_plays peer)).
  unfold write_all. by rewrite converse_cwrite.
Qed.

(** An association: both ends know the relay's address. *)
Lemma associate_meets sc cc peer local proxy : agree sc cc -> udp sc = true -> addr_ok local -> addr_unspecified (ip local) = false ->
  converse (socks5_udp_associate_get_relay cc proxy) (handle_conn sc peer local) [] [] =
  mkOutcome (Some (Ok local)) (Some (Ok UdpAssociate)) [] [].
Proof.
  intros Ha Hu Hl Hun. unfold socks5_udp_associate_get_relay. cbn [wbind write_all]. rewrite converse_cwrite. cbn [app]. rewrite conn_is_socks5.
  unfold handle_socks5. rewrite (methods_meet sc cc false _ (fun _ => read_socks5_request sc peer local)) by done. cbn [wbind write_all]. rewrite converse_cwrite.
  change ([] ++ _) with (socks5_request CMD_UDP_ASSOCIATE (TSocket {| ip := V4 0; sock_port := 0 |})).
  rewrite (converse_server _ _ UdpAssociate (socks5_reply REP_SUCCESS local)) by (apply read_request_peekless || by apply associate_plays).
  unfold socks5_reply. rewrite put_addr_cons. change ([5; REP_SUCCESS; 0] ++ ?c :: ?r) with ([5; REP_SUCCESS; 0; c] ++ r).
  rewrite (converse_cplays _ _ _ _ _ _ _ _ answer_peekless (answer_plays _)), (converse_cplays_all _ _ _ local _ _ (relay_addr_peekless _)) by by apply relay_addr_plays.
  by rewrite Hun.
Qed.

(** ** Datagrams *)

Lemma parse_put t data : target_ok t -> parse_socks5_udp ([0; 0; 0] ++ put_addr SOCKS_ATYP t ++ data) = Ret (Ok (data, t)).
Proof.
  intros Ht. unfold parse_socks5_udp. set (buf := _ ++ _).
  assert (4 <= len buf) by (unfold buf; rewrite put_addr_cons, !len_app, !len_cons, len_nil; pose proof (len_nonneg data); pose proof (len_nonneg (drop 1 (put_addr SOCKS_ATYP t))); lia).
  rewrite (proj2 (Z.ltb_ge _ _)) by lia.
  rewrite (idx_seg buf [0; 0] 0 (put_addr SOCKS_ATYP t ++ data)) by done. cbn [mbind run_bind Z.eqb negb].
  pose proof (get_put_addr SOCKS_ATYP t [0; 0; 0] data socks_atyps_ok Ht) as Hg. change (len [0; 0; 0]) with 3 in Hg. fold buf in Hg.
  unfold try_bind. rewrite Hg, bind_Ret. cbn [fst snd].
  unfold buf. rewrite app_assoc, slice_tail; [done|by rewrite len_app].
Qed.

(** What the outbound strips is what the inbound puts before an answer. *)
Lemma strip_put t data : target_ok t -> socks5_udp_strip_header ([0; 0; 0] ++ put_addr SOCKS_ATYP t ++ data) = Ret (Ok data).
Proof.
  intros Ht. unfold socks5_udp_strip_header. set (buf := _ ++ _).
  assert (Hl : len buf = 3 + len (put_addr SOCKS_ATYP t) + len data) by (unfold buf; by rewrite !len_app, Z.add_assoc).
  assert (Hp : len (put_addr SOCKS_ATYP t) = match t with TDomain d _ => 4 + len d | TSocket a => match ip a with V4 _ => 7 | V6 _ => 19 end end).
  { destruct t as [d p|[[v|v] p]]; cbn [put_addr ip sock_port app]; rewrite !len_cons, !len_app, ?len_addr_octets, len_to_be_bytes; lia. }
  assert (Ha : idx buf 3 = Ret (addr_code SOCKS_ATYP t)) by (unfold buf; rewrite put_addr_cons; by apply (idx_seg _ [0; 0; 0] _ (drop 1 (put_addr SOCKS_ATYP t) ++ data))).
  pose proof (len_nonneg data) as Hd. rewrite Ha. 
  assert (Hs : slice buf (3 + len (put_addr SOCKS_ATYP t)) (len buf) = Ret data).
  { unfold buf. rewrite app_assoc. apply slice_tail. by rewrite len_app. }
  rewrite Hp in Hl, Hs.
  destruct t as [d p|[[v|v] p]]; cbn [addr_code ip SOCKS_ATYP c_v4 c_v6 c_domain] in *.
  - pose proof (len_nonneg d). rewrite (proj2 (Z.ltb_ge _ _)) by lia. cbn [mbind run_bind Z.eqb Pos.eqb].
    rewrite (proj2 (Z.ltb_ge _ _)) by lia.
    cbn [target_ok] in Ht. destruct Ht as (Hd' & _ & _).
    assert (idx buf 4 = Ret (len d)) as -> by (unfold buf; cbn [put_addr]; rewrite as_u8_small by len_solve; by apply (idx_seg _ [0; 0; 0; 3] _ (d ++ to_be_bytes 2 p ++ data)); [app_eq|]).
    rewrite bind_Ret. unfold try_bind. rewrite bind_Ret, (proj2 (Z.ltb_ge _ _)) by lia.
    replace (4 + 1 + len d + 2) with (3 + (4 + len d)) by lia. by rewrite Hs.
  - rewrite (proj2 (Z.ltb_ge _ _)) by lia. cbn [mbind run_bind Z.eqb Pos.eqb try_bind]. rewrite (proj2 (Z.ltb_ge _ _)) by lia. change (3 + 7) with (4 + 4 + 2) in Hs. by rewrite Hs.
  - rewrite (proj2 (Z.ltb_ge _ _)) by lia. cbn [mbind run_bind Z.eqb Pos.eqb try_bind]. rewrite (proj2 (Z.ltb_ge _ _)) by lia. change (3 + 19) with (4 + 16 + 2) in Hs. by rewrite Hs.
Qed.

(** No datagram stops either end. *)
Lemma parse_socks5_udp_returns buf : bytes_ok buf -> returns (parse_socks5_udp buf).
Proof.
  intros Hb. unfold parse_socks5_udp. case_if; reflect_bools; [by eexists|]. destruct (idx_inrange buf 2) as (x & _ & ->); [lia|]. rewrite bind_Ret.
  case_if; [by eexists|]. destruct (get_addr_returns SOCKS_ATYP buf 3) as (r & Hr & Hn); [lia|done|]. unfold try_bind. rewrite Hr, bind_Ret.
  destruct r as [[t n]|e]; [|by eexists]. specialize (Hn t n eq_refl). cbn [fst snd].
  destruct (slice_returns buf n (len buf)) as [d ->]; [lia..|]. by eexists.
Qed.

Lemma strip_returns buf : bytes_ok buf -> returns (socks5_udp_strip_header buf).
Proof.
  intros Hb. unfold socks5_udp_strip_header. case_if; reflect_bools; [by eexists|]. destruct (idx_inrange buf 3) as (x & _ & ->); [lia|]. rewrite bind_Ret.
  assert (Hend : forall n, 0 <= n -> returns (if len buf <? n then Ret (Err UnexpectedEof) else payload ← slice buf n (len buf); Ret (Ok (E := WireError) payload))).
  { intros n Hn. case_if; reflect_bools; [by eexists|]. destruct (slice_returns buf n (len buf)) as [d ->]; [lia..|]. by eexists. }
  repeat case_if; unfold try_bind; rewrite ?bind_Ret; try (by eexists); try (apply Hend; lia).
  reflect_bools. destruct (idx_inrange buf 4) as (n & _ & En); [lia|]. pose proof (idx_byte _ _ _ Hb En) as Hn. rewrite En, !bind_Ret. apply Hend. unfold is_byte in Hn. lia.
Qed.



(** ** Who is let in *)

(** What a client sends that offers [methods], and then, if it is asked, its credentials. *)
Definition offered (i methods tail : bytes) : Prop := i = greeting methods ++ tail.

Definition shows_credentials (sc : MixedInboundConfig) (tail : bytes) : Prop :=
  exists v un pw tail', tail = [v; len un] ++ un ++ [len pw] ++ pw ++ tail' /\
    username sc = Some (utf8_or_empty un) /\ password sc = Some (utf8_or_empty pw).

Lemma authenticate_Ok sc i x r o : bytes_ok i -> play (authenticate sc) i = (Ok (x, r), o) -> shows_credentials sc i.
Proof.
  intros Hb H. unfold authenticate in H. do 5 play_step H. destruct (credentials_ok sc a1 a3) eqn:Hc; [|by play_step H].
  unfold credentials_ok in Hc. apply andb_true_iff in Hc as [H1 H2]. apply bool_decide_eq_true in H1, H2.
  eexists a, a1, a3, _. split; [|done]. unfold bytes_ok in Hb. rewrite !Forall_cons, Forall_app, Forall_cons in Hb. destruct Hb as (_ & B0 & _ & B2 & _).
  unfold is_byte in *. replace (len a1) with a0 by (unfold len; lia). replace (len a3) with a2 by (unfold len; lia). cbn [app]. reflexivity.
Qed.

Lemma negotiate_Ok sc i m r o : bytes_ok i -> play (negotiate sc) i = (Ok (m, r), o) ->
  exists methods, i = greeting methods ++ r /\ select_method sc methods = Some m.
Proof.
  intros Hb H. unfold negotiate in H. do 4 play_step H. destruct (select_method sc a2) as [m'|] eqn:Hs; [|by play_step H].
  play_step H. injection H as <- <- <-. exists a2. apply Z.eqb_eq in C as ->. unfold bytes_ok in Hb. rewrite !Forall_cons in Hb.
  destruct Hb as (_ & B0 & _). unfold is_byte in B0. unfold greeting. replace (len a2) with a1 by (unfold len; lia). done.
Qed.

(** When credentials are configured, a SOCKS5 client that offers the password
    method is let in only with exactly the configured name and password; one that does
    not offer it is let in without any, if it offers the method without
    authentication, and so is every HTTP request; a client that offers neither is
    refused with the code for it, and every other first byte is. *)
Theorem inbound_admission sc peer local i r rest o u : username sc = Some u -> bytes_ok i ->
  (play (handle_conn sc peer local) i = (Ok (r, rest), o) ->
    (exists methods tail, offered i methods tail /\ 2 ∈ methods /\ shows_credentials sc tail) \/
    (exists methods tail, offered i methods tail /\ (2 ∉ methods) /\ 0 ∈ methods) \/
    byte_at 0 i ∈ http_first) /\
  (forall t methods, target_ok t -> 2 ∉ methods -> 0 ∈ methods ->
    play (handle_conn sc peer local) (greeting methods ++ socks5_request CMD_CONNECT t ++ rest) =
      (Ok (Connect t, rest), [5; 0] ++ socks5_reply REP_SUCCESS peer)) /\
  (forall methods, 2 ∉ methods -> 0 ∉ methods ->
    play (handle_conn sc peer local) (greeting methods ++ rest) = (Err NoAcceptableMethod, [5; 255])).
Proof.
  intros Hu Hb. split_and!.
  - intros H. unfold handle_conn in H. cbn [peek1 wbind play] in H.
    destruct (byte_at 0 i =? 5) eqn:H5; [|destruct (bool_decide_reflect (byte_at 0 i ∈ http_first)); [auto|done]].
    unfold handle_socks5 in H. play_step H. apply negotiate_Ok in P as (methods & -> & Hs); [|done].
    unfold select_method in Hs. rewrite Hu in Hs. cbn [is_Some] in Hs. apply bytes_ok_app in Hb as [_ Hb].
    destruct (bool_decide_reflect (2 ∈ methods)) as [H2|H2].
    + left. rewrite bool_decide_true in Hs by done. injection Hs as <-. cbn [Z.eqb Pos.eqb] in H. play_step H.
      apply authenticate_Ok in P; [|done]. by eexists methods, _.
    + right. left. rewrite andb_false_r in Hs. destruct (bool_decide_reflect (0 ∈ methods)); [|done]. by eexists methods, _.
  - intros t methods Ht H2 H0. assert (Hs : select_method sc methods = Some 0).
    { unfold select_method. by rewrite (bool_decide_false (2 ∈ methods)), andb_false_r, (bool_decide_true (0 ∈ methods)). }
    unfold handle_conn. cbn [peek1 wbind play]. change (byte_at 0 _) with 5. cbn [Z.eqb Pos.eqb]. rewrite app_assoc.
    refine (plays_bind _ _ _ _ _ _ _ _ (negotiate_plays sc methods 0 Hs) _ rest). cbn [Z.eqb wbind]. by apply connect_plays.
  - intros methods H2 H0. unfold handle_conn. cbn [peek1 wbind play]. change (byte_at 0 _) with 5. cbn [Z.eqb Pos.eqb].
    assert (Hs : select_method sc methods = None).
    { unfold select_method. by rewrite (bool_decide_false (2 ∈ methods)), andb_false_r, (bool_decide_false (0 ∈ methods)). }
    unfold handle_socks5. by rewrite play_bind, negotiate_run, Hs.
Qed.

Lemma inbound_admission_witness :
  let sc := mkMixed (Some (lit "user")) (Some (lit "pass")) true in
  let a := {| ip := V4 0x7F000001; sock_port := 1080 |} in
  let t := TDomain (lit "example.com") 443 in
  play (handle_conn sc a a) (greeting [0] ++ socks5_request CMD_CONNECT t ++ lit "hi") = (Ok (Connect t, lit "hi"), [5; 0] ++ socks5_reply REP_SUCCESS a) /\
  play (handle_conn sc a a) (greeting [1] ++ lit "hi") = (Err NoAcceptableMethod, [5; 255]).
Proof.
  intros sc a t. destruct (inbound_admission sc a a [] (Connect t) (lit "hi") [] (lit "user") eq_refl ltac:(constructor)) as (_ & H2 & H3).
  split; [apply H2|apply H3]; try (apply (bool_decide_unpack _); vm_compute; exact I); vm_compute; set_solver.
Defined.

(** ** HTTP requests *)

Lemma read_head_plays fuel buf s : (length s <= fuel)%nat -> len (buf ++ s) <= 8192 -> s <> [] ->
  ends_with (CRLF ++ CRLF) (buf ++ s) = true ->
  (forall n, (0 < n < length s)%nat -> ends_with (CRLF ++ CRLF) (buf ++ take n s) = false) ->
  plays (read_head fuel buf) s (buf ++ s) [].
Proof.
  revert buf s. induction fuel as [|fuel IH]; intros buf [|b s] Hf Hl Hne He Hn; try done; [cbn in Hf; lia|].
  cbn [read_head]. change (b :: s) with ([b] ++ s). eapply plays_read; [apply plays_u8|].
  destruct s as [|b' s].
  - rewrite He. apply plays_ret.
  - assert (ends_with (CRLF ++ CRLF) (buf ++ [b]) = false) as -> by (apply (Hn 1%nat); cbn; lia).
    eapply plays_pure; [apply plays_ensure; apply Z.ltb_lt; rewrite !len_app, !len_cons in *; pose proof (len_nonneg s); unfold len in *; cbn in *; lia|].
    rewrite app_assoc. apply IH; [cbn in *; lia|by rewrite <-app_assoc|done|by rewrite <-app_assoc|].
    intros n Hlt. rewrite <-app_assoc. apply (Hn (S n)). cbn in *. lia.
Qed.

(** One head: the empty line comes once, at its end. *)
Definition one_head (head : bytes) : Prop :=
  ends_with (CRLF ++ CRLF) head = true /\ forall n, (n < length head)%nat -> ends_with (CRLF ++ CRLF) (take n head) = false.

Lemma split_once_at c a b : c ∉ a -> split_once c (a ++ c :: b) = Some (a, b).
Proof.
  induction a as [|x a IH]; intros Hc; cbn [app split_once]; [by rewrite Z.eqb_refl|]. apply not_elem_of_cons in Hc as [Hx Hc].
  rewrite (proj2 (Z.eqb_neq _ _)) by congruence. by rewrite IH.
Qed.

Lemma rsplit_once_at c a b : c ∉ b -> rsplit_once c (a ++ c :: b) = Some (a, b).
Proof.
  intros Hc. unfold rsplit_once. rewrite rev_app_distr. cbn [rev]. rewrite <-app_assoc. cbn [app].
  rewrite split_once_at by (by rewrite list_elem_of_In, <-in_rev, <-list_elem_of_In). by rewrite !rev_involutive.
Qed.

Lemma first_line l rest : 10 ∉ l -> exists more, lines (l ++ CRLF ++ rest) = l :: more.
Proof.
  intros Hl. unfold lines, CRLF. replace (l ++ [13; 10] ++ rest) with ((l ++ [13]) ++ 10 :: rest) by (by rewrite <-app_assoc).
  rewrite split_on_sep, split_on_none by (rewrite elem_of_app; set_solver). cbn [app].
  destruct (split_on 10 rest) as [|p ps] eqn:E; [by apply split_on_nonempty in E|]. cbn [lines_pieces].
  exists (lines_pieces (p :: ps)). unfold strip_cr. rewrite rev_app_distr. cbn [rev app]. by rewrite rev_involutive.
Qed.

Lemma parse_connect host port version fields : in_width 16 port -> (forall b, b ∈ host -> b <> 32 /\ b <> 10) -> 10 ∉ version ->
  parse_http_connect (lit "CONNECT " ++ host ++ [58] ++ show_uint port ++ [32] ++ version ++ CRLF ++ fields) = Ok (TDomain host port).
Proof.
  intros Hp Hh Hv. unfold in_width in Hp. pose proof (fun c => show_uint_no c port ltac:(lia)) as Hd.
  assert (Hno : forall c, c = 32 \/ c = 10 -> c ∉ host ++ [58] ++ show_uint port).
  { intros c Hc Hin. assert (c ∈ host \/ c = 58 \/ c ∈ show_uint port) as [Hi|[->|Hi]] by set_solver; [apply Hh in Hi; lia|lia|]. revert Hi. apply Hd. by destruct Hc as [->| ->]. }
  set (target := host ++ [58] ++ show_uint port) in *.
  unfold parse_http_connect. replace (lit "CONNECT " ++ _) with ((lit "CONNECT" ++ 32 :: target ++ 32 :: version) ++ CRLF ++ fields)
    by (unfold target; change (lit "CONNECT ") with (lit "CONNECT" ++ [32]); app_eq).
  destruct (first_line (lit "CONNECT" ++ 32 :: target ++ 32 :: version) fields) as [more ->].
  { rewrite elem_of_app, elem_of_cons, elem_of_app, elem_of_cons. intros [H|[H|[H|[H|H]]]]; [vm_compute in H; set_solver|done|by apply (Hno 10) in H; auto|done|done]. }
  rewrite split_once_at by (vm_compute; set_solver). rewrite split_once_at by (apply Hno; auto).
  change (eq_ignore_ascii_case (lit "CONNECT") (lit "CONNECT")) with true. cbv iota. unfold split_target, target.
  change (host ++ [58] ++ show_uint port) with (host ++ 58 :: show_uint port). rewrite rsplit_once_at by by apply Hd.
  unfold port_or. by rewrite parse_show_uint by (unfold u16_max; lia).
Qed.

Lemma play_peek {A} (k : Z -> wire A) i : play (wbind peek1 k) i = play (k (byte_at 0 i)) i.
Proof. done. Qed.

Lemma http_plays head t : one_head head -> len head <= 8192 -> utf8_valid head = true -> parse_http_connect head = Ok t ->
  plays handle_http head (Connect t) established.
Proof.
  intros [He Hn] Hl Hu Ht. unfold handle_http.
  eapply plays_last; [apply read_head_plays; [unfold len in Hl; lia|done|by intros ->|done|intros n Hlt; apply Hn; lia]|].
  eapply plays_pure; [by apply plays_utf8|]. rewrite app_nil_l, Ht. apply plays_write.
Qed.

(** A CONNECT request: the tunnel goes to the host and port of its line, and the
    bytes after the head are the first of the stream. *)
Lemma http_connect sc peer local host port version fields payload :
  let head := lit "CONNECT " ++ host ++ [58] ++ show_uint port ++ [32] ++ version ++ CRLF ++ fields in
  in_width 16 port -> (forall b, b ∈ host -> b <> 32 /\ b <> 10) -> 10 ∉ version -> one_head head -> len head <= 8192 -> utf8_valid head = true ->
  play (handle_conn sc peer local) (head ++ payload) = (Ok (Connect (TDomain host port), payload), established).
Proof.
  intros head Hp Hh Hv Ho Hl Hu. unfold handle_conn. rewrite play_peek.
  replace (byte_at 0 (head ++ payload)) with 67 by done. rewrite (bool_decide_true (67 ∈ http_first)) by (vm_compute; set_solver).
  apply http_plays; [done..|]. by apply parse_connect.
Qed.

(** Any other method: the request has been read and answered as if it were a
    CONNECT, and nothing of it is left for the origin. *)
Example plain_get_consumed :
  let a := {| ip := V4 0x7F000001; sock_port := 1080 |} in
  play (handle_conn (mkMixed None None true) a a) (lit "GET http://example.com/ HTTP/1.1" ++ CRLF ++ lit "Host: example.com" ++ CRLF ++ CRLF) =
    (Ok (Connect (TDomain (lit "example.com") 80), []), established).
Proof. reflexivity. Qed.

(** The brackets of an IPv6 literal stay in the name. *)
Example connect_ipv6_literal :
  parse_http_connect (lit "CONNECT [::1]:443 HTTP/1.1" ++ CRLF ++ CRLF) = Ok (TDomain (lit "[::1]") 443).
Proof. reflexivity. Qed.

(** An answer carries the client's own address, wherever it comes from. *)
Example reply_header_is_client data dst spoofed_src : fst (udp_reply data dst spoofed_src) = build_dgram (TSocket dst) data.
Proof. done. Qed.

(** A name too long for its length byte is sent with a length that wraps. *)
Example long_domain_truncated :
  parse_socks5_udp (build_dgram (TDomain (repeat 97 256) 53) []) = Ret (Ok (drop 2 (repeat 97 256 ++ [0; 53]), TDomain [] 24929)).
Proof. reflexivity. Qed.
