(* ===== verification/Tunnels.v ===== *)
(** * Tunnels: the VLESS and Trojan protocols, of [src/outbound/vless.rs],
    [src/outbound/proto.rs], [src/inbound/vless_server.rs], [src/outbound/trojan.rs]
    and [src/inbound/trojan_server.rs], and the relay of [src/outbound/mod.rs].

    A header names the user and the target; the server decodes it from a byte
    stream.  The outbound wraps its connection in a stream that puts the header
    before the first write and, for VLESS, takes the server's answer off the first
    read.  What the connection delivers is a list of chunks, one per read that finds
    data; how much a write accepts is an event.  SHA-224 is a parameter. *)

From S2P Require Import Prelude RustStr Inbound Wire.

#[local] Open Scope reflex_scope.

(** ** Copying between streams *)

Section Copy.
Context {S : Type} (read : Z -> S -> bytes * S).

Definition BUF_SIZE : Z := 65536.

(** [copy_half] up to the end of its reader, with a writer that accepts: what it
    wrote.  A read of no bytes is the end. *)
Fixpoint copy_half (fuel : nat) (s : S) : run (bytes * S) :=
  match fuel with
  | O => Stuck
  | Datatypes.S fuel =>
      let '(d, s) := read BUF_SIZE s in
      match d with
      | [] => Ret ([], s)
      | _ => r ← copy_half fuel s; Ret (d ++ r.1, r.2)
      end
  end.
End Copy.

(** [copy_half] from a reader that can also fail or panic; an error ends it like the end. *)
Section CopyRun.
Context {S E : Type} (read : Z -> S -> run (result bytes E * S)).

Fixpoint copy_run (fuel : nat) (s : S) : run (bytes * S) :=
  match fuel with
  | O => Stuck
  | Datatypes.S fuel =>
      r ← read BUF_SIZE s;
      match r with
      | (Ok [], s) | (Err _, s) => Ret ([], s)
      | (Ok d, s) => x ← copy_run fuel s; Ret (d ++ x.1, x.2)
      end
  end.
End CopyRun.

(** A read from a connection: at most [room] bytes of the chunk that is there; none
    at its end. *)
Definition inner_read (room : Z) (chunks : list bytes) : bytes * list bytes :=
  match chunks with
  | [] => ([], [])
  | c :: cs =>
      let n := Z.to_nat (Z.min room (len c)) in
      (take n c, match drop n c with [] => cs | r => r :: cs end)
  end.

(** ** The streams of the outbounds *)

(** [VlessTcpStream] over its connection: [to_read] is still to arrive, [sent] is
    what the connection has accepted. *)
Record VlessTcpStream : Type := mkVlessTcp {
  to_read : list bytes;
  sent : bytes;
  pending_header : option bytes;
  read_buf : bytes;
  response_header_skipped : bool;
  raw_buf : bytes
}.

Definition VlessTcpStream_new (chunks : list bytes) (header : bytes) : VlessTcpStream := mkVlessTcp chunks [] (Some header) [] false [].

Definition with_read (s : VlessTcpStream) (chunks : list bytes) (buf : bytes) (skipped : bool) (raw : bytes) : VlessTcpStream :=
  mkVlessTcp chunks (sent s) (pending_header s) buf skipped raw.

(** [buf.put_slice(&read_buf[..n])] *)
Definition serve_buf (room : Z) (buf : bytes) : bytes * bytes :=
  let n := Z.to_nat (Z.min room (len buf)) in (take n buf, drop n buf).

Definition vless_read (room : Z) (s : VlessTcpStream) : bytes * VlessTcpStream :=
  match read_buf s with
  | _ :: _ =>
      let '(d, buf) := serve_buf room (read_buf s) in
      (d, with_read s (to_read s) buf (response_header_skipped s) (raw_buf s))
  | [] =>
      if negb (response_header_skipped s) then
        let '(filled, chunks) := inner_read 512 (to_read s) in
        match filled with
        | [] => ([], with_read s chunks [] false (raw_buf s))
        | _ =>
            let raw := raw_buf s ++ filled in
            let hdr_len := 2 + byte_at 1 raw in
            if (2 <=? len raw) && (hdr_len <=? len raw) then
              let payload := drop (Z.to_nat hdr_len) raw in
              let '(d, buf) := serve_buf room payload in
              (d, with_read s chunks buf true [])
            else ([], with_read s chunks [] false raw)
        end
      else
        let '(d, chunks) := inner_read room (to_read s) in
        (d, with_read s chunks [] true (raw_buf s))
  end.

(** The writes of [VlessTcpStream] and [TrojanTcpStream]: the state is what was
    sent and the header, the event [Some k] that the connection takes [k] bytes,
    [None] that it is not ready. *)
Definition header_write (data : bytes) (ev : option Z) (st : bytes * option bytes) : option Z * (bytes * option bytes) :=
  match st with
  | (out, Some header) =>
      let combined := header ++ data in
      match ev with
      | Some k =>
          let n := Z.min k (len combined) in
          (Some (if len header <=? n then n - len header else 0), (out ++ take (Z.to_nat n) combined, None))
      | None => (None, st)
      end
  | (out, None) =>
      match ev with
      | Some k => let n := Z.min k (len data) in (Some n, (out ++ take (Z.to_nat n) data, None))
      | None => (None, st)
      end
  end.

Definition vless_write (data : bytes) (ev : option Z) (s : VlessTcpStream) : option Z * VlessTcpStream :=
  let '(r, (out, header)) := header_write data ev (sent s, pending_header s) in
  (r, mkVlessTcp (to_read s) out header (read_buf s) (response_header_skipped s) (raw_buf s)).

(** [TrojanTcpStream] reads what its connection does. *)
Record TrojanTcpStream : Type := mkTrojanTcp { tj_to_read : list bytes; tj_sent : bytes; tj_pending_header : option bytes }.

Definition TrojanTcpStream_new (chunks : list bytes) (header : bytes) : TrojanTcpStream := mkTrojanTcp chunks [] (Some header).

Definition trojan_read (room : Z) (s : TrojanTcpStream) : bytes * TrojanTcpStream :=
  let '(d, chunks) := inner_read room (tj_to_read s) in (d, mkTrojanTcp chunks (tj_sent s) (tj_pending_header s)).

Definition trojan_write (data : bytes) (ev : option Z) (s : TrojanTcpStream) : option Z * TrojanTcpStream :=
  let '(r, (out, header)) := header_write data ev (tj_sent s, tj_pending_header s) in (r, mkTrojanTcp (tj_to_read s) out header).

(** What [write_all] comes to: all written, an error because a write took
    nothing, or still waiting. *)
Inductive write_result : Type := Written | WriteZero | Waiting.

Fixpoint write_all_stream (evs : list (option Z)) (data : bytes) (st : bytes * option bytes) : write_result * (bytes * option bytes) :=
  match data with
  | [] => (Written, st)
  | _ =>
      match evs with
      | [] => (Waiting, st)
      | ev :: evs =>
          match header_write data ev st with
          | (None, st) => write_all_stream evs data st
          | (Some n, st) => if n =? 0 then (WriteZero, st) else write_all_stream evs (drop (Z.to_nat n) data) st
          end
      end
  end.

(** *** Over a WebSocket *)

(** [Message]: what arrives; a control message is [Other]. *)
Inductive Message : Type := Binary (data : bytes) | Close | Other.

Record WsStream : Type := mkWs {
  ws_in : list Message;
  ws_out : list bytes;
  ws_header : option bytes;
  ws_buf : bytes;
  ws_skipped : bool
}.

Definition parse_response_header (buf : bytes) : option Z :=
  if len buf <? 2 then None
  else if negb (byte_at 0 buf =? 0) then None
  else let addon_len := byte_at 1 buf in if len buf <? 2 + addon_len then None else Some (2 + addon_len).

(** The loop over messages; it ends at data, a close or the end. *)
Fixpoint ws_next (skips : bool) (msgs : list Message) (skipped : bool) : bytes * list Message * bool :=
  match msgs with
  | [] => ([], [], skipped)
  | Close :: msgs => ([], msgs, skipped)
  | Other :: msgs => ws_next skips msgs skipped
  | Binary data :: msgs =>
      let buf := if skips && negb skipped then match parse_response_header data with Some n => drop (Z.to_nat n) data | None => data end else data in
      match buf with
      | [] => ws_next skips msgs true
      | _ => (buf, msgs, true)
      end
  end.

(** [skips]: the VLESS stream takes the server's answer off the first message, the Trojan stream does not. *)
Definition ws_read (skips : bool) (room : Z) (s : WsStream) : bytes * WsStream :=
  match ws_buf s with
  | _ :: _ => let '(d, buf) := serve_buf room (ws_buf s) in (d, mkWs (ws_in s) (ws_out s) (ws_header s) buf (ws_skipped s))
  | [] =>
      let '(buf, msgs, skipped) := ws_next skips (ws_in s) (ws_skipped s) in
      let '(d, rest) := serve_buf room buf in
      (d, mkWs msgs (ws_out s) (ws_header s) rest skipped)
  end.

Definition ws_write (data : bytes) (s : WsStream) : Z * WsStream :=
  let payload := match ws_header s with Some h => h ++ data | None => data end in
  (len data, mkWs (ws_in s) (ws_out s ++ [payload]) None (ws_buf s) (ws_skipped s)).

(** ** VLESS *)

(** [u8::from_str_radix(_, 16)] of one digit. *)
Definition hex_value (b : Z) : Z := if is_digit b then b - 48 else if b <? 97 then b - 55 else b - 87.

Fixpoint hex_pairs (ds : bytes) : bytes :=
  match ds with
  | a :: b :: ds => (16 * hex_value a + hex_value b) :: hex_pairs ds
  | _ => []
  end.

Definition parse_uuid (s : str) : option bytes :=
  let hex := List.filter is_hexdigit s in
  if len hex =? 32 then Some (hex_pairs hex) else None.

(** The codes of the address kinds; the port comes before them. *)
Definition VLESS_ATYP : atyps := mkAtyps 1 3 2.

Definition vless_addr (t : Target) : bytes :=
  match t with
  | TDomain host _ => [2; as_u8 (len host)] ++ host
  | TSocket a => match ip a with V4 v => [1] ++ octets (V4 v) | V6 v => [3] ++ octets (V6 v) end
  end.

Definition vless_header (cmd : Z) (uuid : bytes) (t : Target) : bytes :=
  [0] ++ uuid ++ [0; cmd] ++ to_be_bytes 2 (Target_port t) ++ vless_addr t.

(** For a stream, and for datagrams. *)
Definition build_request_header (uuid : bytes) (t : Target) : bytes := vless_header 1 uuid t.
Definition vless_build_udp_request (uuid : bytes) (t : Target) : bytes := vless_header 2 uuid t.

Definition read_vless_addr (port atyp : Z) : wire Target :=
  if atyp =? 1 then let* a := read_exact 4 in WRet (TSocket {| ip := ipv4_of a; sock_port := port |})
  else if atyp =? 2 then
    let* n := read_u8 in
    let* d := read_exact (Z.to_nat n) in
    let* domain := from_utf8 d in
    WRet (TDomain domain port)
  else if atyp =? 3 then let* a := read_exact 16 in WRet (TSocket {| ip := ipv6_of a; sock_port := port |})
  else WFail BadAtyp.

Definition decode_vless_header (users : list bytes) : wire Target :=
  let* ver := read_u8 in
  let* _ := wensure (ver =? 0) BadVersion in
  let* uuid := read_exact 16 in
  let* _ := wensure (bool_decide (uuid ∈ users)) Unauthorized in
  let* addon_len := read_u8 in
  let* _ := (if 0 <? addon_len then let* _ := read_exact (Z.to_nat addon_len) in WRet tt else WRet tt) in
  let* cmd := read_u8 in
  let* _ := wensure (cmd =? 1) BadCommand in
  let* port := read_u16 in
  let* atyp := read_u8 in
  read_vless_addr port atyp.

(** [handle_conn_plain] up to the connection's hand-over to the dispatcher. *)
Definition vless_accept (users : list bytes) : wire Target :=
  let* target := decode_vless_header users in
  let* _ := write_all [0; 0] in
  WRet target.

(** The users of [VlessInbound::run]. *)
Fixpoint vless_users (uuids : list str) : option (list bytes) :=
  match uuids with
  | [] => Some []
  | s :: uuids => match parse_uuid s, vless_users uuids with Some u, Some us => Some (u :: us) | _, _ => None end
  end.

(** *** Datagrams *)

Definition vless_encode_udp_frame (payload : bytes) : bytes := to_be_bytes 2 (as_u16 (len payload)) ++ payload.

Definition vless_decode_udp_frame_len (buf : bytes) : option (Z * Z) :=
  if len buf <? 2 then None else Some (2, from_be_bytes (take 2 buf)).

(** What [handle_udp] delivers from the tunnel until its end, a frame of no bytes,
    or an error. *)
Fixpoint vless_udp_down (fuel : nat) (i : bytes) : run (list bytes * option WireError) :=
  match fuel with
  | O => Stuck
  | S fuel =>
      match vless_decode_udp_frame_len (take 2 i) with
      | None => Ret ([], None)
      | Some (_, data_len) =>
          if data_len =? 0 then Ret ([], None)
          else if len (drop 2 i) <? data_len then Ret ([], Some UnexpectedEof)
          else
            r ← vless_udp_down fuel (drop (Z.to_nat data_len) (drop 2 i));
            Ret (take (Z.to_nat data_len) (drop 2 i) :: r.1, r.2)
      end
  end.

Definition vless_udp_up (payloads : list bytes) : bytes := flat_map vless_encode_udp_frame payloads.

(** ** Trojan *)

Section Trojan.
Context (sha224 : bytes -> bytes).

Definition hex_encode (s : bytes) : bytes := flat_map (fun b => [hex_digit (b / 16); hex_digit (b mod 16)]) s.

(** The outbound's and the inbound's key of a password. *)
Definition derive_key (password : str) : bytes := hex_encode (sha224 password).
Definition sha224_hex (password : str) : bytes := hex_encode (sha224 password).

Definition TROJAN_ATYP : atyps := mkAtyps 1 4 3.
Definition write_addr (t : Target) : bytes := put_addr TROJAN_ATYP t.

Definition build_tcp_header (key : bytes) (t : Target) : bytes := key ++ CRLF ++ [1] ++ write_addr t ++ CRLF.
Definition build_udp_handshake (key : bytes) (t : Target) : bytes := key ++ CRLF ++ [3] ++ write_addr t ++ CRLF.

Definition decode_trojan_header (hashed_passwords : list bytes) : wire Target :=
  let* password_hex := read_exact 56 in
  let* _ := wensure (bool_decide (password_hex ∈ hashed_passwords)) Unauthorized in
  let* crlf := read_exact 2 in
  let* _ := wensure (bool_decide (crlf = CRLF)) BadFraming in
  let* cmd := read_u8 in
  let* _ := wensure (cmd =? 1) BadCommand in
  let* atyp := read_u8 in
  let* target := read_addr TROJAN_ATYP atyp in
  let* crlf := read_exact 2 in
  let* _ := wensure (bool_decide (crlf = CRLF)) BadFraming in
  WRet target.

Definition trojan_users (passwords : list str) : list bytes := map sha224_hex passwords.
End Trojan.

Definition build_udp_frame (t : Target) (data : bytes) : bytes := write_addr t ++ to_be_bytes 2 (as_u16 (len data)) ++ CRLF ++ data.

(** [read_exact] on what is left of the tunnel, whose end is an error. *)
Definition take_exact (n : Z) (i : bytes) : result (bytes * bytes) WireError :=
  if len i <? n then Err UnexpectedEof else Ok (take (Z.to_nat n) i, drop (Z.to_nat n) i).

(** One turn of the reading loop of [handle_udp]: the payload and the rest, or its end. *)
Definition trojan_udp_frame (i : bytes) : result (option (bytes * bytes)) WireError :=
  match i with
  | [] => Ok None
  | atyp :: i =>
      let frame (addr_len : Z) (i : bytes) :=
        r ←! take_exact (addr_len + 2 + 2 + 2) i;
        let data_len := from_be_bytes (take 2 (drop (Z.to_nat (addr_len + 2)) r.1)) in
        if data_len =? 0 then Ok None else d ←! take_exact data_len r.2; Ok (Some d) in
      if atyp =? 1 then frame 4 i
      else if atyp =? 4 then frame 16 i
      else if atyp =? 3 then r ←! take_exact 1 i; frame (byte_at 0 r.1) r.2
      else Ok None
  end.

Fixpoint trojan_udp_down (fuel : nat) (i : bytes) : run (list bytes * option WireError) :=
  match fuel with
  | O => Stuck
  | S fuel =>
      match trojan_udp_frame i with
      | Err e => Ret ([], Some e)
      | Ok None => Ret ([], None)
      | Ok (Some (d, i)) => r ← trojan_udp_down fuel i; Ret (d :: r.1, r.2)
      end
  end.

Definition trojan_udp_up (t : Target) (payloads : list bytes) : bytes := flat_map (build_udp_frame t) payloads.

(** ** Hysteria 2 datagrams, of [proto.rs] *)

Definition HY2_ATYP : atyps := mkAtyps 0 1 2.

Definition hy2_write_addr (t : Target) : bytes := put_addr HY2_ATYP t.
Definition hy2_build_tcp_request (t : Target) : bytes := hy2_write_addr t ++ [0; 0].

Definition hy2_build_udp_datagram (data : bytes) (t : Target) (session_id : Z) : bytes :=
  to_le_bytes 4 session_id ++ [0; 0] ++ [0; 1] ++ hy2_write_addr t ++ data.

Definition hy2_parse_udp_datagram (buf : bytes) : run (result (Z * bytes * Target) WireError) :=
  if len buf <? 8 then Ret (Err UnexpectedEof)
  else
    id ← slice buf 0 4;
    if len buf <=? 8 then Ret (Err UnexpectedEof)
    else
      r ←!! get_addr HY2_ATYP buf 8;
      payload ← slice buf r.2 (len buf);
      Ret (Ok (from_le_bytes id, payload, r.1)).

(** ** Headers *)

Lemma socks_codes : atyps_ok TROJAN_ATYP.
Proof. by vm_compute. Qed.

Definition vless_code (t : Target) : Z := match t with TDomain _ _ => 2 | TSocket a => match ip a with V4 _ => 1 | V6 _ => 3 end end.

Lemma vless_addr_cons t : vless_addr t = vless_code t :: drop 1 (vless_addr t).
Proof. destruct t as [d p|[[v|v] p]]; done. Qed.

Lemma read_vless_addr_plays t : target_ok t -> plays (read_vless_addr (Target_port t) (vless_code t)) (drop 1 (vless_addr t)) t [].
Proof.
  intros Ht. unfold read_vless_addr.
  destruct t as [d p|[[v|v] p]]; cbn [vless_addr vless_code target_ok ip ip_ok sock_port Target_port app drop Z.eqb Pos.eqb] in *.
  - destruct Ht as (Hd & Hu & Hp). rewrite as_u8_small by len_solve. change (len d :: d) with ([len d] ++ d).
    eapply plays_read; [apply plays_u8|]. eapply plays_last; [apply plays_exact; unfold len; lia|].
    eapply plays_pure; [by apply plays_utf8|]. apply plays_ret.
  - destruct Ht as [Hv Hp]. rewrite drop_0. eapply plays_last; [apply plays_exact, length_to_be_bytes|]. rewrite ipv4_of_octets by done. apply plays_ret.
  - destruct Ht as [Hv Hp]. rewrite drop_0. eapply plays_last; [apply plays_exact, length_to_be_bytes|]. rewrite ipv6_of_octets by done. apply plays_ret.
Qed.

Lemma target_port_ok t : target_ok t -> in_width 16 (Target_port t).
Proof. destruct t as [d p|a]; cbn [target_ok Target_port]; tauto. Qed.

(** What is left to decode after the user and the command. *)
Lemma vless_head_run users uuid cmd rest : length uuid = 16%nat -> uuid ∈ users ->
  play (decode_vless_header users) ([0] ++ uuid ++ [0; cmd] ++ rest) =
  play (let* _ := wensure (cmd =? 1) BadCommand in let* port := read_u16 in let* atyp := read_u8 in read_vless_addr port atyp) rest.
Proof.
  intros Hl Hu. unfold decode_vless_header. rewrite (play_pass _ _ _ _ _ (plays_u8 0)), play_check by done.
  rewrite (play_pass _ _ _ _ _ (plays_exact _ _ Hl)), play_check by by apply bool_decide_true.
  change ([0; cmd] ++ rest) with ([0] ++ [cmd] ++ rest). rewrite (play_pass _ _ _ _ _ (plays_u8 0)). cbn [Z.ltb Z.compare].
  change (play (wbind (WRet tt) ?k) ?i) with (play (k tt) i). cbv beta. by rewrite (play_pass _ _ _ _ _ (plays_u8 cmd)).
Qed.

Lemma vless_accept_header users uuid t : length uuid = 16%nat -> uuid ∈ users -> target_ok t ->
  plays (vless_accept users) (build_request_header uuid t) t [0; 0].
Proof.
  intros Hl Hu Ht. assert (plays (decode_vless_header users) (build_request_header uuid t) t []) as Hd.
  { intros rest. unfold build_request_header, vless_header. rewrite <-!app_assoc. change ([0; 1] ++ ?r) with ([0; 1] ++ r). rewrite vless_head_run by done.
    rewrite play_check by done. rewrite (play_pass _ _ _ _ _ (plays_u16 _ (target_port_ok t Ht))), vless_addr_cons.
    change ((?c :: ?r) ++ rest) with ([c] ++ r ++ rest). rewrite (play_pass _ _ _ _ _ (plays_u8 _)). by apply read_vless_addr_plays. }
  unfold vless_accept. eapply plays_last; [exact Hd|]. apply plays_write.
Qed.

Lemma vless_refuses_user users uuid rest : length uuid = 16%nat -> uuid ∉ users ->
  play (vless_accept users) ([0] ++ uuid ++ rest) = (Err Unauthorized, []).
Proof.
  intros Hl Hu. unfold vless_accept, decode_vless_header. rewrite !wbind_assoc, (play_pass _ _ _ _ _ (plays_u8 0)), wbind_assoc, play_check by done.
  rewrite wbind_assoc, (play_pass _ _ _ _ _ (plays_exact _ _ Hl)). by rewrite bool_decide_false.
Qed.

Lemma vless_refuses_udp users uuid t rest : length uuid = 16%nat -> uuid ∈ users ->
  play (vless_accept users) (vless_build_udp_request uuid t ++ rest) = (Err BadCommand, []).
Proof.
  intros Hl Hu. unfold vless_accept. rewrite play_bind. unfold vless_build_udp_request, vless_header. rewrite <-!app_assoc.
  by rewrite (vless_head_run users uuid 2) by done.
Qed.

Lemma play_utf8_Ok s i x r o : play (from_utf8 s) i = (Ok (x, r), o) -> x = s /\ r = i /\ o = [].
Proof. unfold from_utf8. destruct (utf8_valid s); [|done]. by intros [= <- <- <-]. Qed.

Lemma as_u8_bound n : 0 <= as_u8 n < 256.
Proof. unfold as_u8, wrap. apply Z.mod_pos_bound. lia. Qed.

(** A name longer than its length byte never arrives. *)
Lemma vless_long_domain users uuid d p rest r o : length uuid = 16%nat -> uuid ∈ users -> in_width 16 p -> 255 < len d ->
  play (vless_accept users) (build_request_header uuid (TDomain d p) ++ rest) <> (Ok (TDomain d p, r), o).
Proof.
  intros Hl Hu Hp Hd H. unfold vless_accept in H. play_step H. play_step H. injection H as -> -> <-.
  unfold build_request_header, vless_header in P. rewrite <-!app_assoc in P. rewrite vless_head_run in P by done.
  rewrite play_check in P by done. cbn [Target_port vless_addr] in P. rewrite (play_pass _ _ _ _ _ (plays_u16 _ Hp)) in P.
  rewrite <-app_assoc in P. change ([2; as_u8 (len d)] ++ ?q) with ([2] ++ [as_u8 (len d)] ++ q) in P.
  rewrite (play_pass _ _ _ _ _ (plays_u8 _)) in P. change (read_vless_addr p 2) with
    (let* n := read_u8 in let* d := read_exact (Z.to_nat n) in let* domain := from_utf8 d in WRet (TDomain domain p)) in P.
  rewrite (play_pass _ _ _ _ _ (plays_u8 _)) in P. generalize dependent (d ++ rest). intros q P. play_step P. play_step P.
  apply play_utf8_Ok in P0 as (-> & -> & ->). injection P as -> _ _.
  pose proof (as_u8_bound (len d)). unfold len in *. lia.
Qed.

(** ** Trojan headers *)

Section TrojanHeaders.
Context (sha224 : bytes -> bytes) (sha224_len : forall s, length (sha224 s) = 28%nat).

Lemma derive_key_len password : length (derive_key sha224 password) = 56%nat.
Proof.
  unfold derive_key. specialize (sha224_len password). revert sha224_len. generalize (sha224 password) as s.
  assert (forall s, length (hex_encode s) = (2 * length s)%nat) as H by (unfold hex_encode; induction s as [|b s IH]; [done|]; cbn [flat_map app length]; rewrite IH; lia). intros s Hs. rewrite H. lia.
Qed.

Lemma trojan_head_run keys key cmd rest : length key = 56%nat -> key ∈ keys ->
  play (decode_trojan_header keys) (key ++ CRLF ++ [cmd] ++ rest) =
  play (let* _ := wensure (cmd =? 1) BadCommand in
        let* atyp := read_u8 in
        let* target := read_addr TROJAN_ATYP atyp in
        let* crlf := read_exact 2 in
        let* _ := wensure (bool_decide (crlf = CRLF)) BadFraming in
        WRet target) rest.
Proof.
  intros Hl Hk. unfold decode_trojan_header. rewrite (play_pass _ _ _ _ _ (plays_exact _ _ Hl)), play_check by by apply bool_decide_true.
  rewrite (play_pass _ _ _ _ _ (plays_exact 2 CRLF eq_refl)), play_check by done. by rewrite (play_pass _ _ _ _ _ (plays_u8 cmd)).
Qed.

Lemma trojan_header_plays keys key t : length key = 56%nat -> key ∈ keys -> target_ok t ->
  plays (decode_trojan_header keys) (build_tcp_header key t) t [].
Proof.
  intros Hl Hk Ht rest. unfold build_tcp_header. rewrite <-!app_assoc, trojan_head_run, play_check by done.
  unfold write_addr. rewrite put_addr_cons. change ((?c :: ?r) ++ ?q) with ([c] ++ r ++ q). rewrite (play_pass _ _ _ _ _ (plays_u8 _)).
  rewrite (play_pass _ _ _ _ _ (read_addr_plays TROJAN_ATYP t socks_codes Ht)).
  by rewrite (play_pass _ _ _ _ _ (plays_exact 2 CRLF eq_refl)), play_check.
Qed.

Lemma trojan_refuses_user keys key rest : length key = 56%nat -> key ∉ keys ->
  play (decode_trojan_header keys) (key ++ rest) = (Err Unauthorized, []).
Proof.
  intros Hl Hk. unfold decode_trojan_header. rewrite (play_pass _ _ _ _ _ (plays_exact _ _ Hl)). by rewrite bool_decide_false.
Qed.

Lemma trojan_refuses_udp keys key t rest : length key = 56%nat -> key ∈ keys ->
  play (decode_trojan_header keys) (build_udp_handshake key t ++ rest) = (Err BadCommand, []).
Proof. intros Hl Hk. unfold build_udp_handshake. rewrite <-!app_assoc. by rewrite (trojan_head_run keys key 3) by done. Qed.

Lemma trojan_long_domain keys key d p rest r o : length key = 56%nat -> key ∈ keys -> 255 < len d ->
  play (decode_trojan_header keys) (build_tcp_header key (TDomain d p) ++ rest) <> (Ok (TDomain d p, r), o).
Proof.
  intros Hl Hk Hd H. unfold build_tcp_header in H. rewrite <-!app_assoc, trojan_head_run, play_check in H by done.
  unfold write_addr in H. cbn [put_addr TROJAN_ATYP c_domain] in H. rewrite <-!app_assoc in H. change ([3; ?n] ++ ?q) with ([3] ++ [n] ++ q) in H.
  rewrite (play_pass _ _ _ _ _ (plays_u8 _)) in H. change (read_addr TROJAN_ATYP 3) with
    (let* n := read_u8 in let* d := read_exact (Z.to_nat n) in let* port := read_u16 in let* domain := from_utf8 d in WRet (TDomain domain port)) in H.
  rewrite wbind_assoc, (play_pass _ _ _ _ _ (plays_u8 _)) in H. generalize dependent (d ++ to_be_bytes 2 p ++ CRLF ++ rest). intros q H.
  rewrite !wbind_assoc in H. play_step H. rewrite wbind_assoc in H. play_step H. rewrite wbind_assoc in H. play_step H.
  apply play_utf8_Ok in P0 as (-> & -> & ->). cbn [wbind] in H. do 2 play_step H. injection H as -> _ _ _.
  pose proof (as_u8_bound (len d)). unfold len in *. lia.
Qed.
End TrojanHeaders.

(** ** Reading through the streams *)

Definition nonempty_chunks (chunks : list bytes) : Prop := Forall (fun c => c <> []) chunks.

Lemma inner_read_spec room chunks d cs : 0 < room -> nonempty_chunks chunks -> inner_read room chunks = (d, cs) ->
  d ++ concat cs = concat chunks /\ nonempty_chunks cs /\ (d = [] -> chunks = []).
Proof.
  intros Hr Hc. destruct chunks as [|c chunks]; cbn [inner_read]; [by intros [= <- <-]|]. apply Forall_cons in Hc as [Hne Hc].
  set (n := Z.to_nat _). intros [= <- <-]. assert (Hn : (0 < n)%nat) by (destruct c as [|b c]; [done|]; unfold n; len_solve).
  pose proof (take_drop n c) as Htd. split_and!.
  - cbn [concat]. replace (c ++ concat chunks) with (take n c ++ drop n c ++ concat chunks) by (by rewrite app_assoc, Htd). f_equal. by destruct (drop n c).
  - unfold nonempty_chunks. destruct (drop n c); [done|]. by constructor.
  - clearbody n. intros E. destruct c as [|b c]; [done|]. destruct n; [lia|done].
Qed.

(** A reader that hands out what is left of its source, in order and to the end,
    is copied whole. *)
Lemma copy_half_all {S} (read : Z -> S -> bytes * S) (I : S -> Prop) (left : S -> bytes) :
  (forall s d s', I s -> read BUF_SIZE s = (d, s') -> if bool_decide (d = []) then left s = [] else I s' /\ left s = d ++ left s') ->
  forall fuel s, I s -> (length (left s) < fuel)%nat -> exists s', copy_half read fuel s = Ret (left s, s').
Proof.
  intros Hr. induction fuel as [|fuel IH]; intros s Hs Hf; [lia|]. cbn [copy_half]. destruct (read BUF_SIZE s) as [d s'] eqn:E.
  specialize (Hr s d s' Hs E). destruct d as [|b d]; [rewrite bool_decide_true in Hr by done; rewrite Hr; by eexists|].
  rewrite bool_decide_false in Hr by done. destruct Hr as [Hs' Hl].
  rewrite Hl in Hf |- *. cbn [app length] in Hf. rewrite length_app in Hf. destruct (IH s' Hs') as (s2 & ->); [lia|]. by eexists.
Qed.

Lemma copy_run_all {S E} (read : Z -> S -> run (result bytes E * S)) (R : S -> bytes -> Prop) :
  (forall s l, R s l -> exists x s', read BUF_SIZE s = Ret (Ok x, s') /\ ((x = [] /\ l = []) \/ (x <> [] /\ exists l', l = x ++ l' /\ R s' l'))) ->
  forall fuel s l, R s l -> (length l < fuel)%nat -> exists s', copy_run read fuel s = Ret (l, s').
Proof.
  intros Hr. induction fuel as [|fuel IH]; intros s l HR Hf; [lia|]. cbn [copy_run].
  destruct (Hr s l HR) as (x & s' & -> & [[-> ->]|(Hx & l' & -> & HR')]); rewrite bind_Ret; [by eexists|].
  destruct x as [|b x]; [done|]. destruct (IH s' l' HR') as (s2 & ->); [cbn [app length] in Hf; rewrite length_app in Hf; lia|].
  by eexists.
Qed.

Lemma read_case (d : bytes) (P Q : Prop) : (d = [] -> P) -> Q -> if bool_decide (d = []) then P else Q.
Proof. intros HP HQ. destruct (bool_decide_reflect (d = [])); auto. Qed.

Lemma serve_buf_spec room buf d r : 0 < room -> serve_buf room buf = (d, r) -> d ++ r = buf /\ (d = [] -> buf = []).
Proof.
  intros Hr. unfold serve_buf. set (n := Z.to_nat _). intros [= <- <-]. split; [apply take_drop|].
  intros E. destruct buf as [|b buf]; [done|]. assert (0 < n)%nat by (unfold n; len_solve). clearbody n. destruct n; [lia|done].
Qed.

(** Once the answer has been taken off. *)
Lemma vless_copy_rest fuel s : response_header_skipped s = true -> nonempty_chunks (to_read s) ->
  (length (read_buf s ++ concat (to_read s)) < fuel)%nat -> exists s', copy_half vless_read fuel s = Ret (read_buf s ++ concat (to_read s), s').
Proof.
  intros Hk Hc Hf. apply (copy_half_all vless_read (fun s => response_header_skipped s = true /\ nonempty_chunks (to_read s)) (fun s => read_buf s ++ concat (to_read s))); [|done|done].
  clear. intros [chunks out h buf skipped raw] d s' [Hk Hc]. cbn in Hk, Hc. subst skipped. unfold vless_read. cbn [read_buf to_read response_header_skipped raw_buf negb].
  destruct buf as [|b buf].
  - destruct (inner_read BUF_SIZE chunks) as [x cs] eqn:E. intros [= <- <-]. cbn. apply inner_read_spec in E as (E & Hcs & Hd); [|done|done].
    apply read_case; [intros Hx; by rewrite Hd|done].
  - destruct (serve_buf BUF_SIZE (b :: buf)) as [x r] eqn:E. intros [= <- <-]. cbn. apply serve_buf_spec in E as (E & Hd); [|done].
    apply read_case; [intros Hx; by apply Hd in Hx|]. split; [done|]. by rewrite app_assoc, E.
Qed.

(** What is relayed to the client, by the first read of the connection. *)
Lemma vless_download chunks header v addon payload fuel : nonempty_chunks chunks ->
  concat chunks = [v; len addon] ++ addon ++ payload -> (length (concat chunks) < fuel)%nat ->
  exists s', copy_half vless_read fuel (VlessTcpStream_new chunks header) =
    Ret (if 2 + len addon <? Z.min 512 (len (hd [] chunks)) then payload else [], s').
Proof.
  intros Hc Hcat Hf. destruct fuel as [|fuel]; [lia|]. destruct chunks as [|c chunks]; [done|].
  cbn [copy_half]. unfold vless_read at 1, VlessTcpStream_new. cbn [read_buf response_header_skipped negb to_read raw_buf hd app].
  destruct (inner_read 512 (c :: chunks)) as [filled cs] eqn:E.
  assert (Hlen : len filled = Z.min 512 (len c)) by (cbn [inner_read] in E; injection E as <- _; unfold len; rewrite length_take; lia).
  apply inner_read_spec in E as (E & Hcs & Hd); [|lia|done]. rewrite <-Hlen.
  destruct filled as [|b0 filled]; [by specialize (Hd eq_refl)|]. rewrite Hcat in E.
  destruct filled as [|n f].
  { change (2 <=? len [b0]) with false. cbn [andb]. rewrite (proj2 (Z.ltb_ge _ _)) by len_solve. by eexists. }
  cbn [app] in E. injection E as -> -> E. change (byte_at 1 (v :: len addon :: f)) with (len addon).
  assert (Hl2 : len (v :: len addon :: f) = 2 + len f) by len_solve. rewrite Hl2. pose proof (len_nonneg f) as Hf0. rewrite (proj2 (Z.leb_le 2 _)) by lia. cbn [andb].
  destruct (Z.leb_spec (2 + len addon) (2 + len f)) as [Hle|Hgt]; [|rewrite (proj2 (Z.ltb_ge _ _)) by lia; by eexists].
  replace (Z.to_nat (2 + len addon)) with (Datatypes.S (Datatypes.S (length addon))) by (unfold len; lia). cbn [drop].
  assert (Hp : drop (length addon) f ++ concat cs = payload).
  { rewrite <-drop_app_le by (unfold len in Hle; lia). by rewrite E, drop_app_length. }
  assert (Hpl : len (drop (length addon) f) = len f - len addon) by (unfold len in *; rewrite length_drop; lia).
  destruct (serve_buf BUF_SIZE (drop (length addon) f)) as [d r] eqn:Es. apply serve_buf_spec in Es as (Es & Hd'); [|done].
  destruct d as [|x d].
  { rewrite Hd' in Hpl by done. change (len (@nil Z)) with 0 in Hpl. rewrite (proj2 (Z.ltb_ge _ _)) by lia. by eexists. }
  assert (0 < len (drop (length addon) f)) by (rewrite <-Es; len_solve). rewrite (proj2 (Z.ltb_lt _ _)) by lia.
  destruct (vless_copy_rest fuel (with_read (mkVlessTcp (c :: chunks) [] (Some header) [] false []) cs r true [])) as (s' & ->); [done|done| |].
  - cbn [read_buf to_read with_read]. rewrite Hcat, !length_app in Hf. cbn [length] in Hf.
    apply (f_equal length) in Hp. rewrite <-Es, !length_app in Hp. cbn [length] in Hp. rewrite length_app. lia.
  - rewrite bind_Ret. cbn [fst snd read_buf to_read with_read]. rewrite <-Hp, <-Es. eexists. by rewrite <-app_assoc.
Qed.

(** Over a WebSocket: the bytes of the binary messages up to a close, the answer
    taken off the first one if it is there whole. *)
Fixpoint ws_data (msgs : list Message) : bytes :=
  match msgs with
  | [] | Close :: _ => []
  | Other :: msgs => ws_data msgs
  | Binary d :: msgs => d ++ ws_data msgs
  end.

Definition without_answer (d : bytes) : bytes := match parse_response_header d with Some n => drop (Z.to_nat n) d | None => d end.

Fixpoint ws_stream (skips : bool) (msgs : list Message) : bytes :=
  match msgs with
  | [] | Close :: _ => []
  | Other :: msgs => ws_stream skips msgs
  | Binary d :: msgs => (if skips then without_answer d else d) ++ ws_data msgs
  end.

Definition ws_left (skips : bool) (s : WsStream) : bytes := ws_buf s ++ ws_stream (skips && negb (ws_skipped s)) (ws_in s).

Lemma ws_stream_no msgs : ws_stream false msgs = ws_data msgs.
Proof. induction msgs as [|[d| |] msgs IH]; cbn; by rewrite ?IH. Qed.

Lemma ws_next_spec skips msgs skipped b m k : ws_next skips msgs skipped = (b, m, k) ->
  if bool_decide (b = []) then ws_stream (skips && negb skipped) msgs = []
  else ws_stream (skips && negb skipped) msgs = b ++ ws_stream (skips && negb k) m.
Proof.
  revert skipped. induction msgs as [|[d| |] msgs IH]; intros skipped; cbn [ws_next ws_stream]; [by intros [= <- <- <-]| |by intros [= <- <- <-]|apply IH].
  fold (without_answer d). set (x := if skips && negb skipped then without_answer d else d). destruct x as [|y x'] eqn:Ex.
  - intros H. apply IH in H. cbn [negb] in H. rewrite andb_false_r, ws_stream_no in H. done.
  - intros [= <- <- <-]. cbn [negb]. by rewrite bool_decide_false, andb_false_r, ws_stream_no by done.
Qed.

Lemma ws_download skips fuel s : (length (ws_left skips s) < fuel)%nat -> exists s', copy_half (ws_read skips) fuel s = Ret (ws_left skips s, s').
Proof.
  intros Hf. apply (copy_half_all (ws_read skips) (fun _ => True) (ws_left skips)); [|done|done].
  clear. intros [msgs out h buf k] d s' _. unfold ws_read, ws_left. cbn [ws_buf ws_in ws_skipped ws_out ws_header].
  destruct buf as [|b buf].
  - destruct (ws_next skips msgs k) as [[x m] k'] eqn:En. apply ws_next_spec in En. destruct (serve_buf BUF_SIZE x) as [y r] eqn:Es.
    apply serve_buf_spec in Es as (Es & Hx); [|done]. intros [= <- <-]. cbn [ws_buf ws_in ws_skipped app]. destruct y as [|y0 y].
    + rewrite Hx in En by done. done.
    + rewrite bool_decide_false in En by (rewrite <-Es; done). split; [done|]. rewrite En, <-Es. by rewrite <-app_assoc.
  - destruct (serve_buf BUF_SIZE (b :: buf)) as [y r] eqn:Es. apply serve_buf_spec in Es as (Es & Hx); [|done]. intros [= <- <-].
    cbn [ws_buf ws_in ws_skipped]. apply read_case; [intros Hy; by apply Hx in Hy|]. split; [done|]. by rewrite app_assoc, Es.
Qed.

(** Reading sends nothing: a client that waits for the server's first word waits for ever. *)
Lemma copy_half_keeps {S} (read : Z -> S -> bytes * S) {T} (f : S -> T) fuel s r s' : (forall room s, f (read room s).2 = f s) ->
  copy_half read fuel s = Ret (r, s') -> f s' = f s.
Proof.
  intros Hf. revert s r. induction fuel as [|fuel IH]; intros s r; [done|]. cbn [copy_half]. pose proof (Hf BUF_SIZE s) as Hs.
  destruct (read BUF_SIZE s) as [d s1]. cbn [snd] in Hs. destruct d as [|b d]; [intros [= <- <-]; done|].
  destruct (copy_half read fuel s1) as [[r1 s2]| |] eqn:E; [|done|done]. rewrite bind_Ret. intros [= <- <-]. cbn [snd]. rewrite <-Hs. by eapply IH.
Qed.

Lemma vless_read_sends_nothing room s : (fun s => (sent s, pending_header s)) (vless_read room s).2 = (fun s => (sent s, pending_header s)) s.
Proof.
  unfold vless_read. destruct (read_buf s); [|by destruct (serve_buf room _)]. destruct (negb _); [|by destruct (inner_read room _)].
  destruct (inner_read 512 _) as [[|x l] cs]; [done|]. case_if; [|done]. by destruct (serve_buf room _).
Qed.

(** ** Writing through the streams *)

Definition live_events (evs : list (option Z)) : Prop := Forall (fun ev => match ev with Some k => 0 < k | None => True end) evs.

Fixpoint first_accepted (evs : list (option Z)) : option Z :=
  match evs with
  | [] => None
  | Some k :: _ => Some k
  | None :: evs => first_accepted evs
  end.

Lemma write_plain evs data out r st : live_events evs -> write_all_stream evs data (out, None) = (r, st) ->
  r <> WriteZero /\ (r = Written -> st.1 = out ++ data).
Proof.
  revert data out. induction evs as [|[k|] evs IH]; intros [|b data] out Hl; try (intros [= <- <-]; cbn [fst]; by rewrite ?app_nil_r).
  - apply Forall_cons in Hl as [Hk Hl]. cbn [write_all_stream header_write]. set (n := Z.min k (len (b :: data))).
    assert (0 < n) as Hn by (unfold n; len_solve). rewrite (proj2 (Z.eqb_neq _ _)) by lia. intros H. apply IH in H as [Hz Hw]; [|done].
    split; [done|]. intros Hr. rewrite (Hw Hr), <-app_assoc. by rewrite take_drop.
  - apply Forall_cons in Hl as [_ Hl]. cbn [write_all_stream header_write]. by apply IH.
Qed.

(** The first write carries the header; what of it counts decides. *)
Lemma header_upload header data evs r st : data <> [] -> live_events evs -> write_all_stream evs data ([], Some header) = (r, st) ->
  match first_accepted evs with
  | None => r = Waiting /\ st.1 = []
  | Some k =>
      if len header <? k then r <> WriteZero /\ (r = Written -> st.1 = header ++ data)
      else r = WriteZero /\ st.1 = take (Z.to_nat k) header
  end.
Proof.
  intros Hd. induction evs as [|[k|] evs IH]; intros Hl; destruct data as [|b data]; try done.
  - by intros [= <- <-].
  - apply Forall_cons in Hl as [Hk Hl]. cbn [write_all_stream header_write first_accepted]. set (n := Z.min k (len (header ++ b :: data))).
    assert (Hn : n = Z.min k (len header + len (b :: data))) by (unfold n; by rewrite len_app). clearbody n.
    assert (0 < len (b :: data)) by len_solve. pose proof (len_nonneg header). destruct (Z.ltb_spec (len header) k) as [Hk'|Hk'].
    + rewrite (proj2 (Z.leb_le _ _)), (proj2 (Z.eqb_neq _ _)) by lia. intros H'. apply write_plain in H' as [Hz Hw]; [|done]. split; [done|].
      intros Hr. rewrite (Hw Hr). cbn [app]. replace (Z.to_nat n) with (length header + Z.to_nat (n - len header))%nat by (unfold len in *; lia).
      rewrite take_app_add, <-app_assoc. by rewrite take_drop.
    + assert ((if len header <=? n then n - len header else 0) = 0) as -> by (destruct (Z.leb_spec (len header) n); lia). cbn [Z.eqb].
      intros [= <- <-]. split; [done|]. cbn [fst app]. replace n with k by lia. apply take_app_le. unfold len in *. lia.
  - apply Forall_cons in Hl as [_ Hl]. cbn [write_all_stream header_write first_accepted]. by apply IH.
Qed.

(** ** Datagrams in a tunnel *)

(** The payloads before the first empty one. *)
Fixpoint until_empty (ps : list bytes) : list bytes :=
  match ps with
  | [] | [] :: _ => []
  | p :: ps => p :: until_empty ps
  end.

Definition frames_ok (ps : list bytes) : Prop := Forall (fun p : bytes => len p <= 65535) ps.

Lemma frame_len (p : bytes) : len p <= 65535 -> from_be_bytes (to_be_bytes 2 (as_u16 (len p))) = len p.
Proof. intros Hp. pose proof (len_nonneg p). unfold as_u16, wrap. rewrite Z.mod_small by lia. apply from_to_be_bytes_id. cbn. lia. Qed.

Lemma take2 (l r : bytes) : length l = 2%nat -> take 2 (l ++ r) = l /\ drop 2 (l ++ r) = r.
Proof. intros <-. by rewrite take_app_length, drop_app_length. Qed.

Lemma vless_udp_frames ps fuel : frames_ok ps -> (length ps < fuel)%nat -> vless_udp_down fuel (vless_udp_up ps) = Ret (until_empty ps, None).
Proof.
  revert fuel. induction ps as [|p ps IH]; intros [|fuel] Hp Hf; try (cbn in Hf; lia); [done|]. apply Forall_cons in Hp as [Hp Hps].
  cbn [vless_udp_down]. unfold vless_udp_up. cbn [flat_map]. fold (vless_udp_up ps). unfold vless_encode_udp_frame. rewrite <-app_assoc.
  destruct (take2 (to_be_bytes 2 (as_u16 (len p))) (p ++ vless_udp_up ps)) as [-> ->]; [apply length_to_be_bytes|].
  unfold vless_decode_udp_frame_len. rewrite len_to_be_bytes. change (Z.of_nat 2 <? 2) with false. cbv iota.
  rewrite firstn_all2 by (by rewrite length_to_be_bytes). rewrite frame_len by done. destruct p as [|b p]; [done|].
  pose proof (len_nonneg (vless_udp_up ps)). rewrite (proj2 (Z.eqb_neq _ _)), (proj2 (Z.ltb_ge _ _)) by len_solve. cbn [until_empty].
  replace (Z.to_nat (len (b :: p))) with (length (b :: p)) by (unfold len; lia). rewrite take_app_length, drop_app_length, IH by (done || cbn in Hf; lia). done.
Qed.

Lemma vless_udp_returns i fuel : (length i < fuel)%nat -> returns (vless_udp_down fuel i).
Proof.
  revert i. induction fuel as [|fuel IH]; intros i Hf; [lia|]. cbn [vless_udp_down]. destruct (vless_decode_udp_frame_len (take 2 i)) as [[h n]|] eqn:E; [|by eexists].
  destruct (n =? 0) eqn:En; [by eexists|]. case_if; [by eexists|]. reflect_bools. unfold vless_decode_udp_frame_len in E. destruct (len (take 2 i) <? 2) eqn:El; [done|]. reflect_bools.
  destruct (IH (drop (Z.to_nat n) (drop 2 i))) as [r ->]; [|by eexists]. unfold len in El. rewrite length_take in El. rewrite !length_drop. lia.
Qed.

Lemma take_exact_app n (l r : bytes) : len l = n -> take_exact n (l ++ r) = Ok (l, r).
Proof.
  intros <-. unfold take_exact. rewrite len_app, (proj2 (Z.ltb_ge _ _)) by (pose proof (len_nonneg r); lia).
  replace (Z.to_nat (len l)) with (length l) by (unfold len; lia). by rewrite take_app_length, drop_app_length.
Qed.

Lemma trojan_frame_body addr port p rest n : len addr = n -> len port = 2 -> len p <= 65535 ->
  (r ←! take_exact (n + 2 + 2 + 2) ((addr ++ port ++ to_be_bytes 2 (as_u16 (len p)) ++ CRLF) ++ p ++ rest);
   let data_len := from_be_bytes (take 2 (drop (Z.to_nat (n + 2)) r.1)) in
   if data_len =? 0 then Ok None else d ←! take_exact data_len r.2; Ok (Some d)) =
  Ok (match p with [] => None | _ => Some (p, rest) end).
Proof.
  intros Ha Hport Hp. rewrite take_exact_app by (rewrite !len_app, len_to_be_bytes, Ha, Hport; change (len CRLF) with 2; lia).
  cbn [result_bind fst snd]. rewrite app_assoc. replace (Z.to_nat (n + 2)) with (length (addr ++ port)) by (rewrite length_app; unfold len in *; lia).
  rewrite drop_app_length. destruct (take2 (to_be_bytes 2 (as_u16 (len p))) CRLF) as [-> _]; [apply length_to_be_bytes|]. rewrite frame_len by done.
  destruct p as [|b p]; [done|]. rewrite (proj2 (Z.eqb_neq _ _)) by len_solve. by rewrite take_exact_app.
Qed.

Lemma trojan_frame t p rest : target_ok t -> len p <= 65535 ->
  trojan_udp_frame (build_udp_frame t p ++ rest) = Ok (match p with [] => None | _ => Some (p, rest) end).
Proof.
  intros Ht Hp. unfold build_udp_frame, write_addr. set (x := to_be_bytes 2 (as_u16 (len p))).
  destruct t as [d port|[[v|v] port]]; cbn [put_addr ip sock_port TROJAN_ATYP c_v4 c_v6 c_domain app trojan_udp_frame Z.eqb Pos.eqb target_ok] in *.
  - destruct Ht as (Hd & _ & _). rewrite as_u8_small by len_solve. unfold take_exact at 1.
    rewrite (proj2 (Z.ltb_ge _ _)) by (cbn [app]; rewrite len_cons; match goal with |- context [1 + len ?l] => pose proof (len_nonneg l) end; lia).
    cbn [result_bind fst snd Z.to_nat Pos.to_nat Pos.iter_op take drop]. change (byte_at 0 [len d]) with (len d).
    rewrite <-(trojan_frame_body d (to_be_bytes 2 port) p rest (len d) eq_refl (len_to_be_bytes 2 port) Hp). do 2 f_equal; try (subst x; app_eq).
  - rewrite <-(trojan_frame_body (octets (V4 v)) (to_be_bytes 2 port) p rest 4 (len_addr_octets _) (len_to_be_bytes 2 port) Hp). do 2 f_equal; try (subst x; app_eq).
  - rewrite <-(trojan_frame_body (octets (V6 v)) (to_be_bytes 2 port) p rest 16 (len_addr_octets _) (len_to_be_bytes 2 port) Hp). do 2 f_equal; try (subst x; app_eq).
Qed.

Lemma trojan_udp_frames t ps fuel : target_ok t -> frames_ok ps -> (length ps < fuel)%nat ->
  trojan_udp_down fuel (trojan_udp_up t ps) = Ret (until_empty ps, None).
Proof.
  intros Ht. revert fuel. induction ps as [|p ps IH]; intros [|fuel] Hp Hf; try (cbn in Hf; lia); [done|]. apply Forall_cons in Hp as [Hp Hps].
  cbn [trojan_udp_down]. unfold trojan_udp_up. cbn [flat_map]. fold (trojan_udp_up t ps). rewrite trojan_frame by done.
  destruct p as [|b p]; [done|]. rewrite IH by (done || cbn in Hf; lia). done.
Qed.

Lemma take_exact_shorter n i d r : take_exact n i = Ok (d, r) -> (length r <= length i)%nat.
Proof. unfold take_exact. case_if; [done|]. intros [= _ <-]. rewrite length_drop. lia. Qed.

Lemma trojan_udp_returns i fuel : (length i < fuel)%nat -> returns (trojan_udp_down fuel i).
Proof.
  revert i. induction fuel as [|fuel IH]; intros i Hf; [lia|]. cbn [trojan_udp_down].
  destruct (trojan_udp_frame i) as [[[d r]|]|e] eqn:E; [|by eexists..].
  destruct (IH r) as [x ->]; [|by eexists]. destruct i as [|atyp i]; [done|]. cbn [trojan_udp_frame length] in *.
  assert (Hfr : forall n j, (length j <= length i)%nat -> (r ←! take_exact (n + 2 + 2 + 2) j;
     let data_len := from_be_bytes (take 2 (drop (Z.to_nat (n + 2)) r.1)) in
     if data_len =? 0 then Ok None else d ←! take_exact data_len r.2; Ok (Some d)) = Ok (Some (d, r)) -> (length r <= length i)%nat).
  { intros n j Hj. destruct (take_exact (n + 2 + 2 + 2) j) as [[a b]|] eqn:E1; [|done]. apply take_exact_shorter in E1. cbn [result_bind fst snd].
    case_if; [done|]. destruct (take_exact _ b) as [[a' b']|] eqn:E2; [|done]. apply take_exact_shorter in E2. cbn [result_bind]. intros [= -> ->]. lia. }
  destruct (atyp =? 1); [apply Hfr in E; lia|]. destruct (atyp =? 4); [apply Hfr in E; lia|]. destruct (atyp =? 3); [|done].
  destruct (take_exact 1 i) as [[a b]|] eqn:E1; [|done]. apply take_exact_shorter in E1. cbn [result_bind fst snd] in E. apply Hfr in E; lia.
Qed.

(** ** Hysteria 2 datagrams *)

Lemma hy2_codes : atyps_ok HY2_ATYP.
Proof. by vm_compute. Qed.

Lemma hy2_roundtrip data t id : target_ok t -> in_width 32 id ->
  hy2_parse_udp_datagram (hy2_build_udp_datagram data t id) = Ret (Ok (id, data, t)).
Proof.
  intros Ht Hid. unfold hy2_parse_udp_datagram, hy2_build_udp_datagram, hy2_write_addr.
  set (pre := to_le_bytes 4 id ++ [0; 0] ++ [0; 1]). set (a := put_addr HY2_ATYP t).
  assert (Hpre : len pre = 8) by (unfold pre; rewrite !len_app, len_to_le_bytes; done).
  replace (to_le_bytes 4 id ++ [0; 0] ++ [0; 1] ++ a ++ data) with (pre ++ a ++ data) by (unfold pre; app_eq).
  assert (Ha : 0 < len a) by (unfold a; rewrite put_addr_cons, len_cons; pose proof (len_nonneg (drop 1 (put_addr HY2_ATYP t))); lia).
  pose proof (len_nonneg data). rewrite !len_app, Hpre, (proj2 (Z.ltb_ge _ _)), (proj2 (Z.leb_gt _ _)) by lia.
  rewrite (slice_seg _ [] (to_le_bytes 4 id) ([0; 0] ++ [0; 1] ++ a ++ data)) by (done || unfold pre; app_eq). rewrite bind_Ret.
  pose proof (get_put_addr HY2_ATYP t pre data hy2_codes Ht) as Hg. rewrite Hpre in Hg. fold a in Hg. unfold try_bind. rewrite Hg, bind_Ret. cbn [fst snd].
  rewrite (slice_seg _ (pre ++ a) data []) by (rewrite ?len_app, ?app_nil_r, <-?app_assoc; done || lia). rewrite bind_Ret.
  rewrite from_to_le_bytes_id by (unfold in_width in Hid; cbn; lia). done.
Qed.

Lemma hy2_returns buf : bytes_ok buf -> returns (hy2_parse_udp_datagram buf).
Proof.
  intros Hb. unfold hy2_parse_udp_datagram. case_if; reflect_bools; [by eexists|]. destruct (slice_returns buf 0 4) as [i ->]; [lia..|]. rewrite bind_Ret.
  case_if; reflect_bools; [by eexists|]. destruct (get_addr_returns HY2_ATYP buf 8) as (r & Hr & Hn); [lia|done|]. unfold try_bind. rewrite Hr, bind_Ret.
  destruct r as [[t n]|e]; [|by eexists]. specialize (Hn t n eq_refl). cbn [fst snd]. destruct (slice_returns buf n (len buf)) as [d ->]; [lia..|]. by eexists.
Qed.

(** ** User identifiers *)

Lemma hex_digit_value d : 0 <= d < 16 -> is_hexdigit (hex_digit d) = true /\ hex_value (hex_digit d) = d.
Proof.
  intros Hd. assert (Forall (fun d => is_hexdigit (hex_digit d) = true /\ hex_value (hex_digit d) = d) (seqZ 0 16)) as H
    by (apply (bool_decide_unpack _); vm_compute; exact I).
  rewrite Forall_forall in H. apply H, elem_of_seqZ. lia.
Qed.

(** Whatever stands between the digits, hyphens or anything else. *)
Lemma parse_uuid_text u s : bytes_ok u -> length u = 16%nat -> List.filter is_hexdigit s = hex_encode u -> parse_uuid s = Some u.
Proof.
  intros Hb Hl Hs. unfold parse_uuid. rewrite Hs.
  assert (Hlen : forall v, length (hex_encode v) = (2 * length v)%nat) by (unfold hex_encode; induction v as [|b v IH]; [done|]; cbn [flat_map app length]; rewrite IH; lia).
  assert (Hback : forall v, bytes_ok v -> hex_pairs (hex_encode v) = v).
  { unfold hex_encode. induction v as [|b v IH]; [done|]. intros [Hb1 Hv]%Forall_cons. cbn [flat_map app hex_pairs]. rewrite IH by done. f_equal.
    unfold is_byte in Hb1. pose proof (Z.div_mod b 16 ltac:(lia)). pose proof (Z.mod_pos_bound b 16 ltac:(lia)).
    pose proof (Z.div_pos b 16 ltac:(lia) ltac:(lia)). pose proof (Z.div_lt_upper_bound b 16 16 ltac:(lia) ltac:(lia)).
    rewrite (proj2 (hex_digit_value (b / 16) ltac:(lia))), (proj2 (hex_digit_value (b mod 16) ltac:(lia))). lia. }
  unfold len. rewrite Hlen, Hl, Hback by done. done.
Qed.

Example parse_uuid_canonical : parse_uuid (lit "aaaaaaaa-bbbb-cccc-dddd-eeeeeeeeeeee") =
  Some [0xaa; 0xaa; 0xaa; 0xaa; 0xbb; 0xbb; 0xcc; 0xcc; 0xdd; 0xdd; 0xee; 0xee; 0xee; 0xee; 0xee; 0xee].
Proof. reflexivity. Qed.

(** ** The statements *)

(** C9. A VLESS or Trojan server decodes the header its own outbound builds to the
    same target and leaves the payload that follows it untouched; an unknown user
    or password is refused after it has been read, with nothing written; the header
    for datagrams, which both outbounds send, is refused by both servers. *)
Theorem tunnel_headers sha224 users uuid password passwords t payload rest : (forall s, length (sha224 s) = 28%nat) ->
  length uuid = 16%nat -> target_ok t ->
  (uuid ∈ users ->
    play (vless_accept users) (build_request_header uuid t ++ payload) = (Ok (t, payload), [0; 0]) /\
    play (vless_accept users) (vless_build_udp_request uuid t ++ payload) = (Err BadCommand, [])) /\
  (uuid ∉ users -> play (vless_accept users) ([0] ++ uuid ++ rest) = (Err Unauthorized, [])) /\
  (password ∈ passwords ->
    play (decode_trojan_header (trojan_users sha224 passwords)) (build_tcp_header (derive_key sha224 password) t ++ payload) = (Ok (t, payload), []) /\
    play (decode_trojan_header (trojan_users sha224 passwords)) (build_udp_handshake (derive_key sha224 password) t ++ payload) = (Err BadCommand, [])) /\
  (derive_key sha224 password ∉ trojan_users sha224 passwords ->
    play (decode_trojan_header (trojan_users sha224 passwords)) (derive_key sha224 password ++ rest) = (Err Unauthorized, [])).
Proof.
  intros Hsha Hl Ht. assert (Hin : password ∈ passwords -> derive_key sha224 password ∈ trojan_users sha224 passwords).
  { intros H. unfold trojan_users. apply list_elem_of_fmap. by exists password. }
  pose proof (derive_key_len sha224 Hsha password). split_and!; [|by apply vless_refuses_user| |by apply trojan_refuses_user].
  - split; [by apply vless_accept_header|by apply vless_refuses_udp].
  - split; [apply trojan_header_plays; auto|apply trojan_refuses_udp; auto].
Qed.

(** C29. A domain name reaches the server through a VLESS or Trojan header exactly if it
    fits the byte its length is put into: a name of at most 255 bytes arrives as it
    is, and no longer name ever does, the length having wrapped. *)
Theorem domain_length_bound sha224 users uuid password passwords d p payload : (forall s, length (sha224 s) = 28%nat) ->
  length uuid = 16%nat -> uuid ∈ users -> password ∈ passwords -> utf8_valid d = true -> in_width 16 p ->
  ((exists r o, play (vless_accept users) (build_request_header uuid (TDomain d p) ++ payload) = (Ok (TDomain d p, r), o)) <-> len d <= 255) /\
  ((exists r o, play (decode_trojan_header (trojan_users sha224 passwords)) (build_tcp_header (derive_key sha224 password) (TDomain d p) ++ payload) =
     (Ok (TDomain d p, r), o)) <-> len d <= 255).
Proof.
  intros Hsha Hl Hu Hpw Hd Hp. assert (Hin : derive_key sha224 password ∈ trojan_users sha224 passwords).
  { unfold trojan_users. apply list_elem_of_fmap. by exists password. }
  pose proof (derive_key_len sha224 Hsha password) as Hk. split; split.
  - intros (r & o & H). apply Z.le_ngt. intros Hlong. by apply vless_long_domain in H.
  - intros Hs. exists payload, [0; 0]. by apply vless_accept_header.
  - intros (r & o & H). apply Z.le_ngt. intros Hlong. by apply trojan_long_domain in H.
  - intros Hs. exists payload, []. by apply trojan_header_plays.
Qed.

Lemma tunnel_headers_witness :
  let sha224 (_ : bytes) := repeat 7 28 in
  let uuid := repeat 5 16 in
  let t := TDomain (lit "example.com") 443 in
  play (vless_accept [uuid]) (build_request_header uuid t ++ lit "hi") = (Ok (t, lit "hi"), [0; 0]) /\
  play (decode_trojan_header (trojan_users sha224 [lit "pw"])) (build_tcp_header (derive_key sha224 (lit "pw")) t ++ lit "hi") = (Ok (t, lit "hi"), []).
Proof.
  intros sha224 uuid t.
  destruct (tunnel_headers sha224 [uuid] uuid (lit "pw") [lit "pw"] t (lit "hi") [] (fun _ => eq_refl) eq_refl) as (H1 & _ & H2 & _);
    [apply (bool_decide_unpack _); vm_compute; exact I|].
  split; [apply H1|apply H2]; constructor.
Defined.

Lemma domain_length_bound_witness :
  let sha224 (_ : bytes) := repeat 7 28 in
  let uuid := repeat 5 16 in
  ~ exists r o, play (vless_accept [uuid]) (build_request_header uuid (TDomain (repeat 97 256) 443)) = (Ok (TDomain (repeat 97 256) 443, r), o).
Proof.
  intros sha224 uuid H. rewrite <-(app_nil_r (build_request_header _ _)) in H.
  apply (proj1 (domain_length_bound sha224 [uuid] uuid (lit "pw") [lit "pw"] (repeat 97 256) 443 [] (fun _ => eq_refl) eq_refl
    (list_elem_of_here _ _) (list_elem_of_here _ _) eq_refl ltac:(split; vm_compute; congruence))) in H.
  vm_compute in H. by apply H.
Defined.

Lemma answer_off addon first : parse_response_header ([0; len addon] ++ addon ++ first) = Some (2 + len addon).
Proof.
  unfold parse_response_header. change (byte_at 0 ([0; len addon] ++ addon ++ first)) with 0. change (byte_at 1 ([0; len addon] ++ addon ++ first)) with (len addon).
  rewrite !(proj2 (Z.ltb_ge _ _)) by len_solve. done.
Qed.

Lemma ws_after_answer addon first more header : ws_left true (mkWs (Binary ([0; len addon] ++ addon ++ first) :: more) [] (Some header) [] false) = first ++ ws_data more.
Proof.
  unfold ws_left. cbn [ws_buf ws_in ws_skipped andb negb ws_stream]. unfold without_answer. rewrite answer_off.
  replace (Z.to_nat (2 + len addon)) with (length ([0; len addon] ++ addon)) by (rewrite length_app; cbn [length]; unfold len; lia).
  change ([] ++ ?l) with l. by rewrite (app_assoc [0; len addon]), drop_app_length.
Qed.



(** Datagrams through the tunnels: what one end frames the other unframes, in order,
    up to the first empty one, which ends the session; no bytes keep a loop running
    or make a parser panic; a Hysteria 2 datagram keeps session, payload and target. *)
Lemma tunnel_datagrams t ps id data i fuel : target_ok t -> frames_ok ps -> (length ps < fuel)%nat -> in_width 32 id -> bytes_ok i -> (length i < fuel)%nat ->
  vless_udp_down fuel (vless_udp_up ps) = Ret (until_empty ps, None) /\
  trojan_udp_down fuel (trojan_udp_up t ps) = Ret (until_empty ps, None) /\
  hy2_parse_udp_datagram (hy2_build_udp_datagram data t id) = Ret (Ok (id, data, t)) /\
  returns (vless_udp_down fuel i) /\ returns (trojan_udp_down fuel i) /\ returns (hy2_parse_udp_datagram i).
Proof.
  intros. split_and!; [by apply vless_udp_frames|by apply trojan_udp_frames|by apply hy2_roundtrip|by apply vless_udp_returns|
    by apply trojan_udp_returns|by apply hy2_returns].
Qed.

(** The two ends wait for each other when the client's protocol lets the server speak first. *)
Example server_first_stalls users : converse (read_exact 1) (vless_accept users) [] [] = mkOutcome None None [] [].
Proof. done. Qed.
