(* ===== verification/Vmess.v ===== *)
(** * Vmess: the handshake of VMess, of [src/outbound/vmess/frame.rs],
    [src/outbound/vmess/mod.rs] and [src/inbound/vmess_server.rs].

    The outbound derives keys from the user's and from random bytes, seals a
    request header and waits for the sealed answer; the inbound matches an
    authentication identifier with its users, opens the header and answers.  The
    cryptographic crates, and the hash behind [rand_array], are operations of a
    class with their documented laws in another; a concrete instance runs the
    examples.  Clock readings are arguments. *)

From S2P Require Import Prelude RustStr Inbound Wire Tunnels.

#[local] Open Scope reflex_scope.

(** ** Crates *)

(** [Aes128Gcm] and [ChaCha20Poly1305] ([encrypt], [decrypt] on key, nonce, associated
    data and message), digests, the [i]-th byte of a Shake128 stream, AES on one block,
    CRC-32, FNV-1a, and [DefaultHasher] on one [u64]. *)
Class Crates : Type := {
  gcm_encrypt : bytes -> bytes -> bytes -> bytes -> option bytes;
  gcm_decrypt : bytes -> bytes -> bytes -> bytes -> option bytes;
  chacha_encrypt : bytes -> bytes -> bytes -> bytes -> option bytes;
  chacha_decrypt : bytes -> bytes -> bytes -> bytes -> option bytes;
  md5 : bytes -> bytes;
  sha256 : bytes -> bytes;
  hmac_sha256 : bytes -> bytes -> bytes;
  shake128 : bytes -> nat -> Z;
  aes_encrypt_block : bytes -> bytes -> bytes;
  aes_decrypt_block : bytes -> bytes -> bytes;
  crc32 : bytes -> Z;
  fnv1a : bytes -> Z;
  default_hash : Z -> Z
}.

(** What an authenticated cipher with a tag of sixteen bytes promises. *)
Record aead_laws (enc dec : bytes -> bytes -> bytes -> bytes -> option bytes) : Prop := {
  enc_dec : forall k n a m, len m < 2 ^ 16 -> exists c, enc k n a m = Some c /\ len c = len m + 16 /\ dec k n a c = Some m;
  dec_len : forall k n a c m, dec k n a c = Some m -> len c = len m + 16
}.

Class CratesLaws `{Crates} : Prop := {
  gcm_laws : aead_laws gcm_encrypt gcm_decrypt;
  chacha_laws : aead_laws chacha_encrypt chacha_decrypt;
  md5_len : forall s, length (md5 s) = 16%nat;
  sha256_len : forall s, length (sha256 s) = 32%nat;
  hmac_len : forall k s, length (hmac_sha256 k s) = 32%nat;
  shake_byte : forall s i, is_byte (shake128 s i);
  aes_block_len : forall k b, length b = 16%nat -> length (aes_encrypt_block k b) = 16%nat;
  aes_block_inv : forall k b, length b = 16%nat -> aes_decrypt_block k (aes_encrypt_block k b) = b;
  crc32_range : forall s, in_width 32 (crc32 s)
}.

(** ** frame.rs *)

Definition SECURITY_NONE : Z := 5.
Definition SECURITY_AES128_GCM : Z := 3.
Definition SECURITY_CHACHA20_POLY1305 : Z := 4.
Definition OPT_CHUNK_STREAM : Z := 1.
Definition OPT_CHUNK_MASKING : Z := 4.
Definition CMD_TCP : Z := 1.
Definition CMD_UDP : Z := 2.
Definition CIPHER_OVERHEAD : Z := 16.

Definition resolve_security (security : str) : option Z :=
  if bool_decide (security = lit "auto" \/ security = lit "aes-128-gcm") then Some SECURITY_AES128_GCM
  else if bool_decide (security = lit "chacha20-poly1305") then Some SECURITY_CHACHA20_POLY1305
  else if bool_decide (security = lit "none" \/ security = lit "zero") then Some SECURITY_NONE
  else None.

Section Frame.
Context `{Crates}.

(** [rand_array::<N>()] with the nanoseconds it reads from the clock. *)
Definition rand_array (n : nat) (nanos : Z) : bytes :=
  map (fun i : nat => as_u8 (default_hash (Z.lxor nanos (as_u64 (Z.of_nat i * 0x9e3779b97f4a7c15))))) (seq 0 n).

Definition CMD_KEY_SALT : bytes := lit "c48619fe-8f02-49e0-b9e9-edf763e17e21".

Definition user_key (uuid : bytes) : bytes := md5 (uuid ++ CMD_KEY_SALT).

Definition kdf (key : bytes) (salt : bytes) (path : list bytes) : bytes :=
  hmac_sha256 (fold_left hmac_sha256 path (hmac_sha256 (lit "VMess AEAD KDF") salt)) key.

Definition KDF_SALT_AUTH_ID : bytes := lit "AES Auth ID Encryption".
Definition KDF_SALT_HEADER_LEN_KEY : bytes := lit "VMess Header AEAD Key_Length".
Definition KDF_SALT_HEADER_LEN_IV : bytes := lit "VMess Header AEAD Nonce_Length".
Definition KDF_SALT_HEADER_KEY : bytes := lit "VMess Header AEAD Key".
Definition KDF_SALT_HEADER_IV : bytes := lit "VMess Header AEAD Nonce".
Definition KDF_SALT_RESP_LEN_KEY : bytes := lit "AEAD Resp Header Len Key".
Definition KDF_SALT_RESP_LEN_IV : bytes := lit "AEAD Resp Header Len IV".
Definition KDF_SALT_RESP_KEY : bytes := lit "AEAD Resp Header Key".
Definition KDF_SALT_RESP_IV : bytes := lit "AEAD Resp Header IV".

(** What one handshake reads from the clock: seconds, and nanoseconds for each call
    of [rand_array]. *)
Record clock : Type := mkClock {
  ts_secs : Z;
  ns_key : Z;
  ns_nonce : Z;
  ns_resp : Z;
  ns_auth : Z;
  ns_conn : Z;
  ns_pad : Z
}.

Definition build_auth_id (key : bytes) (c : clock) : bytes :=
  let buf := to_be_bytes 8 (ts_secs c) ++ rand_array 4 (ns_auth c) in
  aes_encrypt_block (take 16 (kdf key KDF_SALT_AUTH_ID [])) (buf ++ to_be_bytes 4 (crc32 buf)).

Record RequestHeader : Type := mkRequest {
  req_key : bytes;
  req_nonce : bytes;
  resp_header : Z;
  option_bits : Z;
  security : Z;
  command : Z
}.

Definition request_option (security command : Z) : Z :=
  if (security =? SECURITY_NONE) && (command =? CMD_UDP) then OPT_CHUNK_STREAM
  else if security =? SECURITY_NONE then 0
  else if (security =? SECURITY_AES128_GCM) || (security =? SECURITY_CHACHA20_POLY1305) then Z.lor OPT_CHUNK_STREAM OPT_CHUNK_MASKING
  else 0.

Definition RequestHeader_new (security command : Z) (c : clock) : RequestHeader :=
  mkRequest (rand_array 16 (ns_key c)) (rand_array 16 (ns_nonce c)) (default 0 (rand_array 1 (ns_resp c) !! 0%nat))
    (request_option security command) security command.

(** [write_target]: the layout of the VLESS header. *)
Definition write_target (t : Target) : bytes := to_be_bytes 2 (Target_port t) ++ vless_addr t.

Definition padding_len (c : clock) : Z := default 0 (rand_array 1 (ns_pad c) !! 0%nat) mod 16.

Definition header_fields (h : RequestHeader) (padding : Z) (t : Target) : bytes :=
  [1] ++ req_nonce h ++ req_key h
  ++ [resp_header h; option_bits h; Z.lor (wshl 8 padding 4) (security h); 0; command h]
  ++ write_target t ++ repeat 0 (Z.to_nat padding).

Definition RequestHeader_encode (h : RequestHeader) (t : Target) (c : clock) : bytes :=
  let buf := header_fields h (padding_len c) t in
  buf ++ to_be_bytes 4 (as_u32 (fnv1a buf)).

(** [expect] on the outcome of a cipher. *)
Definition expect {A} (o : option A) : run A := match o with Some a => Ret a | None => Panic end.

Definition build_handshake (user_key : bytes) (h : RequestHeader) (t : Target) (c : clock) : run bytes :=
  let auth_id := build_auth_id user_key c in
  let conn_nonce := rand_array 8 (ns_conn c) in
  let header_plain := RequestHeader_encode h t c in
  let k salt n := take n (kdf user_key salt [auth_id; conn_nonce]) in
  enc_len ← expect (gcm_encrypt (k KDF_SALT_HEADER_LEN_KEY 16%nat) (k KDF_SALT_HEADER_LEN_IV 12%nat) auth_id (to_be_bytes 2 (as_u16 (len header_plain))));
  enc_hdr ← expect (gcm_encrypt (k KDF_SALT_HEADER_KEY 16%nat) (k KDF_SALT_HEADER_IV 12%nat) auth_id header_plain);
  Ret (auth_id ++ enc_len ++ conn_nonce ++ enc_hdr).

(** [parse_response_header]: the token and what was consumed. *)
Definition parse_response (buf req_key req_nonce : bytes) : run (result (Z * Z) WireError) :=
  let resp_key := take 16 (sha256 req_key) in
  let resp_nonce := take 16 (sha256 req_nonce) in
  let LEN_FRAME := 2 + CIPHER_OVERHEAD in
  if len buf <? LEN_FRAME then Ret (Err BadFraming)
  else
    f ← slice buf 0 LEN_FRAME;
    match gcm_decrypt (take 16 (kdf resp_key KDF_SALT_RESP_LEN_KEY [])) (take 12 (kdf resp_nonce KDF_SALT_RESP_LEN_IV [])) [] f with
    | None => Ret (Err DecryptFailed)
    | Some dec_len =>
        b0 ← idx dec_len 0;
        b1 ← idx dec_len 1;
        let hdr_cipher_len := from_be_bytes [b0; b1] + CIPHER_OVERHEAD in
        if len buf <? LEN_FRAME + hdr_cipher_len then Ret (Err BadFraming)
        else
          p ← slice buf LEN_FRAME (LEN_FRAME + hdr_cipher_len);
          match gcm_decrypt (take 16 (kdf resp_key KDF_SALT_RESP_KEY [])) (take 12 (kdf resp_nonce KDF_SALT_RESP_IV [])) [] p with
          | None => Ret (Err DecryptFailed)
          | Some dec_hdr =>
              if len dec_hdr <? 4 then Ret (Err BadFraming)
              else token ← idx dec_hdr 1; Ret (Ok (token, LEN_FRAME + hdr_cipher_len))
          end
    end.

(** ** mod.rs: the client's end *)

(** A task that panics ends its connection. *)
Definition wrun {A} (m : run (result A WireError)) : wire A :=
  match m with
  | Ret (Ok a) => WRet a
  | Ret (Err e) => WFail e
  | _ => WFail TaskPanicked
  end.

Definition RESP_TOTAL : nat := 38.

(** [handshake] up to the stream it wraps, whose parameters are in the header. *)
Definition handshake (user_key : bytes) (security command : Z) (t : Target) (c : clock) : wire RequestHeader :=
  let h := RequestHeader_new security command c in
  let* msg := wrun (m ← build_handshake user_key h t c; Ret (Ok m)) in
  let* _ := write_all msg in
  let* resp := read_exact RESP_TOTAL in
  let* token := wrun (parse_response resp (req_key h) (req_nonce h)) in
  let* _ := wensure (token.1 =? resp_header h) TokenMismatch in
  WRet h.

(** ** vmess_server.rs *)

Definition vmess_cmd_key (uuid : bytes) : bytes := md5 (uuid ++ CMD_KEY_SALT).

Definition kdf_sha256 (key : bytes) (paths : list bytes) : bytes := take 32 (fold_left hmac_sha256 paths key).
Definition kdf16 (key : bytes) (paths : list bytes) : bytes := take 16 (kdf_sha256 key paths).
Definition kdf12 (key : bytes) (paths : list bytes) : bytes := take 12 (kdf_sha256 key paths).
Definition hex_bytes (data : bytes) : bytes := hex_encode data.

(** [i64] from the eight bytes of a timestamp; [(ts - now).abs()] wraps. *)
Definition as_i64 (z : Z) : Z := let u := as_u64 z in if u <? 2 ^ 63 then u else u - 2 ^ 64.

(** The identifier under the key of its block. *)
Definition auth_id_ok (now : Z) (block_key auth_id : bytes) : bool :=
  let block := aes_decrypt_block block_key auth_id in
  let ts := as_i64 (from_be_bytes (take 8 block)) in
  let diff := as_i64 (Z.abs (as_i64 (ts - now))) in
  if 120 <? diff then false else crc32 (take 12 block) =? from_be_bytes (take 4 (drop 12 block)).

Definition verify_auth_id (now : Z) (auth_id cmd_key : bytes) : bool := auth_id_ok now (kdf16 cmd_key [KDF_SALT_AUTH_ID]) auth_id.

(** The fields of the opened header: the target, the keys of the answer, and its token. *)
Definition parse_header_fields (h : bytes) : run (result (Target * bytes * bytes * Z) WireError) :=
  ver ← idx h 0;
  if negb (ver =? 1) then Ret (Err BadVersion)
  else
    data_iv ← slice h 1 17;
    data_key ← slice h 17 33;
    resp_v ← idx h 33;
    _opt ← idx h 34;
    _padding_sec ← idx h 35;
    cmd ← idx h 37;
    if negb (cmd =? 1) then Ret (Err BadCommand)
    else
      p0 ← idx h 38;
      p1 ← idx h 39;
      let port := from_be_bytes [p0; p1] in
      atyp ← idx h 40;
      target ←!!
        (if atyp =? 1 then a ← slice h 41 45; Ret (Ok (TSocket {| ip := ipv4_of a; sock_port := port |}))
         else if atyp =? 2 then
           dlen ← idx h 41;
           d ← slice h 42 (42 + dlen);
           Ret (if utf8_valid d then Ok (TDomain d port) else Err NotUtf8)
         else if atyp =? 3 then a ← slice h 41 57; Ret (Ok (TSocket {| ip := ipv6_of a; sock_port := port |}))
         else Ret (Err BadAtyp));
      Ret (Ok (target, md5 data_key, md5 data_iv, resp_v)).

Definition decode_vmess_header (now : Z) (users : list bytes) : wire (Target * bytes * bytes * Z) :=
  let* auth_id := read_exact 16 in
  match List.find (verify_auth_id now auth_id) (map vmess_cmd_key users) with
  | None => WFail Unauthorized
  | Some cmd_key =>
      let* enc_len := read_exact 6 in
      let* conn_nonce := read_exact 8 in
      let path s := [lit s; hex_bytes auth_id; hex_bytes conn_nonce] in
      match gcm_decrypt (kdf16 cmd_key (path "AEAD Header Length Key"%string)) (kdf12 cmd_key (path "AEAD Header Length IV"%string)) auth_id enc_len with
      | None => WFail DecryptFailed
      | Some len_data =>
          let* header_len := wrun (b0 ← idx len_data 0; b1 ← idx len_data 1; Ret (Ok (from_be_bytes [b0; b1]))) in
          let* _ := wensure ((0 <? header_len) && (header_len <? 65536)) BadFraming in
          let* enc_header := read_exact (Z.to_nat (header_len + 16)) in
          match gcm_decrypt (kdf16 cmd_key (path "AEAD Header Key"%string)) (kdf12 cmd_key (path "AEAD Header IV"%string)) auth_id enc_header with
          | None => WFail DecryptFailed
          | Some h => wrun (parse_header_fields (take (Z.to_nat header_len) h))
          end
      end
  end.

Definition send_vmess_response (resp_key resp_iv : bytes) (resp_v : Z) : wire unit :=
  match gcm_encrypt resp_key (take 12 resp_iv) [] [resp_v; 0; 0; 0] with
  | None => WFail DecryptFailed
  | Some enc => write_all enc
  end.

(** [handle_conn_plain] up to the hand-over to the dispatcher. *)
Definition vmess_accept (now : Z) (users : list bytes) : wire Target :=
  let* r := decode_vmess_header now users in
  let '(target, resp_key, resp_iv, resp_v) := r in
  let* _ := send_vmess_response resp_key resp_iv resp_v in
  WRet target.
End Frame.

(** ** A server that keeps to the layout of frame.rs

    Its keys come from the same derivation as the client's; the four bytes of the
    answer are a parameter. *)
Section Protocol.
Context `{Crates}.

Definition protocol_server (now : Z) (key : bytes) (answer : Z -> bytes) : wire Target :=
  let* auth_id := read_exact 16 in
  let* _ := wensure (auth_id_ok now (take 16 (kdf key KDF_SALT_AUTH_ID [])) auth_id) Unauthorized in
  let* enc_len := read_exact 18 in
  let* conn_nonce := read_exact 8 in
  let k salt n := take n (kdf key salt [auth_id; conn_nonce]) in
  match gcm_decrypt (k KDF_SALT_HEADER_LEN_KEY 16%nat) (k KDF_SALT_HEADER_LEN_IV 12%nat) auth_id enc_len with
  | None => WFail DecryptFailed
  | Some l =>
      let* enc_hdr := read_exact (Z.to_nat (from_be_bytes l + 16)) in
      match gcm_decrypt (k KDF_SALT_HEADER_KEY 16%nat) (k KDF_SALT_HEADER_IV 12%nat) auth_id enc_hdr with
      | None => WFail DecryptFailed
      | Some h =>
          let* r := wrun (parse_header_fields h) in
          let rk := take 16 (sha256 (take 16 (drop 17 h))) in
          let rn := take 16 (sha256 (take 16 (drop 1 h))) in
          let seal key_salt iv_salt m := gcm_encrypt (take 16 (kdf rk key_salt [])) (take 12 (kdf rn iv_salt [])) [] m in
          match seal KDF_SALT_RESP_LEN_KEY KDF_SALT_RESP_LEN_IV (to_be_bytes 2 4), seal KDF_SALT_RESP_KEY KDF_SALT_RESP_IV (answer r.2) with
          | Some l, Some a => let* _ := write_all (l ++ a) in WRet r.1.1.1
          | _, _ => WFail DecryptFailed
          end
      end
  end.
End Protocol.

Section Laws.
Context `{CratesLaws}.

Lemma length_rand_array n t : length (rand_array n t) = n.
Proof. unfold rand_array. by rewrite length_map, length_seq. Qed.

(** A shorter array is the beginning of a longer one of the same instant. *)
Lemma rand_array_prefix n m t : (n <= m)%nat -> rand_array n t = take n (rand_array m t).
Proof.
  intros Hn. unfold rand_array. rewrite firstn_map. f_equal. replace m with (n + (m - n))%nat by lia.
  by rewrite seq_app, take_app_length' by (by rewrite length_seq).
Qed.

Lemma aead_seals enc dec (L : aead_laws enc dec) k n a m : len m < 2 ^ 16 ->
  exists c, enc k n a m = Some c /\ length c = (length m + 16)%nat /\ dec k n a c = Some m.
Proof. intros Hm. destruct (enc_dec _ _ L k n a m Hm) as (c & E & Hl & D). exists c. unfold len in Hl. split_and!; [done|lia|done]. Qed.

Lemma aead_short enc dec (L : aead_laws enc dec) k n a c : len c < 16 -> dec k n a c = None.
Proof. intros Hc. destruct (dec k n a c) as [m|] eqn:E; [|done]. apply (dec_len _ _ L) in E. pose proof (len_nonneg m). lia. Qed.

(** ** Authentication identifiers *)

Lemma as_i64_wraps z : - 2 ^ 64 <= z < 2 ^ 64 ->
  as_i64 z = if z <? - 2 ^ 63 then z + 2 ^ 64 else if z <? 2 ^ 63 then z else z - 2 ^ 64.
Proof.
  intros Hz. unfold as_i64, as_u64, wrap. assert (z mod 2 ^ 64 = if z <? 0 then z + 2 ^ 64 else z) as ->.
  { destruct (Z.ltb_spec z 0); [symmetry; apply Z.mod_unique with (-1); lia|apply Z.mod_small; lia]. }
  repeat case_if; reflect_bools; lia.
Qed.

Definition auth_block (ts : Z) (rand : bytes) : bytes := let buf := to_be_bytes 8 ts ++ rand in buf ++ to_be_bytes 4 (crc32 buf).

(** The window of time, with the subtraction and the absolute value of [i64] as they
    wrap: besides the two minutes on both sides it admits one instant. *)
Lemma auth_id_window now key ts rand : length rand = 4%nat -> in_width 64 ts -> 0 <= now < 2 ^ 62 ->
  auth_id_ok now key (aes_encrypt_block key (auth_block ts rand)) =
  bool_decide (-120 <= as_i64 ts - now <= 120 \/ as_i64 ts - now = - 2 ^ 63).
Proof.
  intros Hr Ht Hn. unfold auth_id_ok, auth_block. set (buf := to_be_bytes 8 ts ++ rand).
  assert (Hb : length buf = 12%nat) by (unfold buf; by rewrite length_app, length_to_be_bytes, Hr).
  rewrite aes_block_inv by (by rewrite length_app, length_to_be_bytes, Hb).
  rewrite (take_app_length' buf _ 12), (drop_app_length' buf _ 12) by done. rewrite (firstn_all2 (n := 4) (to_be_bytes 4 _)) by (by rewrite length_to_be_bytes).
  rewrite from_to_be_bytes_id by (exact (crc32_range buf)). rewrite Z.eqb_refl. replace (take 8 (buf ++ _)) with (to_be_bytes 8 ts)
    by (unfold buf; rewrite <-app_assoc; symmetry; by rewrite take_app_length' by (by rewrite length_to_be_bytes)).
  rewrite from_to_be_bytes_id by exact Ht. unfold in_width in Ht.
  rewrite (as_i64_wraps ts) by lia. set (t := if ts <? _ then _ else _). assert (Hts : - 2 ^ 63 <= t < 2 ^ 63) by (unfold t; repeat case_if; reflect_bools; lia).
  clearbody t. rewrite (as_i64_wraps (t - now)) by lia. rewrite as_i64_wraps by (repeat case_if; reflect_bools; lia).
  symmetry. repeat case_if; reflect_bools; first [apply bool_decide_eq_true; lia|apply bool_decide_eq_false; lia].
Qed.

(** ** Requests *)

Lemma port_bytes p : in_width 16 p -> exists a b, to_be_bytes 2 p = [a; b] /\ from_be_bytes [a; b] = p.
Proof.
  intros Hp. pose proof (port_back p Hp) as E. pose proof (length_to_be_bytes 2 p) as L.
  destruct (to_be_bytes 2 p) as [|a [|b [|? ?]]]; try done. by exists a, b.
Qed.

Lemma idx_cons_0 {A} (x : A) l : idx (x :: l) 0 = Ret x.
Proof. by apply (idx_mid [] x l). Qed.

Lemma idx_cons_S {A} (x : A) l i : 1 <= i -> idx (x :: l) i = idx l (i - 1).
Proof. intros Hi. apply (idx_app_r [x] l i). exact Hi. Qed.

(** Indexing into the explicit head of a list. *)
Ltac idx_walk := repeat first [rewrite idx_cons_0 | rewrite idx_cons_S by lia; cbn [Z.sub Z.add Z.opp Z.pos_sub Pos.pred_double] | rewrite bind_Ret].

(** The server's parser reads the fields that the client writes. *)
Lemma parse_fields nonce key resp opt ps cmd t rest : length nonce = 16%nat -> length key = 16%nat -> target_ok t ->
  parse_header_fields ([1] ++ nonce ++ key ++ [resp; opt; ps; 0; cmd] ++ write_target t ++ rest) =
  Ret (if cmd =? 1 then Ok (t, md5 key, md5 nonce, resp) else Err BadCommand).
Proof.
  intros Hn Hk Ht. destruct (port_bytes _ (target_port_ok t Ht)) as (p0 & p1 & Ep & Eport). unfold write_target. rewrite Ep.
  set (pre := [1] ++ nonce ++ key). assert (Hpre : len pre = 33) by (unfold pre, len; rewrite !length_app, Hn, Hk; done).
  set (tl := [resp; opt; ps; 0; cmd; p0; p1] ++ vless_addr t ++ rest).
  replace ([1] ++ nonce ++ key ++ [resp; opt; ps; 0; cmd] ++ ([p0; p1] ++ vless_addr t) ++ rest) with (pre ++ tl) by (unfold pre, tl; app_eq).
  assert (Hx : forall i x, 33 <= i -> idx tl (i - 33) = Ret x -> idx (pre ++ tl) i = Ret x) by (intros i x Hi Hi'; by rewrite idx_app_r, Hpre by lia).
  unfold parse_header_fields. change (idx (pre ++ tl) 0) with (Ret 1). rewrite bind_Ret. cbn [Z.eqb Pos.eqb negb].
  rewrite (slice_seg (pre ++ tl) [1] nonce (key ++ tl) 1 17) by (unfold pre, len; rewrite ?Hn; done || app_eq). rewrite bind_Ret.
  rewrite (slice_seg (pre ++ tl) ([1] ++ nonce) key tl 17 33) by (unfold pre, len; rewrite ?length_app, ?Hn, ?Hk; done || app_eq). rewrite bind_Ret.
  rewrite (Hx 33 resp), bind_Ret, (Hx 34 opt), bind_Ret, (Hx 35 ps), bind_Ret, (Hx 37 cmd), bind_Ret by (lia || (unfold tl; cbn [app]; idx_walk; done)).
  destruct (cmd =? 1); [|done]. cbn [negb].
  rewrite (Hx 38 p0), bind_Ret, (Hx 39 p1), bind_Ret, Eport by (lia || (unfold tl; cbn [app]; idx_walk; done)).
  assert (Hs : forall x y i, vless_addr t = x ++ y -> i = 40 + len x -> slice (pre ++ tl) i (i + len y) = Ret y).
  { intros x y i' Eq ->. apply (slice_seg _ (pre ++ [resp; opt; ps; 0; cmd; p0; p1] ++ x) y rest); [unfold tl; rewrite Eq; app_eq|rewrite !len_app, Hpre, !len_cons, len_nil; lia|done]. }
  assert (Hi : forall i x, 33 <= i -> idx ([resp; opt; ps; 0; cmd; p0; p1] ++ vless_addr t ++ rest) (i - 33) = Ret x -> idx (pre ++ tl) i = Ret x) by exact Hx.
  clearbody tl. clear Hx. destruct t as [d p|[[v|v] p]]; cbn [vless_addr ip Target_port sock_port target_ok] in *.
  - destruct Ht as (Hd & Hu & Hp). rewrite (Hi 40 2), bind_Ret by (lia || (cbn [app]; idx_walk; done)). cbn [Z.eqb Pos.eqb].
    rewrite (Hi 41 (len d)), bind_Ret by (lia || (cbn [app]; rewrite as_u8_small by len_solve; idx_walk; done)).
    rewrite (Hs [2; as_u8 (len d)] d) by done. by rewrite bind_Ret, Hu.
  - destruct Ht as [Hv Hp]. rewrite (Hi 40 1), bind_Ret by (lia || (cbn [app]; idx_walk; done)). cbn [Z.eqb Pos.eqb].
    pose proof (Hs [1] (octets (V4 v)) 41 eq_refl eq_refl) as E. rewrite len_addr_octets in E. change (41 + 4) with 45 in E. by rewrite E, bind_Ret, ipv4_of_octets.
  - destruct Ht as [Hv Hp]. rewrite (Hi 40 3), bind_Ret by (lia || (cbn [app]; idx_walk; done)). cbn [Z.eqb Pos.eqb].
    pose proof (Hs [3] (octets (V6 v)) 41 eq_refl eq_refl) as E. rewrite len_addr_octets in E. change (41 + 16) with 57 in E. by rewrite E, bind_Ret, ipv6_of_octets.
Qed.

Lemma vless_addr_len t : target_ok t -> (length (vless_addr t) <= 257)%nat.
Proof.
  intros Ht. destruct t as [d p|[[v|v] p]]; cbn [vless_addr ip target_ok] in *; rewrite ?length_app; cbn [length octets]; rewrite ?length_to_be_bytes; try lia.
  destruct Ht as [Hd _]. unfold len in Hd. lia.
Qed.

Lemma padding_bound c : 0 <= padding_len c < 16.
Proof. unfold padding_len. apply Z.mod_pos_bound. lia. Qed.

(** The header that a handshake seals. *)
Lemma encode_shape sec cmd t c : exists opt ps rest, RequestHeader_encode (RequestHeader_new sec cmd c) t c =
  [1] ++ req_nonce (RequestHeader_new sec cmd c) ++ req_key (RequestHeader_new sec cmd c)
  ++ [resp_header (RequestHeader_new sec cmd c); opt; ps; 0; cmd] ++ write_target t ++ rest /\ (length rest <= 20)%nat.
Proof.
  unfold RequestHeader_encode, header_fields. cbn [command]. set (h := RequestHeader_new sec cmd c). set (p := padding_len c).
  exists (option_bits h), (Z.lor (wshl 8 p 4) (security h)), (repeat 0 (Z.to_nat p) ++ to_be_bytes 4 (as_u32 (fnv1a (header_fields h p t)))).
  split; [unfold header_fields; cbn [command]; app_eq|]. rewrite length_app, repeat_length, length_to_be_bytes. pose proof (padding_bound c). unfold p. lia.
Qed.

Lemma encode_len sec cmd t c : target_ok t -> len (RequestHeader_encode (RequestHeader_new sec cmd c) t c) < 2 ^ 16.
Proof.
  intros Ht. destruct (encode_shape sec cmd t c) as (opt & ps & rest & -> & Hr). unfold len, write_target. cbn [req_nonce req_key RequestHeader_new].
  rewrite !length_app, !length_rand_array, length_to_be_bytes. pose proof (vless_addr_len t Ht). cbn [length]. lia.
Qed.

Lemma build_handshake_ok key sec cmd t c : target_ok t ->
  let h := RequestHeader_new sec cmd c in
  let auth := build_auth_id key c in
  let cn := rand_array 8 (ns_conn c) in
  let k salt n := take n (kdf key salt [auth; cn]) in
  exists el eh, build_handshake key h t c = Ret (auth ++ el ++ cn ++ eh) /\ length el = 18%nat /\
    gcm_decrypt (k KDF_SALT_HEADER_LEN_KEY 16%nat) (k KDF_SALT_HEADER_LEN_IV 12%nat) auth el = Some (to_be_bytes 2 (len (RequestHeader_encode h t c))) /\
    length eh = (length (RequestHeader_encode h t c) + 16)%nat /\
    gcm_decrypt (k KDF_SALT_HEADER_KEY 16%nat) (k KDF_SALT_HEADER_IV 12%nat) auth eh = Some (RequestHeader_encode h t c).
Proof.
  intros Ht h auth cn k. pose proof (encode_len sec cmd t c Ht) as Hl. fold h in Hl. pose proof (len_nonneg (RequestHeader_encode h t c)).
  unfold build_handshake. fold auth cn. cbv beta zeta. fold (k KDF_SALT_HEADER_LEN_KEY 16%nat) (k KDF_SALT_HEADER_LEN_IV 12%nat) (k KDF_SALT_HEADER_KEY 16%nat) (k KDF_SALT_HEADER_IV 12%nat).
  destruct (aead_seals _ _ gcm_laws (k KDF_SALT_HEADER_LEN_KEY 16%nat) (k KDF_SALT_HEADER_LEN_IV 12%nat) auth (to_be_bytes 2 (as_u16 (len (RequestHeader_encode h t c))))) as (el & -> & L1 & D1);
    [by rewrite len_to_be_bytes|].
  destruct (aead_seals _ _ gcm_laws (k KDF_SALT_HEADER_KEY 16%nat) (k KDF_SALT_HEADER_IV 12%nat) auth _ Hl) as (eh & -> & L2 & D2).
  exists el, eh. cbn [expect]. rewrite !bind_Ret. rewrite length_to_be_bytes in L1. split_and!; [done|exact L1| |exact L2|exact D2].
  rewrite D1. unfold as_u16, wrap. by rewrite Z.mod_small by lia.
Qed.

(** The answer, from its four bytes. *)
Lemma parse_response_ok rk rn l a ans : len ans = 4 ->
  gcm_decrypt (take 16 (kdf (take 16 (sha256 rk)) KDF_SALT_RESP_LEN_KEY [])) (take 12 (kdf (take 16 (sha256 rn)) KDF_SALT_RESP_LEN_IV [])) [] l = Some (to_be_bytes 2 4) ->
  gcm_decrypt (take 16 (kdf (take 16 (sha256 rk)) KDF_SALT_RESP_KEY [])) (take 12 (kdf (take 16 (sha256 rn)) KDF_SALT_RESP_IV [])) [] a = Some ans ->
  length (l ++ a) = 38%nat /\ parse_response (l ++ a) rk rn = Ret (Ok (byte_at 1 ans, 38)).
Proof.
  intros Ha Dl Da. pose proof (dec_len _ _ gcm_laws _ _ _ _ _ Dl) as Ll. pose proof (dec_len _ _ gcm_laws _ _ _ _ _ Da) as La.
  rewrite len_to_be_bytes in Ll. rewrite Ha in La. split; [unfold len in *; rewrite length_app; lia|].
  unfold parse_response, CIPHER_OVERHEAD. rewrite len_app, (proj2 (Z.ltb_ge _ _)) by lia.
  rewrite (slice_seg (l ++ a) [] l a) by (done || unfold len in *; lia). rewrite bind_Ret, Dl.
  change (idx (to_be_bytes 2 4) 0) with (Ret 0). change (idx (to_be_bytes 2 4) 1) with (Ret 4). rewrite !bind_Ret.
  change (from_be_bytes [0; 4] + 16) with 20. rewrite (proj2 (Z.ltb_ge _ _)) by lia.
  rewrite (slice_seg (l ++ a) l a []) by (rewrite ?app_nil_r; done || lia). rewrite bind_Ret, Da, (proj2 (Z.ltb_ge _ _)) by lia.
  destruct ans as [|x [|y ans]]; [done..|]. rewrite (idx_mid [x] y ans) by done. done.
Qed.

Lemma auth_id_accepted now key c : in_width 62 (ts_secs c) -> in_width 62 now -> -120 <= ts_secs c - now <= 120 ->
  auth_id_ok now (take 16 (kdf key KDF_SALT_AUTH_ID [])) (build_auth_id key c) = true.
Proof.
  unfold in_width. intros Ht Hn Hd. pose proof (auth_id_window now (take 16 (kdf key KDF_SALT_AUTH_ID [])) (ts_secs c) (rand_array 4 (ns_auth c))) as E.
  unfold auth_block in E. unfold build_auth_id. rewrite E by (try apply length_rand_array; unfold in_width; lia).
  apply bool_decide_eq_true. rewrite as_i64_wraps by lia. repeat case_if; reflect_bools; lia.
Qed.

Lemma length_auth_id key c : length (build_auth_id key c) = 16%nat.
Proof. unfold build_auth_id. apply aes_block_len. by rewrite !length_app, !length_to_be_bytes, length_rand_array. Qed.

Lemma length_handshake key sec cmd t c msg : target_ok t -> build_handshake key (RequestHeader_new sec cmd c) t c = Ret msg ->
  exists a el cn eh, msg = a ++ el ++ cn ++ eh /\ length a = 16%nat /\ length el = 18%nat /\ length cn = 8%nat.
Proof.
  intros Ht Hm. destruct (build_handshake_ok key sec cmd t c Ht) as (el & eh & E & Hl & _).
  exists (build_auth_id key c), el, (rand_array 8 (ns_conn c)), eh. split_and!; [congruence|apply length_auth_id|done|apply length_rand_array].
Qed.

Lemma header_keys nonce key rest : length nonce = 16%nat -> length key = 16%nat ->
  take 16 (drop 1 ([1] ++ nonce ++ key ++ rest)) = nonce /\ take 16 (drop 17 ([1] ++ nonce ++ key ++ rest)) = key.
Proof.
  intros Hn Hk. change (drop 17 ([1] ++ nonce ++ key ++ rest)) with (drop 16 (nonce ++ key ++ rest)).
  change (drop 1 ([1] ++ nonce ++ key ++ rest)) with (nonce ++ key ++ rest). rewrite (drop_app_length' nonce _ 16) by done.
  by rewrite (take_app_length' nonce _ 16), (take_app_length' key _ 16) by done.
Qed.

(** The server that keeps to the protocol takes the request and answers. *)
Lemma protocol_plays now key sec t c answer : in_width 62 (ts_secs c) -> in_width 62 now -> -120 <= ts_secs c - now <= 120 -> target_ok t ->
  let h := RequestHeader_new sec CMD_TCP c in
  len (answer (resp_header h)) = 4 ->
  exists msg out, build_handshake key h t c = Ret msg /\ plays (protocol_server now key answer) msg t out /\
    length out = 38%nat /\ parse_response out (req_key h) (req_nonce h) = Ret (Ok (byte_at 1 (answer (resp_header h)), 38)).
Proof.
  intros Hts Hnow Hd Ht h Hans. destruct (build_handshake_ok key sec CMD_TCP t c Ht) as (el & eh & E & Hel & Dl & Heh & Dh). fold h in E, Dl, Heh, Dh.
  pose proof (encode_len sec CMD_TCP t c Ht) as Hlen. fold h in Hlen. set (plain := RequestHeader_encode h t c) in *. pose proof (len_nonneg plain).
  set (rk := take 16 (sha256 (req_key h))). set (rn := take 16 (sha256 (req_nonce h))).
  destruct (aead_seals _ _ gcm_laws (take 16 (kdf rk KDF_SALT_RESP_LEN_KEY [])) (take 12 (kdf rn KDF_SALT_RESP_LEN_IV [])) [] (to_be_bytes 2 4)) as (l & El & _ & Dlr); [by rewrite len_to_be_bytes|].
  destruct (aead_seals _ _ gcm_laws (take 16 (kdf rk KDF_SALT_RESP_KEY [])) (take 12 (kdf rn KDF_SALT_RESP_IV [])) [] (answer (resp_header h))) as (a & Ea & _ & Da); [by rewrite Hans|].
  destruct (parse_response_ok _ _ _ _ _ Hans Dlr Da) as [Lout Pout].
  eexists _, (l ++ a). split_and!; [exact E| |exact Lout|exact Pout].
  intros rest. unfold protocol_server. rewrite <-!app_assoc, (play_pass _ _ _ _ _ (plays_exact _ _ (length_auth_id key c))), play_check by by apply auth_id_accepted.
  rewrite (play_pass _ _ _ _ _ (plays_exact _ _ Hel)), (play_pass _ _ _ _ _ (plays_exact _ _ (length_rand_array _ _))). cbv beta zeta. rewrite Dl.
  rewrite from_to_be_bytes_id by (change (256 ^ Z.of_nat 2) with (2 ^ 16); lia). rewrite (play_pass _ _ _ _ _ (plays_exact (Z.to_nat (len plain + 16)) eh ltac:(unfold len; lia))), Dh.
  destruct (encode_shape sec CMD_TCP t c) as (opt & ps & tl & Ep & _). fold h in Ep. fold plain in Ep.
  assert (Hk : length (req_key h) = 16%nat) by apply length_rand_array. assert (Hn : length (req_nonce h) = 16%nat) by apply length_rand_array.
  destruct (header_keys _ _ ([resp_header h; opt; ps; 0; CMD_TCP] ++ write_target t ++ tl) Hn Hk) as [K1 K2]. rewrite <-Ep in K1, K2. rewrite K1, K2.
  fold rk rn. cbv beta zeta. rewrite Ep, (parse_fields _ _ _ _ _ _ _ _ Hn Hk Ht). cbn [CMD_TCP Z.eqb Pos.eqb wrun wbind snd fst]. rewrite El, Ea.
  cbn [write_all wbind play]. by rewrite app_nil_r.
Qed.

Lemma peekless_wrun {A} (m : run (result A WireError)) : peekless (wrun m).
Proof. by destruct m as [[a|e]| |]. Qed.

Lemma protocol_peekless now key answer : peekless (protocol_server now key answer).
Proof.
  unfold protocol_server. repeat first [apply peekless_wrun | progress peekless].
Qed.

(** ** The inbound *)

(** Six bytes hold no tag of sixteen. *)
Lemma vmess_refused now users i : exists e, play (vmess_accept now users) i = (Err e, []).
Proof.
  unfold vmess_accept, decode_vmess_header. cbn [read_exact wbind play]. case_if; [by eexists|].
  destruct (List.find _ _) as [cmd_key|]; [|by eexists]. cbn [read_exact wbind play]. case_if; [by eexists|]. case_if; [by eexists|].
  rewrite (aead_short _ _ gcm_laws) by (unfold len; rewrite length_take; lia). by eexists.
Qed.

Lemma vmess_refused_client now users key sec cmd t c : target_ok t ->
  let r := converse (handshake key sec cmd t c) (vmess_accept now users) [] [] in
  at_client r = Some (Err UnexpectedEof) /\ (exists e, at_server r = Some (Err e)) /\ to_client r = [].
Proof.
  intros Ht. destruct (build_handshake_ok key sec cmd t c Ht) as (el & eh & E & _). destruct (length_handshake key sec cmd t c _ Ht E) as (a & l & cn & rest & Em & La & Ll & Lcn).
  rewrite Em in E. clear Em el eh. cbv zeta. unfold handshake. cbv zeta. rewrite E. cbn [mbind run_bind wrun wbind write_all]. rewrite converse_cwrite. cbn [app].
  unfold vmess_accept, decode_vmess_header. cbn [read_exact wbind]. rewrite converse_sread by done.
  destruct (List.find _ _) as [cmd_key|]; [|by split_and!; [..|eexists|]]. cbn [read_exact wbind].
  assert (l = take 6 l ++ take 8 (drop 6 l) ++ drop 8 (drop 6 l)) as -> by (by rewrite take_drop, take_drop).
  rewrite <-!app_assoc, !converse_sread by (rewrite ?length_take, ?length_drop; lia).
  rewrite (aead_short _ _ gcm_laws) by (unfold len; rewrite length_take; lia).
  by split_and!; [..|eexists|].
Qed.

(** C31. The VMess handshake of the outbound against a server that derives its keys
    and lays out its messages as frame.rs documents, clocks at most two minutes apart:
    both ends come to an end without waiting for each other and leave no bytes behind;
    the server gets the very target, and the client takes the answer exactly if its
    second byte is the token of the request. *)
Theorem vmess_handshake now key sec t c answer :
  in_width 62 (ts_secs c) -> in_width 62 now -> -120 <= ts_secs c - now <= 120 -> target_ok t ->
  let h := RequestHeader_new sec CMD_TCP c in
  len (answer (resp_header h)) = 4 ->
  converse (handshake key sec CMD_TCP t c) (protocol_server now key answer) [] [] =
  mkOutcome (Some (if byte_at 1 (answer (resp_header h)) =? resp_header h then Ok h else Err TokenMismatch)) (Some (Ok t)) [] [].
Proof.
  intros Hts Hnow Hd Ht h Ha. destruct (protocol_plays now key sec t c answer Hts Hnow Hd Ht Ha) as (msg & out & Em & Hp & Lo & Po).
  fold h in Em, Po. unfold handshake. fold h. rewrite Em. cbn [mbind run_bind wrun wbind write_all]. rewrite converse_cwrite. cbn [app].
  rewrite (converse_server _ msg t out) by (done || apply protocol_peekless).
  cbn [read_exact wbind]. rewrite <-(app_nil_r out), converse_cread by exact Lo. rewrite Po. cbn [wrun wbind fst]. 
  destruct (_ =? _); done.
Qed.

(** The VMess inbound lets nobody in: whatever bytes come and whoever its users
    are, it ends with an error and has answered nothing, since it reads six bytes where
    the sealed length takes eighteen.  The client that waits for its answer finds the
    connection closed. *)
Theorem vmess_inbound_refuses now users :
  (forall i, exists e, play (vmess_accept now users) i = (Err e, [])) /\
  (forall key sec cmd t c, target_ok t ->
    let r := converse (handshake key sec cmd t c) (vmess_accept now users) [] [] in
    at_client r = Some (Err UnexpectedEof) /\ (exists e, at_server r = Some (Err e)) /\ to_client r = []).
Proof. split; [apply vmess_refused|intros; by apply vmess_refused_client]. Qed.
End Laws.

(** ** A concrete instance *)

Module Toy.

Definition tag (k n a : bytes) : bytes := take 16 (k ++ n ++ a ++ repeat 0 16).
Definition seal (k n a m : bytes) : option bytes := Some (m ++ tag k n a).
Definition open (k n a c : bytes) : option bytes :=
  let l := (length c - 16)%nat in if (length c <? 16)%nat then None else if bool_decide (drop l c = tag k n a) then Some (take l c) else None.
Definition sum (s : bytes) : Z := fold_right Z.add 0 s.

#[export] Instance crates : Crates := {
  gcm_encrypt := seal;
  gcm_decrypt := open;
  chacha_encrypt := seal;
  chacha_decrypt := open;
  md5 s := take 16 (s ++ repeat 0 16);
  sha256 s := take 32 (s ++ repeat 0 32);
  hmac_sha256 k s := take 32 (s ++ k ++ repeat 0 32);
  shake128 s i := (sum s + Z.of_nat i) mod 256;
  aes_encrypt_block k b := rev b;
  aes_decrypt_block k b := rev b;
  crc32 s := as_u32 (sum s);
  fnv1a := sum;
  default_hash z := as_u64 (z * 7 + 3)
}.

Lemma length_padded (s : bytes) n : length (take n (s ++ repeat 0 n)) = n.
Proof. rewrite length_take, length_app, repeat_length. lia. Qed.

Lemma length_tag k n a : length (tag k n a) = 16%nat.
Proof. unfold tag. rewrite !app_assoc. apply length_padded. Qed.

Lemma aead : aead_laws seal open.
Proof.
  split.
  - intros k n a m Hm. exists (m ++ tag k n a). split; [done|]. split; [unfold len; rewrite length_app, length_tag; lia|].
    unfold open. rewrite length_app, length_tag, (proj2 (Nat.ltb_ge _ _)) by lia. replace (length m + 16 - 16)%nat with (length m) by lia.
    by rewrite drop_app_length, take_app_length, bool_decide_true.
  - intros k n a c m. unfold open. case_if; [done|]. apply Nat.ltb_ge in Heqb. case_if; [|done]. intros [= <-]. unfold len. rewrite length_take. lia.
Qed.

#[export] Instance laws : CratesLaws.
Proof.
  split; [exact aead|exact aead| | | | | | |].
  - intros s. apply length_padded.
  - intros s. apply length_padded.
  - intros k s. cbn [hmac_sha256 crates]. rewrite app_assoc. apply length_padded.
  - intros s i. unfold is_byte. cbn. apply Z.mod_pos_bound. lia.
  - intros k b Hb. cbn. by rewrite length_rev.
  - intros k b _. cbn. apply rev_involutive.
  - intros s. unfold in_width. cbn. unfold as_u32, wrap. apply Z.mod_pos_bound. lia.
Qed.

Definition key : bytes := user_key (repeat 7 16).
Definition now : clock := mkClock 1700000000 11 22 33 44 55 66.
Definition site : Target := TDomain (lit "example.com") 443.
End Toy.
Import (hints) Toy.

Lemma vmess_handshake_witness :
  let h := RequestHeader_new SECURITY_AES128_GCM CMD_TCP Toy.now in
  converse (handshake Toy.key SECURITY_AES128_GCM CMD_TCP Toy.site Toy.now) (protocol_server 1700000100 Toy.key (fun v => [0; v; 0; 0])) [] [] =
  mkOutcome (Some (Ok h)) (Some (Ok Toy.site)) [] [].
Proof.
  cbv zeta. rewrite (vmess_handshake 1700000100 Toy.key SECURITY_AES128_GCM Toy.site Toy.now (fun v => [0; v; 0; 0])); [reflexivity|..].
  all: repeat split; by vm_compute.
Defined.

Lemma vmess_inbound_refuses_witness :
  at_client (converse (handshake Toy.key SECURITY_AES128_GCM CMD_TCP Toy.site Toy.now) (vmess_accept 1700000000 [repeat 7 16]) [] []) = Some (Err UnexpectedEof).
Proof.
  refine (proj1 (proj2 (vmess_inbound_refuses 1700000000 [repeat 7 16]) Toy.key SECURITY_AES128_GCM CMD_TCP Toy.site Toy.now _)). repeat split; by vm_compute.
Defined.

(** The answer as vmess_server.rs lays it out, its token first. *)
Example token_first_refused :
  at_client (converse (handshake Toy.key SECURITY_AES128_GCM CMD_TCP Toy.site Toy.now) (protocol_server 1700000000 Toy.key (fun v => [v; 0; 0; 0])) [] []) =
  Some (Err TokenMismatch).
Proof. by vm_compute. Qed.
