(* ===== verification/VmessStream.v ===== *)
(** * VmessStream: the data of VMess, of [src/outbound/vmess/aead.rs].

    After the handshake each direction is a sequence of frames, a length masked with
    a Shake128 stream and a sealed chunk under a counter.  The decoder takes frames
    from whatever pieces the connection delivers; the writer keeps the frame it has
    just built and starts to send it at the next write or flush.  [to_read] lists what
    each read of the connection finds, [sent] is what the connection has accepted; how
    much a write accepts is an event. *)

From S2P Require Import Prelude RustStr Inbound Wire Tunnels Vmess.

#[local] Open Scope reflex_scope.

Inductive VmessAeadCipher : Type := Aes128Gcm (key : bytes) | Chacha20Poly1305 (key : bytes).

Inductive StreamError : Type := EncryptFailed | InvalidData.

Inductive DecodeState : Type := NeedLen | NeedData (n : Z).

(** Seed and position of a Shake128 reader. *)
Record mask_reader : Type := mkMask { mask_seed : bytes; mask_pos : nat }.

Record VmessEncoder : Type := mkEncoder {
  e_cipher : option VmessAeadCipher;
  e_nonce : bytes;
  e_count : Z;
  e_masking : option mask_reader;
  e_security : Z;
  e_option : Z
}.

Record VmessDecoder : Type := mkDecoder {
  d_cipher : option VmessAeadCipher;
  d_nonce : bytes;
  d_count : Z;
  d_masking : option mask_reader;
  d_state : DecodeState;
  d_security : Z;
  d_option : Z
}.

Section Stream.
Context `{Crates}.

Definition chacha20_key (key : bytes) : bytes := let h1 := md5 key in h1 ++ md5 h1.

Definition VmessAeadCipher_new (security : Z) (key : bytes) : run VmessAeadCipher :=
  if security =? SECURITY_AES128_GCM then Ret (Aes128Gcm key)
  else if security =? SECURITY_CHACHA20_POLY1305 then Ret (Chacha20Poly1305 (chacha20_key key))
  else Panic.

Definition cipher_encrypt (c : VmessAeadCipher) (nonce plaintext : bytes) : option bytes :=
  match c with Aes128Gcm k => gcm_encrypt k nonce [] plaintext | Chacha20Poly1305 k => chacha_encrypt k nonce [] plaintext end.

Definition cipher_decrypt (c : VmessAeadCipher) (nonce ciphertext : bytes) : option bytes :=
  match c with Aes128Gcm k => gcm_decrypt k nonce [] ciphertext | Chacha20Poly1305 k => chacha_decrypt k nonce [] ciphertext end.

Definition next_mask_u16 (m : mask_reader) : Z * mask_reader :=
  (from_be_bytes [shake128 (mask_seed m) (mask_pos m); shake128 (mask_seed m) (S (mask_pos m))], mkMask (mask_seed m) (S (S (mask_pos m)))).

(** [x ^= next_mask_u16(m)] when masking is on. *)
Definition mask_len (m : option mask_reader) (n : Z) : Z * option mask_reader :=
  match m with
  | Some r => let '(k, r) := next_mask_u16 r in (Z.lxor n k, Some r)
  | None => (n, None)
  end.

Definition make_nonce (count : Z) (base : bytes) : bytes := to_be_bytes 2 count ++ take 10 (drop 2 base).

Definition resp_data_key (req_key : bytes) : bytes := take 16 (sha256 req_key).
Definition resp_data_nonce (req_nonce : bytes) : bytes := take 16 (sha256 req_nonce).

Definition stream_cipher (security : Z) (key : bytes) : run (option VmessAeadCipher) :=
  if security =? SECURITY_NONE then Ret None else c ← VmessAeadCipher_new security key; Ret (Some c).

Definition stream_masking (opt : Z) (nonce : bytes) : option mask_reader :=
  if Z.land opt OPT_CHUNK_MASKING =? 0 then None else Some (mkMask nonce 0).

Definition VmessEncoder_new (security opt : Z) (key nonce : bytes) : run VmessEncoder :=
  c ← stream_cipher security key; Ret (mkEncoder c nonce 0 (stream_masking opt nonce) security opt).

Definition VmessDecoder_new (security opt : Z) (key nonce : bytes) : run VmessDecoder :=
  c ← stream_cipher security key; Ret (mkDecoder c nonce 0 (stream_masking opt nonce) NeedLen security opt).

Definition raw_mode (security opt : Z) : bool := (security =? SECURITY_NONE) && (Z.land opt OPT_CHUNK_STREAM =? 0).

(** ** Sending *)

Definition enc_with (e : VmessEncoder) (count : Z) (m : option mask_reader) : VmessEncoder :=
  mkEncoder (e_cipher e) (e_nonce e) count m (e_security e) (e_option e).

Definition encode (e : VmessEncoder) (plaintext : bytes) : run (result bytes StreamError * VmessEncoder) :=
  if raw_mode (e_security e) (e_option e) then Ret (Ok plaintext, e)
  else if e_security e =? SECURITY_NONE then
    let '(n, m) := mask_len (e_masking e) (as_u16 (len plaintext)) in
    Ret (Ok (to_be_bytes 2 n ++ plaintext), enc_with e (e_count e) m)
  else
    let nonce := make_nonce (e_count e) (e_nonce e) in
    let count := as_u16 (e_count e + 1) in
    c ← expect (e_cipher e);
    match cipher_encrypt c nonce plaintext with
    | None => Ret (Err EncryptFailed, enc_with e count (e_masking e))
    | Some ct =>
        let '(n, m) := mask_len (e_masking e) (as_u16 (len ct)) in
        Ret (Ok (to_be_bytes 2 n ++ ct), enc_with e count m)
    end.

Definition MAX_CHUNK : Z := 15000.

Record VmessWriteHalf : Type := mkWrite { sent : bytes; encoder : VmessEncoder; pending : bytes }.

Definition VmessWriteHalf_new (e : VmessEncoder) : VmessWriteHalf := mkWrite [] e [].

(** The loop that sends what is pending: whether it came to its end, the events left,
    and what then is sent and pending. *)
Fixpoint send_pending (evs : list (option Z)) (p out : bytes) : bool * list (option Z) * bytes * bytes :=
  match p with
  | [] => (true, evs, out, [])
  | _ =>
      match evs with
      | [] => (false, [], out, p)
      | None :: evs => (false, evs, out, p)
      | Some k :: evs => let n := Z.to_nat (Z.min k (len p)) in send_pending evs (drop n p) (out ++ take n p)
      end
  end.

(** A write: [Ready(Ok(n))], [Ready(Err(_))] or [Pending]. *)
Inductive poll : Type := Ready (n : Z) | ReadyErr (e : StreamError) | PollPending.

Definition vmess_poll_write (evs : list (option Z)) (data : bytes) (w : VmessWriteHalf) : run (poll * list (option Z) * VmessWriteHalf) :=
  let '(finished, evs, out, p) := send_pending evs (pending w) (sent w) in
  if finished then
    let chunk := take (Z.to_nat (Z.min (len data) MAX_CHUNK)) data in
    r ← encode (encoder w) chunk;
    match r with
    | (Ok f, e) => Ret (Ready (len chunk), evs, mkWrite out e f)
    | (Err x, e) => Ret (ReadyErr x, evs, mkWrite out e p)
    end
  else Ret (PollPending, evs, mkWrite out (encoder w) p).

(** [flush().await]: [poll_flush], polled again after each event. *)
Fixpoint flush_pending (evs : list (option Z)) (p out : bytes) : bool * list (option Z) * bytes * bytes :=
  match p with
  | [] => (true, evs, out, [])
  | _ =>
      match evs with
      | [] => (false, [], out, p)
      | None :: evs => flush_pending evs p out
      | Some k :: evs => let n := Z.to_nat (Z.min k (len p)) in flush_pending evs (drop n p) (out ++ take n p)
      end
  end.

Definition flush (evs : list (option Z)) (w : VmessWriteHalf) : bool * list (option Z) * VmessWriteHalf :=
  let '(finished, evs, out, p) := flush_pending evs (pending w) (sent w) in (finished, evs, mkWrite out (encoder w) p).

(** [write_all]: polled again after each event until all is taken. *)
Fixpoint vmess_write_all (fuel : nat) (evs : list (option Z)) (data : bytes) (w : VmessWriteHalf) : run (write_result * list (option Z) * VmessWriteHalf) :=
  match data with
  | [] => Ret (Written, evs, w)
  | _ =>
      match fuel with
      | O => Stuck
      | S fuel =>
          r ← vmess_poll_write evs data w;
          match r with
          | (Ready n, evs, w) => if n =? 0 then Ret (WriteZero, evs, w) else vmess_write_all fuel evs (drop (Z.to_nat n) data) w
          | (ReadyErr _, evs, w) => Ret (WriteZero, evs, w)
          | (PollPending, evs, w) => match evs with [] => Ret (Waiting, evs, w) | _ => vmess_write_all fuel evs data w end
          end
      end
  end.

(** The writes of [copy_half], one for each read of its reader. *)
Fixpoint copy_writes (fuel : nat) (evs : list (option Z)) (reads : list bytes) (w : VmessWriteHalf) : run (write_result * list (option Z) * VmessWriteHalf) :=
  match reads with
  | [] => Ret (Written, evs, w)
  | d :: reads =>
      r ← vmess_write_all fuel evs d w;
      match r with
      | (Written, evs, w) => copy_writes fuel evs reads w
      | _ => Ret r
      end
  end.

(** ** Receiving *)

Definition dec_with (d : VmessDecoder) (count : Z) (m : option mask_reader) (st : DecodeState) : VmessDecoder :=
  mkDecoder (d_cipher d) (d_nonce d) count m st (d_security d) (d_option d).

(** The [NeedData] turn of [try_decode]. *)
Definition decode_data (d : VmessDecoder) (raw : bytes) (expected : Z) : run (result (option bytes) StreamError * VmessDecoder * bytes) :=
  if len raw <? expected then Ret (Ok None, d, raw)
  else
    let chunk := take (Z.to_nat expected) raw in
    let raw := drop (Z.to_nat expected) raw in
    if d_security d =? SECURITY_NONE then Ret (Ok (Some chunk), dec_with d (d_count d) (d_masking d) NeedLen, raw)
    else
      let nonce := make_nonce (d_count d) (d_nonce d) in
      let d := dec_with d (as_u16 (d_count d + 1)) (d_masking d) NeedLen in
      c ← expect (d_cipher d);
      match cipher_decrypt c nonce chunk with
      | None => Ret (Err InvalidData, d, raw)
      | Some pt => Ret (Ok (Some pt), d, raw)
      end.

Definition try_decode (d : VmessDecoder) (raw : bytes) : run (result (option bytes) StreamError * VmessDecoder * bytes) :=
  if raw_mode (d_security d) (d_option d) then
    match raw with
    | [] => Ret (Ok None, d, raw)
    | _ => Ret (Ok (Some raw), d, [])
    end
  else
    match d_state d with
    | NeedData n => decode_data d raw n
    | NeedLen =>
        if len raw <? 2 then Ret (Ok None, d, raw)
        else
          let '(n, m) := mask_len (d_masking d) (from_be_bytes (take 2 raw)) in
          if n =? 0 then Ret (Ok (Some []), dec_with d (d_count d) m NeedLen, drop 2 raw)
          else decode_data (dec_with d (d_count d) m (NeedData n)) (drop 2 raw) n
    end.

Record VmessReadHalf : Type := mkRead { to_read : list bytes; decoder : VmessDecoder; raw_buf : bytes; decoded_buf : bytes }.

Definition VmessReadHalf_new (pieces : list bytes) (d : VmessDecoder) : VmessReadHalf := mkRead pieces d [] [].

Fixpoint poll_pieces (room : Z) (d : VmessDecoder) (raw : bytes) (pieces : list bytes) : run (result bytes StreamError * VmessReadHalf) :=
  r ← try_decode d raw;
  match r with
  | (Err e, d, raw) => Ret (Err e, mkRead pieces d raw [])
  | (Ok (Some data), d, raw) => let '(x, rest) := serve_buf room data in Ret (Ok x, mkRead pieces d raw rest)
  | (Ok None, d, raw) =>
      match pieces with
      | [] => Ret (Ok [], mkRead [] d raw [])
      | [] :: pieces => Ret (Ok [], mkRead pieces d raw [])
      | p :: pieces => poll_pieces room d (raw ++ p) pieces
      end
  end.

Definition vmess_poll_read (room : Z) (s : VmessReadHalf) : run (result bytes StreamError * VmessReadHalf) :=
  match decoded_buf s with
  | _ :: _ => let '(x, rest) := serve_buf room (decoded_buf s) in Ret (Ok x, mkRead (to_read s) (decoder s) (raw_buf s) rest)
  | [] => poll_pieces room (decoder s) (raw_buf s) (to_read s)
  end.

(** What [copy_half] makes of such a reader. *)
Definition copy_reads : nat -> VmessReadHalf -> run (bytes * VmessReadHalf) := copy_run vmess_poll_read.

(** [handle_udp]: each read of up to 65535 bytes that finds any is a datagram for the client. *)
Fixpoint udp_reads (fuel : nat) (s : VmessReadHalf) : run (list bytes * VmessReadHalf) :=
  match fuel with
  | O => Stuck
  | S fuel =>
      r ← vmess_poll_read 65535 s;
      match r with
      | (Ok [], s) | (Err _, s) => Ret ([], s)
      | (Ok d, s) => x ← udp_reads fuel s; Ret (d :: x.1, x.2)
      end
  end.

(** Each datagram is written and flushed; whether all were. *)
Fixpoint udp_writes (fuel : nat) (evs : list (option Z)) (datagrams : list bytes) (w : VmessWriteHalf) : run (bool * VmessWriteHalf) :=
  match datagrams with
  | [] => Ret (true, w)
  | d :: datagrams =>
      r ← vmess_write_all fuel evs d w;
      match r with
      | (Written, evs, w) => let '(finished, evs, w) := flush evs w in if finished then udp_writes fuel evs datagrams w else Ret (false, w)
      | (_, evs, w) => Ret (false, w)
      end
  end.
(** [VmessStream::new] over what the handshake leaves: the client writes under the keys
    of its request and reads under keys derived from them. *)
Definition VmessStream_new (pieces : list bytes) (h : RequestHeader) : run (VmessReadHalf * VmessWriteHalf) :=
  e ← VmessEncoder_new (security h) (option_bits h) (req_key h) (req_nonce h);
  d ← VmessDecoder_new (security h) (option_bits h) (resp_data_key (req_key h)) (resp_data_nonce (req_nonce h));
  Ret (VmessReadHalf_new pieces d, VmessWriteHalf_new e).
End Stream.

(** ** Frames *)

Lemma lxor_width w a b : 0 <= w -> in_width w a -> in_width w b -> in_width w (Z.lxor a b).
Proof.
  unfold in_width. intros Hw Ha Hb. assert (Z.lxor a b = Z.lxor a b mod 2 ^ w) as ->; [|apply Z.mod_pos_bound; lia].
  rewrite <-(Z.mod_small a (2 ^ w)), <-(Z.mod_small b (2 ^ w)) by lia. apply Z.bits_inj. intros i.
  destruct (Z.ltb_spec i 0) as [|Hi]; [by rewrite !Z.testbit_neg_r|].
  rewrite (Z.testbit_mod_pow2 (Z.lxor _ _)) by lia. rewrite !Z.lxor_spec, !Z.testbit_mod_pow2 by lia. by destruct (i <? w).
Qed.

Section Frames.
Context `{CratesLaws}.

(** An encoder or decoder of a framed stream: its cipher is there unless it needs none. *)
Definition framed (security opt : Z) (c : option VmessAeadCipher) : Prop :=
  raw_mode security opt = false /\ if security =? SECURITY_NONE then True else c <> None.

Definition enc_framed (e : VmessEncoder) : Prop := framed (e_security e) (e_option e) (e_cipher e).

(** The decoder is where the encoder is. *)
Definition in_step (d : VmessDecoder) (e : VmessEncoder) : Prop :=
  d_cipher d = e_cipher e /\ d_nonce d = e_nonce e /\ d_count d = e_count e /\ d_masking d = e_masking e /\
  d_security d = e_security e /\ d_option d = e_option e.

Definition same_params (e e' : VmessEncoder) : Prop :=
  e_cipher e' = e_cipher e /\ e_nonce e' = e_nonce e /\ e_security e' = e_security e /\ e_option e' = e_option e.

Lemma cipher_seals c n m : len m < 2 ^ 16 -> exists ct, cipher_encrypt c n m = Some ct /\ length ct = (length m + 16)%nat /\ cipher_decrypt c n ct = Some m.
Proof. intros Hm. destruct c as [k|k]; cbn [cipher_encrypt cipher_decrypt]; [by apply (aead_seals _ _ gcm_laws)|by apply (aead_seals _ _ chacha_laws)]. Qed.

(** A masked length comes back from the same place of the mask. *)
Lemma mask_roundtrip m n : in_width 16 n -> from_be_bytes (to_be_bytes 2 (mask_len m n).1) = (mask_len m n).1 /\
  mask_len m (mask_len m n).1 = (n, (mask_len m n).2).
Proof.
  intros Hn. destruct m as [[s p]|]; cbn [mask_len next_mask_u16 fst snd mask_seed mask_pos]; [|split; [by apply port_back|done]].
  set (k := from_be_bytes [shake128 s p; _]). assert (Hk : in_width 16 k).
  { assert (bytes_ok [shake128 s p; shake128 s (S p)]) as Hb by (repeat constructor; apply shake_byte). apply from_be_bytes_bound in Hb. exact Hb. }
  split; [apply port_back, lxor_width; done|]. by rewrite Z.lxor_assoc, Z.lxor_nilpotent, Z.lxor_0_r.
Qed.

Definition chunk_ok (p : bytes) : Prop := p <> [] /\ len p <= 65519.

(** What one frame is, and that the decoder in step takes it off. *)
Lemma encode_frame e p : enc_framed e -> chunk_ok p ->
  exists hdr body e', encode e p = Ret (Ok (hdr ++ body), e') /\ enc_framed e' /\ length hdr = 2%nat /\ body <> [] /\
    forall d, in_step d e -> exists m, mask_len (d_masking d) (from_be_bytes hdr) = (len body, m) /\
      exists d', in_step d' e' /\ d_state d' = NeedLen /\
        forall raw, decode_data (dec_with d (d_count d) m (NeedData (len body))) (body ++ raw) (len body) = Ret (Ok (Some p), d', raw).
Proof.
  intros He [Hp Hl]. pose proof He as [Hraw Hc]. unfold encode. rewrite Hraw. assert (0 < len p) by (destruct p; [done|len_solve]).
  assert (Hdec : forall (body raw : bytes), (len (body ++ raw) <? len body) = false /\ take (Z.to_nat (len body)) (body ++ raw) = body /\ drop (Z.to_nat (len body)) (body ++ raw) = raw).
  { intros body raw. split_and!; [apply Z.ltb_ge; rewrite len_app; pose proof (len_nonneg raw); lia| |].
    - apply take_app_length'. unfold len. lia.
    - apply drop_app_length'. unfold len. lia. }
  destruct (e_security e =? SECURITY_NONE) eqn:Es.
  - assert (Hw : in_width 16 (len p)) by (unfold in_width; lia). unfold as_u16, wrap. rewrite Z.mod_small by exact Hw.
    destruct (mask_roundtrip (e_masking e) _ Hw) as [M1 M2]. destruct (mask_len (e_masking e) (len p)) as [n m]. cbn [fst snd] in M1, M2.
    exists (to_be_bytes 2 n), p, (enc_with e (e_count e) m). split_and!; [done|exact He|apply length_to_be_bytes|done|].
    intros d (D1 & D2 & D3 & D4 & D5 & D6). exists m. rewrite M1, D4, M2. split; [done|].
    exists (dec_with d (d_count d) m NeedLen). split; [by split_and!|]. split; [done|]. intros raw.
    destruct (Hdec p raw) as (L & T & R). unfold decode_data. rewrite L, T, R. cbn [d_security dec_with]. by rewrite D5, Es.
  - destruct (e_cipher e) as [c|] eqn:Ec; [|done]. cbn [expect]. rewrite bind_Ret.
    destruct (cipher_seals c (make_nonce (e_count e) (e_nonce e)) p) as (ct & Ee & Lc & Ed); [lia|]. rewrite Ee.
    assert (Hct : len ct = len p + 16) by (unfold len; lia). assert (Hw : in_width 16 (len ct)) by (unfold in_width; lia).
    assert (as_u16 (len ct) = len ct) as -> by (apply Z.mod_small; exact Hw).
    destruct (mask_roundtrip (e_masking e) _ Hw) as [M1 M2]. destruct (mask_len (e_masking e) (len ct)) as [n m]. cbn [fst snd] in M1, M2.
    exists (to_be_bytes 2 n), ct, (enc_with e (as_u16 (e_count e + 1)) m).
    split_and!; [done|exact He|apply length_to_be_bytes|intros ->; change (len []) with 0 in Hct; lia|].
    intros d (D1 & D2 & D3 & D4 & D5 & D6). exists m. rewrite M1, D4, M2. split; [done|].
    exists (dec_with d (as_u16 (d_count d + 1)) m NeedLen). split; [split_and!; cbn; congruence|]. split; [done|]. intros raw.
    destruct (Hdec ct raw) as (L & T & R). unfold decode_data. rewrite L, T, R. cbn [d_security dec_with d_count d_nonce d_cipher d_masking d_option d_state].
    rewrite D1, D2, D3, D5, Es, Ec. cbn [expect]. by rewrite bind_Ret, Ed.
Qed.

(** The frames of a list of chunks. *)
Inductive encoded : VmessEncoder -> list bytes -> bytes -> VmessEncoder -> Prop :=
  | encoded_nil e : encoded e [] [] e
  | encoded_cons e p f e1 ps fs e2 : encode e p = Ret (Ok f, e1) -> encoded e1 ps fs e2 -> encoded e (p :: ps) (f ++ fs) e2.

(** What is still to come of [ps]: the decoder waits for a length or for a chunk. *)
Inductive awaits : VmessDecoder -> bytes -> list bytes -> Prop :=
  | awaits_len d e ps fs e2 : d_state d = NeedLen -> in_step d e -> enc_framed e -> Forall chunk_ok ps -> encoded e ps fs e2 -> awaits d fs ps
  | awaits_data d body p d' e ps fs e2 : d_state d = NeedData (len body) -> body <> [] -> framed (d_security d) (d_option d) (d_cipher d) -> chunk_ok p ->
      (forall raw, decode_data d (body ++ raw) (len body) = Ret (Ok (Some p), d', raw)) ->
      d_state d' = NeedLen -> in_step d' e -> enc_framed e -> Forall chunk_ok ps -> encoded e ps fs e2 -> awaits d (body ++ fs) (p :: ps).

Definition decoded_to (r : run (result (option bytes) StreamError * VmessDecoder * bytes)) (more : bytes) (ps : list bytes) : Prop :=
  (exists p ps' d' raw', r = Ret (Ok (Some p), d', raw') /\ ps = p :: ps' /\ chunk_ok p /\ awaits d' (raw' ++ more) ps') \/
  (exists d' raw', r = Ret (Ok None, d', raw') /\ awaits d' (raw' ++ more) ps /\ (more = [] -> ps = [])).

(** The [NeedData] turn, with part of the stream at hand. *)
Lemma decode_data_spec d body p d' e ps fs e2 raw more : d_state d = NeedData (len body) -> body <> [] -> framed (d_security d) (d_option d) (d_cipher d) -> chunk_ok p ->
  (forall raw, decode_data d (body ++ raw) (len body) = Ret (Ok (Some p), d', raw)) ->
  d_state d' = NeedLen -> in_step d' e -> enc_framed e -> Forall chunk_ok ps -> encoded e ps fs e2 -> raw ++ more = body ++ fs ->
  decoded_to (decode_data d raw (len body)) more (p :: ps).
Proof.
  intros Hs Hb Hf Hp Hd Hs' Hi He Hps Henc Heq. destruct (Z.ltb_spec (len raw) (len body)) as [Hlt|Hge].
  - right. exists d, raw. split_and!.
    + unfold decode_data. by rewrite (proj2 (Z.ltb_lt _ _)).
    + rewrite Heq. by eapply awaits_data.
    + intros ->. rewrite app_nil_r in Heq. subst raw. rewrite len_app in Hlt. pose proof (len_nonneg fs). lia.
  - left. assert (exists tl, raw = body ++ tl /\ fs = tl ++ more) as (tl & -> & ->).
    { exists (drop (length body) raw). assert (take (length body) raw = body) as E.
      { apply (f_equal (take (length body))) in Heq. rewrite take_app_length in Heq. rewrite take_app_le in Heq by (unfold len in Hge; lia). done. }
      split; [by rewrite <-E at 1; rewrite take_drop|]. apply (f_equal (drop (length body))) in Heq. rewrite drop_app_length in Heq.
      by rewrite drop_app_le in Heq by (unfold len in Hge; lia). }
    exists p, ps, d', tl. split_and!; [apply Hd|done|done|]. by eapply awaits_len.
Qed.

Lemma in_step_framed d e : in_step d e -> enc_framed e -> framed (d_security d) (d_option d) (d_cipher d).
Proof. intros (D1 & _ & _ & _ & D5 & D6). unfold enc_framed. by rewrite D1, D5, D6. Qed.

Lemma try_decode_spec d raw more ps : awaits d (raw ++ more) ps -> decoded_to (try_decode d raw) more ps.
Proof.
  intros Ha. remember (raw ++ more) as bs eqn:Eb. destruct Ha as [d e ps fs e2 Hs Hi He Hps Henc|d body p d' e ps fs e2 Hs Hb Hf Hp Hd Hs' Hi He Hps Henc].
  - destruct (in_step_framed d e Hi He) as [Hraw _]. unfold try_decode. rewrite Hraw, Hs. destruct (Z.ltb_spec (len raw) 2) as [Hlt|Hge].
    + right. exists d, raw. split_and!; [done|rewrite <-Eb; by eapply awaits_len|]. intros ->. rewrite app_nil_r in Eb. subst raw.
      destruct Henc as [|e p f e1 ps fs e2 Ee Henc]; [done|]. apply Forall_cons in Hps as [Hp _]. destruct (encode_frame e p He Hp) as (hdr & body & e' & E & _ & Lh & _).
      rewrite E in Ee. injection Ee as <- <-. rewrite !len_app in Hlt. unfold len in Hlt. lia.
    + destruct Henc as [e|e p f e1 ps fs e2 Ee Henc]; [symmetry in Eb; apply app_eq_nil in Eb as [-> _]; by cbn in Hge|].
      apply Forall_cons in Hps as [Hp Hps]. destruct (encode_frame e p He Hp) as (hdr & body & e' & E & He' & Lh & Hb & Hdec).
      rewrite E in Ee. injection Ee as <- <-. destruct (Hdec d Hi) as (m & Hm & d' & Hi' & Hs' & Hd).
      assert (take 2 raw = hdr /\ raw = hdr ++ drop 2 raw) as [-> Hr].
      { assert (take 2 raw = hdr) as E2; [|split; [exact E2|by rewrite <-E2, take_drop]]. rewrite <-app_assoc in Eb. apply (f_equal (take 2)) in Eb.
        rewrite take_app_length' in Eb by done. rewrite take_app_le in Eb by (unfold len in Hge; lia). done. }
      rewrite Hm. assert (0 < len body) by (destruct body; [done|len_solve]). rewrite (proj2 (Z.eqb_neq _ _)) by lia.
      eapply decode_data_spec; try done.
      * by apply (in_step_framed d e).
      * rewrite Hr, <-!app_assoc in Eb. by apply app_inv_head in Eb.
  - destruct Hf as [Hraw Hc]. unfold try_decode. rewrite Hraw, Hs. eapply decode_data_spec; done.
Qed.

(** A poll delivers the beginning of the next chunk, or nothing when the connection has ended. *)
Lemma poll_pieces_spec room pieces : 0 < room -> nonempty_chunks pieces -> forall d raw rest ps, awaits d (raw ++ concat pieces ++ rest) ps ->
  (exists x y ps' s', poll_pieces room d raw pieces = Ret (Ok x, s') /\ x <> [] /\ ps = (x ++ y) :: ps' /\ decoded_buf s' = y /\ chunk_ok (x ++ y) /\
     nonempty_chunks (to_read s') /\ awaits (decoder s') (raw_buf s' ++ concat (to_read s') ++ rest) ps' /\ (len (x ++ y) <= room -> y = [])) \/
  (exists s', poll_pieces room d raw pieces = Ret (Ok [], s') /\ (rest = [] -> ps = [])).
Proof.
  intros Hroom. induction pieces as [|p pieces IH]; intros Hne d raw rest ps Ha.
  all: destruct (try_decode_spec d raw _ ps Ha) as [(c & ps' & d' & raw' & E & -> & Hc & Ha')|(d' & raw' & E & Ha' & Hnil)]; cbn [poll_pieces]; rewrite E, bind_Ret.
  1, 3: left; destruct (serve_buf room c) as [x y] eqn:Es; pose proof (serve_buf_spec room c x y Hroom Es) as [Exy Hx]; exists x, y, ps';
    eexists; split_and!; [done|intros ->; destruct Hc as [Hc _]; by rewrite Hx in Hc|by rewrite Exy|done|by rewrite Exy|done|done|];
    rewrite Exy; intros Hl; unfold serve_buf in Es; rewrite Z.min_r in Es by done; injection Es as _ <-; apply drop_ge; unfold len; lia.
  - right. eexists. split; [done|]. intros ->. apply Hnil. done.
  - apply Forall_cons in Hne as [Hp Hne]. destruct p as [|b p]; [done|]. apply (IH Hne). cbn [concat] in Ha'. by rewrite <-app_assoc, app_assoc in Ha' |- *.
Qed.

(** The reader has [decoded_buf] and then the chunks [ps] before it, of which the last
    bytes, [rest], do not arrive. *)
Definition coming (s : VmessReadHalf) (rest : bytes) (ps : list bytes) : Prop :=
  nonempty_chunks (to_read s) /\ awaits (decoder s) (raw_buf s ++ concat (to_read s) ++ rest) ps.

Lemma poll_read_spec room s rest ps : 0 < room -> coming s rest ps ->
  exists x s', vmess_poll_read room s = Ret (Ok x, s') /\
    ((x = [] /\ decoded_buf s = [] /\ (rest = [] -> ps = [])) \/
     (x <> [] /\ x ++ decoded_buf s' = decoded_buf s /\ coming s' rest ps) \/
     (x <> [] /\ decoded_buf s = [] /\ exists y ps', decoded_buf s' = y /\ ps = (x ++ y) :: ps' /\ coming s' rest ps' /\ (len (x ++ y) <= room -> y = []))).
Proof.
  intros Hr [Hne Ha]. unfold vmess_poll_read. destruct (decoded_buf s) as [|b buf] eqn:Eb.
  - destruct (poll_pieces_spec room (to_read s) Hr Hne _ _ _ _ Ha) as [(x & y & ps' & s' & -> & Hx & -> & Hy & _ & Hn & Ha' & Hl)|(s' & -> & Hn)].
    + exists x, s'. split; [done|]. right. right. split_and!; [done..|]. by exists y, ps'.
    + exists [], s'. split; [done|]. by left.
  - destruct (serve_buf room (b :: buf)) as [x y] eqn:Es. apply serve_buf_spec in Es as [Exy Hx]; [|done].
    eexists x, _. split; [done|]. right. left. split_and!; [intros ->; by specialize (Hx eq_refl)|exact Exy|by split].
Qed.

Lemma copy_reads_spec fuel : forall s rest ps, coming s rest ps -> (length (decoded_buf s ++ concat ps) < fuel)%nat ->
  exists n s', copy_reads fuel s = Ret (decoded_buf s ++ concat (take n ps), s') /\ (rest = [] -> n = length ps).
Proof.
  induction fuel as [|fuel IH]; intros s rest ps Hc Hf; [lia|]. cbn [copy_reads copy_run].
  destruct (poll_read_spec BUF_SIZE s rest ps eq_refl Hc) as (x & s1 & -> & [(-> & Eb & Hn)|[(Hx & Ex & Hc')|(Hx & Eb & y & ps' & Ey & -> & Hc' & _)]]); rewrite bind_Ret.
  - exists 0%nat, s1. rewrite Eb. split; [done|]. intros Hr. by rewrite (Hn Hr).
  - destruct x as [|b x]; [done|]. destruct (IH s1 rest ps Hc') as (n & s2 & -> & Hn).
    { rewrite <-Ex, <-app_assoc in Hf. cbn [app length] in Hf. rewrite !length_app in *. lia. }
    exists n, s2. rewrite bind_Ret, <-Ex. split; [by rewrite <-app_assoc|done].
  - destruct x as [|b x]; [done|]. destruct (IH s1 rest ps' Hc') as (n & s2 & -> & Hn).
    { rewrite Eb in Hf. cbn [app concat length] in Hf. rewrite Ey. rewrite !length_app in *. cbn [length] in *. lia. }
    exists (S n), s2. rewrite bind_Ret, Eb, Ey. cbn [take concat app fst snd]. split; [by rewrite <-app_assoc|]. intros Hr. by rewrite (Hn Hr).
Qed.

(** Datagrams keep their boundaries. *)
Lemma udp_reads_spec fuel : forall s rest ps, coming s rest ps -> decoded_buf s = [] -> Forall (fun p : bytes => len p <= 65535) ps -> (length ps < fuel)%nat ->
  exists n s', udp_reads fuel s = Ret (take n ps, s') /\ (rest = [] -> n = length ps).
Proof.
  induction fuel as [|fuel IH]; intros s rest ps Hc Hb Hl Hf; [lia|]. cbn [udp_reads].
  destruct (poll_read_spec 65535 s rest ps eq_refl Hc) as (x & s1 & -> & [(-> & Eb & Hn)|[(Hx & Ex & Hc')|(Hx & Eb & y & ps' & Ey & -> & Hc' & Hy)]]); rewrite bind_Ret.
  - exists 0%nat, s1. split; [done|]. intros Hr. by rewrite (Hn Hr).
  - rewrite Hb in Ex. by apply app_eq_nil in Ex as [-> _].
  - apply Forall_cons in Hl as [Hp Hl]. rewrite (Hy Hp) in *. rewrite app_nil_r. destruct x as [|b x]; [done|].
    destruct (IH s1 rest ps' Hc' Ey Hl) as (n & s2 & -> & Hn); [cbn [length] in Hf; lia|]. exists (S n), s2. split; [done|]. intros Hr. by rewrite (Hn Hr).
Qed.

(** Without framing what arrives is what is delivered. *)
Lemma raw_try d raw : raw_mode (d_security d) (d_option d) = true ->
  try_decode d raw = Ret (match raw with [] => (Ok None, d, []) | _ => (Ok (Some raw), d, []) end).
Proof. intros Hr. unfold try_decode. rewrite Hr. by destruct raw. Qed.

Lemma raw_copy fuel pieces d : raw_mode (d_security d) (d_option d) = true -> nonempty_chunks pieces ->
  (length (concat pieces) < fuel)%nat -> exists s', copy_reads fuel (VmessReadHalf_new pieces d) = Ret (concat pieces, s').
Proof.
  intros Hr Hne Hf. apply (copy_run_all vmess_poll_read (fun s l =>
    exists ps buf, s = mkRead ps d [] buf /\ nonempty_chunks ps /\ l = buf ++ concat ps)); [|by exists pieces, []|done].
  clear Hne Hf. intros s l (ps & buf & -> & Hne & ->). unfold vmess_poll_read. cbn [decoded_buf to_read decoder raw_buf].
  assert (Hs : forall (b : Z) (c : bytes) qs, nonempty_chunks qs ->
    exists x s', (let '(x, rest) := serve_buf BUF_SIZE (b :: c) in Ret (Ok x, mkRead qs d [] rest) : run (result bytes StreamError * VmessReadHalf)) = Ret (Ok x, s') /\
      ((x = [] /\ (b :: c) ++ concat qs = []) \/ (x <> [] /\ exists l', (b :: c) ++ concat qs = x ++ l' /\
        exists ps buf, s' = mkRead ps d [] buf /\ nonempty_chunks ps /\ l' = buf ++ concat ps))).
  { intros b c qs Hqs. destruct (serve_buf BUF_SIZE (b :: c)) as [x y] eqn:Es. apply serve_buf_spec in Es as [Exy Hx]; [|done].
    eexists x, _. split; [done|]. right. split; [intros ->; by specialize (Hx eq_refl)|]. exists (y ++ concat qs).
    rewrite app_assoc, Exy. split; [done|]. by exists qs, y. }
  destruct buf as [|b buf]; [|by apply Hs]. destruct ps as [|p ps]; cbn [poll_pieces]; rewrite raw_try, bind_Ret by done; [eexists _, _; split; [done|by left]|].
  apply Forall_cons in Hne as [Hp Hne]. destruct p as [|b p]; [done|].
  destruct ps as [|q ps]; cbn [poll_pieces]; rewrite raw_try by done; cbn [app]; rewrite bind_Ret; by apply Hs.
Qed.

(** ** Sending *)

Definition enc_good (e : VmessEncoder) : Prop := raw_mode (e_security e) (e_option e) = true \/ enc_framed e.

Lemma encode_total e p : enc_good e -> chunk_ok p -> exists f e', encode e p = Ret (Ok f, e') /\ enc_good e'.
Proof.
  intros [Hr|Hf] Hp.
  - unfold encode. rewrite Hr. eexists p, e. split; [done|by left].
  - destruct (encode_frame e p Hf Hp) as (hdr & body & e' & -> & He & _). eexists _, e'. split; [done|by right].
Qed.

Lemma encoded_snoc e cs fs e1 c f e2 : encoded e cs fs e1 -> encode e1 c = Ret (Ok f, e2) -> encoded e (cs ++ [c]) (fs ++ f) e2.
Proof.
  induction 1 as [e|e p g e1 ps fs e3 Ee Henc IH]; intros Hc; cbn [app].
  - rewrite <-(app_nil_r f). eapply encoded_cons; [exact Hc|apply encoded_nil].
  - rewrite <-app_assoc. eapply encoded_cons; [exact Ee|by apply IH].
Qed.

Definition chunk_len : nat := Z.to_nat MAX_CHUNK.

Lemma chunk_len_Z : Z.of_nat chunk_len = 15000.
Proof. unfold chunk_len. by rewrite Z2Nat.id. Qed.

(** The pieces in which the writer takes what one write is given. *)
Fixpoint chunks_of (fuel : nat) (d : bytes) : list bytes :=
  match fuel, d with
  | S fuel, _ :: _ => take chunk_len d :: chunks_of fuel (drop chunk_len d)
  | _, _ => []
  end.

Definition chunked (reads : list bytes) : list bytes := flat_map (fun d => chunks_of (length d) d) reads.

Lemma chunks_ok fuel d : Forall (fun c : bytes => c <> [] /\ len c <= 15000) (chunks_of fuel d).
Proof.
  revert d. induction fuel as [|fuel IH]; intros [|b d]; cbn [chunks_of]; [constructor..|]. constructor; [|apply IH].
  pose proof chunk_len_Z. split; [destruct chunk_len; [lia|done]|]. unfold len. rewrite length_take. pose proof chunk_len_Z. lia.
Qed.

Lemma chunks_concat fuel d : (length d <= fuel)%nat -> concat (chunks_of fuel d) = d.
Proof.
  revert d. induction fuel as [|fuel IH]; intros [|b d] Hd; cbn [chunks_of]; try done; [cbn in Hd; lia|].
  cbn [concat]. rewrite IH; [apply take_drop|]. rewrite length_drop. pose proof chunk_len_Z. cbn [length] in *. lia.
Qed.

Lemma chunks_small fuel d : d <> [] -> len d <= 15000 -> (0 < fuel)%nat -> chunks_of fuel d = [d].
Proof.
  intros Hd Hl Hf. destruct fuel as [|fuel]; [lia|]. destruct d as [|b d]; [done|]. cbn [chunks_of]. pose proof chunk_len_Z.
  rewrite take_ge, drop_ge by (unfold len in Hl; lia). by destruct fuel.
Qed.

Lemma chunked_ok reads : Forall chunk_ok (chunked reads).
Proof.
  unfold chunked. induction reads as [|d reads IH]; cbn [flat_map]; [constructor|]. apply Forall_app_2; [|exact IH].
  eapply Forall_impl; [apply chunks_ok|]. intros c [H1 H2]. split; [done|lia].
Qed.

Lemma chunked_concat reads : concat (chunked reads) = concat reads.
Proof. unfold chunked. induction reads as [|d reads IH]; [done|]. cbn [flat_map concat]. by rewrite concat_app, chunks_concat, IH. Qed.

Lemma chunked_small ds : Forall (fun p : bytes => p <> [] /\ len p <= 15000) ds -> chunked ds = ds.
Proof.
  induction 1 as [|p ds [Hp Hl] _ IH]; [done|]. unfold chunked. cbn [flat_map]. fold (chunked ds).
  rewrite chunks_small, IH by first [done|destruct p; [done|cbn; lia]]. done.
Qed.

(** All of [cs] is framed, part of it sent. *)
Definition framing (e0 : VmessEncoder) (cs : list bytes) (w : VmessWriteHalf) : Prop := encoded e0 cs (sent w ++ pending w) (encoder w) /\ enc_good (encoder w).

(** The frame of the last chunk is wholly pending. *)
Definition lagging (e0 : VmessEncoder) (cs : list bytes) (w : VmessWriteHalf) : Prop :=
  exists front c e1, cs = front ++ [c] /\ encoded e0 front (sent w) e1 /\ encode e1 c = Ret (Ok (pending w), encoder w).

Lemma send_pending_spec evs p out : let '(finished, evs', out', p') := send_pending evs p out in
  out' ++ p' = out ++ p /\ (length evs' <= length evs)%nat /\ (if finished then p' = [] else (length evs' < length evs)%nat \/ evs' = []).
Proof.
  revert p out. induction evs as [|[k|] evs IH]; intros [|b p] out; cbn [send_pending]; try (split_and!; [done..|tauto || done]).
  - set (n := Z.to_nat _). specialize (IH (drop n (b :: p)) (out ++ take n (b :: p))). destruct (send_pending evs _ _) as [[[fin evs'] out'] p'].
    destruct IH as (E & L & F). rewrite <-app_assoc, take_drop in E. split_and!; [done|cbn; lia|]. destruct fin; [done|]. destruct F; [left; cbn; lia|by right].
  - split_and!; [done|cbn; lia|]. left. cbn. lia.
Qed.

Lemma flush_pending_spec evs p out : let '(finished, evs', out', p') := flush_pending evs p out in
  out' ++ p' = out ++ p /\ (length evs' <= length evs)%nat /\ (if finished then p' = [] else evs' = []).
Proof.
  revert p out. induction evs as [|[k|] evs IH]; intros [|b p] out; cbn [flush_pending]; try done.
  - set (n := Z.to_nat _). specialize (IH (drop n (b :: p)) (out ++ take n (b :: p))). destruct (flush_pending evs _ _) as [[[fin evs'] out'] p'].
    destruct IH as (E & L & F). rewrite <-app_assoc, take_drop in E. split_and!; [done|cbn; lia|done].
  - specialize (IH (b :: p) out). destruct (flush_pending evs _ _) as [[[fin evs'] out'] p']. destruct IH as (E & L & F). split_and!; [done|cbn; lia|done].
Qed.

Lemma poll_write_spec e0 cs evs data w : framing e0 cs w -> data <> [] ->
  exists r evs' w', vmess_poll_write evs data w = Ret (r, evs', w') /\ (length evs' <= length evs)%nat /\
    ((r = PollPending /\ framing e0 cs w' /\ ((length evs' < length evs)%nat \/ evs' = [])) \/
     (r = Ready (len (take chunk_len data)) /\ framing e0 (cs ++ [take chunk_len data]) w' /\ lagging e0 (cs ++ [take chunk_len data]) w')).
Proof.
  intros [Henc Hg] Hd. unfold vmess_poll_write. pose proof (send_pending_spec evs (pending w) (sent w)) as Hs.
  destruct (send_pending evs (pending w) (sent w)) as [[[fin evs'] out'] p']. destruct Hs as (E & L & F). destruct fin.
  - subst p'. rewrite app_nil_r in E. subst out'.
    assert (Hmin : take (Z.to_nat (Z.min (len data) MAX_CHUNK)) data = take chunk_len data).
    { pose proof chunk_len_Z. destruct (Z.le_gt_cases (len data) MAX_CHUNK) as [Hle|]; [|by rewrite Z.min_r by lia].
      rewrite Z.min_l by done. unfold MAX_CHUNK, len in *. by rewrite !take_ge by lia. }
    rewrite Hmin. set (c := take chunk_len data). assert (Hc : chunk_ok c).
    { pose proof chunk_len_Z. split; [unfold c; destruct data; [done|]; destruct chunk_len; [lia|done]|]. unfold c, len. rewrite length_take. lia. }
    destruct (encode_total _ c Hg Hc) as (f & e' & Ef & Hg'). rewrite Ef, bind_Ret. eexists _, evs', _. split; [done|]. split; [done|]. right.
    split; [done|]. split; [split; [by eapply encoded_snoc|done]|]. eexists cs, c, _. split; [done|]. cbn. by split.
  - eexists _, evs', _. split; [done|]. split; [done|]. left. split; [done|]. split; [split; [cbn; by rewrite E|done]|done].
Qed.

(** What a write that came to nothing leaves: the frames of part of the chunks. *)
Definition wrote (e0 : VmessEncoder) (cs new : list bytes) (r : write_result) (evs : list (option Z)) (w : VmessWriteHalf) : Prop :=
  match r with
  | Written => framing e0 (cs ++ new) w /\ (new <> [] -> lagging e0 (cs ++ new) w)
  | WriteZero => False
  | Waiting => evs = [] /\ exists part rest, new = part ++ rest /\ framing e0 (cs ++ part) w
  end.

Lemma wrote_more e0 cs c new r evs w : wrote e0 (cs ++ [c]) new r evs w -> (new = [] -> r = Written -> lagging e0 (cs ++ [c]) w) -> wrote e0 cs (c :: new) r evs w.
Proof.
  assert (Ec : forall l, (cs ++ [c]) ++ l = cs ++ c :: l) by (intros l; by rewrite <-app_assoc).
  destruct r; cbn [wrote]; [|done|].
  - rewrite Ec. intros [Hf Hl] Hn. split; [done|]. intros _. destruct new as [|x new]; [by apply Hn|by apply Hl].
  - intros (He & part & rest & -> & Hf) _. split; [done|]. exists (c :: part), rest. by rewrite <-Ec.
Qed.

Lemma chunks_of_cons fuel b d : chunks_of (S fuel) (b :: d) = take chunk_len (b :: d) :: chunks_of fuel (drop chunk_len (b :: d)).
Proof. done. Qed.

Lemma chunks_of_fuel n m d : (length d <= n)%nat -> (length d <= m)%nat -> chunks_of n d = chunks_of m d.
Proof.
  revert m d. induction n as [|n IH]; intros [|m] [|b d] Hn Hm; try done; try (cbn in *; lia). rewrite !chunks_of_cons. f_equal.
  pose proof chunk_len_Z. apply IH; rewrite length_drop; cbn [length] in *; lia.
Qed.

Lemma write_all_spec e0 fuel : forall evs data w cs, framing e0 cs w -> (length data + length evs < fuel)%nat ->
  exists r evs' w', vmess_write_all fuel evs data w = Ret (r, evs', w') /\ (length evs' <= length evs)%nat /\ wrote e0 cs (chunks_of (length data) data) r evs' w'.
Proof.
  induction fuel as [|fuel IH]; intros evs data w cs Hf Hl; [lia|]. destruct data as [|b data].
  { eexists Written, evs, w. split; [done|]. split; [done|]. cbn. rewrite app_nil_r. by split. }
  cbn [vmess_write_all]. destruct (poll_write_spec e0 cs evs (b :: data) w Hf) as (x & evs1 & w1 & -> & L1 & [(-> & Hf1 & Hev)|(-> & Hf1 & Hlag)]); [done|..]; rewrite bind_Ret.
  - destruct evs1 as [|ev evs1].
    + eexists Waiting, [], w1. split; [done|]. split; [cbn; lia|]. split; [done|]. exists [], (chunks_of (length (b :: data)) (b :: data)). by rewrite app_nil_r.
    + destruct Hev as [Hev|]; [|done]. destruct (IH (ev :: evs1) (b :: data) w1 cs Hf1) as (r & evs2 & w2 & E & L2 & Hw); [cbn [length] in *; lia|].
      exists r, evs2, w2. split; [done|]. split; [lia|done].
  - pose proof chunk_len_Z as Hcl. set (c := take chunk_len (b :: data)) in *. assert (Hc : (0 < length c)%nat) by (unfold c; rewrite length_take; cbn [length]; lia).
    rewrite (proj2 (Z.eqb_neq _ _)) by (unfold len; lia).
    assert (drop (Z.to_nat (len c)) (b :: data) = drop chunk_len (b :: data)) as ->.
    { unfold c, len. rewrite Nat2Z.id, length_take. destruct (Nat.le_ge_cases chunk_len (length (b :: data))); [by rewrite Nat.min_l|].
      by rewrite !drop_ge by lia. }
    assert (Hd : (length (drop chunk_len (b :: data)) <= length data)%nat) by (rewrite length_drop; cbn [length]; lia).
    destruct (IH evs1 (drop chunk_len (b :: data)) w1 (cs ++ [c]) Hf1) as (r & evs2 & w2 & E & L2 & Hw); [cbn [length] in *; lia|].
    exists r, evs2, w2. split; [exact E|]. split; [lia|]. cbn [length]. rewrite chunks_of_cons. fold c.
    rewrite (chunks_of_fuel _ (length data)) in Hw by lia. apply wrote_more; [exact Hw|]. intros Hn Hr.
    assert (drop chunk_len (b :: data) = []) as Ed by (destruct (drop chunk_len (b :: data)); [done|destruct data; [cbn in Hd; lia|done]]).
    rewrite Ed in E. destruct fuel; cbn in E; injection E as <- _ <-; exact Hlag.
Qed.

Lemma copy_writes_spec e0 fuel reads : Forall (fun d : bytes => d <> []) reads -> forall evs w cs, framing e0 cs w ->
  (length (concat reads) + length evs < fuel)%nat ->
  exists r evs' w', copy_writes fuel evs reads w = Ret (r, evs', w') /\ wrote e0 cs (chunked reads) r evs' w'.
Proof.
  induction 1 as [|d reads Hd Hrs IH]; intros evs w cs Hf Hl.
  { eexists Written, evs, w. split; [done|]. cbn. rewrite app_nil_r. by split. }
  cbn [copy_writes concat] in *. rewrite length_app in Hl.
  destruct (write_all_spec e0 fuel evs d w cs Hf) as (r & evs1 & w1 & -> & L1 & Hw); [lia|]. rewrite bind_Ret. unfold chunked. cbn [flat_map]. fold (chunked reads).
  destruct r; [|done|].
  - destruct Hw as [Hf1 Hl1]. destruct Hrs as [|d' reads Hd' Hrs].
    { cbn [copy_writes chunked flat_map]. eexists Written, evs1, w1. rewrite app_nil_r. by split. }
    destruct (IH evs1 w1 (cs ++ chunks_of (length d) d) Hf1) as (r & evs2 & w2 & -> & Hw2); [lia|].
    exists r, evs2, w2. split; [done|]. destruct r; cbn [wrote] in *; [|done|].
    + rewrite <-app_assoc in Hw2. destruct Hw2 as [Hf2 Hl2]. split; [done|]. intros _. apply Hl2. unfold chunked. cbn [flat_map]. by destruct d'.
    + destruct Hw2 as (He & part & rest & -> & Hf2). split; [done|]. exists (chunks_of (length d) d ++ part), rest. by rewrite <-!app_assoc in *.
  - destruct Hw as (He & part & rest & E & Hf1). eexists Waiting, evs1, w1. split; [done|]. split; [done|]. exists part, (rest ++ chunked reads). by rewrite E, <-app_assoc.
Qed.

Lemma udp_writes_spec e0 fuel ds : forall evs w cs, framing e0 cs w -> (length (concat ds) + length evs < fuel)%nat -> pending w = [] ->
  exists b w', udp_writes fuel evs ds w = Ret (b, w') /\ (b = true -> encoded e0 (cs ++ chunked ds) (sent w') (encoder w')).
Proof.
  induction ds as [|d ds IH]; intros evs w cs Hf Hl Hp.
  { eexists true, w. split; [done|]. intros _. destruct Hf as [Hf _]. rewrite Hp, app_nil_r in Hf. cbn. by rewrite app_nil_r. }
  cbn [udp_writes concat] in *. rewrite length_app in Hl.
  destruct (write_all_spec e0 fuel evs d w cs Hf) as (r & evs1 & w1 & -> & L1 & Hw); [lia|]. rewrite bind_Ret. unfold chunked. cbn [flat_map]. fold (chunked ds).
  destruct r; [|done|by eexists false, w1].
  destruct Hw as [Hf1 _]. unfold flush. pose proof (flush_pending_spec evs1 (pending w1) (sent w1)) as Hs.
  destruct (flush_pending evs1 (pending w1) (sent w1)) as [[[fin evs2] out] p]. destruct Hs as (E & L2 & F). destruct fin; [|by eexists false, _].
  subst p. rewrite app_nil_r in E. destruct (IH evs2 (mkWrite out (encoder w1) []) (cs ++ chunks_of (length d) d)) as (b & w2 & -> & Hb); [|cbn; lia|done|].
  - destruct Hf1 as [Hf1 Hg]. split; [cbn; by rewrite app_nil_r, E|done].
  - exists b, w2. split; [done|]. intros Ht. rewrite app_assoc. by apply Hb.
Qed.

(** The two ends of one direction, from the same parameters. *)
Lemma new_ends security opt key nonce : security = SECURITY_NONE \/ security = SECURITY_AES128_GCM \/ security = SECURITY_CHACHA20_POLY1305 ->
  exists e d, VmessEncoder_new security opt key nonce = Ret e /\ VmessDecoder_new security opt key nonce = Ret d /\
    in_step d e /\ d_state d = NeedLen /\ enc_good e /\ e_security e = security /\ e_option e = opt /\ e_nonce e = nonce.
Proof.
  intros Hs. assert (exists c, stream_cipher security key = Ret c /\ (if security =? SECURITY_NONE then True else c <> None)) as (c & E & Hc).
  { destruct Hs as [->|[->| ->]]; by eexists. }
  unfold VmessEncoder_new, VmessDecoder_new. rewrite E. eexists _, _. split_and!; [done|done|by split_and!|done| |done..].
  destruct (raw_mode security opt) eqn:Er; [by left|right]. by split.
Qed.

Lemma raw_encoded e cs fs e2 : raw_mode (e_security e) (e_option e) = true -> encoded e cs fs e2 -> fs = concat cs.
Proof.
  intros Hr. induction 1 as [|e p f e1 ps fs e2 Ee _ IH]; [done|]. unfold encode in Ee. rewrite Hr in Ee. injection Ee as <- <-. cbn [concat]. by rewrite IH.
Qed.

(** What a decoder in step makes of the frames, of part of them, in any pieces. *)
Lemma stream_delivered e d cs fs e2 pieces rest fuel : in_step d e -> d_state d = NeedLen -> enc_good e -> Forall chunk_ok cs -> encoded e cs fs e2 ->
  nonempty_chunks pieces -> concat pieces ++ rest = fs -> (length (concat cs) < fuel)%nat ->
  exists out s', copy_reads fuel (VmessReadHalf_new pieces d) = Ret (out, s') /\ out `prefix_of` concat cs /\ (rest = [] -> out = concat cs) /\
    (raw_mode (e_security e) (e_option e) = false -> exists n, out = concat (take n cs)).
Proof.
  intros Hi Hs Hg Hcs Henc Hne Hcat Hf. destruct (raw_mode (e_security e) (e_option e)) eqn:Er.
  - pose proof (raw_encoded e cs fs e2 Er Henc) as ->. destruct (raw_copy fuel pieces d) as (s' & E); [|done| |].
    + destruct Hi as (_ & _ & _ & _ & -> & ->). done.
    + rewrite <-Hcat, length_app in Hf. lia.
    + exists (concat pieces), s'. split_and!; [exact E|by exists rest| |done]. intros ->. by rewrite app_nil_r in Hcat.
  - destruct Hg as [|He]; [congruence|]. destruct (copy_reads_spec fuel (VmessReadHalf_new pieces d) rest cs) as (n & s' & E & Hn).
    + split; [done|]. cbn [raw_buf decoder to_read VmessReadHalf_new app]. rewrite Hcat. by eapply awaits_len.
    + done.
    + exists (concat (take n cs)), s'. split_and!; [exact E| | |by exists n].
      * exists (concat (drop n cs)). by rewrite <-concat_app, take_drop.
      * intros Hr. by rewrite (Hn Hr), firstn_all.
Qed.

Lemma encoded_total e cs : enc_good e -> Forall chunk_ok cs -> exists fs e2, encoded e cs fs e2.
Proof.
  intros Hg Hcs. revert e Hg. induction Hcs as [|c cs Hc Hcs IH]; intros e Hg; [eexists _, _; apply encoded_nil|].
  destruct (encode_total e c Hg Hc) as (f & e1 & E & Hg1). destruct (IH e1 Hg1) as (fs & e2 & Henc). eexists _, _. by eapply encoded_cons.
Qed.

Lemma encoded_fun e cs fs e2 fs' e2' : encoded e cs fs e2 -> encoded e cs fs' e2' -> fs = fs' /\ e2 = e2'.
Proof.
  intros H1. revert fs' e2'. induction H1 as [e|e p f e1 ps fs e2 E _ IH]; intros fs' e2' H2; inversion H2 as [|? ? f' e1' ? fs1 e2'' E' Henc]; subst; [done|].
  rewrite E in E'. injection E' as <- <-. destruct (IH _ _ Henc) as [-> ->]. done.
Qed.

Definition known_security (s : Z) : Prop := s = SECURITY_NONE \/ s = SECURITY_AES128_GCM \/ s = SECURITY_CHACHA20_POLY1305.

(** C32. The data stream of VMess: chunks of up to 65519 bytes, framed and sealed by an
    encoder, come out of the decoder with the same parameters as the same bytes,
    whatever pieces the connection delivers.  When the connection ends too early what
    comes out is a prefix, in a framed stream a whole number of chunks, and the reader
    ends as it does at the end of the stream. *)
Theorem vmess_stream_roundtrip security opt key nonce cs : known_security security -> Forall chunk_ok cs ->
  exists e d fs e2, VmessEncoder_new security opt key nonce = Ret e /\ VmessDecoder_new security opt key nonce = Ret d /\ encoded e cs fs e2 /\
    forall pieces rest fuel, nonempty_chunks pieces -> concat pieces ++ rest = fs -> (length (concat cs) < fuel)%nat ->
      exists out s', copy_reads fuel (VmessReadHalf_new pieces d) = Ret (out, s') /\ out `prefix_of` concat cs /\ (rest = [] -> out = concat cs) /\
        (raw_mode security opt = false -> exists n, out = concat (take n cs)).
Proof.
  intros Hs Hcs. destruct (new_ends security opt key nonce Hs) as (e & d & Ee & Ed & Hi & Hd & Hg & Hse & Hop & _).
  destruct (encoded_total e cs Hg Hcs) as (fs & e2 & Henc). exists e, d, fs, e2. split_and!; [done..|]. intros pieces rest fuel Hne Hcat Hf.
  rewrite <-Hse, <-Hop. by eapply stream_delivered.
Qed.

(** What the relay sends through a VMess connection lags one chunk behind: the
    writer only builds the frame of what it is given, and nothing flushes it.  However
    much the connection accepts, when the relay has written all that the client sent,
    the peer can decode all chunks but the last; of a request that fits one chunk,
    nothing has been sent. *)
Theorem vmess_upload_lags security opt key nonce reads evs fuel : known_security security -> Forall (fun d : bytes => d <> []) reads -> reads <> [] ->
  (length (concat reads) + length evs < fuel)%nat ->
  exists e d r evs' w, VmessEncoder_new security opt key nonce = Ret e /\ VmessDecoder_new security opt key nonce = Ret d /\
    copy_writes fuel evs reads (VmessWriteHalf_new e) = Ret (r, evs', w) /\ r <> WriteZero /\ (r = Waiting -> evs' = []) /\
    (r = Written -> forall q, reads = [q] -> len q <= 15000 -> sent w = []) /\
    (r = Written -> forall pieces fuel', nonempty_chunks pieces -> concat pieces = sent w -> (length (concat reads) < fuel')%nat ->
      exists s', copy_reads fuel' (VmessReadHalf_new pieces d) = Ret (concat (removelast (chunked reads)), s')).
Proof.
  intros Hs Hr Hne Hf. destruct (new_ends security opt key nonce Hs) as (e & d & Ee & Ed & Hi & Hd & Hg & Hse & Hop & _).
  destruct (copy_writes_spec e fuel reads Hr evs (VmessWriteHalf_new e) []) as (r & evs' & w & E & Hw); [split; [apply encoded_nil|done]|done|].
  exists e, d, r, evs', w. split_and!; [done..| | | |].
  - by destruct r.
  - intros ->. by destruct Hw.
  - intros -> q -> Hq. destruct Hw as [_ Hl]. apply Forall_cons in Hr as [Hqn _]. unfold chunked in Hl. cbn [flat_map app] in Hl.
    rewrite app_nil_r, chunks_small in Hl by first [done|destruct q; [done|cbn; lia]]. destruct Hl as (front & c & e1 & Ec & Henc & _); [done|].
    destruct front as [|x [|y front]]; [by inversion Henc|done|done].
  - intros -> pieces fuel' Hnp Hcat Hf'. destruct Hw as [_ Hl]. assert (Hcn : chunked reads <> []).
    { intros E0. pose proof (chunked_concat reads) as Ec. rewrite E0 in Ec. destruct Hr as [|x reads Hx Hr]; [done|]. by destruct x. }
    destruct (Hl Hcn) as (front & c & e1 & Ec & Henc & _). cbn [app] in Ec. rewrite Ec, removelast_last. pose proof (chunked_ok reads) as Hok.
    rewrite Ec in Hok. apply Forall_app in Hok as [Hok _]. destruct (stream_delivered e d front (sent w) e1 pieces [] fuel') as (out & s' & -> & _ & Ho & _); try done.
    + by rewrite app_nil_r.
    + rewrite <-chunked_concat, Ec, concat_app, length_app in Hf'. lia.
    + exists s'. by rewrite Ho.
Qed.

(** Datagrams through VMess: each is written and flushed, so the peer reads, one by
    one, the datagrams of up to 15000 bytes; a longer one arrives in pieces, an empty
    one not at all. *)
Lemma vmess_datagrams security key nonce ds evs fuel : known_security security -> (length (concat ds) + length evs < fuel)%nat ->
  let opt := request_option security CMD_UDP in
  exists e d b w, VmessEncoder_new security opt key nonce = Ret e /\ VmessDecoder_new security opt key nonce = Ret d /\
    udp_writes fuel evs ds (VmessWriteHalf_new e) = Ret (b, w) /\
    (b = true -> forall pieces fuel', nonempty_chunks pieces -> concat pieces = sent w -> (length (chunked ds) < fuel')%nat ->
      exists s', udp_reads fuel' (VmessReadHalf_new pieces d) = Ret (chunked ds, s')) /\
    (Forall (fun p : bytes => p <> [] /\ len p <= 15000) ds -> chunked ds = ds).
Proof.
  intros Hs Hf opt. destruct (new_ends security opt key nonce Hs) as (e & d & Ee & Ed & Hi & Hd & Hg & Hse & Hop & _).
  destruct (udp_writes_spec e fuel ds evs (VmessWriteHalf_new e) []) as (b & w & E & Hb); [split; [apply encoded_nil|done]|done..|].
  exists e, d, b, w. split_and!; [done..| |].
  - intros Hbt pieces fuel' Hnp Hcat Hf'. specialize (Hb Hbt). cbn [app] in Hb. assert (He : enc_framed e).
    { destruct Hg as [Hr|]; [|done]. rewrite Hse, Hop in Hr. by destruct Hs as [->|[->| ->]]. }
    pose proof (chunked_ok ds) as Hok. destruct (udp_reads_spec fuel' (VmessReadHalf_new pieces d) [] (chunked ds)) as (n & s' & -> & Hn); [|done| |done|].
    + split; [done|]. cbn [raw_buf decoder to_read VmessReadHalf_new app]. rewrite app_nil_r, Hcat. by eapply awaits_len.
    + eapply Forall_impl; [exact Hok|]. intros c [_ Hc]. lia.
    + exists s'. by rewrite (Hn eq_refl), firstn_all.
  - apply chunked_small.
Qed.
End Frames.

(** Every security of an accepted configuration has its ciphers. *)
Lemma stream_new_returns `{CratesLaws} s name command pieces c : resolve_security name = Some s -> returns (VmessStream_new pieces (RequestHeader_new s command c)).
Proof.
  intros Hs. assert (known_security s) as Hk.
  { unfold resolve_security in Hs. unfold known_security. repeat case_match; simplify_eq; tauto. }
  set (h := RequestHeader_new s command c). unfold VmessStream_new. change (security h) with s.
  destruct (new_ends s (option_bits h) (req_key h) (req_nonce h) Hk) as (e & _ & -> & _).
  destruct (new_ends s (option_bits h) (resp_data_key (req_key h)) (resp_data_nonce (req_nonce h)) Hk) as (_ & d & _ & -> & _). by eexists.
Qed.

(** ** Examples *)

Import (hints) Toy.

Definition secret : bytes := rand_array 16 42.

Lemma vmess_stream_roundtrip_witness :
  exists e d fs e2, VmessEncoder_new SECURITY_AES128_GCM 5 secret secret = Ret e /\ VmessDecoder_new SECURITY_AES128_GCM 5 secret secret = Ret d /\
    encoded e [lit "hello"; lit "world"] fs e2 /\
    exists out s', copy_reads 100 (VmessReadHalf_new [take 3 fs; drop 3 fs] d) = Ret (out, s') /\ out = lit "helloworld".
Proof.
  destruct (vmess_stream_roundtrip SECURITY_AES128_GCM 5 secret secret [lit "hello"; lit "world"]) as (e & d & fs & e2 & E & D & Henc & H).
  { right. by left. }
  { repeat constructor; by vm_compute. }
  exists e, d, fs, e2. split_and!; [done..|]. assert (length fs = 46%nat) as Hl.
  { injection E as <-. revert Henc. inversion 1 as [|? ? ? ? ? ? ? E1 H1]; subst. inversion H1 as [|? ? ? ? ? ? ? E2 H2]; subst. inversion H2; subst.
    vm_compute in E1. injection E1 as <- <-. vm_compute in E2. by injection E2 as <- <-. }
  destruct (H [take 3 fs; drop 3 fs] [] 100%nat) as (out & s' & Ho & _ & Hout & _).
  - repeat constructor; destruct fs as [|a [|b [|c [|f fs]]]]; done.
  - cbn [concat]. by rewrite !app_nil_r, take_drop.
  - cbn. lia.
  - exists out, s'. split; [exact Ho|]. by rewrite Hout.
Defined.

Lemma vmess_upload_lags_witness :
  exists e w, VmessEncoder_new SECURITY_AES128_GCM 5 secret secret = Ret e /\
    copy_writes 200 [Some 70; None; Some 2000] [lit "GET / HTTP/1.1"] (VmessWriteHalf_new e) = Ret (Written, [Some 70; None; Some 2000], w) /\ sent w = [].
Proof.
  destruct (vmess_upload_lags SECURITY_AES128_GCM 5 secret secret [lit "GET / HTTP/1.1"] [Some 70; None; Some 2000] 200) as (e & d & r & evs & w & E & _ & Hw & _ & _ & H & _).
  { right. by left. }
  { by repeat constructor. }
  { done. }
  { vm_compute. lia. }
  exists e, w. injection E as <-. vm_compute in Hw. injection Hw as <- <- <-. split; [done|]. split; [by vm_compute|].
  by apply (H eq_refl (lit "GET / HTTP/1.1") eq_refl).
Defined.

Lemma vmess_datagrams_witness :
  exists e d w, VmessEncoder_new SECURITY_NONE 1 secret secret = Ret e /\ VmessDecoder_new SECURITY_NONE 1 secret secret = Ret d /\
    udp_writes 100 [Some 4; None; Some 100; Some 100] [lit "query"; lit "again"] (VmessWriteHalf_new e) = Ret (true, w) /\
    exists s', udp_reads 10 (VmessReadHalf_new [sent w] d) = Ret ([lit "query"; lit "again"], s').
Proof.
  destruct (vmess_datagrams SECURITY_NONE secret secret [lit "query"; lit "again"] [Some 4; None; Some 100; Some 100] 100) as (e & d & b & w & E & D & Hw & H & _).
  { by left. }
  { vm_compute. lia. }
  change (request_option SECURITY_NONE CMD_UDP) with 1 in E, D. exists e, d, w. injection E as <-. injection D as <-. vm_compute in Hw. injection Hw as <- <-.
  split; [done|]. split; [done|]. split; [by vm_compute|]. apply (H eq_refl [_]); [by repeat constructor|by rewrite concat_cons, app_nil_r|vm_compute; lia].
Defined.
