(* ===== verification/Shadowsocks.v ===== *)
(** * Shadowsocks: [src/outbound/shadowsocks.rs] and
    [src/inbound/shadowsocks_server.rs].

    A connection starts with a salt in clear, from which both ends derive the key of
    the session; then come chunks, a sealed length and a sealed payload under one
    counter.  The first payload is the target.  The stream over xhttp takes frames from
    whatever pieces its transport delivers; how much a write of it accepts is an event.
    Ciphers and derivations are crates, salts are arguments. *)

From S2P Require Import Prelude RustStr Inbound Wire Tunnels Vmess.

#[local] Open Scope reflex_scope.

(** ** Methods and keys *)

Inductive Method : Type :=
  | Aes128Gcm
  | Aes256Gcm
  | ChaCha20Poly1305
  | Ss2022Aes128Gcm
  | Ss2022Aes256Gcm
  | Ss2022ChaCha20Poly1305
  | Plain.

#[export] Instance Method_eq_dec : EqDecision Method.
Proof. solve_decision. Defined.

Definition Method_from_str (s : str) : option Method :=
  let s := to_ascii_lowercase s in
  if bool_decide (s = lit "aes-128-gcm") then Some Aes128Gcm
  else if bool_decide (s = lit "aes-256-gcm") then Some Aes256Gcm
  else if bool_decide (s = lit "chacha20-ietf-poly1305" \/ s = lit "chacha20-poly1305") then Some ChaCha20Poly1305
  else if bool_decide (s = lit "2022-blake3-aes-128-gcm") then Some Ss2022Aes128Gcm
  else if bool_decide (s = lit "2022-blake3-aes-256-gcm") then Some Ss2022Aes256Gcm
  else if bool_decide (s = lit "2022-blake3-chacha20-poly1305") then Some Ss2022ChaCha20Poly1305
  else if bool_decide (s = lit "none" \/ s = lit "plain") then Some Plain
  else None.

Definition key_len (m : Method) : nat :=
  match m with
  | Aes128Gcm | Ss2022Aes128Gcm => 16
  | Aes256Gcm | ChaCha20Poly1305 | Ss2022Aes256Gcm | Ss2022ChaCha20Poly1305 => 32
  | Plain => 0
  end.

Definition salt_len (m : Method) : nat := key_len m.

Definition is_2022 (m : Method) : bool :=
  match m with Ss2022Aes128Gcm | Ss2022Aes256Gcm | Ss2022ChaCha20Poly1305 => true | _ => false end.

Definition TAG_LEN : Z := 16.
Definition MAX_PAYLOAD : Z := 0x3FFF.

(** AES-256-GCM, HKDF-SHA1 (salt, key, label, length), BLAKE3 and base64, besides the
    crates of VMess. *)
Class SsCrates : Type := {
  #[global] ss_crates :: Crates;
  gcm256_encrypt : bytes -> bytes -> bytes -> bytes -> option bytes;
  gcm256_decrypt : bytes -> bytes -> bytes -> bytes -> option bytes;
  hkdf_expand : bytes -> bytes -> bytes -> nat -> bytes;
  blake3_hash : bytes -> bytes;
  blake3_keyed_hash : bytes -> bytes -> bytes;
  blake3_derive_key : bytes -> bytes -> bytes;
  base64_decode : str -> option bytes
}.

Class SsLaws `{SsCrates} : Prop := {
  #[global] ss_laws :: CratesLaws;
  gcm256_laws : aead_laws gcm256_encrypt gcm256_decrypt;
  hkdf_len : forall salt k i n, length (hkdf_expand salt k i n) = n;
  blake3_keyed_len : forall k s, length (blake3_keyed_hash k s) = 32%nat;
  blake3_derive_len : forall c s, length (blake3_derive_key c s) = 32%nat
}.

Section Shadowsocks.
Context `{SsCrates}.

(** The loop of [evp_bytes_to_key]; a digest adds sixteen bytes. *)
Fixpoint evp_loop (fuel : nat) (password key prev : bytes) (n : nat) : run bytes :=
  if (length key <? n)%nat then
    match fuel with
    | O => Stuck
    | S fuel => let prev := md5 (prev ++ password) in evp_loop fuel password (key ++ prev) prev n
    end
  else Ret (take n key).

Definition evp_bytes_to_key (password : bytes) (n : nat) : run bytes := evp_loop n password [] [] n.

Definition hkdf_sha1 (master_key salt : bytes) (n : nat) : bytes := hkdf_expand salt master_key (lit "ss-subkey") n.

Definition ss2022_session_key (psk salt : bytes) (n : nat) : bytes :=
  let blake3_key := if len psk =? 32 then psk else blake3_hash psk in
  take n (blake3_keyed_hash blake3_key salt).

(** [ShadowsocksOutbound::new]: the key material of a password, and [derive_subkey]. *)
Definition key_material (m : Method) (password : str) : run (option bytes) :=
  if is_2022 m then
    Ret (psk ← base64_decode (trim password); if (length psk =? key_len m)%nat then Some psk else None)
  else if bool_decide (m = Plain) then Ret (Some [])
  else k ← evp_bytes_to_key password (key_len m); Ret (Some k).

Definition derive_subkey (m : Method) (material salt : bytes) : bytes :=
  if is_2022 m then ss2022_session_key material salt (key_len m) else hkdf_sha1 material salt (key_len m).

(** ** Sealing *)

Record AeadCipher : Type := mkAead { method : Method; subkey : bytes; counter : Z }.

Definition AeadCipher_new (m : Method) (k : bytes) : AeadCipher := mkAead m k 0.

Definition nonce_of (counter : Z) : bytes := to_le_bytes 8 counter ++ [0; 0; 0; 0].

Definition nonce (c : AeadCipher) : bytes := nonce_of (counter c).

Definition seal_inner (c : AeadCipher) (n buf : bytes) : option bytes :=
  match method c with
  | Aes128Gcm | Ss2022Aes128Gcm => gcm_encrypt (subkey c) n [] buf
  | Aes256Gcm | Ss2022Aes256Gcm => gcm256_encrypt (subkey c) n [] buf
  | ChaCha20Poly1305 | Ss2022ChaCha20Poly1305 => chacha_encrypt (subkey c) n [] buf
  | Plain => Some (buf ++ repeat 0 16)
  end.

Definition open_inner (c : AeadCipher) (n buf : bytes) : option bytes :=
  match method c with
  | Aes128Gcm | Ss2022Aes128Gcm => gcm_decrypt (subkey c) n [] buf
  | Aes256Gcm | Ss2022Aes256Gcm => gcm256_decrypt (subkey c) n [] buf
  | ChaCha20Poly1305 | Ss2022ChaCha20Poly1305 => chacha_decrypt (subkey c) n [] buf
  | Plain => Some buf
  end.

Definition advance (c : AeadCipher) : AeadCipher := mkAead (method c) (subkey c) (as_u64 (counter c + 1)).

Definition seal (c : AeadCipher) (buf : bytes) : option (bytes * AeadCipher) :=
  if bool_decide (method c = Plain) then Some (buf, c)
  else match seal_inner c (nonce c) buf with Some x => Some (x, advance c) | None => None end.

Definition open (c : AeadCipher) (buf : bytes) : option (bytes * AeadCipher) :=
  if bool_decide (method c = Plain) then Some (buf, c)
  else if len buf <? TAG_LEN then None
  else match open_inner c (nonce c) buf with Some x => Some (x, advance c) | None => None end.

(** ** Chunks over TCP *)

(** What [SsWriter::write_chunk] sends. *)
Definition write_chunk (c : AeadCipher) (data : bytes) : option (bytes * AeadCipher) :=
  l ← seal c (to_be_bytes 2 (as_u16 (len data)));
  p ← seal l.2 data;
  Some (l.1 ++ p.1, p.2).

Definition wopen (c : AeadCipher) (buf : bytes) : wire (bytes * AeadCipher) :=
  match open c buf with Some x => WRet x | None => WFail DecryptFailed end.

(** [SsReader::read_chunk] *)
Definition read_chunk (c : AeadCipher) : wire (bytes * AeadCipher) :=
  let* len_buf := read_exact 18 in
  let* l := wopen c len_buf in
  let* payload_len := wrun (b0 ← idx l.1 0; b1 ← idx l.1 1; Ret (Ok (from_be_bytes [b0; b1]))) in
  let* payload_buf := read_exact (Z.to_nat (payload_len + 16)) in
  wopen l.2 payload_buf.

Definition SS_ATYP : atyps := mkAtyps 1 4 3.

Definition encode_target (t : Target) : bytes := put_addr SS_ATYP t.

(** [connect_ss] and [ss_connect]: the bytes sent before the relay, and the ciphers of
    its two directions. *)
Definition connect_ss (m : Method) (material salt : bytes) (t : Target) : option (bytes * AeadCipher * AeadCipher) :=
  if bool_decide (m = Plain) then Some (encode_target t, AeadCipher_new Plain [], AeadCipher_new Plain [])
  else
    let k := derive_subkey m material salt in
    w ← write_chunk (AeadCipher_new m k) (encode_target t);
    Some (salt ++ w.1, AeadCipher_new m k, w.2).

(** [relay_ss]: the writes for the pieces read from the client, each of at most
    [MAX_PAYLOAD] bytes, over a connection that accepts them; *)
Fixpoint relay_up (c : AeadCipher) (reads : list bytes) : bytes * AeadCipher :=
  match reads with
  | [] => ([], c)
  | d :: reads =>
      match write_chunk c d with
      | None => ([], c)
      | Some (o, c) => let '(os, c) := relay_up c reads in (o ++ os, c)
      end
  end.

(** and what the client is written, up to the first chunk that cannot be read. *)
Fixpoint relay_down (fuel : nat) (c : AeadCipher) (i : bytes) : run bytes :=
  match fuel with
  | O => Stuck
  | S fuel =>
      match play (read_chunk c) i with
      | (Ok ((chunk, c), i), _) => r ← relay_down fuel c i; Ret (chunk ++ r)
      | (Err _, _) => Ret []
      end
  end.

(** ** Datagrams *)

Definition udp_packet (m : Method) (material salt : bytes) (t : Target) (data : bytes) : option bytes :=
  let payload := encode_target t ++ data in
  if bool_decide (m = Plain) then Some payload
  else x ← seal (AeadCipher_new m (derive_subkey m material salt)) payload; Some (salt ++ x.1).

(** What the client is sent of the datagrams that come back; one too short ends it. *)
Fixpoint udp_replies (m : Method) (received : list bytes) : list bytes :=
  match received with
  | [] => []
  | b :: received => if Z.of_nat (salt_len m) + TAG_LEN <? len b then drop (salt_len m) b :: udp_replies m received else []
  end.

(** ** The stream over xhttp *)

Record SsXhttpStream : Type := mkXhttp {
  x_to_read : list bytes;
  x_sent : bytes;
  x_enc : AeadCipher;
  x_dec : AeadCipher;
  x_read_buf : bytes;
  x_raw_buf : bytes;
  x_salt_sent : bool;
  x_salt : bytes
}.

(** [ss_wrap_xhttp]: the stream with what it has already sent. *)
Definition ss_wrap_xhttp (pieces : list bytes) (m : Method) (k salt first_payload : bytes) : option SsXhttpStream :=
  w ← write_chunk (AeadCipher_new m k) first_payload;
  Some (mkXhttp pieces (salt ++ w.1) w.2 (AeadCipher_new m k) [] [] false []).

(** The loop of [poll_write] over pieces of [MAX_PAYLOAD] bytes. *)
Fixpoint seal_pieces (fuel : nat) (c : AeadCipher) (data : bytes) : option (bytes * AeadCipher) :=
  match fuel, data with
  | S fuel, _ :: _ =>
      let n := Z.to_nat MAX_PAYLOAD in
      w ← write_chunk c (take n data);
      r ← seal_pieces fuel w.2 (drop n data);
      Some (w.1 ++ r.1, r.2)
  | _, _ => Some ([], c)
  end.

Definition xhttp_sent (s : SsXhttpStream) (out : bytes) (c : AeadCipher) : SsXhttpStream :=
  mkXhttp (x_to_read s) out c (x_dec s) (x_read_buf s) (x_raw_buf s) true (x_salt s).

(** A write: [Some (Some n)] is [Ready(Ok(n))], [Some None] is [Pending], [None] an
    error; the event is how many bytes the transport takes, or that it is not ready. *)
Definition xhttp_write (ev : option Z) (data : bytes) (s : SsXhttpStream) : option (option Z) * SsXhttpStream :=
  let out := if x_salt_sent s then [] else x_salt s in
  match seal_pieces (length data) (x_enc s) data with
  | None => (None, s)
  | Some (o, c) =>
      match ev with
      | Some k => (Some (Some (len data)), xhttp_sent s (x_sent s ++ take (Z.to_nat k) (out ++ o)) c)
      | None => (Some None, xhttp_sent s (x_sent s) c)
      end
  end.

Definition xhttp_read_state (s : SsXhttpStream) (pieces : list bytes) (c : AeadCipher) (buf raw : bytes) : SsXhttpStream :=
  mkXhttp pieces (x_sent s) (x_enc s) c buf raw (x_salt_sent s) (x_salt s).

(** The loop of [poll_read]: [None] while a frame is not there whole. *)
Definition xhttp_frame (c : AeadCipher) (raw : bytes) : run (result (option (bytes * AeadCipher * bytes)) WireError) :=
  if len raw <? 18 then Ret (Ok None)
  else
    match open_inner c (nonce c) (take 18 raw) with
    | None => Ret (Err DecryptFailed)
    | Some len_peek =>
        b0 ← idx len_peek 0;
        b1 ← idx len_peek 1;
        let total_needed := 18 + from_be_bytes [b0; b1] + 16 in
        if len raw <? total_needed then Ret (Ok None)
        else
          match open c (take 18 raw) with
          | None => Ret (Err DecryptFailed)
          | Some (_, c) =>
              p ← slice raw 18 total_needed;
              match open c p with
              | None => Ret (Err DecryptFailed)
              | Some (payload, c) => Ret (Ok (Some (payload, c, drop (Z.to_nat total_needed) raw)))
              end
          end
    end.

Fixpoint xhttp_pieces (room : Z) (s : SsXhttpStream) (raw : bytes) (pieces : list bytes) : run (result bytes WireError * SsXhttpStream) :=
  f ← xhttp_frame (x_dec s) raw;
  match f with
  | Err e => Ret (Err e, xhttp_read_state s pieces (x_dec s) [] raw)
  | Ok (Some (payload, c, raw)) => let '(x, rest) := serve_buf room payload in Ret (Ok x, xhttp_read_state s pieces c rest raw)
  | Ok None =>
      match pieces with
      | [] => Ret (Ok [], xhttp_read_state s [] (x_dec s) [] raw)
      | [] :: pieces => Ret (Ok [], xhttp_read_state s pieces (x_dec s) [] raw)
      | p :: pieces => xhttp_pieces room s (raw ++ p) pieces
      end
  end.

Definition xhttp_read (room : Z) (s : SsXhttpStream) : run (result bytes WireError * SsXhttpStream) :=
  match x_read_buf s with
  | _ :: _ => let '(x, rest) := serve_buf room (x_read_buf s) in Ret (Ok x, xhttp_read_state s (x_to_read s) (x_dec s) rest (x_raw_buf s))
  | [] => xhttp_pieces room s (x_raw_buf s) (x_to_read s)
  end.

(** ** The inbound *)

Definition SsMethod_parse (s : str) : option Method := Method_from_str s.

Definition server_key (m : Method) (password : str) : run (option bytes) :=
  if (key_len m =? 0)%nat then Ret (Some [])
  else if is_2022 m then Ret (k ← base64_decode password; if (length k =? key_len m)%nat then Some k else None)
  else k ← evp_bytes_to_key password (key_len m); Ret (Some k).

Definition derive_2022_session_key (key salt : bytes) (n : nat) : bytes :=
  take n (blake3_derive_key (lit "shadowsocks 2022 session subkey") (key ++ salt)).

Definition server_session_key (m : Method) (key salt : bytes) : bytes :=
  if is_2022 m then derive_2022_session_key key salt (key_len m) else hkdf_sha1 key salt (key_len m).

Definition wopt {A} (o : option A) (e : WireError) : wire A := match o with Some a => WRet a | None => WFail e end.

(** [AeadDecryptor::read_chunk] of a new decryptor. *)
Definition server_read_chunk (m : Method) (key : bytes) : wire bytes :=
  let* len_buf := read_exact 18 in
  let* l := wopt (open_inner (AeadCipher_new m key) (nonce_of 0) len_buf) DecryptFailed in
  let* n := wrun (b0 ← idx l 0; b1 ← idx l 1; Ret (Ok (from_be_bytes [b0; b1]))) in
  let* _ := wensure ((0 <? n) && (n <=? MAX_PAYLOAD)) BadFraming in
  let* payload_buf := read_exact (Z.to_nat (n + 16)) in
  let* p := wopt (open_inner (AeadCipher_new m key) (nonce_of 1) payload_buf) DecryptFailed in
  WRet (take (Z.to_nat n) p).

(** The target at the head of a buffer. *)
Definition read_socks5_addr_from_cursor (buf : bytes) : result Target WireError :=
  match (play (let* atyp := read_u8 in read_addr SS_ATYP atyp) buf).1 with Ok (t, _) => Ok t | Err e => Err e end.

(** [handle_conn] up to its connection to the target. *)
Definition ss_accept (m : Method) (key : bytes) : wire Target :=
  if (key_len m =? 0)%nat then let* atyp := read_u8 in read_addr SS_ATYP atyp
  else
    let* salt := read_exact (key_len m) in
    let* first_payload := server_read_chunk m (server_session_key m key salt) in
    wrun (Ret (read_socks5_addr_from_cursor first_payload)).

(** [SsServerStream]: its reads and writes. *)
Definition server_stream_read : option bytes := None.
Definition server_stream_write (data : bytes) : option Z := None.

(** [tokio::io::copy] from what reads give ([None] is an error) to a writer: what was written. *)
Fixpoint io_copy (reads : list (option bytes)) (write : bytes -> option Z) : bytes :=
  match reads with
  | Some d :: reads => match d, write d with _ :: _, Some _ => d ++ io_copy reads write | _, _ => [] end
  | _ => []
  end.

(** The relay of [handle_conn] with a sealed method: what the target and what the
    client are written, from what the target sends. *)
Definition ss_server_relay (from_target : list bytes) : bytes * bytes :=
  (io_copy [server_stream_read] (fun d => Some (len d)), io_copy (map Some from_target) server_stream_write).
End Shadowsocks.

(** ** Sealed chunks *)

Section Laws.
Context `{SsLaws}.

Lemma evp_returns fuel password key prev n : (n <= length key + 16 * fuel)%nat -> exists k, evp_loop fuel password key prev n = Ret k /\ length k = n.
Proof.
  revert key prev. induction fuel as [|fuel IH]; intros key prev Hn; cbn [evp_loop]; destruct (Nat.ltb_spec (length key) n) as [Hl|Hl]; try lia.
  - eexists. split; [done|]. rewrite length_take. lia.
  - apply IH. rewrite length_app, md5_len. lia.
  - eexists. split; [done|]. rewrite length_take. lia.
Qed.

Definition sealed (m : Method) : Prop := m <> Plain.

Lemma open_seal_inner c n m : sealed (method c) -> len m < 2 ^ 16 ->
  exists x, seal_inner c n m = Some x /\ length x = (length m + 16)%nat /\ open_inner c n x = Some m.
Proof.
  intros Hc Hm. unfold seal_inner, open_inner. destruct (method c); try done.
  all: first [by apply (aead_seals _ _ gcm_laws)|by apply (aead_seals _ _ gcm256_laws)|by apply (aead_seals _ _ chacha_laws)].
Qed.

Lemma seal_open c m : sealed (method c) -> len m < 2 ^ 16 ->
  exists x, seal c m = Some (x, advance c) /\ length x = (length m + 16)%nat /\ open c x = Some (m, advance c) /\ open_inner c (nonce c) x = Some m.
Proof.
  intros Hc Hm. destruct (open_seal_inner c (nonce c) m Hc Hm) as (x & E & L & D). exists x. unfold seal, open, TAG_LEN.
  rewrite !bool_decide_false, E, D by exact Hc. rewrite (proj2 (Z.ltb_ge _ _)) by (unfold len; lia). done.
Qed.

Definition fits_chunk (d : bytes) : Prop := len d <= 65535.

(** A chunk and what is read of it, in one read each or from a buffer. *)
Lemma chunk_shape c d : sealed (method c) -> fits_chunk d -> exists l p,
  write_chunk c d = Some (l ++ p, advance (advance c)) /\ length l = 18%nat /\ length p = (length d + 16)%nat /\
  open_inner c (nonce c) l = Some (to_be_bytes 2 (len d)) /\ open c l = Some (to_be_bytes 2 (len d), advance c) /\
  open (advance c) p = Some (d, advance (advance c)) /\ open_inner (advance c) (nonce (advance c)) p = Some d.
Proof.
  unfold fits_chunk. intros Hc Hd. pose proof (len_nonneg d). assert (as_u16 (len d) = len d) as E16 by (apply Z.mod_small; lia).
  destruct (seal_open c (to_be_bytes 2 (len d)) Hc) as (l & El & Ll & Ol & Oi); [by rewrite len_to_be_bytes|].
  destruct (seal_open (advance c) d Hc) as (p & Ep & Lp & Op & Oq); [lia|]. exists l, p. unfold write_chunk. rewrite E16, El. cbn [mbind option_bind snd fst].
  rewrite Ep. rewrite length_to_be_bytes in Ll. done.
Qed.

Lemma len_bytes d : fits_chunk d -> exists b0 b1, idx (to_be_bytes 2 (len d)) 0 = Ret b0 /\ idx (to_be_bytes 2 (len d)) 1 = Ret b1 /\ from_be_bytes [b0; b1] = len d.
Proof.
  unfold fits_chunk. intros Hd. pose proof (len_nonneg d). assert (in_width 16 (len d)) as Hw by (unfold in_width; lia).
  destruct (port_bytes _ Hw) as (a & b & -> & E). by exists a, b.
Qed.

Lemma len_header_back d : fits_chunk d -> forall {A} (k : Z -> run A),
  (b0 ← idx (to_be_bytes 2 (len d)) 0; b1 ← idx (to_be_bytes 2 (len d)) 1; k (from_be_bytes [b0; b1])) = k (len d).
Proof.
  intros Hd A k. destruct (len_bytes d Hd) as (b0 & b1 & -> & -> & <-). done.
Qed.

Lemma read_chunk_plays c d : sealed (method c) -> fits_chunk d ->
  exists o, write_chunk c d = Some (o, advance (advance c)) /\ plays (read_chunk c) o (d, advance (advance c)) [] /\ (34 <= length o)%nat.
Proof.
  intros Hc Hd. destruct (chunk_shape c d Hc Hd) as (l & p & -> & Ll & Lp & _ & Ol & Op & _). exists (l ++ p). split; [done|]. split; [|rewrite length_app; lia].
  intros rest. unfold read_chunk. rewrite <-app_assoc, (play_pass _ _ _ _ _ (plays_exact 18 l Ll)). unfold wopen at 1. rewrite Ol.
  cbn [wbind fst snd]. rewrite (len_header_back d Hd (fun n => Ret (Ok n))). cbn [wrun wbind].
  rewrite (play_pass _ _ _ _ _ (plays_exact (Z.to_nat (len d + 16)) p ltac:(unfold len; lia))). unfold wopen. by rewrite Op.
Qed.

(** Reading what was written with the same key and counter. *)
Lemma relay_both reads : Forall fits_chunk reads -> forall c fuel, sealed (method c) -> (length reads < fuel)%nat ->
  relay_down fuel c (relay_up c reads).1 = Ret (concat reads).
Proof.
  induction 1 as [|d reads Hd _ IH]; intros c fuel Hc Hf; (destruct fuel as [|fuel]; [lia|]); cbn [relay_up relay_down]; [done|].
  destruct (read_chunk_plays c d Hc Hd) as (o & E & Hp & _). rewrite E. specialize (IH (advance (advance c)) fuel Hc).
  destruct (relay_up (advance (advance c)) reads) as [os c']. cbn [fst] in *. rewrite (Hp os). rewrite IH by (cbn in Hf; lia). done.
Qed.

Lemma relay_down_returns fuel c i : (length i < fuel)%nat -> returns (relay_down fuel c i).
Proof.
  revert c i. induction fuel as [|fuel IH]; intros c i Hf; [lia|]. cbn [relay_down].
  destruct (play (read_chunk c) i) as [[[[chunk c'] r]|e] o] eqn:E; [|by eexists]. unfold read_chunk in E. play_step E. play_step E. play_step E. play_step E.
  assert (length r < fuel)%nat as Hr; [|destruct (IH c' r Hr) as [x ->]; by eexists].
  assert (Hw : forall A (m : wire A) i x r o, (match m with WRet _ | WFail _ => True | _ => False end) -> play m i = (Ok (x, r), o) -> r = i).
  { intros A [] ? ? ? ? Hm HE; try done. by injection HE as _ -> _. }
  apply Hw in E, P, P0; [|first [match goal with |- context [wrun ?m] => destruct m as [[]| |]; done end | unfold wopen; repeat case_match; done]..].
  subst. rewrite !length_app in Hf. lia.
Qed.

(** ** The connection *)

Lemma encode_target_ok t : target_ok t -> fits_chunk (encode_target t) /\ 0 < len (encode_target t) <= MAX_PAYLOAD.
Proof.
  intros Ht. unfold fits_chunk, MAX_PAYLOAD, encode_target. destruct t as [d p|[[v|v] p]]; cbn [put_addr ip sock_port target_ok] in *.
  - destruct Ht as [Hd _]. pose proof (len_nonneg d). rewrite !len_app, !len_cons, len_to_be_bytes. change (len (@nil Z)) with 0. lia.
  - rewrite !len_app, len_addr_octets, len_cons, len_to_be_bytes. change (len (@nil Z)) with 0. lia.
  - rewrite !len_app, len_addr_octets, len_cons, len_to_be_bytes. change (len (@nil Z)) with 0. lia.
Qed.

Lemma connect_ss_sealed m material salt t : sealed m -> target_ok t ->
  exists o, connect_ss m material salt t =
    Some (salt ++ o, AeadCipher_new m (derive_subkey m material salt), advance (advance (AeadCipher_new m (derive_subkey m material salt)))) /\
    write_chunk (AeadCipher_new m (derive_subkey m material salt)) (encode_target t) = Some (o, advance (advance (AeadCipher_new m (derive_subkey m material salt)))).
Proof.
  intros Hm Ht. unfold connect_ss. rewrite bool_decide_false by exact Hm. destruct (encode_target_ok t Ht) as [Hf _].
  destruct (read_chunk_plays (AeadCipher_new m (derive_subkey m material salt)) (encode_target t) Hm Hf) as (o & E & _). exists o. by rewrite E.
Qed.

(** What the server of a session reads: the target, then what the client has sent. *)
Lemma session_read m material salt t reads : sealed m -> target_ok t -> Forall fits_chunk reads ->
  exists o dec enc, connect_ss m material salt t = Some (salt ++ o, dec, enc) /\ dec = AeadCipher_new m (derive_subkey m material salt) /\
    forall fuel, (S (length reads) < fuel)%nat -> relay_down fuel dec (o ++ (relay_up enc reads).1) = Ret (encode_target t ++ concat reads).
Proof.
  intros Hm Ht Hr. destruct (connect_ss_sealed m material salt t Hm Ht) as (o & E & Ew). eexists o, _, _. split; [exact E|]. split; [done|].
  intros fuel Hf. destruct (encode_target_ok t Ht) as [Hft _].
  pose proof (relay_both (encode_target t :: reads) ltac:(by constructor) (AeadCipher_new m (derive_subkey m material salt)) fuel Hm ltac:(cbn; lia)) as Hb.
  cbn [relay_up concat] in Hb. rewrite Ew in Hb. by destruct (relay_up _ reads).
Qed.

(** ** The inbound *)

Lemma wrun_ok {A} (a : A) : wrun (Ret (Ok a)) = WRet a.
Proof. done. Qed.

Lemma server_chunk_plays m k d : sealed m -> fits_chunk d -> 0 < len d <= MAX_PAYLOAD ->
  exists o, write_chunk (AeadCipher_new m k) d = Some (o, advance (advance (AeadCipher_new m k))) /\ plays (server_read_chunk m k) o d [].
Proof.
  intros Hm Hd Hl. destruct (chunk_shape (AeadCipher_new m k) d Hm Hd) as (l & p & -> & Ll & Lp & Oi & _ & _ & Op). exists (l ++ p). split; [done|].
  intros rest. unfold server_read_chunk. rewrite <-app_assoc, (play_pass _ _ _ _ _ (plays_exact 18 l Ll)).
  change (nonce_of 0) with (nonce (AeadCipher_new m k)). rewrite Oi. cbn [wopt wbind]. rewrite (len_header_back d Hd (fun n => Ret (Ok n))), wrun_ok. cbn [wbind].
  rewrite play_check by (rewrite (proj2 (Z.ltb_lt _ _)), (proj2 (Z.leb_le _ _)) by lia; done).
  rewrite (play_pass _ _ _ _ _ (plays_exact (Z.to_nat (len d + 16)) p ltac:(unfold len; lia))).
  change (open_inner (AeadCipher_new m k) (nonce_of 1) p) with (open_inner (advance (AeadCipher_new m k)) (nonce (advance (AeadCipher_new m k))) p). rewrite Op.
  cbn [wopt wbind play]. by rewrite take_ge by (unfold len; lia).
Qed.

Lemma ss_codes : atyps_ok SS_ATYP.
Proof. by vm_compute. Qed.

Lemma addr_plays t : target_ok t -> plays (let* atyp := read_u8 in read_addr SS_ATYP atyp) (encode_target t) t [].
Proof.
  intros Ht. unfold encode_target. rewrite put_addr_cons. change (?c :: ?r) with ([c] ++ r) at 1.
  eapply plays_read; [apply plays_u8|]. by apply read_addr_plays; [apply ss_codes|].
Qed.

Lemma cursor_target t : target_ok t -> read_socks5_addr_from_cursor (encode_target t) = Ok t.
Proof. intros Ht. unfold read_socks5_addr_from_cursor. pose proof (addr_plays t Ht []) as E. rewrite app_nil_r in E. by rewrite E. Qed.

(** With the methods before 2022 both ends derive the same keys. *)
Lemma same_keys m password material : is_2022 m = false -> key_material m password = Ret (Some material) -> server_key m password = Ret (Some material).
Proof.
  intros H2 Hk. unfold key_material, server_key in *. rewrite H2 in *. destruct (decide (m = Plain)) as [->|Hm]; [exact Hk|].
  rewrite bool_decide_false in Hk by done. destruct m; try done; exact Hk.
Qed.

Lemma ss_accept_sealed m material salt t : sealed m -> is_2022 m = false -> target_ok t -> length salt = key_len m ->
  exists hello dec enc, connect_ss m material salt t = Some (hello, dec, enc) /\ plays (ss_accept m material) hello t [].
Proof.
  intros Hm H2 Ht Hs. destruct (connect_ss_sealed m material salt t Hm Ht) as (o & E & Ew). eexists _, _, _. split; [exact E|].
  destruct (encode_target_ok t Ht) as [Hf Hl]. unfold ss_accept. assert ((key_len m =? 0)%nat = false) as -> by (destruct m; done).
  assert (server_session_key m material salt = derive_subkey m material salt) as Ek by (unfold server_session_key, derive_subkey; by rewrite H2).
  destruct (server_chunk_plays m (derive_subkey m material salt) (encode_target t) Hm Hf Hl) as (o' & Ew' & Hp). rewrite Ew in Ew'. injection Ew' as <-.
  eapply plays_read; [by apply plays_exact|]. rewrite Ek. eapply plays_last; [exact Hp|]. rewrite cursor_target by done. apply plays_ret.
Qed.

Lemma plain_chunk d : write_chunk (AeadCipher_new Plain []) d = Some (to_be_bytes 2 (as_u16 (len d)) ++ d, AeadCipher_new Plain []).
Proof. done. Qed.

Lemma plain_frames reads : (relay_up (AeadCipher_new Plain []) reads).1 = flat_map (fun d => to_be_bytes 2 (as_u16 (len d)) ++ d) reads.
Proof.
  induction reads as [|d reads IH]; [done|]. cbn [relay_up flat_map]. rewrite plain_chunk.
  destruct (relay_up (AeadCipher_new Plain []) reads) as [os c]. cbn [fst] in *. by rewrite IH.
Qed.

(** ** Datagrams *)

Lemma udp_packet_sealed m material salt t data : sealed m -> len (encode_target t ++ data) < 2 ^ 16 -> length salt = salt_len m ->
  exists x, udp_packet m material salt t data = Some (salt ++ x) /\ length x = (length (encode_target t ++ data) + 16)%nat /\
    open (AeadCipher_new m (derive_subkey m material salt)) x = Some (encode_target t ++ data, advance (AeadCipher_new m (derive_subkey m material salt))).
Proof.
  intros Hm Hl Hs. unfold udp_packet. rewrite bool_decide_false by exact Hm.
  destruct (seal_open (AeadCipher_new m (derive_subkey m material salt)) _ Hm Hl) as (x & -> & L & O & _). by exists x.
Qed.

Lemma payload_read t data : target_ok t -> play (let* atyp := read_u8 in read_addr SS_ATYP atyp) (encode_target t ++ data) = (Ok (t, data), []).
Proof. intros Ht. apply (addr_plays t Ht data). Qed.

(** ** Over xhttp *)

Definition piece_ok (d : bytes) : Prop := d <> [] /\ fits_chunk d.

Lemma relay_up_cons c d ps : sealed (method c) -> fits_chunk d -> exists l p, (relay_up c (d :: ps)).1 = l ++ p ++ (relay_up (advance (advance c)) ps).1 /\
  length l = 18%nat /\ length p = (length d + 16)%nat /\ open_inner c (nonce c) l = Some (to_be_bytes 2 (len d)) /\
  open c l = Some (to_be_bytes 2 (len d), advance c) /\ open (advance c) p = Some (d, advance (advance c)).
Proof.
  intros Hc Hd. destruct (chunk_shape c d Hc Hd) as (l & p & E & Ll & Lp & Oi & Ol & Op & _). exists l, p. cbn [relay_up]. rewrite E.
  destruct (relay_up (advance (advance c)) ps) as [os c']. cbn [fst]. by rewrite <-app_assoc.
Qed.

(** A prefix of known length of what two lists together are. *)
Lemma app_prefix {A} (raw more l r : list A) : raw ++ more = l ++ r -> (length l <= length raw)%nat -> exists tl, raw = l ++ tl /\ tl ++ more = r.
Proof.
  intros E Hl. exists (drop (length l) raw). assert (take (length l) raw = l) as Et.
  { apply (f_equal (take (length l))) in E. by rewrite take_app_le, take_app_length in E by done. }
  split; [by rewrite <-Et at 1; rewrite take_drop|]. apply (f_equal (drop (length l))) in E. by rewrite drop_app_le, drop_app_length in E by done.
Qed.

Lemma xhttp_frame_spec c raw more ps : sealed (method c) -> Forall piece_ok ps -> raw ++ more = (relay_up c ps).1 ->
  (exists d ps' raw', xhttp_frame c raw = Ret (Ok (Some (d, advance (advance c), raw'))) /\ ps = d :: ps' /\ raw' ++ more = (relay_up (advance (advance c)) ps').1) \/
  (xhttp_frame c raw = Ret (Ok None) /\ (more = [] -> ps = [])).
Proof.
  intros Hc Hps Heq. unfold xhttp_frame. destruct (Z.ltb_spec (len raw) 18) as [Hlt|Hge].
  { right. split; [done|]. intros ->. rewrite app_nil_r in Heq. subst raw. destruct ps as [|d ps]; [done|]. apply Forall_cons in Hps as [[_ Hd] _].
    destruct (relay_up_cons c d ps Hc Hd) as (l & p & E & Ll & _). rewrite E, len_app in Hlt. pose proof (len_nonneg (p ++ (relay_up (advance (advance c)) ps).1)). unfold len in *. lia. }
  destruct ps as [|d ps]; [cbn in Heq; apply app_eq_nil in Heq as [-> _]; by cbn in Hge|]. apply Forall_cons in Hps as [[_ Hd] Hps].
  destruct (relay_up_cons c d ps Hc Hd) as (l & p & E & Ll & Lp & Oi & Ol & Op). rewrite E in Heq.
  destruct (app_prefix raw more l _ Heq) as (tl & -> & Heq'); [unfold len in Hge; lia|].
  rewrite (take_app_length' l tl 18) by done. rewrite Oi. destruct (len_bytes d Hd) as (b0 & b1 & -> & -> & Ev).
  rewrite !bind_Ret, Ev.
  destruct (Z.ltb_spec (len (l ++ tl)) (18 + len d + 16)) as [Hlt|Hge2].
  - right. split; [done|]. intros ->. rewrite app_nil_r in Heq'. subst tl. rewrite !len_app in Hlt. pose proof (len_nonneg (relay_up (advance (advance c)) ps).1). unfold len in *. lia.
  - left. rewrite Ol. destruct (app_prefix tl more p _ Heq') as (tl2 & -> & Heq2); [unfold len in Hge2; rewrite length_app in Hge2; lia|].
    rewrite (slice_seg (l ++ p ++ tl2) l p tl2) by (unfold len; done || lia). rewrite bind_Ret, Op. exists d, ps, tl2. split_and!; [|done|done].
    do 4 f_equal. rewrite app_assoc. apply drop_app_length'. rewrite length_app. unfold len. lia.
Qed.

Lemma xhttp_pieces_spec room pieces : 0 < room -> nonempty_chunks pieces -> forall s raw ps, sealed (method (x_dec s)) -> Forall piece_ok ps ->
  raw ++ concat pieces = (relay_up (x_dec s) ps).1 ->
  exists x s', xhttp_pieces room s raw pieces = Ret (Ok x, s') /\
    ((x = [] /\ ps = []) \/ (x <> [] /\ exists y ps', ps = (x ++ y) :: ps' /\ x_read_buf s' = y /\ nonempty_chunks (x_to_read s') /\
       x_dec s' = advance (advance (x_dec s)) /\ x_raw_buf s' ++ concat (x_to_read s') = (relay_up (x_dec s') ps').1)).
Proof.
  intros Hroom. induction pieces as [|p pieces IH]; intros Hne s raw ps Hc Hps Heq.
  all: destruct (xhttp_frame_spec (x_dec s) raw _ ps Hc Hps Heq) as [(d & ps' & raw' & E & -> & Heq')|(E & Hn)]; cbn [xhttp_pieces]; rewrite E, bind_Ret.
  1, 3: destruct (serve_buf room d) as [x y] eqn:Es; apply serve_buf_spec in Es as [Exy Hx]; [|done]; apply Forall_cons in Hps as [[Hd _] _];
    eexists x, _; split; [done|]; right; split; [intros ->; by rewrite Hx in Hd|]; exists y, ps'; rewrite Exy; by split_and!.
  - eexists [], _. split; [done|]. left. split; [done|]. by apply Hn.
  - apply Forall_cons in Hne as [Hp Hne]. destruct p as [|b p]; [done|]. apply (IH Hne s); [done|done|]. by rewrite <-app_assoc.
Qed.

(** Whatever pieces the transport delivers, the stream reads what the server wrote. *)
Lemma xhttp_download s ps fuel : sealed (method (x_dec s)) -> nonempty_chunks (x_to_read s) -> Forall piece_ok ps ->
  x_read_buf s = [] -> x_raw_buf s ++ concat (x_to_read s) = (relay_up (x_dec s) ps).1 -> (length (concat ps) < fuel)%nat ->
  exists s', copy_run xhttp_read fuel s = Ret (concat ps, s').
Proof.
  intros Hc Hne Hps Hb Heq Hf. apply (copy_run_all xhttp_read (fun s l => sealed (method (x_dec s)) /\ nonempty_chunks (x_to_read s) /\
    exists ps, Forall piece_ok ps /\ x_raw_buf s ++ concat (x_to_read s) = (relay_up (x_dec s) ps).1 /\ l = x_read_buf s ++ concat ps)); [| |done].
  2: { split_and!; [done..|]. exists ps. by rewrite Hb. }
  clear -H0. intros s l (Hc & Hne & ps & Hps & Heq & ->). unfold xhttp_read. destruct (x_read_buf s) as [|b buf] eqn:Eb.
  - destruct (xhttp_pieces_spec BUF_SIZE (x_to_read s) eq_refl Hne s _ ps Hc Hps Heq) as (x & s' & -> & [[-> ->]|(Hx & y & ps' & -> & Ey & Hne' & Ed & Heq')]).
    + exists [], s'. split; [done|]. by left.
    + exists x, s'. split; [done|]. right. split; [done|]. exists (y ++ concat ps'). cbn [concat app]. rewrite <-app_assoc. split; [done|].
      apply Forall_cons in Hps as [_ Hps]. split_and!; [by rewrite Ed|done|]. exists ps'. by rewrite Ey.
  - destruct (serve_buf BUF_SIZE (b :: buf)) as [x y] eqn:Es. apply serve_buf_spec in Es as [Exy Hx]; [|done]. eexists x, _. split; [done|]. right.
    split; [intros ->; by specialize (Hx eq_refl)|]. exists (y ++ concat ps). rewrite app_assoc, Exy. split; [done|]. split_and!; [done|done|]. by exists ps.
Qed.

(** The pieces that one write seals; a write that the transport takes whole sends their frames. *)
Fixpoint xhttp_chunks (fuel : nat) (d : bytes) : list bytes :=
  match fuel, d with
  | S fuel, _ :: _ => take (Z.to_nat MAX_PAYLOAD) d :: xhttp_chunks fuel (drop (Z.to_nat MAX_PAYLOAD) d)
  | _, _ => []
  end.

Lemma take_fits d : fits_chunk (take (Z.to_nat MAX_PAYLOAD) d).
Proof. unfold fits_chunk, len, MAX_PAYLOAD. rewrite length_take. lia. Qed.

Lemma seal_pieces_frames fuel c d : sealed (method c) -> exists c', seal_pieces fuel c d = Some ((relay_up c (xhttp_chunks fuel d)).1, c').
Proof.
  intros Hc. revert c d Hc. induction fuel as [|fuel IH]; intros c [|b d] Hc; cbn [seal_pieces xhttp_chunks]; try (by eexists).
  destruct (read_chunk_plays c _ Hc (take_fits (b :: d))) as (o & E & _). cbn [relay_up]. rewrite E. cbn [mbind option_bind fst snd].
  destruct (IH (advance (advance c)) (drop (Z.to_nat MAX_PAYLOAD) (b :: d)) Hc) as (c' & ->). cbn [mbind option_bind fst snd]. eexists.
  by destruct (relay_up (advance (advance c)) _).
Qed.

Lemma xhttp_upload s d k : x_salt_sent s = true -> sealed (method (x_enc s)) -> len (relay_up (x_enc s) (xhttp_chunks (length d) d)).1 <= k ->
  exists s', xhttp_write (Some k) d s = (Some (Some (len d)), s') /\ x_sent s' = x_sent s ++ (relay_up (x_enc s) (xhttp_chunks (length d) d)).1.
Proof.
  intros Hs Hc Hk. unfold xhttp_write. rewrite Hs. destruct (seal_pieces_frames (length d) (x_enc s) d Hc) as (c' & ->).
  eexists. split; [done|]. cbn [x_sent xhttp_sent app]. by rewrite take_ge by (unfold len in Hk; lia).
Qed.


(** The Shadowsocks inbound: from the first bytes of the outbound with the same
    password it reads the very target with every method before 2022, but with a sealed
    method it then relays nothing in either direction, since the reads and writes of its
    stream are not implemented.  Without a method it passes on the bytes that follow,
    where the outbound has put a length before each piece. *)
Theorem ss_inbound m password material salt t reads from_target : key_material m password = Ret (Some material) -> is_2022 m = false ->
  target_ok t -> length salt = salt_len m ->
  server_key m password = Ret (Some material) /\
  exists hello dec enc, connect_ss m material salt t = Some (hello, dec, enc) /\ plays (ss_accept m material) hello t [] /\
    (m <> Plain -> ss_server_relay from_target = ([], [])) /\
    (m = Plain -> (relay_up enc reads).1 = flat_map (fun d => to_be_bytes 2 (as_u16 (len d)) ++ d) reads).
Proof.
  intros Hk H2 Ht Hs. split; [by apply same_keys|]. destruct (decide (m = Plain)) as [->|Hm].
  - eexists _, _, _. split; [by unfold connect_ss; rewrite bool_decide_true|]. split_and!; [by apply addr_plays|done|intros _; apply plain_frames].
  - destruct (ss_accept_sealed m material salt t Hm H2 Ht Hs) as (hello & dec & enc & E & Hp). exists hello, dec, enc. split_and!; [done|done| |done].
    intros _. unfold ss_server_relay. f_equal. by destruct from_target as [|[|b d] from_target].
Qed.

(** Shadowsocks datagrams: a server opens each one with the key of its salt and finds
    the target and the payload; of a datagram that a server seals the same way the client
    is handed the sealed text as it came, longer than target and payload together, so
    never the payload. *)
Lemma ss_datagrams m material salt t data salt' t' reply : sealed m -> target_ok t -> len (encode_target t ++ data) < 2 ^ 16 -> length salt = salt_len m ->
  target_ok t' -> len (encode_target t' ++ reply) < 2 ^ 16 -> length salt' = salt_len m ->
  (exists x, udp_packet m material salt t data = Some (salt ++ x) /\
     exists c, open (AeadCipher_new m (derive_subkey m material salt)) x = Some (encode_target t ++ data, c) /\
       play (let* atyp := read_u8 in read_addr SS_ATYP atyp) (encode_target t ++ data) = (Ok (t, data), [])) /\
  (exists x, udp_packet m material salt' t' reply = Some (salt' ++ x) /\ udp_replies m [salt' ++ x] = [x] /\ len x = len (encode_target t') + len reply + 16).
Proof.
  intros Hm Ht Hl Hs Ht' Hl' Hs'. split.
  - destruct (udp_packet_sealed m material salt t data Hm Hl Hs) as (x & E & _ & O). exists x. split; [exact E|]. eexists. split; [exact O|by apply payload_read].
  - destruct (udp_packet_sealed m material salt' t' reply Hm Hl' Hs') as (x & E & L & _). exists x. split; [exact E|].
    assert (len x = len (encode_target t') + len reply + 16) as Lx by (unfold len; rewrite L, length_app; lia).
    destruct (encode_target_ok t' Ht') as [_ [Hpos _]]. pose proof (len_nonneg reply). split; [|exact Lx]. cbn [udp_replies].
    rewrite len_app, (proj2 (Z.ltb_lt _ _)) by (unfold len in *; unfold TAG_LEN; lia). f_equal. by apply drop_app_length'.
Qed.
End Laws.

(** ** A concrete instance and examples *)

Module SsToy.

#[export] Instance crates : SsCrates := {
  ss_crates := Toy.crates;
  gcm256_encrypt := Toy.seal;
  gcm256_decrypt := Toy.open;
  hkdf_expand salt k i n := take n (salt ++ k ++ i ++ repeat 0 n);
  blake3_hash s := take 32 (s ++ repeat 0 32);
  blake3_keyed_hash k s := take 32 (s ++ k ++ repeat 0 32);
  blake3_derive_key c s := take 32 (s ++ c ++ repeat 0 32);
  base64_decode s := Some s
}.

#[export] Instance laws : SsLaws.
Proof.
  split; [exact Toy.laws|exact Toy.aead|..].
  - intros salt k i n. cbn [hkdf_expand crates]. rewrite !app_assoc. apply Toy.length_padded.
  - intros k s. cbn [blake3_keyed_hash crates]. rewrite app_assoc. apply Toy.length_padded.
  - intros c s. cbn [blake3_derive_key crates]. rewrite app_assoc. apply Toy.length_padded.
Qed.

Definition salt : bytes := repeat 9 16.
Definition server_salt : bytes := repeat 8 16.
Definition material : bytes := repeat 5 16.
End SsToy.
Import (hints) SsToy.


Lemma ss_inbound_witness :
  exists material hello dec enc, key_material Aes128Gcm (lit "secret") = Ret (Some material) /\
    connect_ss Aes128Gcm material SsToy.salt Toy.site = Some (hello, dec, enc) /\
    plays (ss_accept Aes128Gcm material) hello Toy.site [] /\ ss_server_relay [lit "answer"] = ([], []).
Proof.
  destruct (key_material Aes128Gcm (lit "secret")) as [[material|]| |] eqn:Ek; [|by vm_compute in Ek..].
  destruct (ss_inbound Aes128Gcm (lit "secret") material SsToy.salt Toy.site [] [lit "answer"]) as (_ & hello & dec & enc & E & Hp & Hr & _); [exact Ek|done|repeat split; by vm_compute|done|].
  exists material, hello, dec, enc. split; [done|]. split; [exact E|]. split; [exact Hp|by apply Hr].
Defined.

Lemma ss_datagrams_witness :
  exists x, udp_packet Aes128Gcm SsToy.material SsToy.server_salt Toy.site (lit "answer") = Some (SsToy.server_salt ++ x) /\
    udp_replies Aes128Gcm [SsToy.server_salt ++ x] = [x] /\ len x = 15 + 6 + 16.
Proof.
  destruct (ss_datagrams Aes128Gcm SsToy.material SsToy.salt Toy.site (lit "query") SsToy.server_salt Toy.site (lit "answer")) as (_ & x & E & R & L).
  all: try (repeat split; by vm_compute).
  exists x. split; [exact E|]. split; [exact R|exact L].
Defined.

(** A server that starts with a salt of its own, as the format at the head of
    shadowsocks.rs has it, is not understood. *)
Example server_salt_not_read :
  relay_down 100 (AeadCipher_new Aes128Gcm (derive_subkey Aes128Gcm SsToy.material SsToy.salt))
    (SsToy.server_salt ++ (relay_up (AeadCipher_new Aes128Gcm (derive_subkey Aes128Gcm SsToy.material SsToy.server_salt)) [lit "hello"]).1) = Ret [].
Proof. by vm_compute. Qed.

(** The two derivations of the methods of 2022 differ, so the inbound refuses its own outbound. *)
Example inbound_2022_refuses :
  match connect_ss Ss2022Aes128Gcm SsToy.material SsToy.salt Toy.site with
  | Some (hello, _, _) => (play (ss_accept Ss2022Aes128Gcm SsToy.material) hello).1 = Err DecryptFailed
  | None => False
  end.
Proof. by vm_compute. Qed.

(** A write that finds the transport not ready has used up its nonces: what is sent when
    it is polled again is not what a reader of the stream expects; *)
Example xhttp_pending_skips :
  match ss_wrap_xhttp [] Aes128Gcm SsToy.material SsToy.salt (encode_target Toy.site) with
  | Some s => counter (x_enc (xhttp_write None (lit "hello") s).2) = counter (x_enc s) + 2
  | None => False
  end.
Proof. by vm_compute. Qed.

(** and one of which the transport takes a part is reported as done. *)
Example xhttp_partial_write_lost :
  match ss_wrap_xhttp [] Aes128Gcm SsToy.material SsToy.salt (encode_target Toy.site) with
  | Some s => let '(r, s') := xhttp_write (Some 10) (lit "hello") s in r = Some (Some 5) /\ len (x_sent s') = len (x_sent s) + 10
  | None => False
  end.
Proof. by vm_compute. Qed.
