(* ===== verification/Hy2Codec.v ===== *)
(** * Hy2Codec: the encodings of [src/outbound/hy2.rs].

    QUIC's variable-length integers, HTTP/3 frames, and the QPACK header block
    with its Huffman-coded strings.  The standards' own encoders (RFC 7541, RFC
    9204) are the reference: what they produce, the code decodes. *)

From S2P Require Import Prelude RustStr Inbound Wire.
#[local] Open Scope reflex_scope.

(** ** Variable-length integers *)

Definition write_varint (i : Z) : bytes :=
  if i <=? 63 then [as_u8 i]
  else if i <=? 16383 then to_be_bytes 2 (Z.lor (as_u16 i) 0x4000)
  else if i <=? 1073741823 then to_be_bytes 4 (Z.lor (as_u32 i) 0x80000000)
  else to_be_bytes 8 (Z.lor i 0xc000000000000000).

Definition varint2 (b0 b1 : Z) : Z := Z.lor (Z.shiftl (Z.land b0 0x3f) 8) b1.
Definition varint4 (b0 b1 b2 b3 : Z) : Z :=
  Z.lor (Z.lor (Z.lor (Z.shiftl (Z.land b0 0x3f) 24) (Z.shiftl b1 16)) (Z.shiftl b2 8)) b3.
Definition varint8 (b0 b1 b2 b3 b4 b5 b6 b7 : Z) : Z :=
  Z.lor (Z.lor (Z.lor (Z.lor (Z.lor (Z.lor (Z.lor (Z.shiftl (Z.land b0 0x3f) 56) (Z.shiftl b1 48)) (Z.shiftl b2 40))
    (Z.shiftl b3 32)) (Z.shiftl b4 24)) (Z.shiftl b5 16)) (Z.shiftl b6 8)) b7.

Definition read_varint_async : wire Z :=
  let* first := read_u8 in
  let tag := Z.shiftr first 6 in
  if tag =? 0 then WRet (Z.land first 0x3f)
  else if tag =? 1 then let* b1 := read_u8 in WRet (varint2 first b1)
  else if tag =? 2 then
    let* rest := read_exact 3 in WRet (varint4 first (byte_at 0 rest) (byte_at 1 rest) (byte_at 2 rest))
  else
    let* rest := read_exact 7 in
    WRet (varint8 first (byte_at 0 rest) (byte_at 1 rest) (byte_at 2 rest) (byte_at 3 rest) (byte_at 4 rest)
            (byte_at 5 rest) (byte_at 6 rest)).

(** The value with the bytes it took, from a slice. *)
Definition decode_varint_slice (buf : bytes) : run (result (Z * Z) WireError) :=
  if len buf =? 0 then Ret (Err UnexpectedEof)
  else
    b0 ← idx buf 0;
    let tag := Z.shiftr b0 6 in
    if tag =? 0 then Ret (Ok (Z.land b0 0x3f, 1))
    else if tag =? 1 then
      if len buf <? 2 then Ret (Err UnexpectedEof)
      else b1 ← idx buf 1; Ret (Ok (varint2 b0 b1, 2))
    else if tag =? 2 then
      if len buf <? 4 then Ret (Err UnexpectedEof)
      else b1 ← idx buf 1; b2 ← idx buf 2; b3 ← idx buf 3; Ret (Ok (varint4 b0 b1 b2 b3, 4))
    else
      if len buf <? 8 then Ret (Err UnexpectedEof)
      else
        b1 ← idx buf 1; b2 ← idx buf 2; b3 ← idx buf 3; b4 ← idx buf 4; b5 ← idx buf 5; b6 ← idx buf 6; b7 ← idx buf 7;
        Ret (Ok (varint8 b0 b1 b2 b3 b4 b5 b6 b7, 8)).

(** ** HTTP/3 frames *)

Definition write_h3_frame (frame_type : Z) (payload : bytes) : bytes :=
  write_varint frame_type ++ write_varint (len payload) ++ payload.

Definition read_h3_frame : wire (Z * bytes) :=
  let* frame_type := read_varint_async in
  let* payload_len := read_varint_async in
  let* _ := wensure (payload_len <=? 1024 * 1024) HeaderTooLarge in
  let* payload := read_exact (Z.to_nat payload_len) in
  WRet (frame_type, payload).

(** ** QPACK integers *)

(** The bytes after a full prefix: [val], the shift [m] and the position [i] run
    along.  A shift count wraps at 64, a sum at [2 ^ 64]. *)
Fixpoint qpack_more (rest : bytes) (val m i : Z) : option (Z * Z) :=
  match rest with
  | [] => None
  | b :: rest =>
      let val := as_u64 (val + wshl 64 (Z.land b 0x7f) (m mod 64)) in
      let m := as_u32 (m + 7) in
      let i := i + 1 in
      if Z.land b 0x80 =? 0 then Some (val, i) else qpack_more rest val m i
  end.

Definition qpack_read_int (data : bytes) (prefix_bits : Z) : option (Z * Z) :=
  match data with
  | [] => None
  | b :: rest =>
      let mask := Z.shiftl 1 prefix_bits - 1 in
      let first := Z.land b mask in
      if first <? mask then Some (first, 1) else qpack_more rest first 0 1
  end.

(** ** The static table *)

Definition static_entries : list (str * str) :=
  [
   (lit ":authority", lit "");
   (lit ":path", lit "/");
   (lit "age", lit "0");
   (lit "content-disposition", lit "");
   (lit "content-length", lit "0");
   (lit "cookie", lit "");
   (lit "date", lit "");
   (lit "etag", lit "");
   (lit "if-modified-since", lit "");
   (lit "if-none-match", lit "");
   (lit "last-modified", lit "");
   (lit "link", lit "");
   (lit "location", lit "");
   (lit "referer", lit "");
   (lit "set-cookie", lit "");
   (lit ":method", lit "CONNECT");
   (lit ":method", lit "DELETE");
   (lit ":method", lit "GET");
   (lit ":method", lit "HEAD");
   (lit ":method", lit "OPTIONS");
   (lit ":method", lit "POST");
   (lit ":method", lit "PUT");
   (lit ":scheme", lit "http");
   (lit ":scheme", lit "https");
   (lit ":status", lit "103");
   (lit ":status", lit "200");
   (lit ":status", lit "304");
   (lit ":status", lit "404");
   (lit ":status", lit "503")].

Definition qpack_static_entry (idx : Z) : option (str * str) :=
  if (0 <=? idx) && (idx <? len static_entries) then static_entries !! Z.to_nat idx else None.

Definition qpack_static_name (idx : Z) : option str :=
  match qpack_static_entry idx with Some (name, _) => Some name | None => None end.

(** ** Huffman codes: code and length of each symbol, the last one being the end *)

Definition TABLE : list (Z * Z) :=
  [
   (0x1ff8,13); (0x7fffd8,23); (0xfffffe2,28); (0xfffffe3,28); (0xfffffe4,28); (0xfffffe5,28);
   (0xfffffe6,28); (0xfffffe7,28); (0xfffffe8,28); (0xffffea,24); (0x3fffffff,30); (0xfffffe9,28);
   (0xfffffea,28); (0x3ffffffe,30); (0xfffffeb,28); (0xfffffec,28); (0xfffffed,28); (0xfffffee,28);
   (0xfffffef,28); (0xffffff0,28); (0xffffff1,28); (0xffffff2,28); (0x3ffffffe,30); (0xffffff3,28);
   (0xffffff4,28); (0xffffff5,28); (0xffffff6,28); (0xffffff7,28); (0xffffff8,28); (0xffffff9,28);
   (0xffffffa,28); (0xffffffb,28); (0x14,6); (0x3f8,10); (0x3f9,10); (0xffa,12);
   (0x1ff9,13); (0x15,6); (0xf8,8); (0x7fa,11); (0x3fa,10); (0x3fb,10);
   (0xf9,8); (0x7fb,11); (0xfa,8); (0x16,6); (0x17,6); (0x18,6);
   (0x0,5); (0x1,5); (0x2,5); (0x19,6); (0x1a,6); (0x1b,6);
   (0x1c,6); (0x1d,6); (0x1e,6); (0x1f,6); (0x5c,7); (0xfb,8);
   (0x7ffc,15); (0x20,6); (0xffb,12); (0x3fc,10); (0x1ffa,13); (0x21,6);
   (0x5d,7); (0x5e,7); (0x5f,7); (0x60,7); (0x61,7); (0x62,7);
   (0x63,7); (0x64,7); (0x65,7); (0x66,7); (0x67,7); (0x68,7);
   (0x69,7); (0x6a,7); (0x6b,7); (0x6c,7); (0x6d,7); (0x6e,7);
   (0x6f,7); (0x70,7); (0x71,7); (0x72,7); (0xfc,8); (0x73,7);
   (0xfd,8); (0x1ffb,13); (0x7fff0,19); (0x1ffc,13); (0x3ffc,14); (0x22,6);
   (0x7ffd,15); (0x3,5); (0x23,6); (0x4,5); (0x24,6); (0x5,5);
   (0x25,6); (0x26,6); (0x27,6); (0x6,5); (0x74,7); (0x75,7);
   (0x28,6); (0x29,6); (0x2a,6); (0x7,5); (0x2b,6); (0x76,7);
   (0x2c,6); (0x8,5); (0x9,5); (0x2d,6); (0x77,7); (0x78,7);
   (0x79,7); (0x7a,7); (0x7b,7); (0x7ffe,15); (0x7fc,11); (0x3ffd,14);
   (0x1ffd,13); (0xffffffc,28); (0xfffe6,20); (0x3fffd2,22); (0xfffe7,20); (0xfffe8,20);
   (0x3fffd3,22); (0x3fffd4,22); (0x3fffd5,22); (0x7fffd9,23); (0x3fffd6,22); (0x7fffda,23);
   (0x7fffdb,23); (0x7fffdc,23); (0x7fffdd,23); (0x7fffde,23); (0xffffeb,24); (0x7fffdf,23);
   (0xffffec,24); (0xffffed,24); (0x3fffd7,22); (0x7fffe0,23); (0xffffee,24); (0x7fffe1,23);
   (0x7fffe2,23); (0x7fffe3,23); (0x7fffe4,23); (0x1fffdc,21); (0x3fffd8,22); (0x7fffe5,23);
   (0x3fffd9,22); (0x7fffe6,23); (0x7fffe7,23); (0xffffef,24); (0x3fffda,22); (0x1fffdd,21);
   (0xfffe9,20); (0x3fffdb,22); (0x3fffdc,22); (0x7fffe8,23); (0x7fffe9,23); (0x1fffde,21);
   (0x7fffea,23); (0x3fffdd,22); (0x3fffde,22); (0xfffff0,24); (0x1fffdf,21); (0x3fffdf,22);
   (0x7fffeb,23); (0x7fffec,23); (0x1fffe0,21); (0x1fffe1,21); (0x3fffe0,22); (0x1fffe2,21);
   (0x7fffed,23); (0x3fffe1,22); (0x7fffee,23); (0x7fffef,23); (0xfffea,20); (0x3fffe2,22);
   (0x3fffe3,22); (0x3fffe4,22); (0x7ffff0,23); (0x3fffe5,22); (0x3fffe6,22); (0x7ffff1,23);
   (0x3ffffe0,26); (0x3ffffe1,26); (0xfffeb,20); (0x7fff1,19); (0x3fffe7,22); (0x7ffff2,23);
   (0x3fffe8,22); (0x1ffffec,25); (0x3ffffe2,26); (0x3ffffe3,26); (0x3ffffe4,26); (0x7ffffde,27);
   (0x7ffffdf,27); (0x3ffffe5,26); (0xfffff1,24); (0x1ffffed,25); (0x7fff2,19); (0x1fffe3,21);
   (0x3ffffe6,26); (0x7ffffe0,27); (0x7ffffe1,27); (0x3ffffe7,26); (0x7ffffe2,27); (0xfffff2,24);
   (0x1fffe4,21); (0x1fffe5,21); (0x3ffffe8,26); (0x3ffffe9,26); (0xffffffd,28); (0x7ffffe3,27);
   (0x7ffffe4,27); (0x7ffffe5,27); (0xfffec,20); (0xfffff3,24); (0xfffed,20); (0x1fffe6,21);
   (0x3fffe9,22); (0x1fffe7,21); (0x1fffe8,21); (0x7ffff3,23); (0x3fffea,22); (0x3fffeb,22);
   (0x1ffffee,25); (0x1ffffef,25); (0xfffff4,24); (0xfffff5,24); (0x3ffffea,26); (0x7ffff4,23);
   (0x3ffffeb,26); (0x7ffffe6,27); (0x3ffffec,26); (0x3ffffed,26); (0x7ffffe7,27); (0x7ffffe8,27);
   (0x7ffffe9,27); (0x7ffffea,27); (0x7ffffeb,27); (0xffffffe,28); (0x7ffffec,27); (0x7ffffed,27);
   (0x7ffffee,27); (0x7ffffef,27); (0x7fffff0,27); (0x3ffffee,26); (0x3fffffff,30)].

Definition EOS : Z := 256.

(** Bit [k] of the data, from the high bit of the first byte on. *)
Definition bit_at (data : bytes) (k : nat) : Z :=
  Z.land (Z.shiftr (byte_at (k / 8) data) (7 - Z.of_nat (k mod 8))) 1.

(** [try_bits] bits from [bp] on, with how many were there. *)
Fixpoint fetch (data : bytes) (total_bits try_bits : nat) (bp : nat) (window : Z) (fetched : nat) : Z * nat :=
  match try_bits with
  | O => (window, fetched)
  | S todo =>
      if (bp <? total_bits)%nat
      then fetch data total_bits todo (S bp) (Z.lor (Z.shiftl window 1) (bit_at data bp)) (S fetched)
      else (window, fetched)
  end.

(** The first symbol of the table with this code of this length. *)
Fixpoint scan (table : list (Z * Z)) (sym : Z) (l candidate : Z) : option Z :=
  match table with
  | [] => None
  | (code, code_len) :: table =>
      if (code_len =? l) && (code =? candidate) then Some sym else scan table (sym + 1) l candidate
  end.

(** Lengths [l], [l + 1], ... up to [todo] of them, none past [try_bits]. *)
Fixpoint match_len (todo l try_bits fetched : nat) (window : Z) : option (Z * nat) :=
  match todo with
  | O => None
  | S todo =>
      if (try_bits <? l)%nat then None
      else
        let shift := (fetched - l)%nat in
        let candidate := as_u32 (Z.shiftr window (Z.of_nat shift)) in
        match scan TABLE 0 (Z.of_nat l) candidate with
        | Some sym => Some (sym, l)
        | None => match_len todo (S l) try_bits fetched window
        end
  end.

(** The bytes decoded before the string is read as UTF-8; a turn takes 5 bits. *)
Fixpoint huffman_loop (fuel : nat) (data : bytes) (total_bits bit_pos : nat) : run bytes :=
  match fuel with
  | O => Stuck
  | S fuel =>
      if (bit_pos <? total_bits)%nat then
        let remaining := (total_bits - bit_pos)%nat in
        let try_bits := Nat.min remaining 30 in
        let '(window, fetched) := fetch data total_bits try_bits bit_pos 0 0 in
        match match_len 26 5 try_bits fetched window with
        | Some (sym, l) =>
            if sym =? EOS then Ret []
            else out ← huffman_loop fuel data total_bits (bit_pos + l); Ret (as_u8 sym :: out)
        | None => Ret []
        end
      else Ret []
  end.

Definition huffman_decode (data : bytes) : run str :=
  out ← huffman_loop (length data * 8 + 1) data (length data * 8) 0;
  Ret (from_utf8_lossy out).

(** ** Header blocks *)

(** A string of the block, Huffman-coded or not. *)
Definition qpack_text (huffman : bool) (s : bytes) : run str :=
  if huffman then huffman_decode s else Ret (from_utf8_lossy s).

(** The length and the bytes of a string whose length has an [n]-bit prefix;
    [None] where the source leaves the loop. *)
Definition qpack_string (payload : bytes) (i n : Z) : run (option (bytes * Z)) :=
  rest ← slice payload i (len payload);
  match qpack_read_int rest n with
  | None => Ret None
  | Some (l, consumed) =>
      let i := i + consumed in
      if len payload <? as_u64 (i + l) then Ret None
      else s ← slice payload i (as_u64 (i + l)); Ret (Some (s, i + l))
  end.

(** A value, with its own Huffman flag. *)
Definition qpack_value (payload : bytes) (i : Z) : run (option (str * Z)) :=
  if len payload <=? i then Ret None
  else
    b ← idx payload i;
    let val_huffman := negb (Z.land b 0x80 =? 0) in
    r ← qpack_string payload i 7;
    match r with
    | None => Ret None
    | Some (val_bytes, i) => value ← qpack_text val_huffman val_bytes; Ret (Some (value, i))
    end.

Fixpoint header_loop (fuel : nat) (payload : bytes) (i : Z) : run (list (str * str)) :=
  match fuel with
  | O => Stuck
  | S fuel =>
      if i <? len payload then
        b ← idx payload i;
        if negb (Z.land b 0x80 =? 0) then
          rest ← slice payload i (len payload);
          match qpack_read_int rest 6 with
          | None => Ret []
          | Some (idx, consumed) =>
              hs ← header_loop fuel payload (i + consumed);
              match qpack_static_entry idx with
              | Some (name, value) => Ret (if len name =? 0 then hs else (name, value) :: hs)
              | None => Ret hs
              end
          end
        else if Z.land b 0xc0 =? 0x40 then
          rest ← slice payload i (len payload);
          match qpack_read_int rest 4 with
          | None => Ret []
          | Some (idx, consumed) =>
              v ← qpack_value payload (i + consumed);
              match v with
              | None => Ret []
              | Some (value, i) =>
                  hs ← header_loop fuel payload i;
                  Ret ((default [] (qpack_static_name idx), value) :: hs)
              end
          end
        else if Z.land b 0xe0 =? 0x20 then
          let name_huffman := negb (Z.land b 0x08 =? 0) in
          r ← qpack_string payload i 3;
          match r with
          | None => Ret []
          | Some (name_bytes, i) =>
              name ← qpack_text name_huffman name_bytes;
              v ← qpack_value payload i;
              match v with
              | None => Ret []
              | Some (value, i) => hs ← header_loop fuel payload i; Ret ((name, value) :: hs)
              end
          end
        else header_loop fuel payload (i + 1)
      else Ret []
  end.

(** Every turn takes a byte. *)
Definition parse_headers_from_qpack (payload : bytes) : run (result (list (str * str)) WireError) :=
  if len payload <? 2 then Ret (Err UnexpectedEof)
  else hs ← header_loop (length payload) payload 2; Ret (Ok hs).

(** ** Writing a header *)

(** The bytes after a full prefix; [usize::BITS] bounds them. *)
Fixpoint put_more (fuel : nat) (rem : Z) : bytes :=
  match fuel with
  | O => []
  | S fuel =>
      if 128 <=? rem then Z.lor (as_u8 rem) 0x80 :: put_more fuel (Z.shiftr rem 7) else [as_u8 rem]
  end.

Definition put_literal_header (name value : bytes) : bytes :=
  let nlen := len name in
  let vlen := len value in
  (if nlen <? 7 then [Z.lor 0x20 (as_u8 nlen)] else 0x27 :: put_more 10 (nlen - 7)) ++ name ++
  (if vlen <? 128 then [as_u8 vlen] else 0x7f :: put_more 10 (vlen - 127)) ++ value.

(** * Theorems *)

(** ** Variable-length integers *)

Lemma lor_add a b k : 0 <= k -> a mod 2 ^ k = 0 -> 0 <= b < 2 ^ k -> Z.lor a b = a + b.
Proof.
  intros Hk Ha Hb. rewrite <-Z.lxor_lor, <-Z.add_nocarry_lxor; [done|..]; apply Z.bits_inj'; intros n Hn; rewrite Z.land_spec, Z.bits_0;
    (destruct (Z.lt_ge_cases n k);
      [rewrite (Z.div_mod a (2 ^ k)), Ha, Z.add_0_r, Z.mul_comm, Z.mul_pow2_bits_low by lia; done
      |rewrite <-(Z.mod_small b (2 ^ k)), (Z.mod_pow2_bits_high b) by lia; apply andb_false_r]).
Qed.

(** A further byte below the ones already there. *)
Lemma lor_byte_below a b k : 0 <= k -> is_byte b -> Z.lor (a * 2 ^ (k + 8)) (Z.shiftl b k) = (a * 2 ^ 8 + b) * 2 ^ k.
Proof.
  unfold is_byte. intros Hk Hb. rewrite Z.shiftl_mul_pow2, Z.pow_add_r by lia. rewrite (lor_add _ _ (k + 8)); [ring|lia|..].
  - rewrite Z.pow_add_r by lia. apply Z.mod_mul. nia.
  - rewrite Z.pow_add_r by lia. assert (0 < 2 ^ k) by (apply Z.pow_pos_nonneg; lia). change (2 ^ 8) with 256. nia.
Qed.

Lemma lor_byte_last a b : is_byte b -> Z.lor (a * 2 ^ 8) b = a * 2 ^ 8 + b.
Proof. intros Hb. pose proof (lor_byte_below a b 0 ltac:(lia) Hb) as H. rewrite Z.shiftl_0_r, Z.mul_1_r in H. exact H. Qed.

Lemma from_be_cons b l : from_be_bytes (b :: l) = b * 256 ^ len l + from_be_bytes l.
Proof.
  assert (H : forall x y, from_le_bytes (x ++ [y]) = from_le_bytes x + y * 256 ^ len x).
  { intros x y. induction x as [|c x IH]; [cbn [app from_le_bytes]; change (256 ^ len (@nil Z)) with 1; lia|].
    cbn [app from_le_bytes]. rewrite IH, len_cons.
    replace (256 ^ (1 + len x)) with (256 * 256 ^ len x) by (rewrite Z.pow_add_r by (pose proof (len_nonneg x); lia); done). lia. }
  unfold from_be_bytes. cbn [rev]. rewrite H. unfold len. rewrite length_rev. lia.
Qed.

(** What the three forms read is the number the bytes are, less the two bits of the tag. *)
Lemma varint_value b0 l : is_byte b0 -> bytes_ok l -> from_be_bytes (b0 :: l) mod (64 * 256 ^ len l) = Z.land b0 0x3f * 256 ^ len l + from_be_bytes l.
Proof.
  intros Hb Hl. pose proof (from_be_bytes_bound l Hl). rewrite from_be_cons. change 0x3f with (Z.ones 6). rewrite Z.land_ones by lia.
  change (2 ^ 6) with 64. symmetry. apply (Z.mod_unique_pos _ _ (b0 / 64)); [|rewrite (Z.div_mod b0 64) at 1 by lia; ring].
  pose proof (Z.mod_pos_bound b0 64 ltac:(lia)). nia.
Qed.

Lemma from_be_nil : from_be_bytes [] = 0.
Proof. done. Qed.

Ltac ok_bytes :=
  unfold bytes_ok in *; repeat match goal with H : Forall is_byte (_ :: _) |- _ => apply Forall_cons in H as [? H] end;
  repeat (apply Forall_cons; split; [assumption|]); by apply Forall_nil.

Ltac varint_form :=
  unfold bytes_ok in *; repeat match goal with H : Forall is_byte (_ :: _) |- _ => apply Forall_cons in H as [? H] end;
  intros; rewrite varint_value by (try done; repeat (apply Forall_cons; split; [done|]); done);
  rewrite ?from_be_cons, from_be_nil, ?len_cons, len_nil.

Ltac pows :=
  repeat match goal with |- context [?b ^ ?e] => let v := eval vm_compute in (b ^ e) in progress change (b ^ e) with v end.

Lemma varint2_value b0 b1 : bytes_ok [b0; b1] -> varint2 b0 b1 = from_be_bytes [b0; b1] mod 2 ^ 14.
Proof.
  intros H. change (2 ^ 14) with (64 * 256 ^ len [b1]). varint_form.
  unfold varint2. rewrite Z.shiftl_mul_pow2, lor_byte_last by (done || lia). pows; lia.
Qed.

Lemma varint4_value b0 b1 b2 b3 : bytes_ok [b0; b1; b2; b3] -> varint4 b0 b1 b2 b3 = from_be_bytes [b0; b1; b2; b3] mod 2 ^ 30.
Proof.
  intros H. change (2 ^ 30) with (64 * 256 ^ len [b1; b2; b3]). varint_form.
  unfold varint4. rewrite (Z.shiftl_mul_pow2 (Z.land _ _)) by lia.
  rewrite (lor_byte_below _ b1 16), (lor_byte_below _ b2 8), lor_byte_last by (done || lia). pows; lia.
Qed.

Lemma varint8_value b0 b1 b2 b3 b4 b5 b6 b7 : bytes_ok [b0; b1; b2; b3; b4; b5; b6; b7] ->
  varint8 b0 b1 b2 b3 b4 b5 b6 b7 = from_be_bytes [b0; b1; b2; b3; b4; b5; b6; b7] mod 2 ^ 62.
Proof.
  intros H. change (2 ^ 62) with (64 * 256 ^ len [b1; b2; b3; b4; b5; b6; b7]). varint_form.
  unfold varint8. rewrite (Z.shiftl_mul_pow2 (Z.land _ _)) by lia.
  rewrite (lor_byte_below _ b1 48), (lor_byte_below _ b2 40), (lor_byte_below _ b3 32), (lor_byte_below _ b4 24),
    (lor_byte_below _ b5 16), (lor_byte_below _ b6 8), lor_byte_last by (done || lia). pows; lia.
Qed.

(** The tag of a number of [n] bytes and its form. *)
Lemma be_first n z : 0 <= z < 256 ^ Z.of_nat (S n) ->
  exists b l, to_be_bytes (S n) z = b :: l /\ length l = n /\ is_byte b /\ bytes_ok l /\ from_be_bytes (b :: l) = z /\ b = z / 256 ^ Z.of_nat n.
Proof.
  intros Hz. pose proof (to_be_bytes_ok (S n) z) as Ho. pose proof (length_to_be_bytes (S n) z) as Hl. pose proof (from_to_be_bytes_id (S n) z Hz) as Hf.
  destruct (to_be_bytes (S n) z) as [|b l]; [done|]. injection Hl as Hl. apply Forall_cons in Ho as [Hb Ho]. exists b, l. split_and!; try done.
  rewrite <-Hf, from_be_cons. pose proof (from_be_bytes_bound l Ho) as Hr. unfold len in *. rewrite Hl in *.
  symmetry. rewrite Z.add_comm, Z.div_add by nia. rewrite Z.div_small by done. lia.
Qed.

Ltac bytes_of l H := repeat (destruct l as [|? l]; cbn [length] in H; try (discriminate H)).

(** The forms [write_varint] chooses, each with its tag. *)
Lemma write_varint_forms i : 0 <= i < 2 ^ 62 ->
  (write_varint i = [i] /\ Z.shiftr i 6 = 0 /\ Z.land i 0x3f = i) \/
  (exists b0 b1, write_varint i = [b0; b1] /\ Z.shiftr b0 6 = 1 /\ varint2 b0 b1 = i) \/
  (exists b0 b1 b2 b3, write_varint i = [b0; b1; b2; b3] /\ Z.shiftr b0 6 = 2 /\ varint4 b0 b1 b2 b3 = i) \/
  (exists b0 b1 b2 b3 b4 b5 b6 b7, write_varint i = [b0; b1; b2; b3; b4; b5; b6; b7] /\ Z.shiftr b0 6 = 3 /\ varint8 b0 b1 b2 b3 b4 b5 b6 b7 = i).
Proof.
  intros Hi. unfold write_varint. case_if; reflect_bools; [|case_if; reflect_bools; [|case_if; reflect_bools]].
  - left. rewrite as_u8_small by lia. split; [done|]. change 0x3f with (Z.ones 6). rewrite Z.shiftr_div_pow2, Z.land_ones by lia.
    change (2 ^ 6) with 64. split; [apply Z.div_small; lia|apply Z.mod_small; lia].
  - right; left. unfold as_u16, wrap. rewrite Z.mod_small, Z.lor_comm, (lor_add _ _ 14) by (done || lia).
    destruct (be_first 1 (0x4000 + i)) as (b0 & l & E & Hl & Hb & Ho & Hv & Ht); [cbn; lia|]. rewrite E. bytes_of l Hl. do 2 eexists. split; [done|].
    change (256 ^ Z.of_nat 1) with 256 in Ht. split; [rewrite Z.shiftr_div_pow2 by lia; change (2 ^ 6) with 64; subst; rewrite Z.div_div by lia; symmetry; apply (Z.div_unique_pos _ _ _ i); lia|].
    rewrite varint2_value, Hv by (constructor; done). symmetry. apply (Z.mod_unique_pos _ _ 1); lia.
  - right; right; left. unfold as_u32, wrap. rewrite Z.mod_small, Z.lor_comm, (lor_add _ _ 31) by (done || lia).
    destruct (be_first 3 (0x80000000 + i)) as (b0 & l & E & Hl & Hb & Ho & Hv & Ht); [cbn; lia|]. rewrite E. bytes_of l Hl. do 4 eexists. split; [done|].
    change (256 ^ Z.of_nat 3) with (2 ^ 24) in Ht. split; [rewrite Z.shiftr_div_pow2 by lia; subst; rewrite Z.div_div by lia; symmetry; apply (Z.div_unique_pos _ _ _ i); lia|].
    rewrite varint4_value, Hv by (constructor; done). symmetry. apply (Z.mod_unique_pos _ _ 2); lia.
  - right; right; right. rewrite Z.lor_comm, (lor_add _ _ 62) by (done || lia).
    destruct (be_first 7 (0xc000000000000000 + i)) as (b0 & l & E & Hl & Hb & Ho & Hv & Ht); [cbn; lia|]. rewrite E. bytes_of l Hl. do 8 eexists. split; [done|].
    change (256 ^ Z.of_nat 7) with (2 ^ 56) in Ht. split; [rewrite Z.shiftr_div_pow2 by lia; subst; rewrite Z.div_div by lia; symmetry; apply (Z.div_unique_pos _ _ _ i); lia|].
    rewrite varint8_value, Hv by (constructor; done). symmetry. apply (Z.mod_unique_pos _ _ 3); lia.
Qed.

Lemma len_write_varint i : 0 <= i < 2 ^ 62 -> 0 < len (write_varint i) <= 8.
Proof.
  intros Hi. destruct (write_varint_forms i Hi) as [(E & _)|[(b0 & b1 & E & _)|[(b0 & b1 & b2 & b3 & E & _)|(b0 & b1 & b2 & b3 & b4 & b5 & b6 & b7 & E & _)]]]; by rewrite E.
Qed.

Lemma play_u8 {B} (f : Z -> wire B) b i : play (wbind read_u8 f) (b :: i) = play (f b) i.
Proof. apply (play_pass read_u8 f [b] b i), plays_u8. Qed.

Lemma varint_plays i : 0 <= i < 2 ^ 62 -> plays read_varint_async (write_varint i) i [].
Proof.
  intros Hi rest. destruct (write_varint_forms i Hi) as [(E & T & V)|[(b0 & b1 & E & T & V)|[(b0 & b1 & b2 & b3 & E & T & V)|(b0 & b1 & b2 & b3 & b4 & b5 & b6 & b7 & E & T & V)]]];
    rewrite E; unfold read_varint_async; cbn [app]; rewrite play_u8;
    rewrite T; cbn; by rewrite V.
Qed.

(** Reading at a known place of a list whose first elements are known. *)
Lemma idx_first {A} (x : A) l : idx (x :: l) 0 = Ret x.
Proof. by apply (idx_mid [] x l). Qed.

Lemma idx_next {A} (x : A) l k : 0 < k -> idx (x :: l) k = idx l (k - 1).
Proof. intros Hk. exact (idx_app_r [x] l k ltac:(change (len [x]) with 1; lia)). Qed.

Ltac idx_head :=
  repeat first
    [ rewrite bind_Ret
    | rewrite idx_first
    | rewrite idx_next by lia;
      match goal with |- context [idx _ (?k - 1)] => let v := eval vm_compute in (k - 1) in change (k - 1) with v end ].

Lemma varint_slice i rest : 0 <= i < 2 ^ 62 -> decode_varint_slice (write_varint i ++ rest) = Ret (Ok (i, len (write_varint i))).
Proof.
  intros Hi. pose proof (len_write_varint i Hi). unfold decode_varint_slice.
  rewrite (proj2 (Z.eqb_neq _ _)) by (rewrite len_app; pose proof (len_nonneg rest); lia).
  destruct (write_varint_forms i Hi) as [(E & T & V)|[(b0 & b1 & E & T & V)|[(b0 & b1 & b2 & b3 & E & T & V)|(b0 & b1 & b2 & b3 & b4 & b5 & b6 & b7 & E & T & V)]]];
    rewrite E; cbn [app]; idx_head; rewrite T; cbn [Z.eqb Pos.eqb]; rewrite ?(proj2 (Z.ltb_ge _ _)) by len_solve; idx_head; by rewrite V.
Qed.

(** A list that is long enough has its first elements. *)
Ltac take_bytes l n :=
  lazymatch n with
  | O => idtac
  | S ?n =>
      destruct l as [|? l];
      [exfalso; repeat match goal with H : context [len (_ :: _)] |- _ => rewrite len_cons in H end;
        repeat match goal with H : context [len (@nil ?A)] |- _ => change (len (@nil A)) with 0 in H end; lia|];
      take_bytes l n
  end.

(** The slice decoder never panics and takes a byte at least, no more than there are. *)
Lemma decode_varint_returns buf : bytes_ok buf -> exists r, decode_varint_slice buf = Ret r /\
  forall v n, r = Ok (v, n) -> 0 <= v < 2 ^ 62 /\ 0 < n <= len buf.
Proof.
  intros Hb. unfold decode_varint_slice. case_if; reflect_bools; [by eexists|]. destruct buf as [|b0 l]; [done|].
  apply Forall_cons in Hb as [H0 Hl]. rewrite idx_first, bind_Ret. case_if; reflect_bools; [|case_if; reflect_bools; [|case_if; reflect_bools]].
  - eexists. split; [done|]. intros v n [= <- <-]. change 0x3f with (Z.ones 6). rewrite Z.land_ones by lia.
    pose proof (Z.mod_pos_bound b0 (2 ^ 6) ltac:(lia)). pose proof (len_nonneg l). rewrite len_cons. lia.
  - case_if; reflect_bools; [by eexists|]. take_bytes l 1%nat. idx_head. eexists. split; [done|]. intros v n [= <- <-].
    rewrite varint2_value by ok_bytes. split; [|done]. pose proof (Z.mod_pos_bound (from_be_bytes [b0; z]) (2 ^ 14) ltac:(lia)). lia.
  - case_if; reflect_bools; [by eexists|]. take_bytes l 3%nat. idx_head. eexists. split; [done|]. intros v n [= <- <-].
    rewrite varint4_value by ok_bytes. split; [|done]. pose proof (Z.mod_pos_bound (from_be_bytes [b0; z; z0; z1]) (2 ^ 30) ltac:(lia)). lia.
  - case_if; reflect_bools; [by eexists|]. take_bytes l 7%nat. idx_head. eexists. split; [done|]. intros v n [= <- <-].
    rewrite varint8_value by ok_bytes. split; [|done]. apply Z.mod_pos_bound. lia.
Qed.

(** ** QPACK integers *)

(** RFC 7541, section 5.1: [n] in a prefix of [p] bits below the bits [flags]. *)
Fixpoint int_tail (fuel : nat) (n : Z) : bytes :=
  match fuel with
  | O => []
  | S fuel => if n <? 128 then [n] else (n mod 128 + 128) :: int_tail fuel (n / 128)
  end.

Definition prefix_int (p flags n : Z) : bytes :=
  if n <? 2 ^ p - 1 then [flags + n] else (flags + (2 ^ p - 1)) :: int_tail 10 (n - (2 ^ p - 1)).

Lemma land_low x k : 0 <= k -> Z.land x (Z.shiftl 1 k - 1) = x mod 2 ^ k.
Proof. intros Hk. change (Z.shiftl 1 k - 1) with (Z.ones k). by apply Z.land_ones. Qed.

Lemma land_high x k : 0 <= k -> 0 <= x < 2 ^ (k + 1) -> (Z.land x (2 ^ k) =? 0) = (x <? 2 ^ k).
Proof.
  intros Hk Hx. rewrite Z.pow_add_r in Hx by lia. change (2 ^ 1) with 2 in Hx.
  assert (0 < 2 ^ k) by (apply Z.pow_pos_nonneg; lia).
  assert (Z.land x (2 ^ k) = Z.b2z (Z.testbit x k) * 2 ^ k) as ->.
  { apply Z.bits_inj'. intros n Hn. rewrite Z.land_spec, Z.pow2_bits_eqb by done. destruct (Z.eqb_spec k n) as [<-|Hne].
    - rewrite andb_true_r, Z.mul_pow2_bits by lia. rewrite Z.sub_diag. by destruct (Z.testbit x k).
    - rewrite andb_false_r. destruct (Z.testbit x k); cbn [Z.b2z]; rewrite ?Z.mul_1_l, ?Z.mul_0_l, ?Z.bits_0; [|done].
      by rewrite Z.pow2_bits_false. }
  rewrite Z.testbit_eqb by done. destruct (Z.ltb_spec x (2 ^ k)).
  - rewrite Z.div_small by lia. done.
  - replace (x / 2 ^ k) with 1; [change (1 mod 2 =? 1) with true; cbn [Z.b2z]; apply Z.eqb_neq; lia|].
    apply (Z.div_unique_pos _ _ _ (x - 2 ^ k)); lia.
Qed.

Lemma high_bit x : is_byte x -> (Z.land x 0x80 =? 0) = (x <? 128).
Proof. intros Hx. apply (land_high x 7); [lia|exact Hx]. Qed.

Lemma low_bits x : Z.land x 0x7f = x mod 128.
Proof. exact (land_low x 7 ltac:(lia)). Qed.

Lemma wrap_small w x : 0 <= x < 2 ^ w -> wrap w x = x.
Proof. apply Z.mod_small. Qed.

Lemma shift_small n m : 0 < n -> n * 2 ^ m < 2 ^ 64 -> m < 64.
Proof.
  intros Hn Hs. apply (Z.pow_lt_mono_r_iff 2); [lia..|]. apply Z.le_lt_trans with (n * 2 ^ m); [|done].
  rewrite <-(Z.mul_1_l (2 ^ m)) at 1. apply Z.mul_le_mono_nonneg_r; [apply Z.pow_nonneg|]; lia.
Qed.

(** The shift of a part of a number that fits does not wrap. *)
Lemma shift_part b n m : 0 <= b <= n -> 0 <= m -> n * 2 ^ m < 2 ^ 64 -> wshl 64 b (m mod 64) = b * 2 ^ m.
Proof.
  intros Hb Hm Hn. assert (0 < 2 ^ m) by (apply Z.pow_pos_nonneg; lia). unfold wshl. destruct (Z.eq_dec b 0) as [->|]; [by rewrite Z.shiftl_0_l|].
  assert (m < 64) by (apply (shift_small n); lia).
  rewrite (Z.mod_small m), Z.shiftl_mul_pow2 by lia. apply wrap_small. nia.
Qed.

Lemma qpack_more_tail rest fuel : forall n val m i, (0 < fuel)%nat -> 0 <= n < 128 ^ Z.of_nat fuel -> 0 <= val -> 0 <= m -> val + n * 2 ^ m < 2 ^ 64 ->
  qpack_more (int_tail fuel n ++ rest) val m i = Some (val + n * 2 ^ m, i + len (int_tail fuel n)).
Proof.
  induction fuel as [|fuel IH]; intros n val m i Hf Hn Hv Hm Hs; [lia|].
  assert (0 < 2 ^ m) by (apply Z.pow_pos_nonneg; lia). cbn [int_tail]. case_if; reflect_bools; cbn [app qpack_more].
  - rewrite low_bits, Z.mod_small, high_bit, (proj2 (Z.ltb_lt _ _)) by (unfold is_byte; lia).
    rewrite (shift_part n n) by lia. unfold as_u64. by rewrite wrap_small by lia.
  - pose proof (Z.mod_pos_bound n 128 ltac:(lia)). pose proof (Z.div_mod n 128 ltac:(lia)).
    assert (Hl : (n mod 128 + 128) mod 128 = n mod 128) by (rewrite <-(Z.mul_1_l 128) at 2; rewrite Z.mod_add by lia; by apply Z.mod_small).
    rewrite low_bits, high_bit, Hl, (proj2 (Z.ltb_ge _ _)) by (unfold is_byte; lia).
    assert (m < 64) by (apply (shift_small n); lia).
    rewrite (shift_part (n mod 128) n) by nia. unfold as_u64, as_u32. rewrite !wrap_small by nia.
    rewrite IH.
    + f_equal. rewrite len_cons. f_equal; [|lia]. rewrite Z.pow_add_r by lia. change (2 ^ 7) with 128. nia.
    + destruct fuel; [change (128 ^ Z.of_nat 1) with 128 in Hn; lia|lia].
    + rewrite Nat2Z.inj_succ, Z.pow_succ_r in Hn by lia. nia.
    + nia.
    + lia.
    + rewrite Z.pow_add_r by lia. change (2 ^ 7) with 128. nia.
Qed.

(** The prefixes QPACK uses, with flag bits above them. *)
Definition prefix_ok (p flags : Z) : Prop := 0 < p < 8 /\ flags mod 2 ^ p = 0.

Lemma prefix_first p flags x : prefix_ok p flags -> 0 <= x < 2 ^ p -> Z.land (flags + x) (Z.shiftl 1 p - 1) = x.
Proof.
  intros [Hp Hf] Hx. rewrite land_low, Z.add_mod, Hf, Z.add_0_l, Z.mod_mod by lia. by rewrite Z.mod_small.
Qed.

Lemma prefix_int_read p flags n rest : prefix_ok p flags -> 0 <= n < 2 ^ 63 ->
  qpack_read_int (prefix_int p flags n ++ rest) p = Some (n, len (prefix_int p flags n)).
Proof.
  intros Hp Hn. assert (Hb : 1 < 2 ^ p) by (apply Z.pow_gt_1; unfold prefix_ok in Hp; lia).
  assert (Hm : Z.shiftl 1 p - 1 = 2 ^ p - 1) by (rewrite Z.shiftl_mul_pow2 by (unfold prefix_ok in Hp; lia); lia).
  unfold prefix_int, qpack_read_int. case_if; reflect_bools; cbn [app].
  - by rewrite prefix_first, Hm, (proj2 (Z.ltb_lt _ _)) by (done || lia).
  - rewrite prefix_first, Hm, (proj2 (Z.ltb_ge _ _)) by (done || lia). rewrite qpack_more_tail.
    + f_equal. rewrite len_cons. f_equal. lia.
    + lia.
    + change (128 ^ Z.of_nat 10) with (2 ^ 70). lia.
    + lia.
    + lia.
    + lia.
Qed.

(** What the code writes after a full prefix. *)
Lemma put_more_tail fuel n : 0 <= n -> put_more fuel n = int_tail fuel n.
Proof.
  revert n. induction fuel as [|fuel IH]; intros n Hn; [done|]. cbn [put_more int_tail]. destruct (Z.leb_spec 128 n) as [H|H].
  - rewrite (proj2 (Z.ltb_ge _ _)) by lia. rewrite Z.shiftr_div_pow2 by lia. change (2 ^ 7) with 128.
    rewrite IH by (apply Z.div_pos; lia). f_equal. apply Z.bits_inj'. intros k Hk.
    assert (n mod 128 + 128 = Z.lor (n mod 128) 128) as ->.
    { rewrite Z.lor_comm, (lor_add _ _ 7); [lia|lia|done|]. apply Z.mod_pos_bound. lia. }
    rewrite !Z.lor_spec. unfold as_u8, wrap. change 128 with (2 ^ 7). rewrite Z.pow2_bits_eqb by lia.
    destruct (Z.eqb_spec 7 k); [by rewrite !orb_true_r|]. f_equal.
    destruct (Z.lt_ge_cases k 8); [|rewrite !Z.mod_pow2_bits_high by lia; done].
    rewrite !Z.mod_pow2_bits_low by lia. done.
  - by rewrite (proj2 (Z.ltb_lt _ _)), as_u8_small by lia.
Qed.

Lemma len_prefix_int p flags n : 0 < len (prefix_int p flags n).
Proof. unfold prefix_int. case_if; rewrite len_cons; [done|]. pose proof (len_nonneg (int_tail 10 (n - (2 ^ p - 1)))). lia. Qed.

(** ** Huffman strings *)

(** The bits of the data, high bit first, and the number some bits are. *)
Definition byte_bits (b : Z) : list bool := map (fun k => Z.testbit b k) [7; 6; 5; 4; 3; 2; 1; 0].
Definition bits_of (data : bytes) : list bool := concat (map byte_bits data).
Definition bits_value (l : list bool) : Z := fold_left (fun w b => 2 * w + Z.b2z b) l 0.

(** The table of RFC 7541: the code's one differs from it at LF, CR, SYN. *)
Definition rfc_table : list (Z * Z) := <[10%nat := (0x3ffffffc, 30)]> (<[13%nat := (0x3ffffffd, 30)]> (<[22%nat := (0x3ffffffe, 30)]> TABLE)).

Definition code_bits (c : Z * Z) : list bool := map (fun k => Z.testbit (c.1) (Z.of_nat k)) (rev (seq 0 (Z.to_nat (c.2)))).
Definition symbol_bits (table : list (Z * Z)) (b : Z) : list bool := code_bits (nth (Z.to_nat b) table (0, 0)).

(** Whole bytes of the bits, the last one filled up with ones. *)
Fixpoint pack (fuel : nat) (l : list bool) : bytes :=
  match fuel, l with
  | S fuel, _ :: _ => bits_value (take 8 (l ++ repeat true 7)) :: pack fuel (drop 8 l)
  | _, _ => []
  end.

(** RFC 7541, section 5.2. *)
Definition huffman_encode (s : bytes) : bytes :=
  let l := concat (map (symbol_bits rfc_table) s) in pack (length l) l.

Definition huffman_ok (s : bytes) : Prop := bytes_ok s /\ (10 ∉ s) /\ (13 ∉ s) /\ (22 ∉ s).

Lemma bits_value_snoc l b : bits_value (l ++ [b]) = 2 * bits_value l + Z.b2z b.
Proof. unfold bits_value. by rewrite fold_left_app. Qed.

Lemma bits_value_bound l : 0 <= bits_value l < 2 ^ len l.
Proof.
  induction l as [|b l IH] using rev_ind; [done|]. rewrite bits_value_snoc, len_app.
  change (len [b]) with 1. rewrite Z.pow_add_r by (pose proof (len_nonneg l); lia). destruct b; cbn [Z.b2z]; lia.
Qed.

Lemma bits_value_app l1 l2 : bits_value (l1 ++ l2) = bits_value l1 * 2 ^ len l2 + bits_value l2.
Proof.
  induction l2 as [|b l2 IH] using rev_ind; [rewrite app_nil_r; change (2 ^ len (@nil bool)) with 1; change (bits_value []) with 0; lia|].
  rewrite app_assoc, !bits_value_snoc, IH, len_app. change (len [b]) with 1. rewrite Z.pow_add_r by (pose proof (len_nonneg l2); lia). lia.
Qed.

Lemma bits_value_prefix l1 l2 : Z.shiftr (bits_value (l1 ++ l2)) (len l2) = bits_value l1.
Proof.
  rewrite bits_value_app, Z.shiftr_div_pow2 by apply len_nonneg. pose proof (bits_value_bound l2). rewrite Z.div_add_l by lia.
  rewrite Z.div_small by done. lia.
Qed.

Lemma byte_bits_value l : length l = 8%nat -> byte_bits (bits_value l) = l.
Proof.
  intros Hl. repeat (destruct l as [|? l]; [discriminate Hl|]). destruct l; [|discriminate Hl].
  destruct b, b0, b1, b2, b3, b4, b5, b6; reflexivity.
Qed.

Lemma length_bits_of data : length (bits_of data) = (length data * 8)%nat.
Proof. unfold bits_of. induction data as [|b data IH]; [done|]. cbn [map concat]. rewrite length_app, IH. cbn [byte_bits map length]. lia. Qed.

Lemma byte_bits_lookup b k : (k < 8)%nat -> byte_bits b !! k = Some (Z.testbit b (7 - Z.of_nat k)).
Proof. intros Hk. do 8 (destruct k as [|k]; [reflexivity|]). lia. Qed.

Lemma bits_of_lookup data k : bit_at data k = Z.b2z (default false (bits_of data !! k)).
Proof.
  unfold bit_at. revert k. induction data as [|b data IH]; intros k.
  - unfold byte_at. change (bits_of []) with (@nil bool). rewrite !lookup_nil. cbn [default from_option]. by rewrite Z.shiftr_0_l.
  - unfold bits_of. cbn [map concat]. change 1 with (Z.ones 1). destruct (Nat.lt_ge_cases k 8) as [Hk|Hk].
    + rewrite lookup_app_l by (cbn; lia). rewrite Nat.div_small, Nat.mod_small, byte_bits_lookup by lia. cbn [default from_option byte_at lookup list_lookup].
      unfold id. rewrite Z.land_ones, Z.shiftr_div_pow2, Z.testbit_spec' by lia. done.
    + rewrite lookup_app_r by (cbn; lia). cbn [byte_bits map length]. change (Z.ones 1) with 1. specialize (IH (k - 8)%nat). unfold bits_of in IH. rewrite <-IH.
      assert (Hd : (k / 8 = S ((k - 8) / 8))%nat /\ (k mod 8 = (k - 8) mod 8)%nat).
      { replace k with ((k - 8) + 1 * 8)%nat at 1 3 by lia. rewrite Nat.div_add, Nat.Div0.mod_add by lia. lia. }
      destruct Hd as [-> ->]. done.
Qed.

(** The window is the number the next bits are. *)
Lemma fetch_bits data total n : forall bp w f, total = length (bits_of data) -> (bp + n <= total)%nat ->
  fetch data total n bp w f = (fold_left (fun w b => 2 * w + Z.b2z b) (take n (drop bp (bits_of data))) w, (f + n)%nat).
Proof.
  induction n as [|n IH]; intros bp w f Ht Hb; cbn [fetch].
  - rewrite take_0. cbn [fold_left]. f_equal. lia.
  - rewrite (proj2 (Nat.ltb_lt _ _)) by lia. rewrite IH by (done || lia). rewrite bits_of_lookup.
    destruct (lookup_lt_is_Some_2 (bits_of data) bp ltac:(lia)) as [b Hl]. rewrite Hl. cbn [default from_option]. unfold id.
    rewrite (drop_S (bits_of data) b bp) by done. cbn [take fold_left]. f_equal; [|lia]. f_equal.
    rewrite Z.shiftl_mul_pow2 by lia. rewrite (lor_add _ _ 1); [lia|lia|by apply Z.mod_mul|by destruct b].
Qed.

(** The search of a symbol, on the bits themselves. *)
Fixpoint search (todo l : nat) (bs : list bool) : option (Z * nat) :=
  match todo with
  | O => None
  | S todo =>
      if (length bs <? l)%nat then None
      else
        match scan TABLE 0 (Z.of_nat l) (bits_value (take l bs)) with
        | Some sym => Some (sym, l)
        | None => search todo (S l) bs
        end
  end.

Lemma match_len_search bs : (length bs <= 30)%nat -> forall todo l, match_len todo l (length bs) (length bs) (bits_value bs) = search todo l bs.
Proof.
  intros Hb. induction todo as [|todo IH]; intros l; [done|]. cbn [match_len search]. case_if; [done|].
  rewrite IH. enough (as_u32 (Z.shiftr (bits_value bs) (Z.of_nat (length bs - l))) = bits_value (take l bs)) as -> by done.
  rewrite <-(take_drop l bs) at 1. replace (Z.of_nat (length bs - l)) with (len (drop l bs)) by (unfold len; by rewrite length_drop).
  rewrite bits_value_prefix. apply wrap_small. pose proof (bits_value_bound (take l bs)) as H. split; [lia|].
  apply Z.lt_le_trans with (2 ^ len (take l bs)); [lia|]. apply Z.pow_le_mono_r; [lia|]. unfold len. rewrite length_take. lia.
Qed.

(** More bits do not change what is found. *)
Lemma search_app r rest todo : forall l bs, search todo l bs = Some r -> search todo l (bs ++ rest) = Some r.
Proof.
  induction todo as [|todo IH]; intros l bs; [done|]. cbn [search]. destruct (length bs <? l)%nat eqn:E; [done|]. apply Nat.ltb_ge in E.
  rewrite (proj2 (Nat.ltb_ge _ _)) by (rewrite length_app; lia). rewrite take_app_le by lia. case_match; [done|]. apply IH.
Qed.

(** Every code of the standard's table but the three is found, and the filling is not. *)
Definition symbols : list Z := List.filter (fun b => negb ((b =? 10) || (b =? 13) || (b =? 22))) RustStr.octets.

Lemma rfc_codes_found : forallb (fun b => bool_decide (search 26 5 (symbol_bits rfc_table b) = Some (b, length (symbol_bits rfc_table b))) &&
  (length (symbol_bits rfc_table b) <=? 30)%nat && (5 <=? length (symbol_bits rfc_table b))%nat) symbols = true.
Proof. vm_compute. reflexivity. Qed.

Lemma filling_not_found r : (r < 8)%nat -> search 26 5 (repeat true r) = None.
Proof. intros Hr. do 8 (destruct r as [|r]; [vm_compute; reflexivity|]). lia. Qed.

Lemma symbol_found b : is_byte b -> b <> 10 -> b <> 13 -> b <> 22 ->
  search 26 5 (symbol_bits rfc_table b) = Some (b, length (symbol_bits rfc_table b)) /\ (5 <= length (symbol_bits rfc_table b) <= 30)%nat.
Proof.
  intros Hb H1 H2 H3. pose proof rfc_codes_found as H. rewrite forallb_forall in H.
  specialize (H b). assert (Hin : In b symbols).
  { unfold symbols. apply filter_In. split.
    + unfold RustStr.octets. apply in_map_iff. exists (Z.to_nat b). unfold is_byte in Hb. split; [lia|]. apply in_seq. lia.
    + by rewrite !(proj2 (Z.eqb_neq _ _)) by done. }
  specialize (H Hin). apply andb_prop in H as [H Hm]. apply andb_prop in H as [H Hx]. apply bool_decide_eq_true in H. apply Nat.leb_le in Hx, Hm. by split.
Qed.

Lemma huffman_loop_decodes data r : (r < 8)%nat -> forall s fuel pos, huffman_ok s -> (length s < fuel)%nat -> (pos <= length (bits_of data))%nat ->
  drop pos (bits_of data) = concat (map (symbol_bits rfc_table) s) ++ repeat true r ->
  huffman_loop fuel data (length (bits_of data)) pos = Ret s.
Proof.
  intros Hr. induction s as [|b s IH]; intros [|fuel] pos Hs Hf Hp Hd; cbn [length] in Hf; [lia| |lia|]; cbn [huffman_loop].
  - cbn [map concat app] in Hd. case_if; [|done]. apply (f_equal length) in Hd as Hl. rewrite length_drop, repeat_length in Hl.
    rewrite Nat.min_l by lia. rewrite fetch_bits by (done || lia). rewrite Hd. rewrite take_ge by (rewrite repeat_length; lia).
    replace (length (bits_of data) - pos)%nat with (length (repeat true r)) by (rewrite repeat_length; lia).
    change (0 + ?n)%nat with n. fold (bits_value (repeat true r)). rewrite match_len_search by (rewrite repeat_length; lia). by rewrite filling_not_found.
  - destruct Hs as (Hok & H10 & H13 & H22). apply Forall_cons in Hok as [Hb Hok].
    apply not_elem_of_cons in H10 as [N10 H10], H13 as [N13 H13], H22 as [N22 H22].
    destruct (symbol_found b Hb) as [Hfound Hlen]; [congruence..|].
    cbn [map concat] in Hd. rewrite <-app_assoc in Hd. set (cb := symbol_bits rfc_table b) in *. set (R := concat _ ++ _) in Hd.
    apply (f_equal length) in Hd as Hl. rewrite length_drop, length_app in Hl. rewrite (proj2 (Nat.ltb_lt _ _)) by lia.
    set (try := Nat.min (length (bits_of data) - pos) 30). rewrite fetch_bits by (done || lia). rewrite Hd.
    assert (Ht : take try (cb ++ R) = cb ++ take (try - length cb) R) by (rewrite take_app; f_equal; apply take_ge; lia).
    change (0 + try)%nat with try. fold (bits_value (take try (cb ++ R))).
    assert (Hlt : length (take try (cb ++ R)) = try) by (rewrite length_take, length_app; lia).
    rewrite <-Hlt at 1 2. rewrite match_len_search by lia. rewrite Ht, (search_app (b, length cb)) by done.
    rewrite (proj2 (Z.eqb_neq _ _)) by (unfold is_byte, EOS in *; lia). rewrite (IH fuel (pos + length cb)%nat).
    + rewrite bind_Ret, as_u8_small by (unfold is_byte in Hb; lia). done.
    + by split_and!.
    + lia.
    + lia.
    + rewrite <-drop_drop, Hd. apply drop_app_length.
Qed.

Lemma take_repeat {A} (x : A) n m : (n <= m)%nat -> take n (repeat x m) = repeat x n.
Proof. revert m. induction n as [|n IH]; intros [|m] H; try (done || lia). cbn [repeat take]. by rewrite IH by lia. Qed.

Lemma bits_of_pack fuel : forall l, (length l <= fuel)%nat -> exists r, (r < 8)%nat /\ bits_of (pack fuel l) = l ++ repeat true r.
Proof.
  induction fuel as [|fuel IH]; intros [|b l] Hl; cbn [length] in Hl; try lia; try (exists 0%nat; split; [lia|done]).
  cbn [pack]. set (l0 := b :: l) in *. assert (Hl0 : (0 < length l0)%nat) by (unfold l0; cbn [length]; lia). unfold bits_of. cbn [map concat].
  rewrite byte_bits_value by (rewrite length_take, length_app, repeat_length; lia). fold (bits_of (pack fuel (drop 8 l0))).
  destruct (Nat.lt_ge_cases (length l0) 8) as [H8|H8].
  - exists (8 - length l0)%nat. split; [lia|]. rewrite (drop_ge l0) by lia.
    replace (pack fuel []) with (@nil Z) by (by destruct fuel). change (bits_of []) with (@nil bool).
    rewrite app_nil_r, take_app, take_ge, take_repeat by lia. done.
  - destruct (IH (drop 8 l0)) as (r & Hr & ->); [rewrite length_drop; unfold l0; cbn [length]; lia|].
    exists r. split; [done|]. rewrite take_app_le by lia. by rewrite app_assoc, take_drop.
Qed.

Lemma length_symbols s : huffman_ok s -> (length s * 5 <= length (concat (map (symbol_bits rfc_table) s)))%nat.
Proof.
  intros (Hok & H10 & H13 & H22). induction Hok as [|b s Hb _ IH]; [done|]. cbn [map concat length]. rewrite length_app.
  apply not_elem_of_cons in H10 as [N10 H10], H13 as [N13 H13], H22 as [N22 H22].
  destruct (symbol_found b Hb) as [_ Hl]; [congruence..|]. specialize (IH H10 H13 H22). lia.
Qed.

(** What RFC 7541's Huffman coding makes of any bytes but LF, CR and SYN, the decoder of the header block gives back,
    read as UTF-8: no code is taken for another, and the ones that fill the last byte for none. *)
Lemma huffman_decodes s : huffman_ok s -> huffman_decode (huffman_encode s) = Ret (from_utf8_lossy s).
Proof.
  intros Hs. unfold huffman_decode, huffman_encode. set (l := concat _). destruct (bits_of_pack (length l) l) as (r & Hr & Hb); [done|].
  rewrite <-length_bits_of, (huffman_loop_decodes _ r Hr s); [done|done| |lia|by rewrite Hb].
  rewrite Hb, length_app. pose proof (length_symbols s Hs). fold l in H. lia.
Qed.

(** RFC 7541's own example. *)
Lemma huffman_decodes_witness : huffman_ok (lit "www.example.com") /\
  huffman_encode (lit "www.example.com") = [0xf1; 0xe3; 0xc2; 0xe5; 0xf2; 0x3a; 0x6b; 0xa0; 0xab; 0x90; 0xf4; 0xff] /\
  huffman_decode (huffman_encode (lit "www.example.com")) = Ret (lit "www.example.com").
Proof.
  assert (H : huffman_ok (lit "www.example.com")) by (split_and!; [by apply (bool_decide_unpack _); vm_compute|by apply (bool_decide_unpack _); vm_compute..]).
  split_and!; [exact H|vm_compute; reflexivity|exact (huffman_decodes _ H)].
Defined.

(** A line feed ends the string: the table gives it a code the standard does not. *)
Example huffman_lf_lost : huffman_decode (huffman_encode (lit "a" ++ [10] ++ lit "b")) = Ret (lit "a").
Proof. vm_compute. reflexivity. Qed.

(** ** Header blocks *)

(** The representations of RFC 9204, section 4.5, that refer to no dynamic table. *)
Inductive representation : Type :=
  | Indexed (i : Z)
  | NameRef (never : bool) (i : Z) (h : bool) (value : str)
  | Literal (never : bool) (hn : bool) (name : str) (h : bool) (value : str).

Definition coded (h : bool) (s : bytes) : bytes := if h then huffman_encode s else s.

(** A string: the flag for Huffman above the prefix of its length. *)
Definition encode_string (p flags : Z) (h : bool) (s : bytes) : bytes :=
  prefix_int p (flags + if h then 2 ^ p else 0) (len (coded h s)) ++ coded h s.

Definition encode_field (f : representation) : bytes :=
  match f with
  | Indexed i => prefix_int 6 0xC0 i
  | NameRef never i h value => prefix_int 4 (0x50 + if never then 0x20 else 0) i ++ encode_string 7 0 h value
  | Literal never hn name h value => encode_string 3 (0x20 + if never then 0x10 else 0) hn name ++ encode_string 7 0 h value
  end.

Definition field_header (f : representation) : str * str :=
  match f with
  | Indexed i => default ([], []) (qpack_static_entry i)
  | NameRef _ i _ value => (default [] (qpack_static_name i), value)
  | Literal _ _ name _ value => (name, value)
  end.

Definition text_ok (h : bool) (s : str) : Prop := utf8_valid s = true /\ (h = true -> huffman_ok s).

Definition field_ok (f : representation) : Prop :=
  match f with
  | Indexed i => 0 <= i < len static_entries
  | NameRef _ i h value => 0 <= i < len static_entries /\ text_ok h value
  | Literal _ hn name h value => text_ok hn name /\ text_ok h value
  end.

#[export] Instance field_ok_dec f : Decision (field_ok f).
Proof. destruct f; cbn [field_ok]; unfold text_ok, huffman_ok; apply _. Defined.

(** The tests on a first byte, as ranges. *)
Lemma byte_tests b : is_byte b ->
  (Z.land b 0xc0 =? 0x40) = ((64 <=? b) && (b <? 128)) /\ (Z.land b 0xe0 =? 0x20) = ((32 <=? b) && (b <? 64)) /\ (Z.land b 0x08 =? 0) = (b mod 16 <? 8).
Proof.
  unfold is_byte. intros Hb. split_and!.
  - by apply (octet_table (fun b => Z.land b 0xc0 =? 0x40) (fun b => (64 <=? b) && (b <? 128))).
  - by apply (octet_table (fun b => Z.land b 0xe0 =? 0x20) (fun b => (32 <=? b) && (b <? 64))).
  - by apply (octet_table (fun b => Z.land b 0x08 =? 0) (fun b => b mod 16 <? 8)).
Qed.

Lemma prefix_int_head p flags n : 0 < p -> 0 <= n -> exists x t, prefix_int p flags n = (flags + x) :: t /\ 0 <= x < 2 ^ p.
Proof.
  intros Hp Hn. assert (1 < 2 ^ p) by (apply Z.pow_gt_1; lia). unfold prefix_int. case_if; reflect_bools; do 2 eexists; (split; [done|lia]).
Qed.

Lemma encode_string_head p flags (h : bool) s : 0 < p -> exists x t, encode_string p flags h s = (flags + (if h then 2 ^ p else 0) + x) :: t /\ 0 <= x < 2 ^ p.
Proof.
  intros Hp. destruct (prefix_int_head p (flags + if h then 2 ^ p else 0) (len (coded h s)) Hp (len_nonneg _)) as (x & t & E & Hx).
  exists x, (t ++ coded h s). split; [|done]. unfold encode_string. by rewrite E.
Qed.

Lemma qpack_text_coded h s : text_ok h s -> qpack_text h (coded h s) = Ret s.
Proof.
  intros [Hu Hh]. unfold qpack_text, coded. destruct h; [rewrite huffman_decodes by auto|]; by rewrite from_utf8_lossy_valid.
Qed.

(** A string at its place in the block. *)
Lemma qpack_string_at pre p flags (h : bool) s rest : prefix_ok p (flags + if h then 2 ^ p else 0) ->
  let payload := pre ++ encode_string p flags h s ++ rest in len payload < 2 ^ 62 ->
  qpack_string payload (len pre) p = Ret (Some (coded h s, len pre + len (encode_string p flags h s))).
Proof.
  intros Hp payload Hl. unfold qpack_string, payload. rewrite slice_tail, bind_Ret by done. unfold encode_string in *.
  set (c := coded h s) in *. set (P := prefix_int p _ _) in *. rewrite <-!app_assoc.
  assert (H0 : len pre + len P + len c + len rest < 2 ^ 62) by (unfold payload in Hl; rewrite !len_app in Hl; lia).
  pose proof (len_nonneg pre). pose proof (len_nonneg P). pose proof (len_nonneg c). pose proof (len_nonneg rest).
  unfold P at 1. rewrite prefix_int_read by (done || lia). fold P.
  unfold as_u64. rewrite wrap_small by lia. rewrite (proj2 (Z.ltb_ge _ _)) by len_solve.
  rewrite (slice_seg _ (pre ++ P) c rest), bind_Ret by (app_eq || len_solve). do 3 f_equal. len_solve.
Qed.

Lemma qpack_value_at pre h s rest : text_ok h s -> let payload := pre ++ encode_string 7 0 h s ++ rest in len payload < 2 ^ 62 ->
  qpack_value payload (len pre) = Ret (Some (s, len pre + len (encode_string 7 0 h s))).
Proof.
  intros Hs payload Hl. unfold qpack_value. destruct (encode_string_head 7 0 h s ltac:(lia)) as (x & t & E & Hx).
  assert (Hc : len pre < len payload) by (unfold payload; rewrite !len_app, E, len_cons; pose proof (len_nonneg t); pose proof (len_nonneg rest); lia).
  rewrite (proj2 (Z.leb_gt _ _)) by done. rewrite (idx_seg payload pre (0 + (if h then 2 ^ 7 else 0) + x) (t ++ rest)), bind_Ret by (done || (unfold payload; rewrite E; app_eq)).
  unfold payload in *. rewrite qpack_string_at, bind_Ret by (done || (split; [lia|by destruct h])).
  rewrite high_bit by (unfold is_byte; destruct h; lia).
  replace (negb (0 + (if h then 2 ^ 7 else 0) + x <? 128)) with h by (destruct h; [rewrite (proj2 (Z.ltb_ge _ _))|rewrite (proj2 (Z.ltb_lt _ _))]; (done || lia)).
  by rewrite qpack_text_coded by done.
Qed.

Lemma static_known i : 0 <= i < len static_entries -> exists n v, qpack_static_entry i = Some (n, v) /\ 0 < len n.
Proof.
  intros Hi. unfold qpack_static_entry. rewrite (proj2 (Z.leb_le _ _)), (proj2 (Z.ltb_lt _ _)) by lia. cbn [andb].
  destruct (lookup_lt_is_Some_2 static_entries (Z.to_nat i)) as [[n v] E]; [unfold len in Hi; lia|]. exists n, v. split; [done|].
  assert (H : Forall (fun e => 0 < len e.1) static_entries) by (apply (bool_decide_unpack _); vm_compute; done).
  exact (Forall_lookup_1 _ _ _ _ H E).
Qed.

(** One representation at its place: what the loop makes of it, and where it goes on. *)
Section Step.
Context (pre rest : bytes) (fuel : nat).

Definition steps (f : representation) : Prop :=
  forall payload, payload = pre ++ encode_field f ++ rest -> len payload < 2 ^ 62 ->
  header_loop (S fuel) payload (len pre) = (hs ← header_loop fuel payload (len pre + len (encode_field f)); Ret (field_header f :: hs)).

(** The turn starts at the first byte of the representation, with it and the rest before it. *)
Lemma turn_start f b t payload : payload = pre ++ encode_field f ++ rest -> encode_field f = b :: t ->
  (len pre <? len payload) = true /\ idx payload (len pre) = Ret b /\ slice payload (len pre) (len payload) = Ret (encode_field f ++ rest).
Proof.
  intros -> E. pose proof (len_nonneg t). pose proof (len_nonneg rest). split_and!.
  - apply Z.ltb_lt. rewrite !len_app, E, len_cons. lia.
  - apply (idx_seg _ pre _ (t ++ rest)); [rewrite E; app_eq|done].
  - by apply slice_tail.
Qed.

Lemma step_indexed i : field_ok (Indexed i) -> steps (Indexed i).
Proof.
  intros Hi payload Hp Hl. destruct (prefix_int_head 6 0xC0 i ltac:(lia) ltac:(cbn in Hi; lia)) as (x & t & E & Hx).
  destruct (turn_start (Indexed i) _ t payload Hp E) as (T1 & T2 & T3).
  cbn [header_loop]. rewrite T1, T2, bind_Ret, high_bit, (proj2 (Z.ltb_ge _ _)) by (unfold is_byte; lia). cbn [negb encode_field field_header field_ok] in *.
  rewrite T3, bind_Ret, prefix_int_read by (done || (change (len static_entries) with 29 in Hi; lia)).
  destruct (static_known i Hi) as (n & v & -> & Hn). by rewrite (proj2 (Z.eqb_neq _ _)) by lia.
Qed.

Lemma step_name_ref never i h value : field_ok (NameRef never i h value) -> steps (NameRef never i h value).
Proof.
  intros [Hi Ht] payload Hp Hl. cbn [encode_field field_header] in *. set (fl := 0x50 + if never then 0x20 else 0) in *.
  destruct (prefix_int_head 4 fl i ltac:(lia) ltac:(lia)) as (x & t & E & Hx).
  assert (E' : encode_field (NameRef never i h value) = (fl + x) :: t ++ encode_string 7 0 h value) by (cbn [encode_field]; fold fl; by rewrite E).
  destruct (turn_start (NameRef never i h value) _ _ payload Hp E') as (T1 & T2 & T3). cbn [encode_field] in T1, T2, T3. fold fl in T1, T2, T3.
  set (P := prefix_int 4 fl i) in *. set (V := encode_string 7 0 h value) in *.
  assert (Hb : is_byte (fl + x) /\ 64 <= fl + x < 128) by (unfold is_byte, fl; destruct never; lia). destruct Hb as [Hb Hr].
  destruct (byte_tests _ Hb) as (B1 & _ & _).
  cbn [header_loop]. rewrite T1, T2, bind_Ret, high_bit, (proj2 (Z.ltb_lt _ _)), B1 by (done || lia). cbn [negb].
  rewrite (proj2 (Z.leb_le _ _)), (proj2 (Z.ltb_lt _ _)) by lia. cbn [andb]. rewrite T3, bind_Ret, <-app_assoc.
  assert (qpack_read_int (P ++ V ++ rest) 4 = Some (i, len P)) as ->
    by (apply prefix_int_read; [split; [lia|by destruct never]|change (len static_entries) with 29 in Hi; lia]).
  replace (len pre + len P) with (len (pre ++ P)) by len_solve. rewrite <-app_assoc, (app_assoc pre P) in Hp. rewrite Hp in Hl |- *.
  assert (qpack_value ((pre ++ P) ++ V ++ rest) (len (pre ++ P)) = Ret (Some (value, len (pre ++ P) + len V))) as -> by (by apply qpack_value_at).
  rewrite bind_Ret. by replace (len (pre ++ P) + len V) with (len pre + len (P ++ V)) by len_solve.
Qed.

Lemma step_literal never hn name h value : field_ok (Literal never hn name h value) -> steps (Literal never hn name h value).
Proof.
  intros [Hn Ht] payload Hp Hl. cbn [encode_field field_header] in *. set (fl := 0x20 + if never then 0x10 else 0) in *.
  destruct (encode_string_head 3 fl hn name ltac:(lia)) as (x & t & E & Hx). set (b := fl + (if hn then 2 ^ 3 else 0) + x) in *.
  assert (E' : encode_field (Literal never hn name h value) = b :: t ++ encode_string 7 0 h value) by (cbn [encode_field]; fold fl; by rewrite E).
  destruct (turn_start (Literal never hn name h value) _ _ payload Hp E') as (T1 & T2 & _). cbn [encode_field] in T1, T2. fold fl in T1, T2.
  set (P := encode_string 3 fl hn name) in *. set (V := encode_string 7 0 h value) in *.
  assert (Hb : is_byte b /\ 32 <= b < 64 /\ b mod 16 = (if hn then 8 else 0) + x)
    by (unfold is_byte, b, fl; split_and!; [destruct never, hn; lia..|symmetry; apply (Z.mod_unique_pos _ _ (if never then 3 else 2)); destruct never, hn; lia]).
  destruct Hb as (Hb & Hr & Hm). destruct (byte_tests _ Hb) as (B1 & B2 & B3).
  cbn [header_loop]. rewrite T1, T2, bind_Ret, high_bit, (proj2 (Z.ltb_lt _ _)), B1, B2, B3 by (done || lia). cbn [negb].
  rewrite (proj2 (Z.leb_gt 64 b)), (proj2 (Z.leb_le 32 b)), (proj2 (Z.ltb_lt b 64)) by lia. cbn [andb].
  rewrite <-app_assoc in Hp. rewrite Hp in Hl |- *.
  assert (qpack_string (pre ++ P ++ V ++ rest) (len pre) 3 = Ret (Some (coded hn name, len pre + len P))) as ->
    by (apply qpack_string_at; [split; [lia|by destruct never, hn]|done]).
  rewrite bind_Ret. replace (negb (b mod 16 <? 8)) with hn by (rewrite Hm; destruct hn; [rewrite (proj2 (Z.ltb_ge _ _))|rewrite (proj2 (Z.ltb_lt _ _))]; (done || lia)).
  rewrite qpack_text_coded, bind_Ret by done. replace (len pre + len P) with (len (pre ++ P)) by len_solve.
  rewrite (app_assoc pre P) in Hl |- *.
  assert (qpack_value ((pre ++ P) ++ V ++ rest) (len (pre ++ P)) = Ret (Some (value, len (pre ++ P) + len V))) as -> by (by apply qpack_value_at).
  rewrite bind_Ret. by replace (len (pre ++ P) + len V) with (len pre + len (P ++ V)) by len_solve.
Qed.

Lemma header_step f : field_ok f -> steps f.
Proof. destruct f; [apply step_indexed|apply step_name_ref|apply step_literal]. Qed.
End Step.

Lemma len_encode_field f : field_ok f -> 0 < len (encode_field f).
Proof.
  destruct f as [i|never i h value|never hn name h value]; cbn [encode_field]; intros _; rewrite ?len_app; try apply len_prefix_int;
    pose proof (len_nonneg (encode_string 7 0 h value)); [|unfold encode_string at 1; rewrite len_app; pose proof (len_nonneg (coded hn name))];
    (match goal with |- context [prefix_int ?p ?g ?n] => pose proof (len_prefix_int p g n) end); lia.
Qed.

Lemma header_loop_fields fs : forall fuel pre, Forall field_ok fs -> (length (concat (map encode_field fs)) < fuel)%nat ->
  len (pre ++ concat (map encode_field fs)) < 2 ^ 62 ->
  header_loop fuel (pre ++ concat (map encode_field fs)) (len pre) = Ret (map field_header fs).
Proof.
  induction fs as [|f fs IH]; intros [|fuel] pre Hfs Hf Hl; cbn [map concat] in *; try lia.
  - cbn [header_loop]. rewrite app_nil_r. by rewrite Z.ltb_irrefl.
  - apply Forall_cons in Hfs as [Hok Hfs]. pose proof (len_encode_field f Hok) as Hp. rewrite (header_step pre _ fuel f Hok _ eq_refl) by done.
    rewrite app_assoc in Hl |- *. rewrite <-len_app. rewrite length_app in Hf. unfold len in Hp. rewrite IH, bind_Ret by (done || lia). done.
Qed.

Lemma qpack_decodes a b fs : Forall field_ok fs -> len (concat (map encode_field fs)) < 2 ^ 61 ->
  parse_headers_from_qpack (a :: b :: concat (map encode_field fs)) = Ret (Ok (map field_header fs)).
Proof.
  intros Hfs Hl. unfold parse_headers_from_qpack. pose proof (len_nonneg (concat (map encode_field fs))).
  rewrite (proj2 (Z.ltb_ge _ _)) by (rewrite !len_cons; lia).
  change (a :: b :: ?l) with ([a; b] ++ l) at 2. change 2 with (len [a; b]). rewrite header_loop_fields, bind_Ret; [done|done|cbn [length app]; lia|].
  rewrite len_app. change (len [a; b]) with 2. lia.
Qed.

(** A header block made of indexed fields and literals as RFC 9204 encodes them, Huffman-coded strings or plain ones,
    never-indexed or not, is read as the list of their headers. *)
Theorem qpack_fields a b fs : Forall field_ok fs -> len (concat (map encode_field fs)) < 2 ^ 61 ->
  parse_headers_from_qpack (a :: b :: concat (map encode_field fs)) = Ret (Ok (map field_header fs)).
Proof. apply qpack_decodes. Qed.

Lemma qpack_fields_witness :
  let fs := [Indexed 25; NameRef false 24 true (lit "233"); Literal true true (lit "hysteria-udp") false (lit "true")] in
  Forall field_ok fs /\ parse_headers_from_qpack (0 :: 0 :: concat (map encode_field fs)) =
    Ret (Ok [(lit ":status", lit "200"); (lit ":status", lit "233"); (lit "hysteria-udp", lit "true")]).
Proof.
  intros fs. assert (H : Forall field_ok fs) by (apply (bool_decide_unpack _); vm_compute; done).
  split; [exact H|]. rewrite (qpack_fields 0 0 fs H) by (vm_compute; reflexivity). reflexivity.
Defined.

(** ** No block makes the parser panic but one with an overlong integer *)

(** At most [k] bytes in a row are continuation bytes; [room] of them may still come. *)
Fixpoint short_runs (k room : nat) (l : bytes) : bool :=
  match l with
  | [] => true
  | b :: l =>
      if b <? 128 then short_runs k k l
      else match room with O => false | S room => short_runs k room l end
  end.

Lemma short_runs_mono k l : forall a b, (a <= b)%nat -> short_runs k a l = true -> short_runs k b l = true.
Proof.
  induction l as [|x l IH]; intros a b Hab; [done|]. cbn [short_runs]. case_if; [done|]. destruct a as [|a]; [done|]. destruct b as [|b]; [lia|]. apply IH. lia.
Qed.

Lemma short_runs_suffix k l1 : forall a l2, (a <= k)%nat -> short_runs k a (l1 ++ l2) = true -> short_runs k k l2 = true.
Proof.
  induction l1 as [|x l1 IH]; intros a l2 Ha; cbn [app]; [by apply short_runs_mono|]. cbn [short_runs]. case_if; [by apply IH|].
  destruct a as [|a]; [done|]. apply IH. lia.
Qed.

Definition block_ok (payload : bytes) : Prop := bytes_ok payload /\ short_runs 8 8 payload = true /\ len payload < 2 ^ 62.

(** An integer read from such bytes does not wrap and stays within them. *)
Lemma qpack_more_bound rest : forall j val i v c, bytes_ok rest -> (j <= 8)%nat -> short_runs 8 (8 - j) rest = true ->
  0 <= val <= 2 ^ (7 * Z.of_nat j) + 126 -> qpack_more rest val (7 * Z.of_nat j) i = Some (v, c) -> 0 <= v <= 2 ^ 63 + 126 /\ i < c <= i + len rest.
Proof.
  induction rest as [|b rest IH]; intros j val i v c Hb Hj Hs Hv; [done|]. apply Forall_cons in Hb as [Hb Hok]. unfold is_byte in Hb.
  cbn [qpack_more short_runs] in *. pose proof (len_nonneg rest). rewrite len_cons, low_bits, high_bit by done.
  assert (Hp : 0 < 2 ^ (7 * Z.of_nat j) <= 2 ^ 56) by (split; [apply Z.pow_pos_nonneg; lia|apply Z.pow_le_mono_r; lia]).
  pose proof (Z.mod_pos_bound b 128 ltac:(lia)) as Hm. rewrite (shift_part (b mod 128) 127) by (done || lia).
  assert (Hn : 0 <= val + b mod 128 * 2 ^ (7 * Z.of_nat j) <= 128 * 2 ^ (7 * Z.of_nat j) + 126) by nia. unfold as_u64. rewrite wrap_small by lia.
  destruct (Z.ltb_spec b 128).
  - intros [= <- <-]. lia.
  - destruct j as [|j]; [|destruct (8 - S j)%nat as [|room] eqn:El; [done|]].
    + cbn [Nat.sub] in Hs. intros E. destruct (IH 1%nat (val + b mod 128 * 2 ^ (7 * Z.of_nat 0)) (i + 1) v c Hok ltac:(lia) Hs); [|exact E|lia].
      change (2 ^ (7 * Z.of_nat 1)) with 128. change (2 ^ (7 * Z.of_nat 0)) with 1 in *. lia.
    + unfold as_u32. rewrite wrap_small by lia. replace (7 * Z.of_nat (S j) + 7) with (7 * Z.of_nat (S (S j))) by lia.
      intros E. replace room with (8 - S (S j))%nat in Hs by lia.
      destruct (IH (S (S j)) (val + b mod 128 * 2 ^ (7 * Z.of_nat (S j))) (i + 1) v c Hok ltac:(lia) Hs); [|exact E|lia].
      replace (7 * Z.of_nat (S (S j))) with (7 + 7 * Z.of_nat (S j)) by lia. rewrite Z.pow_add_r by lia. change (2 ^ 7) with 128. lia.
Qed.

Lemma qpack_int_bound data p v c : bytes_ok data -> 0 < p < 8 -> short_runs 8 8 data = true -> qpack_read_int data p = Some (v, c) ->
  0 <= v <= 2 ^ 63 + 126 /\ 0 < c <= len data.
Proof.
  intros Hb Hp Hs. destruct data as [|b rest]; [done|]. apply Forall_cons in Hb as [Hb Hok]. cbn [qpack_read_int].
  rewrite land_low by lia. assert (0 < 2 ^ p <= 2 ^ 7) by (split; [apply Z.pow_pos_nonneg|apply Z.pow_le_mono_r]; lia).
  pose proof (Z.mod_pos_bound b (2 ^ p) ltac:(lia)). pose proof (len_nonneg rest). rewrite len_cons. change (2 ^ 7) with 128 in *. case_if; reflect_bools.
  - intros [= <- <-]. lia.
  - intros E. destruct (qpack_more_bound rest 0 (b mod 2 ^ p) 1 v c Hok ltac:(lia)); [|change (2 ^ (7 * Z.of_nat 0)) with 1; lia|exact E|lia].
    exact (short_runs_suffix 8 [b] 8 rest ltac:(lia) Hs).
Qed.

Lemma match_len_bound tr f w sym n : forall todo l, match_len todo l tr f w = Some (sym, n) -> (l <= n)%nat.
Proof.
  induction todo as [|todo IH]; intros l; [done|]. cbn [match_len]. case_if; [done|]. case_match; [by intros [= <- <-]|]. intros E. apply IH in E. lia.
Qed.

Lemma huffman_loop_returns data total : forall fuel pos, (total - pos < fuel)%nat -> returns (huffman_loop fuel data total pos).
Proof.
  induction fuel as [|fuel IH]; intros pos Hf; [lia|]. cbn [huffman_loop]. destruct (pos <? total)%nat eqn:Hc; [|apply returns_ret]. apply Nat.ltb_lt in Hc.
  destruct (fetch _ _ _ _ _ _) as [w f]. destruct (match_len _ _ _ _ _) as [[sym n]|] eqn:E; [|apply returns_ret]. apply match_len_bound in E.
  case_if; [apply returns_ret|]. destruct (IH (pos + n)%nat ltac:(lia)) as [out ->]. rewrite bind_Ret. apply returns_ret.
Qed.

Lemma qpack_text_returns h s : returns (qpack_text h s).
Proof.
  destruct h; [|apply returns_ret]. cbn [qpack_text]. unfold huffman_decode.
  destruct (huffman_loop_returns s (length s * 8) (length s * 8 + 1) 0) as [out ->]; [lia|]. rewrite bind_Ret. apply returns_ret.
Qed.

(** The rest of a block from a place in it. *)
Lemma block_rest payload i : block_ok payload -> 0 <= i <= len payload ->
  exists rest, slice payload i (len payload) = Ret rest /\ bytes_ok rest /\ short_runs 8 8 rest = true /\ len rest = len payload - i.
Proof.
  intros (Hb & Hs & _) Hi. exists (drop (Z.to_nat i) payload). rewrite <-(take_drop (Z.to_nat i) payload) in Hb, Hs. apply Forall_app in Hb as [_ Hb].
  apply short_runs_suffix in Hs; [|done]. assert (Hl : len (take (Z.to_nat i) payload) = i) by (unfold len in *; rewrite length_take; lia).
  split_and!; [|done..|unfold len in *; rewrite length_drop; lia]. rewrite <-(take_drop (Z.to_nat i) payload) at 1 2. by apply slice_tail.
Qed.

Lemma qpack_string_returns payload i p : block_ok payload -> 0 <= i <= len payload -> 0 < p < 8 ->
  exists r, qpack_string payload i p = Ret r /\ forall s n, r = Some (s, n) -> i < n <= len payload.
Proof.
  intros Hok Hi Hp. destruct (block_rest payload i Hok Hi) as (rest & E & Hb & Hs & Hl). unfold qpack_string. rewrite E, bind_Ret.
  destruct (qpack_read_int rest p) as [[l c]|] eqn:Er; [|by exists None]. apply qpack_int_bound in Er as [Hv Hc]; [|done..].
  destruct Hok as (_ & _ & Hlen). unfold as_u64. rewrite wrap_small by lia. case_if; reflect_bools; [by exists None|].
  edestruct (slice_returns payload (i + c) (i + c + l)) as [s ->]; [lia..|]. rewrite bind_Ret. eexists. split; [done|]. intros s' n [= <- <-]. lia.
Qed.

Lemma qpack_value_returns payload i : block_ok payload -> 0 <= i -> exists r, qpack_value payload i = Ret r /\ forall s n, r = Some (s, n) -> i < n <= len payload.
Proof.
  intros Hok Hi. unfold qpack_value. case_if; reflect_bools; [by exists None|]. destruct (idx_returns payload i) as [b ->]; [lia|]. rewrite bind_Ret.
  destruct (qpack_string_returns payload i 7 Hok) as (r & -> & Hr); [lia..|]. rewrite bind_Ret. destruct r as [[s n]|]; [|by exists None].
  destruct (qpack_text_returns (negb (Z.land b 0x80 =? 0)) s) as [t ->]. rewrite bind_Ret. eexists. split; [done|]. intros ? ? [= <- <-]. by apply (Hr s).
Qed.

Lemma header_loop_returns payload : block_ok payload -> forall fuel i, 0 <= i -> len payload - i < Z.of_nat fuel -> (0 < fuel)%nat -> returns (header_loop fuel payload i).
Proof.
  intros Hok. induction fuel as [|fuel IH]; intros i Hi Hf Hp; [lia|]. cbn [header_loop]. case_if; reflect_bools; [|apply returns_ret].
  destruct (idx_returns payload i) as [b ->]; [lia|]. rewrite bind_Ret.
  assert (Hnext : forall n, i < n -> returns (header_loop fuel payload n) \/ n > len payload) by (intros n Hn; destruct (Z.le_gt_cases n (len payload)); [left; apply IH; lia|right; lia]).
  destruct (block_rest payload i Hok ltac:(lia)) as (rest & E & Hb & Hs & Hl). rewrite E, bind_Ret.
  case_if; [|case_if; [|case_if]].
  - destruct (qpack_read_int rest 6) as [[v c]|] eqn:Er; [|apply returns_ret]. apply qpack_int_bound in Er as [_ Hc]; [|done || lia..].
    destruct (Hnext (i + c)) as [[hs ->]|?]; [lia| |lia]. rewrite bind_Ret. destruct (qpack_static_entry v) as [[n w]|]; apply returns_ret.
  - rewrite bind_Ret. destruct (qpack_read_int rest 4) as [[v c]|] eqn:Er; [|apply returns_ret]. apply qpack_int_bound in Er as [_ Hc]; [|done || lia..].
    destruct (qpack_value_returns payload (i + c) Hok) as (r & -> & Hr); [lia|]. rewrite bind_Ret. destruct r as [[s n]|]; [|apply returns_ret].
    destruct (Hnext n) as [[hs ->]|?]; [specialize (Hr s n eq_refl); lia| |specialize (Hr s n eq_refl); lia]. rewrite bind_Ret. apply returns_ret.
  - destruct (qpack_string_returns payload i 3 Hok) as (r & -> & Hr); [lia..|]. rewrite bind_Ret. destruct r as [[s n]|]; [|apply returns_ret]. specialize (Hr s n eq_refl).
    destruct (qpack_text_returns (negb (Z.land b 0x08 =? 0)) s) as [t ->]. rewrite bind_Ret.
    destruct (qpack_value_returns payload n Hok) as (r' & -> & Hr'); [lia|]. rewrite bind_Ret. destruct r' as [[s' n']|]; [|apply returns_ret]. specialize (Hr' s' n' eq_refl).
    destruct (Hnext n') as [[hs ->]|?]; [lia| |lia]. rewrite bind_Ret. apply returns_ret.
  - destruct (Hnext (i + 1)) as [H'|?]; [lia|done|lia].
Qed.

(** Whatever the server sends as its header block, the parser ends with a list of headers, or with an error when it has fewer than two
    bytes, as long as no nine bytes in a row have their high bit set; an integer that long wraps and can make it panic. *)
Theorem qpack_returns payload : block_ok payload ->
  exists r, parse_headers_from_qpack payload = Ret r /\ (r = Err UnexpectedEof <-> len payload < 2).
Proof.
  intros Hok. unfold parse_headers_from_qpack. case_if; reflect_bools; [by eexists|].
  destruct (header_loop_returns payload Hok (length payload) 2) as [hs ->]; [lia|unfold len; lia|unfold len in *; lia|]. rewrite bind_Ret. eexists. split; [done|]. split; [done|lia].
Qed.

#[export] Instance block_ok_dec payload : Decision (block_ok payload).
Proof. unfold block_ok. apply _. Defined.

Lemma qpack_returns_witness : let payload := [0; 0; 0x20; 0x7f; 0xff; 0xff; 0xff; 0xff; 0xff; 0xff; 0xff; 0x01] in
  block_ok payload /\ exists r, parse_headers_from_qpack payload = Ret r /\ (r = Err UnexpectedEof <-> len payload < 2).
Proof.
  intros payload. assert (H : block_ok payload) by (apply (bool_decide_unpack _); vm_compute; done). split; [exact H|exact (qpack_returns payload H)].
Defined.

(** Eleven bytes of a length that wraps the end of the value below its start. *)
Example qpack_overlong_panics :
  parse_headers_from_qpack ([0; 0; 0x20; 0x7f; 0x80] ++ repeat 0xff 8 ++ [0x01]) = Panic.
Proof. vm_compute. reflexivity. Qed.

(** The value of 127 bytes: its length fills the prefix, and no byte of zero follows. *)
Example put_literal_header_127 :
  parse_headers_from_qpack ([0; 0] ++ put_literal_header (lit "a") (repeat 97 126)) = Ret (Ok [(lit "a", repeat 97 126)]) /\
  parse_headers_from_qpack ([0; 0] ++ put_literal_header (lit "a") (repeat 97 127)) = Ret (Ok []).
Proof. split; vm_compute; reflexivity. Qed.

(** What the code writes is such a literal. *)
Lemma put_literal_field name value : len name < 2 ^ 63 -> len value < 2 ^ 63 -> len value <> 127 ->
  put_literal_header name value = encode_field (Literal false false name false value).
Proof.
  intros Hn Hv H127. pose proof (len_nonneg name). pose proof (len_nonneg value). unfold put_literal_header, encode_field, encode_string, coded, prefix_int.
  change (2 ^ 3 - 1) with 7. change (2 ^ 7 - 1) with 127. rewrite !Z.add_0_r. rewrite <-app_assoc. f_equal; [|f_equal; f_equal].
  - case_if; reflect_bools; [|rewrite put_more_tail by lia; done]. rewrite as_u8_small, (lor_add 0x20 _ 3) by (done || lia). done.
  - destruct (Z.ltb_spec (len value) 128).
    + rewrite (proj2 (Z.ltb_lt _ _)), as_u8_small by lia. done.
    + rewrite (proj2 (Z.ltb_ge _ _)), put_more_tail by lia. done.
Qed.
