(* ===== verification/Hy2.v ===== *)
(** * Hy2: Hysteria2, [src/outbound/hy2.rs] and [src/inbound/hysteria2_server.rs].

    The client authenticates over HTTP/3, opens a stream per TCP connection and
    cuts UDP packets into datagrams.  A datagram that arrives is [Some], [None] is
    the end of the wait or of the connection; what a session reads is a list of
    these events.  The server of the repository has a handshake of its own. *)

From S2P Require Import Prelude RustStr Inbound Wire Hy2Codec.
#[local] Open Scope reflex_scope.

Definition URL_HOST : str := lit "hysteria".
Definition URL_PATH : str := lit "/auth".
Definition STATUS_AUTH_OK : Z := 233.
Definition FRAME_TYPE_TCP_REQUEST : Z := 0x401.
Definition MAX_MESSAGE_LENGTH : Z := 2048.
Definition MAX_PADDING_LENGTH : Z := 4096.
Definition RESP_HEADER_UDP : str := lit "hysteria-udp".
Definition RESP_HEADER_CC_RX : str := lit "hysteria-cc-rx".
Definition MAX_DATAGRAM_PAYLOAD : Z := 1100.

(** ** Authentication *)

Record AuthInfo : Type := mkAuthInfo { udp_enabled : bool; tx_bps : Z }.

Definition mbps_to_bps (mbps : Z) : Z := as_u64 (mbps * 1000000) / 8.

Definition CHARS : bytes := lit "abcdefghijklmnopqrstuvwxyzABCDEFGHIJKLMNOPQRSTUVWXYZ0123456789".

(** [seed] is the clock's nanoseconds. *)
Definition padding_char (seed i : Z) : Z :=
  byte_at (Z.to_nat (as_u64 (seed + as_u64 (i * 6364136223846793005)) mod len CHARS)) CHARS.

Definition random_padding (seed : Z) (min max : Z) : str :=
  let n := min + seed mod (max - min) in
  map (fun i => padding_char seed (Z.of_nat i)) (seq 0 (Z.to_nat n)).

(** The streams the client opens and holds: control with empty settings, QPACK encoder and decoder. *)
Definition auth_uni_streams : list bytes := [0x00 :: write_h3_frame 0x04 []; [0x02]; [0x03]].

Definition auth_headers (password rx_str padding : str) : list (str * str) :=
  [(lit ":method", lit "POST");
   (lit ":scheme", lit "https");
   (lit ":authority", URL_HOST);
   (lit ":path", URL_PATH);
   (lit "hysteria-auth", password);
   (lit "hysteria-cc-rx", rx_str);
   (lit "hysteria-padding", padding)].

Definition qpack_block (hs : list (str * str)) : bytes := [0x00; 0x00] ++ concat (map (fun h => put_literal_header h.1 h.2) hs).

Definition auth_request (password : str) (down_mbps seed : Z) : bytes :=
  let rx_str := show_uint (mbps_to_bps down_mbps) in
  let padding := random_padding seed 256 2048 in
  write_h3_frame 0x01 (qpack_block (auth_headers password rx_str padding)).

(** The HEADERS frame of the answer; DATA frames before it are skipped. *)
Fixpoint await_headers (fuel : nat) : wire (run (result (list (str * str)) WireError)) :=
  match fuel with
  | O => WRet Stuck
  | S fuel =>
      let* f := read_h3_frame in
      if f.1 =? 0x01 then WRet (parse_headers_from_qpack f.2)
      else if f.1 =? 0x00 then await_headers fuel
      else WFail BadFraming
  end.

Definition find_header (p : str -> bool) (headers : list (str * str)) : option str :=
  match List.find (fun h => p h.1) headers with Some (_, v) => Some v | None => None end.

Definition u64_max : Z := 2 ^ 64 - 1.

Definition negotiate (headers : list (str * str)) (tx_bps_local : Z) : result AuthInfo WireError :=
  let status_str := default [] (find_header (fun k => bool_decide (k = lit ":status")) headers) in
  match parse_uint u16_max status_str with
  | None => Err MalformedRequest
  | Some status_code =>
      if negb (status_code =? STATUS_AUTH_OK) then Err Unauthorized
      else
        let udp_enabled :=
          match find_header (fun k => eq_ignore_ascii_case k RESP_HEADER_UDP) headers with
          | Some v => eq_ignore_ascii_case v (lit "true")
          | None => false
          end in
        let server_rx :=
          match find_header (fun k => eq_ignore_ascii_case k RESP_HEADER_CC_RX) headers with
          | Some v => if eq_ignore_ascii_case v (lit "auto") then u64_max else default 0 (parse_uint u64_max v)
          | None => 0
          end in
        let tx_bps :=
          if tx_bps_local =? 0 then 0
          else if server_rx =? 0 then tx_bps_local
          else Z.min tx_bps_local server_rx in
        Ok (mkAuthInfo udp_enabled tx_bps)
  end.

Definition authenticate (fuel : nat) (password : str) (down_mbps up_mbps seed : Z) : wire (run (result AuthInfo WireError)) :=
  let* _ := write_all (auth_request password down_mbps seed) in
  let* answer := await_headers fuel in
  WRet (headers ←!! answer; Ret (negotiate headers (mbps_to_bps up_mbps))).

(** ** The connection kept for the next requests *)

Definition get_or_create_connection {C} (closed : C -> bool) (new_connection : result (C * AuthInfo) WireError) (cached_conn : option (C * AuthInfo)) :
    result (C * AuthInfo) WireError * option (C * AuthInfo) :=
  let connect := match new_connection with Ok c => (Ok c, Some c) | Err e => (Err e, None) end in
  match cached_conn with
  | Some (conn, auth) => if closed conn then connect else (Ok (conn, auth), cached_conn)
  | None => connect
  end.

(** ** TCP *)

Definition tcp_request (target : Target) (padding : str) : bytes :=
  let addr := show_target target in
  write_varint FRAME_TYPE_TCP_REQUEST ++ write_varint (len addr) ++ addr ++ write_varint (len padding) ++ padding.

(** The answer to it. *)
Definition read_tcp_response : wire unit :=
  let* status := read_u8 in
  let* msg_len := read_varint_async in
  let* _ := wensure (msg_len <=? MAX_MESSAGE_LENGTH) HeaderTooLarge in
  let* _ :=
    (if 0 <? msg_len then
       let* _ := read_exact (Z.to_nat msg_len) in wensure (status =? 0) Refused
     else wensure (status =? 0) Refused) in
  let* padding_len := read_varint_async in
  let* _ := wensure (padding_len <=? MAX_PADDING_LENGTH) HeaderTooLarge in
  if 0 <? padding_len then let* _ := read_exact (Z.to_nat padding_len) in WRet tt else WRet tt.

Definition open_tcp_stream (target : Target) (seed : Z) : wire unit :=
  let* _ := write_all (tcp_request target (random_padding seed 64 512)) in
  read_tcp_response.

(** ** UDP *)

Definition build_udp_header (session_id packet_id frag_id frag_count : Z) (addr : str) : bytes :=
  to_be_bytes 4 session_id ++ to_be_bytes 2 packet_id ++ [frag_id] ++ [frag_count] ++ write_varint (len addr) ++ addr.

(** [data.chunks(n)] *)
Fixpoint chunks (fuel n : nat) (data : bytes) : list bytes :=
  match fuel, data with
  | S fuel, _ :: _ => take n data :: chunks fuel n (drop n data)
  | _, _ => []
  end.

Definition header_overhead (addr : str) : Z := 8 + len (write_varint (len addr)) + len addr.
Definition chunk_size (addr : str) : Z := Z.max (Z.max 0 (MAX_DATAGRAM_PAYLOAD - header_overhead addr)) 1.
Definition udp_chunks (addr : str) (data : bytes) : list bytes := chunks (length data) (Z.to_nat (chunk_size addr)) data.

Definition udp_fragments (session_id packet_id : Z) (addr : str) (data : bytes) : list bytes :=
  let cs := udp_chunks addr data in
  let frag_count := as_u8 (len cs) in
  imap (fun frag_id chunk => build_udp_header session_id packet_id (as_u8 (Z.of_nat frag_id)) frag_count addr ++ chunk) cs.

(** The datagrams up to the first that is not taken; [packet_id] is the clock's. *)
Fixpoint send_each (send_datagram : bytes -> result () WireError) (ds : list bytes) : list bytes * result () WireError :=
  match ds with
  | [] => ([], Ok tt)
  | d :: ds =>
      match send_datagram d with
      | Ok _ => let '(sent, r) := send_each send_datagram ds in (d :: sent, r)
      | Err e => ([], Err e)
      end
  end.

Definition send_udp_fragmented (send_datagram : bytes -> result () WireError) (session_id packet_id : Z) (addr : str) (data : bytes) :
    list bytes * result () WireError :=
  send_each send_datagram (udp_fragments session_id packet_id addr data).

Record frag : Type := mkFrag { f_payload : bytes; f_id : Z; f_count : Z; f_session : Z; f_packet : Z }.

Definition parse_udp_frag_header (buf : bytes) : run (result frag WireError) :=
  if len buf <? 9 then Ret (Err UnexpectedEof)
  else
    s ← slice buf 0 4;
    p ← slice buf 4 6;
    frag_id ← idx buf 6;
    frag_count ← idx buf 7;
    tail ← slice buf 8 (len buf);
    v ←!! decode_varint_slice tail;
    let cur := 8 + v.2 in
    if len buf <? cur + v.1 then Ret (Err UnexpectedEof)
    else
      payload ← slice buf (cur + v.1) (len buf);
      Ret (Ok (mkFrag payload frag_id frag_count (from_be_bytes s) (from_be_bytes p))).

(** The parts in their order. *)
Definition assemble (frags : list (option bytes)) : bytes := concat (omap id frags).

(** The wait for the other parts, two seconds at most. *)
Fixpoint collect (events : list (option bytes)) (h : frag) (frags : list (option bytes)) (received : Z) : run (result (option bytes) WireError * list (option bytes)) :=
  if received <? f_count h then
    match events with
    | Some buf :: events =>
        r ← parse_udp_frag_header buf;
        match r with
        | Ok f =>
            if (f_session f =? f_session h) && (f_packet f =? f_packet h) && (f_count f =? f_count h) then
              match frags !! Z.to_nat (f_id f) with
              | Some None => collect events h (<[Z.to_nat (f_id f) := Some (f_payload f)]> frags) (received + 1)
              | _ => collect events h frags received
              end
            else collect events h frags received
        | Err _ => collect events h frags received
        end
    | None :: events => Ret (Ok None, events)
    | [] => Ret (Ok None, [])
    end
  else Ret (Ok (Some (assemble frags)), events).

(** A packet from its first part to arrive, with the events not read. *)
Definition recv_udp_reassemble (first : bytes) (events : list (option bytes)) : run (result (option bytes) WireError * list (option bytes)) :=
  r ← parse_udp_frag_header first;
  match r with
  | Err e => Ret (Err e, events)
  | Ok h =>
      if f_count h =? 1 then Ret (Ok (Some (f_payload h)), events)
      else
        frags ← store (repeat None (Z.to_nat (f_count h))) (f_id h) (Some (f_payload h));
        collect events h frags 1
  end.

(** The replies a session hands on, while its inbound takes them ([open] counts them). *)
Fixpoint reply_loop (fuel : nat) (open : nat -> bool) (sent : nat) (events : list (option bytes)) : run (list bytes) :=
  match fuel with
  | O => Stuck
  | S fuel =>
      match events with
      | Some data :: events =>
          x ← recv_udp_reassemble data events;
          match x.1 with
          | Ok (Some payload) => if open sent then ps ← reply_loop fuel open (S sent) x.2; Ret (payload :: ps) else Ret []
          | Ok None => reply_loop fuel open sent x.2
          | Err _ => Ret []
          end
      | None :: _ | [] => Ret []
      end
  end.

Definition fetch_add32 (c : Z) : Z := as_u32 (c + 1).

(** The session of the packet and that of the later ones, where the inbound sends any;
    the datagrams sent; the counter afterwards. *)
Definition handle_udp (auth : AuthInfo) (udp_session_id : Z) (upstream : bool) (send_datagram : bytes -> result () WireError) (packet_id : Z) (target : Target) (data : bytes) :
    result (Z * option Z) WireError * list bytes * Z :=
  if negb (udp_enabled auth) then (Err UnsupportedTarget, [], udp_session_id)
  else
    let session_id := udp_session_id in
    let udp_session_id := fetch_add32 udp_session_id in
    let '(sent, r) := send_udp_fragmented send_datagram session_id packet_id (show_target target) data in
    match r with
    | Err e => (Err e, sent, udp_session_id)
    | Ok _ =>
        if upstream then (Ok (session_id, Some udp_session_id), sent, fetch_add32 udp_session_id)
        else (Ok (session_id, None), sent, udp_session_id)
    end.

(** The later packets of the inbound, until one cannot be sent. *)
Fixpoint upstream_loop (send_datagram : bytes -> result () WireError) (session_id : Z) (addr : str) (packets : list (Z * bytes)) : list bytes :=
  match packets with
  | [] => []
  | (packet_id, data) :: packets =>
      let '(sent, r) := send_udp_fragmented send_datagram session_id packet_id addr data in
      match r with
      | Ok _ => sent ++ upstream_loop send_datagram session_id addr packets
      | Err _ => sent
      end
  end.

(** ** The server *)

Definition hy2_atyps : atyps := mkAtyps 0x01 0x04 0x03.

Definition read_hy2_addr : wire Target := let* atyp := read_u8 in read_addr hy2_atyps atyp.

(** The connection that is dispatched, or [None] for a request that is not for TCP. *)
Definition handle_hy2_stream (passwords : list str) : wire (option Target) :=
  let* token_len := read_u8 in
  let* token := read_exact (Z.to_nat token_len) in
  let* _ := wensure (existsb (fun p => bool_decide (p = from_utf8_lossy token)) passwords) Unauthorized in
  let* proxy_type := read_u8 in
  let* target := read_hy2_addr in
  WRet (if proxy_type =? 0x00 then Some target else None).

(** * Theorems *)

(** ** Cutting and putting together *)

Lemma udp_chunks_join n : (0 < n)%nat -> forall fuel data, (length data <= fuel)%nat -> concat (chunks fuel n data) = data.
Proof.
  intros Hn. induction fuel as [|fuel IH]; intros [|b data] Hf; cbn [length] in Hf; try done; [lia|].
  cbn [chunks concat]. rewrite IH by (rewrite length_drop; cbn [length]; lia). apply take_drop.
Qed.

Lemma length_chunks n k : (0 < n)%nat -> forall fuel data, (length data <= k * n)%nat -> (length (chunks fuel n data) <= k)%nat.
Proof.
  intros Hn fuel. revert k. induction fuel as [|fuel IH]; intros k [|b data] Hl; cbn [chunks length]; try lia.
  destruct k as [|k]; [cbn in Hl; lia|]. apply le_n_S, IH. rewrite length_drop. cbn [length] in *. lia.
Qed.

Lemma chunk_size_pos addr : (0 < Z.to_nat (chunk_size addr))%nat.
Proof. unfold chunk_size. lia. Qed.

Lemma udp_chunks_concat addr data : concat (udp_chunks addr data) = data.
Proof. apply udp_chunks_join; [apply chunk_size_pos|lia]. Qed.

(** A segment of the known bytes [b]. *)
Ltac seg b := solve [done | unfold b; rewrite ?app_nil_r; app_eq | rewrite ?len_app, ?len_cons, ?len_nil; lia].

(** What the peer reads of a datagram. *)
Lemma parse_built sid pid fid count addr payload : in_width 32 sid -> in_width 16 pid -> len addr < 2 ^ 62 ->
  parse_udp_frag_header (build_udp_header sid pid fid count addr ++ payload) = Ret (Ok (mkFrag payload fid count sid pid)).
Proof.
  unfold in_width. intros Hs Hp Ha. unfold parse_udp_frag_header, build_udp_header.
  pose proof (len_nonneg addr) as H0. pose proof (len_nonneg payload) as H1.
  pose proof (len_to_be_bytes 4 sid) as HS. pose proof (from_to_be_bytes_id 4 sid Hs) as ES.
  pose proof (len_to_be_bytes 2 pid) as HP. pose proof (from_to_be_bytes_id 2 pid Hp) as EP.
  pose proof (len_write_varint (len addr) ltac:(lia)) as HV. pose proof (varint_slice (len addr) (addr ++ payload) ltac:(lia)) as EV.
  revert HS ES HP EP HV EV. generalize (to_be_bytes 4 sid) as S4, (to_be_bytes 2 pid) as P2, (write_varint (len addr)) as V. intros S4 P2 V HS ES HP EP HV EV.
  set (buf := (S4 ++ P2 ++ [fid] ++ [count] ++ V ++ addr) ++ payload).
  assert (Hl : len buf = 8 + len V + len addr + len payload) by (unfold buf; len_solve).
  rewrite (proj2 (Z.ltb_ge _ _)) by lia.
  rewrite (slice_seg buf [] S4 (P2 ++ [fid; count] ++ V ++ addr ++ payload) 0 4), bind_Ret by (seg buf).
  rewrite (slice_seg buf S4 P2 ([fid; count] ++ V ++ addr ++ payload) 4 6), bind_Ret by (seg buf).
  rewrite (idx_seg buf (S4 ++ P2) fid ([count] ++ V ++ addr ++ payload) 6), bind_Ret by (seg buf).
  rewrite (idx_seg buf (S4 ++ P2 ++ [fid]) count (V ++ addr ++ payload) 7), bind_Ret by (seg buf).
  rewrite (slice_seg buf (S4 ++ P2 ++ [fid; count]) (V ++ addr ++ payload) [] 8 (len buf)), bind_Ret by (seg buf).
  rewrite EV. cbn [try_bind mbind run_bind]. cbn [fst snd]. rewrite (proj2 (Z.ltb_ge _ _)) by lia.
  rewrite (slice_seg buf (S4 ++ P2 ++ [fid; count] ++ V ++ addr) payload [] (8 + len V + len addr) (len buf)), bind_Ret by (seg buf).
  by rewrite ES, EP.
Qed.

(** Reading any datagram returns. *)
Lemma parse_returns buf : bytes_ok buf -> exists r, parse_udp_frag_header buf = Ret r.
Proof.
  intros Hb. unfold parse_udp_frag_header. case_if; reflect_bools; [by eexists|].
  destruct (slice_returns buf 0 4) as [s ->]; [lia..|]. rewrite bind_Ret. destruct (slice_returns buf 4 6) as [p ->]; [lia..|]. rewrite bind_Ret.
  destruct (idx_returns buf 6) as [i ->]; [lia|]. rewrite bind_Ret. destruct (idx_returns buf 7) as [c ->]; [lia|]. rewrite bind_Ret.
  destruct (slice_returns buf 8 (len buf)) as [t Et]; [lia..|]. rewrite Et, bind_Ret. apply slice_Ret_inv in Et as (_ & _ & Et).
  destruct (decode_varint_returns t) as (r & -> & Hr); [subst t; by apply Forall_take, Forall_drop|]. destruct r as [[v n]|e]; cbn [try_bind mbind run_bind fst snd]; [|by eexists].
  destruct (Hr v n eq_refl). case_if; reflect_bools; [by eexists|]. destruct (slice_returns buf (8 + n + v) (len buf)) as [q ->]; [lia..|]. by eexists.
Qed.

(** ** Reassembly *)

(** A slot for every part, with the parts there so far. *)
Definition filled (frags : list (option bytes)) : nat := length (omap id frags).

Lemma filled_insert frags j p : frags !! j = Some None -> filled (<[j := Some p]> frags) = S (filled frags).
Proof.
  unfold filled. revert j. induction frags as [|[q|] frags IH]; intros [|j] H; try discriminate H; cbn in *; try done; by rewrite IH.
Qed.

Lemma filled_bound frags : (filled frags <= length frags)%nat.
Proof. unfold filled. induction frags as [|[q|] frags IH]; cbn in *; lia. Qed.

(** A slot is empty as long as not all are filled. *)
Lemma missing_slot frags : (filled frags < length frags)%nat -> exists j, frags !! j = Some None.
Proof.
  unfold filled. induction frags as [|[q|] frags IH]; cbn; intros H; [lia| |by exists 0%nat].
  destruct IH as [j Hj]; [lia|]. by exists (S j).
Qed.

Lemma all_filled frags cs : (forall j p, frags !! j = Some (Some p) -> cs !! j = Some p) -> length frags = length cs -> filled frags = length frags -> omap id frags = cs.
Proof.
  revert cs. induction frags as [|o frags IH]; intros [|c cs] Hs Hl Hf; try done. destruct o as [q|].
  - cbn in *. assert (q = c) as -> by (specialize (Hs 0%nat q eq_refl); by injection Hs). f_equal. apply IH; [|lia|unfold filled in *; cbn in Hf; lia].
    intros j p Hj. exact (Hs (S j) p Hj).
  - pose proof (filled_bound frags). unfold filled in *. cbn in Hf. lia.
Qed.

(** A packet in its parts, and the datagrams that arrive. *)
Section Packet.
Context (sid pid : Z) (addr : str) (data : bytes).
Let cs := udp_chunks addr data.
Context (Hsid : in_width 32 sid) (Hpid : in_width 16 pid) (Haddr : len addr < 2 ^ 62) (Hcs : (length cs <= 255)%nat).

(** A datagram of some other packet, or none that can be read. *)
Definition foreign (d : bytes) : Prop :=
  exists r, parse_udp_frag_header d = Ret r /\ forall f, r = Ok f -> ~ (f_session f = sid /\ f_packet f = pid /\ f_count f = len cs).

Definition part (j : nat) : frag := mkFrag (default [] (cs !! j)) (Z.of_nat j) (len cs) sid pid.

Lemma fragment_lookup j d : udp_fragments sid pid addr data !! j = Some d -> (j < length cs)%nat /\ parse_udp_frag_header d = Ret (Ok (part j)).
Proof.
  unfold udp_fragments. fold cs. rewrite list_lookup_imap. destruct (cs !! j) as [c|] eqn:Ec; [|done]. intros Hd. apply (inj Some) in Hd. subst d.
  pose proof (lookup_lt_Some _ _ _ Ec) as Hj. split; [done|]. rewrite parse_built by done. unfold part. rewrite Ec. cbn [default from_option].
  by rewrite !as_u8_small by (unfold len; lia).
Qed.

Lemma fragments_length : length (udp_fragments sid pid addr data) = length cs.
Proof. unfold udp_fragments. by rewrite length_imap. Qed.

Lemma part_inj i j : f_id (part i) = f_id (part j) -> i = j.
Proof. cbn. lia. Qed.

(** The slots hold parts of the packet only. *)
Definition slots_ok (frags : list (option bytes)) : Prop :=
  length frags = length cs /\ forall j p, frags !! j = Some (Some p) -> cs !! j = Some p.

Lemma collect_full k evs frags : slots_ok frags -> filled frags = length frags ->
  collect evs (part k) frags (Z.of_nat (filled frags)) = Ret (Ok (Some data), evs).
Proof.
  intros [Hl Hs] Hf. assert (E : forall e, collect e (part k) frags (Z.of_nat (filled frags)) = Ret (Ok (Some (assemble frags)), e)).
  { intros e. destruct e; cbn [collect f_count part]; by rewrite (proj2 (Z.ltb_ge _ _)) by (unfold len; lia). }
  rewrite E. unfold assemble. rewrite (all_filled frags cs Hs Hl Hf). unfold cs. by rewrite udp_chunks_concat.
Qed.

(** A datagram while a part misses: a new part goes to its slot, anything else is dropped. *)
Lemma collect_part k j d evs frags : slots_ok frags -> (filled frags < length frags)%nat -> udp_fragments sid pid addr data !! j = Some d ->
  exists frags', collect (Some d :: evs) (part k) frags (Z.of_nat (filled frags)) = collect evs (part k) frags' (Z.of_nat (filled frags')) /\
    slots_ok frags' /\ forall i, frags' !! i = Some None -> i <> j /\ frags !! i = Some None.
Proof.
  intros [Hl Hs] Hf Hd. destruct (fragment_lookup j d Hd) as [Hj Hp]. cbn [collect]. change (f_count (part k)) with (len cs). rewrite (proj2 (Z.ltb_lt _ _)) by (unfold len; lia).
  rewrite Hp, bind_Ret. cbn [part f_session f_packet f_count f_id f_payload]. rewrite !Z.eqb_refl, Nat2Z.id. cbn [andb].
  destruct (lookup_lt_is_Some_2 frags j) as [[q|] Hq]; [lia|..]; rewrite Hq.
  - exists frags. split_and!; [done|done..|]. intros i Hi. split; [congruence|done].
  - exists (<[j := Some (default [] (cs !! j))]> frags). split; [|split; [split|]].
    + f_equal. rewrite (filled_insert frags j) by done. lia.
    + by rewrite length_insert.
    + intros i p Hi. apply list_lookup_insert_Some in Hi as [(<- & E & _)|[_ Hi]]; [|by apply Hs].
      injection E as E. destruct (lookup_lt_is_Some_2 cs j Hj) as [c Hc]. rewrite Hc in E |- *. cbn in E. by subst.
    + intros i Hi. apply list_lookup_insert_Some in Hi as [(_ & E & _)|[Hne Hi]]; [discriminate E|]. by split.
Qed.

Lemma collect_foreign k d evs frags : foreign d -> (filled frags < length frags)%nat -> length frags = length cs ->
  collect (Some d :: evs) (part k) frags (Z.of_nat (filled frags)) = collect evs (part k) frags (Z.of_nat (filled frags)).
Proof.
  intros (r & Hr & Hno) Hf Hl. cbn [collect]. change (f_count (part k)) with (len cs). rewrite (proj2 (Z.ltb_lt _ _)) by (unfold len; lia).
  rewrite Hr, bind_Ret. destruct r as [f|e]; [|done]. specialize (Hno f eq_refl). cbn [part f_session f_packet f_count].
  destruct ((f_session f =? sid) && (f_packet f =? pid) && (f_count f =? len cs)) eqn:E; [|done]. exfalso. apply Hno. reflect_bools. lia.
Qed.

(** All parts that miss are still to come. *)
Lemma collect_all k evs ds : forall frags, slots_ok frags ->
  Forall (fun d => d ∈ udp_fragments sid pid addr data \/ foreign d) ds ->
  (forall j d, frags !! j = Some None -> udp_fragments sid pid addr data !! j = Some d -> d ∈ ds) ->
  exists rest, collect (map Some ds ++ evs) (part k) frags (Z.of_nat (filled frags)) = Ret (Ok (Some data), map Some rest ++ evs).
Proof.
  assert (Hfull : forall ds frags, slots_ok frags -> (length frags <= filled frags)%nat -> collect (map Some ds ++ evs) (part k) frags (Z.of_nat (filled frags)) = Ret (Ok (Some data), map Some ds ++ evs)).
  { intros ds' frags Hok Hge. apply collect_full; [done|]. pose proof (filled_bound frags). lia. }
  induction ds as [|d ds IH]; intros frags Hok Hds Hcome; (destruct (Nat.lt_ge_cases (filled frags) (length frags)) as [Hlt|Hge]; [|eexists; by apply Hfull]).
  - destruct (missing_slot frags Hlt) as [j Hj]. pose proof (lookup_lt_Some _ _ _ Hj) as Hjl. destruct Hok as [Hl _].
    destruct (lookup_lt_is_Some_2 (udp_fragments sid pid addr data) j) as [d Hd]; [rewrite fragments_length; lia|].
    specialize (Hcome j d Hj Hd). by apply not_elem_of_nil in Hcome.
  - apply Forall_cons in Hds as [[Hd|Hd] Hds]; cbn [map app].
    + apply list_elem_of_lookup in Hd as [j Hd]. destruct (collect_part k j d (map Some ds ++ evs) frags Hok Hlt Hd) as (frags' & -> & Hok' & Hm).
      apply IH; [done..|]. intros i d' Hi Hd'. destruct (Hm i Hi) as [Hne Hi']. specialize (Hcome i d' Hi' Hd'). apply elem_of_cons in Hcome as [->|]; [|done].
      destruct (fragment_lookup i d Hd') as [_ P1]. destruct (fragment_lookup j d Hd) as [_ P2]. exfalso. apply Hne, part_inj. congruence.
    + rewrite collect_foreign by (done || apply Hok). apply IH; [done..|]. intros i d' Hi Hd'. specialize (Hcome i d' Hi Hd'). apply elem_of_cons in Hcome as [->|]; [|done].
      destruct (fragment_lookup i d Hd') as [_ P1]. destruct Hd as (r & Hr & Hno). rewrite P1 in Hr. injection Hr as <-. exfalso. by apply (Hno _ eq_refl).
Qed.

Lemma filled_repeat n : filled (repeat None n) = 0%nat.
Proof. unfold filled. induction n as [|n IH]; [done|exact IH]. Qed.

Lemma reassemble_all evs first ds : first ∈ udp_fragments sid pid addr data ->
  Forall (fun d => d ∈ udp_fragments sid pid addr data \/ foreign d) ds ->
  (forall d, d ∈ udp_fragments sid pid addr data -> d = first \/ d ∈ ds) ->
  exists rest, recv_udp_reassemble first (map Some ds ++ evs) = Ret (Ok (Some data), map Some rest ++ evs).
Proof.
  intros Hfirst Hds Hcome. apply list_elem_of_lookup in Hfirst as [k Hk]. destruct (fragment_lookup k first Hk) as [Hlk Hp].
  unfold recv_udp_reassemble. rewrite Hp, bind_Ret. change (f_count (part k)) with (len cs). case_if; reflect_bools.
  - exists ds. assert (k = 0%nat) as -> by (unfold len in *; lia). cbn [part f_payload]. pose proof (udp_chunks_concat addr data) as Hcat. fold cs in Hcat.
    assert (Hone : length cs = 1%nat) by (unfold len in *; lia). destruct cs as [|c [|c' cs']]; try discriminate Hone. cbn [concat lookup list_lookup default from_option] in Hcat |- *. unfold id. rewrite app_nil_r in Hcat. by rewrite Hcat.
  - set (empty := repeat None _). assert (He : length empty = length cs) by (unfold empty; rewrite repeat_length; unfold len; lia).
    rewrite store_inrange by (cbn [part f_id]; unfold len; rewrite He; lia). rewrite bind_Ret. cbn [part f_id f_payload]. rewrite Nat2Z.id.
    assert (Hn : empty !! k = Some None) by (apply lookup_repeat; unfold len; lia).
    set (frags := <[k := _]> empty).
    assert (Hf : filled frags = 1%nat) by (unfold frags, empty; rewrite filled_insert by done; by rewrite filled_repeat).
    destruct (collect_all k evs ds frags) as [rest Hr]; [split| | |].
    + unfold frags. by rewrite length_insert.
    + intros j p Hj. apply list_lookup_insert_Some in Hj as [(<- & E & _)|[_ Hj]].
      * destruct (lookup_lt_is_Some_2 cs k Hlk) as [c Hc]. rewrite Hc in E |- *. by injection E as ->.
      * exfalso. pose proof (lookup_lt_Some _ _ _ Hj) as Hjl. unfold empty in Hj, Hjl. rewrite repeat_length in Hjl. by rewrite lookup_repeat in Hj by lia.
    + done.
    + intros j d Hj Hd. apply list_lookup_insert_Some in Hj as [(_ & E & _)|[Hne _]]; [discriminate E|].
      destruct (Hcome d) as [->|]; [by eapply list_elem_of_lookup_2| |done].
      destruct (fragment_lookup j first Hd) as [_ P1]. exfalso. apply Hne, part_inj. rewrite Hp in P1. congruence.
    + exists rest. rewrite Hf in Hr. exact Hr.
Qed.
End Packet.

Lemma len_udp_chunks addr data : len data <= 255 * chunk_size addr -> (length (udp_chunks addr data) <= 255)%nat.
Proof. intros Hl. apply length_chunks; [apply chunk_size_pos|]. unfold len in *. pose proof (chunk_size_pos addr). lia. Qed.

(** C34. A UDP packet of at most 255 parts is put together again whatever the order its datagrams arrive in, with any of them first,
    repeated, or between datagrams of other packets: the session gets the packet's bytes. *)
Theorem hy2_udp_reassembles sid pid addr data evs first ds : in_width 32 sid -> in_width 16 pid -> len addr < 2 ^ 62 -> len data <= 255 * chunk_size addr ->
  first ∈ udp_fragments sid pid addr data ->
  Forall (fun d => d ∈ udp_fragments sid pid addr data \/ foreign sid pid addr data d) ds ->
  (forall d, d ∈ udp_fragments sid pid addr data -> d = first \/ d ∈ ds) ->
  exists rest, recv_udp_reassemble first (map Some ds ++ evs) = Ret (Ok (Some data), map Some rest ++ evs).
Proof. intros Hs Hp Ha Hl. apply reassemble_all; [done..|by apply len_udp_chunks]. Qed.

(** Three parts, the last one first, the second one twice, and a datagram of another session among them. *)
Lemma hy2_udp_reassembles_witness : let data := map (fun i => Z.of_nat i mod 256) (seq 0 2500) in
  let addr := lit "example.com:443" in
  let other := build_udp_header 8 9 0 1 addr ++ lit "x" in
  exists f0 f1 f2, udp_fragments 7 9 addr data = [f0; f1; f2] /\
    exists rest, recv_udp_reassemble f2 (map Some [f1; other; f1; f0] ++ [None]) = Ret (Ok (Some data), map Some rest ++ [None]).
Proof.
  intros data addr other. destruct (udp_fragments 7 9 addr data) as [|f0 [|f1 [|f2 [|]]]] eqn:E; try (exfalso; apply (f_equal length) in E; vm_compute in E; discriminate E).
  exists f0, f1, f2. split; [done|]. apply (hy2_udp_reassembles 7 9 addr); [done|done|done|vm_compute; discriminate|..]; rewrite ?E.
  - rewrite !elem_of_cons. tauto.
  - assert (Ho : foreign 7 9 addr data other).
    { eexists. split; [by apply (parse_built 8 9 0 1 addr (lit "x"))|]. intros f [= <-] [H _]. discriminate H. }
    repeat (apply Forall_cons; split; [first [by right | left; rewrite !elem_of_cons; tauto]|]). by apply Forall_nil.
  - intros d. rewrite !elem_of_cons. tauto.
Defined.

(** ** Authentication *)

Definition is_ascii (b : Z) : Prop := 0 <= b < 128.

Lemma ascii_utf8 s : Forall is_ascii s -> utf8_valid s = true.
Proof.
  unfold utf8_valid. induction 1 as [|b s Hb _ IH]; [done|]. cbn [utf8_run utf8_step]. unfold utf8_start, is_ascii in *.
  rewrite (proj2 (Z.leb_le _ _)), (proj2 (Z.leb_le _ _)) by lia. exact IH.
Qed.

Lemma show_uint_ascii n : 0 <= n -> Forall is_ascii (show_uint n).
Proof.
  intros Hn. assert (H : Forall graphic (show_uint n)) by (by apply digits_graphic, show_digits_digits).
  eapply Forall_impl; [exact H|]. unfold graphic, is_ascii. lia.
Qed.

Lemma chars_ascii : Forall is_ascii CHARS.
Proof. apply (bool_decide_unpack _). vm_compute. done. Qed.

Lemma random_padding_ascii seed min max : Forall is_ascii (random_padding seed min max).
Proof.
  unfold random_padding. apply Forall_map, Forall_forall. intros i _. unfold compose, padding_char, byte_at.
  set (k := as_u64 _ mod len CHARS). assert (Hk : 0 <= k < len CHARS) by (apply Z.mod_pos_bound; done).
  destruct (lookup_lt_is_Some_2 CHARS (Z.to_nat k)) as [c Hc]; [unfold len in Hk; lia|]. rewrite Hc. cbn. exact (Forall_lookup_1 _ _ _ _ chars_ascii Hc).
Qed.

(** The random padding has [min] characters at least and less than [max]. *)
Lemma len_random_padding seed min max : 0 <= min < max -> min <= len (random_padding seed min max) < max.
Proof.
  intros H. unfold random_padding, len. rewrite length_map, length_seq. pose proof (Z.mod_pos_bound seed (max - min) ltac:(lia)). lia.
Qed.

Lemma len_show_digits fuel n acc : (length (show_digits fuel n acc) <= fuel + length acc)%nat.
Proof.
  revert n acc. induction fuel as [|fuel IH]; intros n acc; [done|]. cbn [show_digits]. case_if; cbn [length]; [lia|].
  specialize (IH (n / 10) ((48 + n mod 10) :: acc)). cbn [length] in IH. lia.
Qed.

Lemma len_show_uint n : len (show_uint n) <= 20.
Proof. unfold len, show_uint. pose proof (len_show_digits 20 n []). cbn [length] in *. lia. Qed.

Lemma h3_frame_plays t p : 0 <= t < 2 ^ 62 -> len p <= 1024 * 1024 -> plays read_h3_frame (write_h3_frame t p) (t, p) [].
Proof.
  intros Ht Hp. unfold read_h3_frame, write_h3_frame. pose proof (len_nonneg p).
  eapply plays_read; [by apply varint_plays|]. eapply plays_read; [apply varint_plays; lia|].
  eapply plays_pure; [apply plays_ensure, Z.leb_le; lia|]. rewrite <-(app_nil_r p) at 2. eapply plays_read; [apply plays_exact; unfold len; lia|]. apply plays_ret.
Qed.

(** Any number of DATA frames before the headers. *)
Lemma await_headers_plays datas block : Forall (fun p => len p <= 1024 * 1024) datas -> len block <= 1024 * 1024 ->
  forall fuel, (length datas < fuel)%nat ->
  plays (await_headers fuel) (concat (map (write_h3_frame 0x00) datas) ++ write_h3_frame 0x01 block) (parse_headers_from_qpack block) [].
Proof.
  intros Hd Hb. induction Hd as [|p datas Hp Hd IH]; intros [|fuel] Hf; cbn [length] in Hf; try lia; cbn [await_headers map concat app].
  - rewrite <-(app_nil_r (write_h3_frame 1 block)). eapply plays_read; [by apply h3_frame_plays|]. apply plays_ret.
  - rewrite <-app_assoc. eapply plays_read; [by apply h3_frame_plays|]. apply IH. lia.
Qed.

Lemma len_put_more fuel n : len (put_more fuel n) <= Z.of_nat fuel.
Proof.
  revert n. induction fuel as [|fuel IH]; intros n; [done|]. cbn [put_more]. specialize (IH (Z.shiftr n 7)). case_if; rewrite len_cons; [lia|change (len (@nil Z)) with 0; lia].
Qed.

Lemma len_literal name value : len name + len value <= len (put_literal_header name value) <= 22 + len name + len value.
Proof.
  unfold put_literal_header. rewrite !len_app. pose proof (len_put_more 10 (len name - 7)). pose proof (len_put_more 10 (len value - 127)).
  pose proof (len_nonneg (put_more 10 (len name - 7))). pose proof (len_nonneg (put_more 10 (len value - 127))).
  repeat case_if; rewrite ?len_cons; change (len (@nil Z)) with 0; lia.
Qed.

(** The literals the client writes, as the standard's. *)
Definition literal (h : str * str) : representation := Literal false false h.1 false h.2.

Definition header_ok (h : str * str) : Prop := utf8_valid h.1 = true /\ utf8_valid h.2 = true /\ len h.1 < 2 ^ 63 /\ len h.2 < 2 ^ 63 /\ len h.2 <> 127.

Lemma block_literals hs : Forall header_ok hs -> qpack_block hs = 0 :: 0 :: concat (map encode_field (map literal hs)).
Proof.
  intros Hh. unfold qpack_block. cbn [app]. do 2 f_equal. induction Hh as [|h hs (_ & _ & H1 & H2 & H3) _ IH]; [done|].
  cbn [map concat]. rewrite IH. f_equal. by apply put_literal_field.
Qed.

Lemma literals_headers hs : map field_header (map literal hs) = hs.
Proof. induction hs as [|[n v] hs IH]; [done|]. cbn. by rewrite IH. Qed.

Lemma literals_decode hs : Forall header_ok hs -> len (qpack_block hs) < 2 ^ 61 -> parse_headers_from_qpack (qpack_block hs) = Ret (Ok hs).
Proof.
  intros Hh Hl. rewrite block_literals in * by done. rewrite qpack_decodes.
  - by rewrite literals_headers.
  - apply Forall_map. eapply Forall_impl; [exact Hh|]. intros [n v] (H1 & H2 & _). by split_and!.
  - rewrite !len_cons in Hl. lia.
Qed.

Lemma mbps_to_bps_nonneg mbps : 0 <= mbps_to_bps mbps.
Proof. apply Z.div_pos; [|lia]. unfold as_u64, wrap. apply Z.mod_pos_bound. lia. Qed.

Lemma auth_headers_ok password down_mbps seed : utf8_valid password = true -> len password < 2 ^ 20 -> len password <> 127 ->
  Forall header_ok (auth_headers password (show_uint (mbps_to_bps down_mbps)) (random_padding seed 256 2048)).
Proof.
  intros Hu Hl H127. pose proof (len_show_uint (mbps_to_bps down_mbps)). pose proof (len_random_padding seed 256 2048 ltac:(lia)).
  unfold auth_headers, header_ok. repeat (apply Forall_cons; split; [cbn [fst snd]; split_and!; try reflexivity; try discriminate|]); try by apply Forall_nil.
  all: try first [exact Hu | apply ascii_utf8, show_uint_ascii, mbps_to_bps_nonneg | apply ascii_utf8, random_padding_ascii | lia].
Qed.

Lemma len_auth_block password down_mbps seed : 256 <= len (qpack_block (auth_headers password (show_uint (mbps_to_bps down_mbps)) (random_padding seed 256 2048))) <= len password + 2500.
Proof.
  pose proof (len_show_uint (mbps_to_bps down_mbps)) as H1. pose proof (len_random_padding seed 256 2048 ltac:(lia)) as H2. pose proof (len_nonneg password).
  unfold qpack_block, auth_headers. cbn [map concat fst snd]. rewrite app_nil_r, !len_app.
  repeat match goal with |- context [len (put_literal_header ?n ?v)] => pose proof (len_literal n v); generalize dependent (len (put_literal_header n v)); intros end.
  repeat match goal with H : context [len (lit ?s)] |- _ => let v := eval vm_compute in (len (lit s)) in change (len (lit s)) with v in H end.
  change (len URL_HOST) with 8 in *. change (len URL_PATH) with 5 in *. change (len [0; 0]) with 2. pose proof (len_nonneg (show_uint (mbps_to_bps down_mbps))). lia.
Qed.

(** The rate agreed on is the local one at most; without a local one there is none. *)
Lemma negotiate_bound hs up info : 0 <= up -> negotiate hs up = Ok info -> tx_bps info <= up.
Proof.
  intros Hup. unfold negotiate. case_match; [|done]. case_if; [done|]. intros [= <-]. cbn [tx_bps]. destruct (Z.eqb_spec up 0); [lia|].
  match goal with |- (if ?c then _ else _) <= _ => destruct c end; lia.
Qed.

(** A server reads the client's request as the seven headers, with the password as it is configured unless it has 127 bytes; and what
    the client makes of an answer, after any number of DATA frames, is what its headers say: a rate that is the local one at most. *)
Theorem hy2_auth password down_mbps up_mbps seed datas a b fs fuel rest : utf8_valid password = true -> len password <= 1000000 -> len password <> 127 ->
  Forall (fun p => len p <= 1024 * 1024) datas -> Forall field_ok fs -> len (concat (map encode_field fs)) <= 1000000 -> (length datas < fuel)%nat ->
  let answer := concat (map (write_h3_frame 0x00) datas) ++ write_h3_frame 0x01 (a :: b :: concat (map encode_field fs)) in
  let local := mbps_to_bps up_mbps in
  (exists block, play read_h3_frame (auth_request password down_mbps seed) = (Ok ((0x01, block), []), []) /\
    parse_headers_from_qpack block = Ret (Ok (auth_headers password (show_uint (mbps_to_bps down_mbps)) (random_padding seed 256 2048)))) /\
  play (authenticate fuel password down_mbps up_mbps seed) (answer ++ rest) =
    (Ok (Ret (negotiate (map field_header fs) local), rest), auth_request password down_mbps seed) /\
  forall info, negotiate (map field_header fs) local = Ok info -> tx_bps info <= local.
Proof.
  intros Hu Hl H127 Hd Hfs Hfl Hfuel answer local. split_and!.
  - pose proof (len_auth_block password down_mbps seed) as Hb. pose proof (auth_headers_ok password down_mbps seed Hu ltac:(lia) H127) as Hok.
    eexists. split; [|apply literals_decode; [exact Hok|lia]].
    unfold auth_request. rewrite <-(app_nil_r (write_h3_frame _ _)). apply h3_frame_plays; [done|lia].
  - assert (Hp : plays (authenticate fuel password down_mbps up_mbps seed) answer (Ret (negotiate (map field_header fs) local)) (auth_request password down_mbps seed)); [|apply Hp].
    rewrite <-(app_nil_r (auth_request _ _ _)). unfold authenticate. apply plays_out. rewrite <-(app_nil_r answer).
    eapply plays_read; [apply await_headers_plays; [done|rewrite !len_cons; lia|done]|]. rewrite qpack_decodes by (done || lia). apply plays_ret.
  - intros info. apply negotiate_bound, mbps_to_bps_nonneg.
Qed.

Lemma hy2_auth_witness :
  let fs := [Literal false true (lit ":status") true (lit "233"); Literal false false RESP_HEADER_UDP false (lit "true"); Literal false false RESP_HEADER_CC_RX true (lit "5000000")] in
  let answer := write_h3_frame 0x00 (lit "hello") ++ write_h3_frame 0x01 (0 :: 0 :: concat (map encode_field fs)) in
  play (authenticate 2 (lit "secret") 100 80 12345) answer = (Ok (Ret (Ok (mkAuthInfo true 5000000)), []), auth_request (lit "secret") 100 12345).
Proof.
  intros fs answer. assert (Hf : Forall field_ok fs) by (apply (bool_decide_unpack _); vm_compute; done).
  destruct (hy2_auth (lit "secret") 100 80 12345 [lit "hello"] 0 0 fs 2 []) as (_ & H & _);
    [reflexivity|vm_compute; discriminate|vm_compute; discriminate|repeat constructor; vm_compute; discriminate|exact Hf|vm_compute; discriminate|cbn; lia|].
  rewrite app_nil_r in H. exact H.
Defined.

(** ** Opening a stream *)

(** The standard's server: the address asked for, and its answer. *)
Definition accept_tcp_request (status : Z) (msg padding : bytes) : wire str :=
  let* frame_type := read_varint_async in
  let* _ := wensure (frame_type =? FRAME_TYPE_TCP_REQUEST) BadFraming in
  let* addr_len := read_varint_async in
  let* addr := read_exact (Z.to_nat addr_len) in
  let* padding_len := read_varint_async in
  let* _ := read_exact (Z.to_nat padding_len) in
  let* _ := write_all ([status] ++ write_varint (len msg) ++ msg ++ write_varint (len padding) ++ padding) in
  WRet addr.

Lemma accept_plays target padding status msg pad : len (show_target target) < 2 ^ 62 -> len padding < 2 ^ 62 ->
  plays (accept_tcp_request status msg pad) (tcp_request target padding) (show_target target)
    ([status] ++ write_varint (len msg) ++ msg ++ write_varint (len pad) ++ pad).
Proof.
  intros Ht Hp. pose proof (len_nonneg (show_target target)). pose proof (len_nonneg padding). unfold accept_tcp_request, tcp_request.
  eapply plays_read; [by apply varint_plays|]. eapply plays_pure; [by apply plays_ensure|].
  eapply plays_read; [apply varint_plays; lia|]. eapply plays_read; [apply plays_exact; unfold len; lia|].
  eapply plays_read; [apply varint_plays; lia|]. rewrite <-(app_nil_r padding) at 2. eapply plays_read; [apply plays_exact; unfold len; lia|].
  apply plays_write.
Qed.

Lemma accept_peekless status msg pad : peekless (accept_tcp_request status msg pad).
Proof. unfold accept_tcp_request, read_varint_async, read_u8. peekless. Qed.

(** The client's side of an answer it takes. *)
Lemma response_plays msg pad : len msg <= MAX_MESSAGE_LENGTH -> len pad <= MAX_PADDING_LENGTH ->
  plays read_tcp_response ([0] ++ write_varint (len msg) ++ msg ++ write_varint (len pad) ++ pad) tt [].
Proof.
  unfold MAX_MESSAGE_LENGTH, MAX_PADDING_LENGTH. intros Hm Hp. pose proof (len_nonneg msg). pose proof (len_nonneg pad). unfold read_tcp_response.
  eapply plays_read; [apply plays_u8|]. eapply plays_read; [apply varint_plays; lia|].
  eapply plays_pure; [by apply plays_ensure, Z.leb_le|].
  eapply plays_read.
  { case_if; reflect_bools.
    - rewrite <-(app_nil_r msg) at 2. eapply plays_read; [apply plays_exact; unfold len; lia|]. by apply plays_ensure.
    - assert (msg = []) as -> by (destruct msg as [|x msg]; [done|rewrite len_cons in *; pose proof (len_nonneg msg); lia]). by apply plays_ensure. }
  eapply plays_read; [apply varint_plays; lia|]. eapply plays_pure; [by apply plays_ensure, Z.leb_le|].
  case_if; reflect_bools.
  - rewrite <-(app_nil_r pad) at 2. eapply plays_read; [apply plays_exact; unfold len; lia|]. apply plays_ret.
  - assert (pad = []) as -> by (destruct pad as [|x pad]; [done|rewrite len_cons in *; pose proof (len_nonneg pad); lia]). apply plays_ret.
Qed.

Lemma varint_peekless : peekless read_varint_async.
Proof. unfold read_varint_async, read_u8. peekless. Qed.

Lemma response_peekless : peekless read_tcp_response.
Proof. unfold read_tcp_response. repeat first [apply varint_peekless | done | apply peekless_ensure | apply peekless_bind; [|intros] | case_if]. Qed.

(** And of one with another status: the rest stays unread. *)
Lemma response_refused {A} status msg rest (v : A) : status <> 0 -> len msg <= MAX_MESSAGE_LENGTH ->
  converse read_tcp_response (WRet v) [] ([status] ++ write_varint (len msg) ++ msg ++ rest) = mkOutcome (Some (Err Refused)) (Some (Ok v)) [] rest.
Proof.
  unfold MAX_MESSAGE_LENGTH. intros Hs Hm. pose proof (len_nonneg msg). unfold read_tcp_response.
  rewrite (converse_cplays read_u8 _ [status] status []); [|done|apply plays_u8].
  rewrite (converse_cplays read_varint_async _ _ (len msg) []); [|apply varint_peekless|apply varint_plays; lia].
  unfold MAX_MESSAGE_LENGTH. rewrite (proj2 (Z.leb_le _ _)), (proj2 (Z.eqb_neq status 0)) by done. cbn [wensure wbind]. case_if; reflect_bools.
  - rewrite wbind_assoc, (converse_cplays (read_exact _) _ msg msg []); [done|done|apply plays_exact; unfold len; lia].
  - assert (msg = []) as -> by (destruct msg as [|x msg]; [done|rewrite len_cons in *; pose proof (len_nonneg msg); lia]). done.
Qed.

(** Against a server of the standard, the client's stream is open exactly when the status is zero, and the server has
    been asked for the client's target; otherwise the client is refused. *)
Theorem hy2_tcp_open target seed status msg pad : len (show_target target) < 2 ^ 62 -> len msg <= MAX_MESSAGE_LENGTH -> len pad <= MAX_PADDING_LENGTH ->
  exists unread, converse (open_tcp_stream target seed) (accept_tcp_request status msg pad) [] [] =
    mkOutcome (Some (if status =? 0 then Ok tt else Err Refused)) (Some (Ok (show_target target))) [] unread /\
    (status = 0 -> unread = []).
Proof.
  intros Ht Hm Hp. unfold open_tcp_stream. cbn [write_all wbind]. rewrite converse_cwrite. cbn [app].
  pose proof (len_random_padding seed 64 512 ltac:(lia)). rewrite (converse_server _ _ _ _ _ (accept_peekless status msg pad) (accept_plays target (random_padding seed 64 512) status msg pad Ht ltac:(lia))).
  destruct (Z.eqb_spec status 0) as [->|Hs].
  - exists []. split; [|done]. rewrite <-(wbind_ret_r read_tcp_response) at 1. by rewrite (converse_cplays_all read_tcp_response _ _ tt); [|apply response_peekless|by apply response_plays].
  - eexists. split; [by apply response_refused|done].
Qed.

Lemma hy2_tcp_open_witness : let target := TDomain (lit "example.com") 443 in
  (exists unread, converse (open_tcp_stream target 7) (accept_tcp_request 1 (lit "no route") (lit "xx")) [] [] =
    mkOutcome (Some (Err Refused)) (Some (Ok (lit "example.com:443"))) [] unread /\ (1 = 0 -> unread = [])) /\
  (exists unread, converse (open_tcp_stream target 7) (accept_tcp_request 0 [] (lit "xx")) [] [] =
    mkOutcome (Some (Ok tt)) (Some (Ok (lit "example.com:443"))) [] unread /\ (0 = 0 -> unread = [])).
Proof.
  split; [apply (hy2_tcp_open (TDomain (lit "example.com") 443) 7 1 (lit "no route") (lit "xx"))|apply (hy2_tcp_open (TDomain (lit "example.com") 443) 7 0 [] (lit "xx"))];
    vm_compute; congruence.
Defined.

(** ** The server of the repository *)

(** The first bytes of the client's authentication: the frame type, then the length in two bytes. *)
Lemma auth_request_head password down_mbps seed : len password <= 10000 ->
  exists hi rest, auth_request password down_mbps seed = 0x01 :: hi :: rest /\ 64 <= hi < 128.
Proof.
  intros Hl. unfold auth_request, write_h3_frame. pose proof (len_auth_block password down_mbps seed) as Hb. set (block := qpack_block _) in *.
  unfold write_varint at 2. rewrite (proj2 (Z.leb_gt _ _)), (proj2 (Z.leb_le _ _)) by lia. unfold as_u16. rewrite wrap_small, Z.lor_comm, (lor_add _ _ 14) by (done || lia).
  destruct (be_first 1 (0x4000 + len block)) as (b & t & E & _ & _ & _ & _ & Eb); [change (256 ^ Z.of_nat 2) with 65536; lia|]. rewrite E. exists b. eexists. split; [reflexivity|].
  rewrite Eb. change (256 ^ Z.of_nat 1) with 256. split; [apply Z.div_le_lower_bound; lia|apply Z.div_lt_upper_bound; lia].
Qed.

(** The repository's own two ends do not understand each other: on the client's authentication stream the server reads a token of one
    byte, so unless a password is one character it closes the stream, and the client's wait for an answer fails. *)
Lemma hy2_ends_apart passwords password down_mbps up_mbps seed fuel : (0 < fuel)%nat -> len password <= 10000 -> Forall (fun p => length p <> 1%nat) passwords ->
  exists unread, converse (authenticate fuel password down_mbps up_mbps seed) (handle_hy2_stream passwords) [] [] =
    mkOutcome (Some (Err UnexpectedEof)) (Some (Err Unauthorized)) unread [].
Proof.
  intros Hf Hl Hp. destruct fuel as [|fuel]; [lia|]. destruct (auth_request_head password down_mbps seed Hl) as (hi & rest & E & Hhi).
  unfold authenticate. rewrite E. cbn [write_all wbind]. rewrite converse_cwrite. cbn [app]. unfold handle_hy2_stream.
  rewrite (converse_plays read_u8 _ [0x01] 0x01 []  _ (hi :: rest)); [|done|apply plays_u8].
  rewrite (converse_plays (read_exact _) _ [hi] [hi] [] _ rest); [|done|by apply plays_exact].
  rewrite from_utf8_lossy_valid by (apply ascii_utf8; repeat constructor; unfold is_ascii; lia).
  assert (existsb (fun p => bool_decide (p = [hi])) passwords = false) as ->.
  { apply not_true_is_false. rewrite existsb_exists. intros (p & Hin & Hd). apply bool_decide_eq_true in Hd. subst p.
    rewrite List.Forall_forall in Hp. by apply (Hp [hi] Hin). }
  eexists. reflexivity.
Qed.

(** What a client of the server's own protocol gets. *)
Lemma server_accepts passwords password t payload : password ∈ passwords -> utf8_valid password = true -> len password <= 255 -> target_ok t ->
  plays (handle_hy2_stream passwords) ([len password] ++ password ++ [0x00] ++ put_addr hy2_atyps t) (Some t) [] /\
  play (handle_hy2_stream passwords) (([len password] ++ password ++ [0x00] ++ put_addr hy2_atyps t) ++ payload) = (Ok (Some t, payload), []).
Proof.
  intros Hin Hu Hl Ht. pose proof (len_nonneg password).
  assert (Hp : plays (handle_hy2_stream passwords) ([len password] ++ password ++ [0x00] ++ put_addr hy2_atyps t) (Some t) []); [|split; [exact Hp|apply Hp]].
  unfold handle_hy2_stream. eapply plays_read; [apply plays_u8|]. eapply plays_read; [apply plays_exact; unfold len; lia|].
  eapply plays_pure; [apply plays_ensure|].
  { apply existsb_exists. exists password. rewrite from_utf8_lossy_valid by done. split; [by apply list_elem_of_In|by apply bool_decide_eq_true]. }
  eapply plays_read; [apply plays_u8|]. eapply plays_last; [|apply plays_ret]. unfold read_hy2_addr. rewrite put_addr_cons.
  change (addr_code hy2_atyps t :: ?l) with ([addr_code hy2_atyps t] ++ l). eapply plays_read; [apply plays_u8|]. by apply read_addr_plays.
Qed.

(** ** What goes wrong with datagrams *)

(** A part whose number is past their count ends the task of the session. *)
Example frag_past_count_panics evs : recv_udp_reassemble (build_udp_header 1 1 5 2 (lit "a:1") ++ lit "x") evs = Panic.
Proof. reflexivity. Qed.

(** An empty packet is cut into no parts: nothing is sent. *)
Lemma empty_packet_not_sent send sid pid addr : send_udp_fragmented send sid pid addr [] = ([], Ok tt).
Proof. reflexivity. Qed.

(** A session hands on whatever packet arrives on the connection, of whatever session. *)
Lemma session_not_checked sid pid addr data evs fuel open sent : in_width 32 sid -> in_width 16 pid -> len addr < 2 ^ 62 ->
  (length (udp_chunks addr data) = 1)%nat -> open sent = true ->
  reply_loop (S fuel) open sent (map Some (udp_fragments sid pid addr data) ++ evs) = (ps ← reply_loop fuel open (S sent) evs; Ret (data :: ps)).
Proof.
  intros Hs Hp Ha Hone Hopen. pose proof (fragments_length sid pid addr data) as Hl. destruct (udp_fragments sid pid addr data) as [|d [|]] eqn:E; cbn [length] in Hl; try lia.
  destruct (fragment_lookup sid pid addr data Hs Hp Ha ltac:(lia) 0 d) as [_ P]; [by rewrite E|]. cbn [map app reply_loop].
  unfold recv_udp_reassemble. rewrite P, bind_Ret. cbn [part f_count f_payload]. rewrite (proj2 (Z.eqb_eq _ _)) by (unfold len; lia). rewrite bind_Ret. cbn [fst snd].
  rewrite Hopen. pose proof (udp_chunks_concat addr data) as Hcat. destruct (udp_chunks addr data) as [|c [|]]; try discriminate Hone.
  cbn [concat lookup list_lookup default from_option] in Hcat |- *. rewrite app_nil_r in Hcat. by rewrite Hcat.
Qed.
