(* ===== verification/Tuic.v ===== *)
(** * Tuic: TUIC, [src/outbound/tuic.rs] and [src/inbound/tuic_server.rs].

    HMAC-SHA256 and [Uuid::parse_str] are crates; a connection is a number the
    model gets from the network.  At the end, the two QUIC protocols of the
    repository against its own inbounds. *)

From S2P Require Import Prelude RustStr Inbound Wire Tunnels Hy2Codec Hy2.
#[local] Open Scope reflex_scope.

Definition TYPE_TCP_CONNECT : Z := 0x00.
Definition TYPE_UDP_PACKET : Z := 0x01.
Definition TYPE_AUTHENTICATE : Z := 0x02.

Definition ATYP_IPV4 : Z := 0x01.
Definition ATYP_IPV6 : Z := 0x04.
Definition ATYP_DOMAIN : Z := 0x03.

(** ** The outbound's frames *)

(** The port follows a domain and comes before an address. *)
Definition write_target (t : Target) : bytes :=
  match t with
  | TDomain host port => [ATYP_DOMAIN] ++ [as_u8 (len host)] ++ host ++ to_be_bytes 2 port
  | TSocket a =>
      to_be_bytes 2 (sock_port a) ++
      match ip a with
      | V4 v => [ATYP_IPV4] ++ octets (V4 v)
      | V6 v => [ATYP_IPV6] ++ octets (V6 v)
      end
  end.

Definition authenticate_frame (uuid token : bytes) : bytes := [TYPE_AUTHENTICATE] ++ uuid ++ token.
Definition connect_frame (uuid token : bytes) (t : Target) : bytes := [TYPE_TCP_CONNECT] ++ uuid ++ token ++ write_target t.

Definition udp_head (uuid token : bytes) (session_id packet_id frag_id frag_count size : Z) : bytes :=
  [TYPE_UDP_PACKET] ++ uuid ++ token ++ to_be_bytes 2 session_id ++ to_be_bytes 2 packet_id ++ [frag_id] ++ [frag_count] ++ to_be_bytes 2 (as_u16 size).

Definition build_udp_datagram (uuid token : bytes) (session_id packet_id frag_id frag_count : Z) (t : Target) (data : bytes) : bytes :=
  udp_head uuid token session_id packet_id frag_id frag_count (len data) ++ write_target t ++ data.

Definition MIN_HDR : Z := 57.

Definition parse_udp_datagram_payload (data : bytes) : run (option bytes) :=
  if len data <? MIN_HDR then Ret None
  else
    b ← idx data 0;
    if negb (b =? TYPE_UDP_PACKET) then Ret None
    else
      hi ← idx data 55;
      lo ← idx data 56;
      let size := from_be_bytes [hi; lo] in
      let addr_start := 57 in
      if len data <? addr_start + size then Ret None
      else p ← slice data (len data - size) (len data); Ret (Some p).

(** The text is that of [vless.rs]. *)
Definition tuic_uuid (s : str) : option bytes := parse_uuid s.

Section Hmac.
Context (hmac_sha256 : bytes -> bytes -> bytes).

Definition derive_token (uuid password : bytes) : bytes := hmac_sha256 password uuid.

(** ** The outbound *)

Record TuicOutbound : Type := mkTuic { t_uuid : bytes; t_token : bytes; udp_session : Z; cached : option nat }.

Definition TuicOutbound_new (uuid password : str) : option TuicOutbound :=
  match tuic_uuid uuid with
  | Some u => Some (mkTuic u (derive_token u password) 0 None)
  | None => None
  end.

Definition with_cached (o : TuicOutbound) (c : option nat) : TuicOutbound := mkTuic (t_uuid o) (t_token o) (udp_session o) c.
Definition with_session (o : TuicOutbound) (n : Z) : TuicOutbound := mkTuic (t_uuid o) (t_token o) n (cached o).

(** The connection, and what goes out on the first stream of a new one; [auth_sent] is whether it could be sent. *)
Definition get_conn (closed : nat -> bool) (new_conn : result nat WireError) (auth_sent : result () WireError) (o : TuicOutbound) :
    result nat WireError * option bytes * TuicOutbound :=
  let connect :=
    match new_conn with
    | Ok conn =>
        match auth_sent with
        | Ok _ => (Ok conn, Some (authenticate_frame (t_uuid o) (t_token o)), with_cached o (Some conn))
        | Err e => (Err e, None, with_cached o None)
        end
    | Err e => (Err e, None, with_cached o None)
    end in
  match cached o with
  | Some conn => if closed conn then connect else (Ok conn, None, o)
  | None => connect
  end.

(** What opening a TCP stream sends on it. *)
Definition tuic_open_tcp (o : TuicOutbound) (t : Target) : bytes := connect_frame (t_uuid o) (t_token o) t.

Definition fetch_add16 (c : Z) : Z := as_u16 (c + 1).

(** The datagram of a session's first packet, the number its later packets start at unless sending fails, and the counter. *)
Definition tuic_udp_start (send_datagram : bytes -> bool) (o : TuicOutbound) (t : Target) (data : bytes) : bytes * option Z * TuicOutbound :=
  let session_id := udp_session o in
  let o := with_session o (fetch_add16 (udp_session o)) in
  let dgram := build_udp_datagram (t_uuid o) (t_token o) session_id 0 0 1 t data in
  (dgram, if send_datagram dgram then Some (udp_session o) else None, o).

(** Later packets, each with the next number, until one cannot be sent. *)
Fixpoint tuic_upstream (send_datagram : bytes -> bool) (o : TuicOutbound) (next_sid : Z) (t : Target) (packets : list bytes) : list bytes :=
  match packets with
  | [] => []
  | data :: packets =>
      let dgram := build_udp_datagram (t_uuid o) (t_token o) next_sid 0 0 1 t data in
      if send_datagram dgram then dgram :: tuic_upstream send_datagram o (fetch_add16 next_sid) t packets else []
  end.

(** What a session hands on of the datagrams its connection delivers; [None] ends the wait. *)
Fixpoint tuic_replies (open : nat -> bool) (sent : nat) (events : list (option bytes)) : run (list bytes) :=
  match events with
  | Some data :: events =>
      r ← parse_udp_datagram_payload data;
      match r with
      | Some payload => if open sent then ps ← tuic_replies open (S sent) events; Ret (payload :: ps) else Ret []
      | None => tuic_replies open sent events
      end
  | None :: _ | [] => Ret []
  end.

(** ** The inbound *)

(** Uuid and token of each user whose uuid can be read; a later one replaces an earlier one of the same uuid. *)
Definition tuic_users (parse_str : str -> option bytes) (users : list (str * str)) : gmap bytes bytes :=
  fold_left (fun m u => match parse_str u.1 with Some uuid => <[uuid := hmac_sha256 u.2 uuid]> m | None => m end) users ∅.

Definition tuic_authenticate (users : gmap bytes bytes) : wire unit :=
  let* version := read_u8 in
  let* _ := wensure (version =? 0x05) BadVersion in
  let* cmd_type := read_u8 in
  let* _ := wensure (cmd_type =? 0x00) BadCommand in
  let* uuid := read_exact 16 in
  let* token := read_exact 32 in
  let authenticated := match users !! uuid with Some expected => bool_decide (expected = token) | None => false end in
  wensure authenticated AuthFailed.

Definition tuic_atyps : atyps := mkAtyps 0x00 0x02 0x01.

Definition read_tuic_addr : wire Target := let* atyp := read_u8 in read_addr tuic_atyps atyp.

Definition handle_tuic_stream : wire Target :=
  let* version := read_u8 in
  let* _ := wensure (version =? 0x05) BadVersion in
  let* cmd := read_u8 in
  let* _ := wensure (cmd =? 0x01) BadCommand in
  read_tuic_addr.
End Hmac.

(** * Theorems *)

(** ** Datagrams *)

Lemma len_udp_head uuid token s p f c n : length uuid = 16%nat -> length token = 32%nat -> len (udp_head uuid token s p f c n) = 57.
Proof. intros Hu Ht. unfold udp_head. rewrite !len_app, !len_to_be_bytes. unfold len. rewrite Hu, Ht. done. Qed.

(** Whatever a datagram holds, its payload is taken without a panic. *)
Lemma payload_returns data : bytes_ok data -> exists r, parse_udp_datagram_payload data = Ret r.
Proof.
  intros Hb. unfold parse_udp_datagram_payload, MIN_HDR. case_if; reflect_bools; [by eexists|]. destruct (idx_returns data 0) as [b ->]; [lia|]. rewrite bind_Ret.
  case_if; [by eexists|]. destruct (idx_returns data 55) as [hi Eh]; [lia|]. destruct (idx_returns data 56) as [lo El]; [lia|]. rewrite Eh, bind_Ret, El, bind_Ret.
  assert (Hs : bytes_ok [hi; lo]) by (repeat (apply Forall_cons; split; [by eapply idx_byte|]); by apply Forall_nil). pose proof (from_be_bytes_bound _ Hs).
  case_if; reflect_bools; [by eexists|]. edestruct (slice_returns data) as [p ->]; [| |by eexists]; lia.
Qed.

(** What the peer takes from a datagram: as many of its last bytes as the length says, whatever the target before them. *)
Lemma payload_of_datagram uuid token s p f c t data : length uuid = 16%nat -> length token = 32%nat -> len data <= 65535 ->
  parse_udp_datagram_payload (build_udp_datagram uuid token s p f c t data) = Ret (Some data).
Proof.
  intros Hu Ht Hd. pose proof (len_nonneg data). unfold parse_udp_datagram_payload, build_udp_datagram, MIN_HDR.
  pose proof (len_udp_head uuid token s p f c (len data) Hu Ht) as Hh. pose proof (len_nonneg (write_target t)).
  destruct (be_first 1 (len data)) as (hi & l & E & Hl & _ & _ & Hv & _); [change (256 ^ Z.of_nat 2) with 65536; lia|]. destruct l as [|lo [|]]; try discriminate Hl.
  set (buf := udp_head _ _ _ _ _ _ _ ++ _).
  assert (Hb : len buf = 57 + len (write_target t) + len data) by (unfold buf; rewrite !len_app; lia).
  set (pre := [TYPE_UDP_PACKET] ++ uuid ++ token ++ to_be_bytes 2 s ++ to_be_bytes 2 p ++ [f] ++ [c]).
  assert (Hp : len pre = 55) by (unfold pre; rewrite !len_app, !len_to_be_bytes; unfold len; rewrite Hu, Ht; done).
  assert (Hbuf : buf = pre ++ [hi; lo] ++ write_target t ++ data).
  { unfold buf, udp_head, pre. unfold as_u16. rewrite wrap_small, E by lia. app_eq. }
  rewrite (proj2 (Z.ltb_ge _ _)) by lia.
  rewrite (idx_seg buf [] TYPE_UDP_PACKET (drop 1 buf) 0), bind_Ret by (try done; rewrite Hbuf; done). cbn [Z.eqb Pos.eqb TYPE_UDP_PACKET negb].
  rewrite (idx_seg buf pre hi ([lo] ++ write_target t ++ data) 55), bind_Ret by (try done; rewrite Hbuf; done).
  rewrite (idx_seg buf (pre ++ [hi]) lo (write_target t ++ data) 56), bind_Ret by (try (rewrite len_app, Hp; done); rewrite Hbuf; app_eq).
  rewrite Hv, (proj2 (Z.ltb_ge _ _)) by lia.
  rewrite (slice_seg buf (pre ++ [hi; lo] ++ write_target t) data []), bind_Ret; [done|rewrite app_nil_r, Hbuf; app_eq| |lia].
  rewrite Hb, !len_app, Hp. change (len [hi; lo]) with 2. lia.
Qed.

(** The first packet of the next session goes out under the number the later packets of this one start at. *)
Lemma session_numbers_collide o t1 d1 t2 d2 d3 : let send := fun _ => true in
  exists later o1 dgram1 o2, tuic_udp_start send o t1 d1 = (dgram1, Some later, o1) /\
    tuic_upstream send o1 later t1 [d3] = [build_udp_datagram (t_uuid o) (t_token o) later 0 0 1 t1 d3] /\
    tuic_udp_start send o1 t2 d2 = (build_udp_datagram (t_uuid o) (t_token o) later 0 0 1 t2 d2, Some (fetch_add16 later), o2).
Proof. by do 4 eexists. Qed.

(** ** The inbound *)

Lemma tuic_users_from (parse : str -> option bytes) (hmac : bytes -> bytes -> bytes) users uuid token : forall m : gmap bytes bytes,
  fold_left (fun m u => match parse u.1 with Some uuid => <[uuid := hmac u.2 uuid]> m | None => m end) users m !! uuid = Some token ->
  m !! uuid = Some token \/ exists name pw, (name, pw) ∈ users /\ parse name = Some uuid /\ token = hmac pw uuid.
Proof.
  induction users as [|[n w] users IH]; intros m H; [by left|]. cbn [fold_left fst snd] in H.
  destruct (IH _ H) as [Hm|(name & pw & Hin & ?)]; [|right; exists name, pw; split; [by right|done]].
  destruct (parse n) as [u|] eqn:E; [|by left]. destruct (decide (u = uuid)) as [->|Hne].
  - right. exists n, w. rewrite lookup_insert_eq in Hm. injection Hm as <-. split; [by left|done].
  - left. by rewrite lookup_insert_ne in Hm.
Qed.

(** Only who knows the password of a user of the list is let in: the bytes read are that user's uuid and its token. *)
Lemma tuic_admission (parse : str -> option bytes) (hmac : bytes -> bytes -> bytes) users i rest o : play (tuic_authenticate (tuic_users hmac parse users)) i = (Ok (tt, rest), o) ->
  exists name pw uuid, (name, pw) ∈ users /\ parse name = Some uuid /\ i = [0x05; 0x00] ++ uuid ++ hmac pw uuid ++ rest.
Proof.
  unfold tuic_authenticate. intros H. play_step H. play_step H. play_step H. play_step H. play_step H. play_step H.
  apply play_ensure_Ok in H as (Hc & -> & _). apply Z.eqb_eq in C, C0. subst.
  destruct (tuic_users hmac parse users !! a3) as [expected|] eqn:E; [|done]. apply bool_decide_eq_true in Hc. subst.
  apply tuic_users_from in E as [E|(name & pw & Hin & Hp & ->)]; [by rewrite lookup_empty in E|]. by exists name, pw, a3.
Qed.

(** And one of the list is. *)
Lemma tuic_admits users uuid token : length uuid = 16%nat -> length token = 32%nat -> users !! uuid = Some token ->
  plays (tuic_authenticate users) ([0x05; 0x00] ++ uuid ++ token) tt [].
Proof.
  intros Hu Ht Hin. unfold tuic_authenticate. change ([5; 0] ++ uuid ++ token) with ([5] ++ [0] ++ uuid ++ token).
  eapply plays_read; [apply plays_u8|]. eapply plays_pure; [by apply plays_ensure|]. eapply plays_read; [apply plays_u8|]. eapply plays_pure; [by apply plays_ensure|].
  eapply plays_read; [by apply plays_exact|]. rewrite <-(app_nil_r token). eapply plays_read; [by apply plays_exact|]. rewrite Hin. apply plays_ensure. by apply bool_decide_eq_true.
Qed.

(** C35. The repository's QUIC ends do not understand each other: a Hysteria2 inbound without one-character passwords closes the stream its
    outbound authenticates on, and a TUIC inbound refuses both the authentication and every connection of its outbound by their first byte. *)
Theorem quic_ends_never_meet passwords password down_mbps up_mbps seed fuel users uuid token t payload : (0 < fuel)%nat -> len password <= 10000 ->
  Forall (fun p => length p <> 1%nat) passwords ->
  (exists unread, converse (Hy2.authenticate fuel password down_mbps up_mbps seed) (handle_hy2_stream passwords) [] [] =
    mkOutcome (Some (Err UnexpectedEof)) (Some (Err Unauthorized)) unread []) /\
  play (tuic_authenticate users) (authenticate_frame uuid token) = (Err BadVersion, []) /\
  play handle_tuic_stream (connect_frame uuid token t ++ payload) = (Err BadVersion, []).
Proof. intros Hf Hl Hp. split; [by apply hy2_ends_apart|]. split; [done|]. by destruct t. Qed.

Lemma quic_ends_never_meet_witness :
  (exists unread, converse (Hy2.authenticate 1 (lit "secret") 100 100 5) (handle_hy2_stream [lit "secret"]) [] [] =
    mkOutcome (Some (Err UnexpectedEof)) (Some (Err Unauthorized)) unread []) /\
  play (tuic_authenticate ∅) (authenticate_frame (repeat 1 16) (repeat 2 32)) = (Err BadVersion, []) /\
  play handle_tuic_stream (connect_frame (repeat 1 16) (repeat 2 32) (TDomain (lit "a") 1) ++ []) = (Err BadVersion, []).
Proof. apply (quic_ends_never_meet [lit "secret"] (lit "secret")); [lia|vm_compute; discriminate|by repeat constructor]. Defined.
