(* ===== verification/DnsTransport.v ===== *)
(** * DnsTransport: how a query reaches its server, [src/dns/upstream.rs].

    The addresses of the configuration, the framing of each transport, and
    [DnsUpstream::query] over a network that is a record of what it answers:
    the datagrams that lie in a socket when it is read, the bytes a peer will send,
    the outcome of a TLS handshake.  A time-out is one of its errors. *)

From S2P Require Import Prelude RustStr Extern CacheFile DnsWire FakeIp Inbound RouterSpec Wire Http DnsResolver.
#[local] Open Scope reflex_scope.

(** ** Addresses *)

Inductive DnsProtocol : Type := PUdp | PTcp | PDoh | PDot | PDoq | PRcode | PFakeIp.

Definition protocol (addr : str) : DnsProtocol :=
  if starts_with (lit "https://") addr then PDoh
  else if starts_with (lit "tls://") addr then PDot
  else if starts_with (lit "quic://") addr then PDoq
  else if starts_with (lit "tcp://") addr then PTcp
  else if starts_with (lit "udp://") addr then PUdp
  else if starts_with (lit "rcode://") addr then PRcode
  else if starts_with (lit "fakeip://") addr then PFakeIp
  else PUdp.

Definition rcode (addr : str) : option RcodeAction :=
  match strip_prefix (lit "rcode://") addr with
  | Some code =>
      if bool_decide (code = lit "refused") then Some Refused
      else if bool_decide (code = lit "success") then Some Success
      else if bool_decide (code = lit "nxdomain") then Some NxDomain
      else None
  | None => None
  end.

(** [SocketAddr::from_str]; a scope is read and dropped. *)
Definition read_port (s : str) : option (Z * str) :=
  match read_char 58 s with Some s => read_number 10 (S (length s)) true 65535 s | None => None end.

Definition read_scope_id (s : str) : str :=
  match read_char 37 s with
  | Some s' => match read_number 10 (S (length s')) true (2 ^ 32 - 1) s' with Some (_, r) => r | None => s end
  | None => s
  end.

Definition read_socket_addr_v4 (s : str) : option (SocketAddr * str) :=
  match read_ipv4_addr s with
  | Some (a, s) => match read_port s with Some (p, s) => Some ({| ip := V4 a; sock_port := p |}, s) | None => None end
  | None => None
  end.

Definition read_socket_addr_v6 (s : str) : option (SocketAddr * str) :=
  match read_char 91 s with
  | Some s =>
      match read_ipv6_addr s with
      | Some (a, s) =>
          match read_char 93 (read_scope_id s) with
          | Some s => match read_port s with Some (p, s) => Some ({| ip := V6 a; sock_port := p |}, s) | None => None end
          | None => None
          end
      | None => None
      end
  | None => None
  end.

Definition SocketAddr_from_str (s : str) : option SocketAddr :=
  match read_socket_addr_v4 s with
  | Some r => parse_all (Some r)
  | None => parse_all (read_socket_addr_v6 s)
  end.

Definition parse_addr (s : str) (default_port : Z) : result SocketAddr WireError :=
  let text :=
    if starts_with [91] s then s
    else if contains_char 58 s then s
    else s ++ [58] ++ show_uint default_port in
  ok_or (SocketAddr_from_str text) MalformedRequest.

(** [rest.find('/')] with the two parts. *)
Fixpoint find_slash (s : str) : option (str * str) :=
  match s with
  | [] => None
  | 47 :: r => Some ([], 47 :: r)
  | b :: r => match find_slash r with Some (x, y) => Some (b :: x, y) | None => None end
  end.

Definition parse_doh_url (url : str) : result (str * Z * str) WireError :=
  match strip_prefix (lit "https://") url with
  | None => Err MalformedRequest
  | Some rest =>
      let '(host_port, path) := match find_slash rest with Some (h, p) => (h, p) | None => (rest, lit "/") end in
      match rsplit_once 58 host_port with
      | Some (host, port) => match parse_uint u16_max port with Some p => Ok (host, p, path) | None => Err MalformedRequest end
      | None => Ok (host_port, 443, path)
      end
  end.

(** ** The upstreams of the configuration *)

Inductive UpKind : Set :=
  | KUdp (addr : SocketAddr)
  | KTcp (addr : SocketAddr)
  | KDoh (host : str) (port : Z) (path : str) (resolved_addr : option IpAddr)
  | KDot (addr : SocketAddr) (sni : str)
  | KDoq (addr : SocketAddr) (sni : str)
  | KRcode (action : RcodeAction)
  | KFakeIp (store : FakeIpStore).

(** [DnsUpstream]: the detour is the tag of its outbound. *)
Inductive Upstream : Set := mkUpstream (tag : str) (kind : UpKind) (detour : option str) (domain_resolver : option Upstream).

Definition u_tag (u : Upstream) : str := let 'mkUpstream t _ _ _ := u in t.
Definition u_kind (u : Upstream) : UpKind := let 'mkUpstream _ k _ _ := u in k.
Definition u_detour (u : Upstream) : option str := let 'mkUpstream _ _ d _ := u in d.
Definition u_resolver (u : Upstream) : option Upstream := let 'mkUpstream _ _ _ r := u in r.
Definition with_kind (u : Upstream) (k : UpKind) : Upstream := mkUpstream (u_tag u) k (u_detour u) (u_resolver u).
Definition with_resolver (u : Upstream) (r : option Upstream) : Upstream := mkUpstream (u_tag u) (u_kind u) (u_detour u) r.

Record UpstreamConfig : Type := mkServerCfg { sc_tag : str; sc_address : str; sc_sni : option str; sc_fakeip : option FakeIpConfig }.

(** [tls] is whether the TLS configuration can be built. *)
Definition from_config_full_with_reader (cfg : UpstreamConfig) (tls : result () WireError) (detour : option str) (cache_file : option CacheFile)
    (cache_reader : option CacheFileReader) (fault : bool) (domain_resolver : option Upstream) : result Upstream WireError :=
  let address := sc_address cfg in
  let raw p := default address (strip_prefix (lit p) address) in
  let sni addr := default (show_ip (ip addr)) (sc_sni cfg) in
  kind ←! (match protocol address with
           | PRcode => a ←! ok_or (rcode address) MalformedRequest; Ok (KRcode a)
           | PDoh =>
               u ←! parse_doh_url address;
               let '(host, port, path) := u in
               _ ←! tls;
               Ok (KDoh host port path (IpAddr_from_str host))
           | PTcp => a ←! parse_addr (raw "tcp://"%string) 53; Ok (KTcp a)
           | PUdp => a ←! parse_addr (raw "udp://"%string) 53; Ok (KUdp a)
           | PDot => a ←! parse_addr (raw "tls://"%string) 853; _ ←! tls; Ok (KDot a (sni a))
           | PDoq => a ←! parse_addr (raw "quic://"%string) 853; _ ←! tls; Ok (KDoq a (sni a))
           | PFakeIp =>
               c ←! ok_or (sc_fakeip cfg) MalformedRequest;
               s ←! map_err (fun _ => MalformedRequest) (new_with_cache c cache_file cache_reader fault);
               Ok (KFakeIp s)
           end);
  Ok (mkUpstream (sc_tag cfg) kind detour domain_resolver).

(** ** What a stream carries *)

(** A length of two bytes and the message, both ways: TCP and TLS. *)
Definition tcp_framed_exchange (msg : bytes) : wire bytes :=
  let* _ := write_all (to_be_bytes 2 (as_u16 (len msg))) in
  let* _ := write_all msg in
  let* n := read_u16 in
  let* _ := wensure (12 <=? n) BadFraming in
  let* _ := wensure (n <=? 65535) BadFraming in
  let* buf := read_exact (Z.to_nat n) in
  WRet buf.

(** The same on a QUIC stream, without the lower bound. *)
Definition doq_exchange (msg : bytes) : wire bytes :=
  let* _ := write_all (to_be_bytes 2 (as_u16 (len msg))) in
  let* _ := write_all msg in
  let* resp_len := read_u16 in
  let* _ := wensure (resp_len <=? 65535) BadFraming in
  let* buf := read_exact (Z.to_nat resp_len) in
  WRet buf.

Definition doh_request (host : str) (port : Z) (path : str) (msg : bytes) : bytes :=
  lit "POST " ++ path ++ lit " HTTP/1.1" ++ crlf ++
  lit "Host: " ++ host ++ [58] ++ show_uint port ++ crlf ++
  lit "Content-Type: application/dns-message" ++ crlf ++
  lit "Accept: application/dns-message" ++ crlf ++
  lit "Content-Length: " ++ show_uint (len msg) ++ crlf ++
  lit "Connection: close" ++ crlf ++ crlf ++ msg.

Definition usize_max : Z := 2 ^ 64 - 1.

(** The value of the first [Content-Length] header. *)
Definition doh_content_length (headers_str : str) : option Z :=
  match List.find (fun l => starts_with (lit "content-length:") (to_ascii_lowercase l)) (lines headers_str) with
  | Some l => match split_once 58 l with Some (_, v) => parse_uint usize_max (trim v) | None => None end
  | None => None
  end.

Definition utf8_or_nothing (s : bytes) : str := if utf8_valid s then s else [].

Definition parse_doh_http_response (resp : bytes) : run (result bytes WireError) :=
  match find_str (crlf ++ crlf) resp with
  | None => Ret (Err MalformedRequest)
  | Some n =>
      let header_end := Z.of_nat n in
      let status_line_end := match find_str [13] resp with Some k => Z.of_nat k | None => header_end end in
      s ← slice resp 0 status_line_end;
      if negb (contains (lit "200") (utf8_or_nothing s)) then Ret (Err Wire.Refused)
      else
        let body_start := header_end + 4 in
        h ← slice resp 0 header_end;
        body ←!! (match doh_content_length (utf8_or_nothing h) with
                  | Some l =>
                      if len resp <? as_u64 (body_start + l) then Ret (Err UnexpectedEof)
                      else b ← slice resp body_start (as_u64 (body_start + l)); Ret (Ok b)
                  | None => b ← slice resp body_start (len resp); Ret (Ok b)
                  end);
        if len body =? 0 then Ret (Err UnexpectedEof) else Ret (Ok body)
  end.

(** ** The network *)

Record Net : Type := mkNet {
  (* the datagrams in a socket that is read after sending a message to an address:
     the upstream's own socket, and a new one *)
  shared_inbox : SocketAddr -> bytes -> list (bytes * SocketAddr);
  fresh_inbox : SocketAddr -> bytes -> list (bytes * SocketAddr);
  (* the bytes the peer of a connection sends before it closes *)
  tcp_connect : SocketAddr -> result bytes WireError;
  connect_tcp : str -> str -> Z -> result bytes WireError;
  (* TLS on such a connection: what the peer sends inside, and whether HTTP/2 was agreed on *)
  connect_tls : str -> bytes -> result (bytes * bool) WireError;
  (* HTTP/2 inside: status and the parts of the body *)
  h2_post : str -> Z -> str -> bytes -> result (Z * list (result bytes WireError)) WireError;
  quic_stream : SocketAddr -> str -> result bytes WireError;
  lookup_host : str -> Z -> result (list SocketAddr) WireError
}.

Section Query.
Context (net : Net).

Definition exchange_on (m : wire bytes) (peer : bytes) : result bytes WireError :=
  match (play m peer).1 with Ok (b, _) => Ok b | Err e => Err e end.

Definition tcp_query (addr : SocketAddr) (msg : bytes) : result bytes WireError :=
  peer ←! tcp_connect net addr; exchange_on (tcp_framed_exchange msg) peer.

Definition tcp_query_via_detour (outbound : str) (host : str) (port : Z) (msg : bytes) : result bytes WireError :=
  peer ←! connect_tcp net outbound host port; exchange_on (tcp_framed_exchange msg) peer.

(** The bit that says an answer was cut. *)
Definition truncated (buf : bytes) : bool := (3 <=? len buf) && negb (Z.land (byte_at 2 buf) 0x02 =? 0).

Definition udp_query (addr : SocketAddr) (msg : bytes) : result bytes WireError :=
  match fresh_inbox net addr msg with
  | [] => Err TimedOut
  | (d, _) :: _ =>
      let buf := take 4096 d in
      if truncated buf then tcp_query addr msg else Ok buf
  end.

(** The result, and what stays in the socket. *)
Definition udp_query_with_socket (addr : SocketAddr) (msg : bytes) (inbox : list (bytes * SocketAddr)) :
    result bytes WireError * list (bytes * SocketAddr) :=
  match inbox with
  | [] => (Err TimedOut, [])
  | (d, from) :: inbox =>
      let buf := take 4096 d in
      (if negb (bool_decide (from = addr)) then udp_query addr msg
       else if truncated buf then tcp_query addr msg
       else Ok buf, inbox)
  end.

Definition dot_query (addr : SocketAddr) (sni : str) (msg : bytes) : result bytes WireError :=
  tcp ←! tcp_connect net addr; tls ←! connect_tls net sni tcp; exchange_on (tcp_framed_exchange msg) tls.1.

Definition dot_query_via_detour (outbound : str) (host : str) (port : Z) (sni : str) (msg : bytes) : result bytes WireError :=
  tcp ←! connect_tcp net outbound host port; tls ←! connect_tls net sni tcp; exchange_on (tcp_framed_exchange msg) tls.1.

Definition doq_query (addr : SocketAddr) (sni : str) (msg : bytes) : result bytes WireError :=
  peer ←! quic_stream net addr sni; exchange_on (doq_exchange msg) peer.

(** The whole answer is read, then parsed. *)
Definition doh_h1_query (tls : bytes) : run (result bytes WireError) := parse_doh_http_response tls.

Definition doh_h2_query (host : str) (port : Z) (path : str) (msg : bytes) : result bytes WireError :=
  r ←! h2_post net host port path msg;
  if negb (r.1 =? 200) then Err Wire.Refused
  else chunks ←! map_result (fun c => c) r.2; Ok (concat chunks).

Definition doh_on (tcp : result bytes WireError) (host : str) (port : Z) (path : str) (msg : bytes) : run (result bytes WireError) :=
  match (t ←! tcp; connect_tls net host t) with
  | Err e => Ret (Err e)
  | Ok (plain, h2) => if h2 then Ret (doh_h2_query host port path msg) else doh_h1_query plain
  end.

Definition doh_query_direct (a : IpAddr) (host : str) (port : Z) (path : str) (msg : bytes) : run (result bytes WireError) :=
  doh_on (tcp_connect net {| ip := a; sock_port := port |}) host port path msg.

Definition doh_query_via_detour (outbound : str) (host : str) (port : Z) (path : str) (msg : bytes) : run (result bytes WireError) :=
  doh_on (connect_tcp net outbound host port) host port path msg.

(** ** Asking an upstream *)

(** The address an answer gives, if there is an answer. *)
Definition first_ip (answer : result bytes WireError) (qtype : Z) : run (option IpAddr) :=
  match answer with Ok resp => extract_first_ip resp qtype | Err _ => Ret None end.

(** [DnsUpstream::resolve_host]: the first address a query for [host] is answered with, A before AAAA. *)
Definition upstream_resolve_host (query : Upstream -> bytes -> run (result bytes WireError * Upstream)) (u : Upstream) (host : str) :
    run (result IpAddr WireError * Upstream) :=
  x ← query u (build_query host 1);
  a ← first_ip x.1 1;
  match a return run (result IpAddr WireError * Upstream) with
  | Some a => Ret (Ok a, x.2)
  | None =>
      y ← query x.2 (build_query host 28);
      b ← first_ip y.1 28;
      Ret (ok_or b Wire.ResolveFailed, y.2)
  end.

(** The address of a DoH server, kept once it is known. *)
Definition resolve_or_cached (query : Upstream -> bytes -> run (result bytes WireError * Upstream)) (u : Upstream) (host : str) (port : Z) (path : str)
    (cache : option IpAddr) : run (result IpAddr WireError * Upstream) :=
  match cache with
  | Some a => Ret (Ok a, u)
  | None =>
      x ← (match u_resolver u with
           | Some r => x ← upstream_resolve_host query r host; Ret (x.1, with_resolver u (Some x.2))
           | None =>
               Ret (match lookup_host net host port with
                    | Ok (a :: _) => Ok (ip a)
                    | Ok [] => Err Wire.ResolveFailed
                    | Err e => Err e
                    end, u)
           end);
      match x.1 with
      | Ok a => Ret (Ok a, with_kind x.2 (KDoh host port path (Some a)))
      | Err e => Ret (Err e, x.2)
      end
  end.

(** [fuel]: resolvers of resolvers. *)
Fixpoint query (fuel : nat) (now : Z) (u : Upstream) (msg : bytes) : run (result bytes WireError * Upstream) :=
  match fuel with
  | O => Stuck
  | S fuel =>
      match u_kind u with
      | KRcode action => r ← rcode_reply msg action; Ret (Ok r, u)
      | KFakeIp store => r ← reply store now msg; Ret (Ok r.1, with_kind u (KFakeIp r.2))
      | KUdp addr =>
          Ret (match u_detour u with
               | Some ob => tcp_query_via_detour ob (show_ip (ip addr)) (sock_port addr) msg
               | None => (udp_query_with_socket addr msg (shared_inbox net addr msg)).1
               end, u)
      | KTcp addr =>
          Ret (match u_detour u with
               | Some ob => tcp_query_via_detour ob (show_ip (ip addr)) (sock_port addr) msg
               | None => tcp_query addr msg
               end, u)
      | KDoh host port path resolved_addr =>
          x ← resolve_or_cached (query fuel now) u host port path resolved_addr;
          match x.1 with
          | Err e => Ret (Err e, x.2)
          | Ok a =>
              r ← (match u_detour u with
                   | Some ob => doh_query_via_detour ob host port path msg
                   | None => doh_query_direct a host port path msg
                   end);
              Ret (r, x.2)
          end
      | KDot addr sni =>
          Ret (match u_detour u with
               | Some ob => dot_query_via_detour ob (show_ip (ip addr)) (sock_port addr) sni msg
               | None => dot_query addr sni msg
               end, u)
      | KDoq addr sni => Ret (doq_query addr sni msg, u)
      end
  end.

(** Queries one after the other on an upstream's own socket, each with what arrives while it waits. *)
Fixpoint udp_session (addr : SocketAddr) (inbox : list (bytes * SocketAddr)) (qs : list (bytes * list (bytes * SocketAddr))) : list (result bytes WireError) :=
  match qs with
  | [] => []
  | (msg, arrivals) :: qs =>
      let '(r, inbox) := udp_query_with_socket addr msg (inbox ++ arrivals) in
      r :: udp_session addr inbox qs
  end.
End Query.

(** ** A stream carries one message each way *)

(** What a server does on a stream of framed messages. *)
Definition serve_framed (f : bytes -> bytes) : wire bytes :=
  let* n := read_u16 in
  let* q := read_exact (Z.to_nat n) in
  let* _ := write_all (to_be_bytes 2 (len (f q))) in
  let* _ := write_all (f q) in
  WRet q.

(** The last bytes an end is sent. *)
Ltac to_server_ends := match goal with |- converse ?c ?s ?b ?a = _ => replace (converse c s b a) with (converse c s (b ++ []) a) by (by rewrite app_nil_r) end.
Ltac to_client_ends := match goal with |- converse ?c ?s ?b ?a = _ => replace (converse c s b a) with (converse c s b (a ++ [])) by (by rewrite app_nil_r) end.

(** A query and its answer cross a TCP or TLS stream unchanged. *)
Lemma framed_exchange (f : bytes -> bytes) (msg : bytes) : len msg <= 65535 -> 12 <= len (f msg) <= 65535 ->
  converse (tcp_framed_exchange msg) (serve_framed f) [] [] = mkOutcome (Some (Ok (f msg))) (Some (Ok msg)) [] [].
Proof.
  intros Hm Hf. pose proof (len_nonneg msg). unfold tcp_framed_exchange, serve_framed, read_u16. cbn [write_all read_exact wbind].
  rewrite !converse_cwrite. cbn [app]. unfold as_u16, wrap. rewrite Z.mod_small by lia.
  rewrite (converse_sread _ 2 _ msg (to_be_bytes 2 (len msg))) by apply length_to_be_bytes. cbn [wbind read_exact].
  rewrite from_to_be_bytes_id by (cbn; lia). to_server_ends. rewrite converse_sread by (unfold len; lia).
  rewrite !converse_swrite. cbn [app]. rewrite (converse_cread 2 _ _ _ (to_be_bytes 2 (len (f msg)))) by apply length_to_be_bytes.
  cbn [wbind]. rewrite from_to_be_bytes_id by (cbn; lia). unfold wensure.
  rewrite (proj2 (Z.leb_le 12 _)), (proj2 (Z.leb_le _ 65535)) by lia. cbn [wbind read_exact].
  to_client_ends. rewrite converse_cread by (unfold len; lia). cbn [wbind]. apply converse_done.
Qed.

(** ** The shared socket of a UDP server *)

(** A datagram that is taken as it is. *)
Definition plain (d : bytes) : Prop := len d <= 4096 /\ truncated d = false.

Lemma udp_takes_oldest net addr msg d inbox : plain d ->
  udp_query_with_socket net addr msg ((d, addr) :: inbox) = (Ok d, inbox).
Proof.
  intros [Hl Ht]. cbn [udp_query_with_socket]. unfold len in Hl.
  rewrite firstn_all2, bool_decide_true, Ht by (done || lia). done.
Qed.

(** The queries of an upstream without detour share one socket, and each takes the oldest datagram that waits in it, whatever question that one
    answers: when every query brings one answer and [stale] ones are still in the socket, the [k]-th query is given the [k]-th of
    [stale ++ answers]. So every query gets its own answer when nothing was left over, and once one answer came too late all later
    queries get the answer to an earlier one. *)
Theorem dns_udp_fifo (net : Net) (addr : SocketAddr) (stale : list bytes) (exchanges : list (bytes * bytes)) :
  Forall plain (stale ++ map snd exchanges) ->
  udp_session net addr (map (fun d => (d, addr)) stale) (map (fun x => (x.1, [(x.2, addr)])) exchanges) =
    map Ok (take (length exchanges) (stale ++ map snd exchanges)).
Proof.
  revert stale. induction exchanges as [|[q a] xs IH]; intros stale H; [done|]. cbn [map udp_session length fst snd].
  destruct stale as [|d stale]; cbn [map app] in *; inversion H as [|? ? Hd Hrest]; subst; rewrite udp_takes_oldest by done.
  - cbn [take map]. f_equal. by apply (IH []).
  - cbn [take map]. f_equal. replace (map (fun d => (d, addr)) stale ++ [(a, addr)]) with (map (fun d => (d, addr)) (stale ++ [a]))
      by (by rewrite map_app).
    rewrite IH by (by rewrite <-app_assoc). by rewrite <-app_assoc.
Qed.

(** A network that answers nothing. *)
Definition silent : Net := {|
  shared_inbox _ _ := []; fresh_inbox _ _ := [];
  tcp_connect _ := Err TimedOut; connect_tcp _ _ _ := Err TimedOut; connect_tls _ _ := Err TimedOut;
  h2_post _ _ _ _ := Err TimedOut; quic_stream _ _ := Err TimedOut; lookup_host _ _ := Err TimedOut
|}.

Definition at_53 : SocketAddr := {| ip := V4 0x08080808; sock_port := 53 |}.

Lemma dns_udp_fifo_witness :
  Forall plain ([lit "late"] ++ map snd [(lit "q1", lit "r1"); (lit "q2", lit "r2")]) /\
  udp_session silent at_53 [(lit "late", at_53)] [(lit "q1", [(lit "r1", at_53)]); (lit "q2", [(lit "r2", at_53)])] = [Ok (lit "late"); Ok (lit "r1")].
Proof.
  assert (H : Forall plain ([lit "late"] ++ map snd [(lit "q1", lit "r1"); (lit "q2", lit "r2")])).
  { repeat constructor; vm_compute; done. }
  split; [exact H|]. exact (dns_udp_fifo silent at_53 [lit "late"] [(lit "q1", lit "r1"); (lit "q2", lit "r2")] H).
Defined.

(** A query that times out leaves its answer to the next one. *)
Example late_answer_taken : udp_session silent at_53 [] [(lit "q1", []); (lit "q2", [(lit "r1", at_53); (lit "r2", at_53)])] = [Err TimedOut; Ok (lit "r1")].
Proof. reflexivity. Qed.

(** A datagram from another address makes the query start again on a socket of its own. *)
Lemma foreign_datagram net addr msg d from inbox : from <> addr ->
  udp_query_with_socket net addr msg ((d, from) :: inbox) = (udp_query net addr msg, inbox).
Proof. intros H. cbn [udp_query_with_socket]. by rewrite bool_decide_false. Qed.

(** ** Addresses *)

Lemma read_octet_colon n rest : 0 <= n < 256 -> read_number 10 3 false 255 (show_uint n ++ 58 :: rest) = Some (n, 58 :: rest).
Proof. apply (octet_table (fun n => read_number 10 3 false 255 (show_uint n ++ 58 :: rest)) (fun n => Some (n, 58 :: rest))). vm_compute. reflexivity. Qed.

Lemma read_show_ipv4_port a rest : in_width 32 a -> read_ipv4_addr (show_ipv4 a ++ 58 :: rest) = Some (a, 58 :: rest).
Proof.
  intros Ha. destruct (ipv4_octets a Ha) as [H0 E].
  assert (Hm : forall x, 0 <= x mod 256 < 256) by (intros; by apply Z.mod_pos_bound).
  unfold read_ipv4_addr, show_ipv4. rewrite <-!app_assoc. cbn [app read_octets read_separator].
  do 3 (rewrite read_octet_dot by done; cbn [read_octets read_separator read_char]; rewrite Z.eqb_refl).
  rewrite read_octet_colon by done. do 2 f_equal. lia.
Qed.

Lemma show_ipv4_no c a : in_width 32 a -> c <> 46 -> is_digit c = false -> c ∉ show_ipv4 a.
Proof.
  intros Ha Hc Hd. destruct (ipv4_octets a Ha) as [H0 _].
  assert (Hm : forall x, 0 <= x mod 256) by (intros; by apply Z.mod_pos_bound).
  unfold show_ipv4. rewrite !elem_of_app, !list_elem_of_singleton.
  pose proof (fun n Hn => show_uint_no c n Hn Hd) as Hu. intros Hin.
  destruct Hin as [Hin|[Hin|[Hin|[Hin|[Hin|[Hin|Hin]]]]]]; try done; revert Hin; apply Hu; first [apply Hm | apply H0].
Qed.

(** An IPv4 address without a port is given the default one of its protocol. *)
Lemma parse_addr_v4 a port : in_width 32 a -> port = 53 \/ port = 853 -> parse_addr (show_ip (V4 a)) port = Ok {| ip := V4 a; sock_port := port |}.
Proof.
  intros Ha Hp. cbn [show_ip]. unfold parse_addr.
  assert (H91 : starts_with [91] (show_ipv4 a) = false).
  { pose proof (show_ipv4_no 91 a Ha ltac:(done) eq_refl) as H. destruct (show_ipv4 a) as [|x l]; [done|]. apply not_elem_of_cons in H as [H _].
    cbn [starts_with]. by rewrite (proj2 (Z.eqb_neq 91 x)). }
  assert (H58 : contains_char 58 (show_ipv4 a) = false).
  { apply not_true_iff_false. unfold contains_char. rewrite existsb_exists. intros (x & Hx & E%Z.eqb_eq). subst x.
    by apply (show_ipv4_no 58 a Ha ltac:(done) eq_refl), list_elem_of_In. }
  rewrite H91, H58. cbv zeta. cbn [app]. unfold SocketAddr_from_str, read_socket_addr_v4. rewrite read_show_ipv4_port by done.
  by destruct Hp as [-> | ->].
Qed.

(** A name is no address for TLS and QUIC servers either. *)
Example names_refused : parse_addr (lit "dns.google") 853 = Err MalformedRequest /\ parse_addr (lit "::1") 53 = Err MalformedRequest /\
  parse_addr (lit "[::1]:5353") 53 = Ok {| ip := V6 1; sock_port := 5353 |}.
Proof. vm_compute. done. Qed.

(** The brackets of an IPv6 address stay in the host, which is then no address, and without a port they are refused. *)
Example bracketed_doh_host :
  parse_doh_url (lit "https://[::1]:443/dns-query") = Ok (lit "[::1]", 443, lit "/dns-query") /\ IpAddr_from_str (lit "[::1]") = None /\
  parse_doh_url (lit "https://[::1]/dns-query") = Err MalformedRequest.
Proof. vm_compute. done. Qed.

(** ** The answer of a DoH server *)

Lemma lines_crlf l rest : 10 ∉ l -> lines (l ++ crlf ++ rest) = l :: lines rest.
Proof.
  intros Hl. unfold lines, crlf. replace (l ++ [13; 10] ++ rest) with ((l ++ [13]) ++ 10 :: rest) by (by rewrite <-app_assoc).
  rewrite split_on_sep, split_on_none by (rewrite elem_of_app, list_elem_of_singleton; intros [?|?]; [done|lia]). cbn [app].
  destruct (split_on 10 rest) as [|p ps] eqn:E; [by apply split_on_nonempty in E|]. cbn [lines_pieces].
  unfold strip_cr. rewrite rev_app_distr. cbn [rev app]. by rewrite rev_involutive.
Qed.

Lemma lines_join_crlf ls : Forall (fun l => l <> [] /\ Forall printable l) ls -> lines (join crlf ls) = ls.
Proof.
  assert (Hno : forall l, Forall printable l -> 10 ∉ l).
  { intros l H Hin. rewrite Forall_forall in H. apply H in Hin. unfold printable in Hin. lia. }
  induction 1 as [|l ls [Hl H] Hls IH]; [done|]. destruct ls as [|l' ls].
  - cbn [join]. unfold lines. rewrite split_on_none by (by apply Hno). by destruct l.
  - rewrite join_cons, lines_crlf by (done || by apply Hno). by rewrite IH.
Qed.

Lemma starts_with_key c k r : 58 ∉ c -> 58 ∉ k -> starts_with (c ++ [58]) (k ++ 58 :: r) = bool_decide (k = c).
Proof.
  revert k. induction c as [|x c IH]; intros [|y k] Hc Hk; cbn [app starts_with].
  - done.
  - apply not_elem_of_cons in Hk as [Hk _]. rewrite (proj2 (Z.eqb_neq 58 y)) by done. done.
  - apply not_elem_of_cons in Hc as [Hc _]. rewrite (proj2 (Z.eqb_neq x 58)) by congruence. done.
  - apply not_elem_of_cons in Hc as [_ Hc], Hk as [_ Hk]. rewrite IH by done. destruct (Z.eqb_spec x y) as [->|Hn]; cbn [andb].
    + apply bool_decide_ext. split; congruence.
    + symmetry. apply bool_decide_false. congruence.
Qed.

(** The value of the first header of that name. *)
Definition announced (hs : list (str * str)) : option Z :=
  match List.find (fun h => bool_decide (to_ascii_lowercase h.1 = lit "content-length")) hs with
  | Some h => parse_uint usize_max h.2
  | None => None
  end.

Lemma lower_no_colon s : 58 ∉ s -> 58 ∉ to_ascii_lowercase s.
Proof.
  unfold to_ascii_lowercase. intros Hs Hin. apply list_elem_of_In, in_map_iff in Hin as (b & Hb & Hin). apply Hs, list_elem_of_In.
  unfold ascii_lower, is_ascii_uppercase in Hb. destruct ((65 <=? b) && (b <=? 90)) eqn:E; reflect_bools; [lia|by subst].
Qed.

Lemma find_announced hs : Forall header_ok hs ->
  match List.find (fun l => starts_with (lit "content-length:") (to_ascii_lowercase l)) (map header_line hs) with
  | Some l => match split_once 58 l with Some (_, v) => parse_uint usize_max (trim v) | None => None end
  | None => None
  end = announced hs.
Proof.
  unfold announced. induction 1 as [|h hs Hh _ IH]; [done|]. destruct Hh as ([Hne Hk] & H58 & Hv & Hp). cbn [map List.find].
  assert (E : starts_with (lit "content-length:") (to_ascii_lowercase (header_line h)) = bool_decide (to_ascii_lowercase h.1 = lit "content-length")).
  { unfold header_line, to_ascii_lowercase at 1. rewrite map_app. change (lit ": " ++ h.2) with (58 :: 32 :: h.2). cbn [map].
    change (lit "content-length:") with (lit "content-length" ++ [58]). apply starts_with_key; [|by apply lower_no_colon].
    apply (bool_decide_unpack _). vm_compute. exact I. }
  rewrite E. destruct (bool_decide (to_ascii_lowercase h.1 = lit "content-length")); [|exact IH]. unfold header_line. change (lit ": " ++ h.2) with (58 :: 32 :: h.2).
  by rewrite RouterSpec.split_once_app, trim_space_framed by done.
Qed.

Lemma len_take_some {A} (s : list A) l : 0 <= l <= len s -> len (take (Z.to_nat l) s) = l.
Proof. intros Hl. unfold len in *. rewrite length_take. lia. Qed.

(** What the answer [status], [hs] and [body] is read as. *)
Definition doh_answer (status : str) (hs : list (str * str)) (body : bytes) : run (result bytes WireError) :=
  let head := join crlf (status :: map header_line hs) in
  if negb (contains (lit "200") status) then Ret (Err Wire.Refused)
  else match announced hs with
       | Some l =>
           if l <=? len body then Ret (if l =? 0 then Err UnexpectedEof else Ok (take (Z.to_nat l) body))
           else if len head + 4 + l <? 2 ^ 64 then Ret (Err UnexpectedEof)
           else Panic
       | None => Ret (if len body =? 0 then Err UnexpectedEof else Ok body)
       end.

Lemma join_first_line l ls r : exists t, join crlf (l :: ls) ++ crlf ++ r = l ++ 13 :: t.
Proof. destruct ls as [|l' ls]; [by eexists|]. rewrite join_cons by done. exists (10 :: join crlf (l' :: ls) ++ crlf ++ r). by rewrite <-!app_assoc. Qed.

Lemma slice_prefix {A} (a b : list A) : slice (a ++ b) 0 (len a) = Ret a.
Proof. exact (slice_app_mid [] a b 0 (len a) eq_refl eq_refl). Qed.

Lemma head_announces status hs : starts_with (lit "HTTP/") status = true -> Forall printable status -> Forall header_ok hs ->
  doh_content_length (join crlf (status :: map header_line hs)) = announced hs.
Proof.
  intros Hst Hp Hh. unfold doh_content_length. rewrite lines_join_crlf.
  - rewrite <-find_announced by done. cbn [List.find]. destruct status as [|b status]; [done|].
    cbn [lit starts_with] in Hst. apply andb_true_iff in Hst as [Hb _]. apply Z.eqb_eq in Hb as <-. done.
  - constructor; [split; [by destruct status|done]|]. apply Forall_fmap. eapply Forall_impl; [exact Hh|]. intros h. apply header_line_ok.
Qed.

Lemma announced_bound hs l : announced hs = Some l -> 0 <= l < 2 ^ 64.
Proof. unfold announced, usize_max. destruct (List.find _ hs); [|done]. intros Hl%parse_uint_bound. lia. Qed.

(** The answer of a DoH server over HTTP/1.1 is read as the status line, the headers and the body say: a status line without
    "200" is refused; a body of the announced length is returned and what follows it ignored; a shorter one is an error; without a
    length everything after the head is the body; an empty body is an error.  A length so large that the end of the body passes
    2^64 panics instead, where the sum wraps around. *)
Theorem doh_response_read (status : str) (hs : list (str * str)) (body : bytes) :
  starts_with (lit "HTTP/") status = true -> Forall printable status -> Forall header_ok hs ->
  len (join crlf (status :: map header_line hs)) + 4 + len body < 2 ^ 63 ->
  parse_doh_http_response (join crlf (status :: map header_line hs) ++ crlf ++ crlf ++ body) = doh_answer status hs body.
Proof.
  intros Hst Hp Hh Hlen. set (head := join crlf (status :: map header_line hs)) in *.
  assert (Hl : Forall (fun l => l <> [] /\ Forall printable l) (status :: map header_line hs)).
  { constructor; [split; [by destruct status|done]|]. apply Forall_fmap. eapply Forall_impl; [exact Hh|]. intros h. apply header_line_ok. }
  pose proof (len_nonneg head). pose proof (len_nonneg body).
  assert (Htotal : len (head ++ crlf ++ crlf ++ body) = len head + 4 + len body) by (rewrite !len_app; change (len crlf) with 2; lia).
  unfold parse_doh_http_response, doh_answer.
  assert (Hend : find_str (crlf ++ crlf) (head ++ crlf ++ crlf ++ body) = Some (length head))
    by (apply header_end_join; [done|by eapply Forall_impl; [exact Hl|apply printable_line]]).
  rewrite Hend. cbv zeta. fold head. change (Z.of_nat (length head)) with (len head).
  destruct (join_first_line status (map header_line hs) (crlf ++ body)) as (t & E). fold head in E.
  assert (H13 : 13 ∉ status) by (apply printable_line; by inversion Hl).
  assert (Hs1 : find_str [13] (head ++ crlf ++ crlf ++ body) = Some (length status)).
  { rewrite E, find_str_skip by done. cbn. by rewrite Nat.add_0_r. }
  assert (Hs2 : slice (head ++ crlf ++ crlf ++ body) 0 (len status) = Ret status) by (rewrite E; apply slice_prefix).
  rewrite Hs1. change (Z.of_nat (length status)) with (len status). rewrite Hs2, bind_Ret. unfold utf8_or_nothing at 1.
  rewrite printable_utf8 by done. destruct (negb (contains (lit "200") status)); [done|].
  rewrite slice_prefix, bind_Ret. unfold utf8_or_nothing. unfold head at 1 2. rewrite join_utf8, head_announces by done.
  destruct (announced hs) as [l|] eqn:Ha.
  - apply announced_bound in Ha. rewrite Htotal. unfold as_u64, wrap.
    set (resp := head ++ crlf ++ crlf ++ body) in *. destruct (Z.leb_spec l (len body)) as [Hb|Hb].
    + rewrite Z.mod_small by lia. rewrite (proj2 (Z.ltb_ge _ _)) by lia.
      assert (Hbody : slice resp (len head + 4) (len head + 4 + l) = Ret (take (Z.to_nat l) body)).
      { unfold resp. rewrite <-(take_drop (Z.to_nat l) body) at 1.
        replace (head ++ crlf ++ crlf ++ take (Z.to_nat l) body ++ drop (Z.to_nat l) body)
          with ((head ++ crlf ++ crlf) ++ take (Z.to_nat l) body ++ drop (Z.to_nat l) body) by app_eq.
        apply slice_app_mid; [rewrite !len_app; change (len crlf) with 2; lia|rewrite len_take_some; lia]. }
      rewrite Hbody. unfold try_bind. cbn. rewrite len_take_some by lia. by destruct (l =? 0).
    + destruct (Z.ltb_spec (len head + 4 + l) (2 ^ 64)) as [Hw|Hw].
      * rewrite Z.mod_small by lia. rewrite (proj2 (Z.ltb_lt _ _)) by lia. done.
      * assert (Hm : (len head + 4 + l) mod 2 ^ 64 = len head + 4 + l - 2 ^ 64) by (symmetry; apply (Z.mod_unique _ _ 1); lia).
        rewrite Hm, (proj2 (Z.ltb_ge _ _)) by lia. unfold slice.
        by rewrite (proj2 (Z.leb_gt (len head + 4) _)), andb_false_r by lia.
  - replace (slice (head ++ crlf ++ crlf ++ body) (len head + 4) (len (head ++ crlf ++ crlf ++ body))) with (Ret body).
    + unfold try_bind. cbn. case_if; done.
    + symmetry. rewrite Htotal. replace (head ++ crlf ++ crlf ++ body) with ((head ++ crlf ++ crlf) ++ body ++ []) by (rewrite app_nil_r; app_eq).
      apply slice_app_mid; [rewrite !len_app; change (len crlf) with 2; lia|lia].
Qed.

Lemma doh_response_read_witness :
  starts_with (lit "HTTP/") (lit "HTTP/1.1 200 OK") = true /\ Forall printable (lit "HTTP/1.1 200 OK") /\ Forall header_ok [(lit "Content-Length", lit "2")] /\
  parse_doh_http_response (join crlf [lit "HTTP/1.1 200 OK"; lit "Content-Length: 2"] ++ crlf ++ crlf ++ lit "abc") = Ret (Ok (lit "ab")).
Proof.
  assert (H1 : Forall printable (lit "HTTP/1.1 200 OK")) by literal.
  assert (H2 : Forall header_ok [(lit "Content-Length", lit "2")]).
  { constructor; [|done]. split_and!; [split; [done|literal]|literal|by apply graphic_framed; [|literal]|literal]. }
  split_and!; [done|done|done|].
  pose proof (doh_response_read (lit "HTTP/1.1 200 OK") [(lit "Content-Length", lit "2")] (lit "abc") eq_refl H1 H2 eq_refl) as H.
  etransitivity; [exact H|]. vm_compute. reflexivity.
Defined.

(** The end of the body passes 2^64. *)
Example doh_length_wraps :
  parse_doh_http_response (join crlf [lit "HTTP/1.1 200 OK"; lit "Content-Length: 18446744073709551615"] ++ crlf ++ crlf ++ lit "abc") = Panic.
Proof. vm_compute. reflexivity. Qed.

(** Any "200" of the status line is enough, and a chunked body keeps the marks of its chunks. *)
Example doh_status_anywhere :
  parse_doh_http_response (join crlf [lit "HTTP/1.1 500 over 200 errors"; lit "Transfer-Encoding: chunked"] ++ crlf ++ crlf ++ lit "2" ++ crlf ++ lit "ok" ++ crlf) =
    Ret (Ok (lit "2" ++ crlf ++ lit "ok" ++ crlf)).
Proof. vm_compute. reflexivity. Qed.

(** ** Every query ends *)

(** What [m] may return. *)
Definition yields {A} (P : A -> Prop) (m : run A) : Prop := forall a, m = Ret a -> P a.

Lemma yields_ret {A} (P : A -> Prop) a : P a -> yields P (Ret a).
Proof. by intros H x [= <-]. Qed.

Lemma yields_bind {A B} (Q : A -> Prop) (P : B -> Prop) (m : run A) (f : A -> run B) :
  yields Q m -> (forall a, Q a -> yields P (f a)) -> yields P (m ≫= f).
Proof. intros Hm Hf b (a & Ha & Hb)%bind_Ret_inv. exact (Hf a (Hm a Ha) b Hb). Qed.

Lemma yields_store l i x : bytes_ok l -> is_byte x -> yields bytes_ok (store l i x).
Proof. intros Hl Hx r. unfold store. case_if; [|done]. intros [= <-]. by apply Forall_insert. Qed.

Lemma yields_idx l i : bytes_ok l -> yields is_byte (idx l i).
Proof. intros Hl b. by apply idx_byte. Qed.

Lemma yields_slice l i j : bytes_ok l -> yields bytes_ok (slice l i j).
Proof. intros Hl s. unfold slice. case_if; [|done]. intros [= <-]. by apply Forall_take, Forall_drop. Qed.

Lemma lor_4_byte b : is_byte b -> is_byte (Z.lor b 0x04).
Proof.
  intros Hb. pose proof (octet_table (fun b => (0 <=? Z.lor b 4) && (Z.lor b 4 <? 256)) (fun _ => true) b ltac:(vm_compute; reflexivity) Hb) as H.
  cbv beta in H. reflect_bools. done.
Qed.

Ltac yields_bytes :=
  repeat first
    [ eapply yields_bind; [apply yields_store; [eassumption || (by repeat constructor)|first [done | by apply lor_4_byte]]|intros ? ?]
    | eapply yields_bind; [apply yields_idx; eassumption|intros ? ?]
    | apply yields_store; [eassumption|first [done | by apply lor_4_byte]] ].

Lemma servfail_bytes q : bytes_ok q -> yields bytes_ok (make_servfail q).
Proof.
  intros Hq. unfold make_servfail. cbv zeta. eapply (yields_bind bytes_ok).
  - case_if; [|apply yields_ret; by repeat constructor]. yields_bytes.
  - intros r Hr. yields_bytes.
Qed.

Lemma rcode_reply_bytes q action : bytes_ok q -> yields bytes_ok (rcode_reply q action).
Proof.
  intros Hq. destruct action; cbn [rcode_reply]; unfold make_refused, make_noerror_empty, make_nxdomain;
    (eapply yields_bind; [by apply servfail_bytes|intros ? ?]); yields_bytes.
Qed.

Lemma ip_response_bytes q rtype rdata : bytes_ok q -> bytes_ok rdata -> yields bytes_ok (build_ip_response q rtype rdata).
Proof.
  intros Hq Hd. unfold build_ip_response. case_if; [by apply (rcode_reply_bytes q Success)|].
  eapply yields_bind; [by apply yields_slice|intros i Hi]. eapply yields_bind; [by apply yields_slice|intros s Hs]. apply yields_ret.
  rewrite !bytes_ok_app. split_and!; try done; try apply to_be_bytes_ok; by repeat constructor.
Qed.

Lemma fake_reply_bytes st now q : bytes_ok q -> yields (fun r => bytes_ok r.1) (reply st now q).
Proof.
  intros Hq. pose proof (rcode_reply_bytes q Success Hq) as Hno. pose proof (rcode_reply_bytes q NxDomain Hq) as Hnx. cbn [rcode_reply] in Hno, Hnx.
  assert (Hnoerror : forall st', yields (fun r : bytes * FakeIpStore => bytes_ok r.1) (r ← make_noerror_empty q; Ret (r, st')))
    by (intros st'; eapply yields_bind; [exact Hno|intros; by apply yields_ret]).
  unfold reply. eapply (yields_bind (fun _ => True)); [done|intros [t|] _; [|apply Hnoerror]]. case_if; [apply Hnoerror|].
  eapply (yields_bind (fun _ => True)); [done|intros [n|] _; [|apply Hnoerror]].
  case_if; [eapply yields_bind; [exact Hnx|intros; by apply yields_ret]|].
  case_if; (case_if; [apply Hnoerror|]); case_match; (eapply (yields_bind bytes_ok); [|intros; by apply yields_ret]);
    case_match; try exact Hno; apply ip_response_bytes; done || apply to_be_bytes_ok.
Qed.

Definition good (r : result bytes WireError) : Prop := forall b, r = Ok b -> bytes_ok b.

(** The network carries bytes. *)
Record net_ok (net : Net) : Prop := {
  shared_ok a m : Forall (fun d => bytes_ok d.1) (shared_inbox net a m);
  fresh_ok a m : Forall (fun d => bytes_ok d.1) (fresh_inbox net a m);
  tcp_ok a : good (tcp_connect net a);
  outbound_ok ob h p : good (connect_tcp net ob h p);
  tls_ok sni b r : connect_tls net sni b = Ok r -> bytes_ok r.1;
  h2_ok h p path m r : h2_post net h p path m = Ok r -> Forall good r.2;
  quic_ok a sni : good (quic_stream net a sni)
}.

Lemma good_bind {A} (m : result A WireError) f : (forall a, m = Ok a -> good (f a)) -> good (result_bind m f).
Proof. intros H b. destruct m as [a|e]; [|done]. apply H. done. Qed.

Lemma exchange_good m peer : (exists msg, m = tcp_framed_exchange msg \/ m = doq_exchange msg) -> bytes_ok peer -> good (exchange_on m peer).
Proof.
  intros (msg & Hm) Hp b Hb. assert (Hsub : exists n k, b = take n (drop k peer)).
  { destruct Hm as [-> | ->]; unfold exchange_on, tcp_framed_exchange, doq_exchange, read_u16, wensure in Hb; cbn in Hb; repeat (case_match; cbn in *; simplify_eq); eauto. }
  destruct Hsub as (n & k & ->). by apply Forall_take, Forall_drop.
Qed.

(** Its store and the resolvers behind it are well formed. *)
Fixpoint upstream_ok (u : Upstream) : Prop :=
  let 'mkUpstream _ kind _ resolver := u in
  match kind with KFakeIp st => store_ok st | KDoh host _ _ _ => bytes_ok host | _ => True end /\
  match resolver with Some r => upstream_ok r | None => True end.

(** How many upstreams a query may go through. *)
Fixpoint depth (u : Upstream) : nat :=
  let 'mkUpstream _ _ _ resolver := u in S (match resolver with Some r => depth r | None => O end).

Definition is_doh (u : Upstream) : Prop := match u_kind u with KDoh _ _ _ _ => True | _ => False end.

Fixpoint asks_doh (u : Upstream) : Prop :=
  is_doh u \/ (let 'mkUpstream _ _ _ resolver := u in match resolver with Some r => asks_doh r | None => False end).

Section Ends.
Context (net : Net) (Hnet : net_ok net).

Lemma tcp_query_good addr msg : good (tcp_query net addr msg).
Proof. apply good_bind. intros p Hp. apply exchange_good; [eauto|by eapply tcp_ok]. Qed.

Lemma tcp_detour_good ob h p msg : good (tcp_query_via_detour net ob h p msg).
Proof. apply good_bind. intros s Hs. apply exchange_good; [eauto|by eapply outbound_ok]. Qed.

Lemma udp_query_good addr msg : good (udp_query net addr msg).
Proof.
  unfold udp_query. pose proof (fresh_ok net Hnet addr msg) as H. destruct (fresh_inbox net addr msg) as [|[d a] ds]; [done|].
  case_if; [apply tcp_query_good|]. intros b [= <-]. apply Forall_take. by inversion H.
Qed.

Lemma udp_socket_good addr msg inbox : Forall (fun d => bytes_ok d.1) inbox -> good (udp_query_with_socket net addr msg inbox).1.
Proof.
  intros H. destruct inbox as [|[d a] ds]; cbn [udp_query_with_socket fst]; [done|]. case_if; [apply udp_query_good|].
  case_if; [apply tcp_query_good|]. intros b [= <-]. apply Forall_take. by inversion H.
Qed.

Lemma dot_query_good addr sni msg : good (dot_query net addr sni msg).
Proof. apply good_bind. intros p Hp. apply good_bind. intros t Ht. apply exchange_good; [eauto|by eapply tls_ok]. Qed.

Lemma dot_detour_good ob h p sni msg : good (dot_query_via_detour net ob h p sni msg).
Proof. apply good_bind. intros s Hs. apply good_bind. intros t Ht. apply exchange_good; [eauto|by eapply tls_ok]. Qed.

Lemma doq_query_good addr sni msg : good (doq_query net addr sni msg).
Proof. apply good_bind. intros p Hp. apply exchange_good; [eauto|by eapply quic_ok]. Qed.

(** An answer, unless the length of an HTTP/1.1 body wraps. *)
Definition doh_ends (m : run (result bytes WireError)) : Prop := (exists r, m = Ret r /\ good r) \/ m = Panic.

Lemma slice_bind_ends l i j f : bytes_ok l -> (forall s, bytes_ok s -> doh_ends (f s)) -> doh_ends (slice l i j ≫= f).
Proof.
  intros Hl Hf. destruct (slice l i j) as [s| |] eqn:E; [|by right|unfold slice in E; by case_match].
  rewrite bind_Ret. by apply Hf, (yields_slice l i j).
Qed.

Lemma err_ends e : doh_ends (Ret (Err e)).
Proof. left. by eexists. Qed.

Lemma parse_doh_ends resp : bytes_ok resp -> doh_ends (parse_doh_http_response resp).
Proof.
  intros Hr. assert (Hbody : forall s, bytes_ok s -> doh_ends (if len s =? 0 then Ret (Err UnexpectedEof) else Ret (Ok s))).
  { intros s Hs. case_if; [apply err_ends|]. left. eexists. split; [done|]. by intros b [= <-]. }
  unfold parse_doh_http_response. destruct (find_str _ resp) as [n|]; [|apply err_ends]. cbv zeta.
  apply slice_bind_ends; [done|intros s _]. case_if; [apply err_ends|]. apply slice_bind_ends; [done|intros h _].
  assert (Hs : forall i j, doh_ends (body ←!! b ← slice resp i j; Ret (Ok b); if len body =? 0 then Ret (Err UnexpectedEof) else Ret (Ok body))).
  { intros i j. unfold try_bind. destruct (slice resp i j) as [b| |] eqn:E; [|by right|unfold slice in E; by case_match].
    rewrite !bind_Ret. by apply Hbody, (yields_slice resp i j). }
  destruct (doh_content_length _) as [l|]; [|apply Hs]. case_if; [apply err_ends|apply Hs].
Qed.

Lemma h2_good h p path m : good (doh_h2_query net h p path m).
Proof.
  apply good_bind. intros r Hr%(h2_ok net Hnet). case_if; [done|].
  enough (H : forall cs, map_result (fun c => c) r.2 = Ok cs -> Forall bytes_ok cs).
  { apply good_bind. intros cs Hcs b [= <-]. apply H in Hcs. induction Hcs as [|c cs Hc _ IH]; [constructor|]. cbn [concat]. by apply bytes_ok_app. }
  induction Hr as [|c l Hc _ IH]; intros cs; cbn [map_result]; [intros [= <-]; constructor|]. destruct c as [c|e]; [|done]. cbn [result_bind].
  destruct (map_result _ l) as [bs|e]; [|done]. intros [= <-]. constructor; [by apply Hc|by apply IH].
Qed.

Lemma doh_on_ends tcp host port path msg : doh_ends (doh_on net tcp host port path msg).
Proof.
  unfold doh_on. destruct (result_bind tcp _) as [[plain h2]|e] eqn:E; [|left; by eexists].
  destruct tcp as [t|]; [|done]. cbn in E. apply (tls_ok net Hnet) in E. destruct h2; [|by apply parse_doh_ends].
  left. eexists. split; [done|]. apply h2_good.
Qed.

(** The upstream after a query: as deep as before, and as safe. *)
Definition kept (u u' : Upstream) : Prop := upstream_ok u' /\ depth u' = depth u /\ (asks_doh u' -> asks_doh u).

Definition settles (u : Upstream) (m : run (result bytes WireError * Upstream)) : Prop :=
  match m with Ret (r, u') => good r /\ kept u u' | Panic => asks_doh u | Stuck => False end.

Lemma kept_refl u : upstream_ok u -> kept u u.
Proof. done. Qed.

Lemma kept_trans u v w : kept u v -> kept v w -> kept u w.
Proof. intros (_ & D1 & P1) (O2 & D2 & P2). split_and!; [done|congruence|auto]. Qed.

(** The address found, with the upstream that was asked. *)
Definition resolves (u : Upstream) (m : run (result IpAddr WireError * Upstream)) : Prop :=
  match m with Ret (_, u') => kept u u' | Panic => asks_doh u | Stuck => False end.

Lemma first_ip_returns r qtype : good r -> returns (first_ip r qtype).
Proof. intros Hr. destruct r as [b|e]; [|by eexists]. by destruct (dns_wire_returns b b qtype (Hr b eq_refl)) as (_ & _ & _ & _ & _ & H & _). Qed.

Lemma build_query_bytes name qtype : bytes_ok name -> bytes_ok (build_query name qtype).
Proof.
  intros Hn. unfold build_query. rewrite !bytes_ok_app. split_and!; try apply to_be_bytes_ok; try by repeat constructor.
  assert (H : Forall bytes_ok (split_on 46 name)).
  { induction Hn as [|b s Hb _ IH]; cbn [split_on]; [repeat constructor|]. case_if; [by constructor; [constructor|]|].
    inversion IH as [|w ws Hw Hws]; subst; (constructor; [constructor; [done|first [done | constructor]]|first [done | constructor]]). }
  unfold encode_labels. induction H as [|l ls Hl _ IH]; [constructor|]. cbn [flat_map]. apply bytes_ok_app. split; [|done].
  case_if; [constructor|]. constructor; [|done]. unfold is_byte, as_u8, wrap. apply Z.mod_pos_bound. lia.
Qed.

Lemma resolve_host_ends fuel (q : Upstream -> bytes -> run (result bytes WireError * Upstream)) u host :
  (forall u msg, upstream_ok u -> (depth u <= fuel)%nat -> bytes_ok msg -> settles u (q u msg)) ->
  upstream_ok u -> (depth u <= fuel)%nat -> bytes_ok host -> resolves u (upstream_resolve_host q u host).
Proof.
  intros Hq Hu Hd Hh. unfold upstream_resolve_host.
  pose proof (Hq u (build_query host 1) Hu Hd (build_query_bytes _ _ Hh)) as H1.
  destruct (q u (build_query host 1)) as [[r u1]| |]; [|done..]. destruct H1 as [Hr K1]. rewrite bind_Ret. cbn [fst snd].
  destruct (first_ip_returns r 1 Hr) as [a ->]. rewrite bind_Ret. destruct a as [a|]; [exact K1|].
  destruct K1 as (O1 & D1 & P1).
  pose proof (Hq u1 (build_query host 28) O1 ltac:(lia) (build_query_bytes _ _ Hh)) as H2.
  destruct (q u1 (build_query host 28)) as [[r2 u2]| |]; [|cbn in *; by apply P1|done]. destruct H2 as [Hr2 K2]. rewrite bind_Ret. cbn [fst snd].
  destruct (first_ip_returns r2 28 Hr2) as [b ->]. rewrite bind_Ret. cbn. by apply (kept_trans u u1 u2).
Qed.

Lemma resolve_or_cached_ends fuel q u host port path cache : u_kind u = KDoh host port path cache ->
  (forall u msg, upstream_ok u -> (depth u <= fuel)%nat -> bytes_ok msg -> settles u (q u msg)) ->
  upstream_ok u -> (depth u <= S fuel)%nat -> resolves u (resolve_or_cached net q u host port path cache).
Proof.
  destruct u as [tag kind det res]. cbn. intros -> Hq [Hh Hres] Hd. unfold resolve_or_cached. destruct cache as [a|]; [done|]. cbn [u_resolver].
  destruct res as [r|].
  - pose proof (resolve_host_ends fuel q r host Hq Hres ltac:(lia) Hh) as H.
    destruct (upstream_resolve_host q r host) as [[a r']| |]; [|by left|done]. destruct H as (O & D & P). rewrite !bind_Ret. cbn [fst snd].
    destruct a; (split; [done|split; [cbn; by rewrite D|intros _; by left]]).
  - rewrite bind_Ret. cbn [fst snd]. destruct (lookup_host net host port) as [[|a l]|e]; (split; [done|split; [done|intros _; by left]]).
Qed.

End Ends.

