(* ===== verification/Reality.v ===== *)
(** * Reality: the client of REALITY, [src/outbound/reality.rs].

    The ClientHello that carries the sealed session id, byte by byte, and the
    stream that sends it in place of the one the TLS library writes first. *)

From S2P Require Import Prelude RustStr Extern Inbound Sniff.
#[local] Open Scope reflex_scope.

Inductive RealityError : Type :=
  | BadHex
  | BadBase64
  | KeyLength
  | ShortIdLength
  | SealFailed.

(** [RealityDialConfig] of config/outbound.rs. *)
Record RealityDialConfig : Type := mkReality {
  r_public_key : str;
  r_short_id : str;
  r_server_name : option str;
  r_server : str;
  r_alpn : list str;
  r_fingerprint : str
}.

(** ** The record *)

Definition be2 (n : Z) : bytes := to_be_bytes 2 (as_u16 n).

Definition wrap_tls_record (content_type : Z) (payload : bytes) : bytes :=
  [content_type] ++ to_be_bytes 2 0x0301 ++ be2 (len payload) ++ payload.

Definition wrap_handshake (body : bytes) : bytes :=
  let n := as_u32 (len body) in
  [0x01] ++ [as_u8 (Z.shiftr n 16); as_u8 (Z.shiftr n 8); as_u8 n] ++ body.

Definition ext_raw (typ : Z) (data : bytes) : bytes := to_be_bytes 2 typ ++ be2 (len data) ++ data.

Definition ext_sni (sni : str) : bytes :=
  match sni with
  | [] => []
  | _ => ext_raw 0x0000 (be2 (1 + 2 + len sni) ++ [0x00] ++ be2 (len sni) ++ sni)
  end.

(** [n.to_be_bytes()] of each. *)
Definition u16s (ns : list Z) : bytes := flat_map (to_be_bytes 2) ns.

Definition ext_supported_groups : bytes := ext_raw 0x000a (be2 (3 * 2) ++ u16s [0x001d; 0x0017; 0x0018]).

Definition alpn_protos (alpn : list str) : list bytes :=
  match alpn with [] => [lit "h2"; lit "http/1.1"] | _ => alpn end.

Definition ext_alpn_ext (alpn : list str) : bytes :=
  let protos := alpn_protos alpn in
  let inner := fold_left (fun n p => n + (1 + len p)) protos 0 in
  ext_raw 0x0010 (be2 inner ++ flat_map (fun p => as_u8 (len p) :: p) protos).

Definition SIG_ALGS : list Z :=
  [0x0403; 0x0503; 0x0603; 0x0807; 0x0808; 0x0809; 0x080a; 0x080b; 0x0804; 0x0805; 0x0806; 0x0401; 0x0501; 0x0601].

Definition ext_sig_algs : bytes := ext_raw 0x000d (be2 (14 * 2) ++ u16s SIG_ALGS).

Definition ext_key_share (pub_key : bytes) : bytes :=
  ext_raw 0x0033 (be2 (2 + 2 + 32) ++ to_be_bytes 2 0x001d ++ to_be_bytes 2 32 ++ pub_key).

Definition CIPHER_SUITES : list Z :=
  [0x1301; 0x1302; 0x1303; 0xc02b; 0xc02f; 0xc02c; 0xc030; 0xcca9; 0xcca8; 0x009c; 0x009d; 0x002f; 0x0035].

Definition hello_exts (sni : str) (x25519_pub : bytes) (alpn : list str) : bytes :=
  ext_sni sni ++ ext_raw 0x0017 [] ++ ext_raw 0xff01 [0x00] ++ ext_supported_groups ++ ext_raw 0x000b [0x01; 0x00] ++ ext_raw 0x0023 [] ++
  ext_alpn_ext alpn ++ ext_raw 0x0005 [0x01; 0x00; 0x00; 0x00; 0x00] ++ ext_sig_algs ++ ext_raw 0x0012 [] ++ ext_key_share x25519_pub ++
  ext_raw 0x002d [0x01; 0x01] ++ ext_raw 0x002b [0x02; 0x03; 0x04] ++ ext_raw 0x001b [0x02; 0x00; 0x02].

Definition build_client_hello_body (random session_id : bytes) (sni : str) (x25519_pub : bytes) (alpn : list str) : bytes :=
  let exts := hello_exts sni x25519_pub alpn in
  to_be_bytes 2 0x0303 ++ random ++ [32] ++ session_id ++ be2 (13 * 2) ++ u16s CIPHER_SUITES ++ [1] ++ [0] ++ be2 (len exts) ++ exts.

(** [ts] is the clock in seconds, [padding] sixteen random bytes. *)
Definition build_plain_session_id (short_id : bytes) (ts : Z) (padding : bytes) : bytes :=
  let l := Nat.min (length short_id) 8 in
  [1; 8; 11; 0] ++ to_be_bytes 4 (as_u32 ts) ++ take l short_id ++ repeat 0 (8 - l) ++ padding.

(** ** Keys and the handshake *)

Section Handshake.
(** x25519: the public key of a secret and the secret shared with a public key; HKDF-SHA256 of salt, key, label and length; AES-128-GCM
    of key, nonce, associated data and plaintext, with the tag at the end; the decoders of hex and Base64. *)
Context (x25519_public : bytes -> bytes) (diffie_hellman : bytes -> bytes -> bytes)
  (hkdf_sha256 : bytes -> bytes -> bytes -> nat -> bytes) (aes_gcm_encrypt : bytes -> bytes -> bytes -> bytes -> option bytes)
  (hex_decode base64_url_no_pad base64_standard : str -> option bytes).

Definition decode_x25519_pubkey (s : str) : result bytes RealityError :=
  let s := trim s in
  bytes ←! (if (len s =? 64) && forallb is_hexdigit s then ok_or (hex_decode s) BadHex
            else ok_or (match base64_url_no_pad s with Some b => Some b | None => base64_standard s end) BadBase64);
  if len bytes =? 32 then Ok bytes else Err KeyLength.

Definition decode_short_id (s : str) : result bytes RealityError :=
  match s with
  | [] => Ok []
  | _ => if (len s mod 2 =? 0) && (len s <=? 16) then ok_or (hex_decode s) BadHex else Err ShortIdLength
  end.

(** What is sent in the place of the ClientHello; [secret] and [ch_random] are random too. *)
Definition reality_hello (config : RealityDialConfig) (secret ch_random padding : bytes) (ts : Z) : run (result bytes RealityError) :=
  let ephemeral_pub := x25519_public secret in
  server_pub ←!! Ret (decode_x25519_pubkey (r_public_key config));
  let shared := diffie_hellman secret server_pub in
  short_id ←!! Ret (decode_short_id (r_short_id config));
  let plain_session_id := build_plain_session_id short_id ts padding in
  let auth_key := hkdf_sha256 (take 20 ch_random) shared (lit "REALITY") 16 in
  let sni := default (r_server config) (r_server_name config) in
  let aad := wrap_handshake (build_client_hello_body ch_random plain_session_id sni ephemeral_pub (r_alpn config)) in
  encrypted ←!! Ret (ok_or (aes_gcm_encrypt auth_key (drop 20 ch_random) aad plain_session_id) SealFailed);
  enc_session_id ← slice encrypted 0 32;
  Ret (Ok (wrap_tls_record 0x16 (wrap_handshake (build_client_hello_body ch_random enc_session_id sni ephemeral_pub (r_alpn config))))).
End Handshake.

(** ** The stream that sends it *)

(** What the socket does with a write: [WrReady n] takes at most [n] bytes. *)
Inductive write_event : Type := WrPending | WrReady (n : nat) | WrError.
Inductive write_poll : Type := WpPending | WpOk (n : Z) | WpErr.

Definition socket_write (ev : write_event) (data sent : bytes) : write_poll * bytes :=
  match ev with
  | WrPending => (WpPending, sent)
  | WrReady n => (WpOk (len (take n data)), sent ++ take n data)
  | WrError => (WpErr, sent)
  end.

(** [inner] is what was written to the socket. *)
Record PrependedTcpStream : Type := mkPrepended { pt_inner : bytes; pt_hello : option bytes }.

Definition PrependedTcpStream_new (inner hello : bytes) : PrependedTcpStream := mkPrepended inner (Some hello).

Definition prepended_write (s : PrependedTcpStream) (ev : write_event) (data : bytes) : write_poll * PrependedTcpStream :=
  match pt_hello s with
  | Some hello =>
      match socket_write ev hello (pt_inner s) with
      | (WpOk _, sent) => (WpOk (len data), mkPrepended sent None)
      | (WpErr, sent) => (WpErr, mkPrepended sent None)
      | (WpPending, sent) => (WpPending, mkPrepended sent (Some hello))
      end
  | None => let '(r, sent) := socket_write ev data (pt_inner s) in (r, mkPrepended sent None)
  end.

(** ** The record is a ClientHello *)

Definition reality_exts (sni : str) (pub : bytes) (alpn : list str) : list tls_ext :=
  (match sni with [] => [] | _ => [ESni sni] end) ++
  [EOther 0x17 []; EOther 0xff01 [0]; EOther 0x0a ([0; 6] ++ u16s [0x1d; 0x17; 0x18]); EOther 0x0b [1; 0]; EOther 0x23 [];
   EAlpn (alpn_protos alpn); EOther 5 [1; 0; 0; 0; 0]; EOther 0x0d ([0; 28] ++ u16s SIG_ALGS); EOther 0x12 [];
   EOther 0x33 ([0; 36; 0; 0x1d; 0; 32] ++ pub); EOther 0x2d [1; 1]; EOther 0x2b [2; 3; 4]; EOther 0x1b [2; 0; 2]].

(** Names that fit the length fields. *)
Definition alpn_size (alpn : list str) : Z := len (enc_protos (alpn_protos alpn)).
Definition names_fit (sni : str) (alpn : list str) : Prop :=
  len sni + alpn_size alpn < 65000 /\ Forall (fun p => len p < 256) alpn /\ utf8_valid sni = true.

Lemma be2_small n : 0 <= n < 65536 -> be2 n = to_be_bytes 2 n.
Proof. intros Hn. unfold be2, as_u16, wrap. by rewrite Z.mod_small. Qed.

Lemma len_u16 n : len (be2 n) = 2.
Proof. apply len_be2. Qed.

Lemma alpn_total ps n : fold_left (fun n p => n + (1 + len p)) ps n = n + len (enc_protos ps).
Proof.
  revert n. induction ps as [|p ps IH]; intros n; [change (n = n + 0); lia|]. cbn [fold_left]. rewrite IH. change (enc_protos (p :: ps)) with ((len p :: p) ++ enc_protos ps).
  rewrite len_app, len_cons.
  lia.
Qed.

Lemma alpn_encoded ps : Forall (fun p => len p < 256) ps -> flat_map (fun p => as_u8 (len p) :: p) ps = enc_protos ps.
Proof.
  induction 1 as [|p ps Hp _ IH]; [done|]. cbn [flat_map]. unfold enc_protos in *. cbn [flat_map]. rewrite <-IH. unfold as_u8, wrap.
  pose proof (len_nonneg p). by rewrite Z.mod_small.
Qed.

Lemma alpn_protos_fit alpn : Forall (fun p => len p < 256) alpn -> Forall (fun p => len p < 256) (alpn_protos alpn).
Proof. destruct alpn; [|done]. intros _. by repeat constructor. Qed.

Lemma hello_exts_encode sni pub alpn : names_fit sni alpn -> len pub = 32 -> hello_exts sni pub alpn = enc_exts (reality_exts sni pub alpn).
Proof.
  intros (Hs & Ha & _) Hp. pose proof (len_nonneg sni). pose proof (len_nonneg (enc_protos (alpn_protos alpn))). unfold alpn_size in Hs.
  assert (Esni : ext_sni sni = enc_exts (match sni with [] => [] | _ => [ESni sni] end)).
  { destruct sni as [|b sni]; [done|]. unfold ext_sni, enc_exts, enc_ext, ext_raw. cbn [flat_map ext_type ext_data].
    rewrite !be2_small by (rewrite ?len_app, ?len_u16, ?len_be2; hello_len). rewrite app_nil_r. replace (1 + 2 + len (b :: sni)) with (len (b :: sni) + 3) by lia. done. }
  assert (Ealpn : ext_alpn_ext alpn = enc_ext (EAlpn (alpn_protos alpn))).
  { unfold ext_alpn_ext, enc_ext, ext_raw. cbn [ext_type ext_data]. rewrite alpn_total, alpn_encoded by (by apply alpn_protos_fit).
    rewrite !be2_small by (rewrite ?len_app, ?len_u16, ?len_be2; hello_len). done. }
  assert (Eks : ext_key_share pub = enc_ext (EOther 0x33 ([0; 36; 0; 0x1d; 0; 32] ++ pub))).
  { unfold ext_key_share, enc_ext, ext_raw. cbn [ext_type ext_data]. change (be2 (2 + 2 + 32) ++ to_be_bytes 2 0x001d ++ to_be_bytes 2 32 ++ pub) with ([0; 36; 0; 0x1d; 0; 32] ++ pub).
    by rewrite be2_small by (rewrite len_app, Hp; done). }
  unfold hello_exts, reality_exts. rewrite Esni, Ealpn, Eks. unfold enc_exts. rewrite flat_map_app. f_equal.
Qed.

Lemma len_u16s ns : len (u16s ns) = 2 * len ns.
Proof. induction ns as [|n ns IH]; [done|]. unfold u16s in *. cbn [flat_map]. rewrite len_app, len_be2, IH, len_cons. lia. Qed.

Lemma hello_exts_length sni pub alpn : names_fit sni alpn -> len pub = 32 -> 0 <= len (hello_exts sni pub alpn) < 65400.
Proof.
  intros Hf Hp. split; [apply len_nonneg|]. rewrite hello_exts_encode by done. destruct Hf as (Hs & _ & _). unfold alpn_size in Hs.
  assert (E : len (enc_exts (match sni with [] => [] | _ => [ESni sni] end)) <= 9 + len sni).
  { destruct sni as [|b r]; [done|]. set (n := b :: r). unfold enc_exts. cbn [flat_map ext_data]. rewrite app_nil_r. unfold enc_ext. cbn [ext_data ext_type]. hello_len. }
  unfold reality_exts, enc_exts. rewrite flat_map_app, len_app. fold (enc_exts (match sni with [] => [] | _ => [ESni sni] end)).
  cbn [flat_map]. rewrite !len_app. unfold enc_ext at 6 10. cbn [ext_data ext_type]. rewrite !len_app, !len_be2, Hp.
  repeat match goal with |- context [len (enc_ext ?e)] => let v := eval vm_compute in (len (enc_ext e)) in change (len (enc_ext e)) with v end.
  change (len [0; 36; 0; 29; 0; 32]) with 6. change (len []) with 0. lia.
Qed.

Lemma handshake_length n : 0 <= n < 65536 -> [as_u8 (Z.shiftr (as_u32 n) 16); as_u8 (Z.shiftr (as_u32 n) 8); as_u8 (as_u32 n)] = to_be_bytes 3 n.
Proof.
  intros Hn. unfold as_u32, as_u8, wrap. rewrite (Z.mod_small n) by lia. rewrite !Z.shiftr_div_pow2 by lia.
  unfold to_be_bytes. cbn [to_le_bytes rev app]. rewrite Z.div_div by lia. done.
Qed.

(** The record as the detector reads it. *)
Definition reality_client_hello (random sid : bytes) (sni : str) (pub : bytes) (alpn : list str) : bytes :=
  let n := len (hello_exts sni pub alpn) + 99 in
  client_hello [1] (to_be_bytes 2 (n + 4)) (to_be_bytes 3 n) [3; 3] random sid (u16s CIPHER_SUITES) [0] [] (reality_exts sni pub alpn).

Lemma record_client_hello random sid sni pub alpn : names_fit sni alpn -> len random = 32 -> len sid = 32 -> len pub = 32 ->
  wrap_tls_record 0x16 (wrap_handshake (build_client_hello_body random sid sni pub alpn)) = reality_client_hello random sid sni pub alpn.
Proof.
  intros Hf Hr Hs Hp. pose proof (hello_exts_length sni pub alpn Hf Hp) as Hl. unfold reality_client_hello. cbv zeta.
  set (exts := hello_exts sni pub alpn) in *.
  assert (Hbody : len (build_client_hello_body random sid sni pub alpn) = len exts + 99).
  { unfold build_client_hello_body. cbv zeta. fold exts. rewrite !len_app, !len_u16, !len_be2, len_u16s, Hr, Hs.
    change (len CIPHER_SUITES) with 13. rewrite !len_sing. lia. }
  assert (Hhs : len (wrap_handshake (build_client_hello_body random sid sni pub alpn)) = len exts + 103).
  { unfold wrap_handshake. cbv zeta. rewrite !len_app, Hbody. unfold len at 1 2. cbn [length]. lia. }
  unfold wrap_tls_record. rewrite Hhs, be2_small by lia. unfold wrap_handshake. cbv zeta. rewrite Hbody, handshake_length by lia.
  unfold build_client_hello_body, client_hello. cbv zeta. fold exts. rewrite <-(hello_exts_encode sni pub alpn) by done. fold exts.
  rewrite (be2_small (len exts)) by lia. rewrite len_u16s, Hs. replace (len exts + 99 + 4) with (len exts + 103) by lia.
  rewrite app_nil_r. rewrite <-!app_assoc. done.
Qed.

Lemma reality_view sni pub alpn :
  (let '(host, is_h2) := hello_view (None, false) (reality_exts sni pub alpn) in
   match host with Some h => Some (mkSniff (Some h) (if is_h2 : bool then lit "h2" else lit "tls")) | None => None end) =
  match sni with
  | [] => None
  | _ => Some (mkSniff (Some sni) (if bool_decide (lit "h2" ∈ alpn_protos alpn) then lit "h2" else lit "tls"))
  end.
Proof.
  unfold reality_exts. destruct sni as [|b sni]; cbn [app hello_view ext_effect fst snd orb].
  - rewrite !bool_decide_false by (intros [? ?]; done). cbn [andb]. by destruct (bool_decide (lit "h2" ∈ alpn_protos alpn)).
  - rewrite !(bool_decide_true (is_Some _)) by eauto. cbn [andb]. by destruct (bool_decide (lit "h2" ∈ alpn_protos alpn)).
Qed.

Lemma reality_exts_ok sni pub alpn : names_fit sni alpn -> len pub = 32 -> Forall ext_ok (reality_exts sni pub alpn).
Proof.
  intros (Hs & Ha & Hu) Hp. unfold alpn_size in Hs. pose proof (len_nonneg sni). pose proof (len_nonneg (enc_protos (alpn_protos alpn))).
  unfold reality_exts. apply Forall_app. split.
  - destruct sni as [|b sni]; [done|]. constructor; [|done]. split; [|done]. cbn [ext_data]. set (n := b :: sni) in *. hello_len.
  - repeat (apply Forall_cons; split); try (split; [vm_compute; done|cbn; lia]); [| |done].
    + split; [cbn [ext_data]; hello_len|by apply alpn_protos_fit].
    + split; [cbn [ext_data]; rewrite len_app, Hp; vm_compute; done|cbn; lia].
Qed.

(** ** What a server recovers *)

(** The server's view of the libraries: x25519 agrees on both sides, and AES-GCM encrypts by adding a key stream and appends a tag of
    16 bytes. *)
Record libraries_ok (x25519_public : bytes -> bytes) (diffie_hellman : bytes -> bytes -> bytes)
    (aes_gcm_encrypt : bytes -> bytes -> bytes -> bytes -> option bytes) (key_stream : bytes -> bytes -> nat -> bytes) : Prop := {
  public_length a : len (x25519_public a) = 32;
  dh_agrees a b : diffie_hellman a (x25519_public b) = diffie_hellman b (x25519_public a);
  stream_length k n m : length (key_stream k n m) = m;
  gcm_stream k n aad m : exists tag, len tag = 16 /\ aes_gcm_encrypt k n aad m = Some (zip_with Z.lxor m (key_stream k n (length m)) ++ tag)
}.

Lemma lxor_twice (m k : bytes) : (length m <= length k)%nat -> zip_with Z.lxor (zip_with Z.lxor m k) k = m.
Proof.
  revert k. induction m as [|x m IH]; intros [|y k] Hl; cbn in *; try done; [lia|].
  by rewrite Z.lxor_assoc, Z.lxor_nilpotent, Z.lxor_0_r, IH by lia.
Qed.

Lemma plain_session_id_length short ts padding : len padding = 16 -> len (build_plain_session_id short ts padding) = 32.
Proof.
  intros Hp. unfold build_plain_session_id. cbv zeta. unfold len in *. rewrite !length_app, length_to_be_bytes, length_take, repeat_length. cbn [length]. lia.
Qed.

Section Server.
Context (x25519_public : bytes -> bytes) (diffie_hellman : bytes -> bytes -> bytes)
  (hkdf_sha256 : bytes -> bytes -> bytes -> nat -> bytes) (aes_gcm_encrypt : bytes -> bytes -> bytes -> bytes -> option bytes)
  (hex_decode base64_url_no_pad base64_standard : str -> option bytes) (key_stream : bytes -> bytes -> nat -> bytes)
  (Hlib : libraries_ok x25519_public diffie_hellman aes_gcm_encrypt key_stream).

(** C37. The first record of a REALITY connection is a well-formed TLS ClientHello for the configured name, in which the proxy's own
    detector finds that name (and HTTP/2 if it is offered); and a server that has the private key of the configured public key finds
    the client's public key in the record, derives the same key, and uncovers the version, the clock and the short id in the session id. *)
Theorem reality_hello_opens (config : RealityDialConfig) (secret server_private random padding short : bytes) (ts : Z) :
  let sni := default (r_server config) (r_server_name config) in
  let pub := x25519_public secret in
  names_fit sni (r_alpn config) -> len random = 32 -> len padding = 16 ->
  decode_x25519_pubkey hex_decode base64_url_no_pad base64_standard (r_public_key config) = Ok (x25519_public server_private) ->
  decode_short_id hex_decode (r_short_id config) = Ok short ->
  exists sid hello,
    reality_hello x25519_public diffie_hellman hkdf_sha256 aes_gcm_encrypt hex_decode base64_url_no_pad base64_standard config secret random padding ts = Ret (Ok hello) /\
    hello = reality_client_hello random sid sni pub (r_alpn config) /\
    EOther 0x33 ([0; 36; 0; 0x1d; 0; 32] ++ pub) ∈ reality_exts sni pub (r_alpn config) /\
    zip_with Z.lxor sid (key_stream (hkdf_sha256 (take 20 random) (diffie_hellman server_private pub) (lit "REALITY") 16) (drop 20 random) 32) =
      build_plain_session_id short ts padding /\
    try_tls hello = Ret (match sni with
                         | [] => None
                         | _ => Some (mkSniff (Some sni) (if bool_decide (lit "h2" ∈ alpn_protos (r_alpn config)) then lit "h2" else lit "tls"))
                         end).
Proof.
  intros sni pub Hf Hr Hpad Hk Hs. set (plain := build_plain_session_id short ts padding).
  assert (Hplain : length plain = 32%nat) by (pose proof (plain_session_id_length short ts padding Hpad) as H; unfold len, plain in *; lia).
  set (key := hkdf_sha256 (take 20 random) (diffie_hellman secret (x25519_public server_private)) (lit "REALITY") 16).
  set (ks := key_stream key (drop 20 random) 32).
  assert (Hks : length ks = 32%nat) by apply (stream_length _ _ _ _ Hlib).
  set (sid := zip_with Z.lxor plain ks).
  assert (Hsid : len sid = 32) by (unfold len, sid; rewrite length_zip_with, Hplain, Hks; done).
  assert (Hpub : len pub = 32) by apply (public_length _ _ _ _ Hlib).
  assert (E : reality_hello x25519_public diffie_hellman hkdf_sha256 aes_gcm_encrypt hex_decode base64_url_no_pad base64_standard config secret random padding ts
              = Ret (Ok (reality_client_hello random sid sni pub (r_alpn config)))).
  { unfold reality_hello. cbv zeta. unfold try_bind. rewrite Hk, bind_Ret, Hs, bind_Ret. fold plain sni pub key.
    match goal with |- context [aes_gcm_encrypt key ?n ?aad plain] => destruct (gcm_stream _ _ _ _ Hlib key n aad plain) as (tag & _ & ->) end.
    rewrite Hplain. fold ks sid. cbn [ok_or]. rewrite bind_Ret. replace (slice (sid ++ tag) 0 32) with (Ret sid) by (symmetry; by apply (slice_app_mid [] sid tag)).
    by rewrite bind_Ret, record_client_hello. }
  exists sid, (reality_client_hello random sid sni pub (r_alpn config)). split_and!; [exact E|done| | |].
  - unfold reality_exts. apply elem_of_app. right. do 9 apply list_elem_of_further. apply list_elem_of_here.
  - replace (diffie_hellman server_private pub) with (diffie_hellman secret (x25519_public server_private)) by apply (dh_agrees _ _ _ _ Hlib).
    fold key ks. apply lxor_twice. lia.
  - unfold reality_client_hello. cbv zeta. rewrite try_tls_client_hello; [by rewrite reality_view|..]; try done; try (by apply reality_exts_ok).
    all: try (unfold len; rewrite length_to_be_bytes; done); try lia; try (rewrite len_u16s; done).
    rewrite <-hello_exts_encode by done. pose proof (hello_exts_length sni pub (r_alpn config) Hf Hpub). lia.
Qed.
End Server.

(** *** A concrete instance *)

Definition pad32 (a : bytes) : bytes := take 32 (a ++ repeat 0 32).
Definition toy_dh (a b : bytes) : bytes := zip_with Z.lxor (pad32 a) b.
Definition toy_stream (k n : bytes) (m : nat) : bytes := repeat 0x55 m.
Definition toy_gcm (k n aad m : bytes) : option bytes := Some (zip_with Z.lxor m (toy_stream k n (length m)) ++ repeat 0 16).
Definition toy_hkdf (salt ikm info : bytes) (n : nat) : bytes := take n (ikm ++ salt).
Definition toy_hex (s : str) : option bytes := Some (repeat 9 (Nat.div2 (length s))).
Definition toy_config : RealityDialConfig := mkReality (repeat 97 64) (lit "abcd") (Some (lit "example.com")) (lit "1.2.3.4") [] (lit "chrome").

Lemma toy_libraries_ok : libraries_ok pad32 toy_dh toy_gcm toy_stream.
Proof.
  split.
  - intros a. unfold len, pad32. rewrite length_take, length_app, repeat_length. lia.
  - intros a b. unfold toy_dh. generalize (pad32 a) (pad32 b). clear. intros x. induction x as [|u x IH]; intros [|v y]; cbn; try done. by rewrite Z.lxor_comm, IH.
  - intros k n m. apply repeat_length.
  - intros k n aad m. by exists (repeat 0 16).
Qed.

Lemma reality_hello_opens_witness :
  exists hello, reality_hello pad32 toy_dh toy_hkdf toy_gcm toy_hex toy_hex toy_hex toy_config (repeat 3 32) (repeat 4 32) (repeat 5 16) 1700000000 = Ret (Ok hello) /\
    try_tls hello = Ret (Some (mkSniff (Some (lit "example.com")) (lit "h2"))).
Proof.
  destruct (reality_hello_opens pad32 toy_dh toy_hkdf toy_gcm toy_hex toy_hex toy_hex toy_stream toy_libraries_ok toy_config
              (repeat 3 32) (repeat 9 32) (repeat 4 32) (repeat 5 16) [9; 9] 1700000000) as (sid & hello & E & _ & _ & _ & T).
  - split_and!; [vm_compute; done|by constructor|vm_compute; done].
  - reflexivity.
  - reflexivity.
  - vm_compute. reflexivity.
  - vm_compute. reflexivity.
  - exists hello. split; [exact E|]. etransitivity; [exact T|]. vm_compute. reflexivity.
Defined.

(** ** What reaches the server *)

(** A socket that is ready takes the record in the place of the first bytes written, which are reported as sent and never are. *)
Lemma first_write_replaced inner hello data n : (length hello <= n)%nat ->
  prepended_write (PrependedTcpStream_new inner hello) (WrReady n) data = (WpOk (len data), mkPrepended (inner ++ hello) None).
Proof. intros Hn. unfold prepended_write. cbn. by rewrite firstn_all2. Qed.

(** A socket that is not ready leaves the record to the next write. *)
Lemma first_write_pending inner hello data :
  prepended_write (PrependedTcpStream_new inner hello) WrPending data = (WpPending, PrependedTcpStream_new inner hello).
Proof. done. Qed.

(** A socket that takes less than the record loses its rest. *)
Lemma partial_hello_lost inner hello data n : (n < length hello)%nat ->
  prepended_write (PrependedTcpStream_new inner hello) (WrReady n) data = (WpOk (len data), mkPrepended (inner ++ take n hello) None).
Proof. done. Qed.

Fixpoint prepended_writes (s : PrependedTcpStream) (ws : list (nat * bytes)) : PrependedTcpStream :=
  match ws with
  | [] => s
  | (n, data) :: ws => prepended_writes (prepended_write s (WrReady n) data).2 ws
  end.

(** So the server reads the record and then the later writes: nothing of the ClientHello whose random and key share the TLS library goes
    on to use. *)
Lemma client_hello_dropped hello first n ws : (length hello <= n)%nat -> Forall (fun w => (length w.2 <= w.1)%nat) ws ->
  pt_inner (prepended_writes (PrependedTcpStream_new [] hello) ((n, first) :: ws)) = hello ++ concat (map snd ws).
Proof.
  intros Hn Hws. cbn [prepended_writes]. rewrite first_write_replaced by done. cbn [snd app].
  generalize hello at 1 2. clear Hn hello. induction Hws as [|[m d] ws Hd _ IH]; intros out; cbn [prepended_writes map concat].
  - by rewrite app_nil_r.
  - unfold prepended_write. cbn [pt_hello socket_write pt_inner fst snd]. cbn in Hd. rewrite firstn_all2 by done. rewrite IH. by rewrite <-app_assoc.
Qed.

(** ** Keys of the configuration *)

Example short_id_lengths hex :
  decode_short_id hex (lit "abc") = Err ShortIdLength /\ decode_short_id hex (lit "0123456789abcdef01") = Err ShortIdLength /\
  decode_short_id hex [] = Ok [].
Proof. done. Qed.
