(* ===== verification/Xhttp.v ===== *)
(** * Xhttp: the transport that splits a connection into HTTP requests, [src/outbound/xhttp.rs].

    The URLs and headers of the three modes, the task that posts the upload in packets, and the reader of the download.  The requests
    themselves are sent by a library: [server] says which of them succeed. *)

From S2P Require Import Prelude RustStr Extern Inbound Reality.
#[local] Open Scope reflex_scope.

Inductive XhttpError : Type := BadUri | BadStatus | RequestFailed | ClosedChannel.

(** The fields of [XhttpTransportConfig] and [TlsConfig] that are read. *)
Record XhttpTransportConfig : Type := mkXhttpCfg {
  xc_host : option str;
  xc_path : option str;
  xc_mode : option str;
  xc_headers : gmap (list Z) (list Z);
  sc_max_each_post_bytes : option Z;
  sc_min_posts_interval_ms : option Z;
  uplink_http_method : option str
}.
Record XhttpTls : Type := mkXhttpTls { xt_enabled : bool; xt_server_name : option str }.

Definition normalize_path (path : str) : str :=
  let p := match path with 47 :: _ => path | _ => 47 :: path end in
  if ends_with [47] p then p else p ++ [47].

(** [XhttpShared] without the HTTP client and the counter. *)
Record XhttpShared : Type := mkShared {
  base_url : str;
  session_id : option str;
  xs_headers : gmap (list Z) (list Z);
  max_post_bytes : Z;
  min_post_interval_ms : Z;
  uplink_method : str
}.

Inductive XhttpMode : Type := StreamOne | StreamUp | PacketUp.

Definition mode_of (mode : str) : XhttpMode :=
  if bool_decide (mode = lit "stream-one") then StreamOne else if bool_decide (mode = lit "stream-up") then StreamUp else PacketUp.

(** What [connect] prepares; [uuid] is the random session. *)
Definition xhttp_shared (server : str) (port : Z) (cfg : XhttpTransportConfig) (tls : option XhttpTls) (extra_headers : gmap (list Z) (list Z))
    (uuid : str) : XhttpShared * XhttpMode :=
  let tls_enabled := match tls with Some t => xt_enabled t | None => false end in
  let scheme := if tls_enabled then lit "https" else lit "http" in
  let host := match xc_host cfg with
              | Some h => h
              | None => default server (match tls with Some t => xt_server_name t | None => None end)
              end in
  let path := normalize_path (default (lit "/") (xc_path cfg)) in
  let mode := default (lit "packet-up") (xc_mode cfg) in
  ({| base_url := scheme ++ lit "://" ++ server ++ [58] ++ show_uint port ++ path;
      session_id := if bool_decide (mode = lit "stream-one") then None else Some uuid;
      xs_headers := (xc_headers cfg ∪ extra_headers) ∪ {[ lit "Host" := host ]};
      max_post_bytes := default 1000000 (sc_max_each_post_bytes cfg);
      min_post_interval_ms := default 0 (sc_min_posts_interval_ms cfg);
      uplink_method := default (lit "POST") (uplink_http_method cfg) |}, mode_of mode).

Definition stream_url (s : XhttpShared) : str :=
  match session_id s with
  | Some sid => base_url s ++ lit "?session=" ++ sid
  | None => base_url s
  end.

Definition packet_url (s : XhttpShared) (seq : Z) : str :=
  match session_id s with
  | Some sid => base_url s ++ show_uint seq ++ lit "?session=" ++ sid ++ lit "&seq=" ++ show_uint seq
  | None => base_url s ++ show_uint seq
  end.

Inductive XhttpBody : Type := BEmpty | BFull (payload : bytes) | BStream.

Record XhttpRequest : Type := mkXhttpReq { xr_method : str; xr_url : str; xr_headers : gmap (list Z) (list Z); xr_body : XhttpBody }.

Section Requests.
(** The library's parser of a URI (its host, if any), its check of a header and of a method. *)
Context (uri_host : str -> option (option str)) (header_valid : str -> str -> bool) (method_valid : str -> bool).

(** Header names are compared in lower case; [order] is the order in which the map is walked. *)
Definition apply_headers (order : list (str * str)) (headers : gmap (list Z) (list Z)) : gmap (list Z) (list Z) :=
  fold_left (fun hs h => if header_valid h.1 h.2 then <[to_ascii_lowercase h.1 := h.2]> hs else hs) order headers.

Definition build_request (s : XhttpShared) (order : list (str * str)) (method url : str) (body : XhttpBody) : result XhttpRequest XhttpError :=
  match uri_host url with
  | None => Err BadUri
  | Some host => Ok (mkXhttpReq method url (apply_headers order {[ lit "host" := default [] host ]}) body)
  end.

Definition parse_method (s : str) : str := if method_valid s then s else lit "POST".

Definition check_status (status : Z) : result () XhttpError := if (200 <=? status) && (status <? 300) then Ok () else Err BadStatus.

(** The requests a connection starts with: that of the download first, if there are two. *)
Definition connect_requests (s : XhttpShared) (order : list (str * str)) (mode : XhttpMode) : result (list XhttpRequest) XhttpError :=
  let up := build_request s order (parse_method (uplink_method s)) (stream_url s) BStream in
  let down := build_request s order (lit "GET") (stream_url s) BEmpty in
  match mode with
  | StreamOne => r ←! up; Ok [r]
  | StreamUp => d ←! down; r ←! up; Ok [d; r]
  | PacketUp => d ←! down; Ok [d]
  end.

Definition packet_request (s : XhttpShared) (order : list (str * str)) (seq : Z) (payload : bytes) : result XhttpRequest XhttpError :=
  build_request s order (parse_method (uplink_method s)) (packet_url s seq) (BFull payload).
End Requests.

(** ** The upload in packets *)

(** The writer's side of the channel, what it holds, and the task: its buffer, the counter and the packets posted so far. *)
Record Uplink : Type := mkUplink {
  tx_live : bool;
  x_queue : list bytes;
  x_buf : bytes;
  x_seq : Z;
  x_posts : list (Z * bytes);
  task_live : bool
}.

Definition uplink_new : Uplink := mkUplink true [] [] 0 [] true.

Definition CHANNEL : nat := 128.

(** [XhttpStream::poll_write] *)
Definition xhttp_poll_write (data : bytes) (u : Uplink) : write_poll * Uplink :=
  if negb (tx_live u && task_live u) then (WpErr, u)
  else if (CHANNEL <=? length (x_queue u))%nat then (WpPending, u)
  else (WpOk (len data), mkUplink (tx_live u) (x_queue u ++ [data]) (x_buf u) (x_seq u) (x_posts u) (task_live u)).

(** [XhttpStream::poll_shutdown] *)
Definition xhttp_shutdown (u : Uplink) : Uplink := mkUplink false (x_queue u) (x_buf u) (x_seq u) (x_posts u) (task_live u).

Section Task.
(** Whether the server accepts a packet. *)
Context (server : Z -> bytes -> bool) (max_post : Z).

Definition post_packet (payload : bytes) (u : Uplink) : bool * Uplink :=
  (server (x_seq u) payload, mkUplink (tx_live u) (x_queue u) (x_buf u) (x_seq u + 1) (x_posts u ++ [(x_seq u, payload)]) (task_live u)).

Definition with_buf (u : Uplink) (b : bytes) : Uplink := mkUplink (tx_live u) (x_queue u) b (x_seq u) (x_posts u) (task_live u).
Definition task_ends (u : Uplink) : Uplink := mkUplink (tx_live u) (x_queue u) (x_buf u) (x_seq u) (x_posts u) false.

Fixpoint drain_posts (fuel : nat) (u : Uplink) : run Uplink :=
  if len (x_buf u) <? max_post then Ret u
  else match fuel with
       | O => Stuck
       | S fuel =>
           let payload := take (Z.to_nat max_post) (x_buf u) in
           let '(ok, u) := post_packet payload (with_buf u (drop (Z.to_nat max_post) (x_buf u))) in
           if ok then drain_posts fuel u else Ret (task_ends u)
       end.

(** One turn of the task: [None] while it waits for a chunk. *)
Definition task_turn (u : Uplink) : run (option Uplink) :=
  if negb (task_live u) then Ret None
  else match x_queue u with
       | chunk :: q =>
           let u := mkUplink (tx_live u) q (x_buf u ++ chunk) (x_seq u) (x_posts u) true in
           u ← drain_posts (S (length (x_buf u))) u; Ret (Some u)
       | [] =>
           if tx_live u then Ret None
           else if len (x_buf u) =? 0 then Ret (Some (task_ends u))
           else Ret (Some (task_ends (post_packet (x_buf u) (with_buf u [])).2))
       end.

Inductive xop : Type := XWrite (data : bytes) | XTask | XShutdown.

(** A schedule of writes and turns, with the bytes that were accepted. *)
Fixpoint xhttp_run (ops : list xop) (u : Uplink) : run (Uplink * bytes) :=
  match ops with
  | [] => Ret (u, [])
  | XWrite data :: ops =>
      match xhttp_poll_write data u with
      | (WpOk _, u) => r ← xhttp_run ops u; Ret (r.1, data ++ r.2)
      | (_, u) => xhttp_run ops u
      end
  | XTask :: ops => o ← task_turn u; xhttp_run ops (default u o)
  | XShutdown :: ops => xhttp_run ops (xhttp_shutdown u)
  end.
End Task.

(** ** The download *)

(** [RespBodyReader]: the frames the library has delivered, the chunk being read. *)
Record RespBodyReader : Type := mkBody { b_frames : list (option bytes); b_ended : bool; b_current : bytes }.

(** A read into a buffer with room for [room] bytes; a frame that is [None] is an error of the transport. *)
Definition body_read (room : nat) (r : RespBodyReader) : poll_result * RespBodyReader :=
  match b_current r with
  | _ :: _ => (ReadyOk (take room (b_current r)), mkBody (b_frames r) (b_ended r) (drop room (b_current r)))
  | [] =>
      match b_frames r with
      | [] => (if b_ended r then ReadyOk [] else Pending, r)
      | None :: fs => (ReadyErr, mkBody fs (b_ended r) [])
      | Some chunk :: fs => (ReadyOk (take room chunk), mkBody fs (b_ended r) (drop room chunk))
      end
  end.

(** ** The packets carry the upload *)

Definition posted (u : Uplink) : bytes := concat (map snd (x_posts u)).

Definition numbered (u : Uplink) : Prop := map fst (x_posts u) = seqZ 0 (len (x_posts u)) /\ x_seq u = len (x_posts u).

(** [u'] follows [u] by packets of full size; what was not posted is still held. *)
Definition posts_full (max_post : Z) (u u' : Uplink) : Prop :=
  exists new, x_posts u' = x_posts u ++ new /\ Forall (fun p => len p.2 = max_post) new /\
    posted u' ++ x_buf u' = posted u ++ x_buf u /\ x_queue u' = x_queue u /\ tx_live u' = tx_live u /\
    (numbered u -> numbered u') /\ (task_live u' = true -> len (x_buf u') < max_post) /\ (task_live u = false -> task_live u' = false).

Lemma numbered_post u payload server : numbered u -> numbered (post_packet server payload u).2.
Proof.
  intros [Hm Hs]. unfold numbered, post_packet. cbn [snd x_posts x_seq]. rewrite map_app, Hm, Hs, !len_app. cbn [map].
  change (len [(len (x_posts u), payload)]) with 1. split; [|done].
  pose proof (len_nonneg (x_posts u)). rewrite seqZ_app by lia. by rewrite Z.add_0_l.
Qed.

Lemma posted_post u payload server : posted (post_packet server payload u).2 = posted u ++ payload.
Proof. unfold posted, post_packet. cbn [snd x_posts]. rewrite map_app, concat_app. cbn. by rewrite app_nil_r. Qed.

Section Posts.
Context (server : Z -> bytes -> bool) (max_post : Z) (Hmax : 0 < max_post).

Lemma drain_full fuel u : (length (x_buf u) < fuel)%nat -> task_live u = true ->
  exists u', drain_posts server max_post fuel u = Ret u' /\ posts_full max_post u u'.
Proof.
  revert u. induction fuel as [|fuel IH]; intros u Hf Hl; [lia|]. cbn [drain_posts].
  destruct (len (x_buf u) <? max_post) eqn:E; reflect_bools.
  - exists u. split; [done|]. exists []. rewrite app_nil_r. by split_and!.
  - set (payload := take (Z.to_nat max_post) (x_buf u)). set (rest := drop (Z.to_nat max_post) (x_buf u)).
    assert (Hp : len payload = max_post) by (unfold payload, len in *; rewrite length_take; lia).
    assert (Hb : payload ++ rest = x_buf u) by apply take_drop.
    set (u1 := (post_packet server payload (with_buf u rest)).2).
    assert (Hstep : posts_full max_post u (task_ends u1)).
    { exists [(x_seq u, payload)]. split_and!; try done.
      - by constructor.
      - change (posted (task_ends u1)) with (posted u1). unfold u1. rewrite posted_post. rewrite <-app_assoc. cbn. by rewrite Hb.
      - intros Hn. exact (numbered_post (with_buf u rest) payload server Hn). }
    change (post_packet server payload (with_buf u rest)) with (server (x_seq u) payload, u1). cbv iota beta zeta.
    destruct (server (x_seq u) payload); [|by exists (task_ends u1)].
    destruct (IH u1) as (u' & E' & (new & Hnew & Hfull & Hacc & Hq & Htx & Hn & Hlt & Hdead)).
    { cbn. unfold rest. rewrite length_drop. unfold len in E. lia. }
    { done. }
    exists u'. split; [exact E'|]. destruct Hstep as (n1 & Hn1 & Hf1 & Ha1 & _ & _ & Hnum & _ & _).
    exists (n1 ++ new). split_and!; try done.
    + rewrite Hnew. change (x_posts u1) with (x_posts (task_ends u1)). by rewrite Hn1, app_assoc.
    + by apply Forall_app.
    + rewrite Hacc. exact Ha1.
    + intros Hu. apply Hn. exact (Hnum Hu).
Qed.

(** The state after any schedule: [acc] is what was accepted. *)
Definition uplink_ok (u : Uplink) (acc : bytes) : Prop :=
  posted u ++ x_buf u ++ concat (x_queue u) = acc /\ numbered u /\ (task_live u = true -> len (x_buf u) < max_post) /\
  exists full last, x_posts u = full ++ last /\ Forall (fun p => len p.2 = max_post) full /\
    (last = [] \/ exists p, last = [p] /\ 0 < len p.2 < max_post /\ tx_live u = false /\ task_live u = false /\ x_buf u = [] /\ x_queue u = []).

Lemma uplink_new_ok : uplink_ok uplink_new [].
Proof. split_and!; try done. exists [], []. split_and!; try done. by left. Qed.

Lemma write_ok u acc data u' n : uplink_ok u acc -> xhttp_poll_write data u = (WpOk n, u') -> uplink_ok u' (acc ++ data) /\ n = len data.
Proof.
  intros (Ha & Hn & Hb & full & last & Hp & Hf & Hlast) H. unfold xhttp_poll_write in H. destruct (tx_live u && task_live u) eqn:El; [|done]. reflect_bools.
  cbn [negb] in H. destruct (CHANNEL <=? _)%nat; [done|]. injection H as <- <-. split; [|done]. split_and!; try done.
  - unfold posted in *. cbn [x_posts x_buf x_queue]. rewrite concat_app. cbn [concat]. by rewrite app_nil_r, <-Ha, <-!app_assoc.
  - exists full, last. split_and!; try done. destruct Hlast as [|(p & _ & _ & Ht & _)]; [by left|congruence].
Qed.

Lemma turn_ok u acc : uplink_ok u acc -> exists o, task_turn server max_post u = Ret o /\ uplink_ok (default u o) acc.
Proof.
  intros Hu. pose proof Hu as (Ha & Hn & Hb & full & last & Hp & Hf & Hlast). unfold task_turn. destruct (task_live u) eqn:El; cbn [negb]; [|by exists None].
  destruct Hlast as [->|(p & _ & _ & _ & Hd & _)]; [|congruence]. rewrite app_nil_r in Hp.
  destruct (x_queue u) as [|chunk q] eqn:Eq.
  - destruct (tx_live u) eqn:Et; [by exists None|].
    destruct (x_buf u) as [|b r] eqn:Eb.
    + eexists. split; [done|]. cbn [default from_option id]. split_and!; try done; [cbn; by rewrite Eq, Eb|]. exists full, []. rewrite app_nil_r. auto.
    + rewrite (proj2 (Z.eqb_neq (len (b :: r)) 0)) by (rewrite len_cons; pose proof (len_nonneg r); lia). eexists. split; [done|]. cbn [default from_option id].
      split_and!.
      * unfold posted in *. cbn [x_posts x_buf x_queue task_ends with_buf post_packet snd]. rewrite map_app, concat_app, Eq, <-Ha. cbn [map snd concat].
        by rewrite !app_nil_r.
      * exact (numbered_post (with_buf u []) (b :: r) server Hn).
      * done.
      * exists full, [(x_seq u, b :: r)]. split_and!; [cbn; by rewrite Hp|done|right]. eexists. split; [done|]. specialize (Hb eq_refl).
        cbn [snd]. rewrite len_cons in *. pose proof (len_nonneg r). split_and!; done || lia.
  - set (u1 := mkUplink (tx_live u) q (x_buf u ++ chunk) (x_seq u) (x_posts u) true).
    destruct (drain_full (S (length (x_buf u1))) u1) as (u' & E & (new & Hnew & Hfull & Hacc & Hq & Htx & Hnum & Hlt & _)); [lia|done|].
    rewrite E, bind_Ret. eexists. split; [done|]. cbn [default from_option id]. split_and!.
    + rewrite app_assoc, Hacc, Hq. rewrite <-Ha. cbn. unfold posted. cbn. by rewrite <-!app_assoc.
    + apply Hnum. exact Hn.
    + exact Hlt.
    + exists (full ++ new), []. rewrite app_nil_r, Hnew. cbn. rewrite Hp. split_and!; [done|by apply Forall_app|by left].
Qed.

Lemma run_ok ops u acc : uplink_ok u acc -> exists u' more, xhttp_run server max_post ops u = Ret (u', more) /\ uplink_ok u' (acc ++ more).
Proof.
  revert u acc. induction ops as [|o ops IH]; intros u acc Hu; cbn [xhttp_run].
  - exists u, []. by rewrite app_nil_r.
  - destruct o as [data| |].
    + destruct (xhttp_poll_write data u) as [[|n|] u1] eqn:E.
      * unfold xhttp_poll_write in E. repeat case_match; simplify_eq. by apply IH.
      * destruct (write_ok u acc data u1 n Hu E) as [H1 _]. destruct (IH u1 _ H1) as (u' & more & -> & H2). rewrite bind_Ret.
        exists u', (data ++ more). by rewrite app_assoc.
      * unfold xhttp_poll_write in E. repeat case_match; simplify_eq. by apply IH.
    + destruct (turn_ok u acc Hu) as (o & -> & H1). rewrite bind_Ret. by apply IH.
    + apply IH. destruct Hu as (Ha & Hn & Hb & full & last & Hp & Hf & Hl). split_and!; try done. exists full, last. split_and!; try done.
      destruct Hl as [->|(p & -> & Hsz & _ & Hrest)]; [by left|right; by exists p].
Qed.

Lemma full_length full : Forall (fun p : Z * bytes => len p.2 = max_post) full -> len (concat (map snd full)) = max_post * len full.
Proof. induction 1 as [|p full Hp _ IH]; [change (0 = max_post * 0); lia|]. cbn [map concat]. rewrite len_app, len_cons, IH, Hp. lia. Qed.

Lemma nothing_posted u acc : uplink_ok u acc -> tx_live u = true -> len acc < max_post -> x_posts u = [].
Proof.
  intros (Ha & _ & _ & full & last & Hp & Hf & Hl) Ht Hlen. destruct Hl as [->|(p & _ & _ & Hx & _)]; [|congruence]. rewrite app_nil_r in Hp.
  pose proof (full_length full Hf) as Hfl. rewrite <-Ha in Hlen. unfold posted in Hlen. rewrite Hp, !len_app, Hfl in Hlen.
  pose proof (len_nonneg (x_buf u)). pose proof (len_nonneg (concat (x_queue u))). rewrite Hp. destruct full as [|p full]; [done|].
  rewrite len_cons in Hlen. pose proof (len_nonneg full). nia.
Qed.

(** With a server that accepts every packet the task ends only when all is posted. *)
Section Accepting.
Context (Hserver : forall seq payload, server seq payload = true).

Lemma drain_alive fuel u u' : drain_posts server max_post fuel u = Ret u' -> task_live u = true -> task_live u' = true.
Proof.
  revert u. induction fuel as [|fuel IH]; intros u; cbn [drain_posts]; [by case_match; intros [= <-]|].
  destruct (len (x_buf u) <? max_post); [by intros [= <-]|]. unfold post_packet at 1. rewrite Hserver. intros Hd Hl. by eapply IH.
Qed.

Lemma run_alive ops u u' acc : xhttp_run server max_post ops u = Ret (u', acc) -> (task_live u = true \/ x_buf u = [] /\ x_queue u = [] /\ tx_live u = false) ->
  task_live u' = true \/ x_buf u' = [] /\ x_queue u' = [] /\ tx_live u' = false.
Proof.
  revert u acc. induction ops as [|o ops IH]; intros u acc; cbn [xhttp_run]; [by intros [= <- _]|]. destruct o as [data| |].
  - destruct (xhttp_poll_write data u) as [r u1] eqn:E. unfold xhttp_poll_write in E.
    destruct (tx_live u && task_live u) eqn:El; cbn [negb] in E; [|injection E as <- <-; by apply IH]. reflect_bools.
    destruct (CHANNEL <=? _)%nat; injection E as <- <-; [by apply IH|]. intros ([v m] & Hr & [= -> _])%bind_Ret_inv _. apply (IH _ m Hr). by left.
  - intros (o & Ho & Hr)%bind_Ret_inv Hu. apply (IH _ _ Hr). unfold task_turn in Ho. destruct (task_live u) eqn:El; [|injection Ho as <-; cbn; destruct Hu; [congruence|by right]].
    cbn [negb] in Ho. destruct (x_queue u) as [|c q] eqn:Eq.
    + destruct (tx_live u) eqn:Et; [injection Ho as <-; by left|]. right.
      destruct (x_buf u) as [|b r] eqn:Eb; [by injection Ho as <-; cbn|]. rewrite (proj2 (Z.eqb_neq (len (b :: r)) 0)) in Ho by (rewrite len_cons; pose proof (len_nonneg r); lia).
      by injection Ho as <-; cbn.
    + apply bind_Ret_inv in Ho as (u1 & Hd & [= <-]). left. by eapply drain_alive.
  - intros H Hu. apply (IH _ _ H). cbn. destruct Hu as [Hu|Hu]; [by left|right; by destruct_and!].
Qed.

Lemma turns_finish n u acc : uplink_ok u acc -> task_live u = true -> tx_live u = false -> length (x_queue u) = n ->
  exists u', xhttp_run server max_post (repeat XTask (S n)) u = Ret (u', []) /\ posted u' = acc /\ task_live u' = false.
Proof.
  revert u. induction n as [|n IH]; intros u Hu Hl Ht Hq.
  - cbn [repeat xhttp_run]. apply nil_length_inv in Hq. destruct (turn_ok u acc Hu) as (o & E & (Ha & _)). rewrite E, bind_Ret. exists (default u o). split; [done|].
    unfold task_turn in E. rewrite Hl, Hq, Ht in E. cbn [negb] in E. destruct (x_buf u) as [|b r] eqn:Eb.
    + injection E as <-. cbn [default from_option id] in *. split; [|done]. cbn in Ha. by rewrite Eb, Hq, !app_nil_r in Ha.
    + rewrite (proj2 (Z.eqb_neq (len (b :: r)) 0)) in E by (rewrite len_cons; pose proof (len_nonneg r); lia).
      injection E as <-. cbn [default from_option id] in *. split; [|done]. cbn [x_buf x_queue task_ends post_packet with_buf snd] in Ha.
      rewrite Hq in Ha. cbn [concat] in Ha. by rewrite !app_nil_r in Ha.
  - destruct (x_queue u) as [|c q] eqn:Eq; [done|]. destruct (turn_ok u acc Hu) as (o & E & H1).
    change (repeat XTask (S (S n))) with (XTask :: repeat XTask (S n)). cbn [xhttp_run]. rewrite E, bind_Ret.
    unfold task_turn in E. rewrite Hl, Eq in E. cbn [negb] in E. apply bind_Ret_inv in E as (u1 & Hd & [= <-]). cbn [default from_option id] in *.
    set (v := mkUplink (tx_live u) q (x_buf u ++ c) (x_seq u) (x_posts u) true) in Hd.
    destruct (drain_full (S (length (x_buf v))) v ltac:(lia) eq_refl) as (u2 & Hd2 & (_ & _ & _ & _ & Hq2 & Ht2 & _)).
    rewrite Hd in Hd2. injection Hd2 as <-. apply IH; [exact H1|by eapply drain_alive|by rewrite Ht2|rewrite Hq2; cbn; cbn in Hq; lia].
Qed.
End Accepting.

Lemma idle_turns n u : task_live u = false -> xhttp_run server max_post (repeat XTask n) u = Ret (u, []).
Proof. intros Hl. induction n as [|n IH]; [done|]. cbn [repeat xhttp_run]. unfold task_turn. by rewrite Hl. Qed.
End Posts.

(** C38. The default mode of the transport carries the upload as numbered packets: whatever the writes, the turns of the task, the shutdown and
    the answers of the server, the packets, the buffer and the channel hold the accepted bytes in order and nothing else, the packets are
    numbered from zero, and each has exactly the configured size except a last one after the shutdown, so that nothing at all is sent while
    fewer bytes were written than one packet holds; and when the server accepts everything, the shutdown and enough turns post the rest. *)
Theorem xhttp_packet_up (server : Z -> bytes -> bool) (max_post : Z) (ops : list xop) : 0 < max_post ->
  exists u acc, xhttp_run server max_post ops uplink_new = Ret (u, acc) /\ uplink_ok max_post u acc /\
    (tx_live u = true -> len acc < max_post -> x_posts u = []) /\
    ((forall seq payload, server seq payload = true) -> exists u',
      xhttp_run server max_post (XShutdown :: repeat XTask (S (length (x_queue u)))) u = Ret (u', []) /\ posted u' = acc /\ task_live u' = false).
Proof.
  intros Hmax. destruct (run_ok server max_post Hmax ops uplink_new [] (uplink_new_ok max_post Hmax)) as (u & acc & E & Hu). cbn [app] in Hu.
  exists u, acc. split_and!; [exact E|exact Hu|intros; by eapply nothing_posted|]. intros Hs. cbn [xhttp_run].
  assert (Hsd : uplink_ok max_post (xhttp_shutdown u) acc).
  { destruct (run_ok server max_post Hmax [XShutdown] u acc Hu) as (v & more & Ev & Hv). injection Ev as <- <-. by rewrite app_nil_r in Hv. }
  destruct (run_alive server max_post Hs ops uplink_new u acc E (or_introl eq_refl)) as [Hl|(Hb & Hq & Ht)].
  - by apply turns_finish.
  - destruct (task_live u) eqn:El; [by apply turns_finish|]. exists (xhttp_shutdown u). split; [by apply idle_turns|]. split; [|done].
    destruct Hsd as (Ha & _). cbn [x_buf x_queue xhttp_shutdown] in Ha. by rewrite Hb, Hq, !app_nil_r in Ha.
Qed.

Lemma xhttp_packet_up_witness : 0 < 4 /\
  exists u acc, xhttp_run (fun _ _ => true) 4 [XWrite (lit "hello"); XTask; XWrite (lit "abc"); XTask] uplink_new = Ret (u, acc) /\
    x_posts u = [(0, lit "hell"); (1, lit "oabc")] /\ acc = lit "helloabc" /\ (tx_live u = true -> len acc < 4 -> x_posts u = []).
Proof.
  split; [done|]. destruct (xhttp_packet_up (fun _ _ => true) 4 [XWrite (lit "hello"); XTask; XWrite (lit "abc"); XTask] ltac:(done)) as (u & acc & E & _ & H & _).
  exists u, acc. split; [exact E|]. vm_compute in E. injection E as <- <-. split_and!; [done|done|exact H].
Defined.

(** Fewer bytes than a packet holds wait for the shutdown, however often the task comes round. *)
Example small_write_waits :
  xhttp_run (fun _ _ => true) 1000000 [XWrite (lit "GET / HTTP/1.1"); XTask; XTask; XTask] uplink_new =
    Ret (mkUplink true [] (lit "GET / HTTP/1.1") 0 [] true, lit "GET / HTTP/1.1").
Proof. vm_compute. done. Qed.

(** With a size of zero the task posts empty packets for ever. *)
Lemma zero_size_spins server fuel u : (forall seq payload, server seq payload = true) -> drain_posts server 0 fuel u = Stuck.
Proof.
  intros Hs. revert u. induction fuel as [|fuel IH]; intros u; cbn [drain_posts]; rewrite (proj2 (Z.ltb_ge (len (x_buf u)) 0)) by apply len_nonneg; [done|].
  unfold post_packet at 1. by rewrite Hs.
Qed.

(** ** The reader *)

(** What the reader still has to deliver. *)
Definition body_rest (r : RespBodyReader) : bytes := b_current r ++ concat (omap (fun f => f) (b_frames r)).

(** Reads take the frames in order; a read of nothing is the end, or an empty frame. *)
Lemma body_read_order room r : (0 < room)%nat -> Forall (fun f => exists b, f = Some b) (b_frames r) ->
  match body_read room r with
  | (ReadyOk d, r') => d ++ body_rest r' = body_rest r /\ (d = [] -> b_frames r = [] /\ b_ended r = true \/ exists fs, b_frames r = Some [] :: fs)
  | (Pending, r') => r' = r /\ body_rest r = []
  | (ReadyErr, _) => False
  end.
Proof.
  intros Hroom Hf. unfold body_read, body_rest. destruct (b_current r) as [|b c] eqn:Ec.
  - destruct (b_frames r) as [|f fs] eqn:Ef.
    + destruct (b_ended r) eqn:Ee; [|done]. rewrite Ec, Ef. split; [done|]. intros _. by left.
    + apply Forall_cons in Hf as [[chunk ->] _]. cbn [b_current b_frames omap list_omap concat app]. split; [by rewrite app_assoc, take_drop|].
      intros H. right. destruct chunk as [|x chunk]; [by eexists|]. destruct room; [lia|done].
  - cbn [b_current b_frames]. rewrite app_assoc, take_drop. split; [done|]. destruct room; [lia|done].
Qed.

(** An empty DATA frame is taken for the end of the download. *)
Example empty_frame_ends : body_read 10 (mkBody [Some []; Some (lit "more")] false []) = (ReadyOk [], mkBody [Some (lit "more")] false []).
Proof. done. Qed.

(** ** Paths and headers *)

Lemma normalize_path_shape path : exists p, normalize_path path = 47 :: p /\ ends_with [47] (normalize_path path) = true.
Proof.
  unfold normalize_path. set (p := match path with 47 :: _ => path | _ => 47 :: path end).
  assert (Hp : exists q, p = 47 :: q).
  { unfold p. destruct path as [|b r]; [by eexists|]. destruct b as [|b|b]; try by eexists. repeat (destruct b as [b|b|]; try by eexists). }
  destruct Hp as [q ->]. destruct (ends_with [47] (47 :: q)) eqn:E; [by exists q|]. exists (q ++ [47]). split; [done|].
  unfold ends_with. change ((47 :: q) ++ [47]) with ([47] ++ q ++ [47]). by rewrite !rev_app_distr.
Qed.

Lemma normalize_path_idemp path : normalize_path (normalize_path path) = normalize_path path.
Proof. destruct (normalize_path_shape path) as (p & E & H). unfold normalize_path at 1. rewrite E in *. by rewrite H. Qed.

(** A header of the map arrives with its value if no other name differs from its own in case only. *)
Lemma headers_applied hv order hs k v : NoDup (map (fun h => to_ascii_lowercase h.1) order) -> (k, v) ∈ order -> hv k v = true ->
  apply_headers hv order hs !! to_ascii_lowercase k = Some v.
Proof.
  unfold apply_headers. revert hs. induction order as [|h order IH]; intros hs Hnd Hin Hv; [by apply elem_of_nil in Hin|].
  cbn [map] in Hnd. apply NoDup_cons in Hnd as [Hh Hnd]. apply elem_of_cons in Hin as [<-|Hin]; [|by apply IH].
  cbn [fold_left fst snd]. rewrite Hv. clear IH Hnd. cbn [fst] in Hh.
  assert (Hk : <[to_ascii_lowercase k := v]> hs !! to_ascii_lowercase k = Some v) by apply lookup_insert_eq. revert Hk. generalize (<[to_ascii_lowercase k := v]> hs). clear hs Hv.
  induction order as [|h order IH]; intros hs Hk; [done|]. cbn [map] in Hh. apply not_elem_of_cons in Hh as [Hne Hh]. cbn [fold_left]. apply IH; [done|].
  case_if; [|done]. by rewrite lookup_insert_ne.
Qed.

Example xhttp_urls :
  let s := (xhttp_shared (lit "example.com") 443 (mkXhttpCfg None (Some (lit "api")) None ∅ None None None) (Some (mkXhttpTls true None)) ∅ (lit "u-1")).1 in
  stream_url s = lit "https://example.com:443/api/?session=u-1" /\ packet_url s 7 = lit "https://example.com:443/api/7?session=u-1&seq=7" /\
  xs_headers s !! lit "Host" = Some (lit "example.com").
Proof. vm_compute. done. Qed.
