(* ===== verification/Transparent.v ===== *)
(** * Transparent: the inbounds that take redirected traffic and the direct outbound.

    [src/inbound/tproxy.rs], [src/inbound/redir.rs], [src/inbound/dns.rs] and [src/outbound/direct.rs]: the addresses as the kernel writes
    them, the reading of a UDP socket that reports only new datagrams, the DNS server, and the sessions of the direct outbound.  What
    the system calls return is an argument. *)

From S2P Require Import Prelude RustStr Extern CacheFile DnsWire FakeIp Inbound RouterSpec Dispatcher Wire DnsResolver DnsTransport.
#[local] Open Scope reflex_scope.

(** ** Socket addresses in memory *)

Definition AF_INET : Z := 2.
Definition AF_INET6 : Z := 10.

(** [sockaddr_in]: family, port and address in network order. *)
Definition sin_addr (sa : bytes) : SocketAddr :=
  {| ip := V4 (from_be_bytes (take 4 (drop 4 sa))); sock_port := from_be_bytes (take 2 (drop 2 sa)) |}.

(** [sockaddr_in6]: family, port, flow, address, scope. *)
Definition sin6_addr (sa : bytes) : SocketAddr :=
  {| ip := V6 (from_be_bytes (take 16 (drop 8 sa))); sock_port := from_be_bytes (take 2 (drop 2 sa)) |}.

(** The family is in the byte order of the machine. *)
Definition sockaddr_storage_to_socketaddr (ss : bytes) : option SocketAddr :=
  let family := from_le_bytes (take 2 ss) in
  if family =? AF_INET then Some (sin_addr ss)
  else if family =? AF_INET6 then Some (sin6_addr ss)
  else None.

(** How the kernel writes an address. *)
Definition kernel_sockaddr (a : SocketAddr) : bytes :=
  match ip a with
  | V4 v => to_le_bytes 2 AF_INET ++ to_be_bytes 2 (sock_port a) ++ to_be_bytes 4 v ++ repeat 0 8
  | V6 v => to_le_bytes 2 AF_INET6 ++ to_be_bytes 2 (sock_port a) ++ repeat 0 4 ++ to_be_bytes 16 v ++ repeat 0 4
  end.

(** A control message as [CMSG_FIRSTHDR] and [CMSG_NXTHDR] give it. *)
Record Cmsg : Type := mkCmsg { cmsg_level : Z; cmsg_type : Z; cmsg_data : bytes }.

Definition IPPROTO_IP : Z := 0.
Definition IPPROTO_IPV6 : Z := 41.
Definition IP_ORIGDSTADDR : Z := 20.
Definition IPV6_ORIGDSTADDR : Z := 74.
Definition SO_ORIGINAL_DST : Z := 80.

Fixpoint extract_original_dst_from_cmsg (cs : list Cmsg) : option SocketAddr :=
  match cs with
  | [] => None
  | c :: cs =>
      if (cmsg_level c =? IPPROTO_IP) && (cmsg_type c =? IP_ORIGDSTADDR) then Some (sin_addr (cmsg_data c))
      else if (cmsg_level c =? IPPROTO_IPV6) && (cmsg_type c =? IPV6_ORIGDSTADDR) then Some (sin6_addr (cmsg_data c))
      else extract_original_dst_from_cmsg cs
  end.

(** [get_original_dst] of redir.rs and [get_original_dst_tcp] of tproxy.rs: [getsockopt] by level and name. *)
Definition get_original_dst (getsockopt : Z -> Z -> option bytes) : option SocketAddr :=
  match getsockopt IPPROTO_IP SO_ORIGINAL_DST with
  | Some sa => Some (sin_addr sa)
  | None =>
      match getsockopt IPPROTO_IPV6 SO_ORIGINAL_DST with
      | Some sa => Some (sin6_addr sa)
      | None => None
      end
  end.

(** The accept loop: what [accept] returns, [None] for an error; a connection without a known destination is dropped. *)
Definition accept_redirected (tag : str) (accepted : list (option ((Z -> Z -> option bytes) * bytes))) : list InboundTcpStream :=
  omap (fun a => match a with
                 | Some (getsockopt, incoming) =>
                     match get_original_dst getsockopt with
                     | Some dst => Some (mkTcp (SniffedStream_new incoming) (TSocket dst) tag None None)
                     | None => None
                     end
                 | None => None
                 end) accepted.

(** ** The UDP side of tproxy *)

Definition tproxy_udp_timeout_for_port (port : Z) : Z :=
  if (port =? 53) || (port =? 123) || (port =? 3478) then 10 else if port =? 443 then 30 else 300.

(** [UdpSessionEntry]; the channel for replies is the same in all. *)
Record TpSession : Type := mkTpSession { tp_last_seen : Z; tp_timeout : Z }.

(** What [recvmsg] returns while the socket holds something. *)
Inductive recv_event : Type :=
  | RecvMsg (data src : bytes) (control : list Cmsg)
  | RecvError.

Definition recvmsg_with_dst (e : recv_event) : option (bytes * SocketAddr * SocketAddr) :=
  match e with
  | RecvMsg data src control =>
      match sockaddr_storage_to_socketaddr src, extract_original_dst_from_cmsg control with
      | Some src, Some dst => Some (take (Z.to_nat 65535) data, src, dst)
      | _, _ => None
      end
  | RecvError => None
  end.

Record TpState : Type := mkTp {
  tp_backlog : list recv_event;
  tp_sessions : gmap (SocketAddr * SocketAddr) TpSession
}.

Definition touch_session (now : Z) (src dst : SocketAddr) (ss : gmap (SocketAddr * SocketAddr) TpSession) : gmap (SocketAddr * SocketAddr) TpSession :=
  <[(src, dst) := mkTpSession now (match ss !! (src, dst) with Some e => tp_timeout e | None => tproxy_udp_timeout_for_port (sock_port dst) end)]> ss.

(** The inner loop: it stops where the socket is empty or at the first error; what is behind that stays in the socket. *)
Fixpoint read_backlog (tag : str) (now : Z) (es : list recv_event) (ss : gmap (SocketAddr * SocketAddr) TpSession) :
    list InboundUdpPacket * TpState :=
  match es with
  | [] => ([], mkTp [] ss)
  | e :: es =>
      match recvmsg_with_dst e with
      | None => ([], mkTp es ss)
      | Some (data, src, dst) =>
          let '(ps, s) := read_backlog tag now es (touch_session now src dst ss) in
          (mkUdp data src (TSocket dst) tag None None :: ps, s)
      end
  end.

Inductive tp_event : Type :=
  | TpReadable (now : Z) (arrived : list recv_event)
  | TpTick (now : Z).

Definition tproxy_gc (now : Z) (ss : gmap (SocketAddr * SocketAddr) TpSession) : gmap (SocketAddr * SocketAddr) TpSession :=
  filter (fun kv => now - tp_last_seen kv.2 < tp_timeout kv.2) ss.

(** One turn of the select loop: the kernel reports the socket only when something new has arrived. *)
Definition tproxy_turn (tag : str) (s : TpState) (e : tp_event) : list InboundUdpPacket * TpState :=
  match e with
  | TpReadable now arrived => read_backlog tag now (tp_backlog s ++ arrived) (tp_sessions s)
  | TpTick now => ([], mkTp (tp_backlog s) (tproxy_gc now (tp_sessions s)))
  end.

Fixpoint tproxy_run (tag : str) (s : TpState) (es : list tp_event) : list InboundUdpPacket * TpState :=
  match es with
  | [] => ([], s)
  | e :: es => let '(ps, s) := tproxy_turn tag s e in let '(ps', s) := tproxy_run tag s es in (ps ++ ps', s)
  end.

(** [tproxy_udp_writeback]: the datagram that is sent, with the address it seems to come from and the mark. *)
Definition tproxy_udp_writeback (data : bytes) (client_addr server_addr : SocketAddr) (routing_mark : Z) : SocketAddr * SocketAddr * bytes * option Z :=
  (server_addr, client_addr, data, if routing_mark =? 0 then None else Some routing_mark).

(** ** The DNS server *)

(** [handle_tcp_conn] of dns.rs; [answer] is what the resolver replies. *)
Fixpoint dns_in_tcp (fuel : nat) (answer : bytes -> option bytes) (input : bytes) : run (result unit DnsTcpError * bytes) :=
  match fuel with
  | O => Stuck
  | S fuel =>
      if len input <? 2 then Ret (Ok tt, [])
      else
        let n := from_be_bytes (take 2 input) in
        let input := drop 2 input in
        if 4096 <? n then Ret (Err (DnsTcpTooLarge n), [])
        else if len input <? n then Ret (Err DnsTcpEof, [])
        else
          match answer (take (Z.to_nat n) input) with
          | None => Ret (Err DnsReplyDropped, [])
          | Some resp =>
              r ← dns_in_tcp fuel answer (drop (Z.to_nat n) input);
              Ret (r.1, to_be_bytes 2 (as_u16 (len resp)) ++ resp ++ r.2)
          end
  end.

(** A datagram is answered to its sender, or not at all. *)
Definition dns_in_udp (answer : bytes -> option bytes) (data : bytes) (from : SocketAddr) : option (SocketAddr * bytes) :=
  match answer (take 4096 data) with Some resp => Some (from, resp) | None => None end.

(** ** The direct outbound *)

Section Direct.
(** The resolver of the proxy, if it has one, and that of the system. *)
Context (resolve_domain : option (str -> result IpAddr WireError)) (lookup_host : str -> Z -> result (list SocketAddr) WireError).

Definition resolve_target_with_dns (t : Target) : result SocketAddr WireError :=
  match t with
  | TSocket addr => Ok addr
  | TDomain host port =>
      match resolve_domain with
      | Some r => a ←! r host; Ok {| ip := a; sock_port := port |}
      | None => l ←! lookup_host host port; match l with a :: _ => Ok a | [] => Err Wire.ResolveFailed end
      end
  end.
End Direct.

(** The local address of a connection: [None] leaves it to the system. *)
Definition tcp_bind_addr (bind_address : option str) : result (option SocketAddr) WireError :=
  match bind_address with
  | Some b => a ←! ok_or (SocketAddr_from_str (b ++ lit ":0")) MalformedRequest; Ok (Some a)
  | None => Ok None
  end.

Definition new_udp_socket (bind_address : option str) (dst : SocketAddr) : result SocketAddr WireError :=
  match bind_address with
  | Some b => ok_or (SocketAddr_from_str (b ++ lit ":0")) MalformedRequest
  | None => Ok {| ip := match ip dst with V6 _ => V6 0 | V4 _ => V4 0 end; sock_port := 0 |}
  end.

(** What the socket of a session gives; [None] is an error or half a minute of silence. *)
Inductive direct_event : Type := DReply (data : bytes) (from : SocketAddr) | DEnd.

(** The datagrams handed to the client, with the address they will seem to come from; [closed] says that the client is gone. *)
Fixpoint direct_replies (client dst : SocketAddr) (es : list (bool * direct_event)) : list (bytes * SocketAddr * SocketAddr) :=
  match es with
  | [] => []
  | (true, _) :: _ => []
  | (false, DEnd) :: _ => []
  | (false, DReply data _) :: es => (take (Z.to_nat 65535) data, client, dst) :: direct_replies client dst es
  end.

(** The datagrams of the client, all to the address of the first. *)
Definition direct_upstream (first : bytes) (later : list bytes) (dst : SocketAddr) : list (SocketAddr * bytes) :=
  map (fun d => (dst, d)) (first :: later).

(** ** Addresses survive the kernel *)

Definition sockaddr_ok (a : SocketAddr) : Prop :=
  match ip a with V4 v => in_width 32 v | V6 v => in_width 128 v end /\ in_width 16 (sock_port a).

Lemma sin_addr_kernel v p : in_width 32 v -> in_width 16 p -> sin_addr (kernel_sockaddr {| ip := V4 v; sock_port := p |}) = {| ip := V4 v; sock_port := p |}.
Proof.
  unfold in_width. intros Hv Hp. unfold sin_addr, kernel_sockaddr. cbn [ip sock_port].
  set (fam := to_le_bytes 2 AF_INET). set (pb := to_be_bytes 2 p). set (ab := to_be_bytes 4 v).
  assert (Hf : length fam = 2%nat) by done. assert (Hpb : length pb = 2%nat) by apply length_to_be_bytes. assert (Hab : length ab = 4%nat) by apply length_to_be_bytes.
  replace (drop 2 (fam ++ pb ++ ab ++ repeat 0 8)) with (pb ++ ab ++ repeat 0 8) by (symmetry; by apply drop_app_length').
  replace (drop 4 (fam ++ pb ++ ab ++ repeat 0 8)) with (ab ++ repeat 0 8) by (rewrite app_assoc; symmetry; apply drop_app_length'; rewrite length_app; lia).
  rewrite !take_app_length' by done. unfold pb, ab. rewrite !from_to_be_bytes_id by (cbn; lia). done.
Qed.

Lemma sin6_addr_kernel v p : in_width 128 v -> in_width 16 p -> sin6_addr (kernel_sockaddr {| ip := V6 v; sock_port := p |}) = {| ip := V6 v; sock_port := p |}.
Proof.
  unfold in_width. intros Hv Hp. unfold sin6_addr, kernel_sockaddr. cbn [ip sock_port].
  set (fam := to_le_bytes 2 AF_INET6). set (pb := to_be_bytes 2 p). set (ab := to_be_bytes 16 v). set (flow := repeat 0 4).
  assert (Hf : length fam = 2%nat) by done. assert (Hpb : length pb = 2%nat) by apply length_to_be_bytes. assert (Hab : length ab = 16%nat) by apply length_to_be_bytes.
  assert (Hfl : length flow = 4%nat) by done.
  replace (drop 2 (fam ++ pb ++ flow ++ ab ++ flow)) with (pb ++ flow ++ ab ++ flow) by (symmetry; by apply drop_app_length').
  replace (drop 8 (fam ++ pb ++ flow ++ ab ++ flow)) with (ab ++ flow) by (rewrite !app_assoc; rewrite <-(app_assoc _ ab); symmetry; apply drop_app_length'; rewrite !length_app; lia).
  rewrite !take_app_length' by done. unfold pb, ab. rewrite !from_to_be_bytes_id by (change (256 ^ Z.of_nat 2) with 65536 || change (256 ^ Z.of_nat 16) with (2 ^ 128); lia). done.
Qed.

(** An address the kernel wrote is read back. *)
Lemma sockaddr_roundtrip a : sockaddr_ok a -> sockaddr_storage_to_socketaddr (kernel_sockaddr a) = Some a.
Proof.
  destruct a as [[v|v] p]; intros [Hv Hp]; cbn [ip sock_port] in *; unfold sockaddr_storage_to_socketaddr.
  - replace (from_le_bytes (take 2 (kernel_sockaddr {| ip := V4 v; sock_port := p |}))) with AF_INET by done. cbv zeta. rewrite Z.eqb_refl. by rewrite sin_addr_kernel.
  - replace (from_le_bytes (take 2 (kernel_sockaddr {| ip := V6 v; sock_port := p |}))) with AF_INET6 by done. cbv zeta.
    change (AF_INET6 =? AF_INET) with false. cbv iota. rewrite Z.eqb_refl. by rewrite sin6_addr_kernel.
Qed.

(** The control message of a datagram sent to [dst]. *)
Definition orig_dst (dst : SocketAddr) : Cmsg :=
  match ip dst with
  | V4 _ => mkCmsg IPPROTO_IP IP_ORIGDSTADDR (kernel_sockaddr dst)
  | V6 _ => mkCmsg IPPROTO_IPV6 IPV6_ORIGDSTADDR (kernel_sockaddr dst)
  end.

Lemma original_dst_found dst before after : sockaddr_ok dst ->
  Forall (fun c => (cmsg_level c, cmsg_type c) <> (IPPROTO_IP, IP_ORIGDSTADDR) /\ (cmsg_level c, cmsg_type c) <> (IPPROTO_IPV6, IPV6_ORIGDSTADDR)) before ->
  extract_original_dst_from_cmsg (before ++ orig_dst dst :: after) = Some dst.
Proof.
  intros Hd. induction 1 as [|c before [H1 H2] _ IH]; cbn [app extract_original_dst_from_cmsg].
  - destruct dst as [[v|v] p]; destruct Hd as [Hv Hp]; cbn in Hv, Hp; unfold orig_dst; cbn [ip cmsg_level cmsg_type cmsg_data].
    + change ((IPPROTO_IP =? IPPROTO_IP) && (IP_ORIGDSTADDR =? IP_ORIGDSTADDR)) with true. cbv iota. by rewrite sin_addr_kernel.
    + change ((IPPROTO_IPV6 =? IPPROTO_IP) && (IPV6_ORIGDSTADDR =? IP_ORIGDSTADDR)) with false.
      change ((IPPROTO_IPV6 =? IPPROTO_IPV6) && (IPV6_ORIGDSTADDR =? IPV6_ORIGDSTADDR)) with true. cbv iota. by rewrite sin6_addr_kernel.
  - destruct c as [l t d]. cbn [cmsg_level cmsg_type] in *.
    destruct (Z.eqb_spec l IPPROTO_IP), (Z.eqb_spec t IP_ORIGDSTADDR), (Z.eqb_spec l IPPROTO_IPV6), (Z.eqb_spec t IPV6_ORIGDSTADDR); cbn [andb]; subst; try exact IH; by exfalso; (apply H1 || apply H2).
Qed.

(** ** Every datagram is handed on *)

(** A datagram from [src] to [dst] as the kernel gives it. *)
Record datagram : Type := mkDatagram { dg_data : bytes; dg_src : SocketAddr; dg_dst : SocketAddr; dg_other : list Cmsg }.
Definition datagram_ok (d : datagram) : Prop :=
  len (dg_data d) <= 65535 /\ sockaddr_ok (dg_src d) /\ sockaddr_ok (dg_dst d) /\
  Forall (fun c => (cmsg_level c, cmsg_type c) <> (IPPROTO_IP, IP_ORIGDSTADDR) /\ (cmsg_level c, cmsg_type c) <> (IPPROTO_IPV6, IPV6_ORIGDSTADDR)) (dg_other d).

Definition received (d : datagram) : recv_event := RecvMsg (dg_data d) (kernel_sockaddr (dg_src d)) (dg_other d ++ [orig_dst (dg_dst d)]).

Definition packet_for (tag : str) (d : datagram) : InboundUdpPacket := mkUdp (dg_data d) (dg_src d) (TSocket (dg_dst d)) tag None None.

Lemma recvmsg_received d : datagram_ok d -> recvmsg_with_dst (received d) = Some (dg_data d, dg_src d, dg_dst d).
Proof.
  intros (Hl & Hs & Hd & Ho). unfold recvmsg_with_dst, received. rewrite sockaddr_roundtrip, original_dst_found by done.
  unfold len in Hl. by rewrite firstn_all2 by lia.
Qed.

Lemma read_backlog_all tag now ds rest ss : Forall datagram_ok ds ->
  exists ss', read_backlog tag now (map received ds ++ rest) ss =
    (map (packet_for tag) ds ++ (read_backlog tag now rest ss').1, (read_backlog tag now rest ss').2).
Proof.
  intros H. revert ss. induction H as [|d ds Hd _ IH]; intros ss; cbn [map app].
  - exists ss. by destruct (read_backlog tag now rest ss).
  - cbn [read_backlog]. rewrite recvmsg_received by done. destruct (IH (touch_session now (dg_src d) (dg_dst d) ss)) as (ss' & E). rewrite E. by exists ss'.
Qed.

(** The turns of a loop in which only well-formed datagrams arrive. *)
Inductive turns : list tp_event -> list datagram -> Prop :=
  | turns_nil : turns [] []
  | turns_tick now es ds : turns es ds -> turns (TpTick now :: es) ds
  | turns_read now new es ds : Forall datagram_ok new -> turns es ds -> turns (TpReadable now (map received new) :: es) (new ++ ds).

(** The UDP side of tproxy hands on every datagram exactly once and in order, as a packet from its sender to the address it was sent
    to before the redirection, however the datagrams are spread over the readiness events of the socket, whatever other control
    messages come with them and whenever the table of sessions is cleaned; and nothing is left in the socket. *)
Theorem tproxy_hands_on (tag : str) (es : list tp_event) (ds : list datagram) (ss : gmap (SocketAddr * SocketAddr) TpSession) : turns es ds ->
  (tproxy_run tag (mkTp [] ss) es).1 = map (packet_for tag) ds /\ tp_backlog (tproxy_run tag (mkTp [] ss) es).2 = [].
Proof.
  intros H. revert ss. induction H as [|now es ds _ IH|now new es ds Hn _ IH]; intros ss; [done| |]; cbn [tproxy_run tproxy_turn tp_backlog tp_sessions app].
  - specialize (IH (tproxy_gc now ss)). by destruct (tproxy_run tag (mkTp [] (tproxy_gc now ss)) es).
  - destruct (read_backlog_all tag now new [] ss Hn) as (ss' & E). rewrite app_nil_r in E. rewrite E. cbn [read_backlog fst snd]. rewrite app_nil_r.
    specialize (IH ss'). destruct (tproxy_run tag (mkTp [] ss') es) as [ps s]. cbn [fst snd] in *. destruct IH as [-> ->]. by rewrite map_app.
Qed.

Definition dg (d : str) : datagram := mkDatagram d {| ip := V4 0x0A000002; sock_port := 40000 |} {| ip := V4 0x08080808; sock_port := 53 |} [].

Lemma tproxy_hands_on_witness :
  turns [TpReadable 1 (map received [dg (lit "a"); dg (lit "b")]); TpTick 400; TpReadable 401 (map received [dg (lit "c")])] [dg (lit "a"); dg (lit "b"); dg (lit "c")] /\
  (tproxy_run (lit "tp") (mkTp [] ∅) [TpReadable 1 (map received [dg (lit "a"); dg (lit "b")]); TpTick 400; TpReadable 401 (map received [dg (lit "c")])]).1 =
    map (packet_for (lit "tp")) [dg (lit "a"); dg (lit "b"); dg (lit "c")].
Proof.
  assert (H : forall d, len d <= 65535 -> datagram_ok (dg d)) by (intros d Hd; split_and!; try done; split; done).
  assert (Ht : turns [TpReadable 1 (map received [dg (lit "a"); dg (lit "b")]); TpTick 400; TpReadable 401 (map received [dg (lit "c")])] ([dg (lit "a"); dg (lit "b")] ++ [dg (lit "c")] ++ [])).
  { apply turns_read; [apply Forall_cons; split; [by apply H|apply Forall_cons; split; [by apply H|constructor]]|].
    apply turns_tick, turns_read; [apply Forall_cons; split; [by apply H|constructor]|apply turns_nil]. }
  split; [exact Ht|]. exact (proj1 (tproxy_hands_on (lit "tp") _ _ ∅ Ht)).
Defined.

(** An error stops the reading: what is behind it waits until something new arrives, although the readiness was taken. *)
Lemma tproxy_error_strands tag now e ds ss : recvmsg_with_dst e = None ->
  read_backlog tag now (e :: map received ds) ss = ([], mkTp (map received ds) ss).
Proof. intros H. cbn [read_backlog]. by rewrite H. Qed.

(** A clean-up keeps exactly the sessions that are younger than their own limit. *)
Lemma tproxy_gc_keeps now ss k e : tproxy_gc now ss !! k = Some e <-> ss !! k = Some e /\ now - tp_last_seen e < tp_timeout e.
Proof. unfold tproxy_gc. by rewrite map_lookup_filter_Some. Qed.

(** A new session is kept as long as its port says. *)
Lemma touch_session_timeout now src dst ss : (forall e, ss !! (src, dst) = Some e -> tp_timeout e = tproxy_udp_timeout_for_port (sock_port dst)) ->
  touch_session now src dst ss !! (src, dst) = Some (mkTpSession now (tproxy_udp_timeout_for_port (sock_port dst))).
Proof. intros H. unfold touch_session. rewrite lookup_insert_eq. destruct (ss !! (src, dst)) as [e|] eqn:E; [|done]. by rewrite H. Qed.

(** ** The DNS server answers the proxy's own client *)

Lemma dns_in_tcp_same fuel answer input : dns_in_tcp fuel answer input = handle_dns_tcp fuel answer input.
Proof.
  revert input. induction fuel as [|fuel IH]; intros input; [done|]. cbn [dns_in_tcp handle_dns_tcp]. case_if; [done|]. cbv zeta. rewrite Z.gtb_ltb.
  destruct (4096 <? _); [done|]. case_if; [done|]. destruct (answer _); [|done]. by rewrite IH.
Qed.

(** A query over TCP to the DNS inbound gets the answer of its resolver. *)
Lemma dns_inbound_answers (answer : bytes -> option bytes) (msg resp : bytes) : bytes_ok msg -> len msg <= 4096 -> answer msg = Some resp -> 12 <= len resp <= 65535 ->
  exists out, dns_in_tcp (S (length (dns_frame msg))) answer (dns_frame msg) = Ret (Ok tt, out) /\ exchange_on (tcp_framed_exchange msg) out = Ok resp.
Proof.
  intros Hb Hm Ha Hr. exists (dns_frame resp). split.
  - rewrite dns_in_tcp_same. destruct (dns_tcp_framing answer [msg] [resp] [] (dns_frame msg)) as [_ H].
    + constructor; [split_and!; [done|done|lia]|constructor].
    + done.
    + unfold dns_frame. apply bytes_ok_app. split; [apply to_be_bytes_ok|done].
    + cbn [map concat] in H. rewrite !app_nil_r in H. by apply H.
  - unfold exchange_on, tcp_framed_exchange, read_u16, dns_frame. cbn [write_all read_exact wbind play].
    rewrite (proj2 (Nat.ltb_ge _ _)) by (rewrite length_app, length_to_be_bytes; lia).
    rewrite take_app_length', drop_app_length' by (by rewrite length_to_be_bytes). rewrite from_to_be_bytes_id by (cbn; lia).
    unfold wensure. rewrite (proj2 (Z.leb_le 12 _)), (proj2 (Z.leb_le _ 65535)) by lia. cbn [wbind read_exact play].
    rewrite (proj2 (Nat.ltb_ge _ _)) by (unfold len; lia). rewrite firstn_all2 by (unfold len; lia). done.
Qed.

(** ** The direct outbound *)

(** Whoever answers, the client sees the address it wrote to. *)
Example any_sender_accepted client dst stranger :
  direct_replies client dst [(false, DReply (lit "forged") stranger); (false, DEnd)] = [(lit "forged", client, dst)].
Proof. reflexivity. Qed.

(** An IPv6 address to bind to has to be written in brackets. *)
Example bind_ipv6 : tcp_bind_addr (Some (lit "::1")) = Err MalformedRequest /\
  tcp_bind_addr (Some (lit "[::1]")) = Ok (Some {| ip := V6 1; sock_port := 0 |}) /\
  tcp_bind_addr (Some (lit "10.0.0.1")) = Ok (Some {| ip := V4 0x0A000001; sock_port := 0 |}).
Proof. vm_compute. done. Qed.
