(* ===== verification/TunRoute.v ===== *)
(** * TunRoute: the routes of the TUN inbound, [mod platform] of [src/inbound/tun.rs].

    With [auto_route] the device's start runs a list of commands, and the end of its
    packet loop another one.  Both are modelled as the commands that are run, for
    Linux, macOS and Windows.  What [ip rule] does with its arguments is an
    interface, [IpTool], with the documented behaviour of adding and deleting a rule;
    its instance [ToyIp] keeps the two lists of priorities. *)

From S2P Require Import Prelude RustStr TunNat TunPacket TunUid.

Local Open Scope reflex_scope.

(** A program and its arguments. *)
Definition cmd : Type := (str * list str)%type.

Record TunInboundConfig : Type := mkTunInbound {
  rt_address : list str;
  iproute2_table_index : Z;
  iproute2_rule_index : Z;
  strict_route : bool;
  include_interface : list str;
  exclude_interface : list str;
  include_uid : list Z;
  exclude_uid : list Z
}.

(** The two families of addresses. *)
Inductive fam : Type := F4 | F6.

#[export] Instance fam_eq_dec : EqDecision fam.
Proof. solve_decision. Defined.

(** ** Linux *)

Definition ip_cmd (args : list str) : cmd := (lit "ip", args).
Definition ip6_cmd (args : list str) : cmd := (lit "ip", lit "-6" :: args).
Definition ip_of (f : fam) : list str -> cmd := match f with F4 => ip_cmd | F6 => ip6_cmd end.

(** [parse_addresses]: the valid entries, by family. *)
Definition parse_addresses (cfg : TunInboundConfig) : list (Z * Z) * list (Z * Z) :=
  let ps := omap parse_addr_prefix (rt_address cfg) in
  (omap (fun x => match x with (V4 a, l) => Some (a, l) | _ => None end) ps,
   omap (fun x => match x with (V6 a, l) => Some (a, l) | _ => None end) ps).

(** [x & !((1 << (w - min(pl, w))) - 1)]; the shift amount wraps at the width. *)
Definition network_of (w a pl : Z) : Z := Z.land a (wnot w (wshl w 1 ((w - Z.min pl w) mod w) - 1)).
Definition v4_network (a pl : Z) : Z := network_of 32 a pl.
Definition v6_network (a pl : Z) : Z := network_of 128 a pl.

(** The counters of [setup] and the commands it has run. *)
Record route_st : Type := mkRoute { p4 : Z; p6 : Z; cmds : list cmd }.

Definition prio (f : fam) (st : route_st) : Z := match f with F4 => p4 st | F6 => p6 st end.

Definition run_ip (c : cmd) (st : route_st) : route_st := mkRoute (p4 st) (p6 st) (cmds st ++ [c]).

Definition rule_add (f : fam) (p : Z) (body : list str) : cmd :=
  ip_of f ([lit "rule"; lit "add"; lit "priority"; show_uint p] ++ body).
Definition rule_del (f : fam) (p : Z) : cmd := ip_of f [lit "rule"; lit "del"; lit "priority"; show_uint p].

(** One rule at the family's counter, which goes up. *)
Definition ip_rule (f : fam) (body : list str) (st : route_st) : route_st :=
  let st' := run_ip (rule_add f (prio f st) body) st in
  match f with
  | F4 => mkRoute (as_u32 (p4 st + 1)) (p6 st) (cmds st')
  | F6 => mkRoute (p4 st) (as_u32 (p6 st + 1)) (cmds st')
  end.

Definition if_family (b : bool) (g : route_st -> route_st) (st : route_st) : route_st := if b then g st else st.

(** [for x in l { body(x) }] *)
Definition for_each {A} (g : A -> route_st -> route_st) (l : list A) (st : route_st) : route_st :=
  fold_left (fun st x => g x st) l st.

Section Setup.
Context (cfg : TunInboundConfig) (if_name : str).

Let table : str := show_uint (iproute2_table_index cfg).
Definition nop_prio : Z := as_u32 (iproute2_rule_index cfg + 100).
Let nop : str := show_uint nop_prio.
Let inet4 : list (Z * Z) := (parse_addresses cfg).1.
Let inet6 : list (Z * Z) := (parse_addresses cfg).2.
Definition has_v4 : bool := negb (bool_decide (inet4 = [])).
Definition has_v6 : bool := negb (bool_decide (inet6 = [])).

(** The rule in each family the device has. *)
Definition both_rules (body : list str) (st : route_st) : route_st := if_family has_v6 (ip_rule F6 body) (if_family has_v4 (ip_rule F4 body) st).

(** The default route of each family goes through the address after the device's. *)
Definition default_routes (st : route_st) : route_st :=
  let st := match inet4 with
            | (gw_ip, _) :: _ =>
                run_ip (ip_cmd [lit "route"; lit "add"; lit "0.0.0.0/0"; lit "via"; show_ipv4 (wrap 32 (gw_ip + 1)); lit "dev"; if_name;
                             lit "table"; table]) st
            | [] => st
            end in
  match inet6 with
  | (gw_ip, _) :: _ =>
      run_ip (ip6_cmd [lit "route"; lit "add"; lit "::/0"; lit "via"; show_ipv6 (wrap 128 (gw_ip + 1)); lit "dev"; if_name;
                    lit "table"; table]) st
  | [] => st
  end.

Definition uid_rule (r : range) : list str := [lit "uidrange"; show_uint r.1 ++ [45] ++ show_uint r.2; lit "goto"; nop].

(** 1. The excluded users. *)
Definition uid_rules (st : route_st) : route_st :=
  for_each (fun r => both_rules (uid_rule r)) (build_excluded_uid_ranges (include_uid cfg) (exclude_uid cfg)) st.

(** 2. The interfaces. *)
Definition iface_rules (st : route_st) : route_st :=
  if negb (bool_decide (include_interface cfg = [])) then
    both_rules [lit "goto"; nop] (for_each (fun i => both_rules [lit "iif"; i; lit "lookup"; table]) (include_interface cfg) st)
  else if negb (bool_decide (exclude_interface cfg = [])) then
    for_each (fun i => both_rules [lit "iif"; i; lit "goto"; nop]) (exclude_interface cfg) st
  else st.

(** 3. [strict_route]: a family the device has not is unreachable. *)
Definition strict_rules (st : route_st) : route_st :=
  if strict_route cfg then
    if_family (negb has_v6) (ip_rule F6 [lit "type"; lit "unreachable"]) (if_family (negb has_v4) (ip_rule F4 [lit "type"; lit "unreachable"]) st)
  else st.

Definition show_net4 (x : Z * Z) : str := show_ipv4 (v4_network x.1 x.2) ++ [47] ++ show_uint x.2.
Definition show_net6 (x : Z * Z) : str := show_ipv6 (v6_network x.1 x.2) ++ [47] ++ show_uint x.2.

(** 4. The device's own networks. *)
Definition subnet_rules (st : route_st) : route_st :=
  for_each (fun x => ip_rule F6 [lit "to"; show_net6 x; lit "lookup"; table]) inet6
    (for_each (fun x => ip_rule F4 [lit "to"; show_net4 x; lit "lookup"; table]) inet4 st).

(** 5. and 6. The main routes but the default one, and what the device sends. *)
Definition suppress_rules (st : route_st) : route_st :=
  both_rules [lit "not"; lit "iif"; lit "lo"; lit "lookup"; table; lit "suppress_prefixlength"; lit "0"] st.
Definition device_rules (st : route_st) : route_st := both_rules [lit "iif"; if_name; lit "goto"; nop] st.

(** 7. The rest goes to the device. *)
Definition final_rules (st : route_st) : route_st :=
  if_family has_v6 (fun st =>
      for_each (fun x => ip_rule F6 [lit "iif"; lit "lo"; lit "from"; show_net6 x; lit "lookup"; table]) inet6
        (ip_rule F6 [lit "not"; lit "iif"; lit "lo"; lit "lookup"; table] st))
    (if_family has_v4 (fun st =>
      for_each (fun x => ip_rule F4 [lit "iif"; lit "lo"; lit "from"; show_net4 x; lit "lookup"; table]) inet4
        (ip_rule F4 [lit "not"; lit "iif"; lit "lo"; lit "lookup"; table] st)) st).

(** 8. The target of [goto]: a rule without action. *)
Definition anchor (st : route_st) : route_st :=
  if_family has_v6 (run_ip (rule_add F6 nop_prio [])) (if_family has_v4 (run_ip (rule_add F4 nop_prio [])) st).

Definition setup_state : route_st :=
  let base := iproute2_rule_index cfg in
  let st := run_ip (ip_cmd [lit "link"; lit "set"; if_name; lit "up"]) (mkRoute base base []) in
  anchor (final_rules (device_rules (suppress_rules (subnet_rules (strict_rules (iface_rules (uid_rules (default_routes st)))))))).

(** The commands, and the text written to the state file. *)
Definition setup : list cmd * str :=
  let st := setup_state in
  (cmds st, show_uint (p4 st) ++ [32] ++ show_uint (p6 st) ++ [32] ++ show_uint nop_prio).

(** The priorities the state file holds, or the default ones. *)
Definition recorded (state : option str) : Z * Z * Z :=
  let base := iproute2_rule_index cfg in
  let fallback := (as_u32 (base + 120), as_u32 (base + 120), as_u32 (base + 100)) in
  match state with
  | Some s =>
      match omap (parse_uint (2 ^ 32 - 1)) (split_whitespace s) with
      | [a; b; c] => (a, b, c)
      | _ => fallback
      end
  | None => fallback
  end.

(** [a..=b] *)
Definition range_incl (a b : Z) : list Z := seqZ a (b + 1 - a).

Definition delete_rules (f : fam) (last : Z) : list cmd :=
  flat_map (fun p => replicate 3 (rule_del f p)) (range_incl (iproute2_rule_index cfg) last).

Definition teardown (state : option str) : list cmd :=
  let '(p4_max, p6_max, nop) := recorded state in
  [ip_cmd [lit "route"; lit "flush"; lit "table"; table]; ip6_cmd [lit "route"; lit "flush"; lit "table"; table]]
  ++ delete_rules F4 (Z.max p4_max nop) ++ delete_rules F6 (Z.max p6_max nop).

End Setup.

(** ** The rules that [setup] adds *)

Section Plan.
Context (cfg : TunInboundConfig) (if_name : str).

Let table : str := show_uint (iproute2_table_index cfg).
Let nop : str := show_uint (nop_prio cfg).

Definition has_family (f : fam) : bool := match f with F4 => has_v4 cfg | F6 => has_v6 cfg end.

(** The networks of a family, as text. *)
Definition nets (f : fam) : list str :=
  match f with
  | F4 => map show_net4 (parse_addresses cfg).1
  | F6 => map show_net6 (parse_addresses cfg).2
  end.

Definition iface_plan : list (list str) :=
  if negb (bool_decide (include_interface cfg = [])) then
    map (fun i => [lit "iif"; i; lit "lookup"; table]) (include_interface cfg) ++ [[lit "goto"; nop]]
  else map (fun i => [lit "iif"; i; lit "goto"; nop]) (exclude_interface cfg).

(** The rules of one family in order, without their priorities. *)
Definition plan (f : fam) : list (list str) :=
  if has_family f then
    map (uid_rule cfg) (build_excluded_uid_ranges (include_uid cfg) (exclude_uid cfg)) ++ iface_plan
    ++ map (fun n => [lit "to"; n; lit "lookup"; table]) (nets f)
    ++ [[lit "not"; lit "iif"; lit "lo"; lit "lookup"; table; lit "suppress_prefixlength"; lit "0"];
        [lit "iif"; if_name; lit "goto"; nop]; [lit "not"; lit "iif"; lit "lo"; lit "lookup"; table]]
    ++ map (fun n => [lit "iif"; lit "lo"; lit "from"; n; lit "lookup"; table]) (nets f)
  else if strict_route cfg then [[lit "type"; lit "unreachable"]] else [].

End Plan.

(** The arguments of an [ip rule] command of a family. *)
Definition rule_args (f : fam) (c : cmd) : option (list str) :=
  match f, c.2 with
  | F4, a :: args => if bool_decide (a = lit "rule") then Some args else None
  | F6, a :: b :: args => if bool_decide (a = lit "-6") && bool_decide (b = lit "rule") then Some args else None
  | _, _ => None
  end.

Definition added (f : fam) (cs : list cmd) : list (list str) := omap (rule_args f) cs.

Definition numbered_rule (p : Z) (body : list str) : list str := [lit "add"; lit "priority"; show_uint p] ++ body.

Fixpoint number (p : Z) (bodies : list (list str)) : list (list str) :=
  match bodies with
  | [] => []
  | b :: bodies => numbered_rule p b :: number (as_u32 (p + 1)) bodies
  end.

Fixpoint advance_prio (p : Z) (bodies : list (list str)) : Z :=
  match bodies with
  | [] => p
  | _ :: bodies => advance_prio (as_u32 (p + 1)) bodies
  end.

Lemma number_app p l1 l2 : number p (l1 ++ l2) = number p l1 ++ number (advance_prio p l1) l2.
Proof. revert p. induction l1 as [|b l1 IH]; intros p; [done|]. cbn. by rewrite IH. Qed.

Lemma advance_app p l1 l2 : advance_prio p (l1 ++ l2) = advance_prio (advance_prio p l1) l2.
Proof. revert p. induction l1 as [|b l1 IH]; intros p; [done|apply IH]. Qed.

Lemma advance_small p l : 0 <= p -> p + len l < 2 ^ 32 -> advance_prio p l = p + len l.
Proof.
  revert p. induction l as [|b l IH]; intros p Hp Hl; cbn; [rewrite len_nil; lia|]. rewrite len_cons in *. pose proof (len_nonneg l).
  unfold as_u32. rewrite wrap_succ by lia. rewrite (IH (p + 1)) by lia. lia.
Qed.

Lemma number_small p l : 0 <= p -> p + len l < 2 ^ 32 -> number p l = zip_with numbered_rule (seqZ p (len l)) l.
Proof.
  revert p. induction l as [|b l IH]; intros p Hp Hl; [done|]. rewrite len_cons in *. pose proof (len_nonneg l).
  rewrite seqZ_cons by lia. cbn. unfold as_u32. rewrite wrap_succ by lia. rewrite IH by lia.
  by replace (Z.pred (1 + len l)) with (len l) by lia.
Qed.

(** A command is the addition of a rule, or no [ip rule] command at all. *)
Definition plain_cmd (c : cmd) : Prop :=
  (exists f p body, c = rule_add f p body /\ in_width 32 p) \/ (forall f, rule_args f c = None).

Definition sound_st (st : route_st) : Prop := (forall f, in_width 32 (prio f st)) /\ Forall plain_cmd (cmds st).

(** [g] adds the rules [d f] to each family [f]. *)
Definition puts (g : route_st -> route_st) (d : fam -> list (list str)) : Prop :=
  forall st, sound_st st -> sound_st (g st) /\
    forall f, prio f (g st) = advance_prio (prio f st) (d f) /\ added f (cmds (g st)) = added f (cmds st) ++ number (prio f st) (d f).

Lemma added_app f cs1 cs2 : added f (cs1 ++ cs2) = added f cs1 ++ added f cs2.
Proof. apply omap_app. Qed.

Lemma rule_args_add f g p body : rule_args f (rule_add g p body) = if decide (f = g) then Some (numbered_rule p body) else None.
Proof. by destruct f, g. Qed.

Lemma puts_id : puts (fun st => st) (fun _ => []).
Proof. intros st Hg. split; [done|]. intros f. by rewrite app_nil_r. Qed.

Lemma puts_comp g h d e : puts g d -> puts h e -> puts (fun st => h (g st)) (fun f => d f ++ e f).
Proof.
  intros Hg Hh st Hst. destruct (Hg st Hst) as [Hst' H1]. destruct (Hh _ Hst') as [Hst'' H2]. split; [done|]. intros f.
  destruct (H1 f) as [E1 E2], (H2 f) as [E3 E4]. rewrite E3, E4, E1, E2, advance_app, number_app. by rewrite app_assoc.
Qed.

Lemma puts_ext g d e : puts g d -> (forall f, d f = e f) -> puts g e.
Proof. intros Hg He st Hst. destruct (Hg st Hst) as [Hst' H]. split; [done|]. intros f. rewrite <-He. apply H. Qed.

Lemma puts_run c : (forall f, rule_args f c = None) -> puts (run_ip c) (fun _ => []).
Proof.
  intros Hc st [Hp Hf]. split.
  - split; [intros f; apply (Hp f)|]. apply Forall_app. split; [done|]. apply Forall_singleton. by right.
  - intros f. split; [by destruct f|]. cbn [cmds run_ip]. rewrite added_app. unfold added at 2. cbn [omap list_omap]. by rewrite Hc.
Qed.

Lemma puts_rule g body : puts (ip_rule g body) (fun f => if decide (f = g) then [body] else []).
Proof.
  intros st [Hp Hf]. split.
  - split.
    + intros f. specialize (Hp f). assert (H : forall x, in_width 32 (as_u32 x)) by (intros x; apply Z.mod_pos_bound; lia).
      destruct f, g; cbn in *; auto.
    + assert (Hall : Forall plain_cmd (cmds st ++ [rule_add g (prio g st) body])); [|by destruct g].
      apply Forall_app. split; [done|]. apply Forall_singleton. left. by exists g, (prio g st), body.
  - intros f. split; [by destruct f, g|].
    replace (cmds (ip_rule g body st)) with (cmds st ++ [rule_add g (prio g st) body]) by (by destruct g).
    rewrite added_app. unfold added at 2. cbn [omap list_omap]. rewrite rule_args_add. case_decide as E; [by subst|done].
Qed.

Lemma puts_when (b : bool) g d : puts g d -> puts (if_family b g) (fun f => if b then d f else []).
Proof. intros H. destruct b; [exact H|apply puts_id]. Qed.

Lemma puts_each {A} (g : A -> route_st -> route_st) (d : A -> fam -> list (list str)) (l : list A) :
  (forall x, puts (g x) (d x)) -> puts (for_each g l) (fun f => flat_map (fun x => d x f) l).
Proof. intros H. induction l as [|x l IH]; [apply puts_id|]. exact (puts_comp (g x) (for_each g l) _ _ (H x) IH). Qed.

Section SetupPuts.
Context (cfg : TunInboundConfig) (if_name : str).

Lemma puts_both body : puts (both_rules cfg body) (fun f => if has_family cfg f then [body] else []).
Proof.
  unfold both_rules. eapply puts_ext.
  - apply (puts_comp (if_family (has_v4 cfg) (ip_rule F4 body)) (if_family (has_v6 cfg) (ip_rule F6 body))); apply puts_when, puts_rule.
  - intros []; cbn [has_family]; [by destruct (has_v4 cfg), (has_v6 cfg)|by destruct (has_v4 cfg), (has_v6 cfg)].
Qed.

Lemma puts_each_both {A} (b : A -> list str) (l : list A) :
  puts (for_each (fun x => both_rules cfg (b x)) l) (fun f => if has_family cfg f then map b l else []).
Proof.
  eapply puts_ext; [apply puts_each; intros x; apply puts_both|]. intros f. cbn.
  induction l as [|x l IH]; [by destruct (has_family cfg f)|]. cbn. rewrite IH. by destruct (has_family cfg f).
Qed.

Lemma puts_each_rule {A} g (b : A -> list str) (l : list A) :
  puts (for_each (fun x => ip_rule g (b x)) l) (fun f => if decide (f = g) then map b l else []).
Proof.
  eapply puts_ext; [apply puts_each; intros x; apply puts_rule|]. intros f. cbn.
  induction l as [|x l IH]; [by case_decide|]. cbn. rewrite IH. by case_decide.
Qed.

Lemma puts_uid : puts (uid_rules cfg)
  (fun f => if has_family cfg f then map (uid_rule cfg) (build_excluded_uid_ranges (include_uid cfg) (exclude_uid cfg)) else []).
Proof. apply puts_each_both. Qed.

Lemma puts_iface : puts (iface_rules cfg) (fun f => if has_family cfg f then iface_plan cfg else []).
Proof.
  unfold iface_rules, iface_plan. case_bool_decide as E1; cbn [negb].
  - case_bool_decide as E2; cbn [negb]; [|apply puts_each_both]. rewrite E2.
    eapply puts_ext; [apply puts_id|]. intros f. by destruct (has_family cfg f).
  - eapply puts_ext; [apply (puts_comp _ _ _ _ (puts_each_both _ _) (puts_both _))|].
    intros f. cbn. by destruct (has_family cfg f).
Qed.

Lemma puts_strict : puts (strict_rules cfg) (fun f => if has_family cfg f then [] else if strict_route cfg then [[lit "type"; lit "unreachable"]] else []).
Proof.
  unfold strict_rules. destruct (strict_route cfg).
  - eapply puts_ext; [apply (puts_comp (if_family (negb (has_v4 cfg)) (ip_rule F4 _)) (if_family (negb (has_v6 cfg)) (ip_rule F6 _))); apply puts_when, puts_rule|].
    intros []; cbn [has_family]; by destruct (has_v4 cfg), (has_v6 cfg).
  - eapply puts_ext; [apply puts_id|]. intros f. by destruct (has_family cfg f).
Qed.

Lemma has_nets f : has_family cfg f = negb (bool_decide (nets cfg f = [])).
Proof.
  destruct f; cbn [has_family nets]; unfold has_v4, has_v6; f_equal; apply bool_decide_ext.
  - by destruct (parse_addresses cfg).1.
  - by destruct (parse_addresses cfg).2.
Qed.

Lemma puts_subnet :
  puts (subnet_rules cfg) (fun f => map (fun n => [lit "to"; n; lit "lookup"; show_uint (iproute2_table_index cfg)]) (nets cfg f)).
Proof.
  unfold subnet_rules. eapply puts_ext; [apply (puts_comp _ _ _ _ (puts_each_rule F4 _ _) (puts_each_rule F6 _ _))|].
  intros []; cbn [nets]; rewrite map_map.
  - rewrite decide_True, decide_False by done. by rewrite app_nil_r.
  - by rewrite decide_False, decide_True by done.
Qed.

Lemma puts_final : puts (final_rules cfg)
  (fun f => if has_family cfg f then [lit "not"; lit "iif"; lit "lo"; lit "lookup"; show_uint (iproute2_table_index cfg)]
      :: map (fun n => [lit "iif"; lit "lo"; lit "from"; n; lit "lookup"; show_uint (iproute2_table_index cfg)]) (nets cfg f) else []).
Proof.
  unfold final_rules.
  eapply puts_ext; [apply (puts_comp (if_family (has_v4 cfg) _) (if_family (has_v6 cfg) _)); apply puts_when;
    apply (puts_comp (ip_rule _ _) (for_each _ _) _ _ (puts_rule _ _) (puts_each_rule _ _ _))|].
  intros []; cbn [has_family nets]; rewrite map_map.
  - rewrite !(decide_True (P := F4 = F4)), !(decide_False (P := F4 = F6)) by done. destruct (has_v4 cfg), (has_v6 cfg); by rewrite ?app_nil_r.
  - rewrite !(decide_True (P := F6 = F6)), !(decide_False (P := F6 = F4)) by done. by destruct (has_v4 cfg), (has_v6 cfg).
Qed.

Lemma puts_routes : puts (default_routes cfg if_name) (fun _ => []).
Proof.
  unfold default_routes. intros st Hst.
  destruct (parse_addresses cfg).1 as [|[a la] l4], (parse_addresses cfg).2 as [|[b lb] l6].
  - by apply puts_id.
  - apply puts_run; [by intros []|done].
  - apply puts_run; [by intros []|done].
  - apply (puts_comp (run_ip _) (run_ip _) (fun _ => []) (fun _ => [])); [apply puts_run; by intros []..|done].
Qed.

(** All the rules but the anchor. *)
Lemma puts_rules : puts (fun st => final_rules cfg (device_rules cfg if_name (suppress_rules cfg (subnet_rules cfg (strict_rules cfg
    (iface_rules cfg (uid_rules cfg (default_routes cfg if_name st)))))))) (plan cfg if_name).
Proof.
  eapply puts_ext.
  - apply (puts_comp _ _ _ _ (puts_comp _ _ _ _ (puts_comp _ _ _ _ (puts_comp _ _ _ _ (puts_comp _ _ _ _ (puts_comp _ _ _ _ (puts_comp _ _ _ _
      puts_routes puts_uid) puts_iface) puts_strict) puts_subnet) (puts_both _)) (puts_both _)) puts_final).
  - intros f. unfold plan. cbn [app]. pose proof (has_nets f) as Hn. destruct (has_family cfg f).
    + by rewrite app_nil_r, <-!app_assoc.
    + case_bool_decide as E; [rewrite E|done]. by rewrite !app_nil_r.
Qed.

Lemma setup_rules f :
  in_width 32 (iproute2_rule_index cfg) ->
  Forall plain_cmd (setup cfg if_name).1 /\
  added f (setup cfg if_name).1
  = number (iproute2_rule_index cfg) (plan cfg if_name f) ++ (if has_family cfg f then [numbered_rule (nop_prio cfg) []] else []) /\
  prio f (setup_state cfg if_name) = advance_prio (iproute2_rule_index cfg) (plan cfg if_name f).
Proof.
  intros Hb. set (base := iproute2_rule_index cfg) in *.
  set (st0 := run_ip (ip_cmd [lit "link"; lit "set"; if_name; lit "up"]) (mkRoute base base [])).
  assert (Hst0 : sound_st st0).
  { apply (puts_run (ip_cmd [lit "link"; lit "set"; if_name; lit "up"])); [by intros []|]. split; [by intros []|constructor]. }
  destruct (puts_rules st0 Hst0) as [[Hp Hf] H]. specialize (H f). destruct H as [E1 E2].
  unfold setup, setup_state. fold base. fold st0. set (st1 := final_rules _ _) in *. cbn [fst].
  assert (Ha : forall p b g, in_width 32 p -> Forall plain_cmd [rule_add g p b]).
  { intros p b g Hw. apply Forall_singleton. left. by exists g, p, b. }
  assert (Hn : in_width 32 (nop_prio cfg)) by (apply Z.mod_pos_bound; lia).
  split; [|split].
  - unfold anchor, if_family. destruct (has_v4 cfg), (has_v6 cfg); cbn [cmds run_ip]; rewrite ?Forall_app; auto.
  - transitivity (added f (cmds st1) ++ (if has_family cfg f then [numbered_rule (nop_prio cfg) []] else [])).
    + unfold anchor, if_family. destruct f; cbn [has_family]; destruct (has_v4 cfg), (has_v6 cfg); cbn [cmds run_ip]; rewrite ?added_app; cbn; by rewrite ?app_nil_r.
    + rewrite E2. by destruct f.
  - unfold anchor, if_family. transitivity (prio f st1); [destruct f, (has_v4 cfg), (has_v6 cfg); done|]. rewrite E1. by destruct f.
Qed.

End SetupPuts.

(** C39. The policy routes on Linux: with room above the configured priority, the
    rules [setup] adds to each family are exactly those of the plan, numbered one by
    one from that priority, then the anchor at the priority plus 100; the anchor, to
    which the [goto] rules jump, comes after all of them exactly when there are at
    most 100. *)
Theorem linux_setup (cfg : TunInboundConfig) (if_name : str) (f : fam) :
  let base := iproute2_rule_index cfg in
  let n := len (plan cfg if_name f) in
  0 <= base -> base + Z.max n 100 < 2 ^ 32 ->
  added f (setup cfg if_name).1
  = zip_with numbered_rule (seqZ base n) (plan cfg if_name f) ++ (if has_family cfg f then [numbered_rule (base + 100) []] else []) /\
  (n <= 100 <-> Forall (fun p => p < nop_prio cfg) (seqZ base n)).
Proof.
  intros base n Hb Hn. destruct (setup_rules cfg if_name f) as (_ & -> & _); [unfold in_width; subst base; lia|].
  assert (E : nop_prio cfg = base + 100) by (unfold nop_prio, as_u32, wrap; rewrite Z.mod_small; lia).
  rewrite number_small by lia. rewrite E. split; [done|]. rewrite Forall_seqZ. pose proof (len_nonneg (plan cfg if_name f)).
  split; [intros; lia|]. intros H'. destruct (decide (n <= 100)) as [|Hgt]; [done|]. specialize (H' (base + 100)). lia.
Qed.

Definition sample_routes : TunInboundConfig :=
  mkTunInbound [lit "172.19.0.1/30"; lit "fdfe::1/126"; lit "no address"] 2022 9000 true [] [lit "docker0"] [] [0].

(** Every second user included: their complement has more ranges than there is room for. *)
Definition crowded_tun : TunInboundConfig :=
  mkTunInbound [lit "172.19.0.1/30"] 2022 9000 false [] [] (map (fun i => 2 * i) (seqZ 0 101)) [].

Lemma linux_setup_witness :
  added F4 (setup sample_routes (lit "tun0")).1
  = zip_with numbered_rule (seqZ 9000 7) (plan sample_routes (lit "tun0") F4) ++ [numbered_rule 9100 []].
Proof. apply (linux_setup sample_routes (lit "tun0") F4); vm_compute; done. Defined.

(** A [goto] to the anchor from behind it. *)
Example crowded_goto :
  numbered_rule 9100 [lit "uidrange"; lit "201-4294967294"; lit "goto"; lit "9100"] ∈ added F4 (setup crowded_tun (lit "tun0")).1 /\
  last (added F4 (setup crowded_tun (lit "tun0")).1) = Some (numbered_rule 9100 []).
Proof. split; [apply (list_elem_of_lookup_2 _ 100); vm_compute; reflexivity|vm_compute; reflexivity]. Qed.

(** ** Setting up and tearing down *)

(** The kernel's rules, as [ip rule] changes them: an addition may fail, a deletion
    removes one rule of its priority if there is one. *)
Class IpTool : Type := {
  kernel : Type;
  run_cmd : cmd -> kernel -> kernel;
  rules : fam -> kernel -> list Z
}.

Class IpToolLaws {IT : IpTool} : Prop := {
  add_rule_law : forall f p body k, in_width 32 p ->
    rules f (run_cmd (rule_add f p body) k) ≡ₚ rules f k \/ rules f (run_cmd (rule_add f p body) k) ≡ₚ p :: rules f k;
  add_other_law : forall f g p body k, g <> f -> rules g (run_cmd (rule_add f p body) k) = rules g k;
  del_rule_law : forall f p k, in_width 32 p -> p ∈ rules f k -> p :: rules f (run_cmd (rule_del f p) k) ≡ₚ rules f k;
  del_none_law : forall f p k, in_width 32 p -> p ∉ rules f k -> rules f (run_cmd (rule_del f p) k) ≡ₚ rules f k;
  del_other_law : forall f g p k, g <> f -> rules g (run_cmd (rule_del f p) k) = rules g k;
  not_rule_law : forall c k f, (forall g, rule_args g c = None) -> rules f (run_cmd c k) = rules f k
}.

Section Restore.
Context {IT : IpTool} {ITL : IpToolLaws}.

Definition exec_cmds (cs : list cmd) (k : kernel) : kernel := fold_left (fun k c => run_cmd c k) cs k.

Lemma exec_app cs1 cs2 k : exec_cmds (cs1 ++ cs2) k = exec_cmds cs2 (exec_cmds cs1 k).
Proof. apply fold_left_app. Qed.

(** The priority of the arguments of a rule. *)
Definition arg_prio (args : list str) : option Z :=
  match args with _ :: _ :: p :: _ => parse_uint (2 ^ 32 - 1) p | _ => None end.

Definition prios (f : fam) (cs : list cmd) : list Z := omap arg_prio (added f cs).

Lemma arg_prio_numbered p body : in_width 32 p -> arg_prio (numbered_rule p body) = Some p.
Proof. unfold in_width. intros Hp. apply parse_show_uint; lia. Qed.

(** Commands add at most the rules they say. *)
Lemma exec_adds f cs k : Forall plain_cmd cs -> exists xs, xs ⊆+ prios f cs /\ rules f (exec_cmds cs k) ≡ₚ xs ++ rules f k.
Proof.
  intros Hcs. revert k. induction Hcs as [|c cs Hc Hcs IH]; intros k; [by exists []|].
  destruct (IH (run_cmd c k)) as (xs & Hxs & E). change (exec_cmds (c :: cs) k) with (exec_cmds cs (run_cmd c k)). unfold prios, added. cbn [omap list_omap].
  destruct Hc as [(g & p & body & -> & Hp)|Hc].
  - rewrite rule_args_add. case_decide as Hg.
    + subst g. cbn [omap list_omap]. rewrite arg_prio_numbered by done. destruct (add_rule_law f p body k Hp) as [E'|E'].
      * exists xs. split; [by apply submseteq_cons|]. by rewrite E, E'.
      * exists (p :: xs). split; [by apply submseteq_skip|]. rewrite E, E'. by rewrite <-Permutation_middle.
    + exists xs. split; [done|]. rewrite E. by rewrite add_other_law.
  - rewrite Hc. exists xs. split; [done|]. rewrite E. by rewrite not_rule_law.
Qed.

Definition prio_count (p : Z) (l : list Z) : nat := length (filter (fun q => q = p) l).

Lemma rule_del_other f g p : g <> f -> rule_args g (rule_del f p) = None.
Proof. by destruct f, g. Qed.

(** Up to [j] rules of one priority are gone after as many deletions. *)
Lemma del_many f p j (R : list Z) : in_width 32 p -> p ∉ R -> forall i k, (i <= j)%nat -> rules f k ≡ₚ replicate i p ++ R ->
  rules f (exec_cmds (replicate j (rule_del f p)) k) ≡ₚ R.
Proof.
  intros Hp HR. induction j as [|j IH]; intros i k Hi E; cbn [replicate exec_cmds fold_left].
  - assert (i = 0%nat) as -> by lia. done.
  - change (rules f (exec_cmds (replicate j (rule_del f p)) (run_cmd (rule_del f p) k)) ≡ₚ R). destruct i as [|i].
    + apply (IH 0%nat); [lia|]. rewrite del_none_law; [done..|]. by rewrite E.
    + apply (IH i); [lia|]. apply (Permutation_cons_inv (a := p)). rewrite del_rule_law; [done..|].
      rewrite E. cbn. by left.
Qed.

Lemma exec_other f g p n k : g <> f -> rules g (exec_cmds (replicate n (rule_del f p)) k) = rules g k.
Proof.
  intros Hg. revert k. induction n as [|n IH]; intros k; [done|].
  change (rules g (exec_cmds (replicate n (rule_del f p)) (run_cmd (rule_del f p) k)) = rules g k). rewrite IH. by apply del_other_law.
Qed.

Lemma split_count p (X : list Z) : X ≡ₚ replicate (prio_count p X) p ++ filter (fun q => q <> p) X.
Proof.
  induction X as [|x X IH]; [done|]. unfold prio_count in *. rewrite !filter_cons. destruct (decide (x = p)) as [->|Hne].
  - rewrite decide_False by tauto. cbn. by rewrite <-IH.
  - rewrite decide_True by done. rewrite <-Permutation_middle. by rewrite <-IH.
Qed.

Lemma count_filter p q (X : list Z) : (prio_count q (filter (fun x => x <> p) X) <= prio_count q X)%nat.
Proof.
  unfold prio_count. induction X as [|x X IH]; [done|]. rewrite !filter_cons.
  destruct (decide (x = p)) as [->|Hne]; [rewrite decide_False by tauto|rewrite decide_True by done; rewrite filter_cons];
    case_decide; cbn [length]; lia.
Qed.

Definition delete_range (f : fam) (ps : list Z) : list cmd := flat_map (fun p => replicate 3 (rule_del f p)) ps.

Lemma del_range f ps (R : list Z) : Forall (in_width 32) ps -> Forall (fun p => p ∉ R) ps -> forall X k,
  Forall (fun p => p ∈ ps) X -> (forall p, (prio_count p X <= 3)%nat) -> rules f k ≡ₚ X ++ R -> rules f (exec_cmds (delete_range f ps) k) ≡ₚ R.
Proof.
  intros Hw HR. induction Hw as [|p ps Hp Hw IH]; intros X k HX Hc E.
  - destruct X as [|x X]; [done|]. inversion_clear HX as [|? ? Hx]. by apply elem_of_nil in Hx.
  - inversion_clear HR as [|? ? Hn HR']. cbn [delete_range flat_map]. rewrite exec_app.
    apply (IH HR' (filter (fun q => q <> p) X)).
    + apply Forall_forall. intros x [Hne Hx]%list_elem_of_filter. rewrite Forall_forall in HX. apply HX, elem_of_cons in Hx. tauto.
    + intros q. etransitivity; [apply count_filter|apply Hc].
    + apply (del_many f p 3 _ Hp) with (i := prio_count p X); [|done|].
      * intros [Hin|Hin]%elem_of_app; [|done]. apply list_elem_of_filter in Hin. tauto.
      * rewrite E. rewrite (split_count p X) at 1. by rewrite app_assoc.
Qed.

Lemma del_range_other f g ps k : g <> f -> rules g (exec_cmds (delete_range f ps) k) = rules g k.
Proof.
  intros Hg. revert k. induction ps as [|p ps IH]; intros k; [done|]. cbn [delete_range flat_map]. rewrite exec_app.
  transitivity (rules g (exec_cmds (replicate 3 (rule_del f p)) k)); [apply IH|by apply exec_other].
Qed.

Lemma count_app_rules p l1 l2 : prio_count p (l1 ++ l2) = (prio_count p l1 + prio_count p l2)%nat.
Proof. unfold prio_count. by rewrite filter_app, length_app. Qed.

Lemma count_submseteq p l1 l2 : l1 ⊆+ l2 -> (prio_count p l1 <= prio_count p l2)%nat.
Proof.
  intros [l E]%submseteq_Permutation. transitivity (prio_count p (l1 ++ l)); [rewrite count_app_rules; lia|].
  unfold prio_count. by rewrite E.
Qed.

Lemma count_NoDup p l : NoDup l -> (prio_count p l <= 1)%nat.
Proof.
  intros Hl. destruct (decide (p ∈ l)) as [[l1 [l2 ->]]%list_elem_of_split|Hn].
  - apply NoDup_app in Hl as (_ & H1 & H2). apply NoDup_cons in H2 as [H2 _]. rewrite count_app_rules. unfold prio_count.
    rewrite filter_cons_True by done. assert (H : forall l, p ∉ l -> filter (fun q => q = p) l = []).
    { intros l Hl. induction l as [|x l IH]; [done|]. rewrite not_elem_of_cons in Hl. rewrite filter_cons_False by (intros ->; tauto). tauto. }
    rewrite (H l2 H2). rewrite (H l1); [done|]. intros Hin. apply (H1 p Hin). by left.
  - unfold prio_count. replace (filter (fun q => q = p) l) with (@nil Z); [cbn; lia|]. clear Hl.
    induction l as [|x l IH]; [done|]. rewrite not_elem_of_cons in Hn. rewrite filter_cons_False by (intros ->; tauto). tauto.
Qed.

Lemma omap_numbered ps bs : Forall (in_width 32) ps -> length ps = length bs -> omap arg_prio (zip_with numbered_rule ps bs) = ps.
Proof.
  intros Hw. revert bs. induction Hw as [|p ps Hp Hw IH]; intros [|b bs] Hl; try done. cbn [zip_with omap list_omap].
  rewrite arg_prio_numbered by done. f_equal. apply IH. by injection Hl.
Qed.

Lemma recorded_setup cfg if_name :
  in_width 32 (p4 (setup_state cfg if_name)) -> in_width 32 (p6 (setup_state cfg if_name)) ->
  recorded cfg (Some (setup cfg if_name).2) = (p4 (setup_state cfg if_name), p6 (setup_state cfg if_name), nop_prio cfg).
Proof.
  assert (Hn : in_width 32 (nop_prio cfg)) by (apply Z.mod_pos_bound; lia).
  unfold in_width in *. intros H4 H6. unfold recorded, setup. cbn [snd]. unfold split_whitespace.
  assert (Hg : forall n, 0 <= n -> Forall graphic (show_uint n)) by apply show_uint_graphic.
  assert (Hne : forall n, [] ++ show_uint n <> []) by apply show_uint_nonempty.
  change (?a ++ [32] ++ ?b ++ [32] ++ ?c) with (a ++ 32 :: b ++ 32 :: c). rewrite !split_ws_word, split_ws_last by (apply Hne || apply Hg; lia). cbn [app omap list_omap]. by rewrite !parse_show_uint by lia.
Qed.

Section Enough.
Context (cfg : TunInboundConfig) (if_name : str).

Let base : Z := iproute2_rule_index cfg.
Let n (f : fam) : Z := len (plan cfg if_name f).

(** The last priority in use, or the anchor's. *)
Let top (f : fam) : Z := base + Z.max (n f) 100.

Context (Hb : 0 <= base) (Hmax : forall f, top f < 2 ^ 32).

Local Lemma base_width : in_width 32 (iproute2_rule_index cfg).
Proof. pose proof (Hmax F4). unfold in_width. subst n top base. cbn beta in *. lia. Qed.

Local Lemma used_prio f : 0 <= n f /\ base + n f < 2 ^ 32 /\ prio f (setup_state cfg if_name) = base + n f.
Proof.
  destruct (setup_rules cfg if_name f base_width) as (_ & _ & ->).
  pose proof (len_nonneg (plan cfg if_name f)) as Hn. pose proof (Hmax f) as Hm. subst n top base. cbn beta in *.
  split; [done|]. split; [lia|]. apply advance_small; lia.
Qed.

Local Lemma nop_value : nop_prio cfg = base + 100.
Proof. pose proof (Hmax F4). subst top base. cbn beta in *. unfold nop_prio, as_u32, wrap. rewrite Z.mod_small; lia. Qed.

(** The priorities [setup] uses are within the range, none more than twice. *)
Local Lemma setup_prios f :
  Forall (fun p => p ∈ range_incl base (top f)) (prios f (setup cfg if_name).1) /\
  forall p, (prio_count p (prios f (setup cfg if_name).1) <= 3)%nat.
Proof.
  destruct (setup_rules cfg if_name f base_width) as (_ & Ha & _). destruct (used_prio f) as (Hn & Hlt & _).
  assert (Ht : top f = base + Z.max (n f) 100) by done.
  unfold prios. rewrite Ha, number_small, omap_app; [|exact Hb|exact Hlt].
  fold (n f) base. rewrite omap_numbered; [|apply Forall_seqZ; intros p Hp; unfold in_width; lia|rewrite length_seqZ; unfold n, len; lia]. set (tail := omap arg_prio _).
  assert (Htail : exists b : bool, tail = if b then [base + 100] else []).
  { exists (has_family cfg f). unfold tail. destruct (has_family cfg f); [|done]. cbn [omap list_omap]. rewrite arg_prio_numbered, nop_value; [done|].
    rewrite nop_value. pose proof (Hmax f). unfold in_width. lia. }
  destruct Htail as [b ->]. split.
  - apply Forall_forall. intros p Hp. apply elem_of_seqZ. apply elem_of_app in Hp as [Hp|Hp]; [apply elem_of_seqZ in Hp; lia|].
    destruct b; [apply list_elem_of_singleton in Hp; lia|by apply elem_of_nil in Hp].
  - intros p. rewrite count_app_rules. pose proof (count_NoDup p _ (NoDup_seqZ base (n f))).
    assert (prio_count p (if b then [(base + 100)%Z] else []) <= 1)%nat by (apply count_NoDup; destruct b; repeat constructor; apply not_elem_of_nil). lia.
Qed.

Local Lemma setup_adds f k : exists xs, rules f (exec_cmds (setup cfg if_name).1 k) ≡ₚ xs ++ rules f k /\
  Forall (fun p => p ∈ range_incl base (top f)) xs /\ forall p, (prio_count p xs <= 3)%nat.
Proof.
  destruct (setup_rules cfg if_name f base_width) as (Hpl & _ & _). destruct (exec_adds f _ k Hpl) as (xs & Hxs & E).
  destruct (setup_prios f) as [Hin Hc]. exists xs. split; [exact E|]. split.
  - apply Forall_forall. intros p Hp. rewrite Forall_forall in Hin. apply Hin. by apply (elem_of_submseteq _ _ _ Hp).
  - intros p. etransitivity; [by apply count_submseteq|apply Hc].
Qed.

Local Lemma teardown_cmds : exists c1 c2, (forall g, rule_args g c1 = None) /\ (forall g, rule_args g c2 = None) /\
  teardown cfg (Some (setup cfg if_name).2)
  = c1 :: c2 :: delete_range F4 (range_incl base (top F4)) ++ delete_range F6 (range_incl base (top F6)).
Proof.
  destruct (used_prio F4) as (H4 & L4 & E4), (used_prio F6) as (H6 & L6 & E6). cbn [prio] in *.
  unfold teardown. rewrite recorded_setup by (unfold in_width; lia). rewrite E4, E6, nop_value. eexists _, _.
  split; [|split]; [..|cbn [app]; unfold delete_rules, delete_range, top; by rewrite !Z.add_max_distr_l]; by intros [].
Qed.

(** One family of the deletions gives the rules back. *)
Local Lemma deleted f k k1 : (forall p, base <= p <= top f -> p ∉ rules f k) -> rules f k1 = rules f (exec_cmds (setup cfg if_name).1 k) ->
  rules f (exec_cmds (delete_range f (range_incl base (top f))) k1) ≡ₚ rules f k.
Proof.
  intros Hfree E1. destruct (setup_adds f k) as (xs & E & Hin & Hc). pose proof (Hmax f).
  apply (del_range f _ (rules f k)) with (X := xs); [..|done|done|by rewrite E1].
  - unfold range_incl. apply Forall_seqZ. intros p Hp. unfold in_width. lia.
  - unfold range_incl. apply Forall_seqZ. intros p Hp. apply Hfree. lia.
Qed.

End Enough.

(** C15. The policy rules on Linux: with the priorities from the configured one to the
    last used free beforehand, running the commands of [setup] and then those of
    [teardown], which reads the state file [setup] wrote, leaves the rules of both
    families as they were, even when some of the additions failed. *)
Theorem linux_teardown_restores (cfg : TunInboundConfig) (if_name : str) (k : kernel) :
  let base := iproute2_rule_index cfg in
  let top f := base + Z.max (len (plan cfg if_name f)) 100 in
  0 <= base -> (forall f, top f < 2 ^ 32) -> (forall f p, base <= p <= top f -> p ∉ rules f k) ->
  forall f, rules f (exec_cmds (teardown cfg (Some (setup cfg if_name).2)) (exec_cmds (setup cfg if_name).1 k)) ≡ₚ rules f k.
Proof.
  intros base top Hb Hmax Hfree f.
  destruct (teardown_cmds cfg if_name Hb Hmax) as (c1 & c2 & H1 & H2 & ->).
  change (exec_cmds (c1 :: c2 :: ?l) ?k) with (exec_cmds l (run_cmd c2 (run_cmd c1 k))). rewrite exec_app.
  set (k1 := run_cmd c2 _).
  assert (E1 : forall g, rules g k1 = rules g (exec_cmds (setup cfg if_name).1 k)) by (intros g; unfold k1; by rewrite !not_rule_law).
  destruct f.
  - rewrite (del_range_other F6 F4) by done. apply (deleted cfg if_name Hb Hmax F4); [apply Hfree|apply E1].
  - apply (deleted cfg if_name Hb Hmax F6); [apply Hfree|]. rewrite (del_range_other F4 F6) by done. apply E1.
Qed.

End Restore.

(** Two lists of priorities. *)
Fixpoint remove_one (p : Z) (l : list Z) : list Z :=
  match l with
  | [] => []
  | q :: l => if q =? p then l else q :: remove_one p l
  end.

Definition toy_rule (args : list str) (l : list Z) : list Z :=
  match args, arg_prio args with
  | a :: _, Some p => if bool_decide (a = lit "add") then p :: l else if bool_decide (a = lit "del") then remove_one p l else l
  | _, _ => l
  end.

Definition ToyIp : IpTool := {|
  kernel := list Z * list Z;
  run_cmd c k := (match rule_args F4 c with Some args => toy_rule args k.1 | None => k.1 end,
                  match rule_args F6 c with Some args => toy_rule args k.2 | None => k.2 end);
  rules f k := match f with F4 => k.1 | F6 => k.2 end
|}.

Lemma remove_one_spec p l : (p ∈ l -> p :: remove_one p l ≡ₚ l) /\ (p ∉ l -> remove_one p l = l).
Proof.
  induction l as [|q l [IH1 IH2]]; [split; [by intros ?%elem_of_nil|done]|]. cbn [remove_one]. destruct (Z.eqb_spec q p) as [->|Hne].
  - split; [done|]. intros Hn. contradict Hn. by left.
  - split.
    + intros [->|Hin]%elem_of_cons; [done|]. rewrite Permutation_swap. by rewrite IH1.
    + intros [_ Hn]%not_elem_of_cons. by rewrite IH2.
Qed.

Lemma rule_args_del f g p : rule_args f (rule_del g p) = if decide (f = g) then Some [lit "del"; lit "priority"; show_uint p] else None.
Proof. by destruct f, g. Qed.

Lemma toy_add_law p body l : in_width 32 p -> toy_rule (numbered_rule p body) l = p :: l.
Proof.
  intros Hp. change (toy_rule (numbered_rule p body) l) with (match arg_prio (numbered_rule p body) with Some p => p :: l | None => l end).
  by rewrite arg_prio_numbered.
Qed.

Lemma toy_del_law p l : in_width 32 p -> toy_rule [lit "del"; lit "priority"; show_uint p] l = remove_one p l.
Proof.
  unfold in_width. intros Hp. unfold toy_rule, arg_prio. rewrite parse_show_uint by lia. reflexivity.
Qed.

Lemma ToyIp_laws : @IpToolLaws ToyIp.
Proof.
  split; intros; destruct f; try destruct g; try done; cbn [rules run_cmd ToyIp fst snd];
    rewrite ?rule_args_add, ?rule_args_del, ?decide_True by done; rewrite ?toy_add_law, ?toy_del_law by done;
    try (right; reflexivity); try (by apply remove_one_spec); try (by rewrite (proj2 (remove_one_spec _ _))); try by rewrite H.
Qed.

Definition sample_kernel : list Z * list Z := ([32767; 32766; 0], [32766; 0]).

Lemma linux_teardown_restores_witness :
  rules F4 (exec_cmds (IT := ToyIp) (teardown sample_routes (Some (setup sample_routes (lit "tun0")).2))
              (exec_cmds (IT := ToyIp) (setup sample_routes (lit "tun0")).1 sample_kernel)) ≡ₚ [32767; 32766; 0].
Proof.
  apply (@linux_teardown_restores ToyIp ToyIp_laws sample_routes (lit "tun0") sample_kernel).
  - vm_compute. discriminate.
  - intros []; vm_compute; reflexivity.
  - intros f p Hp Hin.
    assert (Hr : 9000 <= p <= 9100) by (destruct f; vm_compute in Hp; exact Hp).
    assert (Hl : p ∈ [32767; 32766; 0]).
    { destruct f; [exact Hin|]. right. exact Hin. }
    rewrite !elem_of_cons, elem_of_nil in Hl. lia.
Defined.

(** A network keeps the bits of its prefix; a prefix of length 0 keeps all of them,
    because the shift amount wraps. *)
Lemma network_prefix (w a pl : Z) : 0 < w -> in_width w a -> 1 <= pl <= w -> network_of w a pl = a - a mod 2 ^ (w - pl).
Proof.
  intros Hw Ha Hpl. unfold in_width in Ha. unfold network_of, wshl, wnot, wrap. rewrite Z.min_l by lia.
  rewrite (Z.mod_small (w - pl)) by lia. rewrite Z.shiftl_mul_pow2, Z.mul_1_l by lia.
  assert (Hlt : 0 < 2 ^ (w - pl) < 2 ^ w) by (split; [apply Z.pow_pos_nonneg; lia|apply Z.pow_lt_mono_r; lia]).
  rewrite (Z.mod_small (2 ^ (w - pl))) by lia.
  replace (2 ^ w - 1 - (2 ^ (w - pl) - 1)) with (Z.ldiff (Z.ones w) (Z.ones (w - pl))).
  - rewrite Z.ldiff_land, Z.land_assoc, Z.land_ones, Z.mod_small by lia. rewrite <-Z.ldiff_land, Z.ldiff_ones_r by lia.
    rewrite Z.shiftl_mul_pow2, Z.shiftr_div_pow2 by lia. pose proof (Z.div_mod a (2 ^ (w - pl))). lia.
  - rewrite Z.ldiff_ones_r by lia. rewrite Z.shiftr_div_pow2, Z.shiftl_mul_pow2, !Z.ones_equiv by lia.
    assert (E : 2 ^ w = 2 ^ (w - pl) * 2 ^ pl) by (rewrite <-Z.pow_add_r by lia; f_equal; lia).
    assert (0 < 2 ^ pl) by (apply Z.pow_pos_nonneg; lia).
    replace (Z.pred (2 ^ w) / 2 ^ (w - pl)) with (2 ^ pl - 1); [lia|].
    apply (Z.div_unique _ _ _ (2 ^ (w - pl) - 1)); [lia|]. lia.
Qed.

Example network_zero : v4_network 0xAC130001 0 = 0xAC130001 /\ v4_network 0xAC130001 30 = 0xAC130000.
Proof. split; reflexivity. Qed.

(** ** macOS and Windows: the routes are more specific than the default one *)

Definition IPV4_SUB_RANGES : list str :=
  map lit ["1.0.0.0/8"; "2.0.0.0/7"; "4.0.0.0/6"; "8.0.0.0/5"; "16.0.0.0/4"; "32.0.0.0/3"; "64.0.0.0/2"; "128.0.0.0/1"]%string.
Definition IPV6_SUB_RANGES : list str :=
  map lit ["100::/8"; "200::/7"; "400::/6"; "800::/5"; "1000::/4"; "2000::/3"; "4000::/2"; "8000::/1"]%string.

(** [cfg.address.iter().any(...)] *)
Definition any_family (v4 : bool) (address : list str) : bool :=
  existsb (fun a => match parse_addr_prefix a with Some (V4 _, _) => v4 | Some (V6 _, _) => negb v4 | None => false end) address.

Module Mac.

Definition address_cmd (if_name a : str) : list cmd :=
  match parse_addr_prefix a with
  | Some (V4 ip, _) => [(lit "ifconfig", [if_name; show_ipv4 ip; show_ipv4 ip])]
  | Some (V6 ip, l) =>
      [(lit "ifconfig", [if_name; lit "inet6"; show_ipv6 ip ++ [47] ++ show_uint l; lit "prefixlen"; show_uint l; lit "alias"])]
  | None => []
  end.

Definition mac_setup (address : list str) (if_name : str) : list cmd :=
  flat_map (address_cmd if_name) address ++ [(lit "ifconfig", [if_name; lit "up"])]
  ++ (if any_family true address
      then map (fun c => (lit "route", [lit "add"; lit "-net"; c; lit "-interface"; if_name])) IPV4_SUB_RANGES else [])
  ++ (if any_family false address
      then map (fun c => (lit "route", [lit "add"; lit "-inet6"; c; lit "-interface"; if_name])) IPV6_SUB_RANGES else [])
  ++ [(lit "dscacheutil", [lit "-flushcache"])].

Definition mac_teardown (address : list str) : list cmd :=
  (if any_family true address then map (fun c => (lit "route", [lit "delete"; lit "-net"; c])) IPV4_SUB_RANGES else [])
  ++ (if any_family false address then map (fun c => (lit "route", [lit "delete"; lit "-inet6"; c])) IPV6_SUB_RANGES else [])
  ++ [(lit "dscacheutil", [lit "-flushcache"])].

End Mac.

Module Windows.

(** The answer of PowerShell, or the name that was configured. *)
Definition resolve_actual_interface_name (out : option bytes) (expected : str) : str :=
  match out with
  | Some o => match trim (from_utf8_lossy o) with [] => expected | name => name end
  | None => expected
  end.

(** The loop asks for the interface's index at most [n] times; the result is the
    number of times it has asked in vain. *)
Fixpoint wait_for_interface (n : nat) (outs : nat -> option bytes) : nat :=
  match n with
  | O => O
  | S n =>
      match outs O with
      | Some o => match parse_uint (2 ^ 32 - 1) (trim (from_utf8_lossy o)) with
                  | Some _ => O
                  | None => S (wait_for_interface n (fun i => outs (S i)))
                  end
      | None => S (wait_for_interface n (fun i => outs (S i)))
      end
  end.

Definition netsh (args : list str) : cmd := (lit "netsh", args).

Definition netsh_address (if_name a : str) : list cmd :=
  match parse_addr_prefix a with
  | Some (V4 ip, l) =>
      [netsh [lit "interface"; lit "ipv4"; lit "set"; lit "address"; lit "name"; if_name; lit "static"; show_ipv4 ip;
              show_ipv4 (prefix_len_to_mask_v4 l)]]
  | Some (V6 ip, l) => [netsh [lit "interface"; lit "ipv6"; lit "add"; lit "address"; if_name; show_ipv6 ip ++ [47] ++ show_uint l]]
  | None => []
  end.

Definition firewall_delete (name : str) : cmd := netsh [lit "advfirewall"; lit "firewall"; lit "delete"; lit "rule"; lit "name=" ++ name].
Definition firewall_add (name action : str) (more : list str) : cmd :=
  netsh ([lit "advfirewall"; lit "firewall"; lit "add"; lit "rule"; lit "name=" ++ name; lit "protocol=UDP"; lit "dir=out"; lit "remoteport=53";
          lit "action=" ++ action] ++ more).
Definition strict_allow : str := lit "reflex-tun-strict-allow".
Definition strict_block : str := lit "reflex-tun-strict-block".

Definition strict_cmds (exe : option str) : list cmd :=
  [firewall_delete strict_allow; firewall_delete strict_block]
  ++ (match exe with Some e => [firewall_add strict_allow (lit "allow") [lit "program=" ++ e]] | None => [] end)
  ++ [firewall_add strict_block (lit "block") []].

(** [exe]: the path of the program, if it is known and is text. *)
Definition win_setup (address : list str) (strict : bool) (if_name : str) (exe : option str) : list cmd :=
  flat_map (netsh_address if_name) address
  ++ (if any_family true address
      then map (fun c => netsh [lit "interface"; lit "ipv4"; lit "add"; lit "route"; c; if_name; lit "metric=1"]) IPV4_SUB_RANGES else [])
  ++ (if any_family false address
      then map (fun c => netsh [lit "interface"; lit "ipv6"; lit "add"; lit "route"; c; if_name; lit "metric=1"]) IPV6_SUB_RANGES else [])
  ++ (if strict then strict_cmds exe else [])
  ++ [(lit "ipconfig", [lit "/flushdns"])].

Definition win_teardown (address : list str) (strict : bool) (if_name : str) : list cmd :=
  (if any_family true address
   then map (fun c => netsh [lit "interface"; lit "ipv4"; lit "delete"; lit "route"; c; if_name]) IPV4_SUB_RANGES else [])
  ++ (if any_family false address
      then map (fun c => netsh [lit "interface"; lit "ipv6"; lit "delete"; lit "route"; c; if_name]) IPV6_SUB_RANGES else [])
  ++ (if strict then [firewall_delete strict_allow; firewall_delete strict_block] else [])
  ++ [(lit "ipconfig", [lit "/flushdns"])].

End Windows.

(** ** The routes cover the addresses *)

(** An address under a range given as text. *)
Definition under_v4 (a : Z) (cidr : str) : bool :=
  match parse_addr_prefix cidr with Some (V4 n, l) => Z.shiftr a (32 - l) =? Z.shiftr n (32 - l) | _ => false end.
Definition under_v6 (a : Z) (cidr : str) : bool :=
  match parse_addr_prefix cidr with Some (V6 n, l) => Z.shiftr a (128 - l) =? Z.shiftr n (128 - l) | _ => false end.

(** How many prefixes, as shift amounts and values, hold a number. *)
Definition holding (ps : list (Z * Z)) (q : Z) : nat := length (List.filter (fun p : Z * Z => Z.shiftr q p.1 =? p.2) ps).

(** The prefixes of a list of ranges, as shift amounts and values. *)
Lemma under_list (under : Z -> str -> bool) (cidrs : list str) (ps : list (Z * Z)) (a : Z) :
  Forall2 (fun c p => forall x, under x c = (Z.shiftr x p.1 =? p.2)) cidrs ps ->
  length (List.filter (under a) cidrs) = holding ps a.
Proof. intros H. unfold holding. induction H as [|c p cs ps Hc H IH]; [done|]. cbn [List.filter]. rewrite Hc. destruct (_ =? _); cbn; by rewrite IH. Qed.

(** For each first byte, the prefixes of one to eight bits that hold it. *)
Lemma byte_ranges q : 0 <= q < 256 -> holding (map (fun j => (j, 1)) (seqZ 0 8)) q = if q =? 0 then 0%nat else 1%nat.
Proof. apply (octet_table (holding (map (fun j => (j, 1)) (seqZ 0 8))) (fun q => if q =? 0 then 0%nat else 1%nat)). vm_compute. reflexivity. Qed.

Lemma first_byte_ranges k a : 0 <= k -> 0 <= a < 2 ^ (k + 8) ->
  holding (map (fun j => (k + j, 1)) (seqZ 0 8)) a = if a <? 2 ^ k then 0%nat else 1%nat.
Proof.
  intros Hk Ha. rewrite Z.pow_add_r in Ha by lia.
  assert (Hq : 0 <= Z.shiftr a k < 256).
  { rewrite Z.shiftr_div_pow2 by lia. split; [apply Z.div_pos; lia|]. apply Z.div_lt_upper_bound; lia. }
  pose proof (byte_ranges _ Hq) as H. transitivity (if Z.shiftr a k =? 0 then 0%nat else 1%nat).
  - rewrite <-H. unfold holding. assert (Hj : Forall (fun j => 0 <= j) (seqZ 0 8)) by (apply Forall_seqZ; lia). clear H.
    induction Hj as [|j l Hj Hl IH]; [done|]. cbn [map List.filter fst snd]. rewrite <-Z.shiftr_shiftr by lia.
    destruct (_ =? 1); cbn [length]; by rewrite IH.
  - rewrite Z.shiftr_div_pow2 by lia. destruct (Z.ltb_spec a (2 ^ k)).
    + by rewrite Z.div_small by lia.
    + assert (1 <= a / 2 ^ k) by (apply Z.div_le_lower_bound; lia). by replace (a / 2 ^ k =? 0) with false by lia.
Qed.

(** The routes on macOS and Windows: an address of either family is under exactly
    one of the ranges that are routed to the device, unless it is in the first
    1/256 of its space, 0.0.0.0/8 or ::/8, which stays with the default route. *)
Theorem sub_ranges_partition (a : Z) :
  (in_width 32 a -> length (List.filter (under_v4 a) IPV4_SUB_RANGES) = if a <? 2 ^ 24 then 0%nat else 1%nat) /\
  (in_width 128 a -> length (List.filter (under_v6 a) IPV6_SUB_RANGES) = if a <? 2 ^ 120 then 0%nat else 1%nat).
Proof.
  split; intros Ha.
  - rewrite <-(first_byte_ranges 24 a) by (unfold in_width in Ha; lia). apply under_list.
    repeat (apply Forall2_cons; split; [intros x; reflexivity|]). constructor.
  - rewrite <-(first_byte_ranges 120 a) by (unfold in_width in Ha; lia). apply under_list.
    repeat (apply Forall2_cons; split; [intros x; reflexivity|]). constructor.
Qed.

Lemma sub_ranges_partition_witness :
  length (List.filter (under_v4 0x08080808) IPV4_SUB_RANGES) = 1%nat /\ length (List.filter (under_v4 0x000A0001) IPV4_SUB_RANGES) = 0%nat.
Proof.
  split.
  - exact (proj1 (sub_ranges_partition 0x08080808) ltac:(unfold in_width; lia)).
  - exact (proj1 (sub_ranges_partition 0x000A0001) ltac:(unfold in_width; lia)).
Defined.

(** The routes that are added are those that are deleted. *)
Definition route_ranges (verb : str) (c : cmd) : option str :=
  match c.2 with
  | v :: _ :: cidr :: _ => if bool_decide (c.1 = lit "route") && bool_decide (v = verb) then Some cidr else None
  | _ => None
  end.

Lemma mac_routes_deleted (address : list str) (if_name : str) :
  omap (route_ranges (lit "add")) (Mac.mac_setup address if_name) = omap (route_ranges (lit "delete")) (Mac.mac_teardown address).
Proof.
  unfold Mac.mac_setup, Mac.mac_teardown. rewrite !omap_app.
  replace (omap _ (flat_map _ address)) with (@nil str).
  - destruct (any_family true address), (any_family false address); reflexivity.
  - induction address as [|a address IH]; [done|]. cbn [flat_map]. rewrite omap_app, <-IH. unfold Mac.address_cmd.
    destruct (parse_addr_prefix a) as [[[] ?]|]; done.
Qed.

(** ** The start of the device: [TunInbound::run] up to its packet loop *)

Definition DEFAULT_UDP_TIMEOUT_SECS : Z := 300.
Definition udp_timeout_of (configured : Z) : Z := if configured =? 0 then DEFAULT_UDP_TIMEOUT_SECS else configured.

(** The name the system gave the device, or the configured one; [None] is a failed query. *)
Definition device_name (tun_name : option str) (interface_name : option str) : str :=
  match tun_name with
  | Some (b :: name) => b :: name
  | _ => match interface_name with Some n => n | None => lit "tun0" end
  end.

(** The identifier of the Windows adapter, from its name; a [u128]. *)
Fixpoint guid_loop (i : Z) (seed : bytes) (guid : Z) : Z :=
  match seed with
  | [] => guid
  | b :: seed => guid_loop (i + 1) seed (wrap 128 (Z.lxor guid (wshl 128 b ((i mod 16) * 8)) * 0x6c62272e07bb0142))
  end.
Definition device_guid (interface_name : option str) : Z :=
  guid_loop 0 (match interface_name with Some n => n | None => lit "tun0" end) 0xdeadbeefcafebabe123456789abcdef0.

(** [for attempt in 0..3 { bind }]: the port of the first bind that succeeds. *)
Fixpoint bind_attempts (n : nat) (attempt : nat) (bind : nat -> option Z) : option Z :=
  match n with
  | O => None
  | S n => match bind attempt with Some p => Some p | None => bind_attempts n (S attempt) bind end
  end.
Definition bind_listener (bind : nat -> option Z) : option Z := bind_attempts 3 0 bind.

(** The TCP port of a family, 0 without a listener. *)
Definition listener_port (l : option Z) : Z := match l with Some p => p | None => 0 end.

(** From the configuration to the state of the packet loop: the addresses, the ports
    of the listeners and the commands of [auto_route] on Linux. *)
Definition tun_start (cfg : TunInboundConfig) (tag : str) (auto_route : bool) (if_name : str) (bind4 bind6 : nat -> option Z)
    : option (tun_config * list cmd) :=
  match fold_left take_address (rt_address cfg) (None, None) with
  | (None, None) => None
  | (v4, v6) =>
      let port (a : option Z) bind := match a with Some _ => listener_port (bind_listener bind) | None => 0 end in
      option_map (fun c => (c, if auto_route then (setup cfg if_name).1 else []))
        (tun_addresses (rt_address cfg) tag (port v4 bind4) (port v6 bind6))
  end.

(** The listener is missing only after three failures. *)
Lemma bind_listener_none (bind : nat -> option Z) : bind_listener bind = None <-> bind 0%nat = None /\ bind 1%nat = None /\ bind 2%nat = None.
Proof. unfold bind_listener. cbn [bind_attempts]. destruct (bind 0%nat), (bind 1%nat), (bind 2%nat); naive_solver. Qed.

Lemma device_guid_width name : in_width 128 (device_guid name).
Proof.
  unfold device_guid. assert (H : forall s i g, in_width 128 g -> in_width 128 (guid_loop i s g)).
  { induction s as [|b s IH]; intros i g Hg; [done|]. cbn [guid_loop]. apply IH, Z.mod_pos_bound. lia. }
  apply H. vm_compute. split; [discriminate|reflexivity].
Qed.
