(* ===== verification/OutboundCfg.v ===== *)
(** * OutboundCfg: the full settings of the outbounds, [src/config/outbound.rs].

    Config.v keeps of an outbound what its checks read.  Here every structure has all
    its fields (of the XHTTP options those that Xhttp.v reads), with the values of the
    default functions, and [reduced] is the view of Config.v. *)

From S2P Require Import Prelude RustStr Extern Format Trie IpMatch Compiler Loader Matcher MatchSafe CacheFile Inbound QuicCrypto Sniff Router DnsWire DnsTopo FakeIp DnsCache DnsResolver Config Provider Xhttp.

Local Open Scope reflex_scope.

(** ** TLS *)

Inductive TlsVersion : Type := Tls12 | Tls13.

Record TlsConfig : Type := mkTls {
  tls_enabled : bool;
  tls_server_name : option str;
  tls_insecure : bool;
  tls_ca_path : option str;
  tls_alpn : list str;
  tls_min_version : option TlsVersion;
  tls_max_version : option TlsVersion
}.

Definition TlsConfig_default : TlsConfig := mkTls true None false None [] None None.
Definition default_disabled_tls : TlsConfig := mkTls false None false None [] None None.

Record RealityConfig : Type := mkRealityCfg { reality_enabled : bool; reality_public_key : str; reality_short_id : str }.

Record VlessTlsConfig : Type := mkVlessTls {
  vt_enabled : bool;
  vt_server_name : option str;
  vt_insecure : bool;
  vt_ca_path : option str;
  vt_alpn : list str;
  vt_reality : option RealityConfig
}.

(** ** Transports *)

Definition default_ws_path : str := lit "/".

Record WsTransportConfig : Type := mkWsCfg {
  ws_path : str;
  ws_headers : gmap (list Z) (list Z);
  early_data_header_name : option str;
  max_early_data : Z
}.

Inductive VlessTransportConfig : Type :=
  | VlessWs (c : WsTransportConfig)
  | VlessTcp (http_upgrade : bool)
  | VlessXhttp (c : XhttpTransportConfig).

Inductive VmessTransportConfig : Type :=
  | VmessTcp
  | VmessWs (c : WsTransportConfig)
  | VmessXhttp (c : XhttpTransportConfig).

Inductive TrojanTransportConfig : Type :=
  | TrojanTcp
  | TrojanWs (c : WsTransportConfig)
  | TrojanXhttp (c : XhttpTransportConfig).

Inductive ShadowsocksTransportConfig : Type :=
  | ShadowsocksWs (c : WsTransportConfig)
  | ShadowsocksXhttp (c : XhttpTransportConfig).

(** ** The protocols *)

Record VlessOutboundConfig : Type := mkVless {
  vless_tag : str; vless_server : str; vless_server_port : Z; vless_uuid : str;
  vless_transport : option VlessTransportConfig; vless_tls : option VlessTlsConfig; vless_detour : option str
}.

Record VmessOutboundConfig : Type := mkVmess {
  vmess_tag : str; vmess_server : str; vmess_server_port : Z; vmess_uuid : str; vmess_security : str;
  vmess_transport : VmessTransportConfig; vmess_tls : TlsConfig; vmess_detour : option str
}.

Record ShadowsocksOutboundConfig : Type := mkShadowsocks {
  ss_tag : str; ss_server : str; ss_server_port : Z; ss_method : str; ss_password : str;
  ss_plugin : option str; ss_plugin_opts : option str; ss_transport : option ShadowsocksTransportConfig;
  ss_tls : option TlsConfig; ss_detour : option str
}.

Record Hysteria2OutboundConfig : Type := mkHysteria2 {
  hy2_tag : str; hy2_server : str; hy2_server_port : Z; hy2_password : str; hy2_tls : TlsConfig;
  hy2_up_mbps : Z; hy2_down_mbps : Z; hy2_detour : option str
}.

Record TuicOutboundConfig : Type := mkTuic {
  tuic_tag : str; tuic_server : str; tuic_server_port : Z; tuic_uuid : str; tuic_password : str;
  tuic_congestion_control : str; tuic_udp_relay_mode : str; tuic_tls : TlsConfig; tuic_heartbeat : option str;
  tuic_zero_rtt_handshake : bool; tuic_detour : option str
}.

Record TrojanOutboundConfig : Type := mkTrojan {
  trojan_tag : str; trojan_server : str; trojan_server_port : Z; trojan_password : str;
  trojan_transport : option TrojanTransportConfig; trojan_tls : TlsConfig; trojan_detour : option str
}.

Record DirectOutboundConfig : Type := mkDirect { direct_tag : str; direct_bind_address : option str }.

Record SocksSettings : Type := mkSocksSettings {
  socks_tag : str; socks_server : str; socks_server_port : Z;
  socks_version : option str; socks_username : option str; socks_password : option str
}.

Definition default_vmess_security : str := lit "auto".
Definition default_tuic_congestion_control : str := lit "cubic".
Definition default_tuic_udp_relay_mode : str := lit "native".

Inductive OutboundSettings : Type :=
  | SVless (c : VlessOutboundConfig)
  | SVmess (c : VmessOutboundConfig)
  | SShadowsocks (c : ShadowsocksOutboundConfig)
  | SHysteria2 (c : Hysteria2OutboundConfig)
  | STuic (c : TuicOutboundConfig)
  | STrojan (c : TrojanOutboundConfig)
  | SDirect (c : DirectOutboundConfig)
  | SBlock (tag : str)
  | SSocks (c : SocksSettings)
  | SSelector (c : SelectorOutboundConfig)
  | SUrlTest (c : UrlTestOutboundConfig).

(** [OutboundConfig::tag] *)
Definition settings_tag (o : OutboundSettings) : str :=
  match o with
  | SVless c => vless_tag c
  | SVmess c => vmess_tag c
  | SShadowsocks c => ss_tag c
  | SHysteria2 c => hy2_tag c
  | STuic c => tuic_tag c
  | STrojan c => trojan_tag c
  | SDirect c => direct_tag c
  | SBlock t => t
  | SSocks c => socks_tag c
  | SSelector c => sel_tag c
  | SUrlTest c => ut_tag c
  end.

(** [set_outbound_tag] of the provider manager. *)
Definition settings_set_tag (o : OutboundSettings) (t : str) : OutboundSettings :=
  match o with
  | SVless c => SVless (mkVless t (vless_server c) (vless_server_port c) (vless_uuid c) (vless_transport c) (vless_tls c) (vless_detour c))
  | SVmess c => SVmess (mkVmess t (vmess_server c) (vmess_server_port c) (vmess_uuid c) (vmess_security c) (vmess_transport c) (vmess_tls c) (vmess_detour c))
  | SShadowsocks c => SShadowsocks (mkShadowsocks t (ss_server c) (ss_server_port c) (ss_method c) (ss_password c) (ss_plugin c) (ss_plugin_opts c)
                                      (ss_transport c) (ss_tls c) (ss_detour c))
  | SHysteria2 c => SHysteria2 (mkHysteria2 t (hy2_server c) (hy2_server_port c) (hy2_password c) (hy2_tls c) (hy2_up_mbps c) (hy2_down_mbps c) (hy2_detour c))
  | STuic c => STuic (mkTuic t (tuic_server c) (tuic_server_port c) (tuic_uuid c) (tuic_password c) (tuic_congestion_control c) (tuic_udp_relay_mode c)
                        (tuic_tls c) (tuic_heartbeat c) (tuic_zero_rtt_handshake c) (tuic_detour c))
  | STrojan c => STrojan (mkTrojan t (trojan_server c) (trojan_server_port c) (trojan_password c) (trojan_transport c) (trojan_tls c) (trojan_detour c))
  | SDirect c => SDirect (mkDirect t (direct_bind_address c))
  | SBlock _ => SBlock t
  | SSocks c => SSocks (mkSocksSettings t (socks_server c) (socks_server_port c) (socks_version c) (socks_username c) (socks_password c))
  | SSelector c => SSelector (mkSelCfg t (sel_outbounds c) (sel_providers c) (sel_default c) (interrupt_existing_connections c))
  | SUrlTest c => SUrlTest (mkUrlCfg t (ut_outbounds c) (ut_providers c) (ut_url c) (ut_interval c) (ut_idle_timeout c) (ut_tolerance c))
  end.

(** What the checks of the configuration and the provider manager read. *)
Definition reduced (o : OutboundSettings) : OutboundConfig :=
  match o with
  | SVless c => OVless (vless_tag c) (vless_uuid c)
  | SVmess c => OVmess (vmess_tag c) (vmess_uuid c)
  | SShadowsocks c => OShadowsocks (ss_tag c)
  | SHysteria2 c => OHysteria2 (hy2_tag c)
  | STuic c => OTuic (tuic_tag c) (tuic_uuid c)
  | STrojan c => OTrojan (trojan_tag c)
  | SDirect c => ODirect (direct_tag c)
  | SBlock t => OBlock t
  | SSocks c => OSocks (socks_tag c) (socks_version c)
  | SSelector c => OSelector c
  | SUrlTest c => OUrlTest c
  end.

(** ** The reduced view is faithful to the operations on it *)

Lemma reduced_tag o : ob_tag (reduced o) = settings_tag o.
Proof. by destruct o. Qed.

Lemma reduced_set_tag o t : reduced (settings_set_tag o t) = set_outbound_tag (reduced o) t.
Proof. by destruct o. Qed.

Lemma settings_tag_set o t : settings_tag (settings_set_tag o t) = t.
Proof. by destruct o. Qed.

(** A tag is all that [set_outbound_tag] changes. *)
Lemma settings_set_tag_twice o t u : settings_set_tag (settings_set_tag o t) u = settings_set_tag o u.
Proof. by destruct o. Qed.

Lemma settings_set_own_tag o : settings_set_tag o (settings_tag o) = o.
Proof. by destruct o as [[]|[]|[]|[]|[]|[]|[]|?|[]|[]|[]]. Qed.
