(* ===== verification/Subscription.v ===== *)
(** * Subscription: where the providers' nodes come from, [src/provider/parser/],
    [src/provider/remote.rs] and [src/provider/health.rs].

    A subscription is a sing-box document, a Clash document or either in base64.  The
    parsers of JSON, YAML and base64 are interfaces; what is modelled is the order in
    which the formats are tried, the conversion of every kind of Clash proxy, the
    filter on sing-box outbounds, the cache file and the updates of a remote
    provider, and the health check of its nodes. *)

From S2P Require Import Prelude RustStr Extern Format Trie IpMatch Compiler Loader Matcher MatchSafe CacheFile Inbound QuicCrypto Sniff Router DnsWire DnsTopo FakeIp DnsCache DnsResolver Config Provider Group OutboundMgr Stats Dispatcher Http ClashApi Xhttp OutboundCfg.

Local Open Scope reflex_scope.

(** [o.unwrap_or(d)] *)
Definition unwrap_or {A} (d : A) (o : option A) : A := match o with Some a => a | None => d end.

(** ** Clash proxies: [parser/clash.rs] *)

Record ClashWsOpts : Type := mkWsOpts {
  cw_path : option str;
  cw_headers : option (gmap (list Z) (list Z));
  cw_early_data_header_name : option str;
  cw_max_early_data : option Z
}.
Definition ClashWsOpts_default : ClashWsOpts := mkWsOpts None None None None.

Record ClashRealityOpts : Type := mkRealityOpts { cr_public_key : str; cr_short_id : str }.

(** The fields that the conversion reads; the others are ignored. *)
Record ClashProxy : Type := mkClash {
  cp_name : str;
  cp_type : str;
  cp_server : str;
  cp_port : Z;
  cp_cipher : option str;
  cp_password : option str;
  cp_uuid : option str;
  cp_tls : option bool;
  cp_skip_cert_verify : bool;
  cp_sni : option str;
  cp_alpn : option (list str);
  cp_network : option str;
  cp_ws_opts : option ClashWsOpts;
  cp_up : option str;
  cp_down : option str;
  cp_congestion_controller : option str;
  cp_udp_relay_mode : option str;
  cp_reality_opts : option ClashRealityOpts
}.

Inductive SubError : Type :=
  | UnsupportedProxy (kind : str)
  | ShadowsocksUnsupported (node : str)
  | MissingField (what : str)
  | YamlError
  | JsonError
  | SubNotUtf8
  | UnrecognizedFormat
  | Base64Error
  | UndetectedFormat.

Definition build_tls (enabled insecure : bool) (sni : option str) (alpn : option (list str)) : TlsConfig :=
  mkTls enabled sni insecure None (unwrap_or [] alpn) None None.

Definition build_ws_transport (opts : option ClashWsOpts) : WsTransportConfig :=
  let opts := unwrap_or ClashWsOpts_default opts in
  mkWsCfg (unwrap_or (lit "/") (cw_path opts)) (unwrap_or ∅ (cw_headers opts)) (cw_early_data_header_name opts) (unwrap_or 0 (cw_max_early_data opts)).

(** [p.network.as_deref() == Some("ws")] *)
Definition is_ws (p : ClashProxy) : bool := bool_decide (cp_network p = Some (lit "ws")).

Definition build_ss (p : ClashProxy) : result OutboundSettings SubError := Err (ShadowsocksUnsupported (cp_name p)).

Definition build_vmess (tag : str) (p : ClashProxy) : result OutboundSettings SubError :=
  uuid ←! ok_or (cp_uuid p) (MissingField (lit "vmess: missing uuid"));
  let tls := build_tls (unwrap_or false (cp_tls p)) (cp_skip_cert_verify p) (cp_sni p) (cp_alpn p) in
  let transport := if is_ws p then VmessWs (build_ws_transport (cp_ws_opts p)) else VmessTcp in
  Ok (SVmess (mkVmess tag (cp_server p) (cp_port p) uuid (unwrap_or (lit "auto") (cp_cipher p)) transport tls None)).

Definition build_vless (tag : str) (p : ClashProxy) : result OutboundSettings SubError :=
  uuid ←! ok_or (cp_uuid p) (MissingField (lit "vless: missing uuid"));
  let transport := if is_ws p then Some (VlessWs (build_ws_transport (cp_ws_opts p))) else None in
  let tls :=
    if unwrap_or false (cp_tls p) then
      let reality := (fun ro => mkRealityCfg true (cr_public_key ro) (cr_short_id ro)) <$> cp_reality_opts p in
      Some (mkVlessTls true (cp_sni p) (cp_skip_cert_verify p) None (unwrap_or [] (cp_alpn p)) reality)
    else None in
  Ok (SVless (mkVless tag (cp_server p) (cp_port p) uuid transport tls None)).

Definition build_trojan (tag : str) (p : ClashProxy) : result OutboundSettings SubError :=
  password ←! ok_or (cp_password p) (MissingField (lit "trojan: missing password"));
  let tls := build_tls (unwrap_or true (cp_tls p)) (cp_skip_cert_verify p) (cp_sni p) (cp_alpn p) in
  let transport := if is_ws p then Some (TrojanWs (build_ws_transport (cp_ws_opts p))) else None in
  Ok (STrojan (mkTrojan tag (cp_server p) (cp_port p) password transport tls None)).

(** The first word, as a [u64]. *)
Definition parse_mbps (s : str) : option Z :=
  match split_whitespace s with w :: _ => parse_uint u64_max w | [] => None end.

Definition build_hysteria2 (tag : str) (p : ClashProxy) : result OutboundSettings SubError :=
  password ←! ok_or (cp_password p) (MissingField (lit "hysteria2: missing password"));
  let tls := build_tls true (cp_skip_cert_verify p) (cp_sni p) (cp_alpn p) in
  let up_mbps := unwrap_or 0 (match cp_up p with Some s => parse_mbps s | None => None end) in
  let down_mbps := unwrap_or 0 (match cp_down p with Some s => parse_mbps s | None => None end) in
  Ok (SHysteria2 (mkHysteria2 tag (cp_server p) (cp_port p) password tls up_mbps down_mbps None)).

Definition build_tuic (tag : str) (p : ClashProxy) : result OutboundSettings SubError :=
  uuid ←! ok_or (cp_uuid p) (MissingField (lit "tuic: missing uuid"));
  password ←! ok_or (cp_password p) (MissingField (lit "tuic: missing password"));
  let tls := build_tls true (cp_skip_cert_verify p) (cp_sni p) (cp_alpn p) in
  Ok (STuic (mkTuic tag (cp_server p) (cp_port p) uuid password (unwrap_or (lit "cubic") (cp_congestion_controller p))
               (unwrap_or (lit "native") (cp_udp_relay_mode p)) tls None false None)).

Definition build_outbound (p : ClashProxy) : result OutboundSettings SubError :=
  let tag := cp_name p in
  let kind k := bool_decide (cp_type p = lit k) in
  if kind "ss"%string || kind "shadowsocks"%string then build_ss p
  else if kind "vmess"%string then build_vmess tag p
  else if kind "vless"%string then build_vless tag p
  else if kind "trojan"%string then build_trojan tag p
  else if kind "hysteria2"%string || kind "hy2"%string then build_hysteria2 tag p
  else if kind "tuic"%string then build_tuic tag p
  else Err (UnsupportedProxy (cp_type p)).

(** The loop over the proxies: those that cannot be converted are skipped. *)
Definition clash_nodes (proxies : list ClashProxy) : list (str * OutboundSettings) :=
  omap (fun p => match build_outbound p with Ok ob => Some (cp_name p, ob) | Err _ => None end) proxies.

(** ** Sing-box outbounds: [parser/singbox.rs] *)

Definition is_real_node (ob : OutboundSettings) : bool :=
  match ob with SDirect _ | SBlock _ | SSelector _ | SUrlTest _ => false | _ => true end.

Definition singbox_nodes (outbounds : list OutboundSettings) : list (str * OutboundSettings) :=
  map (fun ob => (settings_tag ob, ob)) (List.filter is_real_node outbounds).

(** ** The formats: [parser/mod.rs] *)

(** [serde_json] and [serde_yaml] on the two documents, and the [base64] engines. *)
Class SubLib : Type := {
  json_outbounds : str -> option (list OutboundSettings);
  yaml_proxies : str -> option (list ClashProxy);
  base64_standard : bytes -> option bytes;
  base64_url_safe : bytes -> option bytes
}.

Section Parsers.
Context {SL : SubLib}.

Definition parse_clash_yaml (text : str) : result (list (str * OutboundSettings)) SubError :=
  proxies ←! ok_or (yaml_proxies text) YamlError; Ok (clash_nodes proxies).

Definition parse_singbox_json (text : str) : result (list (str * OutboundSettings)) SubError :=
  outbounds ←! ok_or (json_outbounds text) JsonError; Ok (singbox_nodes outbounds).

Definition looks_like_yaml (text : str) : bool := existsb (fun line => starts_with (lit "proxies:") (trim_start line)) (lines text).

Definition try_parse (b : bytes) : result (list (str * OutboundSettings)) SubError :=
  if negb (utf8_valid b) then Err SubNotUtf8
  else
    match parse_singbox_json b with
    | Ok (x :: nodes) => Ok (x :: nodes)
    | _ => if looks_like_yaml b then parse_clash_yaml b else Err UnrecognizedFormat
    end.

(** [u8::is_ascii_whitespace] *)
Definition is_ascii_whitespace (b : Z) : bool := (b =? 32) || (b =? 9) || (b =? 10) || (b =? 12) || (b =? 13).

Definition decode_base64 (b : bytes) : result bytes SubError :=
  let trimmed := List.filter (fun b => negb (is_ascii_whitespace b)) b in
  ok_or (or_else (base64_standard trimmed) (base64_url_safe trimmed)) Base64Error.

Definition parse_auto (b : bytes) : result (list (str * OutboundSettings)) SubError :=
  match try_parse b with
  | Ok nodes => Ok nodes
  | Err _ => decoded ←! decode_base64 b; map_err (fun _ => UndetectedFormat) (try_parse decoded)
  end.

(** ** Remote and local providers: [remote.rs] *)

Record RemoteProviderConfig : Type := mkRemote { rp_tag : str; rp_path : option str }.

(** The manager and the files. *)
Record sub_world : Type := mkSubWorld { sw_manager : ProviderManager; sw_files : gmap (list Z) (list Z) }.

(** The nodes as the manager keeps them. *)
Definition reduced_nodes (nodes : list (str * OutboundSettings)) : ProviderNodes := map (fun x => (x.1, reduced x.2)) nodes.

Definition install (tag : str) (nodes : list (str * OutboundSettings)) (w : sub_world) : run sub_world :=
  m ← update_nodes (sw_manager w) tag (reduced_nodes nodes); Ret (mkSubWorld m.1 (sw_files w)).

Definition resolve_path (config_dir p : str) : str := match p with 47 :: _ => p | _ => path_push config_dir p end.

(** One download, [None] when it failed; [writable] says which files can be written. *)
Definition fetch_and_update (writable : str -> bool) (tag : str) (cache_path : option str) (download : option bytes) (w : sub_world) : run sub_world :=
  match download with
  | None => Ret w
  | Some b =>
      let w := match cache_path with
               | Some p => if writable p then mkSubWorld (sw_manager w) (<[p := b]> (sw_files w)) else w
               | None => w
               end in
      match parse_auto b with
      | Ok nodes => install tag nodes w
      | Err _ => Ret w
      end
  end.

(** What the cache file gives. *)
Definition cached (cache_path : option str) (w : sub_world) : option (list (str * OutboundSettings)) :=
  match cache_path with
  | Some p => match sw_files w !! p with
              | Some b => match parse_auto b with Ok nodes => Some nodes | Err _ => None end
              | None => None
              end
  | None => None
  end.

Fixpoint scheduled (writable : str -> bool) (tag : str) (cache_path : option str) (downloads : list (option bytes)) (w : sub_world) : run sub_world :=
  match downloads with
  | [] => Ret w
  | d :: downloads => w ← fetch_and_update writable tag cache_path d w; scheduled writable tag cache_path downloads w
  end.

(** The cache file, or else a first download; then the downloads of the timer. *)
Definition start_remote_provider (writable : str -> bool) (config_dir : str) (c : RemoteProviderConfig) (first : option bytes)
    (ticks : list (option bytes)) (w : sub_world) : run sub_world :=
  let cache_path := resolve_path config_dir <$> rp_path c in
  w ← match cached cache_path w with
      | Some nodes => install (rp_tag c) nodes w
      | None => fetch_and_update writable (rp_tag c) cache_path first w
      end;
  scheduled writable (rp_tag c) cache_path ticks w.

Definition start_local_provider (config_dir tag path : str) (w : sub_world) : run sub_world :=
  match sw_files w !! resolve_path config_dir path with
  | Some b => match parse_auto b with Ok nodes => install tag nodes w | Err _ => Ret w end
  | None => Ret w
  end.

End Parsers.

(** ** What becomes of a Clash proxy *)

(** The kinds, and the fields each cannot do without. *)
Definition convertible (p : ClashProxy) : bool :=
  let kind k := bool_decide (cp_type p = lit k) in
  let has (o : option str) := match o with Some _ => true | None => false end in
  ((kind "vmess"%string || kind "vless"%string) && has (cp_uuid p))
  || ((kind "trojan"%string || kind "hysteria2"%string || kind "hy2"%string) && has (cp_password p))
  || (kind "tuic"%string && has (cp_uuid p) && has (cp_password p)).

(** The server of a node. *)
Definition node_endpoint (o : OutboundSettings) : option (str * Z) :=
  match o with
  | SVless c => Some (vless_server c, vless_server_port c)
  | SVmess c => Some (vmess_server c, vmess_server_port c)
  | SShadowsocks c => Some (ss_server c, ss_server_port c)
  | SHysteria2 c => Some (hy2_server c, hy2_server_port c)
  | STuic c => Some (tuic_server c, tuic_server_port c)
  | STrojan c => Some (trojan_server c, trojan_server_port c)
  | SSocks c => Some (socks_server c, socks_server_port c)
  | _ => None
  end.

(** Its TLS, if it is enabled: the server name and whether certificates are not checked. *)
Definition tls_of (o : OutboundSettings) : option (option str * bool) :=
  let enabled (t : TlsConfig) := if tls_enabled t then Some (tls_server_name t, tls_insecure t) else None in
  match o with
  | SVless c => match vless_tls c with Some t => if vt_enabled t then Some (vt_server_name t, vt_insecure t) else None | None => None end
  | SVmess c => enabled (vmess_tls c)
  | SHysteria2 c => enabled (hy2_tls c)
  | STuic c => enabled (tuic_tls c)
  | STrojan c => enabled (trojan_tls c)
  | _ => None
  end.

(** Whether a proxy uses TLS: Trojan does unless it says no, VMess and VLESS only when
    they say so, the protocols over QUIC always. *)
Definition wants_tls (p : ClashProxy) : bool :=
  let kind k := bool_decide (cp_type p = lit k) in
  if kind "vmess"%string || kind "vless"%string then unwrap_or false (cp_tls p)
  else if kind "trojan"%string then unwrap_or true (cp_tls p)
  else true.

Definition node_of (p : ClashProxy) (x : str * OutboundSettings) : Prop :=
  x.1 = cp_name p /\ settings_tag x.2 = cp_name p /\ is_real_node x.2 = true /\ node_endpoint x.2 = Some (cp_server p, cp_port p) /\
  tls_of x.2 = if wants_tls p then Some (cp_sni p, cp_skip_cert_verify p) else None.

Lemma build_outbound_spec (p : ClashProxy) :
  if convertible p then exists ob, build_outbound p = Ok ob /\ node_of p (cp_name p, ob) else exists e, build_outbound p = Err e.
Proof.
  unfold build_outbound, convertible, node_of, wants_tls. cbv beta zeta.
  repeat match goal with |- context [bool_decide (cp_type p = lit ?k)] =>
    let E := fresh in destruct (decide (cp_type p = lit k)) as [E|E];
      [rewrite !E;
       repeat match goal with |- context [bool_decide (lit ?a = lit ?b)] =>
         let v := eval vm_compute in (bool_decide (lit a = lit b)) in change (bool_decide (lit a = lit b)) with v end
      |rewrite !(bool_decide_eq_false_2 (cp_type p = lit k)) by exact E] end;
    cbn [orb andb]; unfold build_ss, build_vmess, build_vless, build_trojan, build_hysteria2, build_tuic;
    try destruct (cp_uuid p); try destruct (cp_password p); cbn [ok_or result_bind orb andb]; try (eexists; reflexivity);
    (eexists; split; [reflexivity|]; cbn; repeat split; try done; by destruct (cp_tls p) as [[]|]).
Qed.

(** Clash subscriptions: the nodes are exactly the proxies of a supported kind with
    the fields it needs, in their order; each keeps the proxy's name (as its tag too),
    server and port, and uses TLS exactly when the proxy wants it, with the proxy's
    server name and its choice about certificates. *)
Theorem clash_conversion (proxies : list ClashProxy) : Forall2 node_of (List.filter convertible proxies) (clash_nodes proxies).
Proof.
  induction proxies as [|p ps IH]; [constructor|]. cbn [List.filter clash_nodes omap list_omap]. pose proof (build_outbound_spec p) as H. revert H.
  destruct (convertible p); intros H.
  - destruct H as (ob & -> & Hn). by constructor.
  - destruct H as (e & ->). exact IH.
Qed.

Example ss_skipped (p : ClashProxy) : cp_type p = lit "ss" -> clash_nodes [p] = [].
Proof. intros E. unfold clash_nodes, build_outbound. cbn [omap list_omap]. by rewrite E. Qed.

Example mbps_words : parse_mbps (lit "100 mbps") = Some 100 /\ parse_mbps (lit "100mbps") = None.
Proof. split; reflexivity. Qed.

Lemma clash_real (proxies : list ClashProxy) :
  Forall (fun x => settings_tag x.2 = x.1 /\ is_real_node x.2 = true) (clash_nodes proxies).
Proof.
  induction proxies as [|p ps IH]; [constructor|]. cbn [clash_nodes omap list_omap]. pose proof (build_outbound_spec p) as H. revert H.
  destruct (convertible p); intros H; [destruct H as (ob & -> & Hn)|by destruct H as (e & ->)].
  destruct Hn as (_ & Ht & Hr & _). by constructor.
Qed.

Lemma singbox_real (outbounds : list OutboundSettings) :
  Forall (fun x => settings_tag x.2 = x.1 /\ is_real_node x.2 = true) (singbox_nodes outbounds).
Proof.
  unfold singbox_nodes. induction outbounds as [|o l IH]; [constructor|]. cbn [List.filter]. destruct (is_real_node o) eqn:E; [|exact IH].
  by constructor.
Qed.

Section Updates.
Context {SL : SubLib}.

Lemma try_parse_real (b : bytes) nodes : try_parse b = Ok nodes -> Forall (fun x => settings_tag x.2 = x.1 /\ is_real_node x.2 = true) nodes.
Proof.
  unfold try_parse. destruct (utf8_valid b); [|done]. cbn [negb].
  assert (Hy : (if looks_like_yaml b then parse_clash_yaml b else Err UnrecognizedFormat) = Ok nodes ->
    Forall (fun x => settings_tag x.2 = x.1 /\ is_real_node x.2 = true) nodes).
  { destruct (looks_like_yaml b); [|done]. unfold parse_clash_yaml. destruct (yaml_proxies b) as [ps|]; [|done]. intros [= <-].
    apply clash_real. }
  destruct (parse_singbox_json b) as [[|x l]|] eqn:E; try exact Hy. intros [= <-].
  unfold parse_singbox_json in E. destruct (json_outbounds b) as [os|]; [|done]. injection E as <-. apply singbox_real.
Qed.

(** Whatever the format, the nodes are real ones, named by their tags. *)
Lemma parse_auto_real (b : bytes) nodes : parse_auto b = Ok nodes -> Forall (fun x => settings_tag x.2 = x.1 /\ is_real_node x.2 = true) nodes.
Proof.
  unfold parse_auto. destruct (try_parse b) as [l|e] eqn:E; [intros [= <-]; by apply (try_parse_real b)|].
  destruct (decode_base64 b) as [d|]; [|done]. cbn [result_bind]. destruct (try_parse d) as [l|] eqn:E'; [|done].
  intros [= <-]. by apply (try_parse_real d).
Qed.

(** ** The updates of a provider *)

(** The last input that could be parsed. *)
Definition latest (inputs : list (option bytes)) (start : option (list (str * OutboundSettings))) : option (list (str * OutboundSettings)) :=
  fold_left (fun last d => match d with
                           | Some b => match parse_auto b with Ok nodes => Some nodes | Err _ => last end
                           | None => last
                           end) inputs start.

(** The names of the other providers. *)
Definition others (m : ProviderManager) (tag : str) : gset (list Z) := Provider.global_tags m ∖ list_to_set (tags_of m tag).

Context (m0 : ProviderManager) (tag : str) (K : Z).

(** The nodes of [tag] are those of [src] with unique names, or still the first ones. *)
Record updated (src : option (list (str * OutboundSettings))) (m : ProviderManager) : Prop := {
  up_inv : provider_inv m;
  up_apart : forall q, q <> tag -> provider_nodes m q = provider_nodes m0 q;
  up_nodes : match src with
             | Some nodes => Forall2 (fun x y => named_as x.1 y.1 /\ y.2 = set_outbound_tag (reduced x.2) y.1) nodes (provider_nodes m tag)
             | None => provider_nodes m tag = provider_nodes m0 tag
             end;
  up_size : Z.of_nat (size (Provider.global_tags m)) <= Z.of_nat (size (Provider.global_tags m0)) + K;
  up_senders : senders m = senders m0
}.

Lemma others_subset (m m' : ProviderManager) : provider_inv m -> provider_inv m' ->
  (forall q, q <> tag -> provider_nodes m' q = provider_nodes m q) -> others m' tag ⊆ Provider.global_tags m.
Proof.
  intros Hm Hm' Hq t Hin0. unfold others in Hin0. apply elem_of_difference in Hin0 as [Ht Hn]. apply (names_taken _ Hm') in Ht as (q & Hin).
  destruct (decide (q = tag)) as [->|Hne]; [by rewrite elem_of_list_to_set in Hn|].
  apply (names_taken _ Hm). exists q. unfold tags_of in *. by rewrite <-Hq.
Qed.

Lemma size_split (m : ProviderManager) : provider_inv m -> (size (Provider.global_tags m) <= size (others m tag) + length (provider_nodes m tag))%nat.
Proof.
  intros Hm. etransitivity; [apply subseteq_size with (Y := others m tag ∪ list_to_set (tags_of m tag))|].
  - intros t Ht. unfold others. destruct (decide (t ∈ (list_to_set (tags_of m tag) : gset (list Z)))); set_solver.
  - rewrite size_union_alt. apply Nat.add_le_mono_l. etransitivity; [apply subseteq_size, subseteq_difference_l; reflexivity|].
    rewrite size_list_to_set by apply (names_distinct _ Hm).
    unfold tags_of. by rewrite length_map.
Qed.

Context (HK : Z.of_nat (size (Provider.global_tags m0)) + 2 * K < 2 ^ 32).

Lemma install_updated (src : option (list (str * OutboundSettings))) nodes files m : provider_inv m0 -> updated src m -> len nodes <= K ->
  exists m', install tag nodes (mkSubWorld m files) = Ret (mkSubWorld m' files) /\ updated (Some nodes) m'.
Proof.
  intros H0 [Hi Hq Hn Hs Hse] Hlen. assert (Hl : len (reduced_nodes nodes) = len nodes) by (unfold reduced_nodes, len; by rewrite length_map).
  destruct (provider_update m tag (reduced_nodes nodes) Hi ltac:(lia)) as (m' & E & Hi' & Hq' & Hf).
  exists m'. unfold install. cbn [sw_manager sw_files]. rewrite E, bind_Ret. cbn [fst]. split; [done|].
  assert (Hq0 : forall q, q <> tag -> provider_nodes m' q = provider_nodes m0 q) by (intros q Hne; by rewrite Hq', Hq).
  split; [done|done| | |].
  - unfold reduced_nodes in Hf. by apply Forall2_fmap_l in Hf.
  - pose proof (size_split m' Hi') as H1. pose proof (subseteq_size _ _ (others_subset m0 m' H0 Hi' Hq0)) as H2.
    apply Forall2_length in Hf. unfold len in Hl, Hlen. lia.
  - unfold update_nodes in E. destruct (dedup_name m tag (reduced_nodes nodes)); [|done..]. cbn in E. injection E as <-. exact Hse.
Qed.

(** An input that gives at most [K] nodes. *)
Definition small_input (d : option bytes) : Prop := forall b nodes, d = Some b -> parse_auto b = Ok nodes -> len nodes <= K.

Lemma fetch_updated writable cache_path d src m files : provider_inv m0 -> small_input d -> updated src m ->
  exists m' files', fetch_and_update writable tag cache_path d (mkSubWorld m files) = Ret (mkSubWorld m' files') /\ updated (latest [d] src) m'.
Proof.
  intros H0 Hd Hu. destruct d as [b|]; [|by exists m, files]. unfold fetch_and_update, latest. cbn [fold_left].
  set (w := match cache_path with Some p => _ | None => _ end).
  assert (Hw : exists files', w = mkSubWorld m files').
  { unfold w. destruct cache_path as [p|]; [|by eexists]. destruct (writable p); by eexists. }
  destruct Hw as (files' & ->). destruct (parse_auto b) as [nodes|e] eqn:E; [|by exists m, files'].
  destruct (install_updated src nodes files' m H0 Hu (Hd b nodes eq_refl E)) as (m' & -> & Hm'). by exists m', files'.
Qed.

Lemma scheduled_updated writable cache_path ds : Forall small_input ds -> forall src m files, provider_inv m0 -> updated src m ->
  exists m' files', scheduled writable tag cache_path ds (mkSubWorld m files) = Ret (mkSubWorld m' files') /\ updated (latest ds src) m'.
Proof.
  induction 1 as [|d ds Hd Hds IH]; intros src m files H0 Hu; cbn [scheduled]; [by exists m, files|].
  destruct (fetch_updated writable cache_path d src m files H0 Hd Hu) as (m' & files' & -> & Hm'). rewrite bind_Ret.
  destruct (IH _ m' files' H0 Hm') as (m'' & files'' & E & Hm''). exists m'', files''. by split.
Qed.

End Updates.

(** A body that cannot be parsed is written over the cache file all the same. *)
Lemma bad_download_cached {SL : SubLib} writable tag p b e m files : parse_auto b = Err e -> writable p = true ->
  fetch_and_update writable tag (Some p) (Some b) (mkSubWorld m files) = Ret (mkSubWorld m (<[p := b]> files)) /\
  cached (Some p) (mkSubWorld m (<[p := b]> files)) = None.
Proof.
  intros E Hw. unfold fetch_and_update, cached. cbn [sw_manager sw_files]. rewrite Hw, E. split; [done|]. by rewrite lookup_insert_eq, E.
Qed.

(** C40. Remote providers: whatever the cache file and the downloads give, the start and
    all later updates return with unique names; other providers keep their nodes; the
    provider's are those of the last input that could be parsed (the cache file, else
    the first download, then the timer's), each under its name or that with a number,
    and none of its own before there is one. *)
Theorem remote_provider_history {SL : SubLib} (writable : str -> bool) (config_dir : str) (c : RemoteProviderConfig) (first : option bytes)
    (ticks : list (option bytes)) (m0 : ProviderManager) (files : gmap (list Z) (list Z)) (K : Z) :
  let start := cached (resolve_path config_dir <$> rp_path c) (mkSubWorld m0 files) in
  let inputs := match start with Some _ => ticks | None => first :: ticks end in
  provider_inv m0 -> Z.of_nat (size (Provider.global_tags m0)) + 2 * K < 2 ^ 32 -> 0 <= K ->
  (forall nodes, start = Some nodes -> len nodes <= K) -> Forall (small_input K) inputs ->
  exists m' files', start_remote_provider writable config_dir c first ticks (mkSubWorld m0 files) = Ret (mkSubWorld m' files') /\
    provider_inv m' /\ (forall q, q <> rp_tag c -> provider_nodes m' q = provider_nodes m0 q) /\
    match latest inputs start with
    | Some nodes => Forall2 (fun x y => named_as x.1 y.1 /\ y.2 = set_outbound_tag (reduced x.2) y.1) nodes (provider_nodes m' (rp_tag c))
    | None => provider_nodes m' (rp_tag c) = provider_nodes m0 (rp_tag c)
    end.
Proof.
  intros start inputs H0 HK HK0 Hst Hin. unfold start_remote_provider. fold start.
  assert (Hu : updated m0 (rp_tag c) K None m0) by (split; [done..|lia|done]).
  assert (H : exists m1 files1, updated m0 (rp_tag c) K (latest inputs start) m1 /\
     start_remote_provider writable config_dir c first ticks (mkSubWorld m0 files) = Ret (mkSubWorld m1 files1)).
  { unfold start_remote_provider. fold start. unfold inputs in *. destruct start as [nodes|] eqn:E.
    - destruct (install_updated m0 (rp_tag c) K HK None nodes files m0 H0 Hu (Hst nodes eq_refl)) as (m1 & -> & H1). rewrite bind_Ret.
      destruct (scheduled_updated m0 (rp_tag c) K HK writable (resolve_path config_dir <$> rp_path c) ticks Hin _ m1 files H0 H1)
        as (m2 & files2 & -> & H2). by exists m2, files2.
    - inversion_clear Hin as [|? ? Hd Hds].
      destruct (fetch_updated m0 (rp_tag c) K HK writable (resolve_path config_dir <$> rp_path c) first None m0 files H0 Hd Hu)
        as (m1 & files1 & -> & H1). rewrite bind_Ret.
      destruct (scheduled_updated m0 (rp_tag c) K HK writable (resolve_path config_dir <$> rp_path c) ticks Hds _ m1 files1 H0 H1)
        as (m2 & files2 & -> & H2). by exists m2, files2. }
  destruct H as (m1 & files1 & [Hi Hq Hn _ _] & E). exists m1, files1. unfold start_remote_provider in E. fold start in E. by split.
Qed.

(** A document of one line for each format. *)
Definition toy_proxy (name kind : str) : ClashProxy :=
  mkClash name kind (lit "h") 443 None (Some (lit "pw")) None None false None None None None None None None None None.
Definition ToySub : SubLib := {|
  json_outbounds s := if bool_decide (s = lit "{}") then Some [SDirect (mkDirect (lit "direct") None)] else None;
  yaml_proxies s := if bool_decide (s = lit "proxies: a") then Some [toy_proxy (lit "jp") (lit "hy2"); toy_proxy (lit "x") (lit "ss")] else None;
  base64_standard _ := None;
  base64_url_safe s := if bool_decide (s = lit "-") then Some (lit "proxies: a") else None
|}.

Example toy_formats :
  map fst <$> match parse_auto (SL := ToySub) (lit "-  ") with Ok l => Some l | Err _ => None end = Some [lit "jp"] /\
  parse_auto (SL := ToySub) (lit "{}") = Err Base64Error.
Proof. split; vm_compute; reflexivity. Qed.

Lemma toy_small d : small_input (SL := ToySub) 2 d.
Proof.
  intros b nodes -> H. assert (Hp : forall b l, try_parse (SL := ToySub) b = Ok l -> len l <= 2).
  { clear. intros b l. unfold try_parse. destruct (utf8_valid b); [|done]. cbn [negb].
    assert (Hy : (if looks_like_yaml b then parse_clash_yaml (SL := ToySub) b else Err UnrecognizedFormat) = Ok l -> len l <= 2).
    { destruct (looks_like_yaml b); [|done]. unfold parse_clash_yaml, yaml_proxies. cbn [ToySub]. case_bool_decide; [|done].
      intros [= <-]. vm_compute. discriminate. }
    unfold parse_singbox_json, json_outbounds. cbn [ToySub]. by case_bool_decide. }
  unfold parse_auto in H. destruct (try_parse b) as [l|] eqn:E; [injection H as ->; by apply (Hp b)|].
  destruct (decode_base64 b) as [d|]; [|done]. cbn [result_bind] in H. destruct (try_parse d) as [l|] eqn:E'; [|done]. injection H as ->. by apply (Hp d).
Qed.

Lemma remote_provider_history_witness :
  exists m' files', start_remote_provider (SL := ToySub) (fun _ => true) (lit "/etc") (mkRemote (lit "s2") (Some (lit "s2.yaml")))
      (Some (lit "proxies: a")) [None; Some (lit "<html>")] (mkSubWorld sample_pm {[ lit "/etc/s2.yaml" := lit "junk" ]}) = Ret (mkSubWorld m' files') /\
    provider_inv m'.
Proof.
  destruct (remote_provider_history (SL := ToySub) (fun _ => true) (lit "/etc") (mkRemote (lit "s2") (Some (lit "s2.yaml")))
    (Some (lit "proxies: a")) [None; Some (lit "<html>")] sample_pm {[ lit "/etc/s2.yaml" := lit "junk" ]} 2) as (m' & files' & E & Hi & _).
  - exact sample_pm_inv.
  - vm_compute. reflexivity.
  - lia.
  - intros nodes E. vm_compute in E. discriminate E.
  - apply Forall_forall. intros d _. apply toy_small.
  - exists m', files'. split; [exact E|exact Hi].
Defined.

(** ** Health checks: [health.rs] *)

Definition health_probe_url (url : str) : result (str * Z) unit :=
  split ←! (match strip_prefix (lit "https://") url with
            | Some r => Ok (443, r)
            | None => match strip_prefix (lit "http://") url with Some r => Ok (80, r) | None => Err tt end
            end);
  let '(default_port, rest) := split in
  let authority := until_slash rest in
  hp ←! match rsplit_once 58 authority with
        | Some (h, p) => port ←! ok_or (parse_uint u16_max p) tt; Ok (h, port)
        | None => Ok (authority, default_port)
        end;
  if bool_decide (hp.1 = []) then Err tt else Ok hp.

Definition health_probe_path (url : str) : str :=
  let rest := unwrap_or url (or_else (strip_prefix (lit "https://") url) (strip_prefix (lit "http://") url)) in
  match split_once 47 rest with Some (_, path) => 47 :: path | None => lit "/" end.

Inductive ProbeError : Type := ConnectError | WriteError | FlushError | ReadError | EmptyResponse | NotHttp.

(** One probe's connection: whether each step succeeds, and the first read. *)
Record probe_io : Type := mkProbeIo { pi_connect : bool; pi_write : bool; pi_flush : bool; pi_read : option bytes }.

Definition probe_request (path host : str) : bytes :=
  lit "HEAD " ++ path ++ lit " HTTP/1.1" ++ crlf ++ lit "Host: " ++ host ++ crlf ++ lit "User-Agent: reflex/1.0" ++ crlf
  ++ lit "Connection: close" ++ crlf ++ crlf.

(** What is sent, and the result. *)
Definition probe_via_outbound (path host : str) (io : probe_io) : bytes * result unit ProbeError :=
  if negb (pi_connect io) then ([], Err ConnectError)
  else if negb (pi_write io) then ([], Err WriteError)
  else
    (probe_request path host,
     if negb (pi_flush io) then Err FlushError
     else match pi_read io with
          | None => Err ReadError
          | Some b => if len b =? 0 then Err EmptyResponse else if starts_with (lit "HTTP/") b then Ok tt else Err NotHttp
          end).

(** The outcome of a probe under its timeout, with the milliseconds it took. *)
Inductive timed : Type := Finished (io : probe_io) (ms : Z) | TimedOut.

Section Health.
Context (registered : str -> bool) (outcome : str -> timed) (now : Z).

Definition probe_latency (path host tag : str) : option Z :=
  if registered tag then
    match outcome tag with
    | Finished io ms => match (probe_via_outbound path host io).2 with Ok _ => Some ms | Err _ => None end
    | TimedOut => None
    end
  else None.

Definition run_health_check (m : ProviderManager) (provider_tag url : str) (h : gmap (list Z) DelayRecord) : gmap (list Z) DelayRecord :=
  let nodes := nodes_snapshot m provider_tag in
  if bool_decide (nodes = []) then h
  else
    match health_probe_url url with
    | Err _ => h
    | Ok (host, _) =>
        let path := health_probe_path url in
        fold_left (fun h x => match probe_latency path host x.1 with Some ms => history_store h now x.1 ms | None => h end) nodes h
    end.

(** A round stores the latency of each node that answered; every other record stays,
    also that of a node that failed. *)
Lemma run_health_check_spec m p url h tag host port : health_probe_url url = Ok (host, port) ->
  run_health_check m p url h !! tag
  = match (if decide (tag ∈ tags_of m p) then probe_latency (health_probe_path url) host tag else None) with
    | Some ms => Some (mkDelay now ms)
    | None => h !! tag
    end.
Proof.
  intros Hu. unfold run_health_check, nodes_snapshot, tags_of. rewrite Hu. case_bool_decide as Hn; [by rewrite Hn|]. clear Hn.
  set (path := health_probe_path url). revert h. induction (provider_nodes m p) as [|[t ob] l IH]; intros h; [done|]. cbn [fold_left fst map].
  rewrite IH. clear IH. destruct (decide (tag = t)) as [->|Hne].
  - rewrite (decide_True (P := t ∈ t :: _)) by left. destruct (probe_latency path host t) as [ms|] eqn:E.
    + unfold history_store. rewrite lookup_insert_eq. by destruct (decide _).
    + by destruct (decide _).
  - assert (Hiff : tag ∈ t :: map fst l <-> tag ∈ map fst l) by (rewrite elem_of_cons; tauto).
    destruct (decide (tag ∈ map fst l)) as [Hin|Hin], (decide (tag ∈ t :: map fst l)) as [Hin'|Hin']; try tauto;
      destruct (probe_latency path host t); unfold history_store; rewrite ?lookup_insert_ne by done; done.
Qed.

End Health.

(** The two parsers of probe addresses agree. *)
Lemma health_probe_url_agrees url : health_probe_url url = Group.parse_probe_url url.
Proof.
  unfold health_probe_url, Group.parse_probe_url.
  destruct (strip_prefix (lit "https://") url) as [r|]; [|destruct (strip_prefix (lit "http://") url) as [r|]; [|done]];
    cbn [result_bind ok_or]; (destruct (bool_decide (until_slash r = [])) eqn:E; [|done]);
    apply bool_decide_eq_true in E; by rewrite E.
Qed.

Lemma health_probe_path_agrees url : health_probe_path url = Group.parse_probe_path url.
Proof. unfold health_probe_path, Group.parse_probe_path, unwrap_or. by destruct (or_else _ _). Qed.

(** A probe of an https address is the same plain request. *)
Example https_probed_in_clear :
  health_probe_url (lit "https://www.gstatic.com/generate_204") = Ok (lit "www.gstatic.com", 443) /\
  take 5 (probe_via_outbound (lit "/generate_204") (lit "www.gstatic.com") (mkProbeIo true true true None)).1 = lit "HEAD ".
Proof. split; reflexivity. Qed.
