(* ===== verification/Dial.v ===== *)
(** * Dial: how the outbounds reach their servers, [src/outbound/tls.rs],
    [src/outbound/vless.rs], [src/outbound/trojan.rs], [src/outbound/vmess/mod.rs],
    [src/outbound/shadowsocks.rs] and the connector of [src/outbound/xhttp.rs].

    A dial looks the server up, connects, and puts TLS, REALITY, a WebSocket or HTTP on
    the connection as the settings say.  The resolver, the sockets, the certificates
    and the handshakes are an interface; what is modelled is which of them are called,
    in which order, with which parameters, and what the result is. *)

From S2P Require Import Prelude RustStr Extern Format Trie IpMatch Compiler Loader Matcher MatchSafe CacheFile Inbound QuicCrypto Sniff Router DnsWire DnsTopo FakeIp DnsCache DnsResolver Config Provider Wire Socks Tunnels Vmess Reality Xhttp OutboundCfg.

Local Open Scope reflex_scope.

(** What is set of a client's TLS: the trusted roots and whether certificates are verified. *)
Record ClientConfig : Type := mkClient { cc_roots : list bytes; cc_verify : bool }.

(** The resolver, the sockets, the files, the certificate libraries and the handshakes. *)
Class DialLib : Type := {
  resolve_host : str -> option (list SocketAddr);
  tcp_open : SocketAddr -> bool;
  options_set : SocketAddr -> bool;
  mark_set : SocketAddr -> Z -> bool;
  file_bytes : str -> option bytes;
  pem_certs : bytes -> list (option bytes);
  root_ok : bytes -> bool;
  native_certs : list bytes;
  server_name_ok : str -> bool;
  tls_handshake : SocketAddr -> str -> ClientConfig -> bool;
  uri_ok : str -> bool;
  header_name : str -> option str;
  header_value_ok : str -> bool;
  ws_handshake : SocketAddr -> str -> gmap (list Z) (list Z) -> option ClientConfig -> bool;
  reality_handshake : SocketAddr -> RealityDialConfig -> bool;
  http_open : XhttpShared -> XhttpMode -> option ClientConfig -> bool
}.

Inductive DialError : Type :=
  | CaUnreadable
  | CaInvalid
  | LookupFailed
  | NoAddress
  | ConnectFailed
  | OptionsFailed
  | MarkFailed
  | BadServerName
  | TlsFailed
  | BadUri
  | BadHeader
  | WsFailed
  | RealityFailed
  | HttpFailed
  | BadUuid
  | BadSecurity.

Section Dial.
Context {DL : DialLib} {CR : Crates} (sha224 : bytes -> bytes).

Definition check (b : bool) (e : DialError) : result unit DialError := if b then Ok tt else Err e.

(** ** TLS: [tls.rs] *)

(** The certificates of a CA file: each must be readable and accepted. *)
Fixpoint ca_roots (certs : list (option bytes)) : result (list bytes) DialError :=
  match certs with
  | [] => Ok []
  | Some c :: certs => if root_ok c then roots ←! ca_roots certs; Ok (c :: roots) else Err CaInvalid
  | None :: _ => Err CaInvalid
  end.

Definition build_client_config (tls : TlsConfig) : result ClientConfig DialError :=
  roots ←! match tls_ca_path tls with
           | Some path => data ←! ok_or (file_bytes path) CaUnreadable; ca_roots (pem_certs data)
           | None => Ok (List.filter root_ok native_certs)
           end;
  Ok (if tls_insecure tls then mkClient [] false else mkClient roots true).

(** The configuration that trusts nobody. *)
Definition empty_client_config : ClientConfig := mkClient [] true.

(** What is put on a connection. *)
Inductive layer : Type :=
  | LTls (sni : str) (cc : ClientConfig)
  | LReality (c : RealityDialConfig)
  | LWs (url : str) (headers : gmap (list Z) (list Z)) (cc : option ClientConfig).

(** A tunnel to the server: over a connection of its own, or over HTTP requests. *)
Inductive tunnel : Type :=
  | TTcp (peer : SocketAddr) (l : option layer) (header : bytes)
  | THttp (s : XhttpShared) (m : XhttpMode) (cc : option ClientConfig) (header : bytes).

Definition connect_tls (peer : SocketAddr) (server_name : str) (cc : ClientConfig) : result layer DialError :=
  _ ←! check (server_name_ok server_name) BadServerName;
  _ ←! check (tls_handshake peer server_name cc) TlsFailed;
  Ok (LTls server_name cc).

(** ** The connection to the server *)

(** [lookup_host(format!("{server}:{port}")).await?.next()] *)
Definition resolve_server (server : str) (port : Z) : result SocketAddr DialError :=
  addrs ←! ok_or (resolve_host (server ++ [58] ++ show_uint port)) LookupFailed;
  match addrs with a :: _ => Ok a | [] => Err NoAddress end.

Definition connect_raw_tcp (server : str) (port mark : Z) : result SocketAddr DialError :=
  addr ←! resolve_server server port;
  _ ←! check (tcp_open addr) ConnectFailed;
  _ ←! check (options_set addr) OptionsFailed;
  _ ←! check (mark_set addr mark) MarkFailed;
  Ok addr.

(** ** WebSocket *)

(** The configured headers, then [Host] unless the map has that very key. *)
Fixpoint insert_headers (hs : list (str * str)) (acc : gmap (list Z) (list Z)) : result (gmap (list Z) (list Z)) DialError :=
  match hs with
  | [] => Ok acc
  | (k, v) :: hs =>
      name ←! ok_or (header_name k) BadHeader;
      _ ←! check (header_value_ok v) BadHeader;
      insert_headers hs (<[name := v]> acc)
  end.

Definition ws_request_headers (c : WsTransportConfig) (sni : str) : result (gmap (list Z) (list Z)) DialError :=
  hs ←! insert_headers (map_to_list (ws_headers c)) ∅;
  if bool_decide (is_Some (ws_headers c !! lit "Host")) then Ok hs
  else _ ←! check (header_value_ok sni) BadHeader; Ok (<[lit "host" := sni]> hs).

(** The connection, the request and the handshake; [cc] is the connector. *)
Definition connect_ws (server : str) (port mark : Z) (url sni : str) (c : WsTransportConfig) (cc : option ClientConfig)
    : result (SocketAddr * layer) DialError :=
  peer ←! connect_raw_tcp server port mark;
  _ ←! check (uri_ok url) BadUri;
  hs ←! ws_request_headers c sni;
  _ ←! check (ws_handshake peer url hs cc) WsFailed;
  Ok (peer, LWs url hs cc).

(** ** The HTTP transport *)

Definition xhttp_tls (t : TlsConfig) : XhttpTls := mkXhttpTls (tls_enabled t) (tls_server_name t).

Definition build_http_client (tls : option TlsConfig) : result (option ClientConfig) DialError :=
  match tls with
  | Some t => if tls_enabled t then cc ←! build_client_config t; Ok (Some cc) else Ok None
  | None => Ok None
  end.

(** [xhttp::connect] *)
Definition xhttp_connect (server : str) (port : Z) (c : XhttpTransportConfig) (tls : option TlsConfig) (session : str) (header : bytes)
    : result tunnel DialError :=
  cc ←! build_http_client tls;
  let '(s, m) := xhttp_shared server port c (xhttp_tls <$> tls) ∅ session in
  _ ←! check (http_open s m cc) HttpFailed;
  Ok (THttp s m cc header).

(** The connector of the HTTP client: it takes the server name for TLS from the
    address of the request. *)
Definition marked_connect (host : str) (port : option Z) (https : bool) (mark : Z) (tls : option ClientConfig)
    : result (SocketAddr * option layer) DialError :=
  let port := match port with Some p => p | None => if https then 443 else 80 end in
  addr ←! resolve_server host port;
  _ ←! check (tcp_open addr) ConnectFailed;
  _ ←! check (mark_set addr mark) MarkFailed;
  _ ←! check (options_set addr) OptionsFailed;
  match tls with
  | Some cc => l ←! connect_tls addr host cc; Ok (addr, Some l)
  | None => Ok (addr, None)
  end.

(** ** VLESS *)

Record VlessOutbound : Type := mkVlessOut { vo_config : VlessOutboundConfig; vo_tls_config : ClientConfig; vo_mark : Z }.

(** The settings of plain TLS among those of VLESS. *)
Definition plain_tls (t : VlessTlsConfig) : TlsConfig :=
  mkTls (vt_enabled t) (vt_server_name t) (vt_insecure t) (vt_ca_path t) (vt_alpn t) None None.

Definition VlessOutbound_new (c : VlessOutboundConfig) (mark : Z) : result VlessOutbound DialError :=
  cc ←! match vless_tls c with
        | Some t => if vt_enabled t && bool_decide (vt_reality t = None) then build_client_config (plain_tls t) else Ok empty_client_config
        | None => Ok empty_client_config
        end;
  Ok (mkVlessOut c cc mark).

Definition vless_sni (c : VlessOutboundConfig) : str :=
  match vless_tls c with
  | Some t => match vt_server_name t with Some n => n | None => vless_server c end
  | None => vless_server c
  end.

Definition vless_tls_enabled (c : VlessOutboundConfig) : bool := match vless_tls c with Some t => vt_enabled t | None => false end.

Definition vless_ws_url (c : VlessOutboundConfig) (ws : WsTransportConfig) : str :=
  if vless_tls_enabled c then lit "wss://" ++ vless_sni c ++ ws_path ws
  else lit "ws://" ++ vless_server c ++ [58] ++ show_uint (vless_server_port c) ++ ws_path ws.

Definition reality_dial (c : VlessOutboundConfig) (t : VlessTlsConfig) (r : RealityConfig) : RealityDialConfig :=
  mkReality (reality_public_key r) (reality_short_id r) (vt_server_name t) (vless_server c) (vt_alpn t) (lit "chrome").

(** The TCP path: REALITY when it is enabled or has a key, or else TLS. *)
Definition vless_secure (o : VlessOutbound) (t : VlessTlsConfig) (header : bytes) : result tunnel DialError :=
  let c := vo_config o in
  let tls :=
    peer ←! connect_raw_tcp (vless_server c) (vless_server_port c) (vo_mark o);
    l ←! connect_tls peer (vless_sni c) (vo_tls_config o); Ok (TTcp peer (Some l) header) in
  match vt_reality t with
  | Some r =>
      if reality_enabled r || negb (bool_decide (reality_public_key r = [])) then
        peer ←! connect_raw_tcp (vless_server c) (vless_server_port c) (vo_mark o);
        _ ←! check (reality_handshake peer (reality_dial c t r)) RealityFailed;
        Ok (TTcp peer (Some (LReality (reality_dial c t r))) header)
      else tls
  | None => tls
  end.

Definition vless_dial (o : VlessOutbound) (session : str) (header : bytes) : result tunnel DialError :=
  let c := vo_config o in
  match vless_transport c with
  | Some (VlessXhttp x) => xhttp_connect (vless_server c) (vless_server_port c) x (plain_tls <$> vless_tls c) session header
  | Some (VlessWs ws) =>
      r ←! connect_ws (vless_server c) (vless_server_port c) (vo_mark o) (vless_ws_url c ws) (vless_sni c) ws
             (if vless_tls_enabled c then Some (vo_tls_config o) else None);
      Ok (TTcp r.1 (Some r.2) header)
  | _ =>
      match vless_tls c with
      | Some t => if vt_enabled t then vless_secure o t header
                  else peer ←! connect_raw_tcp (vless_server c) (vless_server_port c) (vo_mark o); Ok (TTcp peer None header)
      | None => peer ←! connect_raw_tcp (vless_server c) (vless_server_port c) (vo_mark o); Ok (TTcp peer None header)
      end
  end.

Definition vless_connect_tcp (o : VlessOutbound) (session host : str) (port : Z) : result tunnel DialError :=
  uuid ←! ok_or (parse_uuid (vless_uuid (vo_config o))) BadUuid;
  vless_dial o session (build_request_header uuid (TDomain host port)).

(** ** Trojan *)

Record TrojanOutbound : Type := mkTrojanOut { to_config : TrojanOutboundConfig; to_key : bytes; to_tls_config : ClientConfig; to_mark : Z }.

Definition TrojanOutbound_new (c : TrojanOutboundConfig) (mark : Z) : result TrojanOutbound DialError :=
  cc ←! build_client_config (trojan_tls c); Ok (mkTrojanOut c (Tunnels.derive_key sha224 (trojan_password c)) cc mark).

(** [tls.server_name], or the server. *)
Definition sni_of (t : TlsConfig) (server : str) : str := match tls_server_name t with Some n => n | None => server end.

Definition trojan_sni (c : TrojanOutboundConfig) : str := sni_of (trojan_tls c) (trojan_server c).

Definition trojan_ws_url (c : TrojanOutboundConfig) (ws : WsTransportConfig) : str :=
  if tls_enabled (trojan_tls c) then lit "wss://" ++ trojan_sni c ++ ws_path ws
  else lit "ws://" ++ trojan_server c ++ [58] ++ show_uint (trojan_server_port c) ++ ws_path ws.

(** [if tls.enabled { Some(..) } else { None }] *)
Definition enabled_tls (t : TlsConfig) : option TlsConfig := if tls_enabled t then Some t else None.

(** A connection with TLS if it is enabled. *)
Definition maybe_tls (server : str) (port mark : Z) (t : TlsConfig) (cc : ClientConfig) : result (SocketAddr * option layer) DialError :=
  peer ←! connect_raw_tcp server port mark;
  if tls_enabled t then l ←! connect_tls peer (sni_of t server) cc; Ok (peer, Some l) else Ok (peer, None).

Definition trojan_dial (o : TrojanOutbound) (session : str) (header : bytes) : result tunnel DialError :=
  let c := to_config o in
  match trojan_transport c with
  | None | Some TrojanTcp =>
      r ←! maybe_tls (trojan_server c) (trojan_server_port c) (to_mark o) (trojan_tls c) (to_tls_config o); Ok (TTcp r.1 r.2 header)
  | Some (TrojanWs ws) =>
      r ←! connect_ws (trojan_server c) (trojan_server_port c) (to_mark o) (trojan_ws_url c ws) (trojan_sni c) ws
             (if tls_enabled (trojan_tls c) then Some (to_tls_config o) else None);
      Ok (TTcp r.1 (Some r.2) header)
  | Some (TrojanXhttp x) => xhttp_connect (trojan_server c) (trojan_server_port c) x (enabled_tls (trojan_tls c)) session header
  end.

Definition trojan_connect_tcp (o : TrojanOutbound) (session host : str) (port : Z) : result tunnel DialError :=
  trojan_dial o session (build_tcp_header (to_key o) (TDomain host port)).

(** ** VMess *)

Record VmessOutbound : Type := mkVmessOut {
  mo_config : VmessOutboundConfig; mo_user_key : bytes; mo_security : Z; mo_tls_config : ClientConfig; mo_mark : Z
}.

Definition VmessOutbound_new (c : VmessOutboundConfig) (mark : Z) : result VmessOutbound DialError :=
  uuid ←! ok_or (parse_uuid (vmess_uuid c)) BadUuid;
  security ←! ok_or (resolve_security (vmess_security c)) BadSecurity;
  cc ←! build_client_config (vmess_tls c);
  Ok (mkVmessOut c (user_key uuid) security cc mark).

Definition vmess_sni (c : VmessOutboundConfig) : str := sni_of (vmess_tls c) (vmess_server c).

Definition vmess_ws_url (c : VmessOutboundConfig) (ws : WsTransportConfig) : str :=
  (if tls_enabled (vmess_tls c) then lit "wss" else lit "ws") ++ lit "://" ++ vmess_sni c ++ ws_path ws.

(** [connect_raw]: the stream before the handshake, which carries no header. *)
Definition vmess_connect_raw (o : VmessOutbound) (session : str) : result tunnel DialError :=
  let c := mo_config o in
  match vmess_transport c with
  | VmessWs ws =>
      r ←! connect_ws (vmess_server c) (vmess_server_port c) (mo_mark o) (vmess_ws_url c ws) (vmess_sni c) ws
             (if tls_enabled (vmess_tls c) then Some (mo_tls_config o) else None);
      Ok (TTcp r.1 (Some r.2) [])
  | VmessXhttp x => xhttp_connect (vmess_server c) (vmess_server_port c) x (enabled_tls (vmess_tls c)) session []
  | VmessTcp =>
      r ←! maybe_tls (vmess_server c) (vmess_server_port c) (mo_mark o) (vmess_tls c) (mo_tls_config o); Ok (TTcp r.1 r.2 [])
  end.

(** ** Shadowsocks, and what an outbound does without a [connect_tcp] of its own *)

(** The stream of a TCP connection before its cipher: HTTP, or else plain TCP. *)
Definition shadowsocks_stream (c : ShadowsocksOutboundConfig) (mark : Z) (session : str) : result tunnel DialError :=
  match ss_transport c with
  | Some (ShadowsocksXhttp x) => xhttp_connect (ss_server c) (ss_server_port c) x (ss_tls c) session []
  | _ => peer ←! connect_raw_tcp (ss_server c) (ss_server_port c) mark; Ok (TTcp peer None [])
  end.

(** The default of the trait: a connection to the target itself. *)
Definition default_connect_tcp (host : str) (port : Z) : result tunnel DialError :=
  addr ←! resolve_server host port;
  _ ←! check (tcp_open addr) ConnectFailed;
  _ ←! check (options_set addr) OptionsFailed;
  Ok (TTcp addr None []).

(** [connect_tcp] of the outbounds that have none: Shadowsocks and block. *)
Definition shadowsocks_connect_tcp (c : ShadowsocksOutboundConfig) (host : str) (port : Z) : result tunnel DialError :=
  default_connect_tcp host port.
Definition block_connect_tcp (host : str) (port : Z) : result tunnel DialError := default_connect_tcp host port.

End Dial.


(** ** What a dial guarantees *)

(** The tunnel is under TLS or REALITY, and certificates go unverified only if [insecure]. *)
Definition under_tls (insecure : bool) (t : tunnel) : Prop :=
  let checked cc := cc_verify cc = false -> insecure = true in
  match t with
  | TTcp _ (Some (LTls _ cc)) _ => checked cc
  | TTcp _ (Some (LReality _)) _ => True
  | TTcp _ (Some (LWs url _ (Some cc))) _ => starts_with (lit "wss://") url = true /\ checked cc
  | THttp s _ (Some cc) _ => starts_with (lit "https://") (base_url s) = true /\ checked cc
  | _ => False
  end.

(** Takes the steps of a [result] that was [Ok]. *)
Ltac ok_steps :=
  repeat match goal with
    | H : result_bind ?m _ = Ok _ |- _ =>
        let x := fresh "x" in let E := fresh "E" in destruct m as [x|x] eqn:E; [cbn [result_bind] in H|discriminate H]
    end.

Section Guarantees.
Context {DL : DialLib} {CR : Crates} (sha224 : bytes -> bytes).

Lemma client_config_verify t cc : build_client_config t = Ok cc -> cc_verify cc = negb (tls_insecure t).
Proof. unfold build_client_config. intros H. ok_steps. injection H as <-. by destruct (tls_insecure t). Qed.

(** Only the CA file and [insecure] have an effect: not the protocol list nor the versions. *)
Lemma client_config_ignores t u : tls_ca_path t = tls_ca_path u -> tls_insecure t = tls_insecure u -> build_client_config t = build_client_config u.
Proof. unfold build_client_config. by intros -> ->. Qed.

Lemma connect_tls_layer peer sni cc l : connect_tls peer sni cc = Ok l -> l = LTls sni cc.
Proof. unfold connect_tls. intros H. ok_steps. by injection H as <-. Qed.

Lemma connect_ws_layer server port mark url sni c cc r : connect_ws server port mark url sni c cc = Ok r -> exists hs, r.2 = LWs url hs cc.
Proof. unfold connect_ws. intros H. ok_steps. injection H as <-. by eexists. Qed.

Lemma starts_with_prefix p s : starts_with p (p ++ s) = true.
Proof. induction p as [|b p IH]; [done|]. cbn [starts_with app]. by rewrite Z.eqb_refl, IH. Qed.

Lemma xhttp_under_tls server port x t session header d : tls_enabled t = true ->
  xhttp_connect server port x (Some t) session header = Ok d -> under_tls (tls_insecure t) d.
Proof.
  intros Ht H. unfold xhttp_connect, build_http_client in H. rewrite Ht in H. ok_steps. cbn [fmap option_fmap option_map] in H.
  unfold xhttp_shared, xhttp_tls in H. cbn [xt_enabled] in H. rewrite Ht in H. ok_steps. injection H as <-. injection E as <-.
  cbn [under_tls base_url]. split; [apply (starts_with_prefix (lit "https://"))|].
  match goal with Hc : build_client_config t = Ok _ |- _ => rewrite (client_config_verify t _ Hc) end. by destruct (tls_insecure t).
Qed.

Lemma maybe_tls_layer server port mark t cc r : tls_enabled t = true ->
  maybe_tls server port mark t cc = Ok r -> r.2 = Some (LTls (sni_of t server) cc).
Proof.
  intros Ht H. unfold maybe_tls in H. ok_steps. rewrite Ht in H. ok_steps. injection H as <-. cbn [snd]. f_equal. by apply (connect_tls_layer x).
Qed.

Lemma vless_under_tls c mark o session header d t : VlessOutbound_new c mark = Ok o -> vless_tls c = Some t -> vt_enabled t = true ->
  vless_dial o session header = Ok d -> under_tls (vt_insecure t) d.
Proof.
  intros Hn Ht He Hd. unfold VlessOutbound_new in Hn. rewrite Ht in Hn. ok_steps. injection Hn as <-.
  assert (Hv : cc_verify x = false -> vt_insecure t = true).
  { destruct (vt_enabled t && bool_decide (vt_reality t = None)); [|by injection E as <-].
    rewrite (client_config_verify _ _ E). cbn. by destruct (vt_insecure t). }
  assert (Hen : vless_tls_enabled c = true) by (unfold vless_tls_enabled; by rewrite Ht).
  assert (Hs : vless_secure (mkVlessOut c x mark) t header = Ok d -> under_tls (vt_insecure t) d).
  { unfold vless_secure. cbn [vo_config vo_mark vo_tls_config]. intros H.
    destruct (vt_reality t) as [r|]; [destruct (reality_enabled r || _)|]; ok_steps; injection H as <-;
      try done; by rewrite (connect_tls_layer _ _ _ _ E1). }
  unfold vless_dial in Hd. cbn [vo_config vo_mark vo_tls_config] in Hd. rewrite Ht, Hen, He in Hd.
  destruct (vless_transport c) as [[ws|u|xc]|]; try by apply Hs.
  - ok_steps. injection Hd as <-. apply connect_ws_layer in E0 as (hs & E0). cbn [under_tls]. rewrite E0. split; [|exact Hv].
    unfold vless_ws_url. rewrite Hen. apply (starts_with_prefix (lit "wss://")).
  - apply xhttp_under_tls in Hd; [exact Hd|exact He].
Qed.

Lemma trojan_under_tls c mark o session header d : TrojanOutbound_new sha224 c mark = Ok o -> tls_enabled (trojan_tls c) = true ->
  trojan_dial o session header = Ok d -> under_tls (tls_insecure (trojan_tls c)) d.
Proof.
  intros Hn He Hd. unfold TrojanOutbound_new in Hn. ok_steps. injection Hn as <-.
  assert (Hv : cc_verify x = false -> tls_insecure (trojan_tls c) = true).
  { rewrite (client_config_verify _ _ E). by destruct (tls_insecure _). }
  unfold trojan_dial in Hd. cbn [to_config to_mark to_tls_config] in Hd.
  assert (Ht : forall r, maybe_tls (trojan_server c) (trojan_server_port c) mark (trojan_tls c) x = Ok r ->
    under_tls (tls_insecure (trojan_tls c)) (TTcp r.1 r.2 header)) by (intros r Hr; cbn; by rewrite (maybe_tls_layer _ _ _ _ _ _ He Hr)).
  destruct (trojan_transport c) as [[|ws|xc]|].
  - ok_steps. injection Hd as <-. by apply Ht.
  - rewrite He in Hd. ok_steps. injection Hd as <-. apply connect_ws_layer in E0 as (hs & E0). cbn [under_tls]. rewrite E0. split; [|exact Hv].
    unfold trojan_ws_url. rewrite He. apply (starts_with_prefix (lit "wss://")).
  - unfold enabled_tls in Hd. rewrite He in Hd. by apply xhttp_under_tls in Hd.
  - ok_steps. injection Hd as <-. by apply Ht.
Qed.

Lemma vmess_under_tls c mark o session d : VmessOutbound_new c mark = Ok o -> tls_enabled (vmess_tls c) = true ->
  vmess_connect_raw o session = Ok d -> under_tls (tls_insecure (vmess_tls c)) d.
Proof.
  intros Hn He Hd. unfold VmessOutbound_new in Hn. ok_steps. injection Hn as <-.
  assert (Hv : cc_verify x1 = false -> tls_insecure (vmess_tls c) = true).
  { rewrite (client_config_verify _ _ E1). by destruct (tls_insecure _). }
  unfold vmess_connect_raw in Hd. cbn [mo_config mo_mark mo_tls_config] in Hd. destruct (vmess_transport c) as [|ws|xc].
  - ok_steps. injection Hd as <-. cbn [under_tls]. by rewrite (maybe_tls_layer _ _ _ _ _ _ He E2).
  - rewrite He in Hd. ok_steps. injection Hd as <-. apply connect_ws_layer in E2 as (hs & E2). cbn [under_tls]. rewrite E2. split; [|exact Hv].
    unfold vmess_ws_url. rewrite He. apply (starts_with_prefix (lit "wss://")).
  - unfold enabled_tls in Hd. rewrite He in Hd. by apply xhttp_under_tls in Hd.
Qed.

(** With REALITY settings that do not enable it and have no key, the dial uses plain
    TLS, with the configuration that trusts nobody. *)
Lemma vless_unused_reality c mark o header d t r : VlessOutbound_new c mark = Ok o -> vless_tls c = Some t -> vt_reality t = Some r ->
  reality_enabled r = false -> reality_public_key r = [] -> vless_secure o t header = Ok d ->
  exists peer, d = TTcp peer (Some (LTls (vless_sni c) empty_client_config)) header.
Proof.
  intros Hn Ht Hr He Hk Hd. unfold VlessOutbound_new in Hn. rewrite Ht, Hr, andb_false_r in Hn. cbn in Hn. injection Hn as <-.
  unfold vless_secure in Hd. rewrite Hr, He, Hk in Hd. change (bool_decide (@nil Z = [])) with true in Hd.
  cbn [orb negb vo_config vo_mark vo_tls_config] in Hd. ok_steps. injection Hd as <-.
  match goal with Hl : connect_tls _ _ _ = Ok _ |- _ => rewrite (connect_tls_layer _ _ _ _ Hl) end. by eexists.
Qed.

(** The HTTP transport asks for the address it connects to, not for [server_name]. *)
Lemma xhttp_server_name host port https mark cc r : marked_connect host port https mark (Some cc) = Ok r -> r.2 = Some (LTls host cc).
Proof.
  unfold marked_connect. intros H. ok_steps. injection H as <-. cbn [snd]. f_equal.
  match goal with Hl : connect_tls _ _ _ = Ok _ |- _ => by rewrite (connect_tls_layer _ _ _ _ Hl) end.
Qed.

(** A [host] header that is not spelt [Host] is replaced by the server name. *)
Lemma lower_case_host_lost v sni p : header_name (lit "host") = Some (lit "host") -> header_value_ok v = true -> header_value_ok sni = true ->
  ws_request_headers (mkWsCfg p {[ lit "host" := v ]} None 0) sni = Ok {[ lit "host" := sni ]}.
Proof.
  intros Hn Hv Hs. unfold ws_request_headers. cbn [ws_headers]. rewrite map_to_list_singleton. cbn [insert_headers].
  rewrite Hn. cbn [ok_or result_bind]. rewrite Hv, Hs. cbn [check result_bind].
  rewrite bool_decide_false by (rewrite lookup_singleton_ne by discriminate; by intros [? ?]). cbn [result_bind]. f_equal.
Qed.

End Guarantees.


(** A network where everything works. *)
Definition ToyDial : DialLib := {|
  resolve_host _ := Some [{| ip := V4 0x01020304; sock_port := 443 |}];
  tcp_open _ := true; options_set _ := true; mark_set _ _ := true;
  file_bytes _ := None; pem_certs _ := []; root_ok _ := true; native_certs := [[1]];
  server_name_ok _ := true; tls_handshake _ _ _ := true; uri_ok _ := true;
  header_name k := Some (to_ascii_lowercase k); header_value_ok _ := true; ws_handshake _ _ _ _ := true;
  reality_handshake _ _ := true; http_open _ _ _ := true
|}.

Definition sample_vless : VlessOutboundConfig :=
  mkVless (lit "v") (lit "a.example") 443 (lit "12345678-1234-1234-1234-123456789abc")
    (Some (VlessWs (mkWsCfg (lit "/ws") ∅ None 0))) (Some (mkVlessTls true None true None [] None)) None.


(** The default [connect_tcp] goes to the target, whatever the outbound's settings. *)
Example shadowsocks_not_tunnelled (c : ShadowsocksOutboundConfig) (peer : SocketAddr) :
  resolve_server (DL := ToyDial) (lit "dns.example") 53 = Ok peer ->
  shadowsocks_connect_tcp (DL := ToyDial) c (lit "dns.example") 53 = Ok (TTcp peer None []).
Proof. intros [= <-]. reflexivity. Qed.

(** ** The servers' TLS: [src/inbound/server_tls.rs] *)

Record RealityServerConfig : Type := mkRealityServer {
  rs_enabled : bool;
  rs_private_key : str;
  rs_public_key : str;
  rs_short_ids : list str;
  rs_dest : str;
  rs_server_name : str;
  max_time_diff : Z
}.

Record ServerTlsConfig : Type := mkServerTls {
  st_enabled : bool;
  certificate_path : option str;
  certificate : list str;
  key_path : option str;
  key_pem : list str;
  st_server_name : option str;
  st_alpn : list str;
  st_reality : option RealityServerConfig
}.

Inductive PrivateKey : Type := Pkcs8 (k : bytes) | Sec1 (k : bytes) | Pkcs1 (k : bytes).

Inductive ServerTlsError : Type := FileUnreadable | PemInvalid | MissingCertificate | MissingKey | NoPrivateKey | ConfigRefused.

(** The items of a PEM file, [None] for one that is no private key; the whole fails
    when one cannot be read. *)
Class PemLib : Type := {
  read_file : str -> option bytes;
  certs_of : bytes -> option (list bytes);
  read_all : bytes -> option (list (option PrivateKey));
  single_cert : list bytes -> PrivateKey -> bool
}.

Record ServerConfig : Type := mkServerConfig { sc_certs : list bytes; sc_key : PrivateKey; alpn_protocols : list bytes }.

Section ServerTls.
Context {PL : PemLib}.

Definition load_certs (t : ServerTlsConfig) : result (list bytes) ServerTlsError :=
  match certificate_path t with
  | Some path => data ←! ok_or (read_file path) FileUnreadable; ok_or (certs_of data) PemInvalid
  | None =>
      if negb (bool_decide (certificate t = [])) then ok_or (certs_of (join [10] (certificate t))) PemInvalid
      else Err MissingCertificate
  end.

(** The first private key of any of the three formats. *)
Fixpoint first_key (items : list (option PrivateKey)) : result PrivateKey ServerTlsError :=
  match items with
  | [] => Err NoPrivateKey
  | Some k :: _ => Ok k
  | None :: items => first_key items
  end.

Definition read_private_key (data : bytes) : result PrivateKey ServerTlsError :=
  items ←! ok_or (read_all data) PemInvalid; first_key items.

Definition load_key (t : ServerTlsConfig) : result PrivateKey ServerTlsError :=
  match key_path t with
  | Some path => data ←! ok_or (read_file path) FileUnreadable; read_private_key data
  | None => if negb (bool_decide (key_pem t = [])) then read_private_key (join [10] (key_pem t)) else Err MissingKey
  end.

Definition build_server_config (t : ServerTlsConfig) : result ServerConfig ServerTlsError :=
  certs ←! load_certs t;
  k ←! load_key t;
  let alpn := if bool_decide (st_alpn t = []) then [lit "h2"; lit "http/1.1"] else st_alpn t in
  if single_cert certs k then Ok (mkServerConfig certs k alpn) else Err ConfigRefused.

(** A server without a protocol list offers HTTP/2 and HTTP/1.1, so some protocol is
    always offered; a file comes before the text in the settings. *)
Lemma server_config_alpn t c : build_server_config t = Ok c -> alpn_protocols c <> [] /\ load_certs t = Ok (sc_certs c) /\ load_key t = Ok (sc_key c).
Proof.
  unfold build_server_config. intros H. ok_steps. destruct (single_cert x x0); [|done]. injection H as <-. cbn.
  split; [|done]. case_bool_decide; done.
Qed.

Lemma first_key_spec items k : first_key items = Ok k <-> exists n rest, items = replicate n None ++ Some k :: rest.
Proof.
  split.
  - induction items as [|[x|] items IH]; [done| |]; cbn [first_key].
    + intros [= ->]. by exists 0%nat, items.
    + intros H. destruct (IH H) as (n & rest & ->). by exists (S n), rest.
  - intros (n & rest & ->). induction n as [|n IH]; [done|exact IH].
Qed.

End ServerTls.
