(* ===== verification/App.v ===== *)
(** * App: start-up of the groups and shutdown, [src/app/mod.rs].

    The part of [start_with_config_path] that ties the groups to the providers: for
    every provider of a group a task that waits on the provider's [watch] channel and
    then takes the nodes over, and one first time from the starting thread.  The tasks
    run in parallel with each other and with the updates of the providers, so their
    steps are those between which another thread can come.  [wait] is the loop over
    the tasks that end. *)

From S2P Require Import Prelude RustStr Extern Format Trie IpMatch Compiler Loader Matcher MatchSafe CacheFile Inbound QuicCrypto Sniff Router RouterSpec DnsWire DnsTopo FakeIp DnsCache DnsResolver Config ConfigSpec Provider Group OutboundMgr.

Local Open Scope reflex_scope.

(** ** Groups that follow their providers *)

(** Where a task is: waiting for the channel, woken, or with the nodes it read. *)
Inductive phase : Type := Idle | Woken | Expanded (tags : list str).

(** A task of a group for one provider; without a provider, the first refresh. [w_seen]
    is the version of the channel the task has seen. *)
Record Watcher : Type := mkWatcher { w_group : str; w_pref : ProviderRef; w_ptag : option str; w_seen : Z; w_phase : phase }.

(** [versions] counts the messages of each channel; [unsent] are the providers whose
    nodes are in place but whose message is not sent yet. *)
Record Watch : Type := mkWatch {
  pm : ProviderManager;
  reg : gmap (list Z) OutboundObj;
  versions : gmap (list Z) Z;
  unsent : list str;
  watchers : list Watcher
}.

(** The group's provider reference, if it names a provider. *)
Definition watched (o : OutboundConfig) : option ProviderRef :=
  match group_providers o with Some r => if bool_decide (pr_tags r = []) then None else Some r | None => None end.

(** The tasks of one group: one for each provider that exists, and the first refresh. *)
Definition group_watchers (m : ProviderManager) (o : OutboundConfig) : list Watcher :=
  match watched o with
  | Some r =>
      map (fun p => mkWatcher (ob_tag o) r (Some p) 0 Idle) (List.filter (subscribe m) (pr_tags r))
      ++ [mkWatcher (ob_tag o) r None 0 Woken]
  | None => []
  end.

Definition start_watchers (m : ProviderManager) (configs : list OutboundConfig) : list Watcher := flat_map (group_watchers m) configs.

Definition version_of (v : gmap (list Z) Z) (p : str) : Z := match v !! p with Some n => n | None => 0 end.

Section Watching.
Context {UL : UnicodeLib}.

Definition node_names (m : ProviderManager) (r : ProviderRef) : list str := map fst (expand m r).

Definition set_phase (w : Watcher) (seen : Z) (ph : phase) : Watcher := mkWatcher (w_group w) (w_pref w) (w_ptag w) seen ph.

(** What a group is made of: its own outbounds and the nodes it shows. *)
Definition shown (o : OutboundObj) : option (list str * list str) :=
  match o with
  | Leaf _ => None
  | Selector st => Some (sel_outbounds (s_config st), s_all st)
  | UrlTest st => Some (ut_outbounds (u_config st), u_all st)
  end.

Definition group_shown (r : gmap (list Z) OutboundObj) (g : str) : option (list str * list str) := r !! g ≫= shown.

Definition expanding (w : Watcher) : Prop := exists tags, w_phase w = Expanded tags.

(** The steps.  With [serial] no two tasks of one group are between reading the nodes
    and taking them over at the same time. *)
Inductive watch_step (serial : bool) : Watch -> Watch -> Prop :=
  | watch_update st p raw m : p ∈ senders (pm st) -> update_nodes (pm st) p raw = Ret (m, true) ->
      watch_step serial st (mkWatch m (reg st) (versions st) (unsent st ++ [p]) (watchers st))
  | watch_send st p pre post : unsent st = pre ++ p :: post ->
      watch_step serial st (mkWatch (pm st) (reg st) (<[p := version_of (versions st) p + 1]> (versions st)) (pre ++ post) (watchers st))
  | watch_wake st i w p : watchers st !! i = Some w -> w_phase w = Idle -> w_ptag w = Some p -> w_seen w < version_of (versions st) p ->
      watch_step serial st (mkWatch (pm st) (reg st) (versions st) (unsent st) (<[i := set_phase w (version_of (versions st) p) Woken]> (watchers st)))
  | watch_expand st i w : watchers st !! i = Some w -> w_phase w = Woken ->
      (serial = true -> forall j x, watchers st !! j = Some x -> w_group x = w_group w -> ~ expanding x) ->
      watch_step serial st (mkWatch (pm st) (reg st) (versions st) (unsent st)
        (<[i := set_phase w (w_seen w) (Expanded (node_names (pm st) (w_pref w)))]> (watchers st)))
  | watch_refresh st i w tags : watchers st !! i = Some w -> w_phase w = Expanded tags ->
      watch_step serial st (mkWatch (pm st) (refresh_nodes (reg st) (w_group w) tags) (versions st) (unsent st)
        (<[i := set_phase w (w_seen w) Idle]> (watchers st)))
  | watch_other st r : (forall g, group_shown r g = group_shown (reg st) g) ->
      watch_step serial st (mkWatch (pm st) r (versions st) (unsent st) (watchers st)).

(** Nothing is left to do: every message is sent, and every task waits and has seen them. *)
Definition settled (st : Watch) : Prop :=
  unsent st = [] /\ forall w, w ∈ watchers st -> w_phase w = Idle /\ forall p, w_ptag w = Some p -> w_seen w = version_of (versions st) p.

(** The start: the groups as they were built, the providers with what was loaded
    before, whose messages the new tasks have not seen. *)
Definition watch_start (m : ProviderManager) (r : gmap (list Z) OutboundObj) (v : gmap (list Z) Z) (configs : list OutboundConfig) : Watch :=
  mkWatch m r v [] (start_watchers m configs).

(** ** The steps as a function *)

Inductive action : Type :=
  | AUpdate (p : str) (raw : ProviderNodes)
  | ASend
  | AWake (i : nat)
  | AExpand (i : nat)
  | ARefresh (i : nat).

Definition is_expanding (w : Watcher) : bool := match w_phase w with Expanded _ => true | _ => false end.

Definition act (serial : bool) (st : Watch) (a : action) : option Watch :=
  match a with
  | AUpdate p raw =>
      match update_nodes (pm st) p raw with
      | Ret (m, true) => Some (mkWatch m (reg st) (versions st) (unsent st ++ [p]) (watchers st))
      | _ => None
      end
  | ASend =>
      match unsent st with
      | p :: post => Some (mkWatch (pm st) (reg st) (<[p := version_of (versions st) p + 1]> (versions st)) post (watchers st))
      | [] => None
      end
  | AWake i =>
      w ← watchers st !! i; p ← w_ptag w;
      match w_phase w with
      | Idle =>
          if w_seen w <? version_of (versions st) p
          then Some (mkWatch (pm st) (reg st) (versions st) (unsent st) (<[i := set_phase w (version_of (versions st) p) Woken]> (watchers st)))
          else None
      | _ => None
      end
  | AExpand i =>
      w ← watchers st !! i;
      match w_phase w with
      | Woken =>
          if serial && existsb (fun x => bool_decide (w_group x = w_group w) && is_expanding x) (watchers st) then None
          else Some (mkWatch (pm st) (reg st) (versions st) (unsent st)
                 (<[i := set_phase w (w_seen w) (Expanded (node_names (pm st) (w_pref w)))]> (watchers st)))
      | _ => None
      end
  | ARefresh i =>
      w ← watchers st !! i;
      match w_phase w with
      | Expanded tags =>
          Some (mkWatch (pm st) (refresh_nodes (reg st) (w_group w) tags) (versions st) (unsent st)
            (<[i := set_phase w (w_seen w) Idle]> (watchers st)))
      | _ => None
      end
  end.

Definition acts (serial : bool) : list action -> Watch -> option Watch :=
  fix go l st := match l with [] => Some st | a :: l => st ← act serial st a; go l st end.

Lemma act_step serial st a st' : act serial st a = Some st' -> watch_step serial st st'.
Proof.
  destruct a as [p raw| |i|i|i]; cbn [act]; intros H.
  - destruct (update_nodes (pm st) p raw) as [[m []]| |] eqn:E; try done. injection H as <-. eapply watch_update; [|exact E].
    unfold update_nodes in E. apply bind_Ret_inv in E as (x & _ & E). injection E as _ E. by apply bool_decide_eq_true in E.
  - destruct (unsent st) as [|p post] eqn:E; [done|]. injection H as <-. by apply (watch_send serial st p []).
  - apply bind_Some in H as (w & Hw & H). apply bind_Some in H as (p & Hp & H). destruct (w_phase w) eqn:Ep; try done.
    destruct (w_seen w <? _) eqn:El in H; [|done]. injection H as <-. apply watch_wake; try done. by apply Z.ltb_lt.
  - apply bind_Some in H as (w & Hw & H). destruct (w_phase w) eqn:Ep; try done. destruct (serial && _) eqn:Es; [done|]. injection H as <-.
    apply watch_expand; [done..|]. intros -> j x Hj Hg (t & Ht). cbn in Es. apply not_true_iff_false in Es. apply Es.
    apply existsb_exists. exists x. split; [apply list_elem_of_In; by eapply list_elem_of_lookup_2|].
    unfold is_expanding. by rewrite bool_decide_true, Ht.
  - apply bind_Some in H as (w & Hw & H). destruct (w_phase w) as [| |tags] eqn:Ep; try done. injection H as <-. by apply watch_refresh.
Qed.

Lemma acts_steps serial l st st' : acts serial l st = Some st' -> rtc (watch_step serial) st st'.
Proof.
  revert st. induction l as [|a l IH]; intros st H; cbn in H; [by injection H as ->|].
  apply bind_Some in H as (s1 & H1 & H). eapply rtc_l; [by apply (act_step _ _ a)|by apply IH].
Qed.

(** ** The invariant of one group *)

Section Group.
Context (g : str) (ref : ProviderRef) (own : list str).

(** Some task of the group will read the nodes again. *)
Definition pending (st : Watch) (w : Watcher) : Prop :=
  w_phase w = Woken \/ exists p, w_ptag w = Some p /\ w_seen w < version_of (versions st) p.

Definition dirty (st : Watch) : Prop :=
  (exists p, p ∈ pr_tags ref /\ p ∈ unsent st) \/ exists w, w ∈ watchers st /\ w_group w = g /\ pending st w.

(** The nodes the group should show. *)
Definition current (st : Watch) : list str := node_names (pm st) ref.

(** Either the nodes will be read again, or a task has just read them, or they are shown. *)
Definition fresh (st : Watch) : Prop :=
  dirty st \/
  (exists w, w ∈ watchers st /\ w_group w = g /\ w_phase w = Expanded (current st)) \/
  ((forall w, w ∈ watchers st -> w_group w = g -> ~ expanding w) /\
   group_shown (reg st) g = Some (own, add_nodes own (current st))).

Record watch_inv (st : Watch) : Prop := {
  wi_ref : forall w, w ∈ watchers st -> w_group w = g -> w_pref w = ref;
  wi_seen : forall w p, w ∈ watchers st -> w_ptag w = Some p -> w_seen w <= version_of (versions st) p;
  wi_task : forall p, p ∈ pr_tags ref -> p ∈ senders (pm st) -> exists w, w ∈ watchers st /\ w_group w = g /\ w_ptag w = Some p;
  wi_unsent : forall p, p ∈ unsent st -> p ∈ senders (pm st);
  wi_one : forall i j x y, watchers st !! i = Some x -> watchers st !! j = Some y -> w_group x = g -> w_group y = g ->
    expanding x -> expanding y -> i = j;
  wi_shown : exists all, group_shown (reg st) g = Some (own, all) /\ Group.listed own all;
  wi_fresh : fresh st
}.

Lemma insert_watcher (ws : list Watcher) i w w' x : ws !! i = Some w ->
  x ∈ <[i := w']> ws <-> x = w' \/ exists j, j <> i /\ ws !! j = Some x.
Proof.
  intros Hi. pose proof (lookup_lt_Some _ _ _ Hi) as Hl. rewrite list_elem_of_lookup. split.
  - intros (j & Hj). apply list_lookup_insert_Some in Hj as [(<- & <- & _)|(Hne & Hj)]; [by left|]. right. by exists j.
  - intros [->|(j & Hne & Hj)]; [exists i; by rewrite list_lookup_insert_eq|exists j; by rewrite list_lookup_insert_ne].
Qed.

(** A task that moves keeps what it is for. *)
Lemma moved_tasks st i w seen ph : watch_inv st -> watchers st !! i = Some w ->
  (forall p, w_ptag w = Some p -> seen <= version_of (versions st) p) ->
  let ws := <[i := set_phase w seen ph]> (watchers st) in
  (forall x, x ∈ ws -> w_group x = g -> w_pref x = ref) /\
  (forall x p, x ∈ ws -> w_ptag x = Some p -> w_seen x <= version_of (versions st) p) /\
  (forall p, p ∈ pr_tags ref -> p ∈ senders (pm st) -> exists x, x ∈ ws /\ w_group x = g /\ w_ptag x = Some p).
Proof.
  intros Hi Hw Hs ws. pose proof (list_elem_of_lookup_2 _ _ _ Hw) as Hin. split_and!.
  - intros x Hx. apply (insert_watcher _ _ _ _ _ Hw) in Hx as [->|(j & _ & Hj)]; [by apply (wi_ref _ Hi w Hin)|].
    apply (wi_ref _ Hi). by eapply list_elem_of_lookup_2.
  - intros x p Hx. apply (insert_watcher _ _ _ _ _ Hw) in Hx as [->|(j & _ & Hj)]; [apply Hs|].
    apply (wi_seen _ Hi). by eapply list_elem_of_lookup_2.
  - intros p Hp Hps. destruct (wi_task _ Hi p Hp Hps) as (x & Hx & Hg & Ht).
    apply list_elem_of_lookup in Hx as (j & Hj). destruct (decide (j = i)) as [->|Hne].
    + exists (set_phase w seen ph). simplify_eq. split; [|done]. by eapply insert_watcher; [|left].
    + exists x. split; [|done]. eapply insert_watcher; [done|]. right. by exists j.
Qed.

(** Two tasks of the group are not both expanding after one of them stops. *)
Lemma moved_one st i w seen ph : watch_inv st -> watchers st !! i = Some w -> (forall tags, ph <> Expanded tags) ->
  forall j k x y, <[i := set_phase w seen ph]> (watchers st) !! j = Some x -> <[i := set_phase w seen ph]> (watchers st) !! k = Some y ->
    w_group x = g -> w_group y = g -> expanding x -> expanding y -> j = k.
Proof.
  intros Hi Hw Hph j k x y Hx Hy Hgx Hgy Ex Ey.
  apply list_lookup_insert_Some in Hx as [(_ & <- & _)|(_ & Hx)]; [by destruct Ex as (t & Et); apply Hph in Et|].
  apply list_lookup_insert_Some in Hy as [(_ & <- & _)|(_ & Hy)]; [by destruct Ey as (t & Et); apply Hph in Et|].
  by apply (wi_one _ Hi j k x y).
Qed.

Lemma current_update m m' p raw : update_nodes m p raw = Ret (m', true) ->
  senders m' = senders m /\ (p ∉ pr_tags ref -> node_names m' ref = node_names m ref).
Proof.
  unfold update_nodes. intros H. apply bind_Ret_inv in H as ([l gl] & _ & H). injection H as <- _.
  split; [done|]. intros Hp. unfold node_names, expand. f_equal.
  revert Hp. generalize (pr_tags ref). induction l0 as [|q l0 IH]; intros Hq; [done|]. apply not_elem_of_cons in Hq as [Hne Hq].
  cbn [flat_map]. f_equal; [|by apply IH]. f_equal. unfold provider_nodes. cbn. by rewrite lookup_insert_ne.
Qed.

Lemma step_update st p raw m : watch_inv st -> p ∈ senders (pm st) -> update_nodes (pm st) p raw = Ret (m, true) ->
  watch_inv (mkWatch m (reg st) (versions st) (unsent st ++ [p]) (watchers st)).
Proof.
  intros Hi Hp Hu. destruct (current_update _ _ _ _ Hu) as [Es Ec]. split; cbn.
  - apply (wi_ref _ Hi).
  - apply (wi_seen _ Hi).
  - rewrite Es. apply (wi_task _ Hi).
  - intros q. rewrite Es. intros [Hq| ->%list_elem_of_singleton]%elem_of_app; [by apply (wi_unsent _ Hi)|done].
  - apply (wi_one _ Hi).
  - apply (wi_shown _ Hi).
  - destruct (decide (p ∈ pr_tags ref)) as [Hin|Hn].
    { left; left. exists p. split; [done|]. cbn. apply elem_of_app. right. by left. }
    unfold fresh, current. cbn. rewrite Ec by done. destruct (wi_fresh _ Hi) as [[(q & Hq & Hu')|Hw]|Hr]; [left; left|left; by right|by right].
    exists q. split; [done|]. apply elem_of_app. by left.
Qed.

Lemma step_send st p pre post : watch_inv st -> unsent st = pre ++ p :: post ->
  watch_inv (mkWatch (pm st) (reg st) (<[p := version_of (versions st) p + 1]> (versions st)) (pre ++ post) (watchers st)).
Proof.
  intros Hi Hu. set (v := <[p := version_of (versions st) p + 1]> (versions st)).
  assert (Hv : forall q, version_of (versions st) q <= version_of v q).
  { intros q. unfold v, version_of at 2. destruct (decide (q = p)) as [->|Hne]; [rewrite lookup_insert_eq; lia|].
    rewrite lookup_insert_ne by done. unfold version_of. lia. }
  split; cbn.
  - apply (wi_ref _ Hi).
  - intros w q Hw Hq. etransitivity; [by apply (wi_seen _ Hi)|apply Hv].
  - apply (wi_task _ Hi).
  - intros q Hq. apply (wi_unsent _ Hi). rewrite Hu. rewrite !elem_of_app, elem_of_cons in *. tauto.
  - apply (wi_one _ Hi).
  - apply (wi_shown _ Hi).
  - destruct (decide (p ∈ pr_tags ref)) as [Hin|Hn].
    { left; right. destruct (wi_task _ Hi p Hin) as (w & Hw & Hg & Ht); [apply (wi_unsent _ Hi); rewrite Hu; apply elem_of_app; right; by left|].
      exists w. split_and!; [done..|]. right. exists p. split; [done|]. cbn. unfold v, version_of. rewrite lookup_insert_eq.
      pose proof (wi_seen _ Hi w p Hw Ht). unfold version_of in *. lia. }
    destruct (wi_fresh _ Hi) as [[(q & Hq & Hu')|(w & Hw & Hg & Hpend)]|Hr]; [left; left|left; right|by right].
    + exists q. split; [done|]. cbn. rewrite Hu in Hu'. rewrite elem_of_app, elem_of_cons in Hu'. rewrite elem_of_app. naive_solver.
    + exists w. split_and!; [done..|]. destruct Hpend as [?|(q & Hq & Hlt)]; [by left|]. right. exists q. split; [done|]. cbn. pose proof (Hv q). lia.
Qed.

(** A task of another group. *)
Lemma fresh_other st i w w' r : watchers st !! i = Some w -> w_group w <> g -> w_group w' = w_group w -> group_shown r g = group_shown (reg st) g ->
  fresh st -> fresh (mkWatch (pm st) r (versions st) (unsent st) (<[i := w']> (watchers st))).
Proof.
  intros Hw Hne Hg' Hr.
  assert (Hin : forall x, x ∈ watchers st -> w_group x = g -> x ∈ <[i := w']> (watchers st)).
  { intros x (j & Hj)%list_elem_of_lookup Hx. eapply insert_watcher; [done|]. right. exists j. split; [|done]. intros ->. congruence. }
  intros [[Hu|(x & Hx & Hxg & Hp)]|[(x & Hx & Hxg & Hp)|[Hn Hs]]].
  - left; by left.
  - left; right. exists x. split_and!; [by apply Hin|done|exact Hp].
  - right; left. exists x. split_and!; [by apply Hin|done|exact Hp].
  - right; right. cbn. split; [|by rewrite Hr]. intros x Hx Hxg. apply (insert_watcher _ _ _ _ _ Hw) in Hx as [->|(j & _ & Hj)]; [congruence|].
    apply Hn; [by eapply list_elem_of_lookup_2|done].
Qed.

Lemma step_wake st i w p : watch_inv st -> watchers st !! i = Some w -> w_ptag w = Some p ->
  watch_inv (mkWatch (pm st) (reg st) (versions st) (unsent st) (<[i := set_phase w (version_of (versions st) p) Woken]> (watchers st))).
Proof.
  intros Hi Hw Ht. destruct (moved_tasks st i w (version_of (versions st) p) Woken Hi Hw) as (H1 & H2 & H3).
  { intros q Hq. simplify_eq. lia. }
  split; cbn; [exact H1|exact H2|exact H3|apply (wi_unsent _ Hi)|by apply (moved_one st i w)|apply (wi_shown _ Hi)|].
  destruct (decide (w_group w = g)) as [Hg|Hg]; [|by apply (fresh_other st i w); [..|apply (wi_fresh _ Hi)]].
  left; right. exists (set_phase w (version_of (versions st) p) Woken). split_and!; [|done|by left]. by eapply insert_watcher; [|left].
Qed.

Lemma step_expand st i w : watch_inv st -> watchers st !! i = Some w ->
  (forall j x, watchers st !! j = Some x -> w_group x = w_group w -> ~ expanding x) ->
  watch_inv (mkWatch (pm st) (reg st) (versions st) (unsent st)
    (<[i := set_phase w (w_seen w) (Expanded (node_names (pm st) (w_pref w)))]> (watchers st))).
Proof.
  intros Hi Hw Hser. pose proof (list_elem_of_lookup_2 _ _ _ Hw) as Hin. set (w' := set_phase _ _ _).
  destruct (moved_tasks st i w (w_seen w) (Expanded (node_names (pm st) (w_pref w))) Hi Hw) as (H1 & H2 & H3).
  { intros q Hq. by apply (wi_seen _ Hi). }
  split; cbn; [exact H1|exact H2|exact H3|apply (wi_unsent _ Hi)| |apply (wi_shown _ Hi)|].
  - intros j k x y Hx Hy Hgx Hgy Ex Ey.
    apply list_lookup_insert_Some in Hx as [(<- & <- & _)|(Hnx & Hx)], Hy as [(Hk & <- & _)|(Hny & Hy)]; [done| | |by apply (wi_one _ Hi j k x y)].
    + destruct (Hser k y Hy); [by rewrite Hgy|done].
    + destruct (Hser j x Hx); [by rewrite Hgx|done].
  - destruct (decide (w_group w = g)) as [Hg|Hg]; [|by apply (fresh_other st i w); [..|apply (wi_fresh _ Hi)]].
    right; left. exists w'. split_and!; [by eapply insert_watcher; [|left]|done|]. unfold w', current. cbn. by rewrite (wi_ref _ Hi w).
Qed.

(** Taking nodes over changes what the group itself shows and nothing else. *)
Lemma refresh_shown (r : gmap (list Z) OutboundObj) h tags own' all : group_shown r h = Some (own', all) -> Group.listed own' all ->
  group_shown (refresh_nodes r h tags) h = Some (own', add_nodes own' tags) /\ Group.listed own' (add_nodes own' tags).
Proof.
  intros Hs Hl. assert (Hf : refreshed own' all tags = add_nodes own' tags).
  { unfold refreshed. rewrite filter_all; [done|]. intros t Ht. destruct Hl as (e & -> & _). apply bool_decide_eq_true, elem_of_app. by left. }
  split; [|rewrite <-Hf; by apply listed_refreshed].
  unfold group_shown, refresh_nodes in *. destruct (r !! h) as [[c|st|st]|] eqn:E; try done; cbn in Hs; simplify_eq;
    rewrite lookup_insert_eq; cbn; by rewrite Hf.
Qed.

Lemma refresh_shown_ne (r : gmap (list Z) OutboundObj) h tags k : h <> k -> group_shown (refresh_nodes r h tags) k = group_shown r k.
Proof. intros Hne. unfold group_shown, refresh_nodes. destruct (r !! h) as [[c|st|st]|]; try done; by rewrite lookup_insert_ne. Qed.

Lemma step_refresh st i w tags : watch_inv st -> watchers st !! i = Some w -> w_phase w = Expanded tags ->
  watch_inv (mkWatch (pm st) (refresh_nodes (reg st) (w_group w) tags) (versions st) (unsent st)
    (<[i := set_phase w (w_seen w) Idle]> (watchers st))).
Proof.
  intros Hi Hw Hp. pose proof (list_elem_of_lookup_2 _ _ _ Hw) as Hin.
  destruct (moved_tasks st i w (w_seen w) Idle Hi Hw) as (H1 & H2 & H3).
  { intros q Hq. by apply (wi_seen _ Hi). }
  destruct (wi_shown _ Hi) as (all & Hall & Hlist).
  split; cbn; [exact H1|exact H2|exact H3|apply (wi_unsent _ Hi)|by apply (moved_one st i w)| |].
  - destruct (decide (w_group w = g)) as [<-|Hg]; [|rewrite refresh_shown_ne by done; by exists all].
    eexists. by eapply refresh_shown.
  - destruct (decide (w_group w = g)) as [Hg|Hg]; [|apply (fresh_other st i w); try done; [by apply refresh_shown_ne|apply (wi_fresh _ Hi)]].
    assert (Hothers : forall x, x ∈ <[i := set_phase w (w_seen w) Idle]> (watchers st) -> w_group x = g -> ~ expanding x).
    { intros x Hx Hxg Ex. apply (insert_watcher _ _ _ _ _ Hw) in Hx as [->|(j & Hne & Hj)]; [by destruct Ex|].
      apply Hne. apply (wi_one _ Hi j i x w); [done..|]. by exists tags. }
    destruct (wi_fresh _ Hi) as [[Hu|(x & Hx & Hxg & Hpend)]|[(x & Hx & Hxg & Hxp)|[Hn _]]].
    + left; by left.
    + left; right. apply list_elem_of_lookup in Hx as (j & Hj). destruct (decide (j = i)) as [->|Hne].
      * simplify_eq. exists (set_phase w (w_seen w) Idle). split_and!; [by eapply insert_watcher; [|left]|done|].
        destruct Hpend as [Hwk|Hpd]; [congruence|by right].
      * exists x. split_and!; [|done|exact Hpend]. eapply insert_watcher; [done|]. right. by exists j.
    + right; right. cbn. split; [exact Hothers|]. apply list_elem_of_lookup in Hx as (j & Hj).
      assert (j = i) as -> by (apply (wi_one _ Hi j i x w); try done; by eexists). assert (x = w) as -> by congruence.
      assert (tags = current st) as -> by congruence. rewrite Hg. by apply (refresh_shown _ _ _ _ all).
    + destruct (Hn w Hin Hg). by exists tags.
Qed.

Lemma watch_step_inv st st' : watch_inv st -> watch_step true st st' -> watch_inv st'.
Proof.
  intros Hi Hst. destruct Hst as [st p raw m Hp Hu|st p pre post Hu|st i w p Hw Hph Ht Hlt|st i w Hw Hph Hser|st i w tags Hw Hph|st r Hr].
  - by apply step_update with (raw := raw).
  - by apply step_send.
  - by apply step_wake.
  - apply step_expand; [done..|]. by apply Hser.
  - by apply step_refresh.
  - destruct Hi as [H1 H2 H3 H4 H5 H6 H7]. split; try done; cbn; [by rewrite Hr|].
    destruct H7 as [?|[?|[? ?]]]; [by left|right; by left|right; right]. cbn. by rewrite Hr.
Qed.

Lemma settled_shown st : watch_inv st -> settled st -> group_shown (reg st) g = Some (own, add_nodes own (current st)).
Proof.
  intros Hi [Hu Hs]. destruct (wi_fresh _ Hi) as [[(p & _ & Hp)|(w & Hw & _ & Hpend)]|[(w & Hw & _ & Hph)|[_ H]]]; [| | |done].
  - rewrite Hu in Hp. by apply elem_of_nil in Hp.
  - destruct (Hs w Hw) as [Hi' Hv]. destruct Hpend as [?|(p & Ht & Hlt)]; [congruence|]. rewrite (Hv p Ht) in Hlt. lia.
  - destruct (Hs w Hw) as [Hi' _]. congruence.
Qed.
End Group.

(** ** From the start *)

Lemma built_shown cfg o : built_from cfg o -> is_group cfg = true -> exists all, shown o = Some (child_outbounds cfg, all).
Proof. destruct o as [c|st|st]; cbn; [by intros [-> ->]|by intros <-; eexists..]. Qed.

Lemma from_config_fresh leaf_ok writer reader fault configs m r : from_config_loop leaf_ok writer reader fault configs m = Ok r ->
  NoDup (map ob_tag configs) /\ (forall c, c ∈ configs -> m !! ob_tag c = None) /\
  (forall t, t ∉ map ob_tag configs -> r !! t = m !! t) /\
  (forall c, c ∈ configs -> exists o, build_one leaf_ok writer reader fault c = Ok o /\ r !! ob_tag c = Some o).
Proof.
  revert m. induction configs as [|c cs IH]; intros m H; cbn [from_config_loop map] in *.
  - injection H as <-. split_and!; [constructor|intros c Hc; by apply elem_of_nil in Hc|done|intros c Hc; by apply elem_of_nil in Hc].
  - case_bool_decide as Hd; [done|]. destruct (build_one leaf_ok writer reader fault c) as [o|] eqn:Eo; [|done]. cbn in H.
    destruct (IH _ H) as (Hn & Hf & Hr & Hb). assert (Hc : ob_tag c ∉ map ob_tag cs).
    { intros (x & Ex & Hx)%list_elem_of_fmap. pose proof (Hf x Hx) as Hl. by rewrite <-Ex, lookup_insert_eq in Hl. }
    split_and!.
    + by constructor.
    + intros x [->|Hx]%elem_of_cons; [by apply eq_None_not_Some|]. pose proof (Hf x Hx) as Hl. by apply lookup_insert_None in Hl as [? _].
    + intros t [Hne Ht]%not_elem_of_cons. rewrite Hr by done. by rewrite lookup_insert_ne.
    + intros x [->|Hx]%elem_of_cons; [|by apply Hb]. exists o. split; [done|]. rewrite Hr by done. by rewrite lookup_insert_eq.
Qed.

Lemma built_start leaf_ok writer reader fault cfg o : build_one leaf_ok writer reader fault cfg = Ok o -> is_group cfg = true ->
  shown o = Some (child_outbounds cfg, child_outbounds cfg).
Proof.
  destruct cfg; try done; cbn; intros H _; [by injection H as <-|].
  destruct (UrlTest_new c) as [st|] eqn:E; [|done]. injection H as <-. unfold UrlTest_new in E.
  destruct (bool_decide _ && _); [done|]. repeat (match type of E with result_bind ?x _ = _ => destruct x end; [cbn in E|done]). by injection E as <-.
Qed.

Lemma elem_start_watchers m configs w : w ∈ start_watchers m configs <->
  exists c r, c ∈ configs /\ watched c = Some r /\ w_group w = ob_tag c /\ w_pref w = r /\ w_seen w = 0 /\
    ((exists p, w_ptag w = Some p /\ w_phase w = Idle /\ p ∈ pr_tags r /\ p ∈ senders m) \/ (w_ptag w = None /\ w_phase w = Woken)).
Proof.
  unfold start_watchers. rewrite list_elem_of_In, in_flat_map. split.
  - intros (c & Hc%list_elem_of_In & Hw%list_elem_of_In). unfold group_watchers in Hw. destruct (watched c) as [r|] eqn:Er; [|by apply elem_of_nil in Hw].
    exists c, r. split; [done|]. split; [done|]. apply elem_of_app in Hw as [(p & -> & Hp)%list_elem_of_fmap| ->%list_elem_of_singleton].
    + apply list_elem_of_In, filter_In in Hp as [Hp Hs]. split_and!; [done..|]. left. exists p. split_and!; [done..|by apply list_elem_of_In|].
      unfold subscribe in Hs. by apply bool_decide_eq_true in Hs.
    + split_and!; [done..|]. by right.
  - intros (c & r & Hc & Er & Hg & Hr & Hs & Hw). exists c. split; [by apply list_elem_of_In|]. apply list_elem_of_In. unfold group_watchers. rewrite Er.
    destruct w as [wg wr wp ws wph]. cbn in *. subst. apply elem_of_app. destruct Hw as [(p & -> & -> & Hp & Hs)|[-> ->]]; [left|right; by left].
    apply (list_elem_of_fmap_2 (fun p => mkWatcher (ob_tag c) r (Some p) 0 Idle)). apply list_elem_of_In, filter_In. split; [by apply list_elem_of_In|].
    by apply bool_decide_eq_true.
Qed.

Lemma start_inv leaf_ok writer reader fault configs r m v cfg ref : from_config_full leaf_ok writer reader fault configs = Ok r ->
  (forall p, 0 <= version_of v p) -> cfg ∈ configs -> watched cfg = Some ref ->
  watch_inv (ob_tag cfg) ref (child_outbounds cfg) (watch_start m r v configs).
Proof.
  intros Hr Hv Hc Hw. destruct (from_config_fresh _ _ _ _ _ _ _ Hr) as (Hnd & _ & _ & Hb).
  assert (Hsame : forall c, c ∈ configs -> ob_tag c = ob_tag cfg -> c = cfg).
  { clear -Hnd Hc. intros c Hin E. induction configs as [|x xs IH]; [by apply elem_of_nil in Hin|]. cbn in Hnd. apply NoDup_cons in Hnd as [Hx Hnd].
    apply elem_of_cons in Hin as [->|Hin], Hc as [->|Hc']; [done| | |by apply IH]; destruct Hx; [rewrite E|rewrite <-E]; by apply (list_elem_of_fmap_2 ob_tag). }
  assert (Hg : is_group cfg = true) by (unfold watched, group_providers in Hw; by destruct cfg).
  split; cbn.
  - intros w (c & r' & Hin & Hwr & Hwg & <- & _)%elem_start_watchers Hg'. assert (c = cfg) as -> by (apply Hsame; [done|congruence]). congruence.
  - intros w p (c & r' & _ & _ & _ & _ & Hs & _)%elem_start_watchers _. rewrite Hs. apply Hv.
  - intros p Hp Hps. exists (mkWatcher (ob_tag cfg) ref (Some p) 0 Idle). split; [|done].
    apply elem_start_watchers. exists cfg, ref. split_and!; [done..|]. left. by exists p.
  - intros p Hp. by apply elem_of_nil in Hp.
  - intros i j x y Hx%list_elem_of_lookup_2 _ _ _ (t & Ht) _. apply elem_start_watchers in Hx as (_ & _ & _ & _ & _ & _ & _ & [(p & _ & Hp & _)|[_ Hp]]); congruence.
  - destruct (Hb cfg Hc) as (o & Ho & Hl). exists (child_outbounds cfg). split; [|apply listed_self].
    unfold group_shown. rewrite Hl. cbn. by eapply built_start.
  - left; right. exists (mkWatcher (ob_tag cfg) ref None 0 Woken). split_and!; [|done|by left].
    apply elem_start_watchers. exists cfg, ref. split_and!; [done..|]. by right.
Qed.

(** C6. Groups follow their providers: from the start on, whatever the order in which
    providers are updated, their messages are sent and the tasks run, when nothing is
    left to do a group shows its own outbounds and then, once each, the nodes that
    match its providers as they are now; provided no two tasks of one group are
    between reading the nodes and taking them over at the same time. *)
Theorem groups_follow_providers (leaf_ok : OutboundConfig -> bool) (writer : option CacheFile) (reader : option CacheFileReader) (fault : bool) (configs : list OutboundConfig) (r : gmap (list Z) OutboundObj)
    (m : ProviderManager) (v : gmap (list Z) Z) (st : Watch) (cfg : OutboundConfig) (ref : ProviderRef) :
  from_config_full leaf_ok writer reader fault configs = Ok r -> (forall p, 0 <= version_of v p) ->
  cfg ∈ configs -> watched cfg = Some ref -> rtc (watch_step true) (watch_start m r v configs) st -> settled st ->
  exists extra, group_shown (reg st) (ob_tag cfg) = Some (child_outbounds cfg, child_outbounds cfg ++ extra) /\
    NoDup extra /\ forall t, t ∈ extra <-> t ∈ node_names (pm st) ref /\ t ∉ child_outbounds cfg.
Proof.
  intros Hr Hv Hc Hw Hst Hset. pose proof (start_inv _ _ _ _ _ _ m v cfg ref Hr Hv Hc Hw) as Hi.
  assert (Hi' : watch_inv (ob_tag cfg) ref (child_outbounds cfg) st).
  { revert Hi. induction Hst as [|a b c Hab _ IH]; [done|]. intros Hi. apply IH; [done|]. by eapply watch_step_inv. }
  rewrite (settled_shown _ _ _ _ Hi' Hset). destruct (add_nodes_spec (child_outbounds cfg) (current ref st)) as (e & -> & Hn & He). by exists e.
Qed.
End Watching.

(** ** Shutdown: [App::wait] *)

(** How a task ends. *)
Inductive TaskEnd : Type := TaskOk | TaskErr (e : str) | TaskPanic (why : str).

(** The tasks in the order in which they end: the first that fails ends the program
    and the rest is aborted. *)
Fixpoint wait (ends : list TaskEnd) : result unit str :=
  match ends with
  | [] => Ok tt
  | TaskOk :: ends => wait ends
  | TaskErr e :: _ => Err e
  | TaskPanic why :: _ => Err (lit "task panicked: " ++ why)
  end.

Lemma wait_ok ends : wait ends = Ok tt <-> Forall (fun t => t = TaskOk) ends.
Proof.
  induction ends as [|[|e|why] ends IH]; cbn [wait].
  - split; [constructor|done].
  - rewrite IH, Forall_cons. tauto.
  - split; [done|]. by intros [? _]%Forall_cons.
  - split; [done|]. by intros [? _]%Forall_cons.
Qed.

(** ** Witness, and what happens without the proviso *)

#[local] Existing Instance ToyUnicode.

Definition sub_ref : ProviderRef := mkProviderRef [lit "sub"] [] [].
Definition sub_group : OutboundConfig := OSelector (mkSelCfg (lit "auto") [lit "direct"] (Some sub_ref) None false).
Definition sub_configs : list OutboundConfig := [ODirect (lit "direct"); sub_group].
Definition sub_reg : gmap (list Z) OutboundObj :=
  match from_config_full (fun _ => true) None None false sub_configs with Ok r => r | Err _ => ∅ end.
Definition sub_pm : ProviderManager := mkPm ∅ ∅ {[ lit "sub" ]}.

(** Task 0 waits for the provider, task 1 is the first refresh. *)
Definition sub_start : Watch := watch_start sub_pm sub_reg ∅ sub_configs.

Definition sub_run (serial : bool) (l : list action) : Watch := match acts serial l sub_start with Some st => st | None => sub_start end.

Definition orderly : list action :=
  [AExpand 1; ARefresh 1; AUpdate (lit "sub") [(lit "hk", ODirect []); (lit "us", ODirect [])]; ASend; AWake 0; AExpand 0; ARefresh 0].

(** The first refresh reads no nodes, is overtaken by the task and takes them over. *)
Definition overtaken : list action :=
  [AExpand 1; AUpdate (lit "sub") [(lit "hk", ODirect [])]; ASend; AWake 0; AExpand 0; ARefresh 0; ARefresh 1].

Lemma sub_settled serial l : forallb (fun w => negb (is_expanding w) && bool_decide (w_seen w = if bool_decide (w_ptag w = None) then 0 else 1) &&
    match w_phase w with Idle => true | _ => false end && bool_decide (w_ptag w = None \/ w_ptag w = Some (lit "sub"))) (watchers (sub_run serial l)) = true ->
  unsent (sub_run serial l) = [] -> version_of (versions (sub_run serial l)) (lit "sub") = 1 -> settled (sub_run serial l).
Proof.
  intros Hw Hu Hv. split; [done|]. intros w Hin%list_elem_of_In. rewrite forallb_forall in Hw. specialize (Hw w Hin).
  rewrite !andb_true_iff in Hw. destruct Hw as [[[_ Hs] Hp] Ht]. apply bool_decide_eq_true in Hs, Ht.
  split; [by destruct (w_phase w)|]. intros p Hp'. destruct Ht as [Ht|Ht]; [congruence|]. rewrite Hs, Ht.
  assert (p = lit "sub") as -> by congruence. rewrite Hv. by case_bool_decide.
Qed.

(** With two tasks of a group between reading and taking over, the group is left with
    nodes that are no longer there, and without those that are. *)
Lemma stale_nodes : exists st, rtc (watch_step false) sub_start st /\ settled st /\
  node_names (pm st) sub_ref = [lit "hk"] /\ group_shown (reg st) (lit "auto") = Some ([lit "direct"], [lit "direct"]).
Proof.
  exists (sub_run false overtaken). split_and!; [|apply sub_settled; vm_compute; reflexivity|vm_compute; reflexivity..].
  apply (acts_steps _ overtaken). vm_compute. reflexivity.
Qed.

Lemma groups_follow_providers_witness :
  exists extra, group_shown (reg (sub_run true orderly)) (lit "auto") = Some ([lit "direct"], [lit "direct"] ++ extra) /\
    NoDup extra /\ forall t, t ∈ extra <-> t ∈ node_names (pm (sub_run true orderly)) sub_ref /\ t ∉ [lit "direct"].
Proof.
  apply (groups_follow_providers (fun _ => true) None None false sub_configs sub_reg sub_pm ∅ (sub_run true orderly) sub_group sub_ref).
  - vm_compute. reflexivity.
  - intros p. unfold version_of. by rewrite lookup_empty.
  - right. left.
  - vm_compute. reflexivity.
  - apply (acts_steps _ orderly). vm_compute. reflexivity.
  - apply sub_settled; vm_compute; reflexivity.
Defined.
