(* ===== verification/Cli.v ===== *)
(** * Cli: the command line, [src/main.rs], and the paths of a configuration,
    [Config::resolve_paths] of [src/config/mod.rs].

    The world is the files and directories a command sees; a command gives the lines it
    prints, how it ends and the world it leaves. *)

From S2P Require Import Prelude RustStr Extern Format Trie IpMatch Compiler Loader Matcher SingBox.

Local Open Scope reflex_scope.

(** ** Paths of a Unix system: [std::path] *)

Definition is_absolute (p : str) : bool := starts_with [47] p.

(** [Path::join] *)
Definition path_join (base p : str) : str :=
  if is_absolute p then p else path_push base p.

(** Where the components begin: after the root, or after a leading dot. *)
Definition body_start (s : str) : nat :=
  if is_absolute s then 1
  else if bool_decide (s = [46]) || starts_with [46; 47] s then 1
  else 0.

(** The last component of what follows the first [b] bytes, and the bytes it takes. *)
Definition last_component (b : nat) (s : str) : nat * str :=
  match rsplit_once 47 (drop b s) with
  | Some (_, c) => (S (length c), c)
  | None => (length (drop b s), drop b s)
  end.

(** Empty components and dots at the end do not count. *)
Fixpoint trim_right (fuel : nat) (s : str) : str :=
  match fuel with
  | O => s
  | S fuel =>
      let b := body_start s in
      if (length s <=? b)%nat then s
      else
        let '(n, c) := last_component b s in
        if bool_decide (c = []) || bool_decide (c = [46]) then trim_right fuel (take (length s - n) s) else s
  end.

(** [Path::parent] *)
Definition parent (s : str) : option str :=
  let s := trim_right (length s) s in
  let b := body_start s in
  if (length s <=? b)%nat then if bool_decide (s = [46]) then Some [] else None
  else let '(n, _) := last_component b s in Some (trim_right (length s) (take (length s - n) s)).

(** [Path::extension] of a file name: what follows the last dot that is not the first byte. *)
Definition extension (name : str) : option str :=
  match rsplit_once 46 name with
  | Some ([], _) => None
  | Some (_, e) => if bool_decide (name = [46; 46]) then None else Some e
  | None => None
  end.

Definition file_extension (p : str) : option str :=
  let s := trim_right (length p) p in extension (last_component (body_start s) s).2.

Example parent_examples :
  map parent [lit "a/b.json"; lit "/etc/reflex/c.json"; lit "c.json"; lit "/c.json"; lit "/"; lit "a//b/"; lit "./a/."; lit "."; []]
  = [Some (lit "a"); Some (lit "/etc/reflex"); Some []; Some (lit "/"); None; Some (lit "a"); Some (lit "."); Some []; None].
Proof. vm_compute. reflexivity. Qed.

Example extension_examples :
  map file_extension [lit "/d/a.json"; lit "/d/.json"; lit "a.b.json"; lit "a"; lit "x.json/"]
  = [Some (lit "json"); None; Some (lit "json"); None; Some (lit "json")].
Proof. vm_compute. reflexivity. Qed.

(** ** The world *)

Record World : Type := mkWorld {
  files : gmap (list Z) bytes;
  (** the entries of a directory that could be read, as [read_dir] orders them *)
  dirs : gmap (list Z) (list str);
  writable : str -> bool;
  cwd : option str
}.

Definition is_file (w : World) (p : str) : bool := bool_decide (is_Some (files w !! p)).
Definition is_dir (w : World) (p : str) : bool := bool_decide (is_Some (dirs w !! p)).

Inductive CliError : Type :=
  | FlagNeedsArgument
  | MissingFlag
  | CannotRead (path : str)
  | CannotWrite (path : str)
  | RuleSetFailed (e : RuleSetError)
  | DirNeedsPath
  | NotADirectory (path : str)
  | NoConfigIn (dir : str)
  | ManyConfigsIn (dir : str)
  | NoWorkingDirectory
  | ConfigRejected.

(** How [main] ends: by returning, or by [process::exit]. *)
Inductive ending : Type := Returned (r : result unit CliError) | Exited (code : Z).

Record Cli : Type := mkCli { printed : list str; ends : ending; world : World }.

Definition failed (e : CliError) (w : World) : Cli := mkCli [] (Returned (Err e)) w.

(** [fs::read_to_string] *)
Definition read_to_string (w : World) (p : str) : result str CliError :=
  b ←! ok_or (files w !! p) (CannotRead p); if utf8_valid b then Ok b else Err (CannotRead p).

(** ** The rule-set commands *)

Fixpoint parse_output_flag (args : list str) : result str CliError :=
  match args with
  | [] => Err MissingFlag
  | a :: args =>
      if bool_decide (a = lit "-o") then match args with v :: _ => Ok v | [] => Err FlagNeedsArgument end
      else match strip_prefix (lit "-o=") a with Some v => Ok v | None => parse_output_flag args end
  end.

Section Commands.
Context {FST : FstLib} {RX : RegexLib} {JT : JsonText}.

(** JSON by the name or by the first character, or else the text format. *)
Definition compile_source (input src : str) : run (result CompiledRuleSet RuleSetError) :=
  if ends_with (lit ".json") input || starts_with [123] (trim_start src) then from_singbox_json src
  else Ret (CompiledRuleSet_from_text src).

(** [args] begin with the name of the command. *)
Definition cmd_ruleset (args : list str) (w : World) : run Cli :=
  match args with
  | _ :: input :: _ :: _ :: _ =>
      match (output ←! parse_output_flag (drop 2 args); src ←! read_to_string w input; Ok (output, src)) with
      | Err e => Ret (failed e w)
      | Ok (output, src) =>
          compiled ← compile_source input src;
          match compiled with
          | Err e => Ret (failed (RuleSetFailed e) w)
          | Ok c =>
              buf ← CompiledRuleSet_serialize c;
              match buf with
              | Err e => Ret (failed (RuleSetFailed e) w)
              | Ok buf =>
                  if writable w output then
                    Ret (mkCli [lit "compiled " ++ show_uint (CompiledRuleSet_total_entries c) ++ lit " entries → " ++ output
                                ++ lit " (" ++ show_uint (len buf) ++ lit " bytes)"]
                           (Returned (Ok tt)) (mkWorld (<[output := buf]> (files w)) (dirs w) (writable w) (cwd w)))
                  else Ret (failed (CannotWrite output) w)
              end
          end
      end
  | _ => Ret (mkCli [] (Exited 1) w)
  end.

Definition counted (what : str) (n : Z) : str := what ++ show_uint n.

Definition cmd_inspect (args : list str) (w : World) : run Cli :=
  match args with
  | _ :: path :: _ =>
      match files w !! path with
      | None => Ret (failed (CannotRead path) w)
      | Some data =>
          loaded ← LoadedRuleSet_from_bytes data;
          match loaded with
          | Err e => Ret (failed (RuleSetFailed e) w)
          | Ok l =>
              let counts := [len (l_domains l); len (l_domain_suffixes l); len (l_domain_keywords l); len (l_domain_regexes l);
                             len (l_ipv4_cidrs l); len (l_ipv6_cidrs l); len (l_ports l)] in
              Ret (mkCli ((lit "file:            " ++ path)
                     :: zip_with counted [lit "domains:         "; lit "domain-suffixes: "; lit "domain-keywords: "; lit "domain-regexes:  ";
                                          lit "ipv4-cidrs:      "; lit "ipv6-cidrs:      "; lit "ports:           "] counts
                     ++ [counted (lit "total:           ") (fold_right Z.add 0 counts)]) (Returned (Ok tt)) w)
          end
      end
  | _ => Ret (mkCli [] (Exited 1) w)
  end.

(** A port, or else an address, or else a domain. *)
Definition parse_match_target (s : str) : MatchTarget :=
  match parse_uint u16_max s with
  | Some port => MPort port
  | None => match IpAddr_from_str s with Some ip => MIp ip | None => MDomain s end
  end.

Definition cmd_test_rule (args : list str) (w : World) : run Cli :=
  match args with
  | _ :: path :: query :: _ =>
      match files w !! path with
      | None => Ret (failed (CannotRead path) w)
      | Some data =>
          loaded ← LoadedRuleSet_from_bytes data;
          match loaded with
          | Err e => Ret (failed (RuleSetFailed e) w)
          | Ok l =>
              rs ← RuleSet_from_loaded l;
              match rs with
              | Err e => Ret (failed (RuleSetFailed e) w)
              | Ok rs =>
                  hit ← RuleSet_matches rs (parse_match_target query);
                  Ret (mkCli [(if (hit : bool) then lit "MATCH    " else lit "NO MATCH ") ++ query] (Exited (if (hit : bool) then 0 else 1)) w)
              end
          end
      end
  | _ => Ret (mkCli [] (Exited 1) w)
  end.
End Commands.

(** ** Finding the configuration *)

(** [config.json], or else the only file with that extension. *)
Definition find_config_in_dir (w : World) (dir : str) : result str CliError :=
  let config_json := path_join dir (lit "config.json") in
  if is_file w config_json then Ok config_json
  else
    entries ←! ok_or (dirs w !! dir) (CannotRead dir);
    match List.filter (fun p => is_file w p && bool_decide (file_extension p = Some (lit "json"))) entries with
    | [p] => Ok p
    | [] => Err (NoConfigIn dir)
    | _ => Err (ManyConfigsIn dir)
    end.

Definition parent_or (p base : str) : str := match parent p with Some d => d | None => base end.

(** The configuration file and the directory its paths are relative to. *)
Definition resolve_config_and_base (w : World) (config_arg dir_arg : option str) : result (str * str) CliError :=
  match config_arg, dir_arg with
  | None, Some dir => p ←! find_config_in_dir w dir; Ok (from_utf8_lossy p, dir)
  | Some cfg, None => Ok (cfg, parent_or cfg (lit "."))
  | Some cfg, Some dir => Ok (from_utf8_lossy (path_join dir cfg), dir)
  | None, None => d ←! ok_or (cwd w) NoWorkingDirectory; Ok (from_utf8_lossy (path_join d (lit "config.json")), d)
  end.

(** The settings that are paths: cache file, interface directory, rule sets, and the
    files of local and remote providers. *)
Inductive ProviderPath : Type := LocalPath (p : str) | RemotePath (p : option str).

Record PathSettings : Type := mkPaths {
  cache_file_path : option str;
  external_ui : option (option str);
  rule_set_paths : list (option str);
  provider_paths : list ProviderPath
}.

(** [|p| if absolute { p } else { base_dir.join(p) }] *)
Definition resolve_one (base p : str) : str := if is_absolute p then p else from_utf8_lossy (path_join base p).

Definition resolve_paths (base : str) (c : PathSettings) : PathSettings :=
  mkPaths (resolve_one base <$> cache_file_path c)
    (fmap (M := option) (resolve_one base) <$> external_ui c)
    (map (fmap (M := option) (resolve_one base)) (rule_set_paths c))
    (map (fun p => match p with LocalPath p => LocalPath (resolve_one base p) | RemotePath p => RemotePath (resolve_one base <$> p) end)
       (provider_paths c)).

(** [Config::from_file] as far as the command line is concerned: the paths of a
    configuration that is accepted, and its log level. *)
Class ConfigText : Type := { config_from_text : str -> option (PathSettings * str) }.

(** ** Running *)

Record RunArgs : Type := mkRunArgs { ra_config : option str; ra_dir : option str; ra_log : option str }.

(** What the arguments ask for. *)
Inductive CliRequest : Type :=
  | RunProxy (a : RunArgs)
  | ShowHelp
  | ShowVersion
  | UnknownArgument (a : str)
  | BadArgument (e : CliError).

(** The loop over the arguments; an option at the end has no value. *)
Fixpoint parse_args (w : World) (args : list str) (acc : RunArgs) : CliRequest :=
  match args with
  | [] => RunProxy acc
  | a :: args =>
      if bool_decide (a = lit "--config") || bool_decide (a = lit "-c") then
        match args with
        | v :: args => parse_args w args (mkRunArgs (Some v) (ra_dir acc) (ra_log acc))
        | [] => RunProxy (mkRunArgs None (ra_dir acc) (ra_log acc))
        end
      else if bool_decide (a = lit "--dir") || bool_decide (a = lit "-d") then
        match args with
        | v :: args => if is_dir w v then parse_args w args (mkRunArgs (ra_config acc) (Some v) (ra_log acc)) else BadArgument (NotADirectory v)
        | [] => BadArgument DirNeedsPath
        end
      else if bool_decide (a = lit "--log") || bool_decide (a = lit "-l") then
        match args with
        | v :: args => parse_args w args (mkRunArgs (ra_config acc) (ra_dir acc) (Some v))
        | [] => RunProxy (mkRunArgs (ra_config acc) (ra_dir acc) None)
        end
      else if bool_decide (a = lit "--help") || bool_decide (a = lit "-h") then ShowHelp
      else if bool_decide (a = lit "--version") || bool_decide (a = lit "-v") then ShowVersion
      else UnknownArgument a
  end.

(** What the proxy is started with. *)
Record Start : Type := mkStart { st_config : str; st_paths : PathSettings; st_level : str }.

(** [init_tracing]: the levels it knows, anything else counts as [info]. *)
Definition max_level (level : str) : str :=
  if existsb (fun l => bool_decide (level = l)) [lit "trace"; lit "debug"; lit "warn"; lit "error"; lit "off"] then level else lit "info".

Section Run.
Context {CT : ConfigText}.

Definition load_config (w : World) (path base : str) : result (PathSettings * str) CliError :=
  src ←! read_to_string w path;
  c ←! ok_or (config_from_text src) ConfigRejected;
  Ok (resolve_paths base c.1, c.2).

(** [run_proxy] up to the start of the proxy. *)
Definition run_proxy (args : list str) (w : World) : Start + Cli :=
  match parse_args w (drop 1 args) (mkRunArgs None None None) with
  | ShowHelp | ShowVersion => inr (mkCli [] (Returned (Ok tt)) w)
  | UnknownArgument _ => inr (mkCli [] (Exited 1) w)
  | BadArgument e => inr (failed e w)
  | RunProxy a =>
      match (cb ←! resolve_config_and_base w (ra_config a) (ra_dir a); c ←! load_config w cb.1 cb.2; Ok (cb.1, c)) with
      | Err e => inr (failed e w)
      | Ok (path, c) => inl (mkStart path c.1 (max_level (match ra_log a with Some l => l | None => c.2 end)))
      end
  end.

Definition cmd_check (path : str) (w : World) : Cli :=
  match load_config w path (parent_or path (lit ".")) with
  | Err e => failed e w
  | Ok _ => mkCli [lit "config OK: " ++ path] (Returned (Ok tt)) w
  end.

Context {FST : FstLib} {RX : RegexLib} {JT : JsonText}.

(** [main] *)
Definition main (args : list str) (w : World) : run (Start + Cli) :=
  match args with
  | _ :: c :: rest =>
      if bool_decide (c = lit "ruleset") then r ← cmd_ruleset (c :: rest) w; Ret (inr r)
      else if bool_decide (c = lit "inspect") then r ← cmd_inspect (c :: rest) w; Ret (inr r)
      else if bool_decide (c = lit "test-rule") then r ← cmd_test_rule (c :: rest) w; Ret (inr r)
      else if bool_decide (c = lit "check") then Ret (inr (cmd_check (match rest with p :: _ => p | [] => lit "config.json" end) w))
      else Ret (run_proxy args w)
  | _ => Ret (run_proxy args w)
  end.
End Run.

(** ** What the commands come to *)

Definition reflex : str := lit "reflex".

Section Spec.
Context {CT : ConfigText} {FST : FstLib} {RX : RegexLib} {JT : JsonText} {FL : FstLaws} {RL : RegexLaws}.

Lemma compile_source_ok input src c : compile_source input src = Ret (Ok c) -> compiled_ok c.
Proof.
  unfold compile_source. destruct (_ || _).
  - intros H. by apply from_singbox_adds in H as (env & _ & Hc & _).
  - intros [= H]. by apply from_text_compiled_ok in H.
Qed.

Lemma main_ruleset input output w : main [reflex; lit "ruleset"; input; lit "-o"; output] w =
  (r ← cmd_ruleset [lit "ruleset"; input; lit "-o"; output] w; Ret (inr r)).
Proof. reflexivity. Qed.

Lemma main_test_rule path query w : main [reflex; lit "test-rule"; path; query] w =
  (r ← cmd_test_rule [lit "test-rule"; path; query] w; Ret (inr r)).
Proof. reflexivity. Qed.

Lemma cmd_ruleset_writes input output src c buf w : read_to_string w input = Ok src -> compile_source input src = Ret (Ok c) ->
  CompiledRuleSet_serialize c = Ret (Ok buf) -> writable w output = true ->
  exists r, cmd_ruleset [lit "ruleset"; input; lit "-o"; output] w = Ret r /\ ends r = Returned (Ok tt) /\
    world r = mkWorld (<[output := buf]> (files w)) (dirs w) (writable w) (cwd w).
Proof.
  intros Hs Hc Hb Hw. unfold cmd_ruleset. change (parse_output_flag _) with (Ok (E := CliError) output).
  cbn [result_bind]. rewrite Hs. cbn [result_bind]. rewrite Hc, bind_Ret, Hb, bind_Ret, Hw. by eexists.
Qed.

Lemma cmd_test_rule_answers path query w data l rs (hit : bool) : files w !! path = Some data -> LoadedRuleSet_from_bytes data = Ret (Ok l) ->
  RuleSet_from_loaded l = Ret (Ok rs) -> RuleSet_matches rs (parse_match_target query) = Ret hit ->
  cmd_test_rule [lit "test-rule"; path; query] w =
  Ret (mkCli [(if hit then lit "MATCH    " else lit "NO MATCH ") ++ query] (Exited (if hit then 0 else 1)) w).
Proof. intros Hf Hl Hr Hm. unfold cmd_test_rule. by rewrite Hf, Hl, bind_Ret, Hr, bind_Ret, Hm, bind_Ret. Qed.


(** Of a compiled file, [inspect] counts no domain and no suffix: they are in the
    automata, which it does not read. *)
Lemma inspect_counts_no_domains c f sf : serializable c f sf ->
  exists buf l, CompiledRuleSet_serialize c = Ret (Ok buf) /\ LoadedRuleSet_from_bytes buf = Ret (Ok l) /\
    l_domains l = [] /\ l_domain_suffixes l = [].
Proof. intros H. destruct (serialize_load_ok _ _ _ H) as (buf & Eb & El). by eexists _, _. Qed.

(** The flag joined to its value is read, but the command asks for one argument more. *)
Lemma joined_flag_refused input output w : parse_output_flag [lit "-o=" ++ output] = Ok output /\
  cmd_ruleset [lit "ruleset"; input; lit "-o=" ++ output] w = Ret (mkCli [] (Exited 1) w).
Proof. split; [|done]. reflexivity. Qed.
End Spec.

(** An option without its value at the end counts as not given, and [check -d] takes
    the flag for the file. *)
Lemma dangling_config w : parse_args w [lit "-c"] (mkRunArgs None None None) = RunProxy (mkRunArgs None None None).
Proof. reflexivity. Qed.

Lemma check_takes_flag {CT : ConfigText} {FST : FstLib} {RX : RegexLib} {JT : JsonText} dir w :
  main [reflex; lit "check"; lit "-d"; dir] w = Ret (inr (cmd_check (lit "-d") w)).
Proof. reflexivity. Qed.

(** ** The paths of a configuration *)

Definition all_paths (c : PathSettings) : list str :=
  let opt (o : option str) := match o with Some p => [p] | None => [] end in
  opt (cache_file_path c) ++ match external_ui c with Some o => opt o | None => [] end ++ flat_map opt (rule_set_paths c)
  ++ flat_map (fun p => match p with LocalPath p => [p] | RemotePath o => opt o end) (provider_paths c).

Lemma resolve_one_absolute base p : is_absolute p = true -> resolve_one base p = p.
Proof. unfold resolve_one. by intros ->. Qed.

Lemma path_join_absolute base p : is_absolute base = true -> is_absolute (path_join base p) = true.
Proof.
  intros Hb. unfold path_join. destruct (is_absolute p) eqn:Hp; [done|]. unfold path_push.
  assert (H : forall s, is_absolute (base ++ s) = true) by (intros s; destruct base; [done|exact Hb]).
  destruct (last base) as [b|]; [|apply H]. by repeat case_match.
Qed.

(** Resolved against an absolute directory every path is absolute; the configured
    paths that are absolute stay. *)
Lemma resolve_paths_all base c : all_paths (resolve_paths base c) = map (resolve_one base) (all_paths c).
Proof.
  destruct c as [cf ui rs ps]. unfold all_paths, resolve_paths. cbn. rewrite !map_app. repeat f_equal.
  - by destruct cf.
  - by destruct ui as [[|]|].
  - induction rs as [|[p|] rs IH]; cbn; [done| |done]. by rewrite IH.
  - induction ps as [|[p|[p|]] ps IH]; cbn; [done| | |done]; by rewrite IH.
Qed.

(** With a relative directory they stay relative. *)
Example relative_base_stays_relative : resolve_one (lit "conf") (lit "cache.db") = lit "conf/cache.db".
Proof. vm_compute. reflexivity. Qed.

(** ** Witness *)

Definition rules_world : World := mkWorld {[ lit "cn.txt" := sample_text ]} ∅ (fun _ => true) (Some (lit "/home")).

Definition NoConfig : ConfigText := {| config_from_text _ := None |}.
Definition NoJson : JsonText := {| json_from_str _ := None |}.

